(* ===== verification/_CoqProject ===== *)
-Q . S2P
Prelude.v
Result.v
RtTypes.v
KVInterface.v
Serde.v
IDatabase.v
Database.v
DatabaseMap.v
KVStorage.v
ProdDatabase.v
Queue.v
Logs.v
StateMachine.v
Election.v
RaftNode.v
RaftProcess.v
RaftNodeProps.v
RaftCluster.v
RaftElection.v
RaftTrace.v
RaftInvariant.v
RaftProcessOk.v
RaftLogMatching.v
RaftLogSafety.v
RaftReplies.v
RaftHandlers.v
RaftEffects.v
RaftTimely.v
RaftCompleteness.v
RaftCommit.v
RaftExamples.v
MtfNode.v
MtfProcess.v
MtfCluster.v
MtfElection.v
MtfTrace.v
MtfProps.v
MtfBehaviour.v
Cancellation.v
Sync.v
SimTime.v
SimNetwork.v
SimScheduler.v
SimFibers.v
SimRuntime.v
SimFibersProps.v
SimClients.v
SimFiberSafety.v
SimServer.v
SimTestLib.v
SimTimeTests.v
SimRpcTests.v
SimTests.v
SimDatabaseTests.v
RaftClient.v
Parse.v
SimLogger.v
HistoryChecker.v
HistoryParser.v
HistoryRoundTrip.v
RaftSim.v
RaftSimClient.v
RaftSimTests.v
RaftSimPrograms.v
RaftSimStorage.v
RaftSimRefine.v
RaftSimRuns.v
RpcGenerator.v
RpcGeneratorProps.v
ProdServer.v
QueueMain.v
ProdServerProps.v
ProdClient.v
ProdRpc.v
ProdClientClose.v
ProdSleep.v
ProdSleepInv.v
ProdSleepProps.v
UnitTests.v
ProdDatabaseTests.v
