(* ===== verification/Prelude.v ===== *)
(** * Verification of metamorphosis

    ** The program

    The repository implements two replicated logs and the runtime they run on:

    - [raft::RaftNode] (src/raft/node/node.cpp): a Raft node that replicates
      commands to a user state machine, wrapped for exactly-once execution
      (src/raft/node/state_machine_wrapper.cpp), and its client
      (src/raft/client);
    - [MetamorphosisNode] (src/metamorphosis/node/node.cpp): a variant in which
      a leader sends the messages only to the "main" nodes and their MD5 hashes
      to the others, with per-producer counters against reordering;
    - a queue service on a key-value storage (src/queue/service.cpp) and its
      process;
    - the runtime (src/runtime): key-value storage on a database, RPC, time,
      cancellation, and a deterministic simulator of hosts, network, disk and
      time, which also is the environment all of the above is tested in.

    Nodes talk through RPC handlers and client calls; each keeps its term, vote
    and log in key-value storages, which survive a crash; within a node, fibers
    share the node's state and interleave at the points where they suspend.

    ** The development

    Every C++ function is a Rocq function on explicit state. [uint64_t] is an
    integer with its wrap-around written out ([add64], [sub64]); a function that
    can abort ([VERIFY], [ExpectOk], [GetValue]) or leave the defined behaviour
    of C++ returns an [outcome]; fallible operations return [Result] as in the
    source. A method that suspends its fiber is split at the suspension points.
    Protobuf's [Any], the user state machine, the comparison of messages,
    protobuf serialization, MD5, RocksDB, the random numbers and the floating
    point arithmetic are parameters.

    Files and the sources they model (paths under src/):

    - Prelude.v: integers, outcomes, loops, counting and shared lemmas; Result.v:
      util/result.h; RtTypes.v: errors, endpoints and durations of runtime;
      Logs.v: generic lemmas on logs kept in a storage.
    - Storage. Serde.v: runtime/util/serde. IDatabase.v: the virtual functions
      of runtime/database.h as a class [IDatabase], and the class [Store] of what
      a database promises to its clients. Database.v:
      runtime/simulator/database.cpp, an ordered map of byte strings with
      batches and iterators; DatabaseMap.v: it is a [Store] for every comparator
      that is a strict total order on the keys. ProdDatabase.v:
      runtime/production/database.cpp over RocksDB, which is the class [RocksDB]
      with its documented behaviour as [RocksDBLaws] and [RocksOpenLaws]; it is a
      [Store] too.
      KVStorage.v: runtime/kv_storage.h on any [Store], refined to the finite
      maps of KVInterface.v, which the models of the nodes and the queue use.
      Queue.v: queue/service.cpp, against the interface
      [StorageOps]/[StorageLaws], with the instance for [KVStorage];
      QueueMain.v: its [main], composed with ProdServer.v and the fibers of the
      thread of [main].
    - Raft. StateMachine.v: the exactly-once wrapper. Election.v: voting in the
      abstract, shared by both kinds of nodes. RaftNode.v: the state and
      the methods of [RaftNode]; RaftProcess.v: its fibers as a step function of
      a process; RaftCluster.v: processes, an asynchronous network that may
      lose, delay, reorder and duplicate packets, crashes and restarts, with the
      history of votes, leaders and created entries; RaftTrace.v: executable
      runs. RaftClient.v: raft/client and the backoff.
    - Raft in the simulator. RaftSim.v: node.cpp as programs of fibers on the
      simulated runtime, with its sessions, timers, stop sources and databases;
      RaftSimClient.v: client.cpp; RaftSimTests.v: the hosts and tests of
      raft/test/simulation_test; RaftSimPrograms.v: they use the simulator
      through its interface only; RaftSimRuns.v: runs of the tests.
    - Metamorphosis. MtfNode.v and MtfProcess.v: the methods and the fibers of
      [MetamorphosisNode]; MtfCluster.v: clusters of them; MtfTrace.v:
      executable runs.
    - Tests. HistoryChecker.v: the linearizability checker and the logging state
      machine of raft/test/util; HistoryParser.v and HistoryRoundTrip.v: the
      history that the clients of the system test print
      (raft/test/exe/client.cpp) and the program that parses and checks it
      (raft/test/system_test/history_checker.cpp), with the input stream and its
      state bits. UnitTests.v: the unit tests of [Result] and of cancellation as
      programs of the model; ProdDatabaseTests.v: those of
      runtime/production/ut/database.cpp. SimTestLib.v, SimTimeTests.v,
      SimRpcTests.v, SimTests.v, SimDatabaseTests.v: the tests of the simulator
      (simulator/ut) as programs of fibers, and their runs.
    - RPC. RpcGenerator.v: the protoc plugins of runtime/rpc_generator,
      production/rpc_generator and simulator/rpc_generator, as the commands they
      give to the printer of protobuf. ProdServer.v and ProdClient.v: the server
      and the client of runtime/production with one program counter per thread
      and gRPC as the environment; ProdClientClose.v: cancellation of calls and
      the destructor of the client; ProdRpc.v: client and server joined, with
      the tests of runtime/production/ut/rpc.cpp.
    - Production time. ProdSleep.v: [Now], [SleepFor] and [SleepUntil] of
      runtime/production/time.cpp together with [StopSource::Stop] and
      [StopCallback], as fibers on threads with spin locks and fiber mutexes;
      ProdSleepInv.v: its invariants.
    - Simulator and concurrency. SimTime.v: clocks, sleeps and the event queue
      (simulator/host.cpp, world.cpp, util/binary_search.h); SimNetwork.v:
      hosts, servers, links and the path of a request (host.cpp, world.cpp,
      rpc_server.cpp, the typed wrappers); SimScheduler.v: scheduler.cpp.
      SimFibers.v: a machine for programs of cooperative fibers, with the
      scheduler of SimScheduler.v, condition variables, random draws and the
      state of a simulation; what the source uses of Boost.Fiber is one
      constructor of its programs each. SimRuntime.v: world.cpp, host.cpp,
      rpc_server.cpp, rpc_client_base, rpc_service_base, time.cpp and api.cpp
      statement by statement as programs of that machine. SimFibersProps.v:
      reachable states and invariants of the machine, and exploration of all
      runs; SimClients.v: the programs that use the simulator through its
      interface, and what an invariant of the runtime has to satisfy.
      SimLogger.v: simulator/logger.cpp, over the formatter of spdlog.
      Cancellation.v: runtime/util/cancellation; Sync.v: spin lock, event and
      latch. Parse.v: runtime/util/parse.

    ** What is proved

    - Raft, for all reachable clusters: at most one leader per term
      (RaftElection.v, by a simulation of Election.v); logs that agree on an entry agree before it, the state
      machine of a node is the result of its committed prefix, and committed
      entries of a running node stay (RaftInvariant.v, RaftProcessOk.v,
      RaftLogMatching.v, RaftLogSafety.v, by invariants over the steps of
      processes and cluster); a call of [Execute] that is answered [Commited]
      gets the output for the entry that was created for it (RaftReplies.v);
      what the handlers and the commit rule do on every branch
      (RaftHandlers.v). Over a network that delivers an
      [AppendEntries] only while its sender waits, leader completeness and state
      machine safety hold: no committed entry is ever lost or replaced
      (RaftEffects.v, RaftTimely.v, RaftCompleteness.v, RaftCommit.v, by
      arguments over the list of all clusters of an execution;
      RaftExamples.v runs one). Two theorems show where the program falls
      short of Raft: over other networks a delayed [AppendEntries] can remove an
      entry that its sender counted as replicated, so that a committed entry is
      lost (RaftExamples.v), and a cluster of one node never elects a leader.
    - Raft in the simulator: for every schedule, network, crash and restart,
      also in the middle of a handler, the databases of the nodes change only
      by steps of a specification, so terms never decrease and a vote is never
      taken back (RaftSimStorage.v); the tests pass with sample generators and
      their histories are linearizable (RaftSimRuns.v). The code of RaftSim.v,
      where it is not interrupted at the calls of the database, does what the
      functions of RaftNode.v do, so the two models of node.cpp agree
      (RaftSimRefine.v).
    - Exactly-once: which requests take effect, and the cases in which a
      request is not executed or executed twice (StateMachine.v).
    - Client: after which attempts the loop goes on, the targets and identifiers
      of the attempts and the result of a call under cancellation and timeouts,
      where the exchange of the state and the stop of the source are separate
      actions (RaftClient.v).
    - Metamorphosis: at most one leader per term (MtfElection.v, by the same
      simulation), and a run in which a delayed request loses an acknowledged
      message (MtfTrace.v); exactly which entries a session sends, and to whom as
      messages and to whom as hashes, that the main nodes are a majority, how the
      producer counters and the log are related after every operation (they
      agree unless an accepted request starts before the commit index), what
      [Append] and [Read] answer, and the scenarios in which resending duplicates
      or loses messages (MtfProps.v, MtfBehaviour.v).
    - Storage: the key-value storage refines a finite map, iteration, opening;
      a program of storage operations gets the same answers from the simulated
      database and from the adapter over RocksDB, and errors of RocksDB become
      error values (ProdDatabase.v); the queue returns exactly the messages written and not trimmed, among
      them all that were acknowledged, under interleaved requests and restarts,
      and reuses numbers after a full trim. The process of the
      queue never handles a request: the fiber that should is posted on the
      thread that [main] blocks (QueueMain.v).
    - Runtime: reference counts and the intrusive callback list of the
      cancellation library, mutual exclusion, latch counting, wake-up times and
      the order of events, at-most-once execution of remote calls, killed hosts,
      scheduling, parsing and printing.
    - RPC: every template of a generated file prints, and a generated client
      calls the name under which the service registers the method
      (RpcGeneratorProps.v). For every interleaving of its threads the production
      server uses no deleted call, answers every accepted call once and leaves
      nothing behind when [ShutDown] returns, which it does
      (ProdServerProps.v); the client returns every call with the result of its
      status and loses no wake-up (ProdClient.v), and its destructor returns
      after every call has completed (ProdClientClose.v); joined by gRPC, and
      with the steps of the handlers interleaved, the steps made for a call are
      one run of its handler on its request, the shared state is threaded through
      the steps, and a call returns what its handler replied or an error of gRPC
      (ProdRpc.v). Starting or stopping the server at the wrong moment breaks it,
      and handler errors lose their type.
    - Production time, for every interleaving of fibers and threads that sleep
      and stop: the locks exclude each other and callbacks use only live frames,
      a sleep returns true only after a stop and false only in time, and nobody
      blocks if a thread that stops runs no other fiber; otherwise a fiber can
      spin for ever (ProdSleepProps.v).
    - Simulator, for all programs that use its interface, all tables of hosts
      and services and all draws: the simulated time never goes back within a
      simulation and no event is in the past (SimClients.v); a server calls a
      handler only after a worker called [Run], and when [ShutDown] returns every
      accepted request is answered and every handler has returned (SimServer.v, by
      following the program of each fiber between its suspensions); every
      suspended fiber is at exactly one place (SimFiberSafety.v). The history of a
      simulation is not part of the code, it records the calls these statements
      are about; the calls of handlers and their returns are recorded by the
      machine where it makes them. A fiber that a handler starts
      before it is suspended belongs to the host of the client, and a [Stop]
      after the end of a simulation is undefined (SimTests.v). Every line of a
      log begins with the time of the world (SimLogger.v).
    - Tests: the tests of the simulator pass on the model, the small ones with
      every order of the fibers and every draw (SimTests.v); the checker
      decides linearizability of histories whose answers differ in length, and
      accepts repeated answers; the program that runs it terminates, reads back
      what the clients print, also if the output ends in the middle of a line,
      and its exit code tells whether the history is linearizable, but a line
      that is cut off before the output of another client hides that output
      (HistoryRoundTrip.v). The unit tests pass on the model, those of the
      production database on every RocksDB that keeps its promises.

    Bounds. Results about 64-bit counters hold for runs of fewer than 2^64 - 3
    steps ([small] in Logs.v, [reachable_in]) or objects; times are below half
    the range of a 64-bit count ([horizon]). [find_commit] has the length of the
    interval it scans as fuel, [BinarySearch] one unit per halving of a 63-bit
    interval, [Stop_loop] and [collect] the number of callbacks and entries;
    each bound is proved to suffice where the function is used. The parser of
    histories has one unit for every character left and one for the failure of
    the stream ([measure]); [ParseHistory_total] shows that this is enough.
    [run] makes at
    most [2 ^ depth] steps of the machine of fibers and [explore] a given number
    of steps on every branch; both give a result that a test passes only for runs
    that have ended, so too small a bound makes the statement false.
    [Stop_nested] follows callbacks that stop other sources to depth 16 and is
    undefined beyond it; the code nests two deep. Tests that repeat something
    thousands of times have the number, or the duration, as a parameter and are
    run with a smaller one.

    Granularity. In RaftProcess.v, RaftCluster.v and their counterparts for
    metamorphosis a handler, and an iteration of a session up to its next remote
    call, is one step: crashes and other fibers come between such steps, as for
    synchronous calls of the database. RaftSim.v has the calls of the simulated
    database as suspension points, where a host may be paused or killed and other
    fibers run; RaftSimStorage.v is about these interleavings. In ProdServer.v
    [server_->Shutdown()] is one step that stops the arrival of requests; that
    gRPC also waits there for calls in progress is covered by the wait for the
    latch that follows and waits for the same calls, as long as the handlers run
    on another thread than [ShutDown]. The theorems on the production server are
    for a port that is free, a [ShutDown] that is not called before the first
    call is requested, and workers on threads of their own.

    ** Not modelled

    Production logging, backtraces and the sources of random numbers (their values
    are arguments of the models): they only print or draw. The command line
    programs of the nodes and clients, the interactive mode of the test client
    and the benchmark: options, printing and calls of modelled functions. The
    durations in the tests of production RPC. Of the production sleep, the choice
    of boost.fiber among ready fibers is not fixed. The operations of RaftSim.v on
    the databases are the finite maps that KVStorage.v refines; of their calls of
    [StopFiberIfNecessary] only the first between two suspension points is kept,
    as the others have no effect.

    ** Prelude

    This file has the machine integers, the outcome type with its loops, counting
    in lists, and the lemmas on them that all files share. *)

From stdpp Require Export prelude numbers gmap strings list.

(** ** Machine integers

    [uint64_t] and [size_t] values are integers of [Z] kept in [0, 2^64) by
    writing the wrap-around where the source can overflow. *)

Declare Scope u64_scope.
Delimit Scope u64_scope with u64.

Definition u64_modulus : Z := 2 ^ 64.
Definition u64_max : Z := u64_modulus - 1.
Definition wrap64 (z : Z) : Z := z `mod` u64_modulus.
Definition is_u64 (z : Z) : Prop := (0 ≤ z ≤ u64_max)%Z.
Definition add64 (a b : Z) : Z := wrap64 (a + b).
Definition sub64 (a b : Z) : Z := wrap64 (a - b).
Notation "a +64 b" := (add64 a b) (at level 50, left associativity) : u64_scope.
Notation "a -64 b" := (sub64 a b) (at level 50, left associativity) : u64_scope.
Open Scope u64_scope.

#[export] Instance is_u64_dec z : Decision (is_u64 z).
Proof. unfold is_u64. apply _. Defined.

Lemma wrap64_small z : is_u64 z → wrap64 z = z.
Proof. unfold is_u64, u64_max, wrap64. intros. apply Z.mod_small. lia. Qed.

Lemma wrap64_range z : is_u64 (wrap64 z).
Proof.
  unfold is_u64, u64_max, wrap64.
  pose proof (Z.mod_pos_bound z u64_modulus ltac:(reflexivity)). lia.
Qed.

Lemma add64_small a b : is_u64 (a + b) → a +64 b = (a + b)%Z.
Proof. apply wrap64_small. Qed.

Lemma sub64_small a b : is_u64 (a - b) → a -64 b = (a - b)%Z.
Proof. apply wrap64_small. Qed.

(** ** Outcomes

    A C++ function either returns ([Done]), terminates the process through
    [VERIFY], [ExpectOk] or [GetValue] ([Panic], see src/util/condition_check.h),
    or leaves the defined behaviour of the language ([Undefined], for instance
    a vector indexed past its end). *)

Inductive outcome (A : Type) : Type :=
  | Done (a : A)
  | Panic (message : string)
  | Undefined (what : string).
Arguments Done {A} a.
Arguments Panic {A} message.
Arguments Undefined {A} what.

#[export] Instance outcome_ret : MRet outcome := λ A, Done.
#[export] Instance outcome_bind : MBind outcome := λ A B k m,
  match m with
  | Done a => k a
  | Panic msg => Panic msg
  | Undefined w => Undefined w
  end.
#[export] Instance outcome_fmap : FMap outcome := λ A B f m, m ≫= λ a, Done (f a).

(** [VERIFY(condition, message)] of src/util/condition_check.h. *)
Definition verify (condition : bool) (message : string) : outcome unit :=
  if condition then Done () else Panic message.

(** [v[i]] on a [std::vector]: no bounds check in the source. *)
Definition vec_get {A} (v : list A) (i : nat) : outcome A :=
  match v !! i with
  | Some a => Done a
  | None => Undefined "vector index out of range"
  end.

Definition vec_set {A} (v : list A) (i : nat) (a : A) : outcome (list A) :=
  if decide (i < length v)%nat then Done (<[i := a]> v)
  else Undefined "vector index out of range".

(** A loop whose body may abort; [for_each xs body s] runs [body] on the
    elements of [xs] from left to right, threading the state. *)
Fixpoint for_each {A S} (xs : list A) (body : A → S → outcome S) (s : S) : outcome S :=
  match xs with
  | [] => Done s
  | x :: xs => s' ← body x s; for_each xs body s'
  end.

(** The indices of [for (i = lo; i < hi; ++i)]. *)
Definition range (lo hi : Z) : list Z := seqZ lo (hi - lo).

Section outcome_lemmas.
Context {A B : Type}.
Implicit Types m : outcome A.

Lemma bind_Done {C} (m : outcome C) (k : C → outcome B) b : m ≫= k = Done b ↔ ∃ a, m = Done a ∧ k a = Done b.
Proof. destruct m; split; try done; [by eauto|by intros (? & [= <-] & ?)|..]; by intros (? & ? & ?). Qed.

Lemma fmap_Done (f : A → B) m b : f <$> m = Done b ↔ ∃ a, m = Done a ∧ f a = b.
Proof.
  unfold fmap, outcome_fmap. rewrite bind_Done.
  split; intros (a & ? & Hb); exists a; by simplify_eq.
Qed.
End outcome_lemmas.

Lemma bind_Done_eq {A B} (a : A) (k : A → outcome B) : (Done a ≫= k) = k a.
Proof. done. Qed.

Lemma verify_Done c msg u : verify c msg = Done u ↔ c = true.
Proof. by destruct c, u. Qed.

Lemma vec_get_Done {A} (v : list A) i a : vec_get v i = Done a ↔ v !! i = Some a.
Proof. unfold vec_get. destruct (v !! i); split; congruence. Qed.

Lemma vec_set_Done {A} (v : list A) i a v' :
  vec_set v i a = Done v' ↔ (i < length v)%nat ∧ v' = <[i := a]> v.
Proof.
  unfold vec_set. case_decide; split; [by intros [= <-]|by intros [? ->]|done|by intros [? ?]].
Qed.

Lemma elem_of_range i lo hi : i ∈ range lo hi ↔ (lo ≤ i < hi)%Z.
Proof. unfold range. rewrite elem_of_seqZ. lia. Qed.

Lemma range_nil lo hi : (hi ≤ lo)%Z → range lo hi = [].
Proof. intros. unfold range. apply seqZ_nil. lia. Qed.

Lemma range_cons lo hi : (lo < hi)%Z → range lo hi = lo :: range (lo + 1) hi.
Proof.
  intros. unfold range. rewrite seqZ_cons by lia.
  replace (Z.pred (hi - lo)) with (hi - (lo + 1))%Z by lia. done.
Qed.

Lemma range_snoc lo hi : (lo ≤ hi)%Z → range lo (hi + 1) = range lo hi ++ [hi].
Proof.
  intros. unfold range. replace (hi + 1 - lo)%Z with ((hi - lo) + 1)%Z by lia.
  rewrite seqZ_app by lia. f_equal. simpl. by replace (lo + (hi - lo))%Z with hi by lia.
Qed.

Lemma length_range lo hi : length (range lo hi) = Z.to_nat (hi - lo).
Proof. unfold range. by rewrite length_seqZ. Qed.

(** A loop that preserves an invariant and whose body never aborts under it
    never aborts. *)
Lemma for_each_total {A S} (P : list A → S → Prop) xs body s :
  P xs s →
  (∀ x xs' s', P (x :: xs') s' → ∃ s'', body x s' = Done s'' ∧ P xs' s'') →
  ∃ s', for_each xs body s = Done s' ∧ P [] s'.
Proof.
  intros HP Hstep. revert s HP. induction xs as [|x xs IH]; intros s HP; simpl.
  - eauto.
  - destruct (Hstep _ _ _ HP) as (s' & -> & HP'). simpl. auto.
Qed.

(** Partial correctness of a loop. *)
Lemma for_each_inv {A S} (P : list A → S → Prop) xs body s s' :
  for_each xs body s = Done s' →
  P xs s →
  (∀ x xs' s1 s2, P (x :: xs') s1 → body x s1 = Done s2 → P xs' s2) →
  P [] s'.
Proof.
  intros Hrun HP Hstep. revert s Hrun HP.
  induction xs as [|x xs IH]; intros s Hrun HP; simpl in Hrun.
  - by simplify_eq.
  - apply bind_Done in Hrun as (s1 & H1 & H2). eauto.
Qed.

Lemma for_each_app {A S} (xs ys : list A) (body : A → S → outcome S) s :
  for_each (xs ++ ys) body s = for_each xs body s ≫= for_each ys body.
Proof.
  revert s. induction xs as [|x xs IH]; intros s; [done|].
  simpl. destruct (body x s); simpl; auto.
Qed.

(** A loop that collects one result per index. *)
Lemma for_each_collect {A} (g : Z → outcome A) lo hi l :
  for_each (range lo hi) (λ i acc, a ← g i; Done (acc ++ [a])) [] = Done l →
  length l = Z.to_nat (hi - lo) ∧ ∀ k a, l !! k = Some a → g (lo + Z.of_nat k)%Z = Done a.
Proof.
  intros H.
  set (P := λ (xs : list Z) (acc : list A),
    xs = range (lo + Z.of_nat (length acc)) hi ∧
    (length acc ≤ Z.to_nat (hi - lo))%nat ∧
    ∀ k a, acc !! k = Some a → g (lo + Z.of_nat k)%Z = Done a).
  assert (HP : P [] l).
  { refine (for_each_inv P _ _ _ _ H _ _).
    { split_and!; [by rewrite Z.add_0_r|simpl; lia|intros k a; by rewrite lookup_nil]. }
    intros i xs acc acc' (Hxs & Hle & Hacc) Hb. apply bind_Done in Hb as (a & Ha & [= <-]).
    destruct (decide (lo + Z.of_nat (length acc) < hi)%Z) as [Hlt|]; [|by rewrite range_nil in Hxs by lia].
    rewrite range_cons in Hxs by done. injection Hxs as -> ->. unfold P.
    rewrite length_app. simpl. split_and!; [f_equal; lia|lia|].
    intros k b [Hk|[Hk Hb]]%lookup_app_Some; [by apply Hacc|].
    destruct (k - length acc)%nat eqn:Hd; [|by destruct n]. simpl in Hb. injection Hb as <-.
    by replace k with (length acc) by lia. }
  destruct HP as (Hnil & Hle & Hg). split; [|done].
  destruct (decide (lo + Z.of_nat (length l) < hi)%Z) as [Hlt|]; [|lia].
  by rewrite range_cons in Hnil.
Qed.

(** ** Automation *)

Create HintDb mtf discriminated.
Create Rewrite HintDb mtf_outcome.

(** Decompose every hypothesis that says an outcome is [Done]. *)
Ltac outcome_inv :=
  repeat match goal with
  | H : @mbind outcome _ _ _ _ _ = Done _ |- _ => apply bind_Done in H as (? & ? & ?)
  | H : verify _ _ = Done _ |- _ => apply verify_Done in H
  | H : vec_get _ _ = Done _ |- _ => apply vec_get_Done in H
  | H : vec_set _ _ _ = Done _ |- _ => apply vec_set_Done in H as [? ->]
  | H : Panic _ = Done _ |- _ => discriminate H
  | H : Undefined _ = Done _ |- _ => discriminate H
  | H : Done _ = Done _ |- _ => injection H; clear H; intros; simplify_eq
  | H : (let '(_, _) := ?x in _) = Done _ |- _ => is_var x; destruct x
  | H : mret _ = Done _ |- _ => unfold mret, outcome_ret in H
  | H : bool_decide _ = true |- _ => apply bool_decide_eq_true in H
  | H : bool_decide _ = false |- _ => apply bool_decide_eq_false in H
  end.

(** Case analysis on the next conditional of a hypothesis, then [outcome_inv]. *)
Ltac outcome_case :=
  match goal with
  | H : (if ?c then _ else _) = Done _ |- _ => destruct c eqn:?
  | H : (match ?c with _ => _ end) = Done _ |- _ => destruct c eqn:?
  end; outcome_inv.

(** Case analysis on the outermost conditional of one hypothesis. *)
Tactic Notation "case_if" hyp(H) "as" simple_intropattern(p) :=
  lazymatch type of H with (if ?c then _ else _) = _ => destruct c as p end; outcome_inv.

(** ** Counting occurrences in lists and sums over lists

    The invariants of the production RPC server and client say how often an
    object occurs in the queues and threads; these are the lemmas that turn such
    claims into linear arithmetic. *)

Local Open Scope nat_scope.

Section cnt.
Context {A : Type} `{EqDecision A}.
Implicit Types (x y : A) (l : list A).

Definition same x y : nat := if decide (x = y) then 1 else 0.

Lemma same_refl x : same x x = 1.
Proof. unfold same. by rewrite decide_True. Qed.
Lemma same_ne x y : x ≠ y → same x y = 0.
Proof. intros. unfold same. by rewrite decide_False. Qed.

Fixpoint cnt x l : nat :=
  match l with
  | [] => 0
  | y :: l => same x y + cnt x l
  end.

Lemma cnt_app x l k : cnt x (l ++ k) = cnt x l + cnt x k.
Proof. induction l as [|y l IH]; simpl; lia. Qed.

Lemma cnt_delete x l i y : l !! i = Some y → cnt x l = same x y + cnt x (delete i l).
Proof.
  revert i. induction l as [|z l IH]; intros [|i] Hi; simplify_eq/=; [done|].
  rewrite (IH i) by done. lia.
Qed.

Lemma cnt_insert x l i y z : l !! i = Some y → same x y + cnt x (<[i := z]> l) = same x z + cnt x l.
Proof.
  revert i. induction l as [|w l IH]; intros [|i] Hi; simplify_eq/=; [lia|].
  pose proof (IH i Hi). lia.
Qed.

Lemma cnt_pos x l : 0 < cnt x l ↔ x ∈ l.
Proof.
  induction l as [|y l IH]; simpl.
  - split; [lia|by intros ?%elem_of_nil].
  - rewrite elem_of_cons, <-IH. unfold same. case_decide; [|naive_solver lia]. split; [by left|lia].
Qed.
End cnt.

Lemma same_pair {A B} `{EqDecision A, EqDecision B} (a a' : A) (b b' : B) :
  same (a, b) (a', b') = same a a' * same b b'.
Proof. unfold same. repeat case_decide; naive_solver. Qed.

Lemma cnt_NoDup {A} `{EqDecision A} (l : list A) : (∀ x, cnt x l ≤ 1) → NoDup l.
Proof.
  induction l as [|y l IH]; intros H; [constructor|]. apply NoDup_cons. split.
  - intros Hin%cnt_pos. specialize (H y). simpl in H. rewrite same_refl in H. lia.
  - apply IH. intros x. specialize (H x). simpl in H. lia.
Qed.

Lemma cnt_Permutation {A} `{EqDecision A} (l k : list A) :
  (∀ x, cnt x l ≤ 1) → (∀ x, cnt x l = cnt x k) → l ≡ₚ k.
Proof.
  intros H1 H2. apply NoDup_Permutation.
  - by apply cnt_NoDup.
  - apply cnt_NoDup. intros x. by rewrite <-H2.
  - intros x. by rewrite <-!cnt_pos, H2.
Qed.

Lemma sum_insert {A} (f : A → nat) (l : list A) i x y : l !! i = Some x →
  f x + sum_list (f <$> <[i := y]> l) = f y + sum_list (f <$> l).
Proof.
  revert i. induction l as [|z l IH]; intros [|i] Hi; simplify_eq/=; [lia|]. pose proof (IH i Hi). lia.
Qed.

Lemma sum_delete {A} (f : A → nat) (l : list A) i x : l !! i = Some x →
  sum_list (f <$> l) = f x + sum_list (f <$> delete i l).
Proof.
  revert i. induction l as [|z l IH]; intros [|i] Hi; simplify_eq/=; [lia|]. pose proof (IH i Hi). lia.
Qed.
