(* ===== verification/Result.v ===== *)
(** * [Result<T, E>] of src/util/result.h

    The value-or-error type every fallible operation of the program returns,
    its accessors (which abort the process or throw when the other
    alternative is held) and its monadic operations. *)

From S2P Require Import Prelude.

(** [std::variant<Value, Error>]: index 0 holds a value, index 1 an error;
    [Ok(...)] and [Err(...)] build the two alternatives. *)
Inductive Result (T E : Type) : Type :=
  | Ok (value : T)
  | Err (error : E).
Arguments Ok {T E} value.
Arguments Err {T E} error.

(** [Status<E>] is [Result<void, E>], stored as [Result<std::monostate, E>]. *)
Abbreviation Status E := (Result unit E).

#[export] Instance Result_eq_dec {T E} `{EqDecision T, EqDecision E} : EqDecision (Result T E).
Proof. solve_decision. Defined.

(** What the accessors inspect of the error type at compile time: whether it
    has a [Message()] member, whether it converts to [std::string], whether it
    is a base of [std::exception] or of [std::error_code], and whether it is
    [std::exception_ptr]. *)
Class ErrorTraits (E : Type) := {
  has_message : option (E → string);
  convertible_to_string : option (E → string);
  base_of_exception : bool;
  base_of_error_code : bool;
  is_exception_ptr : bool;
}.

(** What [ThrowIfError] throws. *)
Inductive thrown (E : Type) : Type :=
  | RuntimeError (what : string)
  | ThrownError (e : E)
  | SystemError (e : E)
  | Rethrown (e : E).
Arguments RuntimeError {E} what.
Arguments ThrownError {E} e.
Arguments SystemError {E} e.
Arguments Rethrown {E} e.

Section accessors.
Context {T E : Type}.

Definition HasValue (r : Result T E) : bool :=
  match r with Ok _ => true | Err _ => false end.

Definition HasError (r : Result T E) : bool := negb (HasValue r).

Context `{!ErrorTraits E}.

Definition ExpectOk (r : Result T E) : outcome unit :=
  match r with
  | Ok _ => verify true "Result does not hold value"
  | Err e =>
      match has_message, convertible_to_string with
      | Some message, _ => verify false ("Result does not hold value: " +:+ message e)
      | None, Some text => verify false ("Result does not hold value: " +:+ text e)
      | None, None => verify false "Result does not hold value"
      end
  end.

Definition ExpectFail (r : Result T E) : outcome unit :=
  verify (HasError r) "Result does not hold error".

(** [std::get<0>] and [std::get<1>] after the check. *)
Definition GetValue (r : Result T E) : outcome T :=
  ExpectOk r;;
  match r with Ok v => Done v | Err _ => Undefined "bad variant access" end.

Definition GetError (r : Result T E) : outcome E :=
  ExpectFail r;;
  match r with Err e => Done e | Ok _ => Undefined "bad variant access" end.

(** [None] when nothing is thrown. *)
Definition ThrowIfError (r : Result T E) : option (thrown E) :=
  match r with
  | Ok _ => None
  | Err e => Some
      match convertible_to_string with
      | Some text => RuntimeError (text e)
      | None =>
          if base_of_exception then ThrownError e
          else if base_of_error_code then SystemError e
          else if is_exception_ptr then Rethrown e
          else RuntimeError "Result does not contain value"
      end
  end.

(** The right injection is the exception, the left one the value. *)
Definition ValueOrThrow (r : Result T E) : T + thrown E :=
  match ThrowIfError r, r with
  | Some exc, _ => inr exc
  | None, Ok v => inl v
  | None, Err e => inr (ThrownError e)
  end.
End accessors.

Section monadic.
Context {T E : Type}.

Definition AndThen {U} (r : Result T E) (func : T → Result U E) : Result U E :=
  match r with Err e => Err e | Ok v => func v end.

Definition OrElse {F} (r : Result T E) (func : E → Result T F) : Result T F :=
  match r with Err e => func e | Ok v => Ok v end.

Definition Transform {U} (r : Result T E) (transform : T → U) : Result U E :=
  match r with Err e => Err e | Ok v => Ok (transform v) end.

Definition TransformError {F} (r : Result T E) (transform : E → F) : Result T F :=
  match r with Err e => Err (transform e) | Ok v => Ok v end.
End monadic.

Section lemmas.
Context {T E : Type} `{!ErrorTraits E}.

Lemma HasError_negb (r : Result T E) : HasError r = negb (HasValue r).
Proof. done. Qed.

Lemma GetValue_Done (r : Result T E) v : GetValue r = Done v ↔ r = Ok v.
Proof.
  destruct r as [w|e]; unfold GetValue, ExpectOk; simpl; [split; congruence|].
  destruct has_message, convertible_to_string; split; done.
Qed.

Lemma ExpectOk_Done (r : Result T E) u : ExpectOk r = Done u ↔ HasValue r = true.
Proof.
  destruct r as [w|e], u; unfold ExpectOk; simpl; [done|].
  by destruct has_message, convertible_to_string.
Qed.

Lemma GetError_Done (r : Result T E) e : GetError r = Done e ↔ r = Err e.
Proof. destruct r; unfold GetError; simpl; split; congruence. Qed.

(** The accessors are total exactly on the alternative they read: no
    accessor reaches the undefined variant access. *)
Lemma accessors_defined (r : Result T E) :
  (∀ w, GetValue r ≠ Undefined w) ∧ (∀ w, GetError r ≠ Undefined w).
Proof.
  destruct r; split; intros ?; unfold GetValue, GetError, ExpectOk, ExpectFail; simpl;
    [done|done| |done].
  by destruct has_message, convertible_to_string.
Qed.
End lemmas.

(** The monadic operations compose as the source's call chains need:
    [AndThen] is associative with [Ok] as unit, [Transform] is [AndThen] of a
    successful function, [TransformError] leaves values alone and commutes
    with [AndThen] once the continuation's errors are transformed too. *)
Lemma Result_chain_laws {T U V E F : Type} (r : Result T E) (v : T)
    (f : T → Result U E) (g : U → Result V E) (h : T → U) (te : E → F) :
  AndThen (Ok v) f = f v ∧
  AndThen r Ok = r ∧
  AndThen (AndThen r f) g = AndThen r (λ x, AndThen (f x) g) ∧
  Transform r h = AndThen r (λ x, Ok (h x)) ∧
  TransformError (AndThen r f) te = AndThen (TransformError r te) (λ x, TransformError (f x) te) ∧
  HasValue (TransformError r te) = HasValue r.
Proof. by destruct r. Qed.

#[export] Hint Rewrite @GetValue_Done @GetError_Done @ExpectOk_Done
  using typeclasses eauto : mtf_outcome.
