(* ===== verification/RtTypes.v ===== *)
(** * Small runtime types

    Errors, endpoints and durations of src/runtime: [DBError]
    (runtime/database.h), [RpcError] (runtime/util/rpc_error), [Endpoint]
    (runtime/util/endpoint), [Duration] and [Interval] (runtime/util/chrono),
    [MD5Hash] printing (runtime/util/hash), with their [Message] and
    [ToString] functions. *)

From stdpp Require Import pretty.
From S2P Require Import Prelude.
From S2P Require Import Result.

Local Open Scope Z_scope.

(** ** Errors *)

Inductive DBErrorType : Type := DBInternal | DBInvalidArgument | DBNotFound.

#[export] Instance DBErrorType_eq_dec : EqDecision DBErrorType.
Proof. solve_decision. Defined.

Record DBError : Type := MkDBError {
  db_error_type : DBErrorType;
  db_status_message : string;
}.

#[export] Instance DBError_eq_dec : EqDecision DBError.
Proof. solve_decision. Defined.

Definition DBError_Message (e : DBError) : string :=
  let result := match db_error_type e with
                | DBInternal => "Internal"
                | DBNotFound => "NotFound"
                | DBInvalidArgument => "InvalidArgument"
                end in
  if decide (db_status_message e = "") then result
  else result +:+ (": " +:+ db_status_message e).

#[export] Instance DBError_traits : ErrorTraits DBError := {|
  has_message := Some DBError_Message;
  convertible_to_string := None;
  base_of_exception := false;
  base_of_error_code := false;
  is_exception_ptr := false;
|}.

Inductive RpcErrorType : Type :=
  | NetworkError | ConnectionRefused | HandlerNotFound | RpcInternal | ParseError | Cancelled.

#[export] Instance RpcErrorType_eq_dec : EqDecision RpcErrorType.
Proof. solve_decision. Defined.

Record RpcError : Type := MkRpcError {
  rpc_error_type : RpcErrorType;
  rpc_status_message : string;
}.

#[export] Instance RpcError_eq_dec : EqDecision RpcError.
Proof. solve_decision. Defined.

Definition RpcError_Message (e : RpcError) : string :=
  let result := match rpc_error_type e with
                | NetworkError => "NetworkError"
                | ConnectionRefused => "ConnectionRefused"
                | HandlerNotFound => "HandlerNotFound"
                | RpcInternal => "Internal"
                | ParseError => "ParseError"
                | Cancelled => "Cancelled"
                end in
  if decide (rpc_status_message e = "") then result
  else result +:+ (": " +:+ rpc_status_message e).

#[export] Instance RpcError_traits : ErrorTraits RpcError := {|
  has_message := Some RpcError_Message;
  convertible_to_string := None;
  base_of_exception := false;
  base_of_error_code := false;
  is_exception_ptr := false;
|}.

(** ** Endpoints *)

Record Endpoint : Type := MkEndpoint {
  address : string;
  port : Z;  (** [uint16_t] *)
}.

#[export] Instance Endpoint_eq_dec : EqDecision Endpoint.
Proof. solve_decision. Defined.

Definition Endpoint_ToString (e : Endpoint) : string :=
  address e +:+ (":" +:+ pretty (port e)).

(** ** Durations

    [std::chrono::microseconds]: a signed count of microseconds. Division and
    remainder truncate toward zero. *)

Record Interval : Type := MkInterval { from : Z; to : Z }.

(** [std::setfill('0') << std::setw(w)]: padding on the left. *)
Definition setw0 (w : nat) (s : string) : string :=
  String.concat "" (replicate (w - String.length s) "0") +:+ s.

Definition Duration_ToString (count : Z) : string :=
  let us := Z.rem count 1000 in
  let ms := Z.rem (Z.quot count 1000) 1000 in
  let sec := Z.rem (Z.quot (Z.quot count 1000) 1000) 60 in
  let min := Z.rem (Z.quot (Z.quot (Z.quot count 1000) 1000) 60) 60 in
  let hours := Z.quot (Z.quot (Z.quot (Z.quot count 1000) 1000) 60) 60 in
  "[" +:+ setw0 2 (pretty hours) +:+ ":"
      +:+ setw0 2 (pretty min) +:+ ":"
      +:+ setw0 2 (pretty sec) +:+ "."
      +:+ setw0 3 (pretty ms) +:+ "."
      +:+ setw0 3 (pretty us) +:+ "]".

Example Duration_ToString_ex :
  Duration_ToString 3723004005 = "[01:02:03.004.005]".
Proof. vm_compute. reflexivity. Qed.

(** ** MD5 digests

    [ToString(const MD5Hash&)] prints each byte of the digest as two
    hexadecimal digits. *)

Definition hex_digit (d : Z) : string :=
  match d with
  | 0 => "0" | 1 => "1" | 2 => "2" | 3 => "3" | 4 => "4" | 5 => "5" | 6 => "6" | 7 => "7"
  | 8 => "8" | 9 => "9" | 10 => "a" | 11 => "b" | 12 => "c" | 13 => "d" | 14 => "e" | _ => "f"
  end.

(** [std::hex << static_cast<int>(b)] of a byte: no leading zero. *)
Definition hex_byte (b : Z) : string :=
  if decide (b < 16) then hex_digit b else hex_digit (b / 16) +:+ hex_digit (b `mod` 16).

Fixpoint MD5Hash_ToString (digest : list Z) : string :=
  match digest with
  | [] => ""
  | b :: rest => setw0 2 (hex_byte b) +:+ MD5Hash_ToString rest
  end.

(** ** Lemmas *)

Lemma DBError_Message_injective_type e1 e2 :
  db_status_message e1 = "" → db_status_message e2 = "" →
  DBError_Message e1 = DBError_Message e2 → e1 = e2.
Proof. destruct e1 as [[] ?], e2 as [[] ?]; simpl; intros -> ->; by vm_compute. Qed.
