(* ===== verification/KVInterface.v ===== *)
(** * The key-value storage as its clients see it

    The specification of [KVStorage] (src/runtime/kv_storage.h) for [uint64_t]
    and [std::string] keys: a finite map. [kv_Last] is what an iterator
    positioned by [SeekToLast] sees. KVStorage.v proves that the storage built
    on byte strings implements these operations; the Raft and metamorphosis
    nodes and the queue are modelled on top of them. *)

From S2P Require Import Prelude.
From S2P Require Import Result.
From S2P Require Import RtTypes.

Local Open Scope Z_scope.

Section kv.
Context {K V : Type} `{Countable K}.

Definition kv_Get (m : gmap K V) (key : K) : Result V DBError :=
  match m !! key with
  | Some value => Ok value
  | None => Err (MkDBError DBNotFound "")
  end.

Definition kv_Put (key : K) (value : V) (m : gmap K V) : gmap K V := <[key := value]> m.
Definition kv_Delete (key : K) (m : gmap K V) : gmap K V := delete key m.

Lemma kv_Get_value m key v : GetValue (kv_Get m key) = Done v ↔ m !! key = Some v.
Proof.
  rewrite GetValue_Done. unfold kv_Get. destruct (m !! key); split; congruence.
Qed.

Lemma kv_Get_total m key v : m !! key = Some v → GetValue (kv_Get m key) = Done v.
Proof. apply kv_Get_value. Qed.
End kv.

Section kv_ordered.
Context {V : Type}.
Implicit Types m : gmap Z V.

(** [DeleteRange(start_key, end_key)]: the half-open range of the order. *)
Definition kv_DeleteRange (start_key end_key : Z) m : gmap Z V :=
  filter (λ kv, ¬ (start_key ≤ kv.1 < end_key)) m.

(** The greatest key, [None] on an empty storage. *)
Definition kv_max_key m : option Z :=
  map_fold (λ k _ acc, Some (match acc with Some k' => k `max` k' | None => k end)) None m.

(** What [SeekToLast] positions the iterator at, [None] when [Valid()] is
    false. *)
Definition kv_Last m : option (Z * V) :=
  k ← kv_max_key m; v ← m !! k; Some (k, v).

(** Write batches: a list of commands executed in order. *)
Inductive batch_command : Type :=
  | BatchPut (key : Z) (value : V)
  | BatchDeleteRange (start_key end_key : Z)
  | BatchDelete (key : Z).

Definition batch_step m (c : batch_command) : gmap Z V :=
  match c with
  | BatchPut k v => kv_Put k v m
  | BatchDeleteRange lo hi => kv_DeleteRange lo hi m
  | BatchDelete k => kv_Delete k m
  end.

Definition kv_Write (batch : list batch_command) m : gmap Z V := foldl batch_step m batch.

Lemma kv_max_key_spec m :
  match kv_max_key m with
  | None => m = ∅
  | Some k => is_Some (m !! k) ∧ ∀ k', is_Some (m !! k') → k' ≤ k
  end.
Proof.
  unfold kv_max_key.
  apply (map_fold_weak_ind (λ acc m, match acc with
    | None => m = ∅
    | Some k => is_Some (m !! k) ∧ ∀ k', is_Some (m !! k') → k' ≤ k
    end)); [done|].
  intros i x m' acc Hi IH.
  assert (Hlk : ∀ k', is_Some (<[i:=x]> m' !! k') → k' = i ∨ is_Some (m' !! k')).
  { intros k'. rewrite lookup_insert. case_decide; auto. }
  destruct acc as [k|].
  - destruct IH as [[v Hv] Hmax]. split.
    + rewrite lookup_insert. case_decide; [eauto|].
      destruct (Z.max_spec i k) as [[? ->]|[? ?]]; [eauto|lia].
    + intros k' [->|Hk']%Hlk; [lia|]. apply Hmax in Hk'. lia.
  - subst m'. split; [rewrite lookup_insert_eq; eauto|].
    intros k' [->|[? Hk']]%Hlk; [lia|]. by rewrite lookup_empty in Hk'.
Qed.

Lemma kv_Last_None m : kv_Last m = None ↔ m = ∅.
Proof.
  pose proof (kv_max_key_spec m) as Hspec. unfold kv_Last.
  destruct (kv_max_key m) as [k|]; simpl.
  - destruct Hspec as [[v Hv] _]. rewrite Hv. simpl. split; [done|].
    intros ->. by rewrite lookup_empty in Hv.
  - done.
Qed.

Lemma kv_Last_Some m k v :
  kv_Last m = Some (k, v) ↔ m !! k = Some v ∧ ∀ k', is_Some (m !! k') → k' ≤ k.
Proof.
  pose proof (kv_max_key_spec m) as Hspec. unfold kv_Last.
  destruct (kv_max_key m) as [k0|]; simpl.
  - destruct Hspec as [[v0 Hv0] Hmax]. rewrite Hv0. simpl. split.
    + intros [= <- <-]. eauto.
    + intros [Hk Hmax']. assert (k0 = k) as <-.
      { pose proof (Hmax k ltac:(eauto)). pose proof (Hmax' k0 ltac:(eauto)). lia. }
      congruence.
  - subst m. rewrite lookup_empty. split; [done|by intros [? _]].
Qed.

Lemma lookup_kv_DeleteRange lo hi m k :
  kv_DeleteRange lo hi m !! k = if decide (lo ≤ k < hi) then None else m !! k.
Proof.
  unfold kv_DeleteRange. rewrite map_lookup_filter.
  destruct (m !! k) as [v|]; simpl; [|by case_decide].
  case_guard as Hg; simpl in Hg; case_decide; done || tauto.
Qed.
End kv_ordered.
Arguments batch_command : clear implicits.
