(* ===== verification/Serde.v ===== *)
(** * Serialization of keys and values

    Model of src/runtime/util/serde: the concept [CSerde] as a type class with
    the law its users rely on (what is serialized can be read back), and its
    instances for 64-bit integers, strings and protobuf messages. A byte is an
    integer between 0 and 255; integers are stored in the byte order of the
    machine, which is little-endian on the supported platforms. *)

From S2P Require Import Prelude.

Local Open Scope Z_scope.

(** [std::vector<uint8_t>] and [std::span<const uint8_t>] *)
Definition Data : Type := list Z.

Definition is_byte (b : Z) : Prop := 0 ≤ b < 256.

(** The concept [CSerde]: [valid] describes the values of the C++ type. *)
Class CSerde (A : Type) : Type := {
  valid : A → Prop;
  Serialize : A → outcome Data;
  Deserialize : Data → outcome A;
}.

(** What [KVStorage] relies on. *)
Class SerdeLaws (A : Type) `{CSerde A} : Prop := {
  Serialize_total : ∀ a, valid a → ∃ d, Serialize a = Done d ∧ Forall is_byte d;
  Deserialize_Serialize : ∀ a d, valid a → Serialize a = Done d → Deserialize d = Done a;
}.

Lemma Serialize_injective `{SerdeLaws A} (a b : A) d :
  valid a → valid b → Serialize a = Done d → Serialize b = Done d → a = b.
Proof.
  intros Ha Hb Hda Hdb. apply Deserialize_Serialize in Hda; [|done].
  apply Deserialize_Serialize in Hdb; [|done]. congruence.
Qed.

(** ** Integers *)

(** The [n] low bytes of [z], the lowest first. *)
Fixpoint le_bytes (n : nat) (z : Z) : Data :=
  match n with
  | O => []
  | S n => z `mod` 256 :: le_bytes n (z `div` 256)
  end.

Fixpoint le_value (d : Data) : Z :=
  match d with
  | [] => 0
  | b :: d => b + 256 * le_value d
  end.

Definition U64_Serialize (value : Z) : outcome Data := Done (le_bytes 8 value).

Definition U64_Deserialize (data : Data) : outcome Z :=
  verify (bool_decide (length data = 8%nat)) "invalid data size";;
  Done (le_value data).

#[export] Instance U64Serde : CSerde Z := {|
  valid := is_u64;
  Serialize := U64_Serialize;
  Deserialize := U64_Deserialize;
|}.

Lemma length_le_bytes n z : length (le_bytes n z) = n.
Proof. revert z. induction n as [|n IH]; intros z; simpl; [done|]. by rewrite IH. Qed.

Lemma le_bytes_bytes n z : Forall is_byte (le_bytes n z).
Proof.
  revert z. induction n as [|n IH]; intros z; simpl; constructor; [|done].
  unfold is_byte. apply Z.mod_pos_bound. lia.
Qed.

Lemma le_value_bytes n z : 0 ≤ z < 256 ^ Z.of_nat n → le_value (le_bytes n z) = z.
Proof.
  revert z. induction n as [|n IH]; intros z Hz; simpl.
  - simpl in Hz. lia.
  - rewrite IH.
    + pose proof (Z.div_mod z 256). lia.
    + rewrite Nat2Z.inj_succ, Z.pow_succ_r in Hz by lia.
      split; [apply Z.div_pos; lia|]. apply Z.div_lt_upper_bound; lia.
Qed.

Lemma le_bytes_value d : Forall is_byte d → le_bytes (length d) (le_value d) = d.
Proof.
  intros Hd. induction Hd as [|b d Hb _ IH]; simpl; [done|]. unfold is_byte in Hb.
  rewrite (Z.mul_comm 256). rewrite Z.mod_add, Z.div_add by lia.
  rewrite Z.mod_small, Z.div_small by lia. by rewrite Z.add_0_l, IH.
Qed.

Arguments le_bytes : simpl never.

#[export] Instance U64Serde_laws : SerdeLaws Z.
Proof.
  split; simpl; unfold U64_Serialize.
  - intros a _. eexists. split; [done|]. apply le_bytes_bytes.
  - intros a d Ha [= <-]. unfold U64_Deserialize.
    rewrite bool_decide_eq_true_2 by apply length_le_bytes. simpl verify. rewrite bind_Done_eq.
    rewrite le_value_bytes; [done|]. unfold is_u64, u64_max, u64_modulus in Ha.
    change (256 ^ Z.of_nat 8) with (2 ^ 64). lia.
Qed.

(** ** Strings *)

Definition byte_of_ascii (a : Ascii.ascii) : Z := Z.of_N (Ascii.N_of_ascii a).
Definition ascii_of_byte (b : Z) : Ascii.ascii := Ascii.ascii_of_N (Z.to_N b).

Definition String_Serialize (value : string) : outcome Data :=
  Done (byte_of_ascii <$> String.list_ascii_of_string value).

Definition String_Deserialize (data : Data) : outcome string :=
  Done (String.string_of_list_ascii (ascii_of_byte <$> data)).

#[export] Instance StringSerde : CSerde string := {|
  valid := λ _, True;
  Serialize := String_Serialize;
  Deserialize := String_Deserialize;
|}.

Lemma ascii_of_byte_of_ascii a : ascii_of_byte (byte_of_ascii a) = a.
Proof. unfold ascii_of_byte, byte_of_ascii. rewrite N2Z.id. apply Ascii.ascii_N_embedding. Qed.

Lemma byte_of_ascii_byte a : is_byte (byte_of_ascii a).
Proof.
  unfold byte_of_ascii, is_byte. pose proof (Ascii.N_ascii_bounded a). lia.
Qed.

#[export] Instance StringSerde_laws : SerdeLaws string.
Proof.
  split; simpl; unfold String_Serialize.
  - intros a _. eexists. split; [done|]. apply Forall_fmap, Forall_forall. intros b _.
    apply byte_of_ascii_byte.
  - intros a d _ [= <-]. unfold String_Deserialize. f_equal.
    rewrite <-list_fmap_compose.
    rewrite (list_fmap_ext _ id) by (intros i b _; apply ascii_of_byte_of_ascii).
    rewrite list_fmap_id. apply String.string_of_list_ascii_of_string.
Qed.

(** ** Protobuf messages *)

(** What the library offers for a message type: serialization, which fails only
    for messages that are too large, and parsing. *)
Class ProtoMessage (A : Type) : Type := {
  SerializeToArray : A → option Data;
  ParseFromArray : Data → option A;
}.

Definition Proto_Serialize `{ProtoMessage A} (value : A) : outcome Data :=
  match SerializeToArray value with
  | Some d => Done d
  | None => Panic "serialization error"
  end.

Definition Proto_Deserialize `{ProtoMessage A} (data : Data) : outcome A :=
  match ParseFromArray data with
  | Some a => Done a
  | None => Panic "deserialization error"
  end.

Definition ProtobufSerde (A : Type) `{ProtoMessage A} : CSerde A := {|
  valid := λ a, is_Some (SerializeToArray a);
  Serialize := Proto_Serialize;
  Deserialize := Proto_Deserialize;
|}.

(** Documented: a serialized message parses to an equal message. *)
Lemma ProtobufSerde_laws (A : Type) `{ProtoMessage A} :
  (∀ (a : A) d, SerializeToArray a = Some d → Forall is_byte d ∧ ParseFromArray d = Some a) →
  @SerdeLaws A (ProtobufSerde A).
Proof.
  intros Hrt. split; simpl.
  - intros a [d Hd]. exists d. unfold Proto_Serialize. rewrite Hd. split; [done|]. by apply (Hrt a).
  - intros a d [d' Hd'] Hs. unfold Proto_Serialize in Hs. rewrite Hd' in Hs. injection Hs as <-.
    unfold Proto_Deserialize. destruct (Hrt a d' Hd') as [_ ->]. done.
Qed.

(** [C23] Integers and strings survive the round trip through their bytes; eight
    bytes are an integer and give the same bytes back; any other number of
    bytes aborts the process. *)
Theorem serde_round_trips :
  (∀ z, is_u64 z → ∃ d, U64_Serialize z = Done d ∧ length d = 8%nat ∧ U64_Deserialize d = Done z) ∧
  (∀ d, Forall is_byte d → length d = 8%nat →
     ∃ z, is_u64 z ∧ U64_Deserialize d = Done z ∧ U64_Serialize z = Done d) ∧
  (∀ d, length d ≠ 8%nat → U64_Deserialize d = Panic "invalid data size") ∧
  (∀ s, ∃ d, String_Serialize s = Done d ∧ String_Deserialize d = Done s).
Proof.
  split_and!.
  - intros z Hz. eexists. split; [done|]. split; [apply length_le_bytes|].
    exact (Deserialize_Serialize (A := Z) z _ Hz eq_refl).
  - intros d Hd Hl. exists (le_value d). unfold U64_Deserialize, U64_Serialize.
    rewrite bool_decide_eq_true_2 by done. rewrite <-Hl, le_bytes_value by done. split_and!; [|done..].
    unfold is_u64, u64_max, u64_modulus.
    assert (Hb : 0 ≤ le_value d < 256 ^ Z.of_nat (length d)).
    { clear Hl. induction Hd as [|b d Hb _ IH]; simpl le_value; simpl length; [simpl; lia|].
      unfold is_byte in Hb. rewrite Nat2Z.inj_succ, Z.pow_succ_r by lia. lia. }
    rewrite Hl in Hb. change (256 ^ Z.of_nat 8) with (2 ^ 64) in Hb. lia.
  - intros d Hl. unfold U64_Deserialize. by rewrite bool_decide_eq_false_2.
  - intros s. eexists. split; [done|]. exact (Deserialize_Serialize (A := string) s _ I eq_refl).
Qed.

Arguments Serialize : simpl never.
Arguments Deserialize : simpl never.
Arguments valid : simpl never.
