(* ===== verification/IDatabase.v ===== *)
(** * The database interface

    src/runtime/database.h: [IDatabase], [IIterator] and [IWriteBatch], which
    the simulated database (Database.v) and the adapter to RocksDB
    (ProdDatabase.v) implement, and on which the key-value storage
    (KVStorage.v) is written. [IDatabase] has the operations; a [Store] is a
    proof that an implementation acts as a finite map with ordered keys. *)

From stdpp Require Import sorting.
From S2P Require Import Prelude.
From S2P Require Import Result.
From S2P Require Import RtTypes.
From S2P Require Import KVInterface.
From S2P Require Import Serde.

Record IComparator : Type := MkComparator {
  Compare : Data → Data → outcome Z;
  Name : string;
}.

Record Options : Type := MkOptions {
  opt_comparator : option IComparator;  (** [nullptr] is [None] *)
  create_if_missing : bool;
}.

(** ** Operations *)

Class IDatabase (DB : Type) : Type := {
  IWriteBatch : Type;
  IIterator : Type;
  db_Put : Data → Data → DB → outcome (Status DBError * DB);
  db_Get : Data → DB → outcome (Result Data DBError);
  db_DeleteRange : Data → Data → DB → outcome (Status DBError * DB);
  db_Delete : Data → DB → outcome (Status DBError * DB);
  db_MakeWriteBatch : IWriteBatch;
  db_Write : IWriteBatch → DB → outcome (Status DBError * DB);
  batch_Put : Data → Data → IWriteBatch → Status DBError * IWriteBatch;
  batch_DeleteRange : Data → Data → IWriteBatch → Status DBError * IWriteBatch;
  batch_Delete : Data → IWriteBatch → Status DBError * IWriteBatch;
  db_NewIterator : DB → IIterator;
  it_SeekToLast : IIterator → IIterator;
  it_SeekToFirst : IIterator → IIterator;
  it_Next : IIterator → outcome IIterator;
  it_Prev : IIterator → outcome IIterator;
  it_GetKey : IIterator → outcome Data;
  it_GetValue : IIterator → outcome Data;
  it_Valid : IIterator → outcome bool;
}.

(** ** Specification *)

Lemma strictly_sorted_NoDup {A} (R : relation A) `{!Irreflexive R} (l : list A) :
  StronglySorted R l → NoDup l.
Proof.
  induction 1 as [|x l _ IH Hall]; constructor; [|done]. intros Hin.
  rewrite Forall_forall in Hall. by apply (irreflexivity R x), Hall.
Qed.

Section specification.
Context {K V : Type} `{Countable K} (lt : relation K) `{!RelDecision lt}.

(** The keys from [lo] on and before [hi]. *)
Definition delete_range (lo hi : K) (m : gmap K V) : gmap K V :=
  filter (λ kv, ¬ (¬ lt kv.1 lo ∧ lt kv.1 hi)) m.

Lemma lookup_delete_range lo hi m k v :
  delete_range lo hi m !! k = Some v ↔ m !! k = Some v ∧ ¬ (¬ lt k lo ∧ lt k hi).
Proof. unfold delete_range. by rewrite map_lookup_filter_Some. Qed.

Inductive store_command : Type :=
  | StorePut (key : K) (value : V)
  | StoreDeleteRange (start_key end_key : K)
  | StoreDelete (key : K).

Definition store_step (m : gmap K V) (c : store_command) : gmap K V :=
  match c with
  | StorePut key value => <[key := value]> m
  | StoreDeleteRange lo hi => delete_range lo hi m
  | StoreDelete key => delete key m
  end.

(** The entries of a map in the order of their keys. *)
Record lists_map (m : gmap K V) (kvs : list (K * V)) : Prop := {
  lm_sorted : StronglySorted lt kvs.*1;
  lm_elem : ∀ k v, (k, v) ∈ kvs ↔ m !! k = Some v;
}.

End specification.
Arguments store_command : clear implicits.
Arguments store_step {K V _ _} lt {_} m c.

(** The database acts as a finite map from the [ok] keys, under encodings of
    keys and values. [holds m db] relates the map to the database, [collects]
    commands to a write batch, and [stands_at kvs i] says where in the entries
    an iterator is; [length kvs] is past the end. *)
Class Store {K V : Type} `{Countable K} (lt : relation K) `{!RelDecision lt}
    (ok : K → Prop) (encK : K → Data) (encV : V → Data) (DB : Type) `{!IDatabase DB} := {
  holds : gmap K V → DB → Prop;
  collects : list (store_command K V) → IWriteBatch → Prop;
  stands_at : list (K * V) → nat → IIterator → Prop;
  store_ok_keys m db k : holds m db → is_Some (m !! k) → ok k;
  store_Put m db key value :
    holds m db → ok key →
    ∃ db', db_Put (encK key) (encV value) db = Done (Ok (), db') ∧ holds (<[key := value]> m) db';
  store_Get m db key :
    holds m db → ok key → db_Get (encK key) db = Done (Transform (kv_Get m key) encV);
  store_Delete m db key :
    holds m db → ok key →
    ∃ db', db_Delete (encK key) db = Done (Ok (), db') ∧ holds (delete key m) db';
  store_DeleteRange m db lo hi :
    holds m db → ok lo → ok hi → ¬ lt hi lo →
    ∃ db', db_DeleteRange (encK lo) (encK hi) db = Done (Ok (), db') ∧
           holds (delete_range lt lo hi m) db';
  store_MakeWriteBatch : collects [] db_MakeWriteBatch;
  store_batch_Put cs b key value :
    collects cs b → ok key →
    ∃ b', batch_Put (encK key) (encV value) b = (Ok (), b') ∧ collects (cs ++ [StorePut key value]) b';
  store_batch_DeleteRange cs b lo hi :
    collects cs b → ok lo → ok hi → ¬ lt hi lo →
    ∃ b', batch_DeleteRange (encK lo) (encK hi) b = (Ok (), b') ∧
          collects (cs ++ [StoreDeleteRange lo hi]) b';
  store_batch_Delete cs b key :
    collects cs b → ok key →
    ∃ b', batch_Delete (encK key) b = (Ok (), b') ∧ collects (cs ++ [StoreDelete key]) b';
  store_Write cs b m db :
    holds m db → collects cs b →
    ∃ db', db_Write b db = Done (Ok (), db') ∧ holds (foldl (store_step lt) m cs) db';
  store_NewIterator m db :
    holds m db →
    ∃ kvs, lists_map lt m kvs ∧ stands_at kvs 0 (it_SeekToFirst (db_NewIterator db)) ∧
           stands_at kvs (length kvs - 1) (it_SeekToLast (db_NewIterator db));
  store_Valid kvs i it :
    stands_at kvs i it → i ≤ length kvs → it_Valid it = Done (bool_decide (is_Some (kvs !! i)));
  store_entry kvs i it k v :
    stands_at kvs i it → kvs !! i = Some (k, v) →
    it_GetKey it = Done (encK k) ∧ it_GetValue it = Done (encV v);
  store_Next kvs i it kv :
    stands_at kvs i it → kvs !! i = Some kv →
    ∃ it', it_Next it = Done it' ∧ stands_at kvs (S i) it';
  store_Prev kvs i it kv :
    stands_at kvs i it → kvs !! i = Some kv →
    ∃ it', it_Prev it = Done it' ∧
           stands_at kvs (if decide (i = 0) then length kvs else i - 1) it';
  store_past_end kvs it :
    stands_at kvs (length kvs) it →
    it_Next it = Panic "iterator is invalid" ∧ it_Prev it = Panic "iterator is invalid" ∧
    it_GetKey it = Panic "iterator is invalid" ∧ it_GetValue it = Panic "iterator is invalid";
}.
