(* ===== verification/Database.v ===== *)
(** * The simulated database

    Model of src/runtime/simulator/database.{h,cpp}: the ordered map from byte
    strings to byte strings every host keeps on its "disk", the operations of
    [Database] on it, write batches, iterators and [Open].

    [std::map<Data, Data, Comparator>] is the list of its entries in the order
    of the tree. The comparator is a parameter supplied by the caller; it may
    abort. Every operation starts with [StopFiberIfNecessary], which suspends
    the fiber while its host is paused and for ever once it was killed; no
    other fiber runs between the steps of one operation, so an operation either
    happens completely or not at all, and is modelled as one step. *)

From S2P Require Import Prelude.
From S2P Require Import Result.
From S2P Require Import RtTypes.
From S2P Require Import Serde.
From S2P Require Import IDatabase.

Local Open Scope Z_scope.

Abbreviation Map := (list (Data * Data)) (only parsing).

Record HostDatabase : Type := MkHostDatabase {
  comparator : IComparator;
  comparator_name : string;
  data : Map;
  epoch : Z;
}.

Definition HostDatabase_new (cmp : IComparator) : HostDatabase :=
  MkHostDatabase cmp (Name cmp) [] 0.

Definition with_data (d : Map) (db : HostDatabase) : HostDatabase :=
  MkHostDatabase (comparator db) (comparator_name db) d (epoch db).

(** ** The members of [std::map] the code uses *)

Section map.
Variable cmp : IComparator.

Definition less (left right : Data) : outcome bool :=
  c ← Compare cmp left right; Done (bool_decide (c < 0)).

(** The position of the first entry whose key is not less than [key]. *)
Fixpoint lower_bound (key : Data) (m : Map) : outcome nat :=
  match m with
  | [] => Done 0%nat
  | (k, _) :: rest =>
      before ← less k key;
      if (before : bool) then S <$> lower_bound key rest else Done 0%nat
  end.

(** Whether the entry at position [i] has key [key], for [i] the lower bound. *)
Definition holds_key (key : Data) (m : Map) (i : nat) : outcome bool :=
  match m !! i with
  | None => Done false
  | Some (k, _) => b ← less key k; Done (negb b)
  end.

Definition map_find (key : Data) (m : Map) : outcome (option (Data * Data)) :=
  i ← lower_bound key m;
  found ← holds_key key m i;
  Done (if (found : bool) then m !! i else None).

(** [m[key] = value] *)
Definition map_assign (key value : Data) (m : Map) : outcome Map :=
  i ← lower_bound key m;
  found ← holds_key key m i;
  Done (if (found : bool)
        then match m !! i with
             | Some (k, _) => <[i := (k, value)]> m
             | None => m
             end
        else take i m ++ (key, value) :: drop i m).

Definition map_erase (key : Data) (m : Map) : outcome Map :=
  i ← lower_bound key m;
  found ← holds_key key m i;
  Done (if (found : bool) then take i m ++ drop (S i) m else m).

(** [erase(first, last)]: [last] has to be reachable from [first]. *)
Definition map_erase_range (first last : nat) (m : Map) : outcome Map :=
  if decide (first ≤ last)%nat then Done (take first m ++ drop last m)
  else Undefined "erase: invalid range".
End map.

(** ** Operations *)

Definition Put (key value : Data) (db : HostDatabase) : outcome (Status DBError * HostDatabase) :=
  d ← map_assign (comparator db) key value (data db);
  Done (Ok (), with_data d db).

Definition Get (key : Data) (db : HostDatabase) : outcome (Result Data DBError) :=
  it ← map_find (comparator db) key (data db);
  Done match it with
       | None => Err (MkDBError DBNotFound "")
       | Some (_, value) => Ok value
       end.

Definition DeleteRange (start_key end_key : Data) (db : HostDatabase) :
    outcome (Status DBError * HostDatabase) :=
  start_it ← lower_bound (comparator db) start_key (data db);
  if decide (start_it = length (data db)) then Done (Ok (), db)
  else
    end_it ← lower_bound (comparator db) end_key (data db);
    d ← map_erase_range start_it end_it (data db);
    Done (Ok (), with_data d db).

Definition Delete (key : Data) (db : HostDatabase) : outcome (Status DBError * HostDatabase) :=
  d ← map_erase (comparator db) key (data db);
  Done (Ok (), with_data d db).

(** ** Write batches *)

Inductive command : Type :=
  | PutCmd (key value : Data)
  | DeleteRangeCmd (start_key end_key : Data)
  | DeleteCmd (key : Data).

Definition WriteBatch : Type := list command.

Definition MakeWriteBatch : WriteBatch := [].

Definition WriteBatch_Put (key value : Data) (b : WriteBatch) : Status DBError * WriteBatch :=
  (Ok (), b ++ [PutCmd key value]).

Definition WriteBatch_DeleteRange (start_key end_key : Data) (b : WriteBatch) :
    Status DBError * WriteBatch :=
  (Ok (), b ++ [DeleteRangeCmd start_key end_key]).

Definition WriteBatch_Delete (key : Data) (b : WriteBatch) : Status DBError * WriteBatch :=
  (Ok (), b ++ [DeleteCmd key]).

Definition Write_command (c : command) (db : HostDatabase) : outcome HostDatabase :=
  '(status, db') ← match c with
                   | PutCmd key value => Put key value db
                   | DeleteRangeCmd start_key end_key => DeleteRange start_key end_key db
                   | DeleteCmd key => Delete key db
                   end;
  ExpectOk status;;
  Done db'.

Definition Write (b : WriteBatch) (db : HostDatabase) : outcome (Status DBError * HostDatabase) :=
  db' ← for_each b Write_command db;
  Done (Ok (), db').

(** ** Iterators *)

(** An iterator of the private copy is [At i], with [i] the number of entries
    for [end()]; [Foreign] is an iterator of a map that no longer exists. *)
Inductive position : Type := Foreign | At (i : nat).

Record Iterator : Type := MkIterator {
  storage : Map;
  iterator : position;
}.

Definition seek (i : nat) (it : Iterator) : Iterator := MkIterator (storage it) (At i).

(** In the body of the constructor [storage] names the parameter, whose
    contents were moved to the member. *)
Definition Iterator_new (storage : Map) : Iterator := MkIterator storage Foreign.

Definition NewIterator (db : HostDatabase) : Iterator := Iterator_new (data db).

Definition Iterator_SeekToLast (it : Iterator) : Iterator :=
  seek (if decide (storage it = []) then length (storage it)
        else (length (storage it) - 1)%nat) it.

Definition Iterator_SeekToFirst (it : Iterator) : Iterator := seek 0 it.

Definition Iterator_Valid (it : Iterator) : outcome bool :=
  match iterator it with
  | Foreign => Undefined "iterator of another map"
  | At i => Done (bool_decide (i ≠ length (storage it)))
  end.

(** [EnsureIteratorIsValid], with the position it leaves in hand. *)
Definition EnsureIteratorIsValid (it : Iterator) : outcome nat :=
  valid ← Iterator_Valid it;
  verify valid "iterator is invalid";;
  match iterator it with
  | Foreign => Undefined "iterator of another map"
  | At i => Done i
  end.

Definition Iterator_Next (it : Iterator) : outcome Iterator :=
  i ← EnsureIteratorIsValid it;
  Done (seek (S i) it).

Definition Iterator_Prev (it : Iterator) : outcome Iterator :=
  i ← EnsureIteratorIsValid it;
  Done (seek (if decide (i = 0%nat) then length (storage it) else (i - 1)%nat) it).

Definition Iterator_GetKey (it : Iterator) : outcome Data :=
  i ← EnsureIteratorIsValid it;
  fst <$> vec_get (storage it) i.

Definition Iterator_GetValue (it : Iterator) : outcome Data :=
  i ← EnsureIteratorIsValid it;
  snd <$> vec_get (storage it) i.

(** ** Opening a database *)

(** The host's [databases] after the call, and what it returned: the path names
    the element of [databases] the handle points to. *)
Definition Open (current_epoch : Z) (path_str : string) (options : Options)
    (databases : gmap string HostDatabase) :
    outcome (Result string DBError * gmap string HostDatabase) :=
  let opened (db : HostDatabase) (cmp : IComparator) :=
    let db' := MkHostDatabase (comparator db) (comparator_name db) (data db) current_epoch in
    let databases' := <[path_str := db']> databases in
    if decide (Name cmp = comparator_name db) then Done (Ok path_str, databases')
    else Done (Err (MkDBError DBInvalidArgument
                 ("comparator names does not match: " +:+ comparator_name db +:+ " != " +:+ Name cmp)),
               databases') in
  let with_comparator (k : IComparator → outcome (Result string DBError * gmap string HostDatabase)) :=
    match opt_comparator options with
    | Some cmp => k cmp
    | None => Undefined "null comparator"
    end in
  match databases !! path_str with
  | None =>
      if create_if_missing options
      then with_comparator (λ cmp, opened (HostDatabase_new cmp) cmp)
      else Done (Err (MkDBError DBInvalidArgument "database is missing"), databases)
  | Some db =>
      verify (bool_decide (epoch db ≤ current_epoch)) "invalid state";;
      if decide (epoch db = current_epoch)
      then Done (Err (MkDBError DBInternal "database is opened twice"), databases)
      else with_comparator (opened db)
  end.

#[export] Instance sim_Database : IDatabase HostDatabase := {|
  IWriteBatch := WriteBatch;
  IIterator := Iterator;
  db_Put := Put;
  db_Get := Get;
  db_DeleteRange := DeleteRange;
  db_Delete := Delete;
  db_MakeWriteBatch := MakeWriteBatch;
  db_Write := Write;
  batch_Put := WriteBatch_Put;
  batch_DeleteRange := WriteBatch_DeleteRange;
  batch_Delete := WriteBatch_Delete;
  db_NewIterator := NewIterator;
  it_SeekToLast := Iterator_SeekToLast;
  it_SeekToFirst := Iterator_SeekToFirst;
  it_Next := Iterator_Next;
  it_Prev := Iterator_Prev;
  it_GetKey := Iterator_GetKey;
  it_GetValue := Iterator_GetValue;
  it_Valid := Iterator_Valid;
|}.
