(* ===== verification/DatabaseMap.v ===== *)
(** * The database implements a finite map

    [represents m d] relates the entries [d] of the simulated database to a
    finite map [m] from keys to values, for a comparator that orders the
    encodings of the keys as a strict total order on the keys; every operation
    of src/runtime/simulator/database.cpp is a functional refinement of the
    operation of the map. *)

From stdpp Require Import sorting.
From S2P Require Import Prelude.
From S2P Require Import Result.
From S2P Require Import RtTypes.
From S2P Require Import KVInterface.
From S2P Require Import Serde.
From S2P Require Import IDatabase.
From S2P Require Import Database.

Section represents.
Context {K V : Type} `{Countable K} (lt : relation K) `{!RelDecision lt}
  `{!StrictOrder lt} `{!Trichotomy lt}.
Context (okK : K → Prop) (encK : K → Data) (encV : V → Data) (cmp : IComparator).
Hypothesis less_spec : ∀ a b, okK a → okK b →
  less cmp (encK a) (encK b) = Done (bool_decide (lt a b)).

Definition enc (kv : K * V) : Data * Data := (encK kv.1, encV kv.2).

Definition sorted (kvs : list (K * V)) : Prop := StronglySorted lt kvs.*1.

Record represents_list (m : gmap K V) (kvs : list (K * V)) : Prop := {
  rl_sorted : sorted kvs;
  rl_ok : ∀ k v, (k, v) ∈ kvs → okK k;
  rl_elem : ∀ k v, (k, v) ∈ kvs ↔ m !! k = Some v;
}.

Definition represents (m : gmap K V) (d : Map) : Prop :=
  ∃ kvs, d = enc <$> kvs ∧ represents_list m kvs.

Lemma lt_irrefl k : ¬ lt k k.
Proof. exact (irreflexivity lt k). Qed.

Lemma sorted_app l1 l2 :
  sorted (l1 ++ l2) ↔
  sorted l1 ∧ sorted l2 ∧ ∀ k1 v1 k2 v2, (k1, v1) ∈ l1 → (k2, v2) ∈ l2 → lt k1 k2.
Proof.
  unfold sorted. rewrite fmap_app, StronglySorted_app.
  assert ((∀ x1 x2, x1 ∈ l1.*1 → x2 ∈ l2.*1 → lt x1 x2) ↔
          ∀ k1 v1 k2 v2, (k1, v1) ∈ l1 → (k2, v2) ∈ l2 → lt k1 k2) as Heq.
  { setoid_rewrite list_elem_of_fmap. split.
    - intros Hlt k1 v1 k2 v2 H1 H2. apply Hlt; [by exists (k1, v1)|by exists (k2, v2)].
    - intros Hlt x1 x2 [[k1 v1] [-> H1]] [[k2 v2] [-> H2]]. eauto. }
  rewrite Heq. tauto.
Qed.

Lemma sorted_cons k v l :
  sorted ((k, v) :: l) ↔ sorted l ∧ ∀ k2 v2, (k2, v2) ∈ l → lt k k2.
Proof.
  rewrite (sorted_app [(k, v)] l). split.
  - intros (_ & Hl & Hlt). split; [done|]. intros k2 v2 H2. apply (Hlt k v k2 v2); [|done].
    apply list_elem_of_singleton. done.
  - intros [Hl Hlt]. split_and!; [unfold sorted; simpl; repeat constructor|done|].
    intros k1 v1 k2 v2 [= -> ->]%list_elem_of_singleton. eauto.
Qed.

(** Where the lower bound of a key splits the entries. *)
Lemma lower_bound_split m kvs key :
  represents_list m kvs → okK key →
  ∃ l1 l2, kvs = l1 ++ l2 ∧
    lower_bound cmp (encK key) (enc <$> kvs) = Done (length l1) ∧
    (∀ k v, (k, v) ∈ l1 → lt k key) ∧ (∀ k v, (k, v) ∈ l2 → ¬ lt k key).
Proof.
  intros [Hs Hok _] Hkey. clear m. induction kvs as [|[k v] kvs IH].
  - exists [], []. split_and!; [done..| |]; intros ?? []%not_elem_of_nil.
  - assert (Hk : okK k) by (apply (Hok k v); left).
    apply sorted_cons in Hs as [Hs Hlt]. rewrite fmap_cons. unfold enc at 1. cbn [lower_bound fst snd].
    rewrite less_spec by done. rewrite bind_Done_eq.
    destruct (decide (lt k key)) as [Hbefore|Hafter].
    + rewrite bool_decide_eq_true_2 by done.
      destruct IH as (l1 & l2 & -> & Hlb & H1 & H2); [done|set_solver|].
      exists ((k, v) :: l1), l2. split_and!; [done| | |done].
      * rewrite Hlb. done.
      * intros k' v' [[= -> ->]|Hin]%elem_of_cons; eauto.
    + rewrite bool_decide_eq_false_2 by done. exists [], ((k, v) :: kvs).
      split_and!; [done..| |]; [intros ?? []%not_elem_of_nil|].
      intros k' v' [[= -> ->]|Hin]%elem_of_cons; [done|].
      intros Hk'. apply Hafter. etrans; [by eapply Hlt|done].
Qed.

(** What the search for a key finds: the position before all greater keys,
    with the key's entry at that position when there is one. *)
Inductive found (m : gmap K V) (kvs : list (K * V)) (key : K) : nat → bool → Prop :=
  | found_hit l1 v l2 :
      kvs = l1 ++ (key, v) :: l2 → m !! key = Some v → found m kvs key (length l1) true
  | found_miss l1 l2 :
      kvs = l1 ++ l2 → m !! key = None →
      (∀ k v, (k, v) ∈ l1 → lt k key) → (∀ k v, (k, v) ∈ l2 → lt key k) →
      found m kvs key (length l1) false.

Lemma lower_bound_found m kvs key :
  represents_list m kvs → okK key →
  ∃ i b, lower_bound cmp (encK key) (enc <$> kvs) = Done i ∧
         holds_key cmp (encK key) (enc <$> kvs) i = Done b ∧ found m kvs key i b.
Proof.
  intros Hr Hkey. destruct (lower_bound_split m kvs key Hr Hkey) as (l1 & l2 & -> & Hlb & H1 & H2).
  destruct Hr as [Hs Hok Hel].
  assert (Hnone : (∀ k v, (k, v) ∈ l2 → k ≠ key) → m !! key = None).
  { intros Hne. apply eq_None_not_Some. intros [w Hw]. apply Hel in Hw.
    apply elem_of_app in Hw as [Hw|Hw]; [by eapply lt_irrefl, H1|by eapply Hne]. }
  exists (length l1). unfold holds_key. rewrite Hlb, fmap_app.
  rewrite lookup_app_r by (rewrite length_fmap; lia). rewrite length_fmap, Nat.sub_diag.
  destruct l2 as [|[k v] l2].
  - exists false. split_and!; [done..|]. apply (found_miss _ _ _ l1 []); [done| |done|].
    + apply Hnone. intros ?? []%not_elem_of_nil.
    + intros ?? []%not_elem_of_nil.
  - simpl. rewrite less_spec; [|done|apply (Hok k v); set_solver]. rewrite bind_Done_eq.
    eexists. split_and!; [done..|].
    assert (Hk : ¬ lt k key) by (apply (H2 k v); left).
    destruct (trichotomy lt key k) as [Hlt|[->|Hgt]]; [| |done].
    + rewrite bool_decide_eq_true_2 by done. simpl.
      assert (Hafter : ∀ k' v', (k', v') ∈ (k, v) :: l2 → lt key k').
      { apply sorted_app in Hs as (_ & Hs & _). apply sorted_cons in Hs as [_ Hs].
        intros k' v' [[= -> ->]|Hin]%elem_of_cons; [done|]. etrans; eauto. }
      apply (found_miss _ _ _ l1 ((k, v) :: l2)); [done| |done..].
      apply Hnone. intros k' v' Hin ->. by eapply lt_irrefl, Hafter.
    + rewrite bool_decide_eq_false_2 by apply lt_irrefl. simpl.
      eapply found_hit; [done|]. apply Hel. set_solver.
Qed.

Lemma represents_empty : represents ∅ [].
Proof.
  exists []. split; [done|]. split.
  - constructor.
  - intros ?? []%not_elem_of_nil.
  - intros k v. rewrite lookup_empty. split; [intros []%not_elem_of_nil|done].
Qed.

Lemma map_find_refines m d key :
  represents m d → okK key →
  ∃ r, map_find cmp (encK key) d = Done r ∧ snd <$> r = encV <$> m !! key.
Proof.
  intros (kvs & -> & Hr) Hkey.
  destruct (lower_bound_found m kvs key Hr Hkey) as (i & b & Hlb & Hh & Hf).
  unfold map_find. rewrite Hlb, bind_Done_eq, Hh, bind_Done_eq. eexists. split; [done|].
  destruct Hf as [l1 v l2 -> Hv|l1 l2 -> Hn _ _]; [|by rewrite Hn].
  rewrite Hv, list_lookup_fmap, list_lookup_middle by done. done.
Qed.

Lemma found_elem m kvs key l1 v l2 :
  represents_list m kvs → kvs = l1 ++ (key, v) :: l2 →
  ∀ k' v', (k', v') ∈ l1 ++ l2 ↔ k' ≠ key ∧ m !! k' = Some v'.
Proof.
  intros [Hs _ Hel] -> k' v'. rewrite <-Hel.
  apply sorted_app in Hs as (_ & Hs2 & Hx). apply sorted_cons in Hs2 as [_ Hy].
  rewrite !elem_of_app, elem_of_cons. split.
  - intros [Hin|Hin]; (split; [intros ->|by auto]).
    + eapply (lt_irrefl key), Hx; [done|left].
    + eapply (lt_irrefl key), Hy; done.
  - intros [Hne [?|[[= ? ?]|?]]]; [by left|done|by right].
Qed.

Lemma map_assign_refines m d key value :
  represents m d → okK key →
  ∃ d', map_assign cmp (encK key) (encV value) d = Done d' ∧ represents (<[key := value]> m) d'.
Proof.
  intros (kvs & -> & Hr) Hkey.
  destruct (lower_bound_found m kvs key Hr Hkey) as (i & b & Hlb & Hh & Hf).
  unfold map_assign. rewrite Hlb, bind_Done_eq, Hh, bind_Done_eq. eexists. split; [done|].
  destruct Hf as [l1 v l2 Hk Hv|l1 l2 Hk Hn Hb Ha].
  - pose proof (found_elem _ _ _ _ _ _ Hr Hk) as Hel'. destruct Hr as [Hs Hok Hel]. subst kvs.
    rewrite list_lookup_fmap, list_lookup_middle by done. simpl.
    exists (l1 ++ (key, value) :: l2). split; [|split].
    + rewrite !fmap_app, insert_app_r_alt by (rewrite length_fmap; lia).
      rewrite length_fmap, Nat.sub_diag. done.
    + unfold sorted in *. rewrite fmap_app in *. exact Hs.
    + intros k' v' Hin. apply elem_of_app in Hin as [Hin|[[= -> ->]|Hin]%elem_of_cons]; [|done|];
        apply (Hok k' v'); set_solver.
    + intros k' v'. rewrite lookup_insert. specialize (Hel' k' v').
      rewrite elem_of_app in Hel'. rewrite elem_of_app, elem_of_cons.
      case_decide as Hd; [subst k'|]; naive_solver.
  - destruct Hr as [Hs Hok Hel]. subst kvs. exists (l1 ++ (key, value) :: l2). split; [|split].
    + rewrite fmap_app. rewrite take_app_length', drop_app_length' by (by rewrite length_fmap).
      by rewrite fmap_app.
    + apply sorted_app in Hs as (Hs1 & Hs2 & Hs12). apply sorted_app. split_and!; [done|by apply sorted_cons|].
      intros k1 v1 k2 v2 H1 [[= -> ->]|H2]%elem_of_cons; eauto.
    + intros k' v' [Hin|[[= -> ->]|Hin]%elem_of_cons]%elem_of_app; [|done|];
        apply (Hok k' v'); set_solver.
    + intros k' v'. rewrite lookup_insert. specialize (Hel k' v').
      rewrite elem_of_app in Hel. rewrite elem_of_app, elem_of_cons.
      case_decide as Hd; [subst k'|]; naive_solver.
Qed.

Lemma map_erase_refines m d key :
  represents m d → okK key →
  ∃ d', map_erase cmp (encK key) d = Done d' ∧ represents (delete key m) d'.
Proof.
  intros (kvs & -> & Hr) Hkey.
  destruct (lower_bound_found m kvs key Hr Hkey) as (i & b & Hlb & Hh & Hf).
  unfold map_erase. rewrite Hlb, bind_Done_eq, Hh, bind_Done_eq. eexists. split; [done|].
  destruct Hf as [l1 v l2 Hk Hv|l1 l2 Hk Hn Hb Ha].
  - pose proof (found_elem _ _ _ _ _ _ Hr Hk) as Hel'. destruct Hr as [Hs Hok Hel]. subst kvs.
    exists (l1 ++ l2). split; [|split].
    + rewrite fmap_app, fmap_cons. rewrite take_app_length' by (by rewrite length_fmap).
      rewrite cons_middle, (assoc_L (++)), drop_app_length' by (rewrite length_app, length_fmap; simpl; lia).
      by rewrite fmap_app.
    + apply sorted_app in Hs as (Hs1 & [Hs2 Hs2']%sorted_cons & Hs12).
      apply sorted_app. split_and!; [done..|]. intros k1 v1 k2 v2 H1 H2. eapply Hs12; [done|by right].
    + intros k' v' Hin. apply (Hok k' v'). set_solver.
    + intros k' v'. rewrite Hel', lookup_delete_Some. naive_solver.
  - rewrite delete_id by done. by exists kvs.
Qed.

(** Two lower bounds cut the entries in three. *)
Lemma lower_bounds_split m kvs lo hi :
  represents_list m kvs → okK lo → okK hi → ¬ lt hi lo →
  ∃ l1 l2 l3, kvs = l1 ++ l2 ++ l3 ∧
    lower_bound cmp (encK lo) (enc <$> kvs) = Done (length l1) ∧
    lower_bound cmp (encK hi) (enc <$> kvs) = Done (length l1 + length l2) ∧
    (∀ k v, (k, v) ∈ l1 → lt k lo) ∧
    (∀ k v, (k, v) ∈ l2 → ¬ lt k lo ∧ lt k hi) ∧
    (∀ k v, (k, v) ∈ l3 → ¬ lt k hi).
Proof.
  intros Hr Hlo Hhi Hle.
  assert (Htrans : ∀ k, lt k lo → lt k hi).
  { intros k Hk. destruct (trichotomy lt lo hi) as [Hlt|[<-|?]]; [by etrans|done|done]. }
  destruct (lower_bound_split m kvs lo Hr Hlo) as (l1 & l1' & Heq1 & Hlb1 & Hb1 & Ha1).
  destruct (lower_bound_split m kvs hi Hr Hhi) as (l2 & l2' & Heq2 & Hlb2 & Hb2 & Ha2).
  assert (Hpre : ∃ l, l2 = l1 ++ l ∧ l1' = l ++ l2').
  { rewrite Heq1 in Heq2. apply app_eq_inv in Heq2 as [(l & -> & ->)|(l & -> & ->)]; [|by eauto].
    destruct l as [|[k v] l]; [exists []; by rewrite !app_nil_r|]. exfalso.
    apply (Ha2 k v); [by left|]. apply Htrans, (Hb1 k v). set_solver. }
  destruct Hpre as (l & -> & ->). exists l1, l, l2'. split_and!; [done|done| |done| |done].
  - by rewrite Hlb2, length_app.
  - intros k v Hin. split; [apply (Ha1 k v)|apply (Hb2 k v)]; set_solver.
Qed.

Lemma map_erase_range_refines m kvs lo hi :
  represents_list m kvs → okK lo → okK hi → ¬ lt hi lo →
  ∃ i j d', lower_bound cmp (encK lo) (enc <$> kvs) = Done i ∧
    lower_bound cmp (encK hi) (enc <$> kvs) = Done j ∧
    map_erase_range i j (enc <$> kvs) = Done d' ∧
    (i = length kvs → d' = enc <$> kvs) ∧ represents (delete_range lt lo hi m) d'.
Proof.
  intros Hr Hlo Hhi Hle.
  destruct (lower_bounds_split m kvs lo hi Hr Hlo Hhi Hle)
    as (l1 & l2 & l3 & -> & -> & -> & H1 & H2 & H3).
  exists (length l1), (length l1 + length l2), (enc <$> l1 ++ l3). split_and!; [done..| | |].
  - unfold map_erase_range. rewrite decide_True by lia. rewrite !fmap_app.
    rewrite take_app_length' by (by rewrite length_fmap). do 2 f_equal.
    rewrite (assoc_L (++)), drop_app_length'; [done|]. by rewrite length_app, !length_fmap.
  - rewrite !length_app. intros Hlen. destruct l2, l3; simpl in Hlen; [done|lia..].
  - exists (l1 ++ l3). split; [done|]. destruct Hr as [Hs Hok Hel]. split.
    + apply sorted_app in Hs as (Hs1 & (Hs2 & Hs3 & Hs23)%sorted_app & Hs12). apply sorted_app.
      split_and!; [done..|]. intros k1 v1 k2 v2 Hk1 Hk2. apply (Hs12 k1 v1 k2 v2); set_solver.
    + intros k v Hin. apply (Hok k v). set_solver.
    + intros k v. rewrite lookup_delete_range, <-Hel, !elem_of_app. split.
      * intros [Hin|Hin]; split; auto; [naive_solver|]. intros [_ Hlt]. by eapply H3.
      * intros [[Hin|[Hin|Hin]] Hn]; [by left| |by right]. exfalso. eauto.
Qed.

(** ** Operations of the database *)

(** A database holding the map [m]. *)
Definition db_represents (m : gmap K V) (db : HostDatabase) : Prop :=
  comparator db = cmp ∧ represents m (data db).

Lemma with_data_represents m d db :
  comparator db = cmp → represents m d → db_represents m (with_data d db).
Proof. by split. Qed.

Lemma Put_refines m db key value :
  db_represents m db → okK key →
  ∃ db', Put (encK key) (encV value) db = Done (Ok (), db') ∧ db_represents (<[key := value]> m) db'.
Proof.
  intros [Hc Hr] Hkey. unfold Put. rewrite Hc.
  destruct (map_assign_refines m _ key value Hr Hkey) as (d' & -> & Hr').
  eexists. split; [done|]. by apply with_data_represents.
Qed.

Lemma Get_refines m db key :
  db_represents m db → okK key →
  Get (encK key) db = Done (Transform (kv_Get m key) encV).
Proof.
  intros [Hc Hr] Hkey. unfold Get, kv_Get. rewrite Hc.
  destruct (map_find_refines m _ key Hr Hkey) as (r & -> & Hr').
  rewrite bind_Done_eq. f_equal. destruct r as [[k d]|], (m !! key); by simplify_eq/=.
Qed.

Lemma Delete_refines m db key :
  db_represents m db → okK key →
  ∃ db', Delete (encK key) db = Done (Ok (), db') ∧ db_represents (delete key m) db'.
Proof.
  intros [Hc Hr] Hkey. unfold Delete. rewrite Hc.
  destruct (map_erase_refines m _ key Hr Hkey) as (d' & -> & Hr').
  eexists. split; [done|]. by apply with_data_represents.
Qed.

Lemma DeleteRange_refines m db lo hi :
  db_represents m db → okK lo → okK hi → ¬ lt hi lo →
  ∃ db', DeleteRange (encK lo) (encK hi) db = Done (Ok (), db') ∧
         db_represents (delete_range lt lo hi m) db'.
Proof.
  intros [Hc (kvs & Hd & Hr)] Hlo Hhi Hle. unfold DeleteRange. rewrite Hc, Hd.
  destruct (map_erase_range_refines m kvs lo hi Hr Hlo Hhi Hle)
    as (i & j & d' & -> & -> & He & Hend & Hr').
  rewrite !bind_Done_eq, length_fmap. case_decide as Hi.
  - eexists. split; [done|]. split; [done|]. rewrite Hd. by rewrite <-Hend.
  - rewrite He, bind_Done_eq. eexists. split; [done|]. by apply with_data_represents.
Qed.

(** A reversed range with a key inside and one behind it is an invalid range of
    iterators. *)
Lemma DeleteRange_reversed m db lo hi k1 k2 :
  db_represents m db → okK lo → okK hi → lt hi lo →
  is_Some (m !! k1) → ¬ lt k1 hi → lt k1 lo → is_Some (m !! k2) → ¬ lt k2 lo →
  DeleteRange (encK lo) (encK hi) db = Undefined "erase: invalid range".
Proof.
  intros [Hc (kvs & Hd & Hr)] Hlo Hhi Hlt [v1 Hk1] Hk1hi Hk1lo [v2 Hk2] Hk2lo.
  unfold DeleteRange. rewrite Hc, Hd.
  assert (Hasym : ¬ lt lo hi) by (intros ?; by eapply lt_irrefl; etrans).
  destruct (lower_bounds_split m kvs hi lo Hr Hhi Hlo Hasym)
    as (l1 & l2 & l3 & -> & -> & -> & H1 & H2 & H3).
  apply (rl_elem _ _ Hr) in Hk1, Hk2. rewrite !elem_of_app in Hk1, Hk2.
  rewrite !bind_Done_eq, length_fmap, !length_app.
  destruct Hk2 as [Hk2|[Hk2|Hk2]];
    [exfalso; apply Hk2lo; etrans; [by eapply H1|done]|exfalso; apply Hk2lo; by eapply H2|].
  destruct Hk1 as [Hk1|[Hk1|Hk1]]; [exfalso; by apply Hk1hi, (H1 k1 v1)| |exfalso; by apply (H3 k1 v1)].
  apply list_elem_of_split in Hk1 as (? & ? & ->), Hk2 as (? & ? & ->).
  rewrite !length_app. simpl. rewrite decide_False by lia.
  unfold map_erase_range. by rewrite decide_False by lia.
Qed.

(** ** Iterators *)

(** The iterator stands at the entry of position [i] of [kvs]. *)
Definition iterator_at (kvs : list (K * V)) (i : nat) (it : Iterator) : Prop :=
  storage it = enc <$> kvs ∧ iterator it = At i.

Lemma Iterator_Valid_at kvs i it :
  iterator_at kvs i it → i ≤ length kvs →
  Iterator_Valid it = Done (bool_decide (is_Some (kvs !! i))).
Proof.
  intros [Hst Hit] Hi. unfold Iterator_Valid. rewrite Hit, Hst, length_fmap.
  f_equal. apply bool_decide_ext. rewrite lookup_lt_is_Some. lia.
Qed.

Lemma EnsureIteratorIsValid_at kvs i it kv :
  iterator_at kvs i it → kvs !! i = Some kv → EnsureIteratorIsValid it = Done i.
Proof.
  intros Hat Hkv. pose proof (lookup_lt_Some _ _ _ Hkv). unfold EnsureIteratorIsValid.
  rewrite (Iterator_Valid_at kvs i) by (done || lia). rewrite bool_decide_eq_true_2 by eauto.
  destruct Hat as [_ ->]. done.
Qed.

Lemma Iterator_entry_at kvs i it k v :
  iterator_at kvs i it → kvs !! i = Some (k, v) →
  Iterator_GetKey it = Done (encK k) ∧ Iterator_GetValue it = Done (encV v).
Proof.
  intros Hat Hkv. unfold Iterator_GetKey, Iterator_GetValue.
  rewrite (EnsureIteratorIsValid_at kvs i it (k, v)) by done. rewrite !bind_Done_eq.
  destruct Hat as [-> _]. unfold vec_get. by rewrite list_lookup_fmap, Hkv.
Qed.

Lemma Iterator_Next_at kvs i it kv :
  iterator_at kvs i it → kvs !! i = Some kv →
  ∃ it', Iterator_Next it = Done it' ∧ iterator_at kvs (S i) it'.
Proof.
  intros Hat Hkv. unfold Iterator_Next. rewrite (EnsureIteratorIsValid_at kvs i it kv) by done.
  rewrite bind_Done_eq. eexists. split; [done|]. split; [apply Hat|done].
Qed.

Lemma Iterator_Prev_at kvs i it kv :
  iterator_at kvs i it → kvs !! i = Some kv →
  ∃ it', Iterator_Prev it = Done it' ∧
         iterator_at kvs (if decide (i = 0) then length kvs else i - 1) it'.
Proof.
  intros Hat Hkv. unfold Iterator_Prev. rewrite (EnsureIteratorIsValid_at kvs i it kv) by done.
  rewrite bind_Done_eq. eexists. split; [done|]. split; [apply Hat|]. simpl.
  destruct Hat as [-> _]. by rewrite length_fmap.
Qed.

(** Past either end, and on an empty map, moving or reading aborts. *)
Lemma Iterator_at_end kvs it :
  iterator_at kvs (length kvs) it → EnsureIteratorIsValid it = Panic "iterator is invalid".
Proof.
  intros Hat. unfold EnsureIteratorIsValid. rewrite (Iterator_Valid_at kvs (length kvs)) by done.
  rewrite bind_Done_eq, bool_decide_eq_false_2; [done|].
  rewrite lookup_lt_is_Some. lia.
Qed.

Lemma Iterator_SeekToFirst_at kvs d p :
  d = enc <$> kvs → iterator_at kvs 0 (Iterator_SeekToFirst (MkIterator d p)).
Proof. by intros ->. Qed.

Lemma Iterator_SeekToLast_at kvs d p :
  d = enc <$> kvs → iterator_at kvs (length kvs - 1) (Iterator_SeekToLast (MkIterator d p)).
Proof.
  intros ->. split; [done|]. unfold Iterator_SeekToLast. simpl. f_equal. rewrite length_fmap.
  case_decide as He; [|done]. apply fmap_nil_inv in He as ->. done.
Qed.

(** The last entry of the list has the greatest key of the map. *)
Lemma represents_last m kvs k v :
  represents_list m kvs → kvs !! (length kvs - 1) = Some (k, v) →
  m !! k = Some v ∧ ∀ k', is_Some (m !! k') → ¬ lt k k'.
Proof.
  intros [Hs _ Hel] Hkv. split; [apply Hel; by eapply list_elem_of_lookup_2|].
  intros k' [v' Hk']. apply Hel in Hk'.
  destruct kvs as [|x kvs _] using rev_ind; [done|].
  rewrite length_app in Hkv. simpl in Hkv. rewrite Nat.add_sub, list_lookup_middle in Hkv by done.
  injection Hkv as ->. apply sorted_app in Hs as (_ & _ & Hlt).
  apply elem_of_app in Hk' as [Hk'|[= -> ->]%list_elem_of_singleton]; [|apply lt_irrefl].
  intros Hgt. eapply (lt_irrefl k). etrans; [done|]. eapply Hlt; [done|].
  apply list_elem_of_singleton. done.
Qed.

(** ** The simulated database is a store *)

Definition encode_command (c : store_command K V) : command :=
  match c with
  | StorePut key value => PutCmd (encK key) (encV value)
  | StoreDeleteRange lo hi => DeleteRangeCmd (encK lo) (encK hi)
  | StoreDelete key => DeleteCmd (encK key)
  end.

Definition command_ok (c : store_command K V) : Prop :=
  match c with
  | StorePut key _ | StoreDelete key => okK key
  | StoreDeleteRange lo hi => okK lo ∧ okK hi ∧ ¬ lt hi lo
  end.

Definition batch_holds (cs : list (store_command K V)) (b : WriteBatch) : Prop :=
  b = encode_command <$> cs ∧ Forall command_ok cs.

Lemma batch_holds_snoc cs b c :
  batch_holds cs b → command_ok c → batch_holds (cs ++ [c]) (b ++ [encode_command c]).
Proof. intros [-> Hcs] Hc. split; [by rewrite fmap_app|]. by apply Forall_app_2; [|apply Forall_singleton]. Qed.

Lemma Write_command_store m db c :
  db_represents m db → command_ok c →
  ∃ db', Write_command (encode_command c) db = Done db' ∧ db_represents (store_step lt m c) db'.
Proof.
  intros Hdb Hc. unfold Write_command. destruct c as [k v|lo hi|k]; simpl in *.
  - destruct (Put_refines m db k v Hdb Hc) as (db' & -> & ?). eauto.
  - destruct Hc as (Hlo & Hhi & Hle).
    destruct (DeleteRange_refines m db lo hi Hdb Hlo Hhi Hle) as (db' & -> & ?). eauto.
  - destruct (Delete_refines m db k Hdb Hc) as (db' & -> & ?). eauto.
Qed.

Lemma Write_store cs b m db :
  db_represents m db → batch_holds cs b →
  ∃ db', Write b db = Done (Ok (), db') ∧ db_represents (foldl (store_step lt) m cs) db'.
Proof.
  intros Hdb [-> Hcs].
  assert (∃ db', for_each (encode_command <$> cs) Write_command db = Done db' ∧
                 db_represents (foldl (store_step lt) m cs) db') as (db' & Hw & Hdb').
  { revert m db Hdb. induction Hcs as [|c cs Hc _ IH]; intros m db Hdb; csimpl; [by eauto|].
    destruct (Write_command_store m db c Hdb Hc) as (db1 & -> & Hdb1). by apply IH. }
  exists db'. split; [|done]. unfold Write. by rewrite Hw.
Qed.

Lemma NewIterator_store m db :
  db_represents m db →
  ∃ kvs, lists_map lt m kvs ∧ iterator_at kvs 0 (Iterator_SeekToFirst (NewIterator db)) ∧
         iterator_at kvs (length kvs - 1) (Iterator_SeekToLast (NewIterator db)).
Proof.
  intros [_ (kvs & Hd & [Hs _ Hel])]. exists kvs.
  split_and!; [by split|by apply Iterator_SeekToFirst_at|by apply Iterator_SeekToLast_at].
Qed.

Lemma iterator_past_end kvs it :
  iterator_at kvs (length kvs) it →
  Iterator_Next it = Panic "iterator is invalid" ∧ Iterator_Prev it = Panic "iterator is invalid" ∧
  Iterator_GetKey it = Panic "iterator is invalid" ∧ Iterator_GetValue it = Panic "iterator is invalid".
Proof.
  intros Hat%Iterator_at_end. unfold Iterator_Next, Iterator_Prev, Iterator_GetKey, Iterator_GetValue.
  by rewrite Hat.
Qed.

Lemma represents_ok_keys m db k : db_represents m db → is_Some (m !! k) → okK k.
Proof. intros [_ (kvs & _ & [_ Hok Hel])] [v Hk]. apply (Hok k v). by apply Hel. Qed.

Definition sim_Store : Store lt okK encK encV HostDatabase.
Proof.
  refine {| holds := db_represents; collects := batch_holds; stands_at := iterator_at |}.
  - apply represents_ok_keys.
  - apply Put_refines.
  - apply Get_refines.
  - apply Delete_refines.
  - apply DeleteRange_refines.
  - by split.
  - intros cs b key value Hb Hk. eexists. split; [done|]. by apply (batch_holds_snoc _ _ (StorePut _ _)).
  - intros cs b lo hi Hb Hlo Hhi Hle. eexists. split; [done|].
    by apply (batch_holds_snoc _ _ (StoreDeleteRange _ _)).
  - intros cs b key Hb Hk. eexists. split; [done|]. by apply (batch_holds_snoc _ _ (StoreDelete _)).
  - apply Write_store.
  - apply NewIterator_store.
  - apply Iterator_Valid_at.
  - apply Iterator_entry_at.
  - apply Iterator_Next_at.
  - apply Iterator_Prev_at.
  - apply iterator_past_end.
Defined.
End represents.
