(* ===== verification/KVStorage.v ===== *)
(** * Key-value storage

    Model of src/runtime/kv_storage.h: typed access to a database through a
    serialization of the keys and one of the values, with the comparator that
    orders serialized keys by comparing the keys. [KVStorage_refines_map] shows
    that the operations implement those of KVInterface.v, on which the nodes
    and the queue are modelled.

    A storage is the database it was opened on, any implementation of
    [IDatabase]; the serializations and the comparison function are the type
    arguments of the template. *)

From stdpp Require Import sorting.
From S2P Require Import Prelude.
From S2P Require Import Result.
From S2P Require Import RtTypes.
From S2P Require Import KVInterface.
From S2P Require Import Serde.
From S2P Require Import IDatabase.
From S2P Require Import Database.
From S2P Require Import DatabaseMap.

Local Open Scope Z_scope.

Section kv_storage.
Context {K V : Type} {KeySerde : CSerde K} {ValueSerde : CSerde V}.
Variable Cmp : K → K → bool.
Variable type_name : string.  (** [typeid(KVStorage).name()] *)

(** ** The comparator *)

Definition Comparator_Compare (a b : Data) : outcome Z :=
  a_des ← Deserialize a;
  b_des ← Deserialize b;
  Done (if Cmp a_des b_des then -1 else if Cmp b_des a_des then 1 else 0).

Definition Comparator : IComparator := MkComparator Comparator_Compare type_name.

(** ** Operations, on any database *)

Context {DB : Type} `{!IDatabase DB}.

Definition Put (key : K) (value : V) (db : DB) : outcome (Status DBError * DB) :=
  key_ser ← Serialize key;
  value_ser ← Serialize value;
  db_Put key_ser value_ser db.

Definition Get (key : K) (db : DB) : outcome (Result V DBError) :=
  key_ser ← Serialize key;
  r ← db_Get key_ser db;
  match r with
  | Ok d => value ← Deserialize d; Done (Ok value)
  | Err e => Done (Err e)
  end.

Definition DeleteRange (start_key end_key : K) (db : DB) : outcome (Status DBError * DB) :=
  start_key_ser ← Serialize start_key;
  end_key_ser ← Serialize end_key;
  db_DeleteRange start_key_ser end_key_ser db.

Definition Delete (key : K) (db : DB) : outcome (Status DBError * DB) :=
  key_ser ← Serialize key;
  db_Delete key_ser db.

(** ** Write batches *)

Definition MakeWriteBatch : IWriteBatch := db_MakeWriteBatch.

Definition WriteBatch_Put (key : K) (value : V) (b : IWriteBatch)
    : outcome (Status DBError * IWriteBatch) :=
  key_ser ← Serialize key;
  value_ser ← Serialize value;
  Done (batch_Put key_ser value_ser b).

Definition WriteBatch_DeleteRange (start_key end_key : K) (b : IWriteBatch)
    : outcome (Status DBError * IWriteBatch) :=
  start_key_ser ← Serialize start_key;
  end_key_ser ← Serialize end_key;
  Done (batch_DeleteRange start_key_ser end_key_ser b).

Definition WriteBatch_Delete (key : K) (b : IWriteBatch) : outcome (Status DBError * IWriteBatch) :=
  key_ser ← Serialize key;
  Done (batch_Delete key_ser b).

Definition Write (b : IWriteBatch) (db : DB) : outcome (Status DBError * DB) := db_Write b db.

(** ** Iterators *)

Definition NewIterator (db : DB) : IIterator := db_NewIterator db.

Definition Iterator_SeekToLast (it : IIterator) : IIterator := it_SeekToLast it.
Definition Iterator_SeekToFirst (it : IIterator) : IIterator := it_SeekToFirst it.
Definition Iterator_Next (it : IIterator) : outcome IIterator := it_Next it.
Definition Iterator_Prev (it : IIterator) : outcome IIterator := it_Prev it.
Definition Iterator_Valid (it : IIterator) : outcome bool := it_Valid it.

Definition Iterator_GetKey (it : IIterator) : outcome K :=
  d ← it_GetKey it; Deserialize d.

Definition Iterator_GetValue (it : IIterator) : outcome V :=
  d ← it_GetValue it; Deserialize d.
End kv_storage.

(** ** Opening a storage

    [Open] of the simulated database is given the epoch and the databases of
    the host. *)
Definition Open `{CSerde K} (Cmp : K → K → bool) (type_name : string) (current_epoch : Z)
    (path : string) (options : Options) (databases : gmap string HostDatabase) :
    outcome (Result string DBError * gmap string HostDatabase) :=
  verify (match opt_comparator options with None => true | Some _ => false end)
    "KVStorage user-defined comparator are not allowed";;
  let options := MkOptions (Some (Comparator Cmp type_name)) (create_if_missing options) in
  '(db, databases') ← Database.Open current_epoch path options databases;
  Done (match db with
        | Err e => Err e
        | Ok handle => Ok handle
        end, databases').

(** ** The storage implements a finite map *)

(** The bytes of a value; total on the valid ones. *)
Definition bytes `{CSerde A} (a : A) : Data :=
  match Serialize a with Done d => d | _ => [] end.

Lemma Serialize_bytes `{SerdeLaws A} (a : A) : valid a → Serialize a = Done (bytes a).
Proof. intros Ha. unfold bytes. by destruct (Serialize_total a Ha) as (d & -> & _). Qed.

Lemma Deserialize_bytes `{SerdeLaws A} (a : A) : valid a → Deserialize (bytes a) = Done a.
Proof. intros Ha. apply Deserialize_Serialize; [done|]. by apply Serialize_bytes. Qed.

(** A comparison function of the template that decides a strict total order. *)
Class KeyOrder {K : Type} (Cmp : K → K → bool) (lt : relation K) `{!RelDecision lt} : Prop := {
  KeyOrder_strict :: StrictOrder lt;
  KeyOrder_total :: Trichotomy lt;
  KeyOrder_spec : ∀ a b, Cmp a b = bool_decide (lt a b);
}.

Section refinement.
Context {K V : Type} `{Countable K} {KeySerde : CSerde K} {ValueSerde : CSerde V}
  `{!SerdeLaws K} `{!SerdeLaws V}.
Context (lt : relation K) `{!RelDecision lt} `{!StrictOrder lt}.
Context {DB : Type} `{!IDatabase DB} {S : Store lt valid bytes bytes DB}.

(** The database holds the (valid) entries of [m]. *)
Definition kv_holds (m : gmap K V) (db : DB) : Prop :=
  holds m db ∧ map_Forall (λ _, valid) m.

Lemma kv_Put_refines m db key value :
  kv_holds m db → valid key → valid value →
  ∃ db', Put key value db = Done (Ok (), db') ∧ kv_holds (kv_Put key value m) db'.
Proof.
  intros [Hdb Hv] Hk Hval. unfold Put. rewrite !Serialize_bytes, !bind_Done_eq by done.
  destruct (store_Put m db key value Hdb Hk) as (db' & -> & Hdb').
  exists db'. split; [done|]. split; [done|]. by apply map_Forall_insert_2.
Qed.

Lemma kv_Get_refines m db key :
  kv_holds m db → valid key → Get key db = Done (kv_Get m key).
Proof.
  intros [Hdb Hv] Hk. unfold Get. rewrite Serialize_bytes, bind_Done_eq by done.
  rewrite (store_Get m db key Hdb Hk), bind_Done_eq.
  unfold kv_Get. destruct (m !! key) as [v|] eqn:Hm; simpl; [|done].
  rewrite Deserialize_bytes by (exact (Hv _ _ Hm)). done.
Qed.

Lemma kv_Delete_refines m db key :
  kv_holds m db → valid key →
  ∃ db', Delete key db = Done (Ok (), db') ∧ kv_holds (kv_Delete key m) db'.
Proof.
  intros [Hdb Hv] Hk. unfold Delete. rewrite Serialize_bytes, bind_Done_eq by done.
  destruct (store_Delete m db key Hdb Hk) as (db' & -> & Hdb').
  exists db'. split; [done|]. split; [done|]. by apply map_Forall_delete.
Qed.

Lemma kv_DeleteRange_refines m db lo hi :
  kv_holds m db → valid lo → valid hi → ¬ lt hi lo →
  ∃ db', DeleteRange lo hi db = Done (Ok (), db') ∧ kv_holds (delete_range lt lo hi m) db'.
Proof.
  intros [Hdb Hv] Hlo Hhi Hle. unfold DeleteRange. rewrite !Serialize_bytes, !bind_Done_eq by done.
  destruct (store_DeleteRange m db lo hi Hdb Hlo Hhi Hle) as (db' & -> & Hdb').
  exists db'. split; [done|]. split; [done|].
  intros k v [Hkv _]%lookup_delete_range. exact (Hv _ _ Hkv).
Qed.

(** The last entry of the list has the greatest key of the map. *)
Lemma lists_map_last (m : gmap K V) kvs k v :
  lists_map lt m kvs → kvs !! (length kvs - 1)%nat = Some (k, v) →
  m !! k = Some v ∧ ∀ k', is_Some (m !! k') → ¬ lt k k'.
Proof.
  intros [Hs Hel] Hkv. split; [apply Hel; by eapply list_elem_of_lookup_2|].
  intros k' [v' Hk']. apply Hel in Hk'.
  destruct kvs as [|x kvs _] using rev_ind; [done|].
  rewrite length_app in Hkv. simpl in Hkv. rewrite Nat.add_sub, list_lookup_middle in Hkv by done.
  injection Hkv as ->. rewrite fmap_app in Hs.
  apply elem_of_app in Hk' as [Hk'|[= -> ->]%list_elem_of_singleton]; [|apply (irreflexivity lt)].
  intros Hgt. eapply (irreflexivity lt k). etrans; [done|].
  eapply (StronglySorted_app_1_elem_of lt kvs.*1); [done| |by left].
  by apply (list_elem_of_fmap_2 fst) in Hk'.
Qed.

(** [SeekToLast] on a fresh iterator. *)
Lemma kv_SeekToLast_refines m db :
  kv_holds m db →
  let it := Iterator_SeekToLast (NewIterator db) in
  (m = ∅ ∧ Iterator_Valid it = Done false) ∨
  ∃ k v, m !! k = Some v ∧ (∀ k', is_Some (m !! k') → ¬ lt k k') ∧
    Iterator_Valid it = Done true ∧ Iterator_GetKey it = Done k ∧ Iterator_GetValue it = Done v.
Proof.
  intros [Hdb Hv] it. destruct (store_NewIterator m db Hdb) as (kvs & Hl & _ & Hat).
  change (it_SeekToLast (db_NewIterator db)) with it in Hat. clearbody it.
  pose proof (store_Valid _ _ _ Hat ltac:(lia)) as Hvalid.
  destruct (kvs !! (length kvs - 1)%nat) as [[k v]|] eqn:Hkv.
  - right. destruct (lists_map_last _ _ _ _ Hl Hkv) as [Hmk Hmax]. exists k, v.
    assert (valid k) by (eapply store_ok_keys; eauto).
    assert (valid v) by exact (Hv _ _ Hmk).
    destruct (store_entry _ _ _ _ _ Hat Hkv) as [Hgk Hgv].
    unfold Iterator_GetKey, Iterator_GetValue, Iterator_Valid. rewrite Hgk, Hgv, Hvalid. rewrite !bind_Done_eq.
    split_and!; [done..| |]; by apply Deserialize_bytes.
  - left. unfold Iterator_Valid. rewrite Hvalid. split; [|done].
    apply lookup_ge_None in Hkv. assert (kvs = []) as -> by (destruct kvs; simpl in *; done || lia).
    apply map_eq. intros k. rewrite lookup_empty. apply eq_None_not_Some. intros [v Hk].
    by apply (lm_elem _ _ _ Hl), not_elem_of_nil in Hk.
Qed.

(** The loop [while (it.Valid()) { it.GetKey(), it.GetValue(); it.Next(); }]. *)
Fixpoint collect (fuel : nat) (it : IIterator) : outcome (list (K * V)) :=
  match fuel with
  | O => Panic "out of fuel"
  | Datatypes.S fuel =>
      valid ← Iterator_Valid it;
      if (valid : bool) then
        k ← Iterator_GetKey it;
        v ← Iterator_GetValue it;
        it' ← Iterator_Next it;
        cons (k, v) <$> collect fuel it'
      else Done []
  end.

Lemma collect_at kvs i it fuel :
  (∀ k v, (k, v) ∈ kvs → valid k ∧ valid v) →
  stands_at kvs i it → (i ≤ length kvs)%nat → (length kvs - i < fuel)%nat →
  collect fuel it = Done (drop i kvs).
Proof.
  intros Hval. revert i it. induction fuel as [|fuel IH]; intros i it Hat Hi Hfuel; [lia|]. simpl.
  unfold Iterator_Valid. rewrite (store_Valid _ _ _ Hat ltac:(lia)), bind_Done_eq.
  destruct (kvs !! i) as [[k v]|] eqn:Hkv; [|by rewrite drop_ge by (by apply lookup_ge_None)].
  rewrite bool_decide_eq_true_2 by eauto. pose proof (lookup_lt_Some _ _ _ Hkv).
  destruct (Hval k v) as [Hk Hv]; [by eapply list_elem_of_lookup_2|].
  destruct (store_entry _ _ _ _ _ Hat Hkv) as [Hgk Hgv].
  destruct (store_Next _ _ _ _ Hat Hkv) as (it' & Hnext & Hat').
  unfold Iterator_GetKey, Iterator_GetValue, Iterator_Next. rewrite Hgk, Hgv, Hnext, !bind_Done_eq.
  rewrite !Deserialize_bytes, !bind_Done_eq by done. rewrite (IH (Datatypes.S i)) by (done || lia).
  by rewrite (drop_S _ _ _ Hkv).
Qed.

(** A loop from [SeekToFirst] with [Next] visits the entries in order and ends. *)
Lemma collect_holds m db :
  kv_holds m db →
  ∃ kvs, lists_map lt m kvs ∧
    ∀ fuel, (length kvs < fuel)%nat → collect fuel (Iterator_SeekToFirst (NewIterator db)) = Done kvs.
Proof.
  intros [Hdb Hv]. destruct (store_NewIterator m db Hdb) as (kvs & Hl & Hat & _).
  exists kvs. split; [done|]. intros fuel Hfuel. apply (collect_at kvs 0); [|done|lia|lia].
  intros k v Hin%(lm_elem _ _ _ Hl). split; [by eapply store_ok_keys|exact (Hv _ _ Hin)].
Qed.
End refinement.

(** ** On the simulated database *)

Section simulated.
Context {K V : Type} `{Countable K} {KeySerde : CSerde K} {ValueSerde : CSerde V}
  `{!SerdeLaws K} `{!SerdeLaws V}.
Context (Cmp : K → K → bool) (lt : relation K) `{!RelDecision lt} `{!KeyOrder Cmp lt}.
Context (type_name : string).

Lemma Comparator_less a b :
  valid a → valid b →
  less (Comparator Cmp type_name) (bytes a) (bytes b) = Done (bool_decide (lt a b)).
Proof.
  intros Ha Hb. unfold less. simpl. unfold Comparator_Compare.
  rewrite !Deserialize_bytes, !bind_Done_eq by done. f_equal.
  rewrite !(KeyOrder_spec (Cmp := Cmp)). by destruct (bool_decide (lt a b)), (bool_decide (lt b a)).
Qed.

Definition sim_store : Store (V := V) lt valid bytes bytes HostDatabase :=
  sim_Store lt valid bytes bytes (Comparator Cmp type_name) Comparator_less.

Definition kv_represents (m : gmap K V) (db : HostDatabase) : Prop :=
  kv_holds (S := sim_store) lt m db.

(** A loop from [SeekToFirst] with [Next] visits exactly the entries of
    the storage, each once and in increasing order of the keys, and ends;
    reading or moving an iterator past the end aborts; using an iterator that
    was not positioned first is undefined. *)
Theorem iteration_visits_map (m : gmap K V) (db : HostDatabase) :
  kv_represents m db →
  (∃ kvs, collect (K := K) (V := V) (S (length (data db))) (Iterator_SeekToFirst (NewIterator db)) = Done kvs ∧
     StronglySorted lt kvs.*1 ∧ ∀ k v, (k, v) ∈ kvs ↔ m !! k = Some v) ∧
  (∀ it : Iterator, storage it = data db → iterator it = At (length (data db)) →
     Iterator_Next it = Panic "iterator is invalid" ∧ Iterator_Prev it = Panic "iterator is invalid" ∧
     Iterator_GetKey (K := K) it = Panic "iterator is invalid" ∧
     Iterator_GetValue (V := V) it = Panic "iterator is invalid") ∧
  Iterator_Valid (NewIterator db) = Undefined "iterator of another map".
Proof.
  intros Hdb. pose proof Hdb as [[_ (kvs & Hd & Hr)] Hv]. split_and!; [| |done].
  - destruct (collect_holds (S := sim_store) lt m db Hdb) as (kvs' & [Hs Hel] & Hrun).
    exists kvs'. split_and!; [|done|done]. apply Hrun.
    assert (kvs' ≡ₚ kvs) as ->.
    { apply NoDup_Permutation.
      - by eapply NoDup_fmap_1, (strictly_sorted_NoDup lt).
      - eapply NoDup_fmap_1, (strictly_sorted_NoDup lt). apply (rl_sorted _ _ _ _ Hr).
      - intros [k v]. by rewrite Hel, (rl_elem _ _ _ _ Hr). }
    rewrite Hd, length_fmap. lia.
  - intros it Hst Hit.
    destruct (iterator_past_end bytes bytes kvs it) as (? & ? & Hk & Hval).
    { split; [congruence|]. by rewrite Hit, Hd, length_fmap. }
    unfold Iterator_GetKey, Iterator_GetValue. simpl. rewrite Hk, Hval. done.
Qed.
End simulated.

(** ** The storages the program opens

    [std::less<>] on the key types. *)

#[export] Instance U64_KeyOrder : KeyOrder Z.ltb Z.lt.
Proof.
  split; [apply _| |].
  - intros a b. lia.
  - intros a b. case_bool_decide; lia.
Qed.

#[export] Instance String_KeyOrder : KeyOrder String.ltb (strict String.le).
Proof.
  split; [split| |].
  - intros a [_ Hn]. by apply Hn.
  - intros a b c [Hab Hba] Hbc. by eapply strict_trans_l; [|apply Hbc].
  - intros a b. destruct (total String.le a b) as [Hab|Hba]; destruct (decide (a = b)) as [->|Hne]; auto.
    + left. by apply strict_spec_alt.
    + right. right. by apply strict_spec_alt.
  - intros a b. case_bool_decide as Hab; revert Hab;
      unfold strict, String.le, String.leb, String.ltb;
      rewrite (String.compare_antisym b a); destruct (String.compare a b); simpl; naive_solver.
Qed.

(** The storage of the current term and vote, and of the producers' state:
    string keys and integer values. *)
Lemma state_db_refines m db key value name :
  kv_represents String.ltb (strict String.le) name m db → is_u64 value →
  ∃ db', Put key value db = Done (Ok (), db') ∧
    kv_represents String.ltb (strict String.le) name (kv_Put key value m) db' ∧
    ∀ key', Get key' db' = Done (kv_Get (kv_Put key value m) key').
Proof.
  intros Hdb Hv.
  destruct (kv_Put_refines (strict String.le) m db key value Hdb I Hv) as (db' & Hput & Hdb').
  exists db'. split_and!; [done..|]. intros key'.
  exact (kv_Get_refines (strict String.le) _ db' key' Hdb' I).
Qed.

Section log_storage.
Context {V : Type} {ValueSerde : CSerde V} `{!SerdeLaws V}.
Context {DB : Type} `{!IDatabase DB}.

(** The calls that put a list of commands in a write batch. *)
Definition add_command (c : batch_command V) (b : IWriteBatch) : outcome IWriteBatch :=
  '(status, b') ← match c with
                  | BatchPut key value => WriteBatch_Put key value b
                  | BatchDeleteRange start_key end_key => WriteBatch_DeleteRange start_key end_key b
                  | BatchDelete key => WriteBatch_Delete (K := Z) key b
                  end;
  ExpectOk status;;
  Done b'.

Definition valid_command (c : batch_command V) : Prop :=
  match c with
  | BatchPut key value => is_u64 key ∧ valid value
  | BatchDeleteRange lo hi => is_u64 lo ∧ is_u64 hi ∧ lo ≤ hi
  | BatchDelete key => is_u64 key
  end.

Lemma delete_range_Z lo hi (m : gmap Z V) : delete_range Z.lt lo hi m = kv_DeleteRange lo hi m.
Proof.
  apply map_eq. intros k. apply option_eq. intros v.
  rewrite lookup_delete_range, lookup_kv_DeleteRange. case_decide; naive_solver lia.
Qed.

Definition as_store_command (c : batch_command V) : store_command Z V :=
  match c with
  | BatchPut key value => StorePut key value
  | BatchDeleteRange lo hi => StoreDeleteRange lo hi
  | BatchDelete key => StoreDelete key
  end.

Lemma kv_Write_store cs m :
  foldl (store_step Z.lt) m (as_store_command <$> cs) = kv_Write cs m.
Proof.
  revert m. induction cs as [|c cs IH]; intros m; [done|]. csimpl. rewrite IH. f_equal.
  destruct c; simpl; [done|apply delete_range_Z|done].
Qed.

Lemma kv_Write_valid cs m :
  Forall valid_command cs → map_Forall (λ _, valid) m → map_Forall (λ _, valid) (kv_Write cs m).
Proof.
  intros Hcs. revert m. induction Hcs as [|c cs Hc _ IH]; intros m Hm; [done|]. simpl. apply IH.
  destruct c; simpl in *; destruct_and?.
  - by apply map_Forall_insert_2.
  - intros k v. rewrite lookup_kv_DeleteRange. case_decide; [done|]. apply Hm.
  - by apply map_Forall_delete.
Qed.

Context {S : Store (V := V) Z.lt valid bytes bytes DB}.

Lemma add_command_collects c cs b :
  valid_command c → collects cs b →
  ∃ b', add_command c b = Done b' ∧ collects (cs ++ [as_store_command c]) b'.
Proof.
  intros Hc Hb. unfold add_command, WriteBatch_Put, WriteBatch_DeleteRange, WriteBatch_Delete.
  destruct c as [k v|lo hi|k]; cbn [valid_command as_store_command] in *; destruct_and?; rewrite !Serialize_bytes, ?bind_Done_eq by done.
  - destruct (store_batch_Put cs b k v Hb) as (b' & -> & ?); [done|]. by exists b'.
  - destruct (store_batch_DeleteRange cs b lo hi Hb) as (b' & -> & ?); [done|done|lia|]. by exists b'.
  - destruct (store_batch_Delete cs b k Hb) as (b' & -> & ?); [done|]. by exists b'.
Qed.

Lemma add_commands_collect cs cs0 b :
  Forall valid_command cs → collects cs0 b →
  ∃ b', for_each cs add_command b = Done b' ∧ collects (cs0 ++ (as_store_command <$> cs)) b'.
Proof.
  intros Hcs. revert cs0 b. induction Hcs as [|c cs Hc _ IH]; intros cs0 b Hb; csimpl.
  { exists b. by rewrite app_nil_r. }
  destruct (add_command_collects c cs0 b Hc Hb) as (b1 & -> & Hb1). rewrite bind_Done_eq.
  destruct (IH _ _ Hb1) as (b' & -> & Hb'). exists b'. split; [done|]. by rewrite <-(assoc_L (++)) in Hb'.
Qed.

(** What a storage with integer keys does, whatever the database under it. *)
Record acts_as_map (m : gmap Z V) (db : DB) : Prop := {
  acts_Put : ∀ key value, is_u64 key → valid value →
    ∃ db', Put key value db = Done (Ok (), db') ∧ kv_holds Z.lt (kv_Put key value m) db';
  acts_Get : ∀ key, is_u64 key → Get key db = Done (kv_Get m key);
  acts_Delete : ∀ key, is_u64 key →
    ∃ db', Delete key db = Done (Ok (), db') ∧ kv_holds Z.lt (kv_Delete key m) db';
  acts_DeleteRange : ∀ lo hi, is_u64 lo → is_u64 hi → lo ≤ hi →
    ∃ db', DeleteRange lo hi db = Done (Ok (), db') ∧ kv_holds Z.lt (kv_DeleteRange lo hi m) db';
  acts_Write : ∀ cs, Forall valid_command cs →
    ∃ b db', for_each cs add_command MakeWriteBatch = Done b ∧
             Write b db = Done (Ok (), db') ∧ kv_holds Z.lt (kv_Write cs m) db';
  acts_SeekToLast :
    let it := Iterator_SeekToLast (NewIterator db) in
    match kv_Last m with
    | None => Iterator_Valid it = Done false
    | Some (k, v) =>
        Iterator_Valid it = Done true ∧ Iterator_GetKey it = Done k ∧ Iterator_GetValue it = Done v
    end;
}.

Lemma storage_acts_as_map m db : kv_holds Z.lt m db → acts_as_map m db.
Proof.
  intros Hdb. split.
  - intros. by apply (kv_Put_refines Z.lt).
  - intros key Hk. exact (kv_Get_refines Z.lt m db key Hdb Hk).
  - intros. by apply (kv_Delete_refines Z.lt).
  - intros lo hi Hlo Hhi Hle. rewrite <-delete_range_Z. apply (kv_DeleteRange_refines Z.lt); try done. lia.
  - intros cs Hcs. destruct (add_commands_collect cs [] MakeWriteBatch Hcs store_MakeWriteBatch) as (b & Hb & Hcol).
    destruct Hdb as [Hdb Hv]. destruct (store_Write _ b m db Hdb Hcol) as (db' & Hw & Hdb').
    exists b, db'. split_and!; [done|done|]. simpl in Hdb'. rewrite kv_Write_store in Hdb'.
    split; [done|by apply kv_Write_valid].
  - intros it. destruct (kv_SeekToLast_refines Z.lt m db Hdb) as [[-> Hv]|(k & v & Hk & Hmax & Hv & Hkv)].
    + destruct (kv_Last ∅) as [[k v]|] eqn:Hl; [|done].
      apply kv_Last_Some in Hl as [Hl _]. by rewrite lookup_empty in Hl.
    + assert (kv_Last m = Some (k, v)) as ->; [|done].
      apply kv_Last_Some. split; [done|]. intros k' Hk'. specialize (Hmax k' Hk'). lia.
Qed.

(** ** Programs over a storage

    A client of the storage as a list of operations, and what it is answered. *)
Inductive kv_op : Type :=
  | OpPut (key : Z) (value : V)
  | OpGet (key : Z)
  | OpDelete (key : Z)
  | OpDeleteRange (start_key end_key : Z)
  | OpWrite (cs : list (batch_command V))
  | OpLast.

Inductive kv_answer : Type :=
  | AnswerStatus (s : Status DBError)
  | AnswerValue (r : Result V DBError)
  | AnswerLast (entry : option (Z * V)).

Definition run_op (op : kv_op) (db : DB) : outcome (kv_answer * DB) :=
  match op with
  | OpPut key value => '(s, db) ← Put key value db; Done (AnswerStatus s, db)
  | OpGet key => r ← Get key db; Done (AnswerValue r, db)
  | OpDelete key => '(s, db) ← Delete (K := Z) key db; Done (AnswerStatus s, db)
  | OpDeleteRange lo hi => '(s, db) ← DeleteRange (K := Z) lo hi db; Done (AnswerStatus s, db)
  | OpWrite cs =>
      b ← for_each cs add_command MakeWriteBatch;
      '(s, db) ← Write b db; Done (AnswerStatus s, db)
  | OpLast =>
      let it := Iterator_SeekToLast (NewIterator db) in
      valid ← Iterator_Valid it;
      if (valid : bool) then
        k ← Iterator_GetKey it; v ← Iterator_GetValue it; Done (AnswerLast (Some (k, v)), db)
      else Done (AnswerLast None, db)
  end.

Fixpoint run_ops (ops : list kv_op) (db : DB) : outcome (list kv_answer * DB) :=
  match ops with
  | [] => Done ([], db)
  | op :: ops =>
      '(a, db) ← run_op op db; '(answers, db) ← run_ops ops db; Done (a :: answers, db)
  end.

(** The same program on a finite map. *)
Definition map_op (op : kv_op) (m : gmap Z V) : kv_answer * gmap Z V :=
  match op with
  | OpPut key value => (AnswerStatus (Ok ()), kv_Put key value m)
  | OpGet key => (AnswerValue (kv_Get m key), m)
  | OpDelete key => (AnswerStatus (Ok ()), kv_Delete key m)
  | OpDeleteRange lo hi => (AnswerStatus (Ok ()), kv_DeleteRange lo hi m)
  | OpWrite cs => (AnswerStatus (Ok ()), kv_Write cs m)
  | OpLast => (AnswerLast (kv_Last m), m)
  end.

Fixpoint map_ops (ops : list kv_op) (m : gmap Z V) : list kv_answer * gmap Z V :=
  match ops with
  | [] => ([], m)
  | op :: ops =>
      let '(a, m) := map_op op m in let '(answers, m) := map_ops ops m in (a :: answers, m)
  end.

Definition valid_op (op : kv_op) : Prop :=
  match op with
  | OpPut key value => is_u64 key ∧ valid value
  | OpGet key | OpDelete key => is_u64 key
  | OpDeleteRange lo hi => is_u64 lo ∧ is_u64 hi ∧ lo ≤ hi
  | OpWrite cs => Forall valid_command cs
  | OpLast => True
  end.

Lemma run_op_map op m db :
  kv_holds Z.lt m db → valid_op op →
  ∃ db', run_op op db = Done ((map_op op m).1, db') ∧ kv_holds Z.lt (map_op op m).2 db'.
Proof.
  intros Hdb Hop. pose proof (storage_acts_as_map m db Hdb) as [HPut HGet HDel HRange HWrite HLast].
  destruct op as [k v|k|k|lo hi|cs|]; cbn [valid_op map_op run_op fst snd] in *; destruct_and?.
  - destruct (HPut k v) as (db' & -> & ?); [done..|]. by exists db'.
  - rewrite HGet by done. by exists db.
  - destruct (HDel k) as (db' & -> & ?); [done|]. by exists db'.
  - destruct (HRange lo hi) as (db' & -> & ?); [done..|]. by exists db'.
  - destruct (HWrite cs Hop) as (b & db' & -> & Hw & ?). rewrite bind_Done_eq, Hw. by exists db'.
  - exists db. split; [|done]. simpl in HLast. destruct (kv_Last m) as [[k v]|].
    + destruct HLast as (-> & -> & ->). done.
    + by rewrite HLast.
Qed.

Lemma run_ops_map ops m db :
  kv_holds Z.lt m db → Forall valid_op ops →
  ∃ db', run_ops ops db = Done ((map_ops ops m).1, db') ∧ kv_holds Z.lt (map_ops ops m).2 db'.
Proof.
  intros Hdb Hops. revert m db Hdb. induction Hops as [|op ops Hop _ IH]; intros m db Hdb; [by exists db|].
  simpl. destruct (run_op_map op m db Hdb Hop) as (db1 & -> & Hdb1). destruct (map_op op m) as [a m1].
  rewrite bind_Done_eq. destruct (IH m1 db1 Hdb1) as (db' & -> & Hdb'). destruct (map_ops ops m1) as [answers m2].
  by exists db'.
Qed.
End log_storage.
Arguments kv_op : clear implicits.
Arguments kv_answer : clear implicits.

(** [C24] The log storage implements the finite map its users see: on integer
    keys and serializable values [Put], [Get], [Delete], [DeleteRange] of an
    ordered range and whole write batches succeed and act as the operations
    of the map, [Get] of a missing key is the [NotFound] error, and an
    iterator moved by [SeekToLast] reads the entry with the greatest key or is
    invalid on an empty storage. *)
Theorem KVStorage_refines_map `{SerdeLaws V} (name : string) (m : gmap Z V) (db : HostDatabase) :
  kv_represents Z.ltb Z.lt name m db →
  (∀ key value, is_u64 key → valid value →
     ∃ db', Put key value db = Done (Ok (), db') ∧
            kv_represents Z.ltb Z.lt name (kv_Put key value m) db') ∧
  (∀ key, is_u64 key → Get key db = Done (kv_Get m key)) ∧
  (∀ key, is_u64 key →
     ∃ db', Delete key db = Done (Ok (), db') ∧
            kv_represents Z.ltb Z.lt name (kv_Delete key m) db') ∧
  (∀ lo hi, is_u64 lo → is_u64 hi → lo ≤ hi →
     ∃ db', DeleteRange lo hi db = Done (Ok (), db') ∧
            kv_represents Z.ltb Z.lt name (kv_DeleteRange lo hi m) db') ∧
  (∀ cs, Forall valid_command cs →
     ∃ b db', for_each cs add_command MakeWriteBatch = Done b ∧
              Write b db = Done (Ok (), db') ∧
              kv_represents Z.ltb Z.lt name (kv_Write cs m) db') ∧
  (let it := Iterator_SeekToLast (NewIterator db) in
   match kv_Last m with
   | None => Iterator_Valid it = Done false
   | Some (k, v) =>
       Iterator_Valid it = Done true ∧ Iterator_GetKey it = Done k ∧ Iterator_GetValue it = Done v
   end).
Proof.
  intros Hdb. by destruct (storage_acts_as_map (S := sim_store Z.ltb Z.lt name) m db Hdb).
Qed.

Lemma new_database_represents (name : string) :
  kv_represents (K := Z) (V := Z) Z.ltb Z.lt name ∅ (HostDatabase_new (Comparator Z.ltb name)).
Proof. split; [split; [done|]; apply represents_empty|apply map_Forall_empty]. Qed.

(** Writing to a new database through the map it implements, and reading the
    value back. *)
Lemma KVStorage_refines_map_witness :
  ∃ db, Put 7 42 (HostDatabase_new (Comparator Z.ltb "log")) = Done (Ok (), db) ∧
        Get 7 db = Done (Ok 42) ∧ Get (V := Z) 8 db = Done (Err (MkDBError DBNotFound "")).
Proof.
  destruct (KVStorage_refines_map "log" ∅ _ (new_database_represents "log")) as (Hput & _).
  destruct (Hput 7 42) as (db & Hdb & Hrep); [by vm_compute..|].
  exists db. destruct (KVStorage_refines_map "log" _ db Hrep) as (_ & Hget & _).
  rewrite !Hget by by vm_compute. split_and!; [done|vm_compute; reflexivity..].
Defined.

(** [C26] Opening a storage: a missing database is created empty (or refused
    when creation is not allowed); a database that was already opened since the
    host last started is refused and left alone; otherwise the contents are
    kept, also across a restart of the host, and the call fails if and only if
    the storage was created with another type. *)
Theorem Open_correct `{CSerde K} (Cmp : K → K → bool) (name : string) (now : Z) (path : string)
    (create : bool) (dbs : gmap string HostDatabase) :
  (∀ p db, dbs !! p = Some db → epoch db ≤ now) →
  ∃ r dbs', Open Cmp name now path (MkOptions None create) dbs = Done (r, dbs') ∧
  match dbs !! path with
  | None =>
      if create then r = Ok path ∧ data <$> dbs' !! path = Some [] ∧ epoch <$> dbs' !! path = Some now
      else r = Err (MkDBError DBInvalidArgument "database is missing") ∧ dbs' = dbs
  | Some db =>
      if decide (epoch db = now)
      then r = Err (MkDBError DBInternal "database is opened twice") ∧ dbs' = dbs
      else data <$> dbs' !! path = Some (data db) ∧ epoch <$> dbs' !! path = Some now ∧
           (HasValue r = true ↔ comparator_name db = name)
  end ∧
  (∀ p, p ≠ path → dbs' !! p = dbs !! p).
Proof.
  intros Hepoch. unfold Open, Database.Open. cbn [opt_comparator create_if_missing].
  rewrite (bind_Done_eq ()). destruct (dbs !! path) as [db|] eqn:Hp.
  - rewrite bool_decide_eq_true_2 by (by eapply Hepoch). rewrite (bind_Done_eq ()).
    case_decide; [by eauto 10|]. case_decide as Hn; rewrite bind_Done_eq; eexists _, _;
      (split; [done|]); rewrite lookup_insert_eq; (split; [|by intros; rewrite lookup_insert_ne]);
      simpl in *; split_and!; done || by split.
  - destruct create; [|by eauto 10]. rewrite decide_True by done. rewrite bind_Done_eq.
    eexists _, _. split; [done|]. rewrite lookup_insert_eq. split; [done|].
    by intros; rewrite lookup_insert_ne.
Qed.

(** A storage opened in the first epoch of a host, opened again after a
    restart. *)
Lemma Open_correct_witness :
  let db := MkHostDatabase (Comparator (K := Z) Z.ltb "u64") "u64" [(le_bytes 8 7, le_bytes 8 42)] 0 in
  ∃ r dbs', Open (K := Z) Z.ltb "u64" 1 "/log" (MkOptions None true) {[ "/log" := db ]} = Done (r, dbs') ∧
    data <$> dbs' !! "/log" = Some [(le_bytes 8 7, le_bytes 8 42)] ∧ HasValue r = true.
Proof.
  intros db.
  destruct (Open_correct (K := Z) Z.ltb "u64" 1 "/log" true {[ "/log" := db ]})
    as (r & dbs' & Hopen & Hr & _).
  { intros p db' [_ <-]%lookup_singleton_Some. done. }
  rewrite lookup_singleton_eq in Hr. cbn [epoch comparator_name data db] in Hr.
  rewrite decide_False in Hr by done. destruct Hr as (Hd & _ & Hv).
  exists r, dbs'. split_and!; [done..|]. by apply Hv.
Defined.

Lemma iteration_visits_map_witness :
  ∃ db, Put 7 42 (HostDatabase_new (Comparator Z.ltb "log")) = Done (Ok (), db) ∧
    collect (K := Z) (V := Z) (S (length (data db))) (Iterator_SeekToFirst (NewIterator db)) =
      Done [(7, 42)].
Proof.
  destruct (kv_Put_refines Z.lt ∅ _ 7 42 (new_database_represents "log"))
    as (db & Hdb & Hrep); [by vm_compute..|].
  exists db. split; [done|].
  destruct (iteration_visits_map Z.ltb Z.lt "log" _ db Hrep) as ((kvs & -> & Hs & Hel) & _).
  f_equal. assert (Hin : ∀ k v, (k, v) ∈ kvs ↔ k = 7 ∧ v = 42).
  { intros k v. rewrite Hel. unfold kv_Put. rewrite lookup_insert_Some, lookup_empty. naive_solver. }
  destruct kvs as [|[k v] [|[k' v'] kvs]].
  - destruct (not_elem_of_nil (A := Z * Z) (7, 42)). by apply Hin.
  - destruct (proj1 (Hin k v)) as [-> ->]; [by left|done].
  - destruct (proj1 (Hin k v)) as [-> ->]; [by left|].
    destruct (proj1 (Hin k' v')) as [-> ->]; [by right; left|].
    simpl in Hs. inversion Hs as [|?? _ Hlt]; subst. inversion Hlt. lia.
Defined.
