(* ===== verification/ProdDatabase.v ===== *)
(** * The production database

    src/runtime/production/database.{h,cpp}: the adapter from [IDatabase] to
    RocksDB. RocksDB is not part of the repository and is a parameter: the class
    [RocksDB] has the calls the adapter makes, [RocksDBLaws] what its
    documentation promises of them for an opened database without I/O errors. A
    [rocksdb::Slice] is a view of bytes, so conversions between slices and
    [DataView] leave the bytes alone. *)

From stdpp Require Import sorting.
From S2P Require Import Prelude.
From S2P Require Import Result.
From S2P Require Import RtTypes.
From S2P Require Import KVInterface.
From S2P Require Import Serde.
From S2P Require Import IDatabase.
From S2P Require Import Database.
From S2P Require Import KVStorage.

Local Open Scope Z_scope.

(** ** RocksDB *)

(** [rocksdb::Status]: the codes the adapter asks for, and the text. *)
Inductive rocks_code : Type := RocksOk | RocksNotFound | RocksInvalidArgument | RocksOther.

Record rocks_status : Type := MkRocksStatus { status_code : rocks_code; status_text : string }.

Definition ok (s : rocks_status) : bool :=
  match status_code s with RocksOk => true | _ => false end.
Definition IsNotFound (s : rocks_status) : bool :=
  match status_code s with RocksNotFound => true | _ => false end.
Definition IsInvalidArgument (s : rocks_status) : bool :=
  match status_code s with RocksInvalidArgument => true | _ => false end.

Class RocksDB : Type := {
  rocks_db : Type;
  rocks_batch : Type;
  rocks_iterator : Type;
  rocks_files : Type;
  rocks_Put : Data → Data → rocks_db → rocks_status * rocks_db;
  rocks_Get : Data → rocks_db → rocks_status * Data;
  rocks_DeleteRange : Data → Data → rocks_db → rocks_status * rocks_db;
  rocks_Delete : Data → rocks_db → rocks_status * rocks_db;
  rocks_Write : rocks_batch → rocks_db → rocks_status * rocks_db;
  rocks_batch_new : rocks_batch;
  rocks_batch_Put : Data → Data → rocks_batch → rocks_status * rocks_batch;
  rocks_batch_DeleteRange : Data → Data → rocks_batch → rocks_status * rocks_batch;
  rocks_batch_Delete : Data → rocks_batch → rocks_status * rocks_batch;
  rocks_NewIterator : rocks_db → rocks_iterator;
  rocks_SeekToLast : rocks_iterator → rocks_iterator;
  rocks_SeekToFirst : rocks_iterator → rocks_iterator;
  rocks_Next : rocks_iterator → rocks_iterator;
  rocks_Prev : rocks_iterator → rocks_iterator;
  rocks_Valid : rocks_iterator → bool;
  rocks_key : rocks_iterator → Data;
  rocks_value : rocks_iterator → Data;
  (** [DB::Open] with [create_if_missing], the comparator and the path *)
  rocks_Open : bool → IComparator → string → rocks_files → rocks_status * rocks_db * rocks_files;
}.

Section adapter.
Context {R : RocksDB}.

(** [if (!status.ok()) return Err(Internal, status.ToString()); return Ok();] *)
Definition to_status (s : rocks_status) : Status DBError :=
  if ok s then Ok () else Err (MkDBError DBInternal (status_text s)).

(** ** Write batches *)

Definition WriteBatch_Put (key value : Data) (b : rocks_batch) : Status DBError * rocks_batch :=
  let '(status, b) := rocks_batch_Put key value b in (to_status status, b).

Definition WriteBatch_DeleteRange (start_key end_key : Data) (b : rocks_batch)
    : Status DBError * rocks_batch :=
  let '(status, b) := rocks_batch_DeleteRange start_key end_key b in (to_status status, b).

Definition WriteBatch_Delete (key : Data) (b : rocks_batch) : Status DBError * rocks_batch :=
  let '(status, b) := rocks_batch_Delete key b in (to_status status, b).

(** ** Iterators *)

Definition Iterator_Valid (it : rocks_iterator) : outcome bool := Done (rocks_Valid it).

Definition EnsureIteratorIsValid (it : rocks_iterator) : outcome unit :=
  verify (rocks_Valid it) "iterator is invalid".

Definition Iterator_SeekToLast (it : rocks_iterator) : rocks_iterator := rocks_SeekToLast it.
Definition Iterator_SeekToFirst (it : rocks_iterator) : rocks_iterator := rocks_SeekToFirst it.

Definition Iterator_Next (it : rocks_iterator) : outcome rocks_iterator :=
  EnsureIteratorIsValid it;; Done (rocks_Next it).
Definition Iterator_Prev (it : rocks_iterator) : outcome rocks_iterator :=
  EnsureIteratorIsValid it;; Done (rocks_Prev it).
Definition Iterator_GetKey (it : rocks_iterator) : outcome Data :=
  EnsureIteratorIsValid it;; Done (rocks_key it).
Definition Iterator_GetValue (it : rocks_iterator) : outcome Data :=
  EnsureIteratorIsValid it;; Done (rocks_value it).

(** ** The database *)

(** The comparator that the wrapper forwards to, the RocksDB handle and the
    option [sync] of writes. *)
Record Database : Type := MkDatabase {
  comparator_ : IComparator;
  database_ : rocks_db;
  write_sync : bool;
}.

Definition with_database (r : rocks_db) (db : Database) : Database :=
  MkDatabase (comparator_ db) r (write_sync db).

Definition NewIterator (db : Database) : rocks_iterator := rocks_NewIterator (database_ db).

Definition Put (key value : Data) (db : Database) : outcome (Status DBError * Database) :=
  let '(status, r) := rocks_Put key value (database_ db) in
  Done (to_status status, with_database r db).

Definition Get (key : Data) (db : Database) : outcome (Result Data DBError) :=
  let '(status, result) := rocks_Get key (database_ db) in
  Done (if IsNotFound status then Err (MkDBError DBNotFound "")
        else if negb (ok status) then Err (MkDBError DBInternal (status_text status))
        else Ok result).

Definition DeleteRange (start_key end_key : Data) (db : Database)
    : outcome (Status DBError * Database) :=
  let '(status, r) := rocks_DeleteRange start_key end_key (database_ db) in
  Done (to_status status, with_database r db).

Definition Delete (key : Data) (db : Database) : outcome (Status DBError * Database) :=
  let '(status, r) := rocks_Delete key (database_ db) in
  Done (to_status status, with_database r db).

Definition MakeWriteBatch : rocks_batch := rocks_batch_new.

Definition Write (b : rocks_batch) (db : Database) : outcome (Status DBError * Database) :=
  let '(status, r) := rocks_Write b (database_ db) in
  Done (to_status status, with_database r db).

Definition Open (path : string) (options : Options) (files : rocks_files)
    : outcome (Result Database DBError * rocks_files) :=
  match opt_comparator options with
  | None => Panic "comparator is nullptr"
  | Some cmp =>
      let '(status, tmp, files) := rocks_Open (create_if_missing options) cmp path files in
      Done (if IsInvalidArgument status then Err (MkDBError DBInvalidArgument (status_text status))
            else if negb (ok status) then Err (MkDBError DBInternal (status_text status))
            else Ok (MkDatabase cmp tmp true), files)
  end.

#[export] Instance prod_Database : IDatabase Database := {|
  IWriteBatch := rocks_batch;
  IIterator := rocks_iterator;
  db_Put := Put;
  db_Get := Get;
  db_DeleteRange := DeleteRange;
  db_Delete := Delete;
  db_MakeWriteBatch := MakeWriteBatch;
  db_Write := Write;
  batch_Put := WriteBatch_Put;
  batch_DeleteRange := WriteBatch_DeleteRange;
  batch_Delete := WriteBatch_Delete;
  db_NewIterator := NewIterator;
  it_SeekToLast := Iterator_SeekToLast;
  it_SeekToFirst := Iterator_SeekToFirst;
  it_Next := Iterator_Next;
  it_Prev := Iterator_Prev;
  it_GetKey := Iterator_GetKey;
  it_GetValue := Iterator_GetValue;
  it_Valid := Iterator_Valid;
|}.
End adapter.

(** ** What RocksDB promises *)

Definition cmp_lt (cmp : IComparator) (a b : Data) : Prop :=
  match Compare cmp a b with Done c => c < 0 | _ => False end.

#[export] Instance cmp_lt_dec cmp : RelDecision (cmp_lt cmp).
Proof. intros a b. unfold cmp_lt. destruct (Compare cmp a b); apply _. Defined.

Inductive rocks_command : Type :=
  | RocksPut (key value : Data)
  | RocksDeleteRange (start_key end_key : Data)
  | RocksDelete (key : Data).

(** The keys from [lo] on and before [hi] are deleted. *)
Definition range_deleted (cmp : IComparator) (lo hi : Data) (m : gmap Data Data) : gmap Data Data :=
  filter (λ kv, ¬ (¬ cmp_lt cmp kv.1 lo ∧ cmp_lt cmp kv.1 hi)) m.

Definition command_effect (cmp : IComparator) (m : gmap Data Data) (c : rocks_command) : gmap Data Data :=
  match c with
  | RocksPut k v => <[k := v]> m
  | RocksDeleteRange lo hi => range_deleted cmp lo hi m
  | RocksDelete k => delete k m
  end.

(** The comparator orders any two of the keys. *)
Definition keys_ordered (cmp : IComparator) (m : gmap Data Data) : Prop :=
  ∀ a b, is_Some (m !! a) → is_Some (m !! b) → a = b ∨ cmp_lt cmp a b ∨ cmp_lt cmp b a.

(** An opened database with comparator [cmp] and no I/O errors. [rocks_view] is
    its contents, [rocks_entries] and [rocks_position] the snapshot of an
    iterator and its place in it. *)
Class RocksDBLaws (R : RocksDB) (cmp : IComparator) : Type := {
  rocks_view : rocks_db → gmap Data Data;
  rocks_commands : rocks_batch → list rocks_command;
  rocks_entries : rocks_iterator → list (Data * Data);
  rocks_position : rocks_iterator → nat;
  rocks_Put_law k v r : ∃ s r', rocks_Put k v r = (s, r') ∧ ok s = true ∧
    rocks_view r' = <[k := v]> (rocks_view r);
  rocks_Get_law k r : ∃ s d, rocks_Get k r = (s, d) ∧
    match rocks_view r !! k with
    | Some v => ok s = true ∧ d = v
    | None => IsNotFound s = true
    end;
  rocks_Delete_law k r : ∃ s r', rocks_Delete k r = (s, r') ∧ ok s = true ∧
    rocks_view r' = delete k (rocks_view r);
  rocks_DeleteRange_law lo hi r : ¬ cmp_lt cmp hi lo →
    ∃ s r', rocks_DeleteRange lo hi r = (s, r') ∧ ok s = true ∧
      rocks_view r' = range_deleted cmp lo hi (rocks_view r);
  rocks_batch_new_law : rocks_commands rocks_batch_new = [];
  rocks_batch_Put_law k v b : ∃ s b', rocks_batch_Put k v b = (s, b') ∧ ok s = true ∧
    rocks_commands b' = rocks_commands b ++ [RocksPut k v];
  rocks_batch_DeleteRange_law lo hi b : ∃ s b', rocks_batch_DeleteRange lo hi b = (s, b') ∧
    ok s = true ∧ rocks_commands b' = rocks_commands b ++ [RocksDeleteRange lo hi];
  rocks_batch_Delete_law k b : ∃ s b', rocks_batch_Delete k b = (s, b') ∧ ok s = true ∧
    rocks_commands b' = rocks_commands b ++ [RocksDelete k];
  rocks_Write_law b r :
    (∀ lo hi, RocksDeleteRange lo hi ∈ rocks_commands b → ¬ cmp_lt cmp hi lo) →
    ∃ s r', rocks_Write b r = (s, r') ∧ ok s = true ∧
      rocks_view r' = foldl (command_effect cmp) (rocks_view r) (rocks_commands b);
  rocks_NewIterator_law r : keys_ordered cmp (rocks_view r) →
    StronglySorted (cmp_lt cmp) (rocks_entries (rocks_NewIterator r)).*1 ∧
    ∀ k v, (k, v) ∈ rocks_entries (rocks_NewIterator r) ↔ rocks_view r !! k = Some v;
  rocks_SeekToFirst_law it : rocks_entries (rocks_SeekToFirst it) = rocks_entries it ∧
    rocks_position (rocks_SeekToFirst it) = 0%nat;
  rocks_SeekToLast_law it : rocks_entries (rocks_SeekToLast it) = rocks_entries it ∧
    rocks_position (rocks_SeekToLast it) = (length (rocks_entries it) - 1)%nat;
  rocks_Valid_law it :
    rocks_Valid it = bool_decide (is_Some (rocks_entries it !! rocks_position it));
  rocks_entry_law it k v :
    rocks_entries it !! rocks_position it = Some (k, v) → rocks_key it = k ∧ rocks_value it = v;
  rocks_Next_law it : rocks_Valid it = true →
    rocks_entries (rocks_Next it) = rocks_entries it ∧
    rocks_position (rocks_Next it) = S (rocks_position it);
  rocks_Prev_law it : rocks_Valid it = true →
    rocks_entries (rocks_Prev it) = rocks_entries it ∧
    rocks_position (rocks_Prev it) =
      if decide (rocks_position it = 0%nat) then length (rocks_entries it) else (rocks_position it - 1)%nat;
}.

(** Opening: a missing database is refused or created empty, and a database
    that is open cannot be opened again, since its lock file is taken. *)
Class RocksOpenLaws (R : RocksDB) (cmp : IComparator) `{!RocksDBLaws R cmp} : Type := {
  rocks_exists : rocks_files → string → bool;
  rocks_opened : rocks_files → string → bool;
  rocks_Open_missing path files : rocks_exists files path = false →
    IsInvalidArgument (rocks_Open false cmp path files).1.1 = true;
  rocks_Open_new path files : rocks_exists files path = false →
    ∃ s r files', rocks_Open true cmp path files = (s, r, files') ∧ ok s = true ∧ rocks_view r = ∅ ∧
      rocks_opened files' path = true;
  rocks_Open_again create path files : rocks_opened files path = true →
    status_code (rocks_Open create cmp path files).1.1 = RocksOther;
}.

(** ** The adapter is a store *)

Section store.
Context {K V : Type} `{Countable K} (lt : relation K) `{!RelDecision lt} `{!StrictOrder lt} `{!Trichotomy lt}.
Context (okK : K → Prop) (encK : K → Data) (encV : V → Data).
Context {R : RocksDB} (cmp : IComparator) `{!RocksDBLaws R cmp}.
Hypothesis encK_inj : ∀ a b, okK a → okK b → encK a = encK b → a = b.
Hypothesis cmp_spec : ∀ a b, okK a → okK b → cmp_lt cmp (encK a) (encK b) ↔ lt a b.

(** The bytes [b] hold the map [m]. *)
Record encodes (m : gmap K V) (b : gmap Data Data) : Prop := {
  enc_ok : ∀ k, is_Some (m !! k) → okK k;
  enc_lookup : ∀ d e, b !! d = Some e ↔ ∃ k v, m !! k = Some v ∧ d = encK k ∧ e = encV v;
}.

Definition prod_holds (m : gmap K V) (db : Database) : Prop := encodes m (rocks_view (database_ db)).

Lemma encodes_lookup m b k : encodes m b → okK k → b !! encK k = encV <$> m !! k.
Proof.
  intros [Hok Hl] Hk. apply option_eq. intros e. rewrite Hl, fmap_Some. split.
  - intros (k' & v & Hm & He & ->). apply encK_inj in He as <-; [eauto|done|eauto].
  - intros (v & Hm & ->). eauto.
Qed.

Lemma encodes_insert m b k v :
  encodes m b → okK k → encodes (<[k := v]> m) (<[encK k := encV v]> b).
Proof.
  intros Hb Hk. pose proof Hb as [Hok Hl]. split.
  - intros k'. rewrite lookup_insert. case_decide; subst; auto.
  - intros d e. destruct (decide (d = encK k)) as [->|Hd].
    + rewrite lookup_insert_eq. split; [intros [= <-]; exists k, v; by rewrite lookup_insert_eq|].
      intros (k' & v' & Hm & He & ->). destruct (decide (k = k')) as [<-|Hne].
      * rewrite lookup_insert_eq in Hm. congruence.
      * rewrite lookup_insert_ne in Hm by done. by apply encK_inj in He; [|done|eauto].
    + rewrite lookup_insert_ne, Hl by done. split; intros (k' & v' & Hm & -> & ->); exists k', v'.
      * rewrite lookup_insert_ne by congruence. done.
      * rewrite lookup_insert_ne in Hm by congruence. done.
Qed.

Lemma encodes_delete m b k : encodes m b → okK k → encodes (delete k m) (delete (encK k) b).
Proof.
  intros Hb Hk. pose proof Hb as [Hok Hl]. split.
  - intros k' [v [_ Hv]%lookup_delete_Some]. eauto.
  - intros d e. rewrite lookup_delete_Some, Hl. split.
    + intros [Hd (k' & v & Hm & -> & ->)]. exists k', v. rewrite lookup_delete_ne by congruence. done.
    + intros (k' & v & [Hne Hm]%lookup_delete_Some & -> & ->). split; [|eauto].
      intros He. by apply encK_inj in He; [|done|eauto].
Qed.

Lemma encodes_delete_range m b lo hi :
  encodes m b → okK lo → okK hi →
  encodes (delete_range lt lo hi m) (range_deleted cmp (encK lo) (encK hi) b).
Proof.
  intros [Hok Hl] Hlo Hhi. split.
  - intros k [v [Hv _]%lookup_delete_range]. eauto.
  - intros d e. unfold range_deleted at 1. rewrite map_lookup_filter_Some, Hl. simpl.
    setoid_rewrite lookup_delete_range. split.
    + intros [(k & v & Hm & -> & ->) Hn]. rewrite !cmp_spec in Hn by eauto. eauto 10.
    + intros (k & v & [Hm Hn] & -> & ->). rewrite !cmp_spec by eauto. eauto 10.
Qed.

Lemma encodes_ordered m b : encodes m b → keys_ordered cmp b.
Proof.
  intros [Hok Hl] d d' [e (k & v & Hm & -> & ->)%Hl] [e' (k' & v' & Hm' & -> & ->)%Hl].
  rewrite !cmp_spec by eauto. destruct (trichotomy lt k k') as [?|[->|?]]; auto.
Qed.

(** *** Write batches *)

Definition as_rocks_command (c : store_command K V) : rocks_command :=
  match c with
  | StorePut key value => RocksPut (encK key) (encV value)
  | StoreDeleteRange lo hi => RocksDeleteRange (encK lo) (encK hi)
  | StoreDelete key => RocksDelete (encK key)
  end.

Definition rocks_command_ok (c : store_command K V) : Prop :=
  match c with
  | StorePut key _ | StoreDelete key => okK key
  | StoreDeleteRange lo hi => okK lo ∧ okK hi ∧ ¬ lt hi lo
  end.

Definition prod_collects (cs : list (store_command K V)) (b : rocks_batch) : Prop :=
  rocks_commands b = as_rocks_command <$> cs ∧ Forall rocks_command_ok cs.

Lemma prod_collects_snoc cs b b' c :
  prod_collects cs b → rocks_command_ok c → rocks_commands b' = rocks_commands b ++ [as_rocks_command c] →
  prod_collects (cs ++ [c]) b'.
Proof.
  intros [Hb Hcs] Hc Hb'. split; [by rewrite Hb', Hb, fmap_app|].
  by apply Forall_app_2; [|apply Forall_singleton].
Qed.

Lemma encodes_commands cs m b :
  encodes m b → Forall rocks_command_ok cs →
  encodes (foldl (store_step lt) m cs) (foldl (command_effect cmp) b (as_rocks_command <$> cs)).
Proof.
  intros Hb Hcs. revert m b Hb. induction Hcs as [|c cs Hc _ IH]; intros m b Hb; csimpl; [done|].
  apply IH. destruct c; simpl in *; destruct_and?;
    auto using encodes_insert, encodes_delete, encodes_delete_range.
Qed.

Lemma prod_Write cs b m db :
  prod_holds m db → prod_collects cs b →
  ∃ db', Write b db = Done (Ok (), db') ∧ prod_holds (foldl (store_step lt) m cs) db'.
Proof.
  intros Hm [Hb Hcs]. destruct (rocks_Write_law b (database_ db)) as (s & r' & Hw & Hs & Hv).
  { intros lo hi. rewrite Hb. intros (c & Hc & Hin)%list_elem_of_fmap.
    rewrite Forall_forall in Hcs. apply Hcs in Hin. destruct c; simplify_eq/=.
    destruct Hin as (? & ? & ?). by rewrite cmp_spec. }
  unfold Write, to_status. rewrite Hw, Hs. eexists. split; [done|].
  unfold prod_holds. simpl. rewrite Hv, Hb. by apply encodes_commands.
Qed.

(** *** Iterators *)

Definition prod_at (kvs : list (K * V)) (i : nat) (it : rocks_iterator) : Prop :=
  rocks_entries it = (λ kv, (encK kv.1, encV kv.2)) <$> kvs ∧ rocks_position it = i.

Lemma decode_entries (m : gmap K V) b es :
  encodes m b → (∀ d e, (d, e) ∈ es → b !! d = Some e) → StronglySorted (cmp_lt cmp) es.*1 →
  ∃ kvs, es = (λ kv, (encK kv.1, encV kv.2)) <$> kvs ∧ StronglySorted lt kvs.*1 ∧
         ∀ k v, (k, v) ∈ kvs → m !! k = Some v.
Proof.
  intros Hb. pose proof Hb as [Hok Hl]. induction es as [|[d e] es IH]; intros Hin Hs.
  { exists []. split_and!; [done|constructor|]. intros k v []%not_elem_of_nil. }
  csimpl in Hs. apply StronglySorted_cons in Hs as [Hall Hs].
  destruct IH as (kvs & -> & Hs' & Hkv); [intros; apply Hin; by right|done|].
  destruct (proj1 (Hl d e) (Hin d e ltac:(by left))) as (k & v & Hm & -> & ->).
  exists ((k, v) :: kvs). csimpl. split_and!; [done| |].
  - apply StronglySorted_cons. split; [|done]. rewrite Forall_forall in Hall. rewrite Forall_forall.
    intros k' ([k2 v2] & -> & Hk')%list_elem_of_fmap. simpl.
    rewrite <-cmp_spec by eauto. apply Hall.
    apply list_elem_of_fmap. exists (encK k2, encV v2). split; [done|].
    apply list_elem_of_fmap. by exists (k2, v2).
  - intros k' v' [[= -> ->]|?]%elem_of_cons; eauto.
Qed.

Lemma prod_NewIterator m db :
  prod_holds m db →
  ∃ kvs, lists_map lt m kvs ∧ prod_at kvs 0 (Iterator_SeekToFirst (NewIterator db)) ∧
         prod_at kvs (length kvs - 1) (Iterator_SeekToLast (NewIterator db)).
Proof.
  intros Hm. destruct (rocks_NewIterator_law (database_ db)) as [Hs Hel]; [by eapply encodes_ordered|].
  destruct (decode_entries m _ _ Hm (λ d e, proj1 (Hel d e)) Hs) as (kvs & Hes & Hs' & Hkv).
  destruct (rocks_SeekToFirst_law (rocks_NewIterator (database_ db))) as [Hf Hf0].
  destruct (rocks_SeekToLast_law (rocks_NewIterator (database_ db))) as [Hl Hl0].
  exists kvs. split_and!; [split; [done|]|split; [|done]|split].
  - intros k v. split; [apply Hkv|]. intros Hmk.
    assert (Hin : (encK k, encV v) ∈ rocks_entries (rocks_NewIterator (database_ db))).
    { apply Hel. apply (enc_lookup _ _ Hm). eauto. }
    rewrite Hes in Hin. apply list_elem_of_fmap in Hin as ([k' v'] & He & Hin). simpl in He.
    pose proof (Hkv _ _ Hin) as Hm'. injection He as He%encK_inj _; [|by eapply (enc_ok _ _ Hm)..].
    subst. congruence.
  - by rewrite <-Hes.
  - by rewrite <-Hes.
  - unfold Iterator_SeekToLast, NewIterator. by rewrite Hl0, Hes, length_fmap.
Qed.

Lemma prod_Valid_at kvs i it :
  prod_at kvs i it → rocks_Valid it = bool_decide (is_Some (kvs !! i)).
Proof.
  intros [He Hp]. rewrite rocks_Valid_law, He, Hp, list_lookup_fmap.
  apply bool_decide_ext. by rewrite fmap_is_Some.
Qed.

Lemma prod_ensure kvs i it kv :
  prod_at kvs i it → kvs !! i = Some kv → EnsureIteratorIsValid it = Done () ∧ rocks_Valid it = true.
Proof.
  intros Hat Hkv. unfold EnsureIteratorIsValid.
  rewrite (prod_Valid_at _ _ _ Hat), bool_decide_eq_true_2 by eauto. done.
Qed.

Lemma prod_past_end kvs it :
  prod_at kvs (length kvs) it → EnsureIteratorIsValid it = Panic "iterator is invalid".
Proof.
  intros Hat. unfold EnsureIteratorIsValid.
  by rewrite (prod_Valid_at _ _ _ Hat), bool_decide_eq_false_2 by (rewrite lookup_lt_is_Some; lia).
Qed.

Definition prod_Store : Store lt okK encK encV Database.
Proof.
  refine {| holds := prod_holds; collects := prod_collects; stands_at := prod_at |}; simpl.
  - intros m db k Hm. apply (enc_ok _ _ Hm).
  - intros m db k v Hm Hk. unfold Put, to_status.
    destruct (rocks_Put_law (encK k) (encV v) (database_ db)) as (s & r' & -> & -> & Hv).
    eexists. split; [done|]. unfold prod_holds. simpl. rewrite Hv. by apply encodes_insert.
  - intros m db k Hm Hk. unfold Get, kv_Get.
    destruct (rocks_Get_law (encK k) (database_ db)) as (s & d & -> & Hd).
    rewrite (encodes_lookup _ _ _ Hm Hk) in Hd. destruct (m !! k) as [v|]; simpl in *.
    + destruct Hd as [Hs ->]. unfold ok, IsNotFound in *. by destruct (status_code s).
    + by rewrite Hd.
  - intros m db k Hm Hk. unfold Delete, to_status.
    destruct (rocks_Delete_law (encK k) (database_ db)) as (s & r' & -> & -> & Hv).
    eexists. split; [done|]. unfold prod_holds. simpl. rewrite Hv. by apply encodes_delete.
  - intros m db lo hi Hm Hlo Hhi Hle. unfold DeleteRange, to_status.
    destruct (rocks_DeleteRange_law (encK lo) (encK hi) (database_ db)) as (s & r' & -> & -> & Hv);
      [by rewrite cmp_spec|].
    eexists. split; [done|]. unfold prod_holds. simpl. rewrite Hv. by apply encodes_delete_range.
  - split; [apply rocks_batch_new_law|constructor].
  - intros cs b k v Hb Hk. unfold WriteBatch_Put, to_status.
    destruct (rocks_batch_Put_law (encK k) (encV v) b) as (s & b' & -> & -> & Hv).
    eexists. split; [done|]. by eapply prod_collects_snoc.
  - intros cs b lo hi Hb Hlo Hhi Hle. unfold WriteBatch_DeleteRange, to_status.
    destruct (rocks_batch_DeleteRange_law (encK lo) (encK hi) b) as (s & b' & -> & -> & Hv).
    eexists. split; [done|]. by eapply prod_collects_snoc.
  - intros cs b k Hb Hk. unfold WriteBatch_Delete, to_status.
    destruct (rocks_batch_Delete_law (encK k) b) as (s & b' & -> & -> & Hv).
    eexists. split; [done|]. by eapply prod_collects_snoc.
  - apply prod_Write.
  - apply prod_NewIterator.
  - intros kvs i it Hat _. unfold Iterator_Valid. by rewrite (prod_Valid_at _ _ _ Hat).
  - intros kvs i it k v Hat Hkv. unfold Iterator_GetKey, Iterator_GetValue.
    destruct (prod_ensure _ _ _ _ Hat Hkv) as [-> _]. destruct Hat as [He Hp].
    destruct (rocks_entry_law it (encK k) (encV v)) as [-> ->]; [|done].
    by rewrite He, Hp, list_lookup_fmap, Hkv.
  - intros kvs i it kv Hat Hkv. unfold Iterator_Next.
    destruct (prod_ensure _ _ _ _ Hat Hkv) as [-> Hv]. destruct Hat as [He Hp].
    destruct (rocks_Next_law it Hv) as [He' Hp']. eexists. split; [done|]. split; congruence.
  - intros kvs i it kv Hat Hkv. unfold Iterator_Prev.
    destruct (prod_ensure _ _ _ _ Hat Hkv) as [-> Hv]. destruct Hat as [He Hp].
    destruct (rocks_Prev_law it Hv) as [He' Hp']. eexists. split; [done|]. split; [congruence|].
    by rewrite Hp', Hp, He, length_fmap.
  - intros kvs it Hat. unfold Iterator_Next, Iterator_Prev, Iterator_GetKey, Iterator_GetValue.
    by rewrite (prod_past_end _ _ Hat).
Defined.
End store.

(** ** The key-value storage on the adapter *)

Section storage.
Context {K V : Type} `{Countable K} {KeySerde : CSerde K} {ValueSerde : CSerde V}
  `{!SerdeLaws K} `{!SerdeLaws V}.
Context (Cmp : K → K → bool) (lt : relation K) `{!RelDecision lt} `{!KeyOrder Cmp lt}.
Context (type_name : string) {R : RocksDB} `{!RocksDBLaws R (Comparator Cmp type_name)}.

Lemma bytes_inj (a b : K) : valid a → valid b → bytes a = bytes b → a = b.
Proof.
  intros Ha Hb He. eapply (Serialize_injective a b (bytes a)); [done|done|by apply Serialize_bytes|].
  rewrite He. by apply Serialize_bytes.
Qed.

Lemma Comparator_lt (a b : K) :
  valid a → valid b → cmp_lt (Comparator Cmp type_name) (bytes a) (bytes b) ↔ lt a b.
Proof.
  intros Ha Hb. unfold cmp_lt. simpl. unfold Comparator_Compare.
  rewrite !Deserialize_bytes, !bind_Done_eq by done. rewrite !(KeyOrder_spec (Cmp := Cmp)).
  destruct (bool_decide (lt a b)) eqn:Hab.
  - apply bool_decide_eq_true in Hab. split; [done|lia].
  - apply bool_decide_eq_false in Hab. destruct (bool_decide (lt b a)); split; (lia || done).
Qed.

Definition prod_store : Store (V := V) lt valid bytes bytes Database :=
  prod_Store lt valid bytes bytes (Comparator Cmp type_name) bytes_inj Comparator_lt.
End storage.

(** [C25] The two databases are interchangeable: a program of storage operations
    on integer keys and serializable values (ranges in order) gets the same
    answers from the simulated database and from the adapter over an error-free
    RocksDB, if both hold the same map at the start, and it ends without an
    abort; the answers are those of the finite map. *)
Theorem databases_agree `{SerdeLaws V} (name name' : string) (R : RocksDB)
    (Hrocks : RocksDBLaws R (Comparator (K := Z) Z.ltb name')) (m : gmap Z V)
    (sim : Database.HostDatabase) (prod : Database) (ops : list (kv_op V)) :
  kv_represents Z.ltb Z.lt name m sim →
  kv_holds (S := prod_store Z.ltb Z.lt name') Z.lt m prod →
  Forall valid_op ops →
  ∃ sim' prod',
    run_ops ops sim = Done ((map_ops ops m).1, sim') ∧
    run_ops ops prod = Done ((map_ops ops m).1, prod') ∧
    kv_represents Z.ltb Z.lt name (map_ops ops m).2 sim' ∧
    kv_holds (S := prod_store Z.ltb Z.lt name') Z.lt (map_ops ops m).2 prod'.
Proof.
  intros Hsim Hprod Hops.
  destruct (run_ops_map (S := sim_store Z.ltb Z.lt name) ops m sim Hsim Hops) as (sim' & Hs & Hs').
  destruct (run_ops_map (S := prod_store Z.ltb Z.lt name') ops m prod Hprod Hops) as (prod' & Hp & Hp').
  by exists sim', prod'.
Qed.

(** The errors of RocksDB reach the caller and never abort the process:
    whatever RocksDB does, a write succeeds exactly if its status is ok and
    otherwise is the internal error with the text of the status; [Get] of a
    missing key is [NotFound]; [Open] with a comparator reports an invalid
    argument as such and other failures as internal errors, and asks for
    synchronous writes; only a missing comparator aborts. *)
Theorem production_errors (R : RocksDB) (db : Database) (key value : Data) (path : string)
    (options : Options) (files : rocks_files) :
  (Put key value db = Done (to_status (rocks_Put key value (database_ db)).1,
                            with_database (rocks_Put key value (database_ db)).2 db) ∧
   Delete key db = Done (to_status (rocks_Delete key (database_ db)).1,
                         with_database (rocks_Delete key (database_ db)).2 db)) ∧
  (∀ s, to_status s = Ok () ↔ status_code s = RocksOk) ∧
  (∀ s, status_code s ≠ RocksOk → to_status s = Err (MkDBError DBInternal (status_text s))) ∧
  (let s := (rocks_Get key (database_ db)).1 in
   Get key db = Done match status_code s with
                     | RocksOk => Ok (rocks_Get key (database_ db)).2
                     | RocksNotFound => Err (MkDBError DBNotFound "")
                     | _ => Err (MkDBError DBInternal (status_text s))
                     end) ∧
  match opt_comparator options with
  | None => Open path options files = Panic "comparator is nullptr"
  | Some cmp =>
      let '(s, r, files') := rocks_Open (create_if_missing options) cmp path files in
      Open path options files =
        Done (match status_code s with
              | RocksOk => Ok (MkDatabase cmp r true)
              | RocksInvalidArgument => Err (MkDBError DBInvalidArgument (status_text s))
              | _ => Err (MkDBError DBInternal (status_text s))
              end, files')
  end.
Proof.
  split_and!.
  - unfold Put. by destruct (rocks_Put key value (database_ db)).
  - unfold Delete. by destruct (rocks_Delete key (database_ db)).
  - intros s. unfold to_status, ok. by destruct (status_code s).
  - intros s Hs. unfold to_status, ok. by destruct (status_code s).
  - unfold Get. destruct (rocks_Get _ _) as [s d]. simpl. unfold IsNotFound, ok. by destruct (status_code s).
  - unfold Open. destruct (opt_comparator options) as [cmp|]; [|done].
    destruct (rocks_Open _ _ _ _) as [[s r] files']. unfold IsInvalidArgument, ok. by destruct (status_code s).
Qed.

(** ** A RocksDB for the witness

    The contents in memory, the snapshot of an iterator sorted by an order of
    the bytes that agrees with the comparator; the files are the paths of the
    open databases. *)
Section memory_rocks.
Context (cmp : IComparator) (le : relation Data) `{!RelDecision le} `{!Transitive le} `{!Total le}.

Definition rocks_fine : rocks_status := MkRocksStatus RocksOk "OK".

Definition key_le (a b : Data * Data) : Prop := le a.1 b.1.
#[local] Instance key_le_dec : RelDecision key_le.
Proof. intros a b. unfold key_le. apply _. Defined.
#[local] Instance key_le_trans : Transitive key_le.
Proof. intros a b c. unfold key_le. apply transitivity. Qed.
#[local] Instance key_le_total : Total key_le.
Proof. intros a b. unfold key_le. apply total, _. Qed.

Definition memory_rocks : RocksDB := {|
  rocks_db := gmap Data Data;
  rocks_batch := list rocks_command;
  rocks_iterator := list (Data * Data) * nat;
  rocks_files := gset string;
  rocks_Put k v m := (rocks_fine, <[k := v]> m);
  rocks_Get k m := match m !! k with
                   | Some v => (rocks_fine, v)
                   | None => (MkRocksStatus RocksNotFound "NotFound: ", [])
                   end;
  rocks_DeleteRange lo hi m := (rocks_fine, range_deleted cmp lo hi m);
  rocks_Delete k m := (rocks_fine, delete k m);
  rocks_Write b m := (rocks_fine, foldl (command_effect cmp) m b);
  rocks_batch_new := [];
  rocks_batch_Put k v b := (rocks_fine, b ++ [RocksPut k v]);
  rocks_batch_DeleteRange lo hi b := (rocks_fine, b ++ [RocksDeleteRange lo hi]);
  rocks_batch_Delete k b := (rocks_fine, b ++ [RocksDelete k]);
  rocks_NewIterator m := let es := merge_sort key_le (map_to_list m) in (es, length es);
  rocks_SeekToLast it := (it.1, (length it.1 - 1)%nat);
  rocks_SeekToFirst it := (it.1, 0%nat);
  rocks_Next it := (it.1, S it.2);
  rocks_Prev it := (it.1, if decide (it.2 = 0%nat) then length it.1 else (it.2 - 1)%nat);
  rocks_Valid it := bool_decide (is_Some (it.1 !! it.2));
  rocks_key it := from_option fst [] (it.1 !! it.2);
  rocks_value it := from_option snd [] (it.1 !! it.2);
  rocks_Open create _ path files :=
    if decide (path ∈ files) then (MkRocksStatus RocksOther "IO error: lock", ∅, files)
    else if (create : bool) then (rocks_fine, ∅, {[ path ]} ∪ files)
    else (MkRocksStatus RocksInvalidArgument "Invalid argument: does not exist", ∅, files);
|}.

Hypothesis cmp_lt_le : ∀ a b, cmp_lt cmp a b → ¬ le b a.

Lemma sorted_strictly (l : list (Data * Data)) :
  StronglySorted key_le l → NoDup l.*1 →
  (∀ a b, a ∈ l.*1 → b ∈ l.*1 → a = b ∨ cmp_lt cmp a b ∨ cmp_lt cmp b a) →
  StronglySorted (cmp_lt cmp) l.*1.
Proof.
  induction 1 as [|[a x] l _ IH Hall]; csimpl; [constructor|].
  intros [Ha Hnd]%NoDup_cons Hord. apply StronglySorted_cons. split.
  - rewrite Forall_forall in Hall. rewrite Forall_forall. intros b Hb.
    destruct (Hord a b) as [->|[Hlt|Hlt]]; [by left|by right|done|done|].
    apply cmp_lt_le in Hlt. apply list_elem_of_fmap in Hb as ([b' y] & -> & Hb). by apply Hall in Hb.
  - apply IH; [done|]. intros; apply Hord; by right.
Qed.

Definition memory_rocks_laws : RocksDBLaws memory_rocks cmp.
Proof.
  refine (Build_RocksDBLaws memory_rocks cmp id id fst snd _ _ _ _ _ _ _ _ _ _ _ _ _ _ _ _);
    simpl; try done; try by (intros; eexists _, _; done).
  - intros k m. unfold id. destruct (m !! k); by eexists _, _.
  - intros m Hord. pose proof (merge_sort_Permutation key_le (map_to_list m)) as Hp.
    assert (Hel : ∀ k v, (k, v) ∈ merge_sort key_le (map_to_list m) ↔ m !! k = Some v).
    { intros k v. rewrite Hp. apply elem_of_map_to_list. }
    split; [|done]. apply sorted_strictly.
    + apply (StronglySorted_merge_sort key_le).
    + rewrite Hp. apply NoDup_fst_map_to_list.
    + intros a b ([a' x] & -> & Ha)%list_elem_of_fmap ([b' y] & -> & Hb)%list_elem_of_fmap.
      apply Hord; [by exists x; apply Hel|by exists y; apply Hel].
  - intros [es i] k v. exact (λ Hit, conj (f_equal (from_option fst []) Hit) (f_equal (from_option snd []) Hit)).
Defined.

Definition memory_rocks_opens : @RocksOpenLaws memory_rocks cmp memory_rocks_laws.
Proof.
  refine (@Build_RocksOpenLaws memory_rocks cmp memory_rocks_laws
    (λ (files : gset string) path, bool_decide (path ∈ files))
    (λ (files : gset string) path, bool_decide (path ∈ files)) _ _ _); simpl.
  - intros path files Hp%bool_decide_eq_false. by rewrite decide_False.
  - intros path files Hp%bool_decide_eq_false. rewrite decide_False by done. eexists _, _, _.
    split_and!; [done|done|done|]. apply bool_decide_eq_true. set_solver.
  - intros create path files Hp%bool_decide_eq_true. by rewrite decide_True.
Defined.
End memory_rocks.

(** Keys that are integers. *)
Definition value_le (a b : Data) : Prop := le_value a ≤ le_value b.
#[export] Instance value_le_dec : RelDecision value_le.
Proof. intros a b. unfold value_le. apply _. Defined.
#[export] Instance value_le_trans : Transitive value_le.
Proof. intros a b c. unfold value_le. lia. Qed.
#[export] Instance value_le_total : Total value_le.
Proof. intros a b. unfold value_le. lia. Qed.

Lemma cmp_lt_value name a b : cmp_lt (Comparator (K := Z) Z.ltb name) a b → ¬ value_le b a.
Proof.
  unfold cmp_lt, value_le. simpl. unfold Comparator_Compare. change (Deserialize (A := Z)) with U64_Deserialize.
  unfold U64_Deserialize. repeat case_bool_decide; simpl; try done.
  destruct (Z.ltb_spec (le_value a) (le_value b)); [lia|]. destruct (Z.ltb_spec (le_value b) (le_value a)); lia.
Qed.

Definition memory_rocks_u64 (name : string) : RocksDB := memory_rocks (Comparator (K := Z) Z.ltb name) value_le.
Definition memory_rocks_u64_laws (name : string) : RocksDBLaws (memory_rocks_u64 name) (Comparator Z.ltb name) :=
  memory_rocks_laws _ value_le (cmp_lt_value name).

Lemma databases_agree_witness :
  let ops := [OpPut 300 7; OpPut 2 8; OpWrite [BatchPut 5 9; BatchDeleteRange 2 3]; OpGet 2; OpGet 5; OpLast] in
  let sim := Database.HostDatabase_new (Comparator (K := Z) Z.ltb "log") in
  let prod := MkDatabase (R := memory_rocks_u64 "log") (Comparator (K := Z) Z.ltb "log") ∅ true in
  ∃ sim' prod',
    run_ops ops sim = Done ((map_ops ops ∅).1, sim') ∧ run_ops ops prod = Done ((map_ops ops ∅).1, prod') ∧
    (map_ops ops ∅).1 = [AnswerStatus (Ok ()); AnswerStatus (Ok ()); AnswerStatus (Ok ());
      AnswerValue (Err (MkDBError DBNotFound "")); AnswerValue (Ok 9); AnswerLast (Some (300, 7))].
Proof.
  intros ops sim prod.
  assert (Hs : kv_represents (V := Z) Z.ltb Z.lt "log" ∅ sim) by apply new_database_represents.
  assert (Hp : kv_holds (V := Z) (S := prod_store (RocksDBLaws0 := memory_rocks_u64_laws "log") Z.ltb Z.lt "log") Z.lt ∅ prod).
  { split; [|apply map_Forall_empty]. split; simpl; unfold id.
    - intros k [v Hk]. by rewrite lookup_empty in Hk.
    - intros d e. rewrite lookup_empty. split; [done|]. intros (k & v & Hk & _). by rewrite lookup_empty in Hk. }
  destruct (databases_agree "log" "log" (memory_rocks_u64 "log") (memory_rocks_u64_laws "log") ∅ sim prod ops Hs Hp)
    as (sim' & prod' & H1 & H2 & _); [repeat constructor; by vm_compute|].
  exists sim', prod'. split_and!; [exact H1|exact H2|vm_compute; reflexivity].
Defined.
