(* ===== verification/Queue.v ===== *)
(** * The queue service

    Model of src/queue/service.cpp: a queue of messages numbered from zero on
    an ordered storage. The service is written against an interface of the
    storage ([StorageOps]) whose laws ([StorageLaws]) are those of a finite
    map; KVStorage.v discharges them.

    [Append] takes its number from an atomic counter and then writes to the
    storage; other requests run in between, so it is two steps here. *)

From S2P Require Import Prelude.
From S2P Require Import Result.
From S2P Require Import RtTypes.
From S2P Require Import KVInterface.
From S2P Require Import Serde.
From S2P Require Import IDatabase.
From S2P Require Import Database.
From S2P Require Import DatabaseMap.
From S2P Require Import KVStorage.

Local Open Scope Z_scope.

(** ** What the service uses of its storage *)

Class StorageOps (S V : Type) : Type := {
  st_Put : Z → V → S → outcome (Status DBError * S);
  st_Get : Z → S → outcome (Result V DBError);
  st_DeleteRange : Z → Z → S → outcome (Status DBError * S);
  st_LastKey : S → outcome (option Z);  (** [SeekToLast], then [GetKey] if [Valid] *)
}.

Class StorageLaws (S V : Type) `{StorageOps S V} : Type := {
  st_abs : gmap Z V → S → Prop;
  st_valid : V → Prop;
  st_key : ∀ m s k, st_abs m s → is_Some (m !! k) → is_u64 k;
  st_Put_ok : ∀ m s k v, st_abs m s → is_u64 k → st_valid v →
    ∃ s', st_Put k v s = Done (Ok (), s') ∧ st_abs (kv_Put k v m) s';
  st_Get_ok : ∀ m s k, st_abs m s → is_u64 k → st_Get k s = Done (kv_Get m k);
  st_DeleteRange_ok : ∀ m s lo hi, st_abs m s → is_u64 lo → is_u64 hi → lo ≤ hi →
    ∃ s', st_DeleteRange lo hi s = Done (Ok (), s') ∧ st_abs (kv_DeleteRange lo hi m) s';
  st_LastKey_ok : ∀ m s, st_abs m s → st_LastKey s = Done (fst <$> kv_Last m);
}.

(** ** The service *)

Inductive ReadStatus : Type := ReadOK | NO_DATA.

Record ReadReply : Type := MkReadReply { read_status : ReadStatus; read_data : string }.

Section service.
Context {S : Type} {ops : StorageOps S string}.

Record QueueService : Type := MkQueueService {
  end_index : Z;
  kv_storage : S;
  shut_down : bool;
}.

Definition QueueService_new (storage : S) : outcome QueueService :=
  last ← st_LastKey (V := string) storage;
  Done (MkQueueService (match last with None => 0 | Some key => key +64 1 end) storage false).

(** [end_index_.fetch_add(1)] *)
Definition Append_begin (q : QueueService) : Z * QueueService :=
  (end_index q, MkQueueService (end_index q +64 1) (kv_storage q) (shut_down q)).

Definition Append_end (index : Z) (data : string) (q : QueueService) :
    outcome (Result Z RpcError * QueueService) :=
  '(result, storage) ← st_Put index data (kv_storage q);
  Done (match result with
        | Err e => Err (MkRpcError RpcInternal (DBError_Message e))
        | Ok _ => Ok index
        end, MkQueueService (end_index q) storage (shut_down q)).

Definition Read (id : Z) (q : QueueService) : outcome (Result ReadReply RpcError) :=
  result ← st_Get id (kv_storage q);
  Done match result with
       | Ok data => Ok (MkReadReply ReadOK data)
       | Err e =>
           if decide (db_error_type e = DBNotFound) then Ok (MkReadReply NO_DATA "")
           else Err (MkRpcError RpcInternal (DBError_Message e))
       end.

Definition Trim (id : Z) (q : QueueService) : outcome (Result unit RpcError * QueueService) :=
  '(result, storage) ← st_DeleteRange 0 id (kv_storage q);
  Done (match result with
        | Err e => Err (MkRpcError RpcInternal (DBError_Message e))
        | Ok _ => Ok ()
        end, MkQueueService (end_index q) storage (shut_down q)).

Definition ShutDown (q : QueueService) : Result unit RpcError * QueueService :=
  (Ok (), MkQueueService (end_index q) (kv_storage q) true).
End service.
Arguments QueueService S : clear implicits.

(** ** Interleaved requests *)

Section runs.
Context {S : Type} {ops : StorageOps S string} {laws : StorageLaws S string}.

(** The service, the numbers taken by appends that have not written yet, the
    messages written and not trimmed since, the numbers of appends that have
    written and not replied yet, and the messages acknowledged and not trimmed
    since. *)
Record system : Type := MkSystem {
  service : QueueService S;
  pending : gset Z;
  live : gmap Z string;
  replying : gset Z;
  acknowledged : gmap Z string;
}.

Inductive step : system → system → Prop :=
  | step_append_begin q p l w a index q' :
      end_index q < u64_max →
      Append_begin q = (index, q') →
      step (MkSystem q p l w a) (MkSystem q' ({[ index ]} ∪ p) l w a)
  | step_append_end q p l w a index data r q' :
      index ∈ p → st_valid data →
      Append_end index data q = Done (r, q') →
      step (MkSystem q p l w a)
           (if HasValue r then MkSystem q' (p ∖ {[ index ]}) (<[index := data]> l) ({[ index ]} ∪ w) a
            else MkSystem q' (p ∖ {[ index ]}) l w a)
  | step_append_reply q p l w a index :
      index ∈ w →
      step (MkSystem q p l w a)
           (MkSystem q p l (w ∖ {[ index ]})
              (match l !! index with Some data => <[index := data]> a | None => a end))
  | step_trim q p l w a id r q' :
      is_u64 id → Trim id q = Done (r, q') →
      step (MkSystem q p l w a)
           (if HasValue r then MkSystem q' p (kv_DeleteRange 0 id l) w (kv_DeleteRange 0 id a)
            else MkSystem q' p l w a)
  | step_shut_down q p l w a r q' :
      ShutDown q = (r, q') → step (MkSystem q p l w a) (MkSystem q' p l w a)
  | step_restart q p l w a q' :
      QueueService_new (kv_storage q) = Done q' → step (MkSystem q p l w a) (MkSystem q' ∅ l ∅ a).

(** The storage holds the live messages, every number below the counter. *)
Record consistent (s : system) : Prop := {
  c_storage : st_abs (live s) (kv_storage (service s));
  c_index : 0 ≤ end_index (service s) ≤ u64_max;
  c_live : ∀ id, is_Some (live s !! id) → 0 ≤ id < end_index (service s);
  c_pending : ∀ id, id ∈ pending s → 0 ≤ id < end_index (service s) ∧ live s !! id = None;
  c_acknowledged : ∀ id data, acknowledged s !! id = Some data → live s !! id = Some data;
}.

Lemma new_index (m : gmap Z string) (s : S) q :
  st_abs m s → (∀ id, is_Some (m !! id) → id < u64_max) → QueueService_new s = Done q →
  kv_storage q = s ∧ 0 ≤ end_index q ≤ u64_max ∧ ∀ id, is_Some (m !! id) → 0 ≤ id < end_index q.
Proof.
  intros Hs Hmax. unfold QueueService_new. rewrite (st_LastKey_ok m s Hs), bind_Done_eq. intros [= <-].
  simpl. split; [done|]. destruct (kv_Last m) as [[k v]|] eqn:Hl; simpl.
  - apply kv_Last_Some in Hl as [Hk Hgt]. pose proof (st_key m s k Hs ltac:(eauto)) as Hk64.
    pose proof (Hmax k ltac:(eauto)). unfold is_u64 in Hk64.
    rewrite add64_small by (unfold is_u64; lia). split; [lia|]. intros id Hid.
    pose proof (st_key m s id Hs Hid) as [? _]. specialize (Hgt id Hid). lia.
  - apply kv_Last_None in Hl as ->. split; [unfold u64_max, u64_modulus; lia|].
    intros id [? Hid]. by rewrite lookup_empty in Hid.
Qed.

Lemma step_consistent s s' : consistent s → step s s' → consistent s'.
Proof.
  intros [Hst Hidx Hlive Hpend Hack] Hstep. destruct Hstep; simpl in *.
  - injection H0 as <- <-. split; simpl; [done| | | |done]; rewrite add64_small by (unfold is_u64; lia).
    + lia.
    + intros id Hid. specialize (Hlive id Hid). lia.
    + intros id [->%elem_of_singleton|Hid]%elem_of_union; [|specialize (Hpend id Hid); lia || naive_solver lia].
      split; [lia|]. apply eq_None_not_Some. intros Hid%Hlive. lia.
  - destruct (Hpend index) as [Hi Hn]; [done|]. unfold Append_end in H1.
    destruct (st_Put_ok l (kv_storage q) index data) as (st' & Hput & Hst'); [done|unfold is_u64; lia|done|].
    rewrite Hput, bind_Done_eq in H1. injection H1 as <- <-. split; simpl; [done|done|..].
    + intros id. rewrite lookup_insert_is_Some'. naive_solver.
    + intros id [Hid Hne]%elem_of_difference. rewrite not_elem_of_singleton in Hne.
      rewrite lookup_insert_ne by done. auto.
    + intros id d Hd%Hack. rewrite lookup_insert_ne by (intros ->; congruence). done.
  - split; simpl; [done..|]. intros id d. destruct (l !! index) as [data|] eqn:Hi; [|by apply Hack].
    intros [[<- <-]|[_ Hd]]%lookup_insert_Some; [done|by apply Hack].
  - unfold Trim in H0.
    destruct (st_DeleteRange_ok l (kv_storage q) 0 id) as (st' & Hdel & Hst');
      [done|by vm_compute|done|unfold is_u64 in H; lia|].
    rewrite Hdel, bind_Done_eq in H0. injection H0 as <- <-. split; simpl; [done|done|..].
    + intros k. rewrite lookup_kv_DeleteRange. case_decide; [by intros [? ?]|]. apply Hlive.
    + intros k Hk. rewrite lookup_kv_DeleteRange. specialize (Hpend k Hk). case_decide; naive_solver.
    + intros k d. rewrite !lookup_kv_DeleteRange. case_decide; [done|]. apply Hack.
  - injection H as <- <-. by split.
  - destruct (new_index l (kv_storage q) q' Hst) as (Hq & Hi & Hl); [|done|].
    + intros id Hid. specialize (Hlive id Hid). lia.
    + split; simpl; [by rewrite Hq|done|done| |done]. intros id []%not_elem_of_empty.
Qed.

(** A service started on a storage that holds [m], all of it acknowledged. *)
Definition started (m : gmap Z string) (s : system) : Prop :=
  ∃ st, st_abs m st ∧ (∀ id, is_Some (m !! id) → id < u64_max) ∧
        QueueService_new st = Done (service s) ∧ pending s = ∅ ∧ live s = m ∧
        replying s = ∅ ∧ acknowledged s = m.

Lemma run_consistent m s s' : started m s → rtc step s s' → consistent s'.
Proof.
  intros (st & Hst & Hmax & Hnew & Hp & Hl & _ & Ha) Hrun.
  assert (Hs : consistent s).
  { destruct (new_index m st _ Hst Hmax Hnew) as (Hq & Hi & Hlive). split; simpl.
    - by rewrite Hq, Hl.
    - done.
    - by rewrite Hl.
    - rewrite Hp. intros id []%not_elem_of_empty.
    - by rewrite Ha, Hl. }
  clear -Hs Hrun. induction Hrun; [done|]. eauto using step_consistent.
Qed.

(** [C27] Whatever requests were interleaved and however often the service was
    restarted, also between the write of an append and its reply, a message
    written by [Append] and not trimmed since is what [Read] returns for its
    number, and these include every message that was acknowledged and not
    trimmed since; [Read] answers [NO_DATA] for every other number; a new message
    never takes the number of a message that can be read, and completing an
    append always succeeds. *)
Theorem queue_returns_appended_messages (m : gmap Z string) (s s' : system) :
  started m s → rtc step s s' →
  (∀ id, is_u64 id →
     Read id (service s') =
       Done (Ok (match live s' !! id with
                 | Some data => MkReadReply ReadOK data
                 | None => MkReadReply NO_DATA ""
                 end))) ∧
  (∀ id data, acknowledged s' !! id = Some data → Read id (service s') = Done (Ok (MkReadReply ReadOK data))) ∧
  (∀ index q, Append_begin (service s') = (index, q) → live s' !! index = None ∧ index ∉ pending s') ∧
  (∀ index data, index ∈ pending s' → st_valid data →
     live s' !! index = None ∧ ∃ q, Append_end index data (service s') = Done (Ok index, q)).
Proof.
  intros Hst Hrun. destruct (run_consistent m s s' Hst Hrun) as [Hs Hidx Hlive Hpend Hack].
  assert (Hread : ∀ id, is_u64 id → Read id (service s') =
    Done (Ok (match live s' !! id with
              | Some data => MkReadReply ReadOK data
              | None => MkReadReply NO_DATA ""
              end))).
  { intros id Hid. unfold Read. rewrite (st_Get_ok _ _ id Hs Hid), bind_Done_eq. unfold kv_Get.
    by destruct (live s' !! id). }
  split_and!; [done|..].
  - intros id data Hd%Hack. rewrite Hread; [by rewrite Hd|]. destruct (Hlive id) as [? ?]; [by eexists|].
    unfold is_u64. lia.
  - intros index q [= <- _]. split.
    + apply eq_None_not_Some. intros Hi%Hlive. lia.
    + intros Hi%Hpend. lia.
  - intros index data Hi Hv. destruct (Hpend index Hi) as [Hr Hn]. split; [done|].
    destruct (st_Put_ok _ _ index data Hs) as (st' & Hput & _); [unfold is_u64; lia|done|].
    unfold Append_end. rewrite Hput, bind_Done_eq. eauto.
Qed.
End runs.

(** ** The key-value storage provides the interface, on any database *)

Definition LastKey {DB : Type} `{!IDatabase DB} (db : DB) : outcome (option Z) :=
  let it := KVStorage.Iterator_SeekToLast (KVStorage.NewIterator db) in
  valid ← KVStorage.Iterator_Valid it;
  if (valid : bool) then Some <$> KVStorage.Iterator_GetKey it else Done None.

#[export] Instance KVStorage_ops `{CSerde V} {DB : Type} `{!IDatabase DB} : StorageOps DB V := {|
  st_Put := KVStorage.Put;
  st_Get := KVStorage.Get;
  st_DeleteRange := KVStorage.DeleteRange;
  st_LastKey := LastKey;
|}.

#[export] Program Instance KVStorage_laws `{SerdeLaws V} {DB : Type} `{!IDatabase DB}
    `{!Store (V := V) Z.lt valid bytes bytes DB} : StorageLaws DB V := {|
  st_abs m db := KVStorage.kv_holds Z.lt m db;
  st_valid := valid;
|}.
Next Obligation. intros V ? ? DB ? ? m db k [Hm _] Hk. exact (store_ok_keys m db k Hm Hk). Qed.
Next Obligation.
  intros V ? ? DB ? ? m db k v Hm Hk Hv. exact (KVStorage.kv_Put_refines Z.lt m db k v Hm Hk Hv).
Qed.
Next Obligation.
  intros V ? ? DB ? ? m db k Hm Hk. exact (KVStorage.kv_Get_refines Z.lt m db k Hm Hk).
Qed.
Next Obligation.
  intros V ? ? DB ? ? m db lo hi Hm Hlo Hhi Hle. rewrite <-KVStorage.delete_range_Z.
  apply (KVStorage.kv_DeleteRange_refines Z.lt); try done. lia.
Qed.
Next Obligation.
  intros V ? ? DB ? ? m db Hm. simpl. unfold LastKey.
  destruct (KVStorage.kv_SeekToLast_refines Z.lt m db Hm)
    as [[-> ->]|(k & v & Hk & Hmax & -> & Hkey & _)]; rewrite bind_Done_eq.
  - destruct (kv_Last ∅) as [[k v]|] eqn:Hl; [|done].
    apply kv_Last_Some in Hl as [Hl _]. by rewrite lookup_empty in Hl.
  - assert (kv_Last m = Some (k, v)) as ->.
    { apply kv_Last_Some. split; [done|]. intros k' Hk'. specialize (Hmax k' Hk'). lia. }
    by rewrite Hkey.
Qed.

(** The simulated database of the queue. *)
#[export] Instance queue_store `{SerdeLaws V} : Store (V := V) Z.lt valid bytes bytes HostDatabase :=
  sim_store Z.ltb Z.lt "KVStorage".

(** The service on a new database. *)
Definition empty_db : HostDatabase :=
  HostDatabase_new (KVStorage.Comparator (K := Z) Z.ltb "KVStorage").

Lemma empty_db_represents : st_abs (V := string) ∅ empty_db.
Proof.
  split; [split; [done|]; apply represents_empty|apply map_Forall_empty].
Qed.

Definition new_system : system (S := HostDatabase) :=
  MkSystem (MkQueueService 0 empty_db false) ∅ ∅ ∅ ∅.

Lemma new_system_started : started ∅ new_system.
Proof.
  exists empty_db. split_and!; [apply empty_db_represents| |vm_compute; reflexivity|done..].
  intros id [? Hid]. by rewrite lookup_empty in Hid.
Qed.

(** [Append("a")] with its reply, then [Read(0)] and [Read(1)]. *)
Lemma queue_returns_appended_messages_witness :
  ∃ s : system (S := HostDatabase), rtc step new_system s ∧
    acknowledged s !! 0 = Some "a" ∧ Read 0 (service s) = Done (Ok (MkReadReply ReadOK "a")) ∧
    Read 1 (service s) = Done (Ok (MkReadReply NO_DATA "")).
Proof.
  pose (s1 := MkSystem (snd (Append_begin (service new_system))) ({[ 0 ]} ∪ ∅) ∅ ∅ ∅).
  assert (H1 : rtc step new_system s1).
  { apply rtc_once. unfold new_system, s1. eapply step_append_begin; [by vm_compute|done]. }
  destruct (queue_returns_appended_messages ∅ _ s1 new_system_started H1) as (_ & _ & _ & Hend).
  destruct (Hend 0 "a") as (_ & q & Hq); [set_solver|done|].
  pose (s3 := MkSystem q (({[ 0 ]} ∪ ∅) ∖ {[ 0 ]}) (<[0 := "a"]> ∅) (({[ 0 ]} ∪ ∅) ∖ {[ 0 ]}) (<[0 := "a"]> ∅)).
  pose (s2 := MkSystem q (({[ 0 ]} ∪ ∅) ∖ {[ 0 ]}) (<[0 := "a"]> ∅) ({[ 0 ]} ∪ ∅) ∅).
  assert (H2 : step s1 s2).
  { apply (step_append_end _ _ _ _ _ 0 "a" (Ok 0)); [set_solver|done|done]. }
  assert (H3 : step s2 s3).
  { pose proof (step_append_reply q (pending s2) (live s2) (replying s2) ∅ 0) as H.
    unfold s2, live in H. rewrite lookup_insert_eq in H. apply H. set_solver. }
  assert (Hrun : rtc step new_system s3) by (eapply rtc_r; [eapply rtc_r; [exact H1|exact H2]|exact H3]).
  destruct (queue_returns_appended_messages ∅ _ s3 new_system_started Hrun) as (Hread & Hack & _).
  exists s3. split; [done|]. split; [done|]. split; [by apply Hack|].
  rewrite Hread by by vm_compute. vm_compute; reflexivity.
Defined.

(** The numbers of the queue are not unique across restarts: the counter
    is recomputed from the greatest stored key, so a service whose messages
    were all trimmed starts again at zero. Here the message "a" gets number 0,
    everything is trimmed, the service is restarted, and "b" gets number 0: a
    reader that still holds the first number reads the second message. *)
Theorem numbers_are_reused_after_restart :
  ∃ q1 q2 q3 q4 : QueueService HostDatabase,
    (let '(i, q) := Append_begin (MkQueueService 0 empty_db false) in Append_end i "a" q) = Done (Ok 0, q1) ∧
    Trim 1 q1 = Done (Ok (), q2) ∧
    QueueService_new (kv_storage q2) = Done q3 ∧
    (let '(i, q) := Append_begin q3 in Append_end i "b" q) = Done (Ok 0, q4) ∧
    Read 0 q4 = Done (Ok (MkReadReply ReadOK "b")).
Proof.
  exists (MkQueueService 1 (with_data [(le_bytes 8 0, [97])] empty_db) false),
    (MkQueueService 1 empty_db false), (MkQueueService 0 empty_db false),
    (MkQueueService 1 (with_data [(le_bytes 8 0, [98])] empty_db) false).
  split_and!; vm_compute; reflexivity.
Qed.
