(* ===== verification/Logs.v ===== *)
(** * Logs in a key-value storage

    A Raft log is stored under the keys [1, 2, ...]. This file holds what the
    two nodes that keep such a log (RaftNode.v, MtfNode.v) share: logs without
    gaps and the effect of the write batches of [AppendEntries] and of the
    leader's main session. *)

From S2P Require Import Prelude.
From S2P Require Import Result.
From S2P Require Import RtTypes.
From S2P Require Import KVInterface.

Local Open Scope Z_scope.

(** Word arithmetic on log positions does not wrap around below this bound. *)
Definition small (B : Z) : Prop := B < u64_max - 2.

Ltac word := unfold small, is_u64, u64_max, u64_modulus in *; lia.

Section logs.
Context {V : Type}.
Implicit Types log : gmap Z V.

(** The number of the last entry, 0 for an empty log. *)
Definition log_size log : Z := match kv_Last log with Some (k, _) => k | None => 0 end.

(** The keys are exactly [1 .. log_size]. *)
Definition contiguous log : Prop := ∀ i, is_Some (log !! i) ↔ 1 ≤ i ≤ log_size log.

Lemma contiguous_size log : contiguous log → 0 ≤ log_size log.
Proof.
  intros Hc. unfold log_size. destruct (kv_Last log) as [[k v]|] eqn:Hl; [|lia].
  apply kv_Last_Some in Hl as [Hk _]. destruct (Hc k) as [[? _] _]; [eauto|]. lia.
Qed.

(** A log whose keys are [1 .. k] has size [k]. *)
Lemma contiguous_intro log k :
  0 ≤ k → (∀ i, is_Some (log !! i) ↔ 1 ≤ i ≤ k) → contiguous log ∧ log_size log = k.
Proof.
  intros Hk Hdom. enough (log_size log = k) as Heq by (split; [intros i; by rewrite Heq|done]).
  unfold log_size. destruct (kv_Last log) as [[k' v]|] eqn:Hl.
  - apply kv_Last_Some in Hl as [Hk' Hmax].
    assert (1 ≤ k' ≤ k) by (apply Hdom; eauto).
    assert (k ≤ k') by (apply Hmax, Hdom; lia). lia.
  - apply kv_Last_None in Hl as ->. destruct (decide (k = 0)) as [|Hne]; [done|].
    destruct (proj2 (Hdom k)) as [? Hs]; [lia|]. by rewrite lookup_empty in Hs.
Qed.

Lemma contiguous_empty : contiguous ∅ ∧ log_size ∅ = 0.
Proof.
  apply contiguous_intro; [lia|]. intros i. rewrite lookup_empty. split; [by intros []|lia].
Qed.

Lemma contiguous_lookup log i : contiguous log → 1 ≤ i ≤ log_size log → ∃ e, log !! i = Some e.
Proof. intros Hc Hi. by apply Hc. Qed.

(** ** Effect of the write batches *)

Lemma lookup_write_puts (l : list V) (base : Z) (m : gmap Z V) (i : Z) :
  kv_Write (imap (λ k e, BatchPut (base + Z.of_nat k) e) l) m !! i =
  if decide (base ≤ i < base + Z.of_nat (length l)) then l !! Z.to_nat (i - base) else m !! i.
Proof.
  revert base m. induction l as [|e l IH]; intros base m; simpl.
  - by rewrite decide_False by lia.
  - rewrite (imap_ext _ (λ k e, BatchPut ((base + 1) + Z.of_nat k) e))
      by (intros; simpl; f_equal; lia).
    unfold kv_Write in *. simpl. rewrite IH. unfold kv_Put. rewrite Z.add_0_r.
    destruct (decide (i = base)) as [->|Hne].
    + rewrite decide_False by lia. rewrite lookup_insert_eq, decide_True by lia.
      by rewrite Z.sub_diag.
    + rewrite lookup_insert_ne by done. do 2 case_decide; try lia; [|done].
      replace (Z.to_nat (i - base)) with (S (Z.to_nat (i - (base + 1)))) by lia. done.
Qed.

(** The batch of [AppendEntries]: everything above [max prev commit] is deleted
    and the entries of the request above it are stored. *)
Definition replace_batch (prev commit : Z) (entries : list V) : list (batch_command V) :=
  let first := (prev `max` commit) +64 1 in
  BatchDeleteRange first u64_max ::
  imap (λ k entry, BatchPut (first + Z.of_nat k) entry)
    (drop (Z.to_nat (first -64 prev -64 1)) entries).

Lemma replace_lookup prev commit entries log i :
  log_size log < u64_max - 1 →
  contiguous log → 0 ≤ commit ≤ log_size log → 0 ≤ prev ≤ log_size log →
  kv_Write (replace_batch prev commit entries) log !! i =
  if decide (i ≤ prev `max` commit) then log !! i else entries !! Z.to_nat (i - prev - 1).
Proof.
  intros Hsmall Hc Hci Hprev. unfold replace_batch.
  set (kept := prev `max` commit).
  assert (Hkept : 0 ≤ kept ≤ log_size log) by (unfold kept; lia).
  rewrite (add64_small kept 1) by (unfold is_u64, u64_max in *; lia).
  rewrite (sub64_small (kept + 1) prev) by (unfold is_u64, u64_max in *; unfold kept in *; lia).
  rewrite sub64_small by (unfold is_u64, u64_max in *; unfold kept in *; lia).
  change (kv_Write (?b :: ?bs) ?m) with (kv_Write bs (batch_step m b)).
  rewrite lookup_write_puts, length_drop. simpl. rewrite lookup_kv_DeleteRange.
  destruct (decide (i ≤ kept)) as [Hle|Hgt].
  - rewrite !decide_False by lia. done.
  - rewrite lookup_drop.
    replace (Z.to_nat (kept + 1 - prev - 1) + Z.to_nat (i - (kept + 1)))%nat
      with (Z.to_nat (i - prev - 1)) by (unfold kept in *; lia).
    case_decide as Hin; [done|].
    rewrite lookup_ge_None_2 by (unfold kept in *; lia).
    case_decide as Hdel; [done|].
    apply eq_None_not_Some. intros Hs%Hc. unfold u64_max in *. lia.
Qed.

Lemma replace_contiguous prev commit entries log :
  log_size log < u64_max - 1 →
  contiguous log → 0 ≤ commit ≤ log_size log → 0 ≤ prev ≤ log_size log →
  contiguous (kv_Write (replace_batch prev commit entries) log) ∧
  log_size (kv_Write (replace_batch prev commit entries) log) =
    (prev + Z.of_nat (length entries)) `max` (prev `max` commit).
Proof.
  intros Hsmall Hc Hci Hprev. apply contiguous_intro; [lia|].
  intros i. rewrite replace_lookup by done. case_decide as Hle.
  - rewrite (Hc i). lia.
  - rewrite lookup_lt_is_Some. lia.
Qed.

(** The batch of the main session: the pending entries go after [base]. *)
Definition extend_batch (base : Z) (entries : list V) : list (batch_command V) :=
  imap (λ k entry, BatchPut (base +64 Z.of_nat k +64 1) entry) entries.

Lemma extend_lookup base l (m : gmap Z V) i :
  0 ≤ base → is_u64 (base + Z.of_nat (length l)) →
  kv_Write (extend_batch base l) m !! i =
  if decide (base < i ≤ base + Z.of_nat (length l)) then l !! Z.to_nat (i - base - 1) else m !! i.
Proof.
  intros Hb Hu. unfold extend_batch.
  assert (Heq : imap (λ k entry, BatchPut (base +64 Z.of_nat k +64 1) entry) l =
                imap (λ k entry, BatchPut (base + 1 + Z.of_nat k) entry) l).
  { apply list_eq. intros k. rewrite !list_lookup_imap.
    destruct (l !! k) eqn:Hk; simpl; [|done]. apply lookup_lt_Some in Hk.
    rewrite (add64_small base), add64_small by word. do 2 f_equal. lia. }
  rewrite Heq, lookup_write_puts.
  replace (Z.to_nat (i - base - 1)) with (Z.to_nat (i - (base + 1))) by lia.
  do 2 case_decide; try lia; done.
Qed.

(** A log extended with its pending entries. *)
Definition extended log (pending : list V) (i : Z) : option V :=
  if decide (i ≤ log_size log) then log !! i else pending !! Z.to_nat (i - log_size log - 1).

Lemma extend_contiguous log pending :
  contiguous log → is_u64 (log_size log + Z.of_nat (length pending)) →
  (∀ i, kv_Write (extend_batch (log_size log) pending) log !! i = extended log pending i) ∧
  contiguous (kv_Write (extend_batch (log_size log) pending) log) ∧
  log_size (kv_Write (extend_batch (log_size log) pending) log) =
    log_size log + Z.of_nat (length pending).
Proof.
  intros Hc Hu. pose proof (contiguous_size _ Hc) as Hpos.
  assert (Hlk : ∀ i, kv_Write (extend_batch (log_size log) pending) log !! i = extended log pending i).
  { intros i. rewrite extend_lookup by done. unfold extended.
    do 2 case_decide; try lia; try done.
    rewrite (lookup_ge_None_2 pending) by lia. apply eq_None_not_Some. intros Hi%Hc. lia. }
  split; [exact Hlk|]. apply contiguous_intro; [lia|].
  intros i. rewrite Hlk. unfold extended. case_decide.
  - rewrite (Hc i). lia.
  - rewrite lookup_lt_is_Some. lia.
Qed.
End logs.
