(* ===== verification/StateMachine.v ===== *)
(** * Replicated state machine with exactly-once semantics

    src/raft/node/state_machine_wrapper.{h,cpp}: [ExactlyOnceStateMachine]
    wraps the user's [IStateMachine] (src/raft/node/node.h) and remembers, for
    every client, the identifier of its last request and the response to it. *)

From S2P Require Import Prelude.

Local Open Scope Z_scope.

(** [google::protobuf::Any] is generated code: a type with a default value
    (the value of a freshly constructed message). *)
Class AnyMessage := {
  Any : Type;
  any_default : Any;
}.

(** The interface [IStateMachine]: the program calls [Apply] on an object it
    is given; [sm_state] is the state of that object. *)
Class IStateMachine `{AnyMessage} := {
  sm_state : Type;
  sm_Apply : Any → sm_state → Any * sm_state;
}.

Section machine.
Context {AM : AnyMessage} {SM : IStateMachine}.

(** [Request] of src/raft/raft.proto. *)
Record Request : Type := MkRequest {
  request_id : Z;
  client_id : Z;
  command : Any;
}.

Record LastClientData : Type := MkLastClientData {
  response : Any;
  last_request_id : Z;
}.

(** [LastClientData{}]. *)
Definition LastClientData_default : LastClientData := MkLastClientData any_default 0.

Record ExactlyOnceStateMachine : Type := MkExactlyOnce {
  state_machine_ : sm_state;
  clients_last_cmd_id_ : gmap Z LastClientData;
}.

Definition ExactlyOnce_new (state_machine : sm_state) : ExactlyOnceStateMachine :=
  MkExactlyOnce state_machine ∅.

(** [ExactlyOnceStateMachine::Apply]: the entry of the client is created if
    it is missing, also when the request turns out to be a repetition. *)
Definition ExactlyOnce_Apply (request : Request) (m : ExactlyOnceStateMachine)
    : Any * ExactlyOnceStateMachine :=
  let clients :=
    match clients_last_cmd_id_ m !! client_id request with
    | Some _ => clients_last_cmd_id_ m
    | None => <[client_id request := LastClientData_default]> (clients_last_cmd_id_ m)
    end in
  let last_data := default LastClientData_default (clients !! client_id request) in
  if decide (last_request_id last_data = request_id request) then
    (response last_data, MkExactlyOnce (state_machine_ m) clients)
  else
    let '(result, sm) := sm_Apply (command request) (state_machine_ m) in
    (result,
     MkExactlyOnce sm
       (<[client_id request := MkLastClientData result (request_id request)]> clients)).

(** Applying a list of requests, responses in order. *)
Fixpoint apply_all (rs : list Request) (m : ExactlyOnceStateMachine)
    : list Any * ExactlyOnceStateMachine :=
  match rs with
  | [] => ([], m)
  | r :: rs =>
      let '(a, m) := ExactlyOnce_Apply r m in
      let '(out, m) := apply_all rs m in
      (a :: out, m)
  end.

(** ** Specification

    The requests that reach the wrapped machine, given the identifier each
    client used last ([0] for a client that has not been seen). *)
Fixpoint effective (last : gmap Z Z) (rs : list Request) : list Request :=
  match rs with
  | [] => []
  | r :: rs =>
      if decide (default 0 (last !! client_id r) = request_id r) then effective last rs
      else r :: effective (<[client_id r := request_id r]> last) rs
  end.

Fixpoint run (rs : list Request) (s : sm_state) : sm_state :=
  match rs with
  | [] => s
  | r :: rs => run rs (sm_Apply (command r) s).2
  end.

Definition last_ids (m : ExactlyOnceStateMachine) : gmap Z Z :=
  last_request_id <$> clients_last_cmd_id_ m.

Definition request_key (r : Request) : Z * Z := (client_id r, request_id r).

(** A client that only repeats its latest request, and never uses the
    identifier [0]: between two occurrences of a request there is no other
    request of the same client. *)
Fixpoint sequential (rs : list Request) : Prop :=
  match rs with
  | [] => True
  | r :: rs =>
      request_id r ≠ 0 ∧
      (∀ mid r' rest, rs = mid ++ r' :: rest →
         request_key r' = request_key r →
         ∀ q, q ∈ mid → client_id q = client_id r → request_id q = request_id r) ∧
      sequential rs
  end.

Lemma apply_all_app rs1 rs2 m :
  apply_all (rs1 ++ rs2) m =
    let '(o1, m1) := apply_all rs1 m in
    let '(o2, m2) := apply_all rs2 m1 in (o1 ++ o2, m2).
Proof.
  revert m. induction rs1 as [|r rs1 IH]; intros m; simpl.
  - by destruct (apply_all rs2 m).
  - destruct (ExactlyOnce_Apply r m) as [a m']. rewrite IH.
    destruct (apply_all rs1 m') as [o1 m1]. by destruct (apply_all rs2 m1).
Qed.

(** One application, seen from the last identifiers: the wrapped machine
    moves exactly when the identifier differs from the remembered one. *)
Lemma Apply_spec r m :
  let '(a, m') := ExactlyOnce_Apply r m in
  if decide (default 0 (last_ids m !! client_id r) = request_id r) then
    state_machine_ m' = state_machine_ m ∧
    (∀ c, default 0 (last_ids m' !! c) = default 0 (last_ids m !! c))
  else
    state_machine_ m' = (sm_Apply (command r) (state_machine_ m)).2 ∧
    a = (sm_Apply (command r) (state_machine_ m)).1 ∧
    (∀ c, default 0 (last_ids m' !! c) =
          default 0 (<[client_id r := request_id r]> (last_ids m) !! c)).
Proof.
  unfold ExactlyOnce_Apply, last_ids. rewrite lookup_fmap.
  destruct (clients_last_cmd_id_ m !! client_id r) as [d|] eqn:Hd; simpl.
  - rewrite Hd; simpl. case_decide; simpl.
    + done.
    + destruct (sm_Apply _ _) as [res sm]; simpl. split_and!; [done..|].
      intros c. by rewrite fmap_insert.
  - rewrite lookup_insert_eq; simpl. case_decide; simpl.
    + split; [done|]. intros c. rewrite fmap_insert, lookup_insert.
      case_decide; [subst|done]. by rewrite lookup_fmap, Hd.
    + destruct (sm_Apply _ _) as [res sm]; simpl. split_and!; [done..|].
      intros c. by rewrite insert_insert_eq, fmap_insert.
Qed.

Lemma effective_ext last1 last2 rs :
  (∀ c, default 0 (last1 !! c) = default 0 (last2 !! c)) →
  effective last1 rs = effective last2 rs.
Proof.
  revert last1 last2. induction rs as [|r rs IH]; intros l1 l2 Hext; [done|].
  simpl. rewrite Hext. case_decide; [by apply IH|]. f_equal. apply IH.
  intros c. rewrite !lookup_insert. by case_decide.
Qed.

Lemma apply_all_state rs m :
  state_machine_ (apply_all rs m).2 = run (effective (last_ids m) rs) (state_machine_ m).
Proof.
  revert m. induction rs as [|r rs IH]; intros m; [done|].
  simpl. pose proof (Apply_spec r m) as Hspec.
  destruct (ExactlyOnce_Apply r m) as [a m']. specialize (IH m').
  destruct (apply_all rs m') as [out m'']. simpl in *. rewrite IH.
  case_decide; simpl.
  - destruct Hspec as [-> Hl]. f_equal. by apply effective_ext.
  - destruct Hspec as (-> & _ & Hl). f_equal. by apply effective_ext.
Qed.

(** Effective requests of a client are never remembered ones, as long as
    the client is sequential: after [k] has been applied, [k] is either
    still the last request of the client or does not occur any more. *)
Definition settled (last : gmap Z Z) (k : Z * Z) (rs : list Request) : Prop :=
  default 0 (last !! k.1) = k.2 ∧
    (∀ mid r' rest, rs = mid ++ r' :: rest → request_key r' = k →
       ∀ q, q ∈ mid → client_id q = k.1 → request_id q = k.2) ∨
  (∀ r', r' ∈ rs → request_key r' ≠ k).

Lemma settled_not_effective last k rs :
  settled last k rs → k ∉ (request_key <$> effective last rs).
Proof.
  revert last. induction rs as [|r rs IH]; intros last Hs; simpl; [set_solver|].
  destruct Hs as [[Hlast Hmid]|Hnone].
  - case_decide as Hrem.
    + apply IH. left. split; [done|]. intros mid r' rest Heq Hk q Hq Hc.
      apply (Hmid (r :: mid) r' rest); [by rewrite Heq|done|by right|done].
    + rewrite fmap_cons, not_elem_of_cons. split.
      { intros ->. by simpl in Hlast. }
      apply IH. destruct (decide (client_id r = k.1)) as [Hc|Hc].
      * right. intros r' Hr' Hk. apply list_elem_of_split in Hr' as (mid & rest & Heq).
        apply Hrem. rewrite Hc, Hlast. symmetry.
        apply (Hmid (r :: mid) r' rest); [by rewrite Heq|done|by left|done].
      * left. split.
        { by rewrite lookup_insert_ne. }
        intros mid r' rest Heq Hk q Hq Hcq.
        apply (Hmid (r :: mid) r' rest); [by rewrite Heq|done|by right|done].
  - case_decide; simpl.
    + apply IH. right. intros r' Hr'. apply Hnone. by right.
    + rewrite not_elem_of_cons. split.
      * intros Heq. by apply (Hnone r); [left|].
      * apply IH. right. intros r' Hr'. apply Hnone. by right.
Qed.

Lemma effective_NoDup last rs :
  sequential rs → NoDup (request_key <$> effective last rs).
Proof.
  revert last. induction rs as [|r rs IH]; intros last Hseq; simpl; [constructor|].
  destruct Hseq as (Hnz & Hmid & Hseq). case_decide; [by apply IH|].
  rewrite fmap_cons. constructor; [|by apply IH].
  apply settled_not_effective. left. split.
  - simpl. by rewrite lookup_insert_eq.
  - exact Hmid.
Qed.

Lemma effective_complete last rs r :
  r ∈ rs →
  request_key r ∈ (request_key <$> effective last rs) ∨
  default 0 (last !! client_id r) = request_id r.
Proof.
  revert last. induction rs as [|r0 rs IH]; intros last; [by rewrite elem_of_nil|].
  rewrite elem_of_cons. intros [<-|Hin]; simpl.
  - case_decide as Hd; [by right|]. left. rewrite fmap_cons. left.
  - case_decide as Hd; [by apply IH|].
    destruct (IH (<[client_id r0 := request_id r0]> last) Hin) as [Hl|Hr].
    + left. rewrite fmap_cons. by right.
    + rewrite lookup_insert in Hr. case_decide as Hc.
      * left. rewrite fmap_cons. simpl in Hr.
        replace (request_key r) with (request_key r0); [left|].
        unfold request_key. by rewrite Hc, Hr.
      * by right.
Qed.
End machine.

(** A machine over integers used by the witnesses: the state is the list of
    commands applied so far, the response to a command is its position. *)
Module TestMachine.
#[export] Instance test_any : AnyMessage := {| Any := Z; any_default := -1 |}.

#[export] Instance test_machine : IStateMachine := {|
  sm_state := list Z;
  sm_Apply c s := (Z.of_nat (length s), s ++ [c]);
|}.

Definition req (client id c : Z) : Request := MkRequest id client c.
Definition init : sm_state := @nil Z.
End TestMachine.

(** [C15] Exactly-once execution: whatever requests the log delivers, if every
    client repeats only its latest request and never uses the identifier 0,
    then the wrapped state machine has executed a subsequence of the delivered
    requests in which every request of the log occurs exactly once. *)
Theorem exactly_once {AM : AnyMessage} {SM : IStateMachine} (rs : list Request) (sm : sm_state) :
  sequential rs →
  ∃ applied,
    state_machine_ (apply_all rs (ExactlyOnce_new sm)).2 = run applied sm ∧
    NoDup (request_key <$> applied) ∧
    (∀ r, r ∈ rs → request_key r ∈ (request_key <$> applied)) ∧
    applied `sublist_of` rs.
Proof.
  intros Hseq. exists (effective ∅ rs). split_and!.
  - rewrite apply_all_state. unfold last_ids. simpl. by rewrite fmap_empty.
  - by apply effective_NoDup.
  - intros r Hr. destruct (effective_complete ∅ rs r Hr) as [|Hz]; [done|].
    rewrite lookup_empty in Hz. exfalso. revert r Hr Hz.
    induction rs as [|r0 rs IH]; intros r; [by rewrite elem_of_nil|].
    destruct Hseq as (Hnz & _ & Hseq). rewrite elem_of_cons. intros [->|Hin] Hz; [done|].
    by apply (IH Hseq r).
  - generalize (∅ : gmap Z Z). clear. induction rs as [|r rs IH]; intros last; simpl; [done|].
    case_decide; [by apply sublist_cons|by apply sublist_skip].
Qed.

Lemma exactly_once_witness :
  sequential [TestMachine.req 1 7 10; TestMachine.req 2 7 20; TestMachine.req 1 7 10] ∧
  ∃ applied,
    state_machine_ (apply_all
      [TestMachine.req 1 7 10; TestMachine.req 2 7 20; TestMachine.req 1 7 10]
      (ExactlyOnce_new TestMachine.init)).2 = run applied TestMachine.init ∧
    NoDup (request_key <$> applied).
Proof.
  assert (Hseq : sequential
    [TestMachine.req 1 7 10; TestMachine.req 2 7 20; TestMachine.req 1 7 10]).
  { simpl. split_and!; try done.
    - intros mid r' rest Heq Hk q Hq Hc.
      destruct mid as [|a [|b [|c mid]]]; simplify_eq/=; try set_solver.
    - intros mid r' rest Heq Hk q Hq Hc. destruct mid as [|a [|b mid]]; simplify_eq/=; set_solver.
    - intros mid r' rest Heq. destruct mid; simplify_eq/=. }
  split; [exact Hseq|].
  destruct (exactly_once _ TestMachine.init Hseq) as (applied & H1 & H2 & _ & _). eauto.
Defined.

(** The two ways the wrapper departs from exactly-once execution when a
    client is not sequential: the first request of a client with identifier 0
    is answered with a default response and never executed, and a request
    repeated after a later request of the same client is executed again. *)
Theorem exactly_once_limits {AM : AnyMessage} {SM : IStateMachine} (m : ExactlyOnceStateMachine) (c : Z)
    (a b : Any) (i j : Z) :
  clients_last_cmd_id_ m !! c = None →
  i ≠ 0 → j ≠ 0 → i ≠ j →
  (ExactlyOnce_Apply (MkRequest 0 c a) m).1 = any_default ∧
  state_machine_ (ExactlyOnce_Apply (MkRequest 0 c a) m).2 = state_machine_ m ∧
  state_machine_ (apply_all [MkRequest i c a; MkRequest j c b; MkRequest i c a] m).2 =
    run [MkRequest i c a; MkRequest j c b; MkRequest i c a] (state_machine_ m).
Proof.
  intros Hnew Hi Hj Hij.
  assert (Happ : state_machine_ (ExactlyOnce_Apply (MkRequest 0 c a) m).2 = state_machine_ m ∧
                 (ExactlyOnce_Apply (MkRequest 0 c a) m).1 = any_default).
  { unfold ExactlyOnce_Apply. simpl. rewrite Hnew, lookup_insert_eq. by simpl. }
  split_and!; [apply Happ..|].
  rewrite apply_all_state. f_equal. unfold last_ids. simpl.
  rewrite lookup_fmap, Hnew. simpl. rewrite decide_False by done.
  rewrite lookup_insert_eq. simpl. rewrite decide_False by done.
  rewrite lookup_insert_eq. simpl. by rewrite decide_False by done.
Qed.

Lemma exactly_once_limits_witness :
  state_machine_ (apply_all
    [TestMachine.req 1 7 10; TestMachine.req 1 8 20; TestMachine.req 1 7 10]
    (ExactlyOnce_new TestMachine.init)).2 = [10; 20; 10].
Proof.
  destruct (exactly_once_limits (ExactlyOnce_new TestMachine.init) 1 10 20 7 8) as (_ & _ & Heq);
    [reflexivity|lia|lia|lia|].
  exact Heq.
Defined.
