(* ===== verification/Election.v ===== *)
(** * Elections, independent of the node

    What elections need of a node, and why a term then has at most one leader.
    The Raft node and the Metamorphosis node run the same election code on
    different states; this file abstracts from the node to a [view] (term, vote,
    role and the count of the votes of a running election) and from the cluster
    to an [election] (the views, the votes asked for and granted, and the
    history of ballots and leaders). RaftElection.v and MtfElection.v show that
    the clusters of the two nodes simulate it.

    The invariant: term and vote are persistent, so votes within a term are
    unique; a candidate's count is backed by distinct votes; two majorities
    intersect. *)

From S2P Require Import Prelude.

Local Open Scope Z_scope.

Inductive role : Type := RLeader | RFollower | RCandidate.

#[export] Instance role_eq_dec : EqDecision role.
Proof. solve_decision. Defined.

(** A running election: the votes counted, the term it is for, and the nodes
    that have not answered. *)
Definition ballot_count : Type := nat * Z * gset nat.

Record view : Type := MkView {
  v_id : nat;
  v_size : nat;
  v_ready : bool;              (** the databases are initialized *)
  v_term : Z;
  v_vote : option Z;
  v_role : role;
  v_count : option ballot_count;
}.

(** What the step has to do with votes. *)
Inductive label : Type :=
  | LOther
  | LVoteReturns (id : nat) (granted : bool)
  | LVoteHandled (term candidate : Z) (granted : bool).

(** ** A step of a node *)

(** Terms only grow, and within a term a vote, once cast, stays. *)
Definition vote_grows (v v' : view) : Prop :=
  v_term v < v_term v' ∨ v_term v = v_term v' ∧ (v_vote v = None ∨ v_vote v' = v_vote v).

Definition stays_candidate (v v' : view) : Prop :=
  v_role v' = RCandidate → v_role v = RCandidate ∧ v_term v' = v_term v.

Inductive count_step (l : label) (v v' : view) : Prop :=
  | count_none : v_count v' = None → count_step l v v'
  | count_same : v_count v' = v_count v → stays_candidate v v' → count_step l v v'
  | count_start others :
      v_count v' = Some (1%nat, v_term v', others) → v_id v' ∉ others →
      v_vote v' = Some (Z.of_nat (v_id v')) → count_step l v v'
  | count_vote id granted votes t w votes' :
      l = LVoteReturns id granted → id ∈ w →
      v_count v = Some (votes, t, w) → v_count v' = Some (votes', t, w ∖ {[id]}) →
      (votes' = votes ∨ votes' = S votes ∧ granted = true) →
      stays_candidate v v' → count_step l v v'.

(** A node becomes leader only with the vote that completes its majority. *)
Definition wins (l : label) (v v' : view) : Prop :=
  ∃ id votes t w,
    l = LVoteReturns id true ∧ id ∈ w ∧ v_count v = Some (votes, t, w) ∧
    S votes = (v_size v / 2 + 1)%nat ∧ v_role v = RCandidate ∧ v_term v' = v_term v.

Record view_step (l : label) (v v' : view) : Prop := {
  vs_id : v_id v' = v_id v;
  vs_size : v_size v' = v_size v;
  vs_ready : v_ready v = true → v_ready v' = true;
  vs_vote : vote_grows v v';
  vs_count : count_step l v v';
  vs_leader : v_role v' = RLeader →
    v_role v = RLeader ∧ v_term v' = v_term v ∨ wins l v v';
  vs_grant : ∀ t candidate, l = LVoteHandled t candidate true →
    v_term v' = t ∧ v_vote v' = Some candidate;
}.

(** A restart keeps term and vote. *)
Record view_restart (v v' : view) : Prop := {
  vr_id : v_id v' = v_id v;
  vr_size : v_size v' = v_size v;
  vr_ready : v_ready v' = true;
  vr_term : v_term v' = v_term v;
  vr_vote : v_vote v' = v_vote v;
  vr_role : v_role v' = RFollower;
  vr_count : v_count v' = None;
}.

(** ** A cluster *)

Record election : Type := MkElection {
  views : gmap nat view;
  asked : list (nat * nat * Z * Z);     (** (caller, target, term, candidate) *)
  granted : list (nat * nat * Z);       (** (caller, target, term) *)
  ballots : list (Z * nat * Z);         (** (term, voter, candidate) *)
  leaders : list (Z * nat);             (** (term, leader) *)
}.

Definition record_vote (i : nat) (v : view) (bs : list (Z * nat * Z)) : list (Z * nat * Z) :=
  match v_vote v with Some c => (v_term v, i, c) :: bs | None => bs end.

Definition record_leader (i : nat) (v : view) (ls : list (Z * nat)) : list (Z * nat) :=
  if decide (v_role v = RLeader) then (v_term v, i) :: ls else ls.

Definition moves (i : nat) (v' : view) (new_asked : list (nat * nat * Z * Z))
    (new_granted : list (nat * nat * Z)) (e : election) : election :=
  MkElection (<[i := v']> (views e)) (new_asked ++ asked e) (new_granted ++ granted e)
    (record_vote i v' (ballots e)) (record_leader i v' (leaders e)).

(** A node only asks for votes for itself. *)
Definition asks_for_itself (i id : nat) (rs : list (nat * nat * Z * Z)) : Prop :=
  ∀ r, r ∈ rs → ∃ target t, r = (i, target, t, Z.of_nat id).

Inductive election_step : election → election → Prop :=
  | es_other e i v l v' rs :
      views e !! i = Some v → (∀ id, l ≠ LVoteReturns id true) →
      (∀ t c, l ≠ LVoteHandled t c true) →
      view_step l v v' → asks_for_itself i (v_id v) rs →
      election_step e (moves i v' rs [] e)
  | es_grant e caller i t candidate v v' :
      (caller, i, t, candidate) ∈ asked e → views e !! i = Some v →
      view_step (LVoteHandled t candidate true) v v' →
      election_step e (moves i v' [] [(caller, i, t)] e)
  | es_count e i target v votes t w v' :
      (i, target, t) ∈ granted e → views e !! i = Some v → v_count v = Some (votes, t, w) →
      view_step (LVoteReturns target true) v v' →
      election_step e (moves i v' [] [] e)
  | es_restart e i v v' :
      views e !! i = Some v → view_restart v v' →
      election_step e (MkElection (<[i := v']> (views e)) (asked e) (granted e) (ballots e) (leaders e)).

(** ** The invariant *)

Section invariant.
Context (size_ : nat).

Record election_inv (e : election) : Prop := {
  ei_view : ∀ i v, views e !! i = Some v →
    (i < size_)%nat ∧ v_id v = i ∧ v_size v = size_ ∧ v_ready v = true;
  ei_ballot : ∀ t i d, (t, i, d) ∈ ballots e →
    ∃ v, views e !! i = Some v ∧ (t < v_term v ∨ t = v_term v ∧ v_vote v = Some d);
  ei_ballot_unique : ∀ t i d1 d2, (t, i, d1) ∈ ballots e → (t, i, d2) ∈ ballots e → d1 = d2;
  ei_vote_recorded : ∀ i v d, views e !! i = Some v → v_vote v = Some d →
    (v_term v, i, d) ∈ ballots e;
  ei_asked : ∀ caller target t d, (caller, target, t, d) ∈ asked e → d = Z.of_nat caller;
  ei_granted : ∀ caller target t, (caller, target, t) ∈ granted e →
    (t, target, Z.of_nat caller) ∈ ballots e;
  ei_count : ∀ i v votes t w, views e !! i = Some v → v_count v = Some (votes, t, w) →
    (v_role v = RCandidate → v_term v = t) ∧
    ∃ Q : gset nat, size Q = votes ∧ Q ## w ∧ ∀ j, j ∈ Q → (t, j, Z.of_nat i) ∈ ballots e;
  ei_leader : ∀ i v, views e !! i = Some v → v_role v = RLeader → (v_term v, i) ∈ leaders e;
  ei_leaders : ∀ t i, (t, i) ∈ leaders e →
    ∃ Q : gset nat, (size_ < 2 * size Q)%nat ∧ ∀ j, j ∈ Q → (t, j, Z.of_nat i) ∈ ballots e;
}.

Section at_node.
Context (e : election) (i : nat) (l : label) (v v' : view).
Context (rs : list (nat * nat * Z * Z)) (gs : list (nat * nat * Z)).
Hypothesis Hinv : election_inv e.
Hypothesis Hv : views e !! i = Some v.
Hypothesis Hstep : view_step l v v'.
(** A vote that is counted was cast. *)
Hypothesis Hcounted : ∀ id votes t w,
  l = LVoteReturns id true → v_count v = Some (votes, t, w) → (t, id, Z.of_nat i) ∈ ballots e.

Abbreviation e' := (moves i v' rs gs e).

Lemma ballots_grow b : b ∈ ballots e → b ∈ ballots e'.
Proof. simpl. unfold record_vote. destruct (v_vote v'); [by right|done]. Qed.

Lemma ballots_inv b :
  b ∈ ballots e' → b ∈ ballots e ∨ ∃ d, v_vote v' = Some d ∧ b = (v_term v', i, d).
Proof.
  simpl. unfold record_vote. destruct (v_vote v') as [d|]; [|auto].
  rewrite elem_of_cons. intros [->|?]; eauto.
Qed.

Lemma own_vote_recorded d : v_vote v' = Some d → (v_term v', i, d) ∈ ballots e'.
Proof. simpl. unfold record_vote. intros ->. left. Qed.

Lemma lookup_moves j u :
  views e' !! j = Some u → j = i ∧ u = v' ∨ j ≠ i ∧ views e !! j = Some u.
Proof. simpl. rewrite lookup_insert. case_decide; [|auto]. intros [= <-]. by left. Qed.

Lemma moves_view j u :
  views e' !! j = Some u → (j < size_)%nat ∧ v_id u = j ∧ v_size u = size_ ∧ v_ready u = true.
Proof.
  intros [[-> ->]|[_ Hu]]%lookup_moves; [|by eapply ei_view].
  destruct (ei_view _ Hinv _ _ Hv) as (? & ? & ? & ?).
  rewrite (vs_id _ _ _ Hstep), (vs_size _ _ _ Hstep). split_and!; try done. by apply (vs_ready _ _ _ Hstep).
Qed.

Lemma moves_ballot t j d :
  (t, j, d) ∈ ballots e' →
  ∃ u, views e' !! j = Some u ∧ (t < v_term u ∨ t = v_term u ∧ v_vote u = Some d).
Proof.
  intros [Hold|(d' & Hd & [= -> -> ->])]%ballots_inv.
  - destruct (ei_ballot _ Hinv _ _ _ Hold) as (u & Hu & Hcase).
    destruct (decide (j = i)) as [->|Hne].
    + exists v'. simpl. rewrite lookup_insert_eq. split; [done|].
      rewrite Hv in Hu. injection Hu as <-.
      pose proof (vs_vote _ _ _ Hstep) as [?|[Ht Hvv]]; [left; lia|].
      destruct Hcase as [?|[-> Hvq]]; [left; lia|]. right. split; [done|]. destruct Hvv; congruence.
    + exists u. simpl. by rewrite lookup_insert_ne.
  - exists v'. simpl. rewrite lookup_insert_eq. auto.
Qed.

Lemma moves_ballot_new t d : (t, i, d) ∈ ballots e → t = v_term v' → v_vote v' = Some d.
Proof.
  intros Hold ->. destruct (ei_ballot _ Hinv _ _ _ Hold) as (u & Hu & Hcase).
  rewrite Hv in Hu. injection Hu as <-.
  pose proof (vs_vote _ _ _ Hstep) as [?|[Ht Hvv]]; [lia|].
  destruct Hcase as [?|[_ Hvq]]; [lia|]. destruct Hvv; congruence.
Qed.

Lemma moves_ballot_unique t j d1 d2 :
  (t, j, d1) ∈ ballots e' → (t, j, d2) ∈ ballots e' → d1 = d2.
Proof.
  intros [H1|(? & Hv1 & [= -> -> ->])]%ballots_inv [H2|(? & Hv2 & Heq)]%ballots_inv.
  - by eapply ei_ballot_unique.
  - simplify_eq. apply moves_ballot_new in H1; [|done]. congruence.
  - apply moves_ballot_new in H2; [|done]. congruence.
  - simplify_eq. congruence.
Qed.

Lemma counted_quorum id votes t w :
  l = LVoteReturns id true → id ∈ w → v_count v = Some (votes, t, w) →
  ∃ Q : gset nat, size Q = S votes ∧ Q ## (w ∖ {[id]}) ∧
    ∀ j, j ∈ Q → (t, j, Z.of_nat i) ∈ ballots e'.
Proof.
  intros Hl Hid Hc. destruct (ei_count _ Hinv _ _ _ _ _ Hv Hc) as (_ & Q & HQ & Hdis & Hb).
  exists ({[id]} ∪ Q). split_and!.
  - rewrite size_union by set_solver. rewrite size_singleton. lia.
  - set_solver.
  - intros j [->%elem_of_singleton|Hj]%elem_of_union; apply ballots_grow; eauto.
Qed.

Lemma moves_count j u votes t w :
  views e' !! j = Some u → v_count u = Some (votes, t, w) →
  (v_role u = RCandidate → v_term u = t) ∧
  ∃ Q : gset nat, size Q = votes ∧ Q ## w ∧ ∀ k, k ∈ Q → (t, k, Z.of_nat j) ∈ ballots e'.
Proof.
  assert (Hlift : ∀ j u, views e !! j = Some u → v_count u = Some (votes, t, w) →
    (v_role u = RCandidate → v_term u = t) ∧
    ∃ Q : gset nat, size Q = votes ∧ Q ## w ∧ ∀ k, k ∈ Q → (t, k, Z.of_nat j) ∈ ballots e').
  { intros j' u' Hu Hc. destruct (ei_count _ Hinv _ _ _ _ _ Hu Hc) as (? & Q & ? & ? & Hb).
    split; [done|]. exists Q. split_and!; auto using ballots_grow. }
  intros Hu Hc. pose proof Hu as [[-> ->]|[_ Hold]]%lookup_moves; [|by eapply Hlift].
  destruct (vs_count _ _ _ Hstep) as [Hno|Hsame Hst|others Hstart Hself Hvote
    |id g votes0 t0 w0 votes' Hl Hid Hc0 Hc' Hvotes Hst]; [congruence|..].
  - rewrite Hsame in Hc. destruct (Hlift i v Hv Hc) as [Ht HQ].
    split; [intros Hcand; destruct (Hst Hcand) as [? ->]; auto|done].
  - rewrite Hc in Hstart. injection Hstart as -> -> ->. split; [done|].
    destruct (moves_view i v' Hu) as (_ & Hid & _). exists {[i]}. rewrite Hid in *.
    split_and!; [by rewrite size_singleton|set_solver|].
    intros k ->%elem_of_singleton. by apply own_vote_recorded.
  - rewrite Hc in Hc'. injection Hc' as -> -> ->.
    destruct (ei_count _ Hinv _ _ _ _ _ Hv Hc0) as (Ht & Q & HQ & Hdis & Hb).
    split; [intros Hcand; destruct (Hst Hcand) as [? ->]; auto|].
    destruct Hvotes as [->|[-> ->]]; [|by eapply counted_quorum].
    exists Q. split_and!; [done|set_solver|auto using ballots_grow].
Qed.

Lemma moves_leaders t j :
  (t, j) ∈ leaders e' →
  ∃ Q : gset nat, (size_ < 2 * size Q)%nat ∧ ∀ k, k ∈ Q → (t, k, Z.of_nat j) ∈ ballots e'.
Proof.
  assert (Hold : (t, j) ∈ leaders e →
    ∃ Q : gset nat, (size_ < 2 * size Q)%nat ∧ ∀ k, k ∈ Q → (t, k, Z.of_nat j) ∈ ballots e').
  { intros Hl. destruct (ei_leaders _ Hinv _ _ Hl) as (Q & ? & Hb).
    exists Q. split; auto using ballots_grow. }
  simpl. unfold record_leader. case_decide as Hrole; [|auto].
  intros [[= -> ->]|?]%elem_of_cons; [|auto].
  destruct (vs_leader _ _ _ Hstep Hrole) as [[Hr Ht]|Hwin].
  - apply Hold. rewrite Ht. by eapply ei_leader.
  - destruct Hwin as (id & votes & t0 & w & Hl & Hid & Hc & Hmaj & Hr & Ht).
    destruct (counted_quorum id votes t0 w) as (Q & HQ & _ & Hb); [done..|].
    destruct (ei_count _ Hinv _ _ _ _ _ Hv Hc) as (Hterm & _).
    destruct (ei_view _ Hinv _ _ Hv) as (_ & _ & Hn & _).
    exists Q. split.
    + rewrite HQ, Hmaj, Hn.
      pose proof (Nat.div_mod_eq size_ 2). pose proof (Nat.mod_upper_bound size_ 2). lia.
    + rewrite Ht, (Hterm Hr). done.
Qed.

Lemma moves_inv :
  (∀ caller target t d, (caller, target, t, d) ∈ rs → d = Z.of_nat caller) →
  (∀ caller target t, (caller, target, t) ∈ gs → (t, target, Z.of_nat caller) ∈ ballots e') →
  election_inv e'.
Proof.
  intros Hreq Hrep. split.
  - apply moves_view.
  - apply moves_ballot.
  - apply moves_ballot_unique.
  - intros j u d [[-> ->]|[_ Hu]]%lookup_moves Hd; [by apply own_vote_recorded|].
    apply ballots_grow. by eapply ei_vote_recorded.
  - intros caller target t d. simpl. rewrite elem_of_app. intros [?|?]; eauto using ei_asked.
  - intros caller target t Hin. simpl in Hin. apply elem_of_app in Hin as [?|?]; [eauto|].
    eapply ballots_grow, ei_granted; eauto.
  - apply moves_count.
  - intros j u [[-> ->]|[_ Hu]]%lookup_moves Hr; simpl; unfold record_leader.
    + rewrite decide_True by done. left.
    + pose proof (ei_leader _ Hinv _ _ Hu Hr). case_decide; [by right|done].
  - apply moves_leaders.
Qed.
End at_node.

Lemma restart_inv e i v v' :
  election_inv e → views e !! i = Some v → view_restart v v' →
  election_inv (MkElection (<[i := v']> (views e)) (asked e) (granted e) (ballots e) (leaders e)).
Proof.
  intros [H1 H2 H3 H4 H5 H6 H7 H8 H9] Hv [Rid Rsize Rready Rterm Rvote Rrole Rcount].
  assert (Hlk : ∀ j u, <[i := v']> (views e) !! j = Some u → j = i ∧ u = v' ∨ views e !! j = Some u).
  { intros j u. rewrite lookup_insert. case_decide; [|auto]. intros [= <-]. auto. }
  destruct (H1 _ _ Hv) as (? & ? & ? & ?). split; simpl; try done.
  - intros j u [[-> ->]|Hu]%Hlk; [|by apply H1]. split_and!; congruence || done.
  - intros t j d (u & Hu & Hcase)%H2. destruct (decide (j = i)) as [->|Hne].
    + exists v'. rewrite lookup_insert_eq. rewrite Hv in Hu. injection Hu as <-. by rewrite Rterm, Rvote.
    + exists u. by rewrite lookup_insert_ne.
  - intros j u d [[-> ->]|Hu]%Hlk Hd; [|by apply H4]. rewrite Rterm. apply H4; [done|congruence].
  - intros j u votes t w [[-> ->]|Hu]%Hlk Hc; [congruence|by apply (H7 j u votes)].
  - intros j u [[-> ->]|Hu]%Hlk Hr; [congruence|by apply H8].
Qed.

Lemma election_step_inv e e' : election_inv e → election_step e e' → election_inv e'.
Proof.
  intros Hinv Hstep. destruct Hstep as [e i v l v' rs Hv Hl1 Hl2 Hs Hrs|e caller i t d v v' Hin Hv Hs
    |e i target v votes t w v' Hin Hv Hc Hs|e i v v' Hv Hs].
  - eapply moves_inv; [done..| | |].
    + intros id votes t w Hl. by destruct (Hl1 id).
    + intros caller target t d (target' & t' & [= -> _ _ ->])%Hrs.
      by destruct (ei_view _ Hinv _ _ Hv) as (_ & -> & _).
    + intros *. by rewrite elem_of_nil.
  - eapply moves_inv; [done..| | |].
    + done.
    + intros *. by rewrite elem_of_nil.
    + intros caller' target t' [= -> -> ->]%list_elem_of_singleton.
      destruct (vs_grant _ _ _ Hs _ _ eq_refl) as [Ht Hd].
      rewrite <-(ei_asked _ Hinv _ _ _ _ Hin), <-Ht. by apply own_vote_recorded.
  - eapply moves_inv; [done..| | |]; try (intros *; by rewrite elem_of_nil).
    intros id votes' t' w' [= <-] Hc'. rewrite Hc in Hc'. injection Hc' as <- <- <-. by eapply ei_granted.
  - by eapply restart_inv.
Qed.

(** ** Majorities intersect *)

Lemma majorities_meet (Q1 Q2 : gset nat) :
  (∀ j, j ∈ Q1 ∪ Q2 → (j < size_)%nat) →
  (size_ < 2 * size Q1)%nat → (size_ < 2 * size Q2)%nat → ∃ j, j ∈ Q1 ∧ j ∈ Q2.
Proof.
  intros Hb H1 H2. destruct (decide (Q1 ∩ Q2 = ∅)) as [Hd|Hd].
  - exfalso.
    assert (Hs : (size (Q1 ∪ Q2) ≤ size (set_seq 0 size_ : gset nat))%nat).
    { apply subseteq_size. intros j Hj. apply elem_of_set_seq. specialize (Hb j Hj). lia. }
    rewrite size_union in Hs by set_solver. rewrite size_set_seq in Hs. lia.
  - apply set_choose_L in Hd as [j Hj]. exists j. set_solver.
Qed.

Lemma one_leader_per_term e t i j :
  election_inv e → (t, i) ∈ leaders e → (t, j) ∈ leaders e → i = j.
Proof.
  intros Hinv Hi Hj.
  destruct (ei_leaders _ Hinv _ _ Hi) as (Q1 & HQ1 & Hb1).
  destruct (ei_leaders _ Hinv _ _ Hj) as (Q2 & HQ2 & Hb2).
  destruct (majorities_meet Q1 Q2) as (k & Hk1 & Hk2); [|done..|].
  - intros k [Hk|Hk]%elem_of_union; [apply Hb1 in Hk|apply Hb2 in Hk];
      destruct (ei_ballot _ Hinv _ _ _ Hk) as (u & Hu & _);
      by destruct (ei_view _ Hinv _ _ Hu).
  - pose proof (ei_ballot_unique _ Hinv _ _ _ _ (Hb1 _ Hk1) (Hb2 _ Hk2)). lia.
Qed.
End invariant.
