(* ===== verification/RaftNode.v ===== *)
(** * The Raft node: data and operations

    Model of [RaftNode] (src/raft/node/node.cpp). A method of the class that
    runs without suspending the fiber is one function on the state of the
    node; a method that suspends (an [Await], an RPC, a sleep) is split at
    the suspension points, the local variables that survive the suspension
    being part of the state or of the arguments. [LOG] statements have no
    effect on the state and are left out.

    - [raft_state] and [raft_log] are the two databases of the node, at the
      level of KVInterface.v.
    - A [rt::StopSource] is a name and the flag that [Stop()] sets.
    - The local [PendingRequest] of a suspended [Execute] is a [Frame]; the map
      [pending_requests] holds pointers to the frames. *)

From S2P Require Import Prelude.
From S2P Require Import Result.
From S2P Require Import RtTypes.
From S2P Require Import KVInterface.
From S2P Require Import StateMachine.

Local Open Scope Z_scope.

Inductive State : Type := Leader | Follower | Candidate.

#[export] Instance State_eq_dec : EqDecision State.
Proof. solve_decision. Defined.

Record StopSource : Type := MkStopSource { source_id : nat; stopped : bool }.

Record RaftConfig : Type := MkRaftConfig {
  node_id : nat;
  raft_nodes : list Endpoint;
  election_timeout : Interval;
  heart_beat_period : Z;
  rpc_timeout : Z;
  log_db_path : string;
  raft_state_db_path : string;
}.

Record RequestVoteRequest : Type := MkRequestVote {
  rv_term : Z;
  rv_candidate_id : Z;
  rv_last_log_index : Z;
  rv_last_log_term : Z;
}.

Record RequestVoteResult : Type := MkRequestVoteResult {
  rvr_term : Z;
  rvr_vote_granted : bool;
}.

Record AppendEntriesResult : Type := MkAppendEntriesResult {
  aer_term : Z;
  aer_success : bool;
}.

Inductive Response_Status : Type := NotALeader | Commited.

Section raft.
Context {AM : AnyMessage} {SM : IStateMachine}.

Record LogEntry : Type := MkLogEntry {
  entry_term : Z;
  entry_request : Request;
}.

Record AppendEntriesRequest : Type := MkAppendEntries {
  ae_term : Z;
  ae_leader_id : Z;
  ae_prev_log_index : Z;
  ae_prev_log_term : Z;
  ae_entries : list LogEntry;
  ae_leader_commit : Z;
}.

Record Response : Type := MkResponse {
  rsp_status : Response_Status;
  rsp_result : Any;
}.

(** A suspended call of [Execute]: its locals [new_log_index] and
    [current_term], its [pending_request], and the stop source its
    [finish_guard] is registered with. *)
Record Frame : Type := MkFrame {
  new_log_index : Z;
  frame_term : Z;
  finish_guard : nat;
  replication_finished : bool;
  frame_result : Any;
}.

Record RaftNode : Type := MkRaftNode {
  stop_election : StopSource;
  stop_leader : StopSource;
  state : State;
  config : RaftConfig;
  reset_election_timeout : StopSource;
  reset_heartbeat_timeout : StopSource;
  raft_state : gmap string Z;
  raft_log : gmap Z LogEntry;
  commit_index : Z;
  match_index : list Z;
  next_index : list Z;
  current_term_start_index : Z;
  pending_requests : gmap Z nat;
  pending_log : list LogEntry;
  rsm : ExactlyOnceStateMachine;
  (** fibers suspended in [Execute] *)
  frames : gmap nat Frame;
  (** sessions suspended with a guard that forwards [stop_leader] to
      [reset_heartbeat_timeout] *)
  heartbeat_guards : gset nat;
  (** next unused name of a stop source or frame *)
  next_name : nat;
}.

(** [google::protobuf::util::MessageDifferencer::Equals] on log entries. *)
Variable MessageDifferencer_Equals : LogEntry → LogEntry → bool.

(** ** Field updates *)

Definition set_stop_election v n := MkRaftNode v (stop_leader n) (state n) (config n) (reset_election_timeout n) (reset_heartbeat_timeout n) (raft_state n) (raft_log n) (commit_index n) (match_index n) (next_index n) (current_term_start_index n) (pending_requests n) (pending_log n) (rsm n) (frames n) (heartbeat_guards n) (next_name n).
Definition set_stop_leader v n := MkRaftNode (stop_election n) v (state n) (config n) (reset_election_timeout n) (reset_heartbeat_timeout n) (raft_state n) (raft_log n) (commit_index n) (match_index n) (next_index n) (current_term_start_index n) (pending_requests n) (pending_log n) (rsm n) (frames n) (heartbeat_guards n) (next_name n).
Definition set_state v n := MkRaftNode (stop_election n) (stop_leader n) v (config n) (reset_election_timeout n) (reset_heartbeat_timeout n) (raft_state n) (raft_log n) (commit_index n) (match_index n) (next_index n) (current_term_start_index n) (pending_requests n) (pending_log n) (rsm n) (frames n) (heartbeat_guards n) (next_name n).
Definition set_reset_election_timeout v n := MkRaftNode (stop_election n) (stop_leader n) (state n) (config n) v (reset_heartbeat_timeout n) (raft_state n) (raft_log n) (commit_index n) (match_index n) (next_index n) (current_term_start_index n) (pending_requests n) (pending_log n) (rsm n) (frames n) (heartbeat_guards n) (next_name n).
Definition set_reset_heartbeat_timeout v n := MkRaftNode (stop_election n) (stop_leader n) (state n) (config n) (reset_election_timeout n) v (raft_state n) (raft_log n) (commit_index n) (match_index n) (next_index n) (current_term_start_index n) (pending_requests n) (pending_log n) (rsm n) (frames n) (heartbeat_guards n) (next_name n).
Definition set_raft_state v n := MkRaftNode (stop_election n) (stop_leader n) (state n) (config n) (reset_election_timeout n) (reset_heartbeat_timeout n) v (raft_log n) (commit_index n) (match_index n) (next_index n) (current_term_start_index n) (pending_requests n) (pending_log n) (rsm n) (frames n) (heartbeat_guards n) (next_name n).
Definition set_raft_log v n := MkRaftNode (stop_election n) (stop_leader n) (state n) (config n) (reset_election_timeout n) (reset_heartbeat_timeout n) (raft_state n) v (commit_index n) (match_index n) (next_index n) (current_term_start_index n) (pending_requests n) (pending_log n) (rsm n) (frames n) (heartbeat_guards n) (next_name n).
Definition set_commit_index v n := MkRaftNode (stop_election n) (stop_leader n) (state n) (config n) (reset_election_timeout n) (reset_heartbeat_timeout n) (raft_state n) (raft_log n) v (match_index n) (next_index n) (current_term_start_index n) (pending_requests n) (pending_log n) (rsm n) (frames n) (heartbeat_guards n) (next_name n).
Definition set_match_index v n := MkRaftNode (stop_election n) (stop_leader n) (state n) (config n) (reset_election_timeout n) (reset_heartbeat_timeout n) (raft_state n) (raft_log n) (commit_index n) v (next_index n) (current_term_start_index n) (pending_requests n) (pending_log n) (rsm n) (frames n) (heartbeat_guards n) (next_name n).
Definition set_next_index v n := MkRaftNode (stop_election n) (stop_leader n) (state n) (config n) (reset_election_timeout n) (reset_heartbeat_timeout n) (raft_state n) (raft_log n) (commit_index n) (match_index n) v (current_term_start_index n) (pending_requests n) (pending_log n) (rsm n) (frames n) (heartbeat_guards n) (next_name n).
Definition set_current_term_start_index v n := MkRaftNode (stop_election n) (stop_leader n) (state n) (config n) (reset_election_timeout n) (reset_heartbeat_timeout n) (raft_state n) (raft_log n) (commit_index n) (match_index n) (next_index n) v (pending_requests n) (pending_log n) (rsm n) (frames n) (heartbeat_guards n) (next_name n).
Definition set_pending_requests v n := MkRaftNode (stop_election n) (stop_leader n) (state n) (config n) (reset_election_timeout n) (reset_heartbeat_timeout n) (raft_state n) (raft_log n) (commit_index n) (match_index n) (next_index n) (current_term_start_index n) v (pending_log n) (rsm n) (frames n) (heartbeat_guards n) (next_name n).
Definition set_pending_log v n := MkRaftNode (stop_election n) (stop_leader n) (state n) (config n) (reset_election_timeout n) (reset_heartbeat_timeout n) (raft_state n) (raft_log n) (commit_index n) (match_index n) (next_index n) (current_term_start_index n) (pending_requests n) v (rsm n) (frames n) (heartbeat_guards n) (next_name n).
Definition set_rsm v n := MkRaftNode (stop_election n) (stop_leader n) (state n) (config n) (reset_election_timeout n) (reset_heartbeat_timeout n) (raft_state n) (raft_log n) (commit_index n) (match_index n) (next_index n) (current_term_start_index n) (pending_requests n) (pending_log n) v (frames n) (heartbeat_guards n) (next_name n).
Definition set_frames v n := MkRaftNode (stop_election n) (stop_leader n) (state n) (config n) (reset_election_timeout n) (reset_heartbeat_timeout n) (raft_state n) (raft_log n) (commit_index n) (match_index n) (next_index n) (current_term_start_index n) (pending_requests n) (pending_log n) (rsm n) v (heartbeat_guards n) (next_name n).
Definition set_heartbeat_guards v n := MkRaftNode (stop_election n) (stop_leader n) (state n) (config n) (reset_election_timeout n) (reset_heartbeat_timeout n) (raft_state n) (raft_log n) (commit_index n) (match_index n) (next_index n) (current_term_start_index n) (pending_requests n) (pending_log n) (rsm n) (frames n) v (next_name n).
Definition set_next_name v n := MkRaftNode (stop_election n) (stop_leader n) (state n) (config n) (reset_election_timeout n) (reset_heartbeat_timeout n) (raft_state n) (raft_log n) (commit_index n) (match_index n) (next_index n) (current_term_start_index n) (pending_requests n) (pending_log n) (rsm n) (frames n) (heartbeat_guards n) v.

(** ** Stop sources *)

(** [x = rt::StopSource()]: a new, unstopped source. *)
Definition new_source (n : RaftNode) : StopSource := MkStopSource (next_name n) false.
Definition use_name (n : RaftNode) : RaftNode := set_next_name (S (next_name n)) n.

Definition stop (s : StopSource) : StopSource := MkStopSource (source_id s) true.

(** [replication_finished.Signal()] on a frame. *)
Definition signal_frame (f : Frame) : Frame :=
  MkFrame (new_log_index f) (frame_term f) (finish_guard f) true (frame_result f).

(** [stop_leader.Stop()] runs the registered callbacks: the [finish_guard]s
    signal their requests, and the guards of the suspended sessions stop
    [reset_heartbeat_timeout]. *)
Definition Stop_leader (n : RaftNode) : RaftNode :=
  let s := stop_leader n in
  let n := set_stop_leader (stop s) n in
  let n := set_frames ((λ f, if decide (finish_guard f = source_id s) then signal_frame f else f)
                         <$> frames n) n in
  if decide (heartbeat_guards n = ∅) then n
  else set_reset_heartbeat_timeout (stop (reset_heartbeat_timeout n)) n.

(** A session suspends with a guard on [stop_leader]; the guard runs at once
    if [stop_leader] is already stopped. *)
Definition add_heartbeat_guard (id : nat) (n : RaftNode) : RaftNode :=
  if stopped (stop_leader n)
  then set_reset_heartbeat_timeout (stop (reset_heartbeat_timeout n)) n
  else set_heartbeat_guards ({[id]} ∪ heartbeat_guards n) n.

(** ** Accessors *)

Definition nodes_count (n : RaftNode) : nat := length (raft_nodes (config n)).

Definition MajorityCount (n : RaftNode) : nat := (nodes_count n / 2 + 1)%nat.

Definition GetLastSavedLogTerm (n : RaftNode) : Z :=
  match kv_Last (raft_log n) with
  | Some (_, entry) => entry_term entry
  | None => 0
  end.

Definition GetSavedLogSize (n : RaftNode) : Z :=
  match kv_Last (raft_log n) with
  | Some (key, _) => key
  | None => 0
  end.

Definition GetLogEntry (n : RaftNode) (index : Z) : outcome LogEntry :=
  let saved_log_size := GetSavedLogSize n in
  verify (bool_decide (0 < index ∧ index ≤ saved_log_size +64 Z.of_nat (length (pending_log n))))
    "Invalid log index";;
  if decide (index ≤ saved_log_size) then GetValue (kv_Get (raft_log n) index)
  else vec_get (pending_log n) (Z.to_nat (index -64 saved_log_size -64 1)).

Definition GetCurrentTerm (n : RaftNode) : outcome Z :=
  GetValue (kv_Get (raft_state n) "current_term").

Definition GetVotedFor (n : RaftNode) : option Z :=
  match kv_Get (raft_state n) "voted_for" with
  | Err _ => None
  | Ok v => Some v
  end.

Definition UpdateTerm (term : Z) (voted_for : option Z) (n : RaftNode) : outcome RaftNode :=
  current ← GetCurrentTerm n;
  verify (bool_decide (current < term)) "Invalid update term";;
  let db := kv_Put "current_term" term (raft_state n) in
  let db := match voted_for with
            | Some v => kv_Put "voted_for" v db
            | None => kv_Delete "voted_for" db
            end in
  Done (set_raft_state db n).

(** ** Constructor *)

Definition RaftNode_new (sm : sm_state) (cfg : RaftConfig)
    (state_db : gmap string Z) (log_db : gmap Z LogEntry) : RaftNode :=
  let state_db := match kv_Get state_db "current_term" with
                  | Err _ => kv_Put "current_term" 0 state_db
                  | Ok _ => state_db
                  end in
  {| stop_election := MkStopSource 0 false; stop_leader := MkStopSource 1 false;
     state := Follower; config := cfg;
     reset_election_timeout := MkStopSource 2 false;
     reset_heartbeat_timeout := MkStopSource 3 false;
     raft_state := state_db; raft_log := log_db; commit_index := 0;
     match_index := []; next_index := []; current_term_start_index := 0;
     pending_requests := ∅; pending_log := []; rsm := ExactlyOnce_new sm;
     frames := ∅; heartbeat_guards := ∅; next_name := 4 |}.

(** ** Change of state *)

Definition BecomeLeader (n : RaftNode) : outcome RaftNode :=
  verify (bool_decide (state n = Candidate)) "Invalid state";;
  let n := set_pending_log [] n in
  let n := set_current_term_start_index (GetSavedLogSize n +64 1) n in
  let n := set_next_index (replicate (nodes_count n) (GetSavedLogSize n +64 1)) n in
  let n := set_match_index (replicate (nodes_count n) 0) n in
  let src := new_source n in let n := use_name n in
  let n := set_reset_heartbeat_timeout src n in
  let src := new_source n in let n := use_name n in
  let n := set_stop_leader src n in
  let n := set_stop_election (stop (stop_election n)) n in
  Done (set_state Leader n).

Definition BecomeFollower (n : RaftNode) : outcome RaftNode :=
  verify (bool_decide (state n ≠ Follower)) "Invalid state";;
  let n := match state n with
           | Leader => Stop_leader n
           | Candidate => set_stop_election (stop (stop_election n)) n
           | Follower => n
           end in
  Done (set_state Follower n).

Definition BecomeCandidate (n : RaftNode) : outcome RaftNode :=
  verify (bool_decide (state n = Follower)) "Invalid state";;
  let n := set_reset_election_timeout (stop (reset_election_timeout n)) n in
  Done (set_state Candidate n).

(** ** Commit index *)

Definition match_count (n : RaftNode) (index : Z) : outcome nat :=
  for_each (seq 0 (nodes_count n)) (λ id count,
    m ← vec_get (match_index n) id;
    Done (if decide (index ≤ m) then S count else count)) 0%nat.

(** The search loop of [UpdateCommitIndex]; the fuel bounds the number of
    indices above [commit_index]. *)
Fixpoint find_commit (fuel : nat) (n : RaftNode) (index : Z) : outcome Z :=
  match fuel with
  | O => Done (commit_index n)
  | S fuel =>
      if decide (commit_index n < index ∧ current_term_start_index n ≤ index) then
        count ← match_count n index;
        if decide (MajorityCount n ≤ count)%nat then Done index
        else find_commit fuel n (index - 1)
      else Done (commit_index n)
  end.

(** Body of the loop that applies a newly committed entry and wakes the
    request that waits for it. *)
Definition apply_committed (index : Z) (n : RaftNode) : outcome RaftNode :=
  entry ← GetValue (kv_Get (raft_log n) index);
  let '(result, rsm') := ExactlyOnce_Apply (entry_request entry) (rsm n) in
  let n := set_rsm rsm' n in
  match pending_requests n !! index with
  | None => Done n
  | Some ptr =>
      match frames n !! ptr with
      | None => Undefined "dangling pending request"
      | Some f =>
          Done (set_frames (<[ptr := MkFrame (new_log_index f) (frame_term f) (finish_guard f)
                                       true result]> (frames n)) n)
      end
  end.

Definition UpdateCommitIndex (n : RaftNode) : outcome RaftNode :=
  new_commit_index ←
    find_commit (Z.to_nat (GetSavedLogSize n - commit_index n)) n (GetSavedLogSize n);
  n ← for_each (range (commit_index n + 1) (new_commit_index + 1)) apply_committed n;
  Done (set_commit_index new_commit_index n).

(** ** API *)

(** [Execute] up to the [Await]: an immediate response, or the name of the
    frame that waits for replication. *)
Definition Execute_begin (request : Request) (n : RaftNode)
    : outcome ((Response + nat) * RaftNode) :=
  if decide (state n ≠ Leader) then Done (inl (MkResponse NotALeader any_default), n)
  else
    let self := node_id (config n) in
    index ← vec_get (next_index n) self;
    next ← vec_set (next_index n) self (index +64 1);
    let n := set_next_index next n in
    current_term ← GetCurrentTerm n;
    let n := set_pending_log (pending_log n ++ [MkLogEntry current_term request]) n in
    (* [finish_guard] signals at once if [stop_leader] is already stopped *)
    let frame := MkFrame index current_term (source_id (stop_leader n))
                   (stopped (stop_leader n)) any_default in
    let id := next_name n in
    let n := use_name (set_frames (<[id := frame]> (frames n)) n) in
    let n := set_pending_requests (<[index := id]> (pending_requests n)) n in
    let n := set_reset_heartbeat_timeout (stop (reset_heartbeat_timeout n)) n in
    let src := new_source n in let n := use_name n in
    let n := set_reset_heartbeat_timeout src n in
    Done (inr id, n).

(** The [Await] of a frame returns once its event is signalled. *)
Definition Execute_ready (id : nat) (n : RaftNode) : bool :=
  match frames n !! id with
  | Some f => replication_finished f
  | None => false
  end.

(** [Execute] after the [Await]; the frame is destroyed on return. *)
Definition Execute_finish (id : nat) (n : RaftNode) : outcome (Response * RaftNode) :=
  match frames n !! id with
  | None => Undefined "no such frame"
  | Some f =>
      let n := set_pending_requests (delete (new_log_index f) (pending_requests n)) n in
      current_term ← GetCurrentTerm n;
      let n' := set_frames (delete id (frames n)) n in
      if decide (frame_term f ≠ current_term) then
        Done (MkResponse NotALeader any_default, n')
      else
        verify (bool_decide (state n = Leader)) "Invalid session state";;
        Done (MkResponse Commited (frame_result f), n')
  end.

(** ** Internal RPCs *)

(** Body of the loop that compares the entries the leader sends with the
    committed entries of the log. *)
Definition check_committed (request : AppendEntriesRequest) (index : Z) (n : RaftNode)
    : outcome RaftNode :=
  value_from_log ← GetValue (kv_Get (raft_log n) index);
  value_from_request ← vec_get (ae_entries request)
    (Z.to_nat (index -64 ae_prev_log_index request -64 1));
  verify (MessageDifferencer_Equals value_from_request value_from_log)
    "invalid state: committed log is inconsistent";;
  Done n.

(** The write batch: everything above the kept prefix is deleted, then the
    entries of the request above the kept prefix are stored. *)
Definition append_batch (request : AppendEntriesRequest) (n : RaftNode)
    : list (batch_command LogEntry) :=
  let first := (ae_prev_log_index request `max` commit_index n) +64 1 in
  BatchDeleteRange first u64_max ::
  imap (λ k entry, BatchPut (first + Z.of_nat k) entry)
    (drop (Z.to_nat (first -64 ae_prev_log_index request -64 1)) (ae_entries request)).

(** A request of the current or a later term: the election timer is reset,
    the node follows the sender and adopts its term. *)
Definition AppendEntries_follow (request : AppendEntriesRequest) (n : RaftNode)
    : outcome RaftNode :=
  let n := set_reset_election_timeout (stop (reset_election_timeout n)) n in
  current_term ← GetCurrentTerm n;
  n ← (if decide (current_term ≤ ae_term request ∧ state n ≠ Follower)
       then BecomeFollower n else Done n);
  current_term ← GetCurrentTerm n;
  if decide (current_term < ae_term request)
  then UpdateTerm (ae_term request) None n else Done n.

(** Whether the log has the entry the new entries are to follow. *)
Definition AppendEntries_matches (request : AppendEntriesRequest) (n : RaftNode)
    : outcome bool :=
  verify (bool_decide (ae_prev_log_index request ≠ 0 ∨ ae_prev_log_term request = 0))
    "invalid prev_log_term";;
  if decide (GetSavedLogSize n < ae_prev_log_index request) then Done false
  else if decide (ae_prev_log_index request ≠ 0) then
    entry ← GetValue (kv_Get (raft_log n) (ae_prev_log_index request));
    Done (bool_decide (entry_term entry = ae_prev_log_term request))
  else Done true.

(** Body of the loop that applies the entries a follower learns to be
    committed. *)
Definition follower_apply (index : Z) (n : RaftNode) : outcome RaftNode :=
  entry ← GetValue (kv_Get (raft_log n) index);
  Done (set_rsm (ExactlyOnce_Apply (entry_request entry) (rsm n)).2 n).

(** Store the entries of an accepted request and advance the commit index. *)
Definition AppendEntries_store (request : AppendEntriesRequest) (n : RaftNode)
    : outcome RaftNode :=
  n ← for_each
        (range (ae_prev_log_index request + 1)
           ((commit_index n `min`
             (ae_prev_log_index request + Z.of_nat (length (ae_entries request)))) + 1))
        (check_committed request) n;
  let n := set_raft_log (kv_Write (append_batch request n) (raft_log n)) n in
  let new_commit_index :=
    commit_index n `max` (ae_leader_commit request `min` GetSavedLogSize n) in
  n ← for_each (range (commit_index n + 1) (new_commit_index + 1)) follower_apply n;
  Done (set_commit_index new_commit_index n).

Definition AppendEntries (request : AppendEntriesRequest) (n : RaftNode)
    : outcome (AppendEntriesResult * RaftNode) :=
  current_term ← GetCurrentTerm n;
  let result success := MkAppendEntriesResult current_term success in
  if decide (ae_term request < current_term) then Done (result false, n) else
  n ← AppendEntries_follow request n;
  ok ← AppendEntries_matches request n;
  if negb ok then Done (result false, n) else
  n ← AppendEntries_store request n;
  Done (result true, n).

Definition RequestVote (request : RequestVoteRequest) (n : RaftNode)
    : outcome (RequestVoteResult * RaftNode) :=
  current_term ← GetCurrentTerm n;
  let reply b := MkRequestVoteResult current_term b in
  if decide (rv_term request < current_term) then Done (reply false, n) else
  n ← (if decide (current_term < rv_term request) then
         n ← UpdateTerm (rv_term request) None n;
         if decide (state n ≠ Follower) then BecomeFollower n else Done n
       else Done n);
  let voted_for := GetVotedFor n in
  if decide (voted_for = Some (rv_candidate_id request)) then Done (reply true, n) else
  if decide (voted_for ≠ None) then Done (reply false, n) else
  let last_log_term := GetLastSavedLogTerm n in
  let granted :=
    if decide (rv_last_log_term request < last_log_term) then false
    else if decide (last_log_term = rv_last_log_term request)
    then bool_decide (GetSavedLogSize n ≤ rv_last_log_index request)
    else true in
  let n := if granted
           then set_raft_state (kv_Put "voted_for" (rv_candidate_id request) (raft_state n)) n
           else n in
  Done (reply granted, n).

(** ** Leader sessions *)

(** [StartLeaderMainSession] before its loop. *)
Definition LeaderMainSession_start (n : RaftNode) : outcome RaftNode :=
  m ← vec_set (match_index n) (node_id (config n)) (GetSavedLogSize n);
  Done (set_match_index m n).

Definition pending_batch (base : Z) (entries : list LogEntry) : list (batch_command LogEntry) :=
  imap (λ k entry, BatchPut (base +64 Z.of_nat k +64 1) entry) entries.

(** One iteration of the loop of [StartLeaderMainSession], up to the [Await]
    of [wake_up]. *)
Definition LeaderMainSession_iteration (n : RaftNode) : outcome RaftNode :=
  let self := node_id (config n) in
  base ← vec_get (match_index n) self;
  let n := set_raft_log (kv_Write (pending_batch base (pending_log n)) (raft_log n)) n in
  m ← vec_set (match_index n) self (base +64 Z.of_nat (length (pending_log n)));
  let n := set_match_index m n in
  let n := set_pending_log [] n in
  n ← UpdateCommitIndex n;
  Done (add_heartbeat_guard self n).

(** A suspended session resumes; its guards are destroyed. *)
Definition Session_resume (id : nat) (n : RaftNode) : RaftNode :=
  set_heartbeat_guards (heartbeat_guards n ∖ {[id]}) n.

(** The request a node session builds at the top of its loop. *)
Definition LeaderNodeSession_request (id : nat) (n : RaftNode)
    : outcome AppendEntriesRequest :=
  next ← vec_get (next_index n) id;
  verify (bool_decide (1 ≤ next)) "invalid next_index";;
  term ← GetCurrentTerm n;
  prev_log_term ← (if decide (next = 1) then Done 0
                   else entry_term <$> GetValue (kv_Get (raft_log n) (next -64 1)));
  self_next ← vec_get (next_index n) (node_id (config n));
  entries ← for_each (range next self_next) (λ index acc,
    entry ← GetLogEntry n index; Done (acc ++ [entry])) [];
  Done (MkAppendEntries term (Z.of_nat (node_id (config n))) (next -64 1) prev_log_term
          entries (commit_index n)).

(** What the session does after a response. *)
Inductive session_next : Type :=
  | SessionContinue      (** back to the loop condition *)
  | SessionJoinTimeout   (** wait for [request_timeout], then the loop condition *)
  | SessionSleep.        (** sleep for [heart_beat_period] *)

(** The rest of the iteration, once the RPC has returned [result]. *)
Definition LeaderNodeSession_response (id : nat) (request : AppendEntriesRequest)
    (result : Result AppendEntriesResult RpcError) (n : RaftNode)
    : outcome (session_next * RaftNode) :=
  if decide (state n ≠ Leader) then Done (SessionContinue, n) else
  match result with
  | Err _ => Done (SessionJoinTimeout, n)
  | Ok response =>
      current ← GetCurrentTerm n;
      if decide (current < aer_term response) then
        n ← UpdateTerm (aer_term response) None n;
        n ← (if decide (state n ≠ Follower) then BecomeFollower n else Done n);
        Done (SessionContinue, n)
      else
      next ← vec_get (next_index n) id;
      if negb (aer_success response) then
        verify (bool_decide (2 ≤ next)) "invalid state";;
        next' ← vec_set (next_index n) id (next -64 1);
        Done (SessionContinue, set_next_index next' n)
      else
        let count := Z.of_nat (length (ae_entries request)) in
        m ← vec_set (match_index n) id (ae_prev_log_index request +64 count);
        next' ← vec_set (next_index n) id (next +64 count);
        let n := set_next_index next' (set_match_index m n) in
        n ← UpdateCommitIndex n;
        mine ← vec_get (next_index n) (node_id (config n));
        his ← vec_get (next_index n) id;
        if decide (his = mine) then
          Done (SessionSleep, add_heartbeat_guard id n)
        else Done (SessionContinue, n)
  end.

(** [StartLeader] after its sessions have been joined. *)
Definition StartLeader_end (n : RaftNode) : RaftNode := set_pending_log [] n.

(** ** Follower and candidate *)

(** [StartFollower] up to the sleep. *)
Definition StartFollower_begin (n : RaftNode) : RaftNode :=
  let src := new_source n in let n := use_name n in set_reset_election_timeout src n.

(** [StartFollower] after the sleep; [SleepFor] returns whether the token it
    was given is stopped. *)
Definition StartFollower_end (n : RaftNode) : outcome RaftNode :=
  if stopped (reset_election_timeout n) then Done n else BecomeCandidate n.

(** [StartCandidate] up to the requests: [votes_count] starts at 1. *)
Definition StartCandidate_begin (n : RaftNode) : outcome (RequestVoteRequest * RaftNode) :=
  let src := new_source n in let n := use_name n in
  let n := set_stop_election src n in
  current ← GetCurrentTerm n;
  n ← UpdateTerm (current +64 1) (Some (Z.of_nat (node_id (config n)))) n;
  term ← GetCurrentTerm n;
  Done (MkRequestVote term (Z.of_nat (node_id (config n))) (GetSavedLogSize n)
          (GetLastSavedLogTerm n), n).

(** The fiber of one vote request, once the RPC has returned. *)
Definition StartCandidate_vote (result : Result RequestVoteResult RpcError)
    (votes_count : nat) (n : RaftNode) : outcome (nat * RaftNode) :=
  match result with
  | Err _ => Done (votes_count, n)
  | Ok r =>
      current ← GetCurrentTerm n;
      if decide (current < rvr_term r) then
        n ← UpdateTerm (rvr_term r) None n;
        n ← (if decide (state n ≠ Follower) then BecomeFollower n else Done n);
        Done (votes_count, n)
      else if negb (rvr_vote_granted r) then Done (votes_count, n)
      else
        let votes_count := S votes_count in
        if decide (votes_count = MajorityCount n ∧ state n = Candidate) then
          n ← BecomeLeader n; Done (votes_count, n)
        else Done (votes_count, n)
  end.
End raft.
