(* ===== verification/RaftProcess.v ===== *)
(** * The fibers of a Raft node

    [RaftNode::StartNode] runs forever in the main fiber and calls
    [StartFollower], [StartCandidate] or [StartLeader]; these suspend, and
    [StartCandidate] and [StartLeader] start and join further fibers
    (src/raft/node/node.cpp, [RunMain] starts the server and the main fiber).
    A [Process] is the state of the node together with where its fibers are;
    [process_step] runs one fiber (or one RPC handler) from one suspension
    point to the next. The RPC handlers run in fibers of the server. *)

From S2P Require Import Prelude.
From S2P Require Import Result.
From S2P Require Import RtTypes.
From S2P Require Import KVInterface.
From S2P Require Import StateMachine.
From S2P Require Import RaftNode.

Local Open Scope Z_scope.

Section process.
Context {AM : AnyMessage} {SM : IStateMachine}.
Variable MessageDifferencer_Equals : LogEntry → LogEntry → bool.

(** A fiber of [StartLeaderNodeSession]. *)
Inductive session : Type :=
  | SessionReady                              (** at the loop condition, or asleep before it *)
  | SessionCalling (request : AppendEntriesRequest)  (** suspended in the RPC *)
  | SessionDone.

(** The fiber of [StartLeaderMainSession]. *)
Inductive main_session : Type := MainNew | MainWaiting | MainDone.

(** The main fiber. *)
Inductive fiber : Type :=
  | InLoop                                    (** at the [switch] of [StartNode] *)
  | InFollower                                (** asleep in [StartFollower] *)
  | InCandidate (votes_count : nat) (request_vote : RequestVoteRequest) (waiting : gset nat)
  | InLeader (main : main_session) (sessions : gmap nat session).

Record Process : Type := MkProcess { node : RaftNode; main_fiber : fiber }.

Inductive event : Type :=
  | RunLoop
  | FollowerWakes
  | VoteReturns (id : nat) (result : Result RequestVoteResult RpcError)
  | ElectionEnds
  | MainSessionRuns
  | SessionRuns (id : nat)
  | AppendReturns (id : nat) (result : Result AppendEntriesResult RpcError)
  | LeaderEnds
  | HandleExecute (request : Request)
  | ExecuteResumes (id : nat)
  | HandleAppendEntries (request : AppendEntriesRequest)
  | HandleRequestVote (request : RequestVoteRequest).

(** What a step hands to the RPC layer. *)
Inductive output : Type :=
  | Silent
  | CallRequestVote (targets : list nat) (request : RequestVoteRequest)
  | CallAppendEntries (target : nat) (request : AppendEntriesRequest)
  | ReplyExecute (response : Response)
  | ReplyAppendEntries (result : AppendEntriesResult)
  | ReplyRequestVote (result : RequestVoteResult).

(** All nodes but this one, in the order of the loops over [raft_nodes]. *)
Definition other_nodes (n : RaftNode) : list nat :=
  filter (λ id, id ≠ node_id (config n)) (seq 0 (nodes_count n)).

(** [switch (state)] of [StartNode], with the part of the called method that
    runs before it first suspends. *)
Definition run_loop (n : RaftNode) : outcome (output * Process) :=
  match state n with
  | Leader =>
      Done (Silent, MkProcess n
        (InLeader MainNew (list_to_map ((λ id, (id, SessionReady)) <$> other_nodes n))))
  | Follower => Done (Silent, MkProcess (StartFollower_begin n) InFollower)
  | Candidate =>
      '(request, n) ← StartCandidate_begin n;
      Done (CallRequestVote (other_nodes n) request,
            MkProcess n (InCandidate 1 request (list_to_set (other_nodes n))))
  end.

(** [while (state == State::Leader)] of [StartLeaderMainSession]. *)
Definition main_session_loop (n : RaftNode) : outcome (main_session * RaftNode) :=
  if decide (state n = Leader) then
    n ← LeaderMainSession_iteration n; Done (MainWaiting, n)
  else Done (MainDone, n).

Definition main_session_run (main : main_session) (n : RaftNode)
    : option (outcome (main_session * RaftNode)) :=
  match main with
  | MainNew => Some (n ← LeaderMainSession_start n; main_session_loop n)
  | MainWaiting => Some (main_session_loop (Session_resume (node_id (config n)) n))
  | MainDone => None
  end.

Definition session_done (s : session) : bool :=
  match s with SessionDone => true | _ => false end.

(** [process_step ev p] is [None] when the fiber that [ev] names cannot run. *)
Definition process_step (ev : event) (p : Process) : option (outcome (output * Process)) :=
  let n := node p in
  let fb := main_fiber p in
  match ev, fb with
  | RunLoop, InLoop => Some (run_loop n)
  | FollowerWakes, InFollower =>
      Some (n ← StartFollower_end n; Done (Silent, MkProcess n InLoop))
  | VoteReturns id result, InCandidate votes request waiting =>
      if decide (id ∈ waiting) then
        Some ('(votes, n) ← StartCandidate_vote result votes n;
              Done (Silent, MkProcess n (InCandidate votes request (waiting ∖ {[id]}))))
      else None
  | ElectionEnds, InCandidate _ _ waiting =>
      if decide (waiting = ∅) then Some (Done (Silent, MkProcess n InLoop)) else None
  | MainSessionRuns, InLeader main sessions =>
      m ← main_session_run main n;
      Some ('(main, n) ← m; Done (Silent, MkProcess n (InLeader main sessions)))
  | SessionRuns id, InLeader main sessions =>
      match sessions !! id with
      | Some SessionReady =>
          let n := Session_resume id n in
          Some (if decide (state n = Leader) then
                  request ← LeaderNodeSession_request id n;
                  Done (CallAppendEntries id request,
                        MkProcess n (InLeader main (<[id := SessionCalling request]> sessions)))
                else Done (Silent, MkProcess n (InLeader main (<[id := SessionDone]> sessions))))
      | _ => None
      end
  | AppendReturns id result, InLeader main sessions =>
      match sessions !! id with
      | Some (SessionCalling request) =>
          Some ('(_, n) ← LeaderNodeSession_response id request result n;
                Done (Silent, MkProcess n (InLeader main (<[id := SessionReady]> sessions))))
      | _ => None
      end
  | LeaderEnds, InLeader MainDone sessions =>
      if decide (map_Forall (λ _ s, session_done s = true) sessions)
      then Some (Done (Silent, MkProcess (StartLeader_end n) InLoop))
      else None
  | HandleExecute request, _ =>
      Some ('(r, n) ← Execute_begin request n;
            Done (match r with inl response => ReplyExecute response | inr _ => Silent end,
                  MkProcess n fb))
  | ExecuteResumes id, _ =>
      if Execute_ready id n
      then Some ('(response, n) ← Execute_finish id n; Done (ReplyExecute response, MkProcess n fb))
      else None
  | HandleAppendEntries request, _ =>
      Some ('(result, n) ← AppendEntries MessageDifferencer_Equals request n;
            Done (ReplyAppendEntries result, MkProcess n fb))
  | HandleRequestVote request, _ =>
      Some ('(result, n) ← RequestVote request n;
            Done (ReplyRequestVote result, MkProcess n fb))
  | _, _ => None
  end.

(** [RunMain] on databases that may hold the state of an earlier run: the
    node is constructed and its main fiber enters [StartNode]. *)
Definition RunMain (sm : sm_state) (cfg : RaftConfig)
    (state_db : gmap string Z) (log_db : gmap Z LogEntry) : Process :=
  MkProcess (RaftNode_new sm cfg state_db log_db) InLoop.

(** A crash loses everything but the databases. *)
Definition restart (sm : sm_state) (p : Process) : Process :=
  RunMain sm (config (node p)) (raft_state (node p)) (raft_log (node p)).
End process.
