(* ===== verification/RaftNodeProps.v ===== *)
(** * The Raft node: effect of the operations

    For every operation of RaftNode.v, which fields it changes and how the
    term, the vote and the role evolve. These lemmas carry the invariants of
    RaftInvariant.v and the cluster proofs of RaftElection.v and
    RaftLogMatching.v. *)

From S2P Require Import Prelude.
From S2P Require Import Result.
From S2P Require Import RtTypes.
From S2P Require Import KVInterface.
From S2P Require Import StateMachine.
From S2P Require Import RaftNode.

Local Open Scope Z_scope.

Section props.
Context {AM : AnyMessage} {SM : IStateMachine}.
Implicit Types n : RaftNode.

(** ** The persistent view *)

Definition term n : Z := default 0 (raft_state n !! "current_term").
Definition vote n : option Z := raft_state n !! "voted_for".
Definition has_term n : Prop := is_Some (raft_state n !! "current_term").

Lemma GetCurrentTerm_Done n t :
  GetCurrentTerm n = Done t ↔ has_term n ∧ term n = t.
Proof.
  unfold GetCurrentTerm, has_term, term. rewrite kv_Get_value.
  split; [intros ->; eauto|]. by intros [[t' ->] <-].
Qed.

Lemma GetVotedFor_vote n : GetVotedFor n = vote n.
Proof. unfold GetVotedFor, vote, kv_Get. by destruct (raft_state n !! "voted_for"). Qed.

Lemma UpdateTerm_shape t v n n' :
  UpdateTerm t v n = Done n' →
  ∃ db, n' = set_raft_state db n ∧ has_term n ∧ term n < t ∧
    has_term n' ∧ term n' = t ∧ vote n' = v.
Proof.
  unfold UpdateTerm. intros H. outcome_inv.
  match goal with H : GetCurrentTerm _ = _ |- _ => apply GetCurrentTerm_Done in H as [Ht <-] end.
  eexists. split; [done|]. unfold has_term, term, vote. simpl. split_and!; [done..| | |].
  - destruct v; unfold kv_Put, kv_Delete;
      rewrite ?lookup_insert_ne, ?lookup_delete_ne, ?lookup_insert_eq by done; eauto.
  - destruct v; unfold kv_Put, kv_Delete;
      rewrite ?lookup_insert_ne, ?lookup_delete_ne, ?lookup_insert_eq by done; done.
  - destruct v; unfold kv_Put, kv_Delete; by rewrite ?lookup_insert_eq, ?lookup_delete_eq.
Qed.

Lemma UpdateTerm_total t v n :
  has_term n → term n < t → ∃ n', UpdateTerm t v n = Done n'.
Proof.
  intros Ht Hlt. unfold UpdateTerm.
  rewrite (proj2 (GetCurrentTerm_Done n (term n)) (conj Ht eq_refl)). simpl.
  rewrite bool_decide_eq_true_2 by done. simpl. eauto.
Qed.

(** ** Changes of role *)

(** Everything but the role, the stop sources and the suspended requests. *)
Definition same_data n n' : Prop :=
  config n' = config n ∧ raft_state n' = raft_state n ∧ raft_log n' = raft_log n ∧
  commit_index n' = commit_index n ∧ rsm n' = rsm n ∧ pending_log n' = pending_log n ∧
  pending_requests n' = pending_requests n ∧ match_index n' = match_index n ∧
  next_index n' = next_index n ∧ current_term_start_index n' = current_term_start_index n.

Lemma same_data_refl n : same_data n n.
Proof. by split_and!. Qed.

Lemma Stop_leader_data n : same_data n (Stop_leader n) ∧ state (Stop_leader n) = state n.
Proof. unfold Stop_leader. simpl. case_decide; by split_and!. Qed.

Lemma BecomeFollower_shape n n' :
  BecomeFollower n = Done n' →
  state n ≠ Follower ∧ state n' = Follower ∧ same_data n n'.
Proof.
  unfold BecomeFollower. intros H. outcome_inv. split_and!; [done|done|].
  pose proof (Stop_leader_data n) as [Hsl _]. destruct (state n); simpl; try done; by split_and!.
Qed.

Lemma BecomeFollower_total n : state n ≠ Follower → ∃ n', BecomeFollower n = Done n'.
Proof. intros H. unfold BecomeFollower. rewrite bool_decide_eq_true_2 by done. simpl. eauto. Qed.

(** [if (state != State::Follower) BecomeFollower();] *)
Lemma step_down_shape n n' :
  (if decide (state n ≠ Follower) then BecomeFollower n else Done n) = Done n' →
  state n' = Follower ∧ same_data n n'.
Proof.
  case_decide as Hs; intros H.
  - by apply BecomeFollower_shape in H as (_ & ? & ?).
  - outcome_inv. split; [by destruct (decide (state n' = Follower))|apply same_data_refl].
Qed.

Lemma BecomeLeader_shape n n' :
  BecomeLeader n = Done n' →
  state n = Candidate ∧ state n' = Leader ∧ config n' = config n ∧
  raft_state n' = raft_state n ∧ raft_log n' = raft_log n ∧ commit_index n' = commit_index n ∧
  rsm n' = rsm n ∧ pending_log n' = [] ∧ pending_requests n' = pending_requests n ∧
  frames n' = frames n ∧
  current_term_start_index n' = GetSavedLogSize n +64 1 ∧
  next_index n' = replicate (nodes_count n) (GetSavedLogSize n +64 1) ∧
  match_index n' = replicate (nodes_count n) 0.
Proof. unfold BecomeLeader. intros H. outcome_inv. by split_and!. Qed.

Lemma BecomeCandidate_shape n n' :
  BecomeCandidate n = Done n' →
  state n = Follower ∧ state n' = Candidate ∧ same_data n n'.
Proof. unfold BecomeCandidate. intros H. outcome_inv. by split_and!. Qed.

(** ** Commit loops *)

Lemma node_eta n : n = set_frames (frames n) (set_rsm (rsm n) n).
Proof. by destruct n. Qed.

Lemma apply_committed_shape i n n' :
  apply_committed i n = Done n' →
  ∃ e f, raft_log n !! i = Some e ∧
    n' = set_frames f (set_rsm (ExactlyOnce_Apply (entry_request e) (rsm n)).2 n).
Proof.
  unfold apply_committed. intros H. outcome_inv.
  match goal with H : GetValue _ = _ |- _ => apply kv_Get_value in H end.
  destruct (ExactlyOnce_Apply _ _) as [res r'] eqn:Happ. simpl in *.
  destruct (pending_requests n !! i) as [ptr|].
  - destruct (frames n !! ptr); outcome_inv. eexists _, _. split; [done|]. by rewrite Happ.
  - outcome_inv. eexists _, (frames n). split; [done|]. rewrite Happ. by destruct n.
Qed.

Lemma apply_loop_shape ixs n n' :
  for_each ixs apply_committed n = Done n' → ∃ r f, n' = set_frames f (set_rsm r n).
Proof.
  intros H. refine (for_each_inv (λ _ m, ∃ r f, m = set_frames f (set_rsm r n)) _ _ _ _ H _ _).
  - eexists _, _. apply node_eta.
  - intros i ixs' m1 m2 (r & f & ->) Hap.
    apply apply_committed_shape in Hap as (e & f' & _ & ->). by eexists _, _.
Qed.

Lemma UpdateCommitIndex_shape n n' :
  UpdateCommitIndex n = Done n' →
  ∃ c r f, n' = set_commit_index c (set_frames f (set_rsm r n)) ∧
    find_commit (Z.to_nat (GetSavedLogSize n - commit_index n)) n (GetSavedLogSize n) = Done c.
Proof.
  unfold UpdateCommitIndex. intros H. outcome_inv.
  match goal with H : for_each _ _ _ = _ |- _ => apply apply_loop_shape in H as (r & f & ->) end.
  by eexists _, _, _.
Qed.

Lemma follower_loop_shape ixs n n' :
  for_each ixs follower_apply n = Done n' → ∃ r, n' = set_rsm r n.
Proof.
  intros H. refine (for_each_inv (λ _ m, ∃ r, m = set_rsm r n) _ _ _ _ H _ _).
  - exists (rsm n). by destruct n.
  - intros i ixs' m1 m2 (r & ->) Hap. unfold follower_apply in Hap. outcome_inv. by eexists.
Qed.

(** ** AppendEntries *)

Variable MessageDifferencer_Equals : LogEntry → LogEntry → bool.

Lemma check_loop_shape req ixs n n' :
  for_each ixs (check_committed MessageDifferencer_Equals req) n = Done n' → n' = n.
Proof.
  intros H. refine (for_each_inv (λ _ m, m = n) _ _ _ _ H _ _); [done|].
  intros i ixs' m1 m2 -> Hap. unfold check_committed in Hap. by outcome_inv.
Qed.

(** The log after an accepted request. *)
Definition appended_log (req : AppendEntriesRequest) n : gmap Z LogEntry :=
  kv_Write (append_batch req n) (raft_log n).

Definition new_commit (req : AppendEntriesRequest) n : Z :=
  commit_index n `max`
    (ae_leader_commit req `min` GetSavedLogSize (set_raft_log (appended_log req n) n)).

Lemma AppendEntries_store_shape req n n' :
  AppendEntries_store MessageDifferencer_Equals req n = Done n' →
  ∃ r, n' = set_commit_index (new_commit req n)
              (set_rsm r (set_raft_log (appended_log req n) n)).
Proof.
  unfold AppendEntries_store. intros H. outcome_inv.
  match goal with H : for_each _ (check_committed _ _) _ = _ |- _ =>
    apply check_loop_shape in H; subst end.
  match goal with H : for_each _ follower_apply _ = _ |- _ =>
    apply follower_loop_shape in H as (r & ->) end.
  by exists r.
Qed.

Lemma AppendEntries_follow_shape req n n' :
  AppendEntries_follow req n = Done n' →
  term n ≤ ae_term req →
  has_term n ∧ has_term n' ∧ state n' = Follower ∧ term n' = ae_term req ∧
  vote n' = (if decide (term n < ae_term req) then None else vote n) ∧
  config n' = config n ∧ raft_log n' = raft_log n ∧ commit_index n' = commit_index n ∧
  rsm n' = rsm n ∧ pending_log n' = pending_log n ∧ pending_requests n' = pending_requests n.
Proof.
  unfold AppendEntries_follow. intros H Hle. outcome_inv.
  set (n0 := set_reset_election_timeout _ n) in *.
  match goal with H : GetCurrentTerm n0 = _ |- _ =>
    apply GetCurrentTerm_Done in H as [Ht0 <-] end.
  match goal with H : (if _ then BecomeFollower n0 else _) = Done ?m |- _ =>
    rename m into n1; rename H into Hbf end.
  assert (Hn1 : state n1 = Follower ∧ same_data n0 n1).
  { case_if Hbf as [Hd|Hd]; [by apply BecomeFollower_shape in Hbf as (_ & ? & ?)|].
    split; [|apply same_data_refl].
    match goal with |- state ?m = _ => destruct (decide (state m = Follower)) end; [done|].
    exfalso. apply Hd. by split. }
  destruct Hn1 as [Hs1 (Hc1 & Hrs1 & Hl1 & Hci1 & Hr1 & Hp1 & Hpr1 & _)].
  match goal with H : GetCurrentTerm n1 = _ |- _ =>
    apply GetCurrentTerm_Done in H as [Ht1 <-] end.
  assert (Hterm : term n1 = term n) by (unfold term; by rewrite Hrs1).
  assert (Hvote : vote n1 = vote n) by (unfold vote; by rewrite Hrs1).
  rewrite Hterm in *. case_decide.
  - match goal with H : UpdateTerm _ _ _ = _ |- _ =>
      apply UpdateTerm_shape in H as (db & -> & _ & _ & ? & ? & ?) end.
    by split_and!.
  - outcome_inv. split_and!; try done. lia.
Qed.

Inductive append_outcome (req : AppendEntriesRequest) n : AppendEntriesResult → RaftNode → Prop :=
  | append_stale :
      ae_term req < term n →
      append_outcome req n (MkAppendEntriesResult (term n) false) n
  | append_mismatch n1 :
      term n ≤ ae_term req →
      AppendEntries_follow req n = Done n1 →
      AppendEntries_matches req n1 = Done false →
      append_outcome req n (MkAppendEntriesResult (term n) false) n1
  | append_accepted n1 n2 :
      term n ≤ ae_term req →
      AppendEntries_follow req n = Done n1 →
      AppendEntries_matches req n1 = Done true →
      AppendEntries_store MessageDifferencer_Equals req n1 = Done n2 →
      append_outcome req n (MkAppendEntriesResult (term n) true) n2.

Lemma AppendEntries_inv req n res n' :
  AppendEntries MessageDifferencer_Equals req n = Done (res, n') →
  has_term n ∧ append_outcome req n res n'.
Proof.
  unfold AppendEntries. intros H. outcome_inv.
  match goal with H : GetCurrentTerm n = _ |- _ =>
    apply GetCurrentTerm_Done in H as [Ht <-] end.
  split; [done|]. case_decide; outcome_inv; [by constructor|].
  match goal with H : AppendEntries_matches _ _ = Done ?b |- _ => destruct b end; simpl in *;
    outcome_inv; econstructor; eauto; lia.
Qed.

(** ** Evolution of term, vote and role *)

(** Terms only grow, and within a term a vote, once cast, stays. *)
Definition vote_le n n' : Prop :=
  term n < term n' ∨ term n = term n' ∧ (vote n = None ∨ vote n' = vote n).

(** No operation but the three that start an election or win it makes a
    node leader or candidate. *)
Record evolves n n' : Prop := {
  ev_config : config n' = config n;
  ev_has_term : has_term n → has_term n';
  ev_vote : vote_le n n';
  ev_role : state n' ≠ Follower → state n' = state n ∧ term n' = term n;
}.

Lemma vote_le_refl n : vote_le n n.
Proof. right. auto. Qed.

Lemma vote_le_trans n1 n2 n3 : vote_le n1 n2 → vote_le n2 n3 → vote_le n1 n3.
Proof.
  intros [?|[? [?|Hv1]]] [?|[? [?|Hv2]]]; try (left; lia); right; (split; [lia|]);
    auto; [left|right]; congruence.
Qed.

Lemma vote_le_same n n' : raft_state n' = raft_state n → vote_le n n'.
Proof. unfold vote_le, term, vote. intros ->. auto. Qed.

Lemma evolves_refl n : evolves n n.
Proof. split; auto using vote_le_refl. Qed.

Lemma evolves_trans n1 n2 n3 : evolves n1 n2 → evolves n2 n3 → evolves n1 n3.
Proof.
  intros [H1 H2 H3 H4] [K1 K2 K3 K4]. split; [congruence|auto|by eapply vote_le_trans|].
  intros Hs. destruct (K4 Hs) as [Hs' Ht]. rewrite Hs' in Hs. destruct (H4 Hs). split; congruence.
Qed.

Lemma evolves_data n n' :
  config n' = config n → raft_state n' = raft_state n →
  (state n' = state n ∨ state n' = Follower) → evolves n n'.
Proof.
  intros Hc Hr Hs. split; [done|unfold has_term; by rewrite Hr|by apply vote_le_same|].
  intros Hnf. destruct Hs; [|done]. split; [done|]. unfold term. by rewrite Hr.
Qed.

(** Moving to a later term as a follower. *)
Lemma evolves_newer n n' :
  config n' = config n → has_term n' → term n < term n' → state n' = Follower → evolves n n'.
Proof. intros. split; [done..|by left|done]. Qed.

Lemma UpdateCommitIndex_evolves n n' : UpdateCommitIndex n = Done n' → evolves n n'.
Proof.
  intros (c & r & f & -> & _)%UpdateCommitIndex_shape. apply evolves_data; auto.
Qed.

Lemma AppendEntries_evolves req n res n' :
  AppendEntries MessageDifferencer_Equals req n = Done (res, n') →
  evolves n n' ∧ (n' = n ∨ state n' = Follower).
Proof.
  intros [Ht Ho]%AppendEntries_inv.
  assert (Hfol : ∀ n1, term n ≤ ae_term req → AppendEntries_follow req n = Done n1 →
                  evolves n n1 ∧ state n1 = Follower).
  { intros n1 Hle Hf. apply AppendEntries_follow_shape in Hf
      as (_ & Ht1 & Hs & Hterm & Hvote & Hc & _); [|done].
    split; [|done]. split; [done..| |congruence].
    unfold vote_le. rewrite Hterm, Hvote. case_decide; [by left|right]. split; [lia|auto]. }
  destruct Ho as [|n1 Hle Hf _|n1 n2 Hle Hf _ Hst].
  - split; [apply evolves_refl|by left].
  - destruct (Hfol _ Hle Hf). auto.
  - destruct (Hfol _ Hle Hf) as [Hev Hs].
    apply AppendEntries_store_shape in Hst as (r & ->).
    split; [|by right]. eapply evolves_trans; [done|]. apply evolves_data; auto.
Qed.

Lemma RequestVote_inv req n res n' :
  RequestVote req n = Done (res, n') →
  has_term n ∧ rvr_term res = term n ∧ raft_log n' = raft_log n ∧ evolves n n' ∧
  (rvr_vote_granted res = true →
     term n' = rv_term req ∧ vote n' = Some (rv_candidate_id req)) ∧
  (state n' = Follower ∨ state n' = state n ∧ term n' = term n).
Proof.
  unfold RequestVote. intros H. outcome_inv.
  match goal with H : GetCurrentTerm n = _ |- _ =>
    apply GetCurrentTerm_Done in H as [Ht <-] end.
  split; [done|]. case_decide as Hlt; outcome_inv.
  { split_and!; [done..|apply evolves_refl|done|by right]. }
  match goal with H : (if decide (term n < _) then _ else _) = Done ?m |- _ =>
    rename m into n1; rename H into Hup end.
  assert (Hn1 : evolves n n1 ∧ term n1 = rv_term req ∧ raft_log n1 = raft_log n ∧ has_term n1 ∧
                (state n1 = Follower ∨ state n1 = state n ∧ term n1 = term n)).
  { case_if Hup as [Hnew|Hnew].
    - match goal with H : UpdateTerm _ _ _ = _ |- _ =>
        apply UpdateTerm_shape in H as (db & -> & _ & _ & Ht' & Hterm' & _) end.
      match goal with H : (if decide (state _ ≠ Follower) then _ else _) = _ |- _ =>
        apply step_down_shape in H as (Hs1 & Hc1 & Hr1 & Hl1 & _) end.
      assert (term n1 = rv_term req) by (unfold term in *; by rewrite Hr1).
      assert (has_term n1) by (unfold has_term in *; by rewrite Hr1).
      split_and!; [|done..|by left]. apply evolves_newer; [by rewrite Hc1|done|lia|done].
    - split_and!; [apply evolves_refl|lia|done|done|by right]. }
  destruct Hn1 as (Hev & Hterm & Hlog & Ht1 & Hrole). rewrite GetVotedFor_vote in *.
  case_decide as Hv; outcome_inv; [by split_and!|].
  case_decide as Hnone; outcome_inv; [by split_and!|].
  match goal with |- context [if ?g then set_raft_state _ _ else _] => destruct g eqn:Hg end;
    [|by split_and!].
  set (n2 := set_raft_state _ n1).
  assert (Hterm2 : term n2 = term n1) by (unfold term; simpl; unfold kv_Put; by rewrite lookup_insert_ne).
  assert (Hvote2 : vote n2 = Some (rv_candidate_id req))
    by (unfold vote; simpl; unfold kv_Put; by rewrite lookup_insert_eq).
  split_and!; [done|done| |by rewrite Hterm2, Hvote2|by rewrite Hterm2].
  eapply evolves_trans; [done|]. split; [done| | |done].
  - unfold has_term. simpl. unfold kv_Put. by rewrite lookup_insert_ne.
  - right. split; [done|]. left. by destruct (vote n1).
Qed.

(** ** Sessions and requests *)

Lemma add_heartbeat_guard_evolves id n :
  evolves n (add_heartbeat_guard id n) ∧ raft_log (add_heartbeat_guard id n) = raft_log n.
Proof.
  unfold add_heartbeat_guard. destruct (stopped _); (split; [apply evolves_data; auto|done]).
Qed.

Lemma Execute_begin_evolves req n res n' :
  Execute_begin req n = Done (res, n') → evolves n n'.
Proof.
  unfold Execute_begin. intros H. case_decide; outcome_inv; apply evolves_data; auto.
Qed.

Lemma Execute_finish_evolves id n res n' :
  Execute_finish id n = Done (res, n') → evolves n n'.
Proof.
  unfold Execute_finish. intros H. destruct (frames n !! id); outcome_inv.
  case_decide; outcome_inv; apply evolves_data; auto.
Qed.

Lemma LeaderMainSession_iteration_evolves n n' :
  LeaderMainSession_iteration n = Done n' → evolves n n'.
Proof.
  unfold LeaderMainSession_iteration. intros H. outcome_inv.
  match goal with H : UpdateCommitIndex _ = _ |- _ => apply UpdateCommitIndex_evolves in H end.
  eapply evolves_trans; [|apply add_heartbeat_guard_evolves].
  eapply evolves_trans; [|done]. apply evolves_data; auto.
Qed.

Lemma LeaderMainSession_start_evolves n n' :
  LeaderMainSession_start n = Done n' → evolves n n'.
Proof. unfold LeaderMainSession_start. intros H. outcome_inv. apply evolves_data; auto. Qed.

Lemma LeaderNodeSession_response_evolves id req result n next n' :
  LeaderNodeSession_response id req result n = Done (next, n') → evolves n n'.
Proof.
  unfold LeaderNodeSession_response. intros H.
  case_decide; outcome_inv; [apply evolves_refl|].
  destruct result as [response|]; outcome_inv; [|apply evolves_refl].
  case_decide; outcome_inv.
  { match goal with H : UpdateTerm _ _ _ = _ |- _ =>
      apply UpdateTerm_shape in H as (db & -> & _ & Hlt & Ht' & Hterm' & _) end.
    match goal with H : (if decide (state _ ≠ Follower) then _ else _) = _ |- _ =>
      apply step_down_shape in H as (Hs1 & Hc1 & Hr1 & _) end.
    apply evolves_newer; [by rewrite Hc1| | |done].
    - unfold has_term in *. by rewrite Hr1.
    - unfold term in *. rewrite Hr1. simpl in *. lia. }
  case_match; outcome_inv; [apply evolves_data; auto|].
  match goal with H : UpdateCommitIndex _ = _ |- _ => apply UpdateCommitIndex_evolves in H end.
  case_decide; outcome_inv;
    [eapply evolves_trans; [|apply add_heartbeat_guard_evolves]|];
    (eapply evolves_trans; [|done]); apply evolves_data; auto.
Qed.

Lemma StartFollower_begin_evolves n : evolves n (StartFollower_begin n).
Proof. apply evolves_data; auto. Qed.

(** ** Elections *)

Lemma StartCandidate_begin_inv n req n' :
  StartCandidate_begin n = Done (req, n') →
  config n' = config n ∧ has_term n' ∧ term n < term n' ∧ state n' = state n ∧
  raft_log n' = raft_log n ∧
  vote n' = Some (Z.of_nat (node_id (config n))) ∧
  rv_term req = term n' ∧ rv_candidate_id req = Z.of_nat (node_id (config n)).
Proof.
  unfold StartCandidate_begin. simpl. intros H. outcome_inv.
  match goal with H : UpdateTerm _ _ _ = _ |- _ =>
    apply UpdateTerm_shape in H as (db & -> & _ & Hlt & Ht' & Hterm' & Hvote') end.
  match goal with H : GetCurrentTerm (set_raft_state _ _) = _ |- _ =>
    apply GetCurrentTerm_Done in H as [_ <-] end.
  split_and!; try done. unfold term in Hlt at 1. simpl in Hlt. rewrite Hterm'. exact Hlt.
Qed.

Inductive vote_outcome (result : Result RequestVoteResult RpcError) (votes : nat) n
    : nat → RaftNode → Prop :=
  | vote_ignored n' :
      evolves n n' → raft_log n' = raft_log n → vote_outcome result votes n votes n'
  | vote_counted r :
      result = Ok r → rvr_vote_granted r = true →
      ¬ (S votes = MajorityCount n ∧ state n = Candidate) →
      vote_outcome result votes n (S votes) n
  | vote_wins r n' :
      result = Ok r → rvr_vote_granted r = true →
      S votes = MajorityCount n → state n = Candidate →
      BecomeLeader n = Done n' →
      vote_outcome result votes n (S votes) n'.

Lemma StartCandidate_vote_inv result votes n votes' n' :
  StartCandidate_vote result votes n = Done (votes', n') →
  vote_outcome result votes n votes' n'.
Proof.
  unfold StartCandidate_vote. intros H.
  destruct result as [r|]; outcome_inv; [|apply vote_ignored; auto using evolves_refl].
  case_decide; outcome_inv.
  { match goal with H : UpdateTerm _ _ _ = _ |- _ =>
      apply UpdateTerm_shape in H as (db & -> & _ & Hlt & Ht' & Hterm' & _) end.
    match goal with H : (if decide (state _ ≠ Follower) then _ else _) = _ |- _ =>
      apply step_down_shape in H as (Hs1 & Hc1 & Hr1 & Hl1 & _) end.
    apply vote_ignored; [|done]. apply evolves_newer; [by rewrite Hc1| | |done].
    - unfold has_term in *. by rewrite Hr1.
    - unfold term in *. rewrite Hr1. simpl in *. lia. }
  destruct (rvr_vote_granted r) eqn:Hg; simpl in *; outcome_inv;
    [|apply vote_ignored; auto using evolves_refl].
  case_decide as Hwin; outcome_inv.
  - destruct Hwin. by eapply vote_wins.
  - by eapply vote_counted.
Qed.
End props.
