(* ===== verification/RaftCluster.v ===== *)
(** * A cluster of Raft nodes over an asynchronous network

    The processes of RaftProcess.v exchange the RPCs of src/raft/raft.proto.
    The network keeps every packet ever sent, so a packet can be delivered
    late, out of order, more than once or never; an RPC may also return any
    error at any time (timeouts and cancellation included), and a process may
    crash and restart from its databases. A reply is delivered to a caller
    that is waiting for a reply to that request. Handlers that abort the
    process have no step other than the restart.

    [history] records facts about the execution that no process can see: the
    votes cast, the leaders of each term and the log entries created. *)

From S2P Require Import Prelude.
From S2P Require Import Result.
From S2P Require Import RtTypes.
From S2P Require Import KVInterface.
From S2P Require Import StateMachine.
From S2P Require Import RaftNode.
From S2P Require Import RaftProcess.
From S2P Require Import RaftNodeProps.

Local Open Scope Z_scope.

Section cluster.
Context {AM : AnyMessage} {SM : IStateMachine}.
Variable MessageDifferencer_Equals : LogEntry → LogEntry → bool.

Inductive packet : Type :=
  | PVote (caller target : nat) (request : RequestVoteRequest)
  | PVoteReply (caller target : nat) (request : RequestVoteRequest) (result : RequestVoteResult)
  | PAppend (caller target : nat) (request : AppendEntriesRequest)
  | PAppendReply (caller target : nat) (request : AppendEntriesRequest)
      (result : AppendEntriesResult).

Record History : Type := MkHistory {
  ballots : list (Z * nat * Z);   (** (term, voter, candidate) *)
  leaders : list (Z * nat);       (** (term, leader) *)
  (** (term, index) of an entry, the entry and the term of the entry before it *)
  created : gmap (Z * Z) (LogEntry * Z);
}.

Record Cluster : Type := MkCluster {
  processes : gmap nat Process;
  network : list packet;
  history : History;
}.

(** ** History *)

Definition observe_vote (i : nat) (n : RaftNode) (bs : list (Z * nat * Z)) :=
  match vote n with Some c => (term n, i, c) :: bs | None => bs end.

Definition observe_leader (i : nat) (n : RaftNode) (ls : list (Z * nat)) :=
  if decide (state n = Leader) then (term n, i) :: ls else ls.

(** The term of the last entry of the log with the pending entries. *)
Definition last_term (n : RaftNode) : Z :=
  match pending_log n !! pred (length (pending_log n)) with
  | Some e => entry_term e
  | None => GetLastSavedLogTerm n
  end.

(** A leader creates an entry when it accepts a client request. *)
Definition observe_created (ev : event) (n : RaftNode) (cr : gmap (Z * Z) (LogEntry * Z)) :=
  match ev with
  | HandleExecute request =>
      if decide (state n = Leader) then
        match next_index n !! node_id (config n) with
        | Some index => <[(term n, index) := (MkLogEntry (term n) request, last_term n)]> cr
        | None => cr
        end
      else cr
  | _ => cr
  end.

Definition observe (i : nat) (ev : event) (p p' : Process) (h : History) : History :=
  MkHistory (observe_vote i (node p') (ballots h)) (observe_leader i (node p') (leaders h))
    (observe_created ev (node p) (created h)).

(** ** Steps *)

Definition sent (i : nat) (out : output) : list packet :=
  match out with
  | CallRequestVote targets request => (λ t, PVote i t request) <$> targets
  | CallAppendEntries target request => [PAppend i target request]
  | _ => []
  end.

(** Events that need nothing from the network. *)
Definition is_local (ev : event) : bool :=
  match ev with
  | VoteReturns _ (Ok _) | AppendReturns _ (Ok _)
  | HandleAppendEntries _ | HandleRequestVote _ => false
  | _ => true
  end.

Definition update (i : nat) (ev : event) (p p' : Process) (packets : list packet) (c : Cluster)
    : Cluster :=
  MkCluster (<[i := p']> (processes c)) (packets ++ network c) (observe i ev p p' (history c)).

Definition runs (ev : event) (p : Process) (out : output) (p' : Process) : Prop :=
  process_step MessageDifferencer_Equals ev p = Some (Done (out, p')).

Inductive step : Cluster → Cluster → Prop :=
  | step_local c i p ev out p' :
      processes c !! i = Some p → is_local ev = true → runs ev p out p' →
      step c (update i ev p p' (sent i out) c)
  | step_vote_request c caller i request p result p' :
      PVote caller i request ∈ network c → processes c !! i = Some p →
      runs (HandleRequestVote request) p (ReplyRequestVote result) p' →
      step c (update i (HandleRequestVote request) p p'
                [PVoteReply caller i request result] c)
  | step_vote_reply c i target request result p votes waiting out p' :
      PVoteReply i target request result ∈ network c → processes c !! i = Some p →
      main_fiber p = InCandidate votes request waiting →
      runs (VoteReturns target (Ok result)) p out p' →
      step c (update i (VoteReturns target (Ok result)) p p' [] c)
  | step_append_request c caller i request p result p' :
      PAppend caller i request ∈ network c → processes c !! i = Some p →
      runs (HandleAppendEntries request) p (ReplyAppendEntries result) p' →
      step c (update i (HandleAppendEntries request) p p'
                [PAppendReply caller i request result] c)
  | step_append_reply c i target request result p main sessions out p' :
      PAppendReply i target request result ∈ network c → processes c !! i = Some p →
      main_fiber p = InLeader main sessions →
      sessions !! target = Some (SessionCalling request) →
      runs (AppendReturns target (Ok result)) p out p' →
      step c (update i (AppendReturns target (Ok result)) p p' [] c)
  | step_restart c i p sm :
      processes c !! i = Some p →
      step c (MkCluster (<[i := restart sm p]> (processes c)) (network c) (history c)).

(** ** Initial clusters *)

(** [size] processes with empty databases, each configured with its index. *)
Definition initial (configs : list RaftConfig) (sms : nat → sm_state) (c : Cluster) : Prop :=
  network c = [] ∧ history c = MkHistory [] [] ∅ ∧
  (∀ i cfg, configs !! i = Some cfg → node_id cfg = i ∧ length (raft_nodes cfg) = length configs) ∧
  (∀ i, processes c !! i = (λ cfg, RunMain (sms i) cfg ∅ ∅) <$> configs !! i).

Definition reachable (configs : list RaftConfig) (c : Cluster) : Prop :=
  ∃ sms c0, initial configs sms c0 ∧ rtc step c0 c.

(** Reachable in [k] steps: positions in the logs stay below [k]. *)
Definition reachable_in (configs : list RaftConfig) (k : nat) (c : Cluster) : Prop :=
  ∃ sms c0, initial configs sms c0 ∧ nsteps step k c0 c.

Lemma reachable_in_reachable configs k c : reachable_in configs k c → reachable configs c.
Proof. intros (sms & c0 & Hi & Hs). exists sms, c0. split; [done|]. apply rtc_nsteps_2 in Hs. done. Qed.
End cluster.
