(* ===== verification/RaftElection.v ===== *)
(** * Election safety

    In every reachable cluster, every term has at most one leader, whatever
    the network does and however processes crash and restart. Every step of a
    process is summarized by its effect on term, vote, role and vote count;
    with that the cluster of RaftCluster.v simulates the elections of
    Election.v, whose invariant gives the result. *)

From S2P Require Import Prelude.
From S2P Require Import Election.
From S2P Require Import Result.
From S2P Require Import RtTypes.
From S2P Require Import KVInterface.
From S2P Require Import StateMachine.
From S2P Require Import RaftNode.
From S2P Require Import RaftProcess.
From S2P Require Import RaftNodeProps.
From S2P Require Import RaftCluster.

Local Open Scope Z_scope.

Section election.
Context {AM : AnyMessage} {SM : IStateMachine}.
Variable MessageDifferencer_Equals : LogEntry → LogEntry → bool.
Abbreviation runs := (runs MessageDifferencer_Equals).
Abbreviation step := (step MessageDifferencer_Equals).

(** ** One step of a process, as far as elections are concerned *)

(** How the main fiber of a candidate evolves. *)
Inductive candidacy (ev : event) (p p' : Process) : Prop :=
  | candidacy_none :
      (∀ votes req w, main_fiber p' ≠ InCandidate votes req w) → candidacy ev p p'
  | candidacy_same :
      main_fiber p' = main_fiber p →
      (state (node p') = Candidate → state (node p) = Candidate ∧ term (node p') = term (node p)) →
      candidacy ev p p'
  | candidacy_start req :
      main_fiber p' = InCandidate 1 req (list_to_set (other_nodes (node p'))) →
      term (node p) < term (node p') →
      rv_term req = term (node p') →
      rv_candidate_id req = Z.of_nat (node_id (config (node p'))) →
      vote (node p') = Some (Z.of_nat (node_id (config (node p')))) →
      candidacy ev p p'
  | candidacy_vote id result votes req w votes' :
      ev = VoteReturns id result → id ∈ w →
      main_fiber p = InCandidate votes req w →
      main_fiber p' = InCandidate votes' req (w ∖ {[id]}) →
      (votes' = votes ∨
       votes' = S votes ∧ ∃ r, result = Ok r ∧ rvr_vote_granted r = true) →
      (state (node p') = Candidate → state (node p) = Candidate ∧ term (node p') = term (node p)) →
      candidacy ev p p'.

(** How a process becomes leader. *)
Definition leadership (ev : event) (p p' : Process) : Prop :=
  state (node p') = Leader →
  state (node p) = Leader ∧ term (node p') = term (node p) ∨
  ∃ id r votes req w,
    ev = VoteReturns id (Ok r) ∧ rvr_vote_granted r = true ∧ id ∈ w ∧
    main_fiber p = InCandidate votes req w ∧ S votes = MajorityCount (node p) ∧
    state (node p) = Candidate ∧ raft_state (node p') = raft_state (node p).

Record election_summary (ev : event) (p : Process) (out : output) (p' : Process) : Prop := {
  es_config : config (node p') = config (node p);
  es_has_term : has_term (node p) → has_term (node p');
  es_vote : vote_le (node p) (node p');
  es_candidacy : candidacy ev p p';
  es_leadership : leadership ev p p';
  es_request : ∀ targets req, out = CallRequestVote targets req →
    rv_candidate_id req = Z.of_nat (node_id (config (node p)));
  es_reply : ∀ req res, ev = HandleRequestVote req → out = ReplyRequestVote res →
    rvr_vote_granted res = true →
    term (node p') = rv_term req ∧ vote (node p') = Some (rv_candidate_id req);
}.

(** A step whose effect on the node is an evolution and that keeps the main
    fiber or leaves it outside an election. *)
Lemma summary_evolves ev p out p' :
  evolves (node p) (node p') →
  main_fiber p' = main_fiber p ∨ (∀ votes req w, main_fiber p' ≠ InCandidate votes req w) →
  (∀ targets req, out ≠ CallRequestVote targets req) →
  (∀ req res, ev = HandleRequestVote req → out = ReplyRequestVote res →
    rvr_vote_granted res = true →
    term (node p') = rv_term req ∧ vote (node p') = Some (rv_candidate_id req)) →
  election_summary ev p out p'.
Proof.
  intros Hev Hf Hout Hrep. destruct Hev as [Hc Ht Hv Hr]. split; try done.
  - destruct Hf as [Hf|Hf]; [|by apply candidacy_none].
    apply candidacy_same; [done|]. intros Hs.
    rewrite <-Hs in *. destruct Hr as [? ?]; [by rewrite Hs|]. done.
  - intros Hs. left. destruct Hr as [Hr1 Hr2]; [by rewrite Hs|]. by rewrite <-Hr1.
  - intros targets req ->. by destruct (Hout targets req).
Qed.

Lemma run_loop_summary n out p' :
  run_loop n = Done (out, p') → election_summary RunLoop (MkProcess n InLoop) out p'.
Proof.
  unfold run_loop. intros H. destruct (state n) eqn:Hs; outcome_inv.
  - apply summary_evolves; simpl; [apply evolves_refl|by right|done|done].
  - apply summary_evolves; simpl; [apply StartFollower_begin_evolves|by right|done|done].
  - simpl in *.
    match goal with H : StartCandidate_begin _ = _ |- _ =>
      apply StartCandidate_begin_inv in H as (Hc & Ht & Hlt & Hst & _ & Hv & Hrt & Hrc) end.
    split; simpl; try done.
    + by left.
    + eapply candidacy_start; simpl; [done|done|done|by rewrite Hc|by rewrite Hc].
    + intros Hl. simpl in Hl. congruence.
    + intros targets req' [= <- <-]. done.
Qed.

Lemma vote_returns_summary id result votes req w n votes' n' :
  id ∈ w →
  vote_outcome result votes n votes' n' →
  election_summary (VoteReturns id result) (MkProcess n (InCandidate votes req w)) Silent
    (MkProcess n' (InCandidate votes' req (w ∖ {[id]}))).
Proof.
  intros Hin Ho.
  assert (Hmk : ∀ v m, (v = votes ∨ v = S votes ∧ ∃ r, result = Ok r ∧ rvr_vote_granted r = true) →
            (state m = Candidate → state n = Candidate ∧ term m = term n) →
            candidacy (VoteReturns id result) (MkProcess n (InCandidate votes req w))
              (MkProcess m (InCandidate v req (w ∖ {[id]})))).
  { intros v m Hv Hm. by eapply candidacy_vote. }
  destruct Ho as [n' [Hc Ht Hv Hr] _|r -> Hg Hno|r n' -> Hg Hmaj Hs Hbl].
  - split; simpl; try done.
    + apply Hmk; [by left|]. intros Hs.
      destruct Hr as [Hr1 Hr2]; [by rewrite Hs|]. split; congruence.
    + intros Hl. simpl in Hl. left. destruct Hr as [Hr1 Hr2]; [by rewrite Hl|].
      simpl. split; congruence.
  - split; simpl; try done.
    + apply vote_le_refl.
    + apply Hmk; [right; eauto|done].
    + intros Hl. by left.
  - apply BecomeLeader_shape in Hbl as (_ & Hs' & Hc & Hrs & _).
    split; simpl; try done.
    + unfold has_term. by rewrite Hrs.
    + by apply vote_le_same.
    + apply Hmk; [right; eauto|]. by rewrite Hs'.
    + intros _. right. simpl. eexists id, r, votes, req, w. by split_and!.
Qed.

Lemma Session_resume_evolves id n : evolves n (Session_resume id n).
Proof. apply evolves_data; auto. Qed.

Lemma main_session_evolves main n m main' n' :
  main_session_run main n = Some m → m = Done (main', n') → evolves n n'.
Proof.
  intros Hm ->.
  assert (Hloop : ∀ n1 r, main_session_loop n1 = Done r → evolves n1 r.2).
  { intros n1 [? ?] H. unfold main_session_loop in H. case_decide; outcome_inv; simpl.
    - by apply LeaderMainSession_iteration_evolves.
    - apply evolves_refl. }
  destruct main; simplify_eq/=.
  - outcome_inv. eapply evolves_trans; [by apply LeaderMainSession_start_evolves|].
    by eapply (Hloop _ (_, _)).
  - eapply evolves_trans; [apply Session_resume_evolves|]. by eapply (Hloop _ (_, _)).
Qed.

(** Every step of a process. *)
Lemma process_step_summary ev p out p' : runs ev p out p' → election_summary ev p out p'.
Proof.
  unfold RaftCluster.runs, process_step. intros H. destruct p as [n fb]. simpl in H.
  destruct ev; repeat case_match; simplify_eq/=; outcome_inv.
  - by apply run_loop_summary.
  - assert (evolves_or : evolves n x ∨ state n = Follower ∧ BecomeCandidate n = Done x).
    { unfold StartFollower_end in *. case_match; outcome_inv; [left; apply evolves_refl|].
      right. split; [|done].
      match goal with H : BecomeCandidate _ = _ |- _ => by apply BecomeCandidate_shape in H as [? _] end. }
    destruct evolves_or as [Hev|[Hs Hb]]; [by apply summary_evolves; [|right|..]|].
    apply BecomeCandidate_shape in Hb as (_ & Hs' & Hc & Hr & _).
    split; simpl; try done.
    + unfold has_term. by rewrite Hr.
    + by apply vote_le_same.
    + by apply candidacy_none.
    + intros Hl. simpl in Hl. congruence.
  - apply vote_returns_summary; [done|]. by apply StartCandidate_vote_inv.
  - apply summary_evolves; simpl; [apply evolves_refl|by right|done|done].
  - apply bind_Some in H as (m & Hm & [= H]). outcome_inv.
    apply summary_evolves; simpl; [by eapply main_session_evolves|by right|done|done].
  - apply summary_evolves; simpl; [apply Session_resume_evolves|by right|done|done].
  - apply summary_evolves; simpl; [apply Session_resume_evolves|by right|done|done].
  - apply summary_evolves; simpl; [|by right|done|done].
    by eapply LeaderNodeSession_response_evolves.
  - apply summary_evolves; simpl; [by apply evolves_data; auto|by right|done|done].
  - apply summary_evolves; simpl; [by eapply Execute_begin_evolves|by left| |done].
    by destruct s.
  - apply summary_evolves; simpl; [by eapply Execute_finish_evolves|by left|done|done].
  - apply summary_evolves; simpl; [by eapply AppendEntries_evolves|by left|done|done].
  - match goal with H : RequestVote _ _ = _ |- _ =>
      apply RequestVote_inv in H as (_ & _ & _ & Hev & Hg & _) end.
    apply summary_evolves; simpl; [done|by left|done|].
    by intros req' res' [= <-] [= <-].
Qed.

(** ** The cluster simulates an election *)

Definition role_of (s : State) : role :=
  match s with Leader => RLeader | Follower => RFollower | Candidate => RCandidate end.

Definition view_of (p : Process) : view :=
  MkView (node_id (config (node p))) (nodes_count (node p))
    (bool_decide (is_Some (raft_state (node p) !! "current_term")))
    (term (node p)) (vote (node p)) (role_of (state (node p)))
    match main_fiber p with
    | InCandidate votes req w => Some (votes, rv_term req, w)
    | _ => None
    end.

Definition vote_asked (k : packet) : option (nat * nat * Z * Z) :=
  match k with
  | PVote caller target req => Some (caller, target, rv_term req, rv_candidate_id req)
  | _ => None
  end.

Definition vote_granted (k : packet) : option (nat * nat * Z) :=
  match k with
  | PVoteReply caller target req res =>
      if rvr_vote_granted res then Some (caller, target, rv_term req) else None
  | _ => None
  end.

Definition election_of (c : Cluster) : election :=
  MkElection (view_of <$> processes c) (omap vote_asked (network c)) (omap vote_granted (network c))
    (ballots (history c)) (leaders (history c)).

Definition label_of (ev : event) (out : output) : label :=
  match ev, out with
  | VoteReturns id (Ok r), _ => LVoteReturns id (rvr_vote_granted r)
  | HandleRequestVote req, ReplyRequestVote res =>
      LVoteHandled (rv_term req) (rv_candidate_id req) (rvr_vote_granted res)
  | VoteReturns id (Err _), _ => LVoteReturns id false
  | _, _ => LOther
  end.

Lemma role_of_inv s s' : role_of s = role_of s' ↔ s = s'.
Proof. by destruct s, s'. Qed.

Lemma candidacy_count_step ev p out p' :
  config (node p') = config (node p) → candidacy ev p p' →
  count_step (label_of ev out) (view_of p) (view_of p').
Proof.
  intros Hc Hcand.
  assert (Hst : (state (node p') = Candidate → state (node p) = Candidate ∧ term (node p') = term (node p)) →
                stays_candidate (view_of p) (view_of p')).
  { intros Hs Hr. simpl in *. apply (role_of_inv _ Candidate), Hs in Hr as [-> Ht]. done. }
  destruct Hcand as [Hno|Hsame Hs|req Hf _ Ht _ Hv|id result votes req w votes' -> Hid Hf Hf' Hvotes Hs].
  - apply count_none. simpl. destruct (main_fiber p') as [| |votes req w|]; try done. by destruct (Hno votes req w).
  - apply count_same; [simpl; by rewrite Hsame|auto].
  - apply (count_start _ _ _ (list_to_set (other_nodes (node p')))); simpl; [by rewrite Hf, Ht| |done].
    rewrite elem_of_list_to_set. unfold other_nodes. rewrite list_elem_of_filter. by intros [? _].
  - eapply (count_vote _ _ _ id (match result with Ok r => rvr_vote_granted r | Err _ => false end) votes);
      simpl; rewrite ?Hf, ?Hf'; [by destruct result|done|done|done| |auto].
    destruct Hvotes as [->|[-> (r & -> & Hg)]]; auto.
Qed.

Lemma summary_view_step ev p out p' :
  election_summary ev p out p' → view_step (label_of ev out) (view_of p) (view_of p').
Proof.
  intros [Hc Ht Hv Hcand Hlead _ Hrep]. split; simpl.
  - by rewrite Hc.
  - unfold nodes_count. by rewrite Hc.
  - rewrite !bool_decide_eq_true. apply Ht.
  - apply Hv.
  - by apply candidacy_count_step.
  - intros Hr. apply (role_of_inv _ Leader), Hlead in Hr as [[-> Heq]|Hwin]; [by left|]. right.
    destruct Hwin as (id & r & votes & req & w & -> & Hg & Hid & Hf & Hmaj & Hs & Hrs).
    exists id, votes, (rv_term req), w. simpl. rewrite Hg, Hf, Hs. split_and!; try done.
    unfold term. by rewrite Hrs.
  - intros t d Hl. destruct ev; try done; simpl in Hl; [by destruct result|].
    destruct out; simplify_eq/=. by eapply Hrep.
Qed.

Lemma election_of_update i ev p p' packets c :
  election_of (update i ev p p' packets c) =
    moves i (view_of p') (omap vote_asked packets) (omap vote_granted packets) (election_of c).
Proof.
  unfold election_of, moves. simpl. rewrite fmap_insert, !omap_app. f_equal.
  unfold observe_leader, record_leader. simpl. by destruct (state (node p')).
Qed.

Lemma lookup_step i ev p p' packets c j q :
  processes (update i ev p p' packets c) !! j = Some q →
  j = i ∧ q = p' ∨ j ≠ i ∧ processes c !! j = Some q.
Proof. simpl. rewrite lookup_insert. case_decide; [|auto]. intros [= <-]. by left. Qed.

Lemma leaders_inv i ev p p' packets c t j :
  (t, j) ∈ leaders (history (update i ev p p' packets c)) →
  (t, j) ∈ leaders (history c) ∨ state (node p') = Leader ∧ t = term (node p') ∧ j = i.
Proof.
  simpl. unfold observe_leader. case_decide; [|auto].
  rewrite elem_of_cons. intros [[= -> ->]|?]; auto.
Qed.

Lemma sent_asked i out id :
  (∀ targets req, out = CallRequestVote targets req → rv_candidate_id req = Z.of_nat id) →
  asks_for_itself i id (omap vote_asked (sent i out)) ∧ omap vote_granted (sent i out) = [].
Proof.
  intros Hout. destruct out; simpl; try (split; [intros r []%not_elem_of_nil|done]).
  specialize (Hout _ _ eq_refl). split.
  - intros r Hr. apply list_elem_of_omap in Hr as (k & Hk & Hr).
    apply list_elem_of_fmap in Hk as (t & -> & _). simpl in Hr. injection Hr as <-. rewrite Hout. eauto.
  - clear Hout. by induction targets.
Qed.

Context (configs : list RaftConfig).

Definition election_inv (c : Cluster) : Prop := Election.election_inv (length configs) (election_of c).

Lemma inv_process c :
  election_inv c → ∀ i p, processes c !! i = Some p →
  (i < length configs)%nat ∧ node_id (config (node p)) = i ∧ nodes_count (node p) = length configs ∧
  has_term (node p).
Proof.
  intros Hinv i p Hp. destruct (ei_view _ _ Hinv i (view_of p)) as (? & ? & ? & Hr).
  - simpl. by rewrite lookup_fmap, Hp.
  - simpl in Hr. apply bool_decide_eq_true in Hr. done.
Qed.

Lemma inv_leader c :
  election_inv c → ∀ i p, processes c !! i = Some p → state (node p) = Leader →
  (term (node p), i) ∈ leaders (history c).
Proof.
  intros Hinv i p Hp Hs. apply (ei_leader _ _ Hinv i (view_of p)); simpl; [|by rewrite Hs].
  by rewrite lookup_fmap, Hp.
Qed.

Lemma leader_unique c t i j :
  election_inv c → (t, i) ∈ leaders (history c) → (t, j) ∈ leaders (history c) → i = j.
Proof. intros Hinv. by apply (one_leader_per_term _ _ t i j Hinv). Qed.

(** A restarted process keeps its term and vote and is a follower. *)
Lemma restart_view sm p : has_term (node p) → view_restart (view_of p) (view_of (restart sm p)).
Proof.
  intros [t Ht].
  assert (Hrs : raft_state (node (restart sm p)) = raft_state (node p)).
  { simpl. unfold kv_Get. by rewrite Ht. }
  split; try done.
  - unfold view_of. cbn [v_ready]. rewrite Hrs. apply bool_decide_eq_true. eauto.
  - unfold view_of, term. cbn [v_term]. by rewrite Hrs.
  - unfold view_of, vote. cbn [v_vote]. by rewrite Hrs.
Qed.

Lemma election_simulates c c' :
  election_inv c → step c c' → Election.election_step (election_of c) (election_of c').
Proof.
  intros Hinv Hstep.
  destruct Hstep as
    [c i p ev out p' Hp Hloc Hrun|c caller i req p res p' Hin Hp Hrun
    |c i target req res p votes w out p' Hin Hp Hf Hrun
    |c caller i req p res p' Hin Hp Hrun|c i target req res p main ss out p' Hin Hp Hf Hss Hrun
    |c i p sm Hp].
  all: assert (Hview : views (election_of c) !! i = Some (view_of p)) by (simpl; by rewrite lookup_fmap, Hp).
  6: { unfold election_of at 2. simpl. rewrite fmap_insert.
       apply (es_restart (election_of c) i (view_of p)); [done|].
       apply restart_view. by destruct (inv_process _ Hinv _ _ Hp) as (_ & _ & _ & ?). }
  all: pose proof (process_step_summary _ _ _ _ Hrun) as Hsum.
  all: pose proof (summary_view_step _ _ _ _ Hsum) as Hvs.
  all: rewrite election_of_update.
  - destruct (sent_asked i out (node_id (config (node p)))) as [Hasks ->]; [by apply (es_request _ _ _ _ Hsum)|].
    apply (es_other _ _ (view_of p) (label_of ev out)); [done| | |done|done];
      destruct ev as [| |? []| | | |? []| | | | |]; done.
  - simpl in Hvs |- *. destruct (rvr_vote_granted res) eqn:Hg.
    + apply (es_grant _ caller i (rv_term req) (rv_candidate_id req) (view_of p)); [|done|done].
      simpl. apply list_elem_of_omap. eauto.
    + eapply (es_other _ _ (view_of p)); [done|..|done|]; [done|done|]. intros r []%not_elem_of_nil.
  - simpl in Hvs |- *. destruct (rvr_vote_granted res) eqn:Hg.
    + apply (es_count _ i target (view_of p) votes (rv_term req) w); [|done|simpl; by rewrite Hf|done].
      simpl. apply list_elem_of_omap. exists (PVoteReply i target req res). split; [done|]. simpl. by rewrite Hg.
    + eapply (es_other _ _ (view_of p)); [done|..|done|]; [by intros ? [=]|done|]. intros r []%not_elem_of_nil.
  - simpl. eapply (es_other _ _ (view_of p)); [done|..|done|]; [done|done|]. intros r []%not_elem_of_nil.
  - simpl. eapply (es_other _ _ (view_of p)); [done|..|done|]; [done|done|]. intros r []%not_elem_of_nil.
Qed.

Lemma election_step c c' : election_inv c → step c c' → election_inv c'.
Proof. intros Hinv Hstep. eapply election_step_inv; [done|]. by apply election_simulates. Qed.

Lemma initial_inv sms c : initial configs sms c → election_inv c.
Proof.
  intros (Hnet & Hh & Hcfg & Hp).
  assert (Hproc : ∀ i v, views (election_of c) !! i = Some v →
    ∃ cfg, configs !! i = Some cfg ∧ v = view_of (RunMain (sms i) cfg ∅ ∅)).
  { intros i v Hi. simpl in Hi. rewrite lookup_fmap, Hp in Hi.
    destruct (configs !! i) as [cfg|]; simplify_eq/=. eauto. }
  split.
  all: try (unfold election_of; rewrite ?Hh, ?Hnet; simpl; intros *; by (intros []%not_elem_of_nil)).
  - intros i v (cfg & Hi & ->)%Hproc. destruct (Hcfg _ _ Hi). split_and!; [|done..].
    by eapply lookup_lt_Some.
  - intros i v d (cfg & Hi & ->)%Hproc. done.
  - intros i v votes t w (cfg & Hi & ->)%Hproc. done.
  - intros i v (cfg & Hi & ->)%Hproc. done.
Qed.

Lemma election_reachable c : reachable MessageDifferencer_Equals configs c → election_inv c.
Proof.
  intros (sms & c0 & Hinit & Hsteps). apply initial_inv in Hinit.
  induction Hsteps; eauto using election_step.
Qed.
End election.

(** [C1] Election safety: in every cluster reachable from empty databases
    under an arbitrary network and arbitrary crashes, a term never has two
    leaders: neither two processes that lead at the same time, nor two that
    led it at different times of the execution. *)
Theorem election_safety {AM : AnyMessage} {SM : IStateMachine}
    (Equals : LogEntry → LogEntry → bool) (configs : list RaftConfig) (c : Cluster)
    (i j : nat) (p q : Process) :
  reachable Equals configs c →
  (∀ t k l, (t, k) ∈ leaders (history c) → (t, l) ∈ leaders (history c) → k = l) ∧
  (processes c !! i = Some p → processes c !! j = Some q →
   state (node p) = Leader → state (node q) = Leader →
   term (node p) = term (node q) → i = j).
Proof.
  intros Hinv%election_reachable. split.
  - intros t k l. by apply (leader_unique configs).
  - intros Hp Hq Hsp Hsq Ht. apply (leader_unique configs c (term (node p))); [done|..].
    + by eapply inv_leader.
    + rewrite Ht. by eapply inv_leader.
Qed.

Section single.
Context {AM : AnyMessage} {SM : IStateMachine}.
Variable MessageDifferencer_Equals : LogEntry → LogEntry → bool.

(** The processes of a cluster of one node: a candidate counts its own vote,
    and is compared with the majority only when another vote arrives. *)
Definition never_led (p : Process) : Prop :=
  state (node p) ≠ Leader ∧ nodes_count (node p) = 1%nat ∧
  ∀ votes req w, main_fiber p = InCandidate votes req w → (1 ≤ votes)%nat.

Lemma never_led_step ev p out p' :
  process_step MessageDifferencer_Equals ev p = Some (Done (out, p')) → never_led p → never_led p'.
Proof.
  intros Hrun%process_step_summary (Hs & Hn & Hv). split_and!.
  - intros Hl. destruct (es_leadership _ _ _ _ Hrun Hl) as [[? _]|Hwin]; [done|].
    destruct Hwin as (id & r & votes & req & w & _ & _ & _ & Hf & Hmaj & _).
    apply Hv in Hf. unfold MajorityCount in Hmaj. rewrite Hn in Hmaj. simpl in Hmaj. lia.
  - unfold nodes_count in *. by rewrite (es_config _ _ _ _ Hrun).
  - intros votes req w Hf. destruct (es_candidacy _ _ _ _ Hrun)
      as [Hno|Hsame _|req' Hf' _ _ _ _|id result votes0 req0 w0 votes' _ _ Hf0 Hf' Hvotes _].
    + by destruct (Hno votes req w).
    + rewrite Hsame in Hf. by eapply Hv.
    + rewrite Hf in Hf'. by injection Hf' as -> _ _.
    + rewrite Hf in Hf'. injection Hf' as -> _ _. apply Hv in Hf0. destruct Hvotes as [->|[-> _]]; lia.
Qed.

Lemma never_led_reachable cfg c :
  reachable MessageDifferencer_Equals [cfg] c →
  ∀ i p, processes c !! i = Some p → never_led p.
Proof.
  intros (sms & c0 & (_ & _ & Hcfg & Hp) & Hsteps).
  assert (H0 : ∀ i p, processes c0 !! i = Some p → never_led p).
  { intros i p Hi. rewrite Hp in Hi. apply fmap_Some in Hi as (cf & Hcf & ->).
    destruct (Hcfg _ _ Hcf) as [_ Hlen]. by split_and!. }
  clear Hp. induction Hsteps as [|c1 c2 c3 Hst _ IH]; [done|]. apply IH.
  intros i p. destruct Hst; simpl; intros [[<- <-]|[_ ?]]%lookup_insert_Some; eauto using never_led_step.
  match goal with H : processes _ !! _ = Some _ |- _ => apply H0 in H as (_ & Hn & _) end.
  by split_and!.
Qed.
End single.

(** A cluster of one node never has a leader: the votes are compared with
    the majority only when another node grants its vote, so the vote a
    candidate casts for itself is never found to be a majority. *)
Theorem single_node_never_leads {AM : AnyMessage} {SM : IStateMachine}
    (Equals : LogEntry → LogEntry → bool) (cfg : RaftConfig) (c : Cluster) (i : nat) (p : Process)
    (Hreach : reachable Equals [cfg] c) (Hp : processes c !! i = Some p) :
  state (node p) ≠ Leader ∧
  ∀ request, process_step Equals (HandleExecute request) p =
    Some (Done (ReplyExecute (MkResponse NotALeader any_default), p)).
Proof.
  destruct (never_led_reachable Equals cfg c Hreach i p Hp) as (Hs & _ & _).
  split; [done|]. intros request. simpl. unfold Execute_begin. rewrite decide_True by done.
  simpl. by destruct p.
Qed.
