(* ===== verification/RaftTrace.v ===== *)
(** * Executable runs of a Raft cluster

    [exec] runs the steps of RaftCluster.v named by a list of labels; a
    successful run is an execution of the cluster ([exec_reachable]). The
    three-node cluster of [Example3] is used by the witnesses and by the
    runs that exhibit findings. *)

From S2P Require Import Prelude.
From S2P Require Import Result.
From S2P Require Import RtTypes.
From S2P Require Import KVInterface.
From S2P Require Import StateMachine.
From S2P Require Import RaftNode.
From S2P Require Import RaftProcess.
From S2P Require Import RaftNodeProps.
From S2P Require Import RaftCluster.

Local Open Scope Z_scope.

#[export] Instance RequestVoteRequest_eq_dec : EqDecision RequestVoteRequest.
Proof. solve_decision. Defined.

Section trace.
Context {AM : AnyMessage} {SM : IStateMachine} `{!EqDecision Any}.
Variable MessageDifferencer_Equals : LogEntry → LogEntry → bool.

#[export] Instance Request_eq_dec : EqDecision Request.
Proof. solve_decision. Defined.
#[export] Instance LogEntry_eq_dec : EqDecision LogEntry.
Proof. solve_decision. Defined.
#[export] Instance AppendEntriesRequest_eq_dec : EqDecision AppendEntriesRequest.
Proof. solve_decision. Defined.
#[export] Instance session_eq_dec : EqDecision session.
Proof. solve_decision. Defined.

Inductive label : Type :=
  | Local (i : nat) (ev : event)
  | Deliver (k : nat)      (** the packet at position [k] of the network *)
  | Crash (i : nat) (sm : sm_state).

Abbreviation run_event ev p := (process_step MessageDifferencer_Equals ev p).

Definition exec_deliver (pkt : packet) (c : Cluster) : option Cluster :=
  match pkt with
  | PVote caller i request =>
      p ← processes c !! i;
      match run_event (HandleRequestVote request) p with
      | Some (Done (ReplyRequestVote result, p')) =>
          Some (update i (HandleRequestVote request) p p' [PVoteReply caller i request result] c)
      | _ => None
      end
  | PVoteReply i target request result =>
      p ← processes c !! i;
      match main_fiber p with
      | InCandidate _ request' _ =>
          if decide (request' = request) then
            match run_event (VoteReturns target (Ok result)) p with
            | Some (Done (_, p')) => Some (update i (VoteReturns target (Ok result)) p p' [] c)
            | _ => None
            end
          else None
      | _ => None
      end
  | PAppend caller i request =>
      p ← processes c !! i;
      match run_event (HandleAppendEntries request) p with
      | Some (Done (ReplyAppendEntries result, p')) =>
          Some (update i (HandleAppendEntries request) p p'
                  [PAppendReply caller i request result] c)
      | _ => None
      end
  | PAppendReply i target request result =>
      p ← processes c !! i;
      match main_fiber p with
      | InLeader _ sessions =>
          if decide (sessions !! target = Some (SessionCalling request)) then
            match run_event (AppendReturns target (Ok result)) p with
            | Some (Done (_, p')) => Some (update i (AppendReturns target (Ok result)) p p' [] c)
            | _ => None
            end
          else None
      | _ => None
      end
  end.

Definition exec_label (l : label) (c : Cluster) : option Cluster :=
  match l with
  | Local i ev =>
      p ← processes c !! i;
      if is_local ev then
        match run_event ev p with
        | Some (Done (out, p')) => Some (update i ev p p' (sent i out) c)
        | _ => None
        end
      else None
  | Deliver k => pkt ← network c !! k; exec_deliver pkt c
  | Crash i sm =>
      p ← processes c !! i;
      Some (MkCluster (<[i := restart sm p]> (processes c)) (network c) (history c))
  end.

Fixpoint exec (ls : list label) (c : Cluster) : option Cluster :=
  match ls with
  | [] => Some c
  | l :: ls => c' ← exec_label l c; exec ls c'
  end.

Local Opaque process_step.

Lemma exec_label_step l c c' :
  exec_label l c = Some c' → step MessageDifferencer_Equals c c'.
Proof.
  destruct l as [i ev|k|i sm]; simpl; intros H.
  - apply bind_Some in H as (p & Hp & H). repeat case_match; simplify_eq.
    by eapply step_local.
  - apply bind_Some in H as (pkt & Hk & H). apply list_elem_of_lookup_2 in Hk.
    destruct pkt; simpl in H; apply bind_Some in H as (p & Hp & H);
      repeat case_match; simplify_eq.
    + by eapply step_vote_request.
    + by eapply step_vote_reply.
    + by eapply step_append_request.
    + by eapply step_append_reply.
  - apply bind_Some in H as (p & Hp & [= <-]). by eapply step_restart.
Qed.

Lemma exec_nsteps ls c c' :
  exec ls c = Some c' → nsteps (step MessageDifferencer_Equals) (length ls) c c'.
Proof.
  revert c. induction ls as [|l ls IH]; simpl; intros c H; [simplify_eq; constructor|].
  apply bind_Some in H as (c1 & Hl & H). econstructor; [by eapply exec_label_step|]. auto.
Qed.

Lemma exec_reachable_in configs sms ls c0 c :
  initial configs sms c0 → exec ls c0 = Some c →
  reachable_in MessageDifferencer_Equals configs (length ls) c.
Proof. intros Hi He. exists sms, c0. eauto using exec_nsteps. Qed.

Lemma exec_reachable configs sms ls c0 c :
  initial configs sms c0 → exec ls c0 = Some c →
  reachable MessageDifferencer_Equals configs c.
Proof. intros Hi He. eapply reachable_in_reachable, exec_reachable_in; eauto. Qed.
End trace.

(** Three nodes over the integer machine of StateMachine.v. *)
Module Example3.
Import TestMachine.

#[export] Instance test_any_eq_dec : EqDecision Any.
Proof. unfold Any. simpl. apply _. Defined.

Definition endpoints : list Endpoint :=
  [MkEndpoint "a" 1; MkEndpoint "b" 2; MkEndpoint "c" 3].

Definition cfg (i : nat) : RaftConfig := MkRaftConfig i endpoints (MkInterval 0 0) 0 0 "log" "state".
Definition configs : list RaftConfig := [cfg 0; cfg 1; cfg 2].

Definition Equals (a b : LogEntry) : bool := bool_decide (a = b).

Definition start : Cluster :=
  MkCluster (list_to_map ((λ i, (i, RunMain init (cfg i) ∅ ∅)) <$> [0; 1; 2]%nat))
    [] (MkHistory [] [] ∅).

Lemma start_initial : initial configs (λ _, init) start.
Proof.
  split_and!; [done..| |].
  - intros [|[|[|i]]] cf; simpl; intros [= <-]; done.
  - intros [|[|[|i]]]; [reflexivity..|]. simpl. by rewrite !lookup_insert_ne by done.
Qed.

Definition timeout {A} : Result A RpcError := Err (MkRpcError Cancelled "").

(** Node 0 is elected in term 1 with the vote of node 1 and starts to lead. *)
Definition elect0 : list label :=
  [Local 0 RunLoop; Local 0 FollowerWakes; Local 0 RunLoop; Deliver 0; Deliver 0;
   Local 0 (VoteReturns 2 timeout); Local 0 ElectionEnds; Local 0 RunLoop;
   Local 0 MainSessionRuns].

(** It replicates a request to node 1 and commits it, after a first, empty
    request to node 1 got no answer in time. *)
Definition commit0 : list label :=
  [Local 0 (SessionRuns 1); Local 0 (AppendReturns 1 timeout);
   Local 0 (HandleExecute (req 1 1 5)); Local 0 MainSessionRuns;
   Local 0 (SessionRuns 1); Deliver 0; Deliver 0].

(** The empty request arrives at node 1 after the entry. *)
Definition late : list label := [Deliver 2].

(** Node 2 is elected in term 2 with the vote of node 1, replicates another
    request to node 1 and commits it. *)
Definition elect2 : list label :=
  [Local 2 RunLoop; Local 2 FollowerWakes; Local 2 RunLoop;
   Local 2 (VoteReturns 0 timeout); Local 2 (VoteReturns 1 timeout); Local 2 ElectionEnds;
   Local 2 RunLoop; Deliver 1; Deliver 0;
   Local 2 (VoteReturns 0 timeout); Local 2 ElectionEnds; Local 2 RunLoop;
   Local 2 MainSessionRuns].
Definition commit2 : list label :=
  [Local 2 (HandleExecute (req 2 1 7)); Local 2 MainSessionRuns;
   Local 2 (SessionRuns 1); Deliver 0; Deliver 0].

(** The cluster after a run. *)
Definition after (ls : list label) : Cluster := default start (exec Equals ls start).
Definition completes (ls : list label) : bool :=
  match exec Equals ls start with Some _ => true | None => false end.

Lemma after_reachable_in ls :
  completes ls = true → reachable_in Equals configs (length ls) (after ls).
Proof.
  unfold completes, after. destruct (exec Equals ls start) as [c|] eqn:He; [|done]. intros _.
  eapply exec_reachable_in; [apply start_initial|done].
Qed.

Lemma Equals_sound a b : Equals a b = true → a = b.
Proof. apply bool_decide_eq_true_1. Qed.

(** The process of a node after a run. *)
Definition proc_after (ls : list label) (i : nat) : Process :=
  default (RunMain init (cfg i) ∅ ∅) (processes (after ls) !! i).

Lemma proc_after_lookup ls i :
  match processes (after ls) !! i with Some _ => true | None => false end = true →
  processes (after ls) !! i = Some (proc_after ls i).
Proof. unfold proc_after. by destruct (processes (after ls) !! i). Qed.
End Example3.
