(* ===== verification/RaftInvariant.v ===== *)
(** * Invariant of a Raft node

    The log has no gaps, the commit index lies within it, the leader's
    bookkeeping has the right shape, and the state machine is the result of
    applying exactly the committed prefix of the log. Every operation of
    RaftNode.v preserves the invariant; RaftProcess.v's steps preserve it
    together with the position of the fibers. *)

From S2P Require Import Prelude.
From S2P Require Import Result.
From S2P Require Import RtTypes.
From S2P Require Import KVInterface.
From S2P Require Import Logs.
From S2P Require Import StateMachine.
From S2P Require Import RaftNode.
From S2P Require Import RaftProcess.
From S2P Require Import RaftNodeProps.

Local Open Scope Z_scope.

Section logs.
Context {AM : AnyMessage} {SM : IStateMachine}.
Implicit Types (n : RaftNode) (log : gmap Z LogEntry).

Lemma GetSavedLogSize_log n : GetSavedLogSize n = log_size (raft_log n).
Proof. done. Qed.

(** The first [k] entries. *)
Definition log_upto log (k : Z) : list LogEntry := omap (λ i, log !! i) (range 1 (k + 1)).

Lemma log_upto_snoc log k e :
  0 ≤ k → log !! (k + 1) = Some e → log_upto log (k + 1) = log_upto log k ++ [e].
Proof.
  intros Hk He. unfold log_upto. rewrite range_snoc by lia. rewrite omap_app. simpl. by rewrite He.
Qed.

Lemma log_upto_ext log log' k :
  (∀ i, 1 ≤ i ≤ k → log !! i = log' !! i) → log_upto log k = log_upto log' k.
Proof.
  intros Hext. unfold log_upto.
  assert (H : Forall (λ i, log !! i = log' !! i) (range 1 (k + 1))).
  { apply Forall_forall. intros i Hi%elem_of_range. apply Hext. lia. }
  induction H as [|i ixs Hi _ IH]; csimpl; [done|]. rewrite Hi. destruct (log' !! i); [f_equal|]; done.
Qed.

(** The log after a batch of [AppendEntries]: the prefix up to
    [max prev commit] is kept, everything above comes from the request. *)
Lemma appended_log_lookup req n i :
  log_size (raft_log n) < u64_max - 1 →
  contiguous (raft_log n) → 0 ≤ commit_index n ≤ log_size (raft_log n) →
  0 ≤ ae_prev_log_index req ≤ log_size (raft_log n) →
  appended_log req n !! i =
  if decide (i ≤ ae_prev_log_index req `max` commit_index n) then raft_log n !! i
  else ae_entries req !! Z.to_nat (i - ae_prev_log_index req - 1).
Proof. apply replace_lookup. Qed.

Lemma appended_log_contiguous req n :
  log_size (raft_log n) < u64_max - 1 →
  contiguous (raft_log n) → 0 ≤ commit_index n ≤ log_size (raft_log n) →
  0 ≤ ae_prev_log_index req ≤ log_size (raft_log n) →
  contiguous (appended_log req n) ∧
  log_size (appended_log req n) =
    (ae_prev_log_index req + Z.of_nat (length (ae_entries req))) `max`
    (ae_prev_log_index req `max` commit_index n).
Proof. apply replace_contiguous. Qed.

(** ** Applied prefix *)

(** The state machine holds the committed prefix, applied to [sm]. *)
Definition applied (sm : sm_state) n : Prop :=
  rsm n = (apply_all (entry_request <$> log_upto (raft_log n) (commit_index n))
             (ExactlyOnce_new sm)).2.

Lemma apply_all_snoc rs r m :
  (apply_all (rs ++ [r]) m).2 = (ExactlyOnce_Apply r (apply_all rs m).2).2.
Proof.
  rewrite apply_all_app. destruct (apply_all rs m) as [o m1]. simpl.
  by destruct (ExactlyOnce_Apply r m1).
Qed.

(** A loop that applies the entries [c+1 .. c'] in order. *)
Lemma apply_range_applied (body : Z → RaftNode → outcome RaftNode) sm n n' c c' :
  (∀ i m m', body i m = Done m' →
     raft_log m' = raft_log m ∧
     ∃ e, raft_log m !! i = Some e ∧ rsm m' = (ExactlyOnce_Apply (entry_request e) (rsm m)).2) →
  0 ≤ c ≤ c' →
  for_each (range (c + 1) (c' + 1)) body n = Done n' →
  rsm n = (apply_all (entry_request <$> log_upto (raft_log n) c) (ExactlyOnce_new sm)).2 →
  rsm n' = (apply_all (entry_request <$> log_upto (raft_log n) c') (ExactlyOnce_new sm)).2.
Proof.
  intros Hbody Hcc Hrun Hinit.
  set (P := λ (xs : list Z) m, ∃ k, c ≤ k ≤ c' ∧ xs = range (k + 1) (c' + 1) ∧
    raft_log m = raft_log n ∧
    rsm m = (apply_all (entry_request <$> log_upto (raft_log n) k) (ExactlyOnce_new sm)).2).
  assert (HP : P [] n').
  { refine (for_each_inv P _ _ _ _ Hrun _ _); [exists c; split_and!; [lia..|done|done|done]|].
    intros x xs m m' (k & Hk & Hxs & Hlog & Hrsm) Hb.
    assert (Hlt : k < c').
    { destruct (decide (k < c')); [done|]. by rewrite range_nil in Hxs by lia. }
    rewrite range_cons in Hxs by lia. simplify_eq.
    destruct (Hbody _ _ _ Hb) as [Hlog' (e & He & Hrsm')].
    exists (k + 1). split_and!; [lia..|done|congruence|].
    rewrite Hlog in He. rewrite (log_upto_snoc _ _ e) by (lia || done).
    rewrite fmap_app, Hrsm', Hrsm. symmetry. apply apply_all_snoc. }
  destruct HP as (k & Hk & Hnil & _ & Hrsm).
  assert (k = c') as ->; [|done].
  destruct (decide (k = c')); [done|]. by rewrite range_cons in Hnil by lia.
Qed.
End logs.

(** ** The commit search *)

Section commit.
Context {AM : AnyMessage} {SM : IStateMachine}.
Implicit Types n : RaftNode.

(** The number of nodes known to store the entry at [index]. *)
Definition replicas n (index : Z) : nat := length (filter (λ m : Z, index ≤ m) (match_index n)).

Lemma match_count_eq n index :
  length (match_index n) = nodes_count n → match_count n index = Done (replicas n index).
Proof.
  unfold match_count, replicas. intros <-.
  set (body := λ id count, _).
  enough (H : ∀ (l : list Z) k acc, drop k (match_index n) = l →
    for_each (seq k (length l)) body acc = Done (acc + length (filter (λ m, (index ≤ m)%Z) l))%nat)
    by (apply (H _ 0%nat 0%nat); by rewrite drop_0).
  intros l. induction l as [|m l IH]; intros k acc Hd; simpl; [by rewrite Nat.add_0_r|].
  assert (Hk : match_index n !! k = Some m).
  { rewrite <-(Nat.add_0_r k), <-lookup_drop, Hd. done. }
  assert (Hb : body k acc = Done (if decide (index ≤ m) then S acc else acc)).
  { unfold body. by rewrite (proj2 (vec_get_Done _ _ _) Hk). }
  rewrite Hb. simpl.
  rewrite filter_cons, IH by (rewrite <-(Nat.add_1_r k), <-drop_drop, Hd; done).
  f_equal. case_decide; simpl; lia.
Qed.

(** Whether a majority stores the entry at [index] and it may be committed
    by counting replicas. *)
Definition committable n (index : Z) : Prop :=
  commit_index n < index ∧ current_term_start_index n ≤ index ∧
  (MajorityCount n ≤ replicas n index)%nat.

Lemma find_commit_spec fuel n index :
  length (match_index n) = nodes_count n →
  fuel = Z.to_nat (index - commit_index n) →
  ∃ c, find_commit fuel n index = Done c ∧
    (c = commit_index n ∨ committable n c ∧ c ≤ index) ∧
    (∀ i, committable n i → i ≤ index → i ≤ c).
Proof.
  intros Hlen. revert index. induction fuel as [|fuel IH]; intros index Hf; simpl.
  { eexists. split_and!; [done|by left|]. intros i [? _]. lia. }
  case_decide as Hc.
  2: { eexists. split_and!; [done|by left|]. intros i (? & ? & _). lia. }
  rewrite match_count_eq by done. simpl. case_decide as Hm.
  { exists index. split_and!; [done|right; unfold committable; split_and!; (done || lia)|done]. }
  destruct (IH (index - 1)) as (c & -> & Hcase & Hmax); [lia|].
  exists c. split_and!; [done|destruct Hcase as [|[? ?]]; [by left|right; split; [done|lia]]|].
  intros i Hi Hle. destruct (decide (i = index)) as [->|]; [|apply Hmax; [done|lia]].
  by destruct Hi as (_ & _ & ?).
Qed.

Lemma UpdateCommitIndex_applied sm n n' :
  length (match_index n) = nodes_count n → 0 ≤ commit_index n →
  UpdateCommitIndex n = Done n' → applied sm n → applied sm n'.
Proof.
  intros Hlen Hpos H Hap. unfold UpdateCommitIndex in H. outcome_inv.
  destruct (find_commit_spec _ n (GetSavedLogSize n) Hlen eq_refl) as (c & Hc & Hcase & _).
  match goal with H : find_commit _ _ _ = _ |- _ => rewrite Hc in H; injection H as <- end.
  assert (commit_index n ≤ c) by (destruct Hcase as [|[[? _] _]]; lia).
  unfold applied in *. simpl.
  match goal with H : for_each _ _ _ = Done ?m |- _ => rename H into Hloop end.
  pose proof (apply_loop_shape _ _ _ Hloop) as (r & f & Heq).
  refine (eq_trans (apply_range_applied apply_committed sm n _ _ c _ _ Hloop Hap) _);
    [|lia|by subst].
  intros i m m' (e & g & He & ->)%apply_committed_shape. simpl. eauto.
Qed.

Lemma UpdateCommitIndex_bounds n n' :
  length (match_index n) = nodes_count n → commit_index n ≤ GetSavedLogSize n →
  UpdateCommitIndex n = Done n' →
  ∃ c r f, n' = set_commit_index c (set_frames f (set_rsm r n)) ∧
    commit_index n ≤ c ≤ GetSavedLogSize n.
Proof.
  intros Hlen Hle (c & r & f & -> & Hf)%UpdateCommitIndex_shape.
  destruct (find_commit_spec _ n (GetSavedLogSize n) Hlen eq_refl) as (c' & Hc & Hcase & _).
  rewrite Hc in Hf. injection Hf as ->. eexists _, _, _. split; [done|].
  destruct Hcase as [|[[? _] ?]]; lia.
Qed.
End commit.

(** ** The invariant of a node *)

Section invariant.
Context {AM : AnyMessage} {SM : IStateMachine}.
Implicit Types n : RaftNode.

Definition self n : nat := node_id (config n).

(** The number of the last entry of a leader, saved or pending. *)
Definition full_size n : Z := log_size (raft_log n) + Z.of_nat (length (pending_log n)).

Record leader_ok (B : Z) n : Prop := {
  lo_match : length (match_index n) = nodes_count n;
  lo_next : length (next_index n) = nodes_count n;
  lo_self : next_index n !! self n = Some (full_size n + 1);
  lo_bound : full_size n ≤ B;
  lo_others : ∀ id next, next_index n !! id = Some next → 1 ≤ next ≤ full_size n + 1;
}.

(** [B] bounds the length of every log of the cluster. *)
Record node_ok (B : Z) n : Prop := {
  ok_term : has_term n;
  ok_contiguous : contiguous (raft_log n);
  ok_commit : 0 ≤ commit_index n ≤ log_size (raft_log n);
  ok_bound : log_size (raft_log n) ≤ B;
  ok_id : (self n < nodes_count n)%nat;
  ok_leader : state n = Leader → leader_ok B n;
}.

(** A step never lowers the commit index, never touches a committed entry,
    and keeps the state machine equal to the committed prefix. *)
Record grows n n' : Prop := {
  gr_config : config n' = config n;
  gr_commit : commit_index n ≤ commit_index n';
  gr_prefix : ∀ i, i ≤ commit_index n → raft_log n' !! i = raft_log n !! i;
  gr_applied : ∀ sm, applied sm n → applied sm n';
}.

Lemma grows_refl n : grows n n.
Proof. by split. Qed.

Lemma grows_trans n1 n2 n3 : grows n1 n2 → grows n2 n3 → grows n1 n3.
Proof.
  intros [H1 H2 H3 H4] [K1 K2 K3 K4]. split; [congruence|lia| |auto].
  intros i Hi. rewrite K3 by lia. auto.
Qed.

(** Operations that touch neither log, commit index nor state machine, and
    leave the bookkeeping of a leader alone. *)
Record keeps n n' : Prop := {
  ke_config : config n' = config n;
  ke_log : raft_log n' = raft_log n;
  ke_commit : commit_index n' = commit_index n;
  ke_rsm : rsm n' = rsm n;
  ke_term : has_term n → has_term n';
  ke_leader : state n' = Leader →
    state n = Leader ∧ match_index n' = match_index n ∧ next_index n' = next_index n ∧
    pending_log n' = pending_log n;
}.

Lemma keeps_refl n : keeps n n.
Proof. by split. Qed.

Lemma keeps_trans n1 n2 n3 : keeps n1 n2 → keeps n2 n3 → keeps n1 n3.
Proof.
  intros [H1 H2 H3 H4 H5 H6] [K1 K2 K3 K4 K5 K6]. split; try congruence; [auto|].
  intros Hl. destruct (K6 Hl) as (Hl' & ? & ? & ?). destruct (H6 Hl') as (? & ? & ? & ?).
  split_and!; congruence.
Qed.

Lemma keeps_grows n n' : keeps n n' → grows n n'.
Proof.
  intros [H1 H2 H3 H4 H5 H6]. split; [done|lia|by rewrite H2|].
  intros sm. unfold applied. by rewrite H2, H3, H4.
Qed.

Lemma keeps_ok B n n' : keeps n n' → node_ok B n → node_ok B n'.
Proof.
  intros [H1 H2 H3 H4 H5 H6] [K1 K2 K3 K4 K5 K6].
  split; unfold self, nodes_count in *; rewrite ?H1, ?H2, ?H3; auto.
  intros Hl. destruct (H6 Hl) as (Hl' & Hm & Hn & Hp). destruct (K6 Hl') as [L1 L2 L3 L4 L5].
  split; unfold self, nodes_count, full_size in *; rewrite ?H1, ?H2, ?Hm, ?Hn, ?Hp; auto.
Qed.

Lemma node_ok_mono B B' n : B ≤ B' → node_ok B n → node_ok B' n.
Proof.
  intros HB [K1 K2 K3 K4 K5 K6]. split; try done; [lia|].
  intros Hl. destruct (K6 Hl) as [L1 L2 L3 L4 L5]. split; try done. lia.
Qed.

(** *** Operations that keep the data *)

Lemma same_data_keeps n n' : same_data n n' → (state n' = Leader → state n = Leader) → keeps n n'.
Proof.
  intros (H1 & H2 & H3 & H4 & H5 & H6 & H7 & H8 & H9 & H10) Hs.
  split; [done..|by unfold has_term; rewrite H2|]. auto.
Qed.

Lemma UpdateTerm_keeps t v n n' : UpdateTerm t v n = Done n' → keeps n n'.
Proof. intros (db & -> & _ & _ & Ht & _)%UpdateTerm_shape. by split. Qed.

Lemma step_down_keeps n n' :
  (if decide (state n ≠ Follower) then BecomeFollower n else Done n) = Done n' → keeps n n'.
Proof. intros [Hs Hd]%step_down_shape. apply same_data_keeps; [done|congruence]. Qed.

Lemma add_heartbeat_guard_keeps id n : keeps n (add_heartbeat_guard id n).
Proof. unfold add_heartbeat_guard. destruct (stopped _); by split. Qed.

Lemma Session_resume_keeps id n : keeps n (Session_resume id n).
Proof. by split. Qed.

Lemma StartFollower_end_keeps n n' : StartFollower_end n = Done n' → keeps n n'.
Proof.
  unfold StartFollower_end. destruct (stopped _); intros H; outcome_inv; [apply keeps_refl|].
  apply BecomeCandidate_shape in H as (_ & Hs & Hd). apply same_data_keeps; [done|congruence].
Qed.

Lemma StartCandidate_begin_keeps n req n' :
  StartCandidate_begin n = Done (req, n') → keeps n n'.
Proof.
  unfold StartCandidate_begin. simpl. intros H. outcome_inv.
  match goal with H : UpdateTerm _ _ _ = _ |- _ => apply UpdateTerm_keeps in H end.
  eapply keeps_trans; [|done]. by split.
Qed.

Lemma StartCandidate_vote_keeps result votes n votes' n' :
  StartCandidate_vote result votes n = Done (votes', n') → keeps n n' ∨ BecomeLeader n = Done n'.
Proof.
  unfold StartCandidate_vote. intros H.
  destruct result as [r|]; outcome_inv; [|left; apply keeps_refl].
  case_decide; outcome_inv.
  - left. eapply keeps_trans; [by eapply UpdateTerm_keeps|by eapply step_down_keeps].
  - case_match; outcome_inv; [left; apply keeps_refl|].
    case_decide; outcome_inv; [by right|left; apply keeps_refl].
Qed.

Lemma Execute_finish_keeps id n res n' : Execute_finish id n = Done (res, n') → keeps n n'.
Proof.
  unfold Execute_finish. intros H. destruct (frames n !! id); outcome_inv.
  case_decide; outcome_inv; by split.
Qed.

Lemma RequestVote_keeps req n res n' : RequestVote req n = Done (res, n') → keeps n n'.
Proof.
  unfold RequestVote. intros H. outcome_inv. case_decide; outcome_inv; [apply keeps_refl|].
  match goal with H : (if decide (_ < rv_term req) then _ else _) = Done ?m |- _ =>
    rename m into n1; rename H into Hup end.
  assert (Hn1 : keeps n n1).
  { case_if Hup as [Hnew|Hnew]; [|apply keeps_refl].
    eapply keeps_trans; [by eapply UpdateTerm_keeps|by eapply step_down_keeps]. }
  do 2 (case_decide; outcome_inv; [done|]).
  match goal with |- context [if ?g then set_raft_state _ _ else _] => destruct g end; [|done].
  eapply keeps_trans; [done|]. split; try done.
  unfold has_term. simpl. unfold kv_Put. by rewrite lookup_insert_ne.
Qed.

Lemma AppendEntries_follow_keeps req n n' : AppendEntries_follow req n = Done n' → keeps n n'.
Proof.
  unfold AppendEntries_follow. intros H. outcome_inv.
  eapply (keeps_trans _ (set_reset_election_timeout _ n)); [by split|].
  match goal with H : (if _ then BecomeFollower ?n0 else _) = Done ?m |- _ =>
    assert (Hbf : keeps n0 m) end.
  { case_if H0 as [Hd|Hd]; [|apply keeps_refl].
    apply BecomeFollower_shape in H0 as (_ & Hs & Hdata). apply same_data_keeps; [done|congruence]. }
  eapply keeps_trans; [exact Hbf|].
  case_decide; outcome_inv; [by eapply UpdateTerm_keeps|apply keeps_refl].
Qed.
End invariant.
