(* ===== verification/RaftProcessOk.v ===== *)
(** * Invariant of a Raft process

    The operations that change the log, the commit index or the bookkeeping
    of a leader preserve the invariant of RaftInvariant.v, and so does every
    step of a process, together with what is known about its fibers: the main
    session has saved everything below [match_index] of the leader, and a
    session waiting for a reply has not moved [next_index] since it sent its
    request. *)

From S2P Require Import Prelude.
From S2P Require Import Result.
From S2P Require Import RtTypes.
From S2P Require Import KVInterface.
From S2P Require Import Logs.
From S2P Require Import StateMachine.
From S2P Require Import RaftNode.
From S2P Require Import RaftProcess.
From S2P Require Import RaftNodeProps.
From S2P Require Import RaftInvariant.

Local Open Scope Z_scope.

Section leader_ops.
Context {AM : AnyMessage} {SM : IStateMachine}.
Implicit Types n : RaftNode.

(** The log of a leader with the entries it has not saved yet. *)
Definition full_log n : Z → option LogEntry := extended (raft_log n) (pending_log n).

Lemma BecomeLeader_ok B n n' :
  small B → node_ok B n → BecomeLeader n = Done n' → node_ok B n' ∧ grows n n'.
Proof.
  intros HB Hok (_ & Hs & Hc & Hrs & Hl & Hci & Hr & Hp & _ & _ & _ & Hn & Hm)%BecomeLeader_shape.
  destruct Hok as [K1 K2 K3 K4 K5 _].
  pose proof (contiguous_size _ K2) as Hpos.
  assert (Hfull : full_size n' = log_size (raft_log n)).
  { unfold full_size. rewrite Hl, Hp. simpl. lia. }
  rewrite GetSavedLogSize_log, add64_small in Hn by word.
  split.
  - split; unfold self, has_term, nodes_count in *; rewrite ?Hc, ?Hl, ?Hci, ?Hrs; auto. intros _.
    split; unfold self, nodes_count in *; rewrite ?Hfull, ?Hm, ?Hn, ?Hc, ?length_replicate;
      [done|done|by apply lookup_replicate_2|done|].
    intros id next [-> _]%lookup_replicate. lia.
  - split; [done|lia|by rewrite Hl|]. intros sm. unfold applied. by rewrite Hl, Hci, Hr.
Qed.

Lemma Execute_begin_shape req n res n' :
  Execute_begin req n = Done (res, n') →
  n' = n ∧ state n ≠ Leader ∧ res = inl (MkResponse NotALeader any_default) ∨
  state n = Leader ∧ has_term n ∧ ∃ index,
    next_index n !! self n = Some index ∧
    next_index n' = <[self n := index +64 1]> (next_index n) ∧
    pending_log n' = pending_log n ++ [MkLogEntry (term n) req] ∧
    config n' = config n ∧ raft_log n' = raft_log n ∧ commit_index n' = commit_index n ∧
    rsm n' = rsm n ∧ raft_state n' = raft_state n ∧ match_index n' = match_index n ∧
    state n' = Leader.
Proof.
  unfold Execute_begin. intros H. case_decide as Hs; outcome_inv; [by left|].
  destruct (decide (state n = Leader)) as [Hl|]; [|done].
  match goal with H : GetCurrentTerm _ = _ |- _ => apply GetCurrentTerm_Done in H as [Ht <-] end.
  right. split_and!; [done|exact Ht|]. eexists. split_and!; try done.
Qed.

Lemma Execute_begin_ok B req n res n' :
  small B → node_ok B n → Execute_begin req n = Done (res, n') →
  node_ok (B + 1) n' ∧ grows n n'.
Proof.
  intros HB Hok [(-> & _)|(Hs & _ & index & Hi & Hnext & Hp & Hc & Hl & Hci & Hr & Hrs & Hm & Hs')]%Execute_begin_shape.
  { split; [|apply grows_refl]. eapply node_ok_mono; [|done]. lia. }
  split.
  2: { split; [done|lia|by rewrite Hl|]. intros sm. unfold applied. by rewrite Hl, Hci, Hr. }
  destruct Hok as [K1 K2 K3 K4 K5 K6]. destruct (K6 Hs) as [L1 L2 L3 L4 L5].
  pose proof (contiguous_size _ K2) as Hpos. rewrite Hi in L3. injection L3 as ->.
  assert (0 ≤ full_size n) by (unfold full_size; lia).
  rewrite add64_small in Hnext by word.
  assert (Hfull : full_size n' = full_size n + 1).
  { unfold full_size. rewrite Hl, Hp, length_app. simpl. lia. }
  split; unfold self, has_term, nodes_count in *; rewrite ?Hc, ?Hl, ?Hci, ?Hrs; auto; [lia|].
  intros _. split; unfold self, nodes_count in *; rewrite ?Hfull, ?Hm, ?Hnext, ?Hc, ?length_insert;
    try done; [|lia|].
  - by rewrite list_lookup_insert_eq by lia.
  - intros id next [[<- [<- _]]|[_ Hlk]]%list_lookup_insert_Some; [lia|].
    apply L5 in Hlk. lia.
Qed.

(** *** The main session *)

Lemma LeaderMainSession_start_ok B n n' :
  node_ok B n → LeaderMainSession_start n = Done n' →
  node_ok B n' ∧ grows n n' ∧
  ∃ m, n' = set_match_index m n ∧ m !! self n = Some (log_size (raft_log n)) ∧
    length m = length (match_index n).
Proof.
  unfold LeaderMainSession_start. intros Hok H. outcome_inv.
  split_and!.
  - destruct Hok as [K1 K2 K3 K4 K5 K6]. split; try done.
    intros Hs. destruct (K6 Hs) as [L1 L2 L3 L4 L5]. split; try done.
    simpl. by rewrite length_insert.
  - by split.
  - eexists. split_and!; [done| |by rewrite length_insert]. by rewrite list_lookup_insert_eq.
Qed.

(** The first half of an iteration of the main session: the pending entries are
    saved and cleared, nothing else changes but [match_index]. *)
Record saves n n1 : Prop := {
  sv_config : config n1 = config n;
  sv_state : state n1 = Leader;
  sv_term : raft_state n1 = raft_state n;
  sv_commit : commit_index n1 = commit_index n;
  sv_rsm : rsm n1 = rsm n;
  sv_next : next_index n1 = next_index n;
  sv_pending : pending_log n1 = [];
  sv_contiguous : contiguous (raft_log n1);
  sv_size : log_size (raft_log n1) = full_size n;
  sv_log : ∀ i, raft_log n1 !! i = full_log n i;
  sv_match : length (match_index n1) = length (match_index n);
  sv_self : match_index n1 !! self n = Some (full_size n);
  sv_frames : frames n1 = frames n;
  sv_requests : pending_requests n1 = pending_requests n;
  sv_source : stop_leader n1 = stop_leader n;
  sv_names : next_name n1 = next_name n;
  sv_start : current_term_start_index n1 = current_term_start_index n;
  sv_counts : match_index n1 = <[self n := full_size n]> (match_index n);
}.

Lemma LeaderMainSession_iteration_shape B n n' :
  small B → node_ok B n → state n = Leader →
  match_index n !! self n = Some (log_size (raft_log n)) →
  LeaderMainSession_iteration n = Done n' →
  ∃ n1 n2, saves n n1 ∧ UpdateCommitIndex n1 = Done n2 ∧ n' = add_heartbeat_guard (self n) n2.
Proof.
  intros HB Hok Hs Hself H. unfold LeaderMainSession_iteration in H. outcome_inv.
  match goal with H : match_index n !! _ = _ |- _ => unfold self in *; rewrite Hself in H;
    injection H as <- end.
  destruct Hok as [K1 K2 K3 K4 K5 K6]. destruct (K6 Hs) as [L1 L2 L3 L4 L5].
  pose proof (contiguous_size _ K2) as Hpos. simpl in *. unfold full_size in *.
  destruct (extend_contiguous (raft_log n) (pending_log n)) as (Hlk & Hcont & Hsize); [done|word|].
  eexists _, _. split; [|by split].
  split; simpl; rewrite ?(add64_small (log_size _)) by word; try done; [by rewrite length_insert|].
  unfold self. by rewrite list_lookup_insert_eq by done.
Qed.

Lemma saves_ok B n n1 :
  node_ok B n → state n = Leader → saves n n1 →
  node_ok B n1 ∧ grows n n1 ∧ full_size n1 = full_size n ∧ ∀ i, full_log n1 i = full_log n i.
Proof.
  intros [K1 K2 K3 K4 K5 K6] Hs [Hc Hs1 Hrs Hci Hr Hn Hp Hcont Hsize Hlk Hlen Hm _ _ _ _ _ _].
  destruct (K6 Hs) as [L1 L2 L3 L4 L5].
  assert (Hfull : full_size n1 = full_size n) by (unfold full_size at 1; rewrite Hsize, Hp; simpl; lia).
  assert (Hge : log_size (raft_log n) ≤ full_size n) by (unfold full_size; lia).
  assert (Hlow : ∀ i, i ≤ commit_index n → raft_log n1 !! i = raft_log n !! i).
  { intros i Hi. rewrite Hlk. unfold full_log, extended. by rewrite decide_True by lia. }
  split_and!; [| |done|].
  - split; unfold self, has_term, nodes_count in *; rewrite ?Hc, ?Hci, ?Hrs; auto; [lia|lia|].
    intros _. split; unfold self, nodes_count in *; rewrite ?Hfull, ?Hn, ?Hc; auto. congruence.
  - split; [done|lia|done|]. intros sm. unfold applied. rewrite Hci, Hr. intros ->.
    do 2 f_equal. f_equal. apply log_upto_ext. intros i [_ Hi]. by rewrite Hlow.
  - intros i. unfold full_log at 1. unfold extended at 1. rewrite Hp, <-Hlk. case_decide as Hi; [done|].
    simpl. symmetry. apply eq_None_not_Some. intros Hsome%Hcont. lia.
Qed.

Lemma UpdateCommitIndex_ok B n n' :
  node_ok B n → state n = Leader → UpdateCommitIndex n = Done n' →
  node_ok B n' ∧ grows n n' ∧ state n' = Leader ∧ raft_log n' = raft_log n ∧
  pending_log n' = pending_log n ∧ match_index n' = match_index n ∧ next_index n' = next_index n ∧
  raft_state n' = raft_state n.
Proof.
  intros [K1 K2 K3 K4 K5 K6] Hs H. destruct (K6 Hs) as [L1 L2 L3 L4 L5].
  pose proof (UpdateCommitIndex_applied) as Hap.
  destruct (UpdateCommitIndex_bounds n n') as (c & r & f & Heq & Hc); [done|exact (proj2 K3)|done|].
  rewrite GetSavedLogSize_log in Hc.
  split_and!; try (by rewrite Heq).
  - rewrite Heq. split; try done. simpl. lia.
  - split; try (rewrite Heq; simpl; done || lia).
    intros sm. apply Hap; [done|lia|done].
Qed.

Lemma LeaderMainSession_iteration_ok B n n' :
  small B → node_ok B n → state n = Leader →
  match_index n !! self n = Some (log_size (raft_log n)) →
  LeaderMainSession_iteration n = Done n' →
  node_ok B n' ∧ grows n n' ∧ state n' = Leader ∧ full_size n' = full_size n ∧
  next_index n' = next_index n ∧ match_index n' !! self n = Some (log_size (raft_log n')) ∧
  (∀ i, full_log n' i = full_log n i) ∧ raft_state n' = raft_state n ∧ raft_log n ⊆ raft_log n'.
Proof.
  intros HB Hok Hs Hself H.
  destruct (LeaderMainSession_iteration_shape B n n') as (n1 & n2 & Hsv & Hu & ->); [done..|].
  destruct (saves_ok B n n1 Hok Hs Hsv) as (Hok1 & Hgr1 & Hfull1 & Hlog1).
  destruct (UpdateCommitIndex_ok B n1 n2) as (Hok2 & Hgr2 & Hs2 & Hl2 & Hp2 & Hm2 & Hn2 & Hrs2);
    [done|apply (sv_state _ _ Hsv)|done|].
  pose proof (add_heartbeat_guard_keeps (self n) n2) as Hk.
  assert (Hkl := ke_log _ _ Hk).
  assert (Hd : state (add_heartbeat_guard (self n) n2) = Leader ∧
    pending_log (add_heartbeat_guard (self n) n2) = pending_log n2 ∧
    raft_state (add_heartbeat_guard (self n) n2) = raft_state n2 ∧
    next_index (add_heartbeat_guard (self n) n2) = next_index n2 ∧
    match_index (add_heartbeat_guard (self n) n2) = match_index n2).
  { unfold add_heartbeat_guard. destruct (stopped _); by split_and!. }
  destruct Hd as (Hd1 & Hd2 & Hd3 & Hd4 & Hd5).
  destruct Hsv as [Hc Hs1 Hrs Hci Hr Hn Hp Hcont Hsize Hlk Hlen Hm _ _ _ _ _ _].
  split_and!; try congruence.
  - by eapply keeps_ok.
  - eapply grows_trans; [done|]. eapply grows_trans; [done|]. by apply keeps_grows.
  - rewrite <-Hfull1. unfold full_size. by rewrite Hkl, Hd2, Hp2, Hl2.
  - intros i. rewrite <-Hlog1. unfold full_log, extended. by rewrite Hkl, Hd2, Hp2, Hl2.
  - rewrite Hkl, Hl2. apply map_subseteq_spec. intros i e Hi. rewrite Hlk. unfold full_log, extended.
    assert (1 ≤ i ≤ log_size (raft_log n)) by (apply (ok_contiguous _ _ Hok); eauto). by rewrite decide_True by lia.
Qed.
End leader_ops.

Section session_ops.
Context {AM : AnyMessage} {SM : IStateMachine}.
Implicit Types n : RaftNode.

(** *** The requests of a session *)

Lemma GetLogEntry_full B n i e :
  small B → node_ok B n → state n = Leader →
  GetLogEntry n i = Done e → full_log n i = Some e ∧ 1 ≤ i ≤ full_size n.
Proof.
  intros HB [K1 K2 K3 K4 K5 K6] Hs H. destruct (K6 Hs) as [L1 L2 L3 L4 L5].
  pose proof (contiguous_size _ K2) as Hpos. unfold GetLogEntry in H. outcome_inv.
  rewrite GetSavedLogSize_log in *. unfold full_log, extended. unfold full_size in *.
  rewrite add64_small in * by word. split; [|lia]. case_decide; [by apply kv_Get_value in H0|].
  outcome_inv. rewrite (sub64_small i), sub64_small in * by word. done.
Qed.

Record request_of n (id : nat) (req : AppendEntriesRequest) : Prop := {
  ro_term : ae_term req = term n;
  ro_prev : 0 ≤ ae_prev_log_index req;
  ro_next : next_index n !! id = Some (ae_prev_log_index req + 1);
  ro_size : ae_prev_log_index req + Z.of_nat (length (ae_entries req)) = full_size n;
  ro_prev_term : if decide (ae_prev_log_index req = 0) then ae_prev_log_term req = 0
    else ∃ e, raft_log n !! ae_prev_log_index req = Some e ∧ entry_term e = ae_prev_log_term req;
  ro_entries : ∀ k e, ae_entries req !! k = Some e →
    full_log n (ae_prev_log_index req + 1 + Z.of_nat k) = Some e;
  ro_commit : ae_leader_commit req = commit_index n;
  ro_leader : ae_leader_id req = Z.of_nat (self n);
}.

Lemma LeaderNodeSession_request_ok B id n req :
  small B → node_ok B n → state n = Leader →
  LeaderNodeSession_request id n = Done req → request_of n id req.
Proof.
  intros HB Hok Hs H. pose proof Hok as [K1 K2 K3 K4 K5 K6]. destruct (K6 Hs) as [L1 L2 L3 L4 L5].
  pose proof (contiguous_size _ K2) as Hpos. unfold LeaderNodeSession_request in H. outcome_inv.
  match goal with H : next_index n !! id = Some ?x |- _ => rename x into next; rename H into Hnext end.
  pose proof (L5 _ _ Hnext) as Hb. unfold self in *.
  match goal with H : next_index n !! node_id _ = Some ?x |- _ => rewrite L3 in H; injection H as <- end.
  match goal with H : for_each _ _ _ = _ |- _ => apply for_each_collect in H as [Hlen Hent] end.
  match goal with H : GetCurrentTerm _ = _ |- _ => apply GetCurrentTerm_Done in H as [_ <-] end.
  rewrite (sub64_small next 1) in * by word.
  split; simpl; try done; try lia.
  - by rewrite Z.sub_add.
  - match goal with H : (if decide (next = 1) then _ else _) = _ |- _ => rename H into Hpt end.
    destruct (decide (next = 1)) as [->|Hne].
    + outcome_inv. by rewrite decide_True by lia.
    + rewrite decide_False by lia. apply fmap_Done in Hpt as (e & He & <-).
      apply kv_Get_value in He. eauto.
  - intros k e Hk. apply Hent in Hk. eapply GetLogEntry_full in Hk as [Hk _]; [|done..].
    rewrite <-Hk. f_equal. lia.
Qed.

(** *** The replies to a session *)

Lemma LeaderNodeSession_response_ok B id req result n next n' :
  small B → node_ok B n → id ≠ self n →
  (state n = Leader → next_index n !! id = Some (ae_prev_log_index req + 1) ∧
     0 ≤ ae_prev_log_index req ∧
     ae_prev_log_index req + Z.of_nat (length (ae_entries req)) ≤ full_size n) →
  LeaderNodeSession_response id req result n = Done (next, n') →
  node_ok B n' ∧ grows n n' ∧
  (state n' = Leader → state n = Leader ∧ raft_log n' = raft_log n ∧
    pending_log n' = pending_log n ∧ raft_state n' = raft_state n ∧
    match_index n' !! self n = match_index n !! self n ∧
    ∀ id', id' ≠ id → next_index n' !! id' = next_index n !! id').
Proof.
  intros HB Hok Hid Hreq H. unfold LeaderNodeSession_response in H.
  case_if H as [Hs|Hs].
  { split_and!; [done|apply grows_refl|done]. }
  destruct (decide (state n = Leader)) as [Hl|]; [|done]. clear Hs.
  destruct (Hreq Hl) as (Hnext & Hprev & Hlen).
  destruct result as [response|]; outcome_inv; [|split_and!; [done|apply grows_refl|done]].
  match goal with H : (if decide (_ < aer_term _) then _ else _) = _ |- _ => rename H into Hrest end.
  case_if Hrest as [Hlt|Hge].
  { match goal with H : UpdateTerm _ _ _ = _, H' : (if decide _ then BecomeFollower _ else _) = _ |- _ =>
      pose proof (UpdateTerm_keeps _ _ _ _ H) as Hk1; pose proof (step_down_keeps _ _ H') as Hk2;
      apply step_down_shape in H' as [Hs' _] end.
    pose proof (keeps_trans _ _ _ Hk1 Hk2) as Hk.
    split_and!; [by eapply keeps_ok|by apply keeps_grows|by rewrite Hs']. }
  match goal with H : next_index n !! id = Some ?x, K : next_index n !! id = Some _ |- _ =>
    rewrite K in H; injection H as <- end.
  pose proof Hok as [K1 K2 K3 K4 K5 K6]. destruct (K6 Hl) as [L1 L2 L3 L4 L5].
  assert (full_size n ≤ B) by done. pose proof (contiguous_size _ K2).
  match goal with H : (if negb _ then _ else _) = _ |- _ => rename H into Hrest end.
  destruct (aer_success response); simpl in Hrest; outcome_inv.
  - set (n1 := set_next_index _ _) in *.
    match goal with H : UpdateCommitIndex n1 = Done ?x |- _ => rename x into n2; rename H into Hu end.
    assert (Hok1 : node_ok B n1).
    { split; try done. intros _. split; try done; simpl; rewrite ?length_insert; try done.
      - unfold self in *. simpl. by rewrite list_lookup_insert_ne by done.
      - intros id' nx [[<- [<- _]]|[_ Hlk]]%list_lookup_insert_Some; [|by apply (L5 _ _ Hlk)].
        rewrite add64_small by word. change (full_size n1) with (full_size n). lia. }
    destruct (UpdateCommitIndex_ok B n1 n2) as (Hok2 & Hgr2 & Hs2 & Hl2 & Hp2 & Hm2 & Hn2 & Hrs2); [done..|].
    assert (Hd : node_ok B n2 ∧ grows n n2 ∧
      (state n2 = Leader → state n = Leader ∧ raft_log n2 = raft_log n ∧
        pending_log n2 = pending_log n ∧ raft_state n2 = raft_state n ∧
        match_index n2 !! self n = match_index n !! self n ∧
        ∀ id', id' ≠ id → next_index n2 !! id' = next_index n !! id')).
    { split_and!; [done|by apply (grows_trans _ n1); [by split|]|]. intros _.
      rewrite Hl2, Hp2, Hrs2, Hm2, Hn2. split_and!; try done; simpl.
      - by rewrite list_lookup_insert_ne by done.
      - intros id' Hne. by rewrite list_lookup_insert_ne by done. }
    match goal with H : (if decide (_ = _) then _ else _) = Done _ |- _ => rename H into Hfin end.
    case_if Hfin as [_|_]; [|done].
    destruct Hd as (Hd1 & Hd2 & Hd3). pose proof (add_heartbeat_guard_keeps id n2) as Hk.
    split_and!; [by eapply keeps_ok|by eapply grows_trans; [|apply keeps_grows]|].
    unfold add_heartbeat_guard. destruct (stopped _); done.
  - split_and!; [|by split|].
    + split; try done. intros _. split; try done; simpl; rewrite ?length_insert; try done.
      * unfold self in *. simpl. by rewrite list_lookup_insert_ne by done.
      * intros id' nx [[<- [<- _]]|[_ Hlk]]%list_lookup_insert_Some; [|by apply (L5 _ _ Hlk)].
        rewrite sub64_small by word. unfold full_size in *. simpl. lia.
    + intros _. split_and!; try done. intros id' Hne. simpl. by rewrite list_lookup_insert_ne by done.
Qed.

(** *** Entries from a leader *)

Variable MessageDifferencer_Equals : LogEntry → LogEntry → bool.

Definition request_bounds (B : Z) (req : AppendEntriesRequest) : Prop :=
  0 ≤ ae_prev_log_index req ∧
  ae_prev_log_index req + Z.of_nat (length (ae_entries req)) ≤ B.

Lemma AppendEntries_store_ok B req n n' :
  small B → node_ok B n → request_bounds B req →
  ae_prev_log_index req ≤ log_size (raft_log n) → state n ≠ Leader →
  AppendEntries_store MessageDifferencer_Equals req n = Done n' →
  node_ok B n' ∧ grows n n'.
Proof.
  intros HB [K1 K2 K3 K4 K5 K6] [Hb1 Hb2] Hprev Hs H.
  pose proof (AppendEntries_store_shape _ _ _ _ H) as (r & Heq).
  destruct (appended_log_contiguous req n) as [Hc Hsz]; [word|done|done|done|].
  assert (Hcommit : commit_index n ≤ new_commit req n ≤ log_size (appended_log req n)).
  { unfold new_commit. rewrite GetSavedLogSize_log. simpl. lia. }
  split; [rewrite Heq; split; simpl; [done|done|lia|lia|done|done]|].
  assert (Hlow : ∀ i, i ≤ commit_index n → appended_log req n !! i = raft_log n !! i).
  { intros i Hi. rewrite appended_log_lookup by (word || done). by rewrite decide_True by lia. }
  split; try (rewrite Heq; simpl; done || lia).
  intros sm Hap. unfold AppendEntries_store in H. outcome_inv.
  match goal with H : for_each _ (check_committed _ _) _ = _ |- _ =>
    apply check_loop_shape in H; subst end.
  match goal with H : for_each _ follower_apply _ = Done ?x |- _ => rename x into n1; rename H into Hloop end.
  fold (appended_log req n) in Hloop. fold (new_commit req n) in Hloop.
  pose proof (follower_loop_shape _ _ _ Hloop) as (r' & Hn1).
  unfold applied in *. simpl in *.
  refine (eq_trans (apply_range_applied follower_apply sm _ _ _ (new_commit req n) _ _ Hloop _) _).
  - intros i m m' Hf. unfold follower_apply in Hf. outcome_inv.
    match goal with H : GetValue _ = _ |- _ => apply kv_Get_value in H end. simpl. eauto.
  - simpl. lia.
  - simpl. rewrite Hap. do 2 f_equal. f_equal. apply log_upto_ext. intros i [_ Hi]. by rewrite Hlow.
  - simpl. congruence.
Qed.

Lemma AppendEntries_matches_size req n :
  AppendEntries_matches req n = Done true → ae_prev_log_index req ≤ log_size (raft_log n).
Proof.
  unfold AppendEntries_matches. intros H. outcome_inv. rewrite GetSavedLogSize_log in *.
  case_decide; [done|lia].
Qed.

Lemma AppendEntries_ok B req n res n' :
  small B → node_ok B n → request_bounds B req →
  AppendEntries MessageDifferencer_Equals req n = Done (res, n') →
  node_ok B n' ∧ grows n n'.
Proof.
  intros HB Hok Hreq [Ht Ho]%AppendEntries_inv. destruct Ho as [|n1 Hle Hf _|n1 n2 Hle Hf Hm Hst].
  - split; [done|apply grows_refl].
  - apply AppendEntries_follow_keeps in Hf. split; [by eapply keeps_ok|by apply keeps_grows].
  - pose proof (AppendEntries_follow_keeps _ _ _ Hf) as Hk.
    apply AppendEntries_follow_shape in Hf as (_ & _ & Hs & _); [|done].
    destruct (AppendEntries_store_ok B req n1 n2) as [Hok2 Hgr2]; [done|by eapply keeps_ok|done| | |done|].
    + by apply AppendEntries_matches_size.
    + by rewrite Hs.
    + split; [done|]. eapply grows_trans; [by apply keeps_grows|done].
Qed.
End session_ops.

(** ** Processes *)

Section processes.
Context {AM : AnyMessage} {SM : IStateMachine}.
Implicit Types (n : RaftNode) (p : Process).

(** A session that waits for the reply to [req]. *)
Definition calling_ok n (id : nat) (req : AppendEntriesRequest) : Prop :=
  next_index n !! id = Some (ae_prev_log_index req + 1) ∧
  0 ≤ ae_prev_log_index req ∧
  ae_prev_log_index req + Z.of_nat (length (ae_entries req)) ≤ full_size n.

Definition fiber_ok n (fb : fiber) : Prop :=
  match fb with
  | InLeader main sessions =>
      (∀ id s, sessions !! id = Some s → id ≠ self n) ∧
      (state n = Leader →
         match main with
         | MainNew => True
         | MainWaiting => match_index n !! self n = Some (log_size (raft_log n))
         | MainDone => False
         end ∧
         ∀ id req, sessions !! id = Some (SessionCalling req) → calling_ok n id req)
  | _ => True
  end.

Definition process_ok (B : Z) p : Prop := node_ok B (node p) ∧ fiber_ok (node p) (main_fiber p).

(** Steps of a leader that do not disturb the sessions. *)
Definition undisturbed n n' : Prop :=
  config n' = config n ∧
  (state n' = Leader →
     state n = Leader ∧ log_size (raft_log n') = log_size (raft_log n) ∧
     match_index n' !! self n = match_index n !! self n ∧ full_size n ≤ full_size n' ∧
     ∀ id, id ≠ self n → next_index n' !! id = next_index n !! id).

Lemma fiber_ok_undisturbed n n' fb : undisturbed n n' → fiber_ok n fb → fiber_ok n' fb.
Proof.
  intros [Hc Hu] Hf. destruct fb as [| | |main ss]; simpl in *; try done.
  unfold self in *. rewrite Hc. destruct Hf as [Hids Hf]. split; [done|].
  intros Hs. destruct (Hu Hs) as (Hs0 & Hsz & Hm & Hfull & Hn). destruct (Hf Hs0) as [Hmain Hcall].
  split; [destruct main; congruence|]. intros id req Hreq.
  destruct (Hcall _ _ Hreq) as (? & ? & ?). split_and!; [|done|lia].
  rewrite Hn; [done|]. by eapply Hids.
Qed.

Lemma keeps_undisturbed n n' : keeps n n' → undisturbed n n'.
Proof.
  intros [H1 H2 H3 H4 H5 H6]. split; [done|]. intros Hs. destruct (H6 Hs) as (? & Hm & Hn & Hp).
  unfold full_size. rewrite H2, Hm, Hp. split_and!; try done. intros id _. by rewrite Hn.
Qed.

Lemma Execute_begin_undisturbed B req n res n' :
  small B → node_ok B n → Execute_begin req n = Done (res, n') → undisturbed n n'.
Proof.
  intros HB Hok [(-> & _)|(Hs & _ & index & Hi & Hnext & Hp & Hc & Hl & Hci & Hr & Hrs & Hm & Hs')]%Execute_begin_shape.
  { apply keeps_undisturbed, keeps_refl. }
  split; [done|]. intros _. unfold full_size. rewrite Hl, Hm, Hp, length_app. simpl.
  split_and!; try done; [lia|]. intros id Hne. rewrite Hnext. by rewrite list_lookup_insert_ne.
Qed.

Lemma AppendEntries_undisturbed Eq B req n res n' :
  small B → node_ok B n → request_bounds B req →
  AppendEntries Eq req n = Done (res, n') → undisturbed n n'.
Proof.
  intros HB Hok Hreq H. pose proof (AppendEntries_ok _ _ _ _ _ _ HB Hok Hreq H) as [_ Hgr].
  apply AppendEntries_evolves in H as [_ [->|Hs]]; [apply keeps_undisturbed, keeps_refl|].
  split; [by apply gr_config|]. by rewrite Hs.
Qed.

Lemma main_session_run_ok B main n ss main' n' :
  small B → node_ok B n → fiber_ok n (InLeader main ss) →
  main_session_run main n = Some (Done (main', n')) →
  node_ok B n' ∧ grows n n' ∧ fiber_ok n' (InLeader main' ss).
Proof.
  intros HB Hok [Hids Hf] Hrun.
  assert (Hloop : ∀ n0, node_ok B n0 → grows n n0 →
    config n0 = config n → state n0 = state n → next_index n0 = next_index n →
    full_size n0 = full_size n →
    (state n = Leader → match_index n0 !! self n0 = Some (log_size (raft_log n0))) →
    main_session_loop n0 = Done (main', n') →
    node_ok B n' ∧ grows n n' ∧ fiber_ok n' (InLeader main' ss)).
  { intros n0 Hok0 Hgr0 Hc0 Hs0 Hn0 Hfull0 Hm0 Hl. unfold main_session_loop in Hl.
    case_if Hl as [Hlead|Hlead].
    - destruct (LeaderMainSession_iteration_ok B n0 n')
        as (Hok' & Hgr' & Hs' & Hfull' & Hn' & Hm' & _); [done..|apply Hm0; congruence|done|].
      split_and!; [done|by eapply grows_trans|].
      pose proof (gr_config _ _ Hgr') as Hc'. unfold fiber_ok, self in *. rewrite Hc', Hc0 in *.
      split; [done|]. intros _. split; [done|]. intros id req Hreq.
      destruct Hf as [_ Hcall]; [congruence|]. destruct (Hcall _ _ Hreq) as (? & ? & ?).
      unfold calling_ok. rewrite Hn', Hn0, Hfull', Hfull0. done.
    - split_and!; [done|done|]. simpl. unfold self in *. rewrite Hc0. split; [done|].
      intros ?. congruence. }
  destruct main; simpl in Hrun; [| |done]; injection Hrun as Hrun.
  - apply bind_Done in Hrun as (n0 & Hst & Hl).
    destruct (LeaderMainSession_start_ok B n n0) as (Hok0 & Hgr0 & m & -> & Hm & _); [done..|].
    apply (Hloop (set_match_index m n)); done.
  - pose proof (Session_resume_keeps (node_id (config n)) n) as Hk.
    apply (Hloop (Session_resume (node_id (config n)) n)); try done.
    + by eapply keeps_ok.
    + intros Hs. by destruct (Hf Hs).
Qed.

(** The events a process receives from the network carry bounded requests. *)
Definition event_bounds (B : Z) (ev : event) : Prop :=
  match ev with HandleAppendEntries req => request_bounds B req | _ => True end.

Definition output_bounds (B : Z) (out : output) : Prop :=
  match out with CallAppendEntries _ req => request_bounds B req | _ => True end.
Arguments output_bounds : simpl never.

Lemma other_nodes_not_self n id s :
  (list_to_map ((λ id, (id, SessionReady)) <$> other_nodes n) : gmap nat session) !! id = Some s →
  id ≠ self n ∧ s = SessionReady.
Proof.
  intros (i & [= -> ->] & Hi)%elem_of_list_to_map_2%list_elem_of_fmap.
  by apply list_elem_of_filter in Hi as [? _].
Qed.

(** A step that keeps the data, with the fiber unchanged or outside a leadership. *)
Lemma keeps_process_ok B n n' fb fb' :
  keeps n n' → node_ok B n → fiber_ok n fb →
  fb' = fb ∨ (∀ main ss, fb' ≠ InLeader main ss) →
  node_ok B n' ∧ grows n n' ∧ fiber_ok n' fb'.
Proof.
  intros Hk Hok Hf Hfb. split_and!; [by eapply keeps_ok|by apply keeps_grows|].
  destruct Hfb as [->|Hno]; [by eapply fiber_ok_undisturbed; [apply keeps_undisturbed|]|].
  destruct fb'; try done. by destruct (Hno main sessions).
Qed.

Lemma session_calls_ok B id main ss n req :
  small B → node_ok B n → fiber_ok n (InLeader main ss) → state n = Leader →
  is_Some (ss !! id) →
  LeaderNodeSession_request id n = Done req →
  fiber_ok n (InLeader main (<[id := SessionCalling req]> ss)) ∧ request_bounds B req.
Proof.
  intros HB Hok [Hids Hf] Hs [s Hss] Hreq. pose proof (ok_leader _ _ Hok Hs) as [_ _ _ Hb _].
  destruct (LeaderNodeSession_request_ok B id n req) as [_ H1 H2 H3 _ _ _ _]; [done..|].
  split; [|split; [done|lia]]. split.
  - intros id' s' [[<- _]|[_ Hs']]%lookup_insert_Some; eauto.
  - intros _. destruct (Hf Hs) as [Hmain Hcall]. split; [done|].
    intros id' req' [[<- [= <-]]|[_ Hs']]%lookup_insert_Some; [|by apply Hcall].
    split_and!; [done|done|lia].
Qed.

(** A session whose state is no pending call. *)
Lemma session_settles_ok n main ss id s :
  fiber_ok n (InLeader main ss) → is_Some (ss !! id) →
  (∀ req, s ≠ SessionCalling req) → fiber_ok n (InLeader main (<[id := s]> ss)).
Proof.
  intros [Hids Hf] [s0 Hss] Hno. split.
  - intros id' s' [[<- _]|[_ Hs']]%lookup_insert_Some; eauto.
  - intros Hs. destruct (Hf Hs) as [Hmain Hcall]. split; [done|].
    intros id' req' [[<- ->]|[_ Hs']]%lookup_insert_Some; [by destruct (Hno req')|by apply Hcall].
Qed.

Lemma append_returns_ok B id main ss req result n nx n' :
  small B → node_ok B n → fiber_ok n (InLeader main ss) →
  ss !! id = Some (SessionCalling req) →
  LeaderNodeSession_response id req result n = Done (nx, n') →
  node_ok B n' ∧ grows n n' ∧ fiber_ok n' (InLeader main (<[id := SessionReady]> ss)).
Proof.
  intros HB Hok Hf Hss Hresp. pose proof Hf as [Hids Hcall].
  assert (Hid : id ≠ self n) by eauto.
  destruct (LeaderNodeSession_response_ok B id req result n nx n') as (Hok' & Hgr & Hl); [done..| |done|].
  { intros Hs. by apply Hcall. }
  split_and!; [done|done|].
  apply (session_settles_ok n main ss id SessionReady) in Hf; [|eauto|done].
  destruct Hf as [Hids' Hf]. pose proof (gr_config _ _ Hgr) as Hc.
  unfold fiber_ok, self in *. rewrite Hc. split; [done|]. intros Hs.
  destruct (Hl Hs) as (Hs0 & Hlog & Hp & _ & Hm & Hn). destruct (Hf Hs0) as [Hmain Hcall'].
  split; [destruct main; congruence|]. intros id' req' Hreq.
  assert (id' ≠ id) by (intros ->; by rewrite lookup_insert_eq in Hreq).
  unfold calling_ok, full_size. rewrite Hlog, Hp, Hn by done. by apply Hcall'.
Qed.

Variable MessageDifferencer_Equals : LogEntry → LogEntry → bool.

Local Arguments fiber_ok : simpl never.

Lemma enlarge_ok B n m fb out :
  output_bounds B out → node_ok B m ∧ grows n m ∧ fiber_ok m fb →
  process_ok (B + 1) (MkProcess m fb) ∧ grows n m ∧ output_bounds B out.
Proof.
  intros ? (? & ? & ?). split_and!; [split; [|done]|done|done].
  eapply node_ok_mono; [|done]. lia.
Qed.

(** The events served by fibers of the server. *)
Definition is_handler (ev : event) : bool :=
  match ev with
  | HandleExecute _ | ExecuteResumes _ | HandleAppendEntries _ | HandleRequestVote _ => true
  | _ => false
  end.

Lemma handler_ok B ev n fb out p' :
  small B → node_ok B n → fiber_ok n fb → event_bounds B ev → is_handler ev = true →
  process_step MessageDifferencer_Equals ev (MkProcess n fb) = Some (Done (out, p')) →
  process_ok (B + 1) p' ∧ grows n (node p') ∧ output_bounds B out.
Proof.
  intros HB Hok Hf Hev Hh Hrun.
  assert (Hout : ∀ r : Response + nat, output_bounds B
    (match r with inl response => ReplyExecute response | inr _ => Silent end)) by by intros [].
  destruct ev; try discriminate Hh; simpl in *; clear Hh; try injection Hrun as Hrun.
  - outcome_inv. simpl. destruct (Execute_begin_ok B request n s r) as [Hok' Hgr]; [done..|].
    split_and!; [split; [done|]|done|apply Hout].
    eapply fiber_ok_undisturbed; [by eapply Execute_begin_undisturbed|done].
  - case_if Hrun as [|]; [|done]. injection Hrun as Hrun. outcome_inv. simpl.
    apply (enlarge_ok B); [done|].
    eapply keeps_process_ok; [by eapply Execute_finish_keeps|done|done|by left].
  - outcome_inv. simpl. apply (enlarge_ok B); [done|].
    destruct (AppendEntries_ok MessageDifferencer_Equals B request n a r) as [? ?]; [done..|].
    split_and!; [done|done|].
    eapply fiber_ok_undisturbed; [by apply (AppendEntries_undisturbed MessageDifferencer_Equals B request n a)|done].
  - outcome_inv. simpl. apply (enlarge_ok B); [done|].
    eapply keeps_process_ok; [by eapply RequestVote_keeps|done|done|by left].
Qed.

Lemma process_step_ok B ev p out p' :
  small B → process_ok B p → event_bounds B ev →
  process_step MessageDifferencer_Equals ev p = Some (Done (out, p')) →
  process_ok (B + 1) p' ∧ grows (node p) (node p') ∧ output_bounds B out.
Proof.
  intros HB [Hok Hf] Hev Hrun. destruct p as [n fb]. simpl in *.
  destruct (is_handler ev) eqn:Hh; [by eapply handler_ok|].
  destruct ev; try discriminate Hh; destruct fb; try discriminate Hrun; simpl in *.
  all: try (injection Hrun as Hrun).
  - (* RunLoop *)
    unfold run_loop in Hrun. destruct (state n) eqn:Hs; outcome_inv; simpl.
    + apply (enlarge_ok B); [done|]. split_and!; [done|apply grows_refl|].
      split; [intros id s; apply other_nodes_not_self|]. intros _. split; [done|].
      by intros id req [_ ?]%other_nodes_not_self.
    + apply (enlarge_ok B); [done|].
      eapply keeps_process_ok; [|done|done|right; done]. by split.
    + simpl. apply (enlarge_ok B); [done|].
      eapply keeps_process_ok; [by eapply StartCandidate_begin_keeps|done|done|right; done].
  - (* FollowerWakes *)
    outcome_inv. apply (enlarge_ok B); [done|].
    eapply keeps_process_ok; [by eapply StartFollower_end_keeps|done|done|right; done].
  - (* VoteReturns *)
    case_if Hrun as [Hin|Hin]; [|done]. injection Hrun as Hrun. outcome_inv.
    simpl. apply (enlarge_ok B); [done|].
    match goal with H : StartCandidate_vote _ _ _ = _ |- _ =>
      apply StartCandidate_vote_keeps in H as [Hk|Hbl] end.
    + eapply keeps_process_ok; [done|done|done|right; done].
    + destruct (BecomeLeader_ok B n r) as [? ?]; [done..|]. by split_and!.
  - (* ElectionEnds *)
    case_if Hrun as [Hin|Hin]; [|done]. injection Hrun as <- <-.
    apply (enlarge_ok B); [done|]. split_and!; [done|apply grows_refl|done].
  - (* MainSessionRuns *)
    apply bind_Some in Hrun as (m & Hm & [= Hrun]). outcome_inv.
    simpl. apply (enlarge_ok B); [done|]. by eapply main_session_run_ok.
  - (* SessionRuns *)
    destruct (sessions !! id) as [[| |]|] eqn:Hss; try discriminate Hrun. injection Hrun as Hrun.
    pose proof (Session_resume_keeps id n) as Hk.
    destruct (keeps_process_ok B n _ _ (InLeader main sessions) Hk Hok Hf) as (Hok1 & Hgr1 & Hf1);
      [by left|].
    case_if Hrun as [Hs|Hs]; simpl.
    + destruct (session_calls_ok B id main sessions (Session_resume id n) x) as [Hf2 Hb]; [done..|eauto|done|].
      apply (enlarge_ok B); [done|]. done.
    + apply (enlarge_ok B); [done|]. split_and!; [done|done|].
      apply session_settles_ok; [done|eauto|done].
  - (* AppendReturns *)
    destruct (sessions !! id) as [[|req|]|] eqn:Hss; try discriminate Hrun. injection Hrun as Hrun.
    outcome_inv. simpl. apply (enlarge_ok B); [done|]. by eapply append_returns_ok.
  - (* LeaderEnds *)
    destruct main; try discriminate Hrun. case_if Hrun as [Hd|Hd]; [|done]. injection Hrun as <- <-.
    apply (enlarge_ok B); [done|].
    eapply keeps_process_ok; [|done|done|right; done]. split; try done.
    intros Hs. simpl in Hs. by destruct (proj2 Hf Hs).
Qed.
End processes.
