(* ===== verification/RaftLogMatching.v ===== *)
(** * Log matching

    Two logs of the cluster that hold entries of the same term at the same
    position agree up to that position. The proof assigns to every entry a
    leader ever created the entry and the term of its predecessor (the ghost
    map [created] of RaftCluster.v); a log, the pending entries of a leader
    and every request in the network are chains of created entries. *)

From S2P Require Import Prelude.
From S2P Require Import Result.
From S2P Require Import RtTypes.
From S2P Require Import KVInterface.
From S2P Require Import Logs.
From S2P Require Import StateMachine.
From S2P Require Import RaftNode.
From S2P Require Import RaftProcess.
From S2P Require Import RaftNodeProps.
From S2P Require Import RaftCluster.
From S2P Require Import RaftElection.
From S2P Require Import RaftInvariant.
From S2P Require Import RaftProcessOk.

Local Open Scope Z_scope.

(** ** One step of a process, as far as the log is concerned *)

Section effects.
Context {AM : AnyMessage} {SM : IStateMachine}.
Variable MessageDifferencer_Equals : LogEntry → LogEntry → bool.
Implicit Types (n : RaftNode) (p : Process).

(** The entries a node stands for: a leader also sends its pending entries. *)
Definition log_view n (i : Z) : option LogEntry :=
  if decide (state n = Leader) then full_log n i else raft_log n !! i.

Inductive log_effect (ev : event) n n' : Prop :=
  | effect_same :
      (∀ i, log_view n' i = log_view n i) →
      (state n' = Leader → state n = Leader → full_size n' = full_size n) →
      raft_log n ⊆ raft_log n' →
      log_effect ev n n'
  | effect_steps_down :
      state n' ≠ Leader → raft_log n' = raft_log n → log_effect ev n n'
  | effect_creates req :
      ev = HandleExecute req → state n = Leader → state n' = Leader →
      full_size n' = full_size n + 1 →
      (∀ i, full_log n' i =
         if decide (i = full_size n + 1) then Some (MkLogEntry (term n) req) else full_log n i) →
      raft_log n' = raft_log n →
      log_effect ev n n'
  | effect_stores req n1 :
      ev = HandleAppendEntries req → keeps n n1 → state n1 ≠ Leader → state n' ≠ Leader →
      AppendEntries_matches req n1 = Done true →
      AppendEntries_store MessageDifferencer_Equals req n1 = Done n' →
      state n' = Follower → term n ≤ ae_term req → term n' = ae_term req →
      log_effect ev n n'.

Lemma keeps_effect ev n n' : keeps n n' → log_effect ev n n'.
Proof.
  intros [H1 H2 H3 H4 H5 H6]. destruct (decide (state n' = Leader)) as [Hl|Hl].
  - destruct (H6 Hl) as (Hl0 & _ & _ & Hp). apply effect_same.
    + intros i. unfold log_view. rewrite Hl, Hl0. simpl. unfold full_log, extended. by rewrite H2, Hp.
    + intros _ _. unfold full_size. by rewrite H2, Hp.
    + by rewrite H2.
  - by apply effect_steps_down.
Qed.

Lemma leader_effect ev n n' :
  state n = Leader → state n' = Leader → full_size n' = full_size n →
  (∀ i, full_log n' i = full_log n i) → raft_log n ⊆ raft_log n' → log_effect ev n n'.
Proof.
  intros Hs Hs' Hsz Hf Hsub. apply effect_same; [|done..].
  intros i. unfold log_view. rewrite Hs, Hs'. apply Hf.
Qed.

Lemma BecomeLeader_effect ev B n n' :
  node_ok B n → BecomeLeader n = Done n' → log_effect ev n n'.
Proof.
  intros Hok (Hs & Hs' & _ & _ & Hl & _ & _ & Hp & _)%BecomeLeader_shape.
  apply effect_same; [|by rewrite Hs|by rewrite Hl]. intros i. unfold log_view, full_log, extended.
  rewrite Hs, Hs', Hl, Hp. simpl. case_decide; [done|]. simpl. symmetry. apply eq_None_not_Some.
  intros ?%(ok_contiguous _ _ Hok). lia.
Qed.

Lemma Execute_begin_effect B req n res n' :
  node_ok B n → Execute_begin req n = Done (res, n') → log_effect (HandleExecute req) n n'.
Proof.
  intros Hok [(-> & _)|(Hs & _ & index & Hi & Hnext & Hp & Hc & Hl & Hci & Hr & Hrs & Hm & Hs')]%Execute_begin_shape.
  { apply keeps_effect, keeps_refl. }
  apply (effect_creates _ _ _ req); try done.
  - unfold full_size. rewrite Hl, Hp, length_app. simpl. lia.
  - intros i. unfold full_log, extended, full_size. rewrite Hl, Hp.
    case_decide; [by rewrite decide_False by lia|]. case_decide as Heq.
    + subst i. rewrite lookup_app_r by lia.
      replace (Z.to_nat _ - _)%nat with 0%nat by lia. done.
    + destruct (decide (i ≤ full_size n)) as [Hle|Hgt]; unfold full_size in *.
      * by rewrite lookup_app_l by lia.
      * rewrite !lookup_ge_None_2; [done|lia|rewrite length_app; simpl; lia].
Qed.

Lemma AppendEntries_effect req n res n' :
  AppendEntries MessageDifferencer_Equals req n = Done (res, n') →
  log_effect (HandleAppendEntries req) n n'.
Proof.
  intros H. pose proof (AppendEntries_evolves _ _ _ _ _ H) as [_ Hrole].
  apply AppendEntries_inv in H as [Ht Ho]. destruct Ho as [|n1 Hle Hf _|n1 n2 Hle Hf Hm Hst].
  - apply keeps_effect, keeps_refl.
  - by eapply keeps_effect, AppendEntries_follow_keeps.
  - pose proof (AppendEntries_follow_keeps _ _ _ Hf) as Hk.
    apply AppendEntries_follow_shape in Hf as (_ & _ & Hs & Hterm & _); [|done].
    pose proof (AppendEntries_store_shape _ _ _ _ Hst) as (r & Hn2).
    eapply effect_stores; try done; rewrite ?Hn2; simpl; by rewrite ?Hs.
Qed.

Lemma main_session_effect B ev main n ss main' n' :
  small B → node_ok B n → fiber_ok n (InLeader main ss) →
  main_session_run main n = Some (Done (main', n')) → log_effect ev n n'.
Proof.
  intros HB Hok [_ Hf] Hrun.
  assert (Hloop : ∀ n0, node_ok B n0 → state n0 = state n → full_size n0 = full_size n →
    raft_log n0 = raft_log n → (∀ i, full_log n0 i = full_log n i) →
    (state n = Leader → match_index n0 !! self n0 = Some (log_size (raft_log n0))) →
    main_session_loop n0 = Done (main', n') → log_effect ev n n').
  { intros n0 Hok0 Hs0 Hsz0 Hl0 Hfull0 Hm0 Hl. unfold main_session_loop in Hl.
    case_if Hl as [Hlead|Hlead]; [|by apply effect_steps_down].
    destruct (LeaderMainSession_iteration_ok B n0 n')
      as (_ & _ & Hs' & Hsz' & _ & _ & Hfull' & _ & Hsub'); [done..|apply Hm0; congruence|done|].
    apply leader_effect; [congruence|done|congruence|intros i; by rewrite Hfull'|by rewrite <-Hl0]. }
  destruct main; simpl in Hrun; [| |done]; injection Hrun as Hrun.
  - apply bind_Done in Hrun as (n0 & Hst & Hl).
    destruct (LeaderMainSession_start_ok B n n0) as (Hok0 & Hgr0 & m & -> & Hm & _); [done..|].
    by apply (Hloop (set_match_index m n)).
  - apply (Hloop (Session_resume (node_id (config n)) n)); try done.
    + eapply keeps_ok; [apply Session_resume_keeps|done].
    + intros Hs. by destruct (Hf Hs).
Qed.

Lemma append_returns_effect B ev id main ss req result n nx n' :
  small B → node_ok B n → fiber_ok n (InLeader main ss) →
  ss !! id = Some (SessionCalling req) →
  LeaderNodeSession_response id req result n = Done (nx, n') → log_effect ev n n'.
Proof.
  intros HB Hok [Hids Hcall] Hss Hresp.
  destruct (LeaderNodeSession_response_ok B id req result n nx n') as (_ & _ & Hl); [done..|eauto| |done|].
  { intros Hs. by apply Hcall. }
  destruct (decide (state n' = Leader)) as [Hs|Hs].
  - destruct (Hl Hs) as (Hs0 & Hlog & Hp & _).
    apply leader_effect; [done|done|unfold full_size; by rewrite Hlog, Hp| |by rewrite Hlog].
    intros i. unfold full_log, extended. by rewrite Hlog, Hp.
  - apply effect_steps_down; [done|].
    unfold LeaderNodeSession_response in Hresp. case_if Hresp as [?|?]; [done|].
    destruct result as [response|]; outcome_inv; [|done].
    match goal with H : (if decide (_ < aer_term _) then _ else _) = _ |- _ => rename H into Hrest end.
    case_if Hrest as [?|?].
    + match goal with H : UpdateTerm _ _ _ = _, H' : (if decide _ then BecomeFollower _ else _) = _ |- _ =>
        rewrite (ke_log _ _ (step_down_keeps _ _ H')); apply (ke_log _ _ (UpdateTerm_keeps _ _ _ _ H)) end.
    + destruct (aer_success response); simpl in *; outcome_inv; [|done].
      match goal with H : UpdateCommitIndex _ = _ |- _ =>
        apply UpdateCommitIndex_shape in H as (c & r & f & -> & _) end.
      match goal with H : (if decide (_ = _) then _ else _) = _ |- _ => rename H into Hfin end.
      case_if Hfin as [?|?]; try done. by rewrite (ke_log _ _ (add_heartbeat_guard_keeps _ _)).
Qed.

Local Arguments fiber_ok : simpl never.

Lemma handler_effect B ev n fb out p' :
  node_ok B n → is_handler ev = true →
  process_step MessageDifferencer_Equals ev (MkProcess n fb) = Some (Done (out, p')) →
  log_effect ev n (node p').
Proof.
  intros Hok Hh Hrun.
  destruct ev; try discriminate Hh; simpl in *; clear Hh; try injection Hrun as Hrun.
  - outcome_inv. by eapply Execute_begin_effect.
  - destruct (Execute_ready id n); [|done]. injection Hrun as Hrun. outcome_inv.
    by eapply keeps_effect, Execute_finish_keeps.
  - outcome_inv. by eapply AppendEntries_effect.
  - outcome_inv. by eapply keeps_effect, RequestVote_keeps.
Qed.

Lemma process_step_effect B ev p out p' :
  small B → process_ok B p →
  process_step MessageDifferencer_Equals ev p = Some (Done (out, p')) →
  log_effect ev (node p) (node p').
Proof.
  intros HB [Hok Hf] Hrun. destruct p as [n fb]. simpl in *.
  destruct (is_handler ev) eqn:Hh; [by eapply handler_effect|].
  destruct ev; try discriminate Hh; destruct fb; try discriminate Hrun; simpl in *;
    try (injection Hrun as Hrun).
  - unfold run_loop in Hrun.
    destruct (state n) eqn:Hs; outcome_inv; simpl; apply keeps_effect;
      [by split|by split|by eapply StartCandidate_begin_keeps].
  - outcome_inv. by eapply keeps_effect, StartFollower_end_keeps.
  - case_if Hrun as [Hin|Hin]; [|done]. injection Hrun as Hrun. outcome_inv. simpl.
    match goal with H : StartCandidate_vote _ _ _ = _ |- _ =>
      apply StartCandidate_vote_keeps in H as [Hk|Hbl] end;
      [by apply keeps_effect|by eapply BecomeLeader_effect].
  - case_if Hrun as [Hin|Hin]; [|done]. injection Hrun as <- <-. apply keeps_effect, keeps_refl.
  - apply bind_Some in Hrun as (m & Hm & [= Hrun]). outcome_inv. by eapply main_session_effect.
  - destruct (sessions !! id) as [[| |]|] eqn:Hss; try discriminate Hrun. injection Hrun as Hrun.
    case_if Hrun as [Hs|Hs]; simpl; apply keeps_effect, Session_resume_keeps.
  - destruct (sessions !! id) as [[|req|]|] eqn:Hss; try discriminate Hrun. injection Hrun as Hrun.
    outcome_inv. by eapply append_returns_effect.
  - destruct main; try discriminate Hrun. case_if Hrun as [Hd|Hd]; [|done]. injection Hrun as <- <-.
    apply keeps_effect. split; try done. intros Hs. simpl in Hs. by destruct (proj2 Hf Hs).
Qed.

(** A call of [AppendEntries] comes from a session of a leader. *)
Lemma call_append_inv B ev p id req p' :
  small B → process_ok B p →
  process_step MessageDifferencer_Equals ev p = Some (Done (CallAppendEntries id req, p')) →
  state (node p') = Leader ∧ request_of (node p') id req.
Proof.
  intros HB [Hok _] Hrun. destruct p as [n fb]. simpl in *.
  destruct (is_handler ev) eqn:Hh.
  { destruct ev; try discriminate Hh; simpl in *; repeat case_match; simplify_eq; outcome_inv;
      try (destruct s; simplify_eq). }
  destruct ev; try discriminate Hh; destruct fb; try discriminate Hrun; simpl in *;
    try (injection Hrun as Hrun).
  - unfold run_loop in Hrun. destruct (state n); outcome_inv.
  - outcome_inv.
  - case_if Hrun as [?|?]; [|done]. injection Hrun as Hrun. outcome_inv.
  - by case_if Hrun as [?|?].
  - apply bind_Some in Hrun as (m & _ & [= Hrun]). outcome_inv.
  - destruct (sessions !! id0) as [[| |]|]; try discriminate Hrun. injection Hrun as Hrun.
    case_if Hrun as [Hs|Hs]. split; [done|].
    eapply (LeaderNodeSession_request_ok B); [done| |done|done].
    eapply keeps_ok; [apply Session_resume_keeps|done].
  - destruct (sessions !! id0) as [[| |]|]; try discriminate Hrun. injection Hrun as Hrun. outcome_inv.
  - destruct main; try discriminate Hrun. by case_if Hrun as [?|?].
Qed.
End effects.

(** ** Chains of created entries *)

Section chains.
Context {AM : AnyMessage} {SM : IStateMachine}.
Implicit Types (n : RaftNode) (cr : gmap (Z * Z) (LogEntry * Z)) (f : Z → option LogEntry).

(** Every entry was created at its position, after an entry of the term of
    its predecessor. *)
Definition chain cr f : Prop :=
  ∀ i e, f i = Some e →
    ∃ pt, cr !! (entry_term e, i) = Some (e, pt) ∧
      if decide (i = 1) then pt = 0 else ∃ e', f (i - 1) = Some e' ∧ entry_term e' = pt.

Definition request_chain cr (req : AppendEntriesRequest) : Prop :=
  (ae_prev_log_index req = 0 → ae_prev_log_term req = 0) ∧
  ∀ k e, ae_entries req !! k = Some e →
    ∃ pt, cr !! (entry_term e, ae_prev_log_index req + 1 + Z.of_nat k) = Some (e, pt) ∧
      match k with
      | O => pt = ae_prev_log_term req
      | S k' => ∃ e', ae_entries req !! k' = Some e' ∧ entry_term e' = pt
      end.

Lemma chain_ext cr f f' : (∀ i, f' i = f i) → chain cr f → chain cr f'.
Proof.
  intros Hf Hc i e Hi. rewrite Hf in Hi. destruct (Hc _ _ Hi) as (pt & ? & Hp).
  exists pt. split; [done|]. by rewrite Hf.
Qed.

Lemma chain_mono cr cr' f : cr ⊆ cr' → chain cr f → chain cr' f.
Proof.
  intros Hs Hc i e Hi. destruct (Hc _ _ Hi) as (pt & ? & ?). exists pt.
  split; [by eapply lookup_weaken|done].
Qed.

Lemma request_chain_mono cr cr' req : cr ⊆ cr' → request_chain cr req → request_chain cr' req.
Proof.
  intros Hs [H0 Hc]. split; [done|]. intros k e Hk. destruct (Hc _ _ Hk) as (pt & ? & ?).
  exists pt. split; [by eapply lookup_weaken|done].
Qed.

(** Two chains with entries of one term at one position agree below it. *)
Lemma chains_agree cr f g i e e' :
  chain cr f → chain cr g → f i = Some e → g i = Some e' → entry_term e = entry_term e' →
  ∀ j, 1 ≤ j ≤ i → f j = g j.
Proof.
  intros Hf Hg Hi Hi' Ht j [Hj1 Hj].
  remember (Z.to_nat (i - j)) as d eqn:Hd. revert i e e' Hi Hi' Ht Hj Hd.
  induction d as [|d IH]; intros i e e' Hi Hi' Ht Hj Hd;
    destruct (Hf _ _ Hi) as (pt & Hc & Hp); destruct (Hg _ _ Hi') as (pt' & Hc' & Hp').
  - assert (j = i) as -> by lia. rewrite Ht in Hc. congruence.
  - rewrite Ht, Hc' in Hc. injection Hc as -> ->.
    rewrite decide_False in Hp, Hp' by lia.
    destruct Hp as (e1 & He1 & Ht1), Hp' as (e2 & He2 & Ht2).
    apply (IH (i - 1) e1 e2); [done|done|congruence|lia|lia].
Qed.

Lemma raft_log_chain B cr n : node_ok B n → chain cr (log_view n) → chain cr (λ i, raft_log n !! i).
Proof.
  intros Hok Hc. unfold log_view in Hc. case_decide; [|done].
  intros i e Hi. assert (Hle : 1 ≤ i ≤ log_size (raft_log n)) by (apply (ok_contiguous _ _ Hok); eauto).
  destruct (Hc i e) as (pt & Hcr & Hp).
  { unfold full_log, extended. by rewrite decide_True by lia. }
  exists pt. split; [done|]. case_decide; [done|]. destruct Hp as (e' & He' & ?).
  exists e'. unfold full_log, extended in He'. by rewrite decide_True in He' by lia.
Qed.

(** *** The last entry *)

Lemma full_log_last B n :
  node_ok B n →
  if decide (full_size n = 0) then last_term n = 0
  else ∃ e, full_log n (full_size n) = Some e ∧ entry_term e = last_term n.
Proof.
  intros Hok. pose proof (contiguous_size _ (ok_contiguous _ _ Hok)) as Hpos.
  unfold last_term, full_log, extended, full_size.
  destruct (pending_log n) as [|e0 l0] eqn:Hp; simpl length.
  - simpl. rewrite Z.add_0_r. unfold GetLastSavedLogTerm, log_size in *.
    destruct (kv_Last (raft_log n)) as [[k v]|] eqn:Hl; [|by rewrite decide_True by lia].
    apply kv_Last_Some in Hl as [Hk _].
    assert (1 ≤ k) by (apply (ok_contiguous _ _ Hok); eauto).
    rewrite decide_False, decide_True by lia. eauto.
  - rewrite decide_False by lia. rewrite decide_False by lia.
    destruct (lookup_lt_is_Some_2 (e0 :: l0) (length l0)) as [e He]; [simpl; lia|].
    exists e. simpl pred. rewrite He.
    replace (Z.to_nat _) with (length l0) by lia. done.
Qed.

(** *** Requests of a leader *)

Lemma request_of_chain B cr n id req :
  node_ok B n → chain cr (full_log n) → request_of n id req → request_chain cr req.
Proof.
  intros Hok Hc [_ Hprev _ _ Hpt Hent _ _]. split.
  { intros H0. by rewrite decide_True in Hpt. }
  intros k e Hk. destruct (Hc _ _ (Hent _ _ Hk)) as (pt & Hcr & Hp). exists pt. split; [done|].
  destruct k as [|k'].
  - case_decide as H1; [rewrite decide_True in Hpt by lia; congruence|].
    rewrite decide_False in Hpt by lia. destruct Hp as (e' & He' & <-), Hpt as (e'' & He'' & <-).
    assert (Hle : 1 ≤ ae_prev_log_index req ≤ log_size (raft_log n))
      by (apply (ok_contiguous _ _ Hok); eauto).
    unfold full_log, extended in He'. rewrite decide_True in He' by lia.
    replace (ae_prev_log_index req + 1 + Z.of_nat 0 - 1) with (ae_prev_log_index req) in He' by lia.
    congruence.
  - rewrite decide_False in Hp by lia. destruct Hp as (e' & He' & <-).
    destruct (lookup_lt_is_Some_2 (ae_entries req) k') as [e'' Hk'].
    { apply lookup_lt_Some in Hk. lia. }
    exists e''. split; [done|]. apply Hent in Hk'.
    replace (ae_prev_log_index req + 1 + Z.of_nat (S k') - 1)
      with (ae_prev_log_index req + 1 + Z.of_nat k') in He' by lia. congruence.
Qed.

(** *** Entries stored by a follower *)

Variable MessageDifferencer_Equals : LogEntry → LogEntry → bool.
Hypothesis Equals_sound : ∀ a b, MessageDifferencer_Equals a b = true → a = b.

(** The check loop has compared every committed entry the request covers. *)
Lemma check_loop_equal B req n ixs n' :
  small B → 0 ≤ ae_prev_log_index req →
  (∀ i, i ∈ ixs → ae_prev_log_index req < i ≤ B) →
  for_each ixs (check_committed MessageDifferencer_Equals req) n = Done n' →
  ∀ i, i ∈ ixs → ∃ e, raft_log n !! i = Some e ∧
    ae_entries req !! Z.to_nat (i - ae_prev_log_index req - 1) = Some e.
Proof.
  intros HB Hprev Hb H. revert Hb. induction ixs as [|i0 ixs IH]; intros Hb i Hi;
    [by apply elem_of_nil in Hi|].
  simpl in H. apply bind_Done in H as (n1 & Hck & H). unfold check_committed in Hck. outcome_inv.
  apply elem_of_cons in Hi as [->|Hi]; [|by apply IH; [|intros; apply Hb; right|]].
  match goal with H : GetValue _ = _ |- _ => apply kv_Get_value in H end.
  match goal with H : MessageDifferencer_Equals _ _ = true |- _ => apply Equals_sound in H; subst end.
  assert (ae_prev_log_index req < i0 ≤ B) by (apply Hb; left).
  rewrite (sub64_small i0), sub64_small in * by word. eauto.
Qed.

Lemma store_chain B cr req n n' :
  small B → node_ok B n → state n ≠ Leader → state n' ≠ Leader → request_bounds B req →
  request_chain cr req → chain cr (λ i, raft_log n !! i) →
  AppendEntries_matches req n = Done true →
  AppendEntries_store MessageDifferencer_Equals req n = Done n' →
  chain cr (λ i, raft_log n' !! i).
Proof.
  intros HB Hok Hs Hs' [Hb1 Hb2] [Hr0 Hrc] Hc Hm Hst.
  pose proof (AppendEntries_matches_size _ _ Hm) as Hsz.
  destruct Hok as [K1 K2 K3 K4 K5 _].
  assert (Hlk := λ i, appended_log_lookup req n i ltac:(word) K2 K3 ltac:(lia)).
  pose proof (AppendEntries_store_shape _ _ _ _ Hst) as (r & ->). simpl.
  set (prev := ae_prev_log_index req) in *. set (kept := prev `max` commit_index n) in *.
  intros i e Hi. rewrite Hlk in Hi. case_decide as Hle.
  { destruct (Hc _ _ Hi) as (pt & ? & Hp). exists pt. split; [done|].
    case_decide; [done|]. rewrite Hlk, decide_True by lia. done. }
  destruct (Hrc _ _ Hi) as (pt & Hcr & Hp). exists pt.
  replace (prev + 1 + Z.of_nat (Z.to_nat (i - prev - 1))) with i in Hcr by lia. split; [done|].
  destruct (Z.to_nat (i - prev - 1)) as [|k'] eqn:Hk.
  - (* the entry after the kept prefix, which is the one the request names *)
    assert (Hip : i = prev + 1) by lia. case_decide as H1; [rewrite Hp; apply Hr0; lia|].
    unfold AppendEntries_matches in Hm. outcome_inv. fold prev in H0.
    rewrite decide_False in H0 by (rewrite GetSavedLogSize_log; lia).
    rewrite decide_True in H0 by lia. outcome_inv.
    match goal with H : GetValue _ = _ |- _ => apply kv_Get_value in H; rename H into Hprev end.
    rewrite Hlk, decide_True by lia. rewrite Z.add_simpl_r. eauto.
  - rewrite decide_False by lia. destruct Hp as (e' & He' & <-). exists e'. split; [|done].
    rewrite Hlk. destruct (decide (i - 1 ≤ kept)) as [Hkept|Hkept].
    + (* the predecessor is the last committed entry, compared by the check loop *)
      unfold AppendEntries_store in Hst. outcome_inv.
      match goal with H : for_each _ (check_committed _ _) _ = _ |- _ => rename H into Hck end.
      destruct (λ H, check_loop_equal B req n _ _ HB Hb1 H Hck (i - 1)) as (e1 & He1 & He2).
      { intros j Hj%elem_of_range. fold prev in Hj. fold prev. lia. }
      { apply elem_of_range. fold prev. apply lookup_lt_Some in He'. unfold kept in *. lia. }
      fold prev in He2. replace (Z.to_nat (i - 1 - prev - 1)) with k' in He2 by lia. congruence.
    + replace (Z.to_nat (i - 1 - prev - 1)) with k' by lia. done.
Qed.
End chains.
