(* ===== verification/RaftLogSafety.v ===== *)
(** * Safety of the logs of a cluster

    The invariant of the logs in every reachable cluster, and what follows:
    log matching, the state machine of every node is the committed prefix of
    its log, and the conditions under which two nodes hold the same prefix. *)

From S2P Require Import Prelude.
From S2P Require Import Result.
From S2P Require Import RtTypes.
From S2P Require Import KVInterface.
From S2P Require Import Logs.
From S2P Require Import StateMachine.
From S2P Require Import RaftNode.
From S2P Require Import RaftProcess.
From S2P Require Import RaftNodeProps.
From S2P Require Import RaftCluster.
From S2P Require Import RaftElection.
From S2P Require Import RaftInvariant.
From S2P Require Import RaftProcessOk.
From S2P Require Import RaftLogMatching.
From S2P Require Import RaftTrace.

Local Open Scope Z_scope.

Section safety.
Context {AM : AnyMessage} {SM : IStateMachine}.
Variable MessageDifferencer_Equals : LogEntry → LogEntry → bool.
(** Documented: true only for equal messages. *)
Hypothesis Equals_sound : ∀ a b, MessageDifferencer_Equals a b = true → a = b.
Variable configs : list RaftConfig.

Abbreviation runs := (runs MessageDifferencer_Equals).
Abbreviation step := (step MessageDifferencer_Equals).
Abbreviation election_inv := (election_inv configs).

Record log_inv (B : Z) (c : Cluster) : Prop := {
  li_process : ∀ i p, processes c !! i = Some p →
    process_ok B p ∧ ∃ sm, applied sm (node p);
  li_packet : ∀ caller target req, PAppend caller target req ∈ network c →
    request_bounds B req ∧ request_chain (created (history c)) req;
  li_chain : ∀ i p, processes c !! i = Some p →
    chain (created (history c)) (log_view (node p));
  (** entries are created by the leaders of their terms *)
  li_created : ∀ t idx e, created (history c) !! (t, idx) = Some e →
    ∃ j, (t, j) ∈ leaders (history c);
  (** a leader creates entries at increasing positions *)
  li_fresh : ∀ i p idx e, processes c !! i = Some p → state (node p) = Leader →
    created (history c) !! (term (node p), idx) = Some e → idx ≤ full_size (node p);
  (** a term is led once *)
  li_led : ∀ t i p, (t, i) ∈ leaders (history c) → processes c !! i = Some p →
    t ≤ term (node p) ∧
    (state (node p) = Candidate → (∃ votes req w, main_fiber p = InCandidate votes req w) →
     t < term (node p));
}.

(** ** Preservation by a step of one process *)

Section at_process.
Context (B : Z) (c : Cluster) (i : nat) (ev : event) (p p' : Process) (out : output)
  (packets : list packet).
Abbreviation c' := (update i ev p p' packets c).
Hypothesis HB : small B.
Hypothesis Helect : election_inv c.
Hypothesis Helect' : election_inv c'.
Hypothesis Hinv : log_inv B c.
Hypothesis Hp : processes c !! i = Some p.
Hypothesis Hrun : runs ev p out p'.
Hypothesis Hev : ∀ req, ev = HandleAppendEntries req →
  ∃ caller, PAppend caller i req ∈ network c.
Hypothesis Hpackets : ∀ caller target req, PAppend caller target req ∈ packets →
  ∃ id, out = CallAppendEntries id req.

Lemma p_ok : process_ok B p.
Proof. by destruct (li_process _ _ Hinv _ _ Hp). Qed.

Lemma ev_bounds : event_bounds B ev.
Proof.
  destruct ev as [| | | | | | | | | |req|]; try done. destruct (Hev req eq_refl) as [caller Hin].
  by destruct (li_packet _ _ Hinv _ _ _ Hin).
Qed.

Lemma self_i : self (node p) = i.
Proof. by destruct (inv_process _ _ Helect _ _ Hp) as (_ & ? & _). Qed.

(** What the step adds to [created]. *)
Lemma created_execute req :
  ev = HandleExecute req → state (node p) = Leader →
  created (history c') =
    <[(term (node p), full_size (node p) + 1) :=
        (MkLogEntry (term (node p)) req, last_term (node p))]> (created (history c)).
Proof.
  intros Hev' Hs. destruct p_ok as [Hok _].
  pose proof (lo_self _ _ (ok_leader _ _ Hok Hs)) as Hself.
  simpl. unfold observe_created. rewrite Hev', Hs. simpl. unfold self in Hself. by rewrite Hself.
Qed.

Lemma created_step :
  created (history c') = created (history c) ∨
  ∃ req, ev = HandleExecute req ∧ state (node p) = Leader ∧
    created (history c) !! (term (node p), full_size (node p) + 1) = None ∧
    created (history c') =
      <[(term (node p), full_size (node p) + 1) :=
          (MkLogEntry (term (node p)) req, last_term (node p))]> (created (history c)).
Proof.
  destruct (decide (state (node p) = Leader)) as [Hs|Hs].
  2: { left. simpl. unfold observe_created. destruct ev; try done. by rewrite decide_False. }
  pose proof created_execute as Hex. destruct ev as [| | | | | | | |req| | |]; auto.
  right. exists req. split_and!; [done|done| |by apply Hex].
  destruct (created (history c) !! _) eqn:Hcr; [|done].
  eapply li_fresh in Hcr; [|done..]. lia.
Qed.

Lemma created_mono : created (history c) ⊆ created (history c').
Proof.
  destruct created_step as [->|(req & _ & _ & Hnone & ->)]; [done|]. by apply insert_subseteq.
Qed.

Lemma leaders_grow x : x ∈ leaders (history c) → x ∈ leaders (history c').
Proof. simpl. unfold observe_leader. case_decide; [by right|done]. Qed.

Lemma led_here t j : (t, j) ∈ leaders (history c') → state (node p') = Leader →
  t = term (node p') → j = i.
Proof.
  intros Hj Hs ->. eapply (leader_unique configs c'); [done|done|].
  simpl. unfold observe_leader. rewrite decide_True by done. left.
Qed.

(** A new leader finds its term unused. *)
Lemma new_leader_unused :
  state (node p) ≠ Leader → state (node p') = Leader →
  term (node p') = term (node p) ∧ ∀ j, (term (node p), j) ∉ leaders (history c).
Proof.
  intros Hs Hs'. pose proof (process_step_summary _ _ _ _ _ Hrun) as Hsum.
  destruct (es_leadership _ _ _ _ Hsum Hs') as [[? _]|Hwin]; [done|].
  destruct Hwin as (id & r & votes & req & w & _ & _ & _ & Hf & _ & Hcand & Hrs).
  assert (Ht : term (node p') = term (node p)) by (unfold term; by rewrite Hrs).
  split; [done|]. intros j Hj.
  assert (j = i) as -> by (eapply led_here; [by apply leaders_grow|done|done]).
  destruct (li_led _ _ Hinv _ _ _ Hj Hp) as [_ Hlt]. pose proof (Hlt Hcand). naive_solver lia.
Qed.

Lemma effect_p : log_effect MessageDifferencer_Equals ev (node p) (node p').
Proof. eapply process_step_effect; [done|apply p_ok|done]. Qed.

Lemma leader_term : state (node p) = Leader → state (node p') = Leader →
  term (node p') = term (node p).
Proof.
  intros Hs Hs'. pose proof (process_step_summary _ _ _ _ _ Hrun) as Hsum.
  destruct (es_leadership _ _ _ _ Hsum Hs') as [[_ ?]|Hwin]; [done|].
  destruct Hwin as (id & r & votes & req & w & _ & _ & _ & _ & _ & Hcand & _). congruence.
Qed.

Lemma execute_grows req :
  ev = HandleExecute req → state (node p) = Leader → full_size (node p') = full_size (node p) + 1.
Proof.
  intros Hev' Hs. pose proof Hrun as Hr. rewrite Hev' in Hr. unfold RaftCluster.runs in Hr.
  simpl in Hr. injection Hr as Hr. outcome_inv. simpl.
  match goal with H : Execute_begin _ _ = _ |- _ =>
    apply Execute_begin_shape in H as [(_ & ? & _)|(_ & _ & ? & _ & _ & Hpl & _ & Hl & _)] end; [done|].
  unfold full_size. rewrite Hpl, Hl, length_app. simpl. lia.
Qed.

(** The positions a leader has used. *)
Lemma step_fresh idx e :
  state (node p') = Leader → created (history c') !! (term (node p'), idx) = Some e →
  idx ≤ full_size (node p').
Proof.
  intros Hs' Hcr. destruct (decide (state (node p) = Leader)) as [Hs|Hs].
  - rewrite leader_term in Hcr by done.
    assert (Hold : ∀ e0, created (history c) !! (term (node p), idx) = Some e0 →
      idx ≤ full_size (node p)) by (intros; by eapply li_fresh).
    destruct effect_p as [_ Hsz _|Hno|req Hev' _ _ Hsz _ _|? ? ? ? ? Hno]; [|done| |done].
    + rewrite (Hsz Hs' Hs). destruct created_step as [Heq|(req & Hev' & _)]; [rewrite Heq in Hcr; eauto|].
      pose proof (execute_grows req Hev' Hs). specialize (Hsz Hs' Hs). lia.
    + rewrite Hsz. destruct created_step as [Heq|(req' & _ & _ & _ & Heq)]; rewrite Heq in Hcr.
      * apply Hold in Hcr. lia.
      * apply lookup_insert_Some in Hcr as [[[= <-] _]|[_ Hcr]]; [lia|]. apply Hold in Hcr. lia.
  - destruct new_leader_unused as [Ht Hno]; [done..|].
    destruct created_step as [Heq|(req' & _ & ? & _)]; [|done].
    rewrite Heq, Ht in Hcr. apply (li_created _ _ Hinv) in Hcr as [j Hj]. by destruct (Hno j).
Qed.

Lemma step_chain : chain (created (history c')) (log_view (node p')).
Proof.
  pose proof (li_chain _ _ Hinv _ _ Hp) as Hc. destruct p_ok as [Hok _].
  pose proof created_mono as Hmono. pose proof created_execute as Hce.
  pose proof (chain_mono _ _ _ Hmono Hc) as Hc'.
  set (cr' := created (history c')) in *. clearbody cr'.
  destruct effect_p as [Hv _ _|Hs Hl|req Hev' Hs Hs' _ Hfull _|req n1 Hev' Hk Hs1 Hs Hm Hst _ _ _].
  - by eapply chain_ext.
  - apply (raft_log_chain B) in Hc'; [|done]. eapply chain_ext; [|exact Hc'].
    intros j. unfold log_view. by rewrite decide_False, Hl.
  - specialize (Hce req Hev' Hs). subst cr'.
    intros j e. unfold log_view. rewrite Hs'. simpl. rewrite !Hfull. case_decide as Hj.
    + intros [= <-]. subst j. exists (last_term (node p)).
      split; [simpl; by rewrite lookup_insert_eq|].
      pose proof (full_log_last B _ Hok) as Hlast.
      destruct (decide (full_size (node p) = 0)); [by rewrite decide_True by lia|].
      rewrite decide_False by lia. rewrite decide_False by lia. by rewrite Z.add_simpl_r.
    + intros He. unfold log_view in Hc'. rewrite Hs in Hc'. simpl in Hc'.
      destruct (Hc' _ _ He) as (pt & ? & Hpt). exists pt. split; [done|].
      case_decide; [done|]. destruct Hpt as (e' & He' & ?). exists e'. split; [|done].
      rewrite decide_False; [done|]. intros Heq'.
      unfold full_log, extended in He'. rewrite decide_False in He' by (unfold full_size in *; lia).
      apply lookup_lt_Some in He'. unfold full_size in *. lia.
  - destruct (Hev _ Hev') as [caller Hin]. destruct (li_packet _ _ Hinv _ _ _ Hin) as [Hb Hrc].
    assert (Hch : chain cr' (λ j, raft_log (node p') !! j)).
    { eapply (store_chain _ Equals_sound B _ req n1); try done.
      - by eapply keeps_ok.
      - by eapply request_chain_mono.
      - apply (raft_log_chain B) in Hc'; [|done]. eapply chain_ext; [|exact Hc'].
        intros j. simpl. by rewrite (ke_log _ _ Hk). }
    eapply chain_ext; [|exact Hch]. intros j. unfold log_view. by rewrite decide_False.
Qed.

Lemma step_ok : process_ok (B + 1) p' ∧ grows (node p) (node p') ∧ output_bounds B out.
Proof. eapply process_step_ok; [done|apply p_ok|apply ev_bounds|done]. Qed.

(** A request that is sent is built from the log of a leader. *)
Lemma request_sent id req :
  out = CallAppendEntries id req → state (node p') = Leader ∧ request_of (node p') id req.
Proof.
  intros Hout. pose proof Hrun as Hr. rewrite Hout in Hr.
  eapply call_append_inv; [done|apply p_ok|done].
Qed.

Lemma step_led t j q :
  (t, j) ∈ leaders (history c') → processes c' !! j = Some q →
  t ≤ term (node q) ∧
  (state (node q) = Candidate → (∃ votes req w, main_fiber q = InCandidate votes req w) →
   t < term (node q)).
Proof.
  intros Hl Hq. pose proof (process_step_summary _ _ _ _ _ Hrun) as Hsum.
  assert (Hle : term (node p) ≤ term (node p')) by (destruct (es_vote _ _ _ _ Hsum) as [|[? _]]; lia).
  apply leaders_inv in Hl as [Hl|(Hs & -> & ->)].
  2: { simpl in Hq. rewrite lookup_insert_eq in Hq. injection Hq as <-. split; [lia|congruence]. }
  apply lookup_step in Hq as [[-> ->]|[_ Hq]]; [|by eapply li_led].
  destruct (li_led _ _ Hinv _ _ _ Hl Hp) as [Ht Hlt]. split; [lia|].
  intros Hs (votes & req & w & Hf).
  destruct (es_candidacy _ _ _ _ Hsum)
    as [Hno|Hsame Hst|req' Hf' Hgt Hrt Hrc Hv|id result votes0 req0 w0 votes' Hev' Hid Hf0 Hf' Hvotes Hst].
  - by destruct (Hno votes req w).
  - destruct (Hst Hs) as [Hs0 ->]. apply Hlt; [done|]. rewrite <-Hsame. eauto.
  - lia.
  - destruct (Hst Hs) as [Hs0 ->]. apply Hlt; [done|]. eauto.
Qed.

Lemma step_log_inv : log_inv (B + 1) c'.
Proof.
  destruct step_ok as (Hok' & Hgr & Hout). split.
  - intros j q [[-> ->]|[_ Hq]]%lookup_step.
    + split; [done|]. destruct (li_process _ _ Hinv _ _ Hp) as [_ [sm Hsm]].
      exists sm. by apply (gr_applied _ _ Hgr).
    + destruct (li_process _ _ Hinv _ _ Hq) as [[? ?] ?]. split; [split; [|done]|done].
      eapply node_ok_mono; [|done]. lia.
  - intros caller target req [Hin|Hin]%elem_of_app.
    + destruct (Hpackets _ _ _ Hin) as [id Hid]. split.
      * rewrite Hid in Hout. destruct Hout. split; [done|lia].
      * destruct (request_sent _ _ Hid) as [Hs Hreq].
        eapply request_of_chain; [apply Hok'| |done]. pose proof step_chain as Hc.
        unfold log_view in Hc. by rewrite Hs in Hc.
    + destruct (li_packet _ _ Hinv _ _ _ Hin) as [[? ?] ?]. split; [split; [done|lia]|].
      eapply request_chain_mono; [apply created_mono|done].
  - intros j q [[-> ->]|[_ Hq]]%lookup_step; [apply step_chain|].
    eapply chain_mono; [apply created_mono|by eapply li_chain].
  - intros t idx e Hcr. destruct created_step as [Heq|(req & _ & Hs & _ & Heq)]; rewrite Heq in Hcr.
    + apply (li_created _ _ Hinv) in Hcr as [j Hj]. exists j. by apply leaders_grow.
    + apply lookup_insert_Some in Hcr as [[[= <- <-] _]|[_ Hcr]].
      * exists i. apply leaders_grow. by eapply inv_leader.
      * apply (li_created _ _ Hinv) in Hcr as [j Hj]. exists j. by apply leaders_grow.
  - intros j q idx e [[-> ->]|[Hne Hq]]%lookup_step Hs Hcr; [by eapply step_fresh|].
    destruct created_step as [Heq|(req & _ & Hs0 & _ & Heq)]; rewrite Heq in Hcr; [by eapply li_fresh|].
    apply lookup_insert_Some in Hcr as [[[= Ht _] _]|[_ Hcr]]; [|by eapply li_fresh].
    destruct Hne. eapply (leader_unique configs c (term (node q))); [done|by eapply inv_leader|].
    rewrite <-Ht. by eapply inv_leader.
  - intros t j q Hl Hq. by eapply step_led.
Qed.
End at_process.

(** ** Reachable clusters *)

Lemma restart_log_inv B c i p sm :
  log_inv B c → processes c !! i = Some p →
  log_inv (B + 1) (MkCluster (<[i := restart sm p]> (processes c)) (network c) (history c)).
Proof.
  intros Hinv Hp. destruct (li_process _ _ Hinv _ _ Hp) as [[Hok _] _].
  destruct Hok as [[t Ht] K2 K3 K4 K5 K6].
  assert (Hrs : raft_state (node (restart sm p)) = raft_state (node p)).
  { simpl. unfold kv_Get. by rewrite Ht. }
  assert (Hlk : ∀ j q, <[i := restart sm p]> (processes c) !! j = Some q →
    j = i ∧ q = restart sm p ∨ processes c !! j = Some q).
  { intros j q [[-> <-]|[_ ?]]%lookup_insert_Some; auto. }
  split; simpl.
  - intros j q [[-> ->]|Hq]%Hlk.
    + split; [split; [|done]|exists sm; done].
      split; try done; [unfold has_term in *; rewrite Hrs; eauto| |simpl; lia].
      pose proof (contiguous_size _ K2). simpl. lia.
    + destruct (li_process _ _ Hinv _ _ Hq) as [[? ?] ?]. split; [split; [|done]|done].
      eapply node_ok_mono; [|done]. lia.
  - intros caller target req Hin. destruct (li_packet _ _ Hinv _ _ _ Hin) as [[? ?] ?].
    split; [split; [done|lia]|done].
  - intros j q [[-> ->]|Hq]%Hlk; [|by eapply li_chain].
    eapply (raft_log_chain B (created (history c)) (node p)); [|by eapply li_chain].
    by destruct (li_process _ _ Hinv _ _ Hp) as [[? _] _].
  - intros t' idx e. apply (li_created _ _ Hinv).
  - by intros j q idx e [[-> ->]|Hq]%Hlk Hs; [|by eapply li_fresh].
  - intros t' j q Hl [[-> ->]|Hq]%Hlk; [|by eapply li_led].
    destruct (li_led _ _ Hinv _ _ _ Hl Hp) as [Hle _].
    split; [unfold term in *; by rewrite Hrs|done].
Qed.

Lemma sent_append i out caller target req :
  PAppend caller target req ∈ sent i out → ∃ id, out = CallAppendEntries id req.
Proof.
  destruct out; simpl; rewrite ?elem_of_nil, ?list_elem_of_singleton; try done.
  - by intros (t & ? & _)%list_elem_of_fmap.
  - intros [= -> -> ->]. eauto.
Qed.

Lemma log_step B c c' :
  small B → election_inv c → log_inv B c → step c c' → log_inv (B + 1) c'.
Proof.
  intros HB Helect Hinv Hstep.
  pose proof (election_step _ _ _ _ Helect Hstep) as Helect'.
  destruct Hstep; [eapply step_log_inv..|by apply restart_log_inv]; try done;
    try (by intros ??? ?%sent_append); try (by intros ??? ?%list_elem_of_singleton);
    try (intros *; by rewrite elem_of_nil).
  - intros req ->. done.
  - intros req [= ->]. eauto.
Qed.

Lemma initial_log_inv sms c : initial configs sms c → log_inv 0 c.
Proof.
  intros (Hnet & Hh & Hcfg & Hp).
  assert (Hproc : ∀ i p, processes c !! i = Some p →
    ∃ cfg, configs !! i = Some cfg ∧ p = RunMain (sms i) cfg ∅ ∅).
  { intros i p Hi. rewrite Hp in Hi. apply fmap_Some in Hi as (cfg & ? & ->). eauto. }
  destruct (contiguous_empty (V := LogEntry)) as [Hc Hz].
  split; rewrite ?Hh, ?Hnet; simpl; try (intros *; by rewrite ?elem_of_nil, ?lookup_empty).
  - intros i p (cfg & Hi & ->)%Hproc. destruct (Hcfg _ _ Hi) as [Hid Hlen].
    split; [|exists (sms i); done]. split; [|done].
    split; simpl; try done; [unfold has_term; simpl; eauto|].
    unfold self, nodes_count. simpl. rewrite Hid, Hlen. by eapply lookup_lt_Some.
  - intros i p (cfg & Hi & ->)%Hproc. intros j e. unfold log_view. simpl. by rewrite lookup_empty.
Qed.

Lemma log_reachable k c :
  reachable_in MessageDifferencer_Equals configs k c → small (Z.of_nat k) →
  log_inv (Z.of_nat k) c ∧ election_inv c.
Proof.
  intros (sms & c0 & Hinit & Hsteps). revert c Hsteps.
  induction k as [|k IH]; intros c Hsteps Hk.
  - inversion Hsteps; subst. split; [by eapply initial_log_inv|by eapply initial_inv].
  - apply nsteps_inv_r in Hsteps as (c1 & Hsteps & Hstep).
    destruct (IH c1 Hsteps) as [Hinv Helect]; [word|]. split; [|by eapply election_step].
    rewrite Nat2Z.inj_succ. apply (log_step _ c1); [word|done..].
Qed.
End safety.

(** [C2] Log matching: in every reachable cluster, two nodes whose logs hold
    entries of the same term at the same position hold the same entries at
    all positions up to it. [small] excludes executions of 2^64 steps, after
    which positions would wrap around. *)
Theorem log_matching {AM : AnyMessage} {SM : IStateMachine}
    (Equals : LogEntry → LogEntry → bool) (configs : list RaftConfig) (k : nat) (c : Cluster)
    (Equals_sound : ∀ a b, Equals a b = true → a = b)
    (Hreach : reachable_in Equals configs k c) (Hsmall : small (Z.of_nat k))
    (i j : nat) (p q : Process) (Hp : processes c !! i = Some p) (Hq : processes c !! j = Some q)
    (index : Z) (e e' : LogEntry)
    (He : raft_log (node p) !! index = Some e) (He' : raft_log (node q) !! index = Some e')
    (Hterm : entry_term e = entry_term e') :
  ∀ index', 1 ≤ index' ≤ index → raft_log (node p) !! index' = raft_log (node q) !! index'.
Proof.
  destruct (log_reachable Equals Equals_sound configs k c Hreach Hsmall) as [Hinv _].
  pose proof (li_process _ _ Hinv _ _ Hp) as [[Hokp _] _].
  pose proof (li_process _ _ Hinv _ _ Hq) as [[Hokq _] _].
  pose proof (raft_log_chain _ _ _ Hokp (li_chain _ _ Hinv _ _ Hp)) as Hcp.
  pose proof (raft_log_chain _ _ _ Hokq (li_chain _ _ Hinv _ _ Hq)) as Hcq.
  exact (chains_agree _ _ _ _ _ _ Hcp Hcq He He' Hterm).
Qed.

(** [C3] In every reachable cluster the log of a node has no gaps, the commit
    index lies within it, and the state machine is the result of applying
    exactly the committed prefix, in order, to an initial state machine. *)
Theorem state_machine_is_committed_prefix {AM : AnyMessage} {SM : IStateMachine}
    (Equals : LogEntry → LogEntry → bool) (configs : list RaftConfig) (k : nat) (c : Cluster)
    (Equals_sound : ∀ a b, Equals a b = true → a = b)
    (Hreach : reachable_in Equals configs k c) (Hsmall : small (Z.of_nat k))
    (i : nat) (p : Process) (Hp : processes c !! i = Some p) :
  (∀ index, is_Some (raft_log (node p) !! index) ↔ 1 ≤ index ≤ GetSavedLogSize (node p)) ∧
  0 ≤ commit_index (node p) ≤ GetSavedLogSize (node p) ∧
  ∃ sm, rsm (node p) =
    (apply_all (entry_request <$> log_upto (raft_log (node p)) (commit_index (node p)))
       (ExactlyOnce_new sm)).2.
Proof.
  destruct (log_reachable Equals Equals_sound configs k c Hreach Hsmall) as [Hinv _].
  destruct (li_process _ _ Hinv _ _ Hp) as [[[_ Hc Hci _ _ _] _] Hap].
  split_and!; [exact Hc|apply Hci|apply Hci|exact Hap].
Qed.

(** [C4] A step of a process of a reachable cluster (short of a crash) never
    lowers the commit index and never changes or removes a committed entry. *)
Theorem committed_entries_are_stable {AM : AnyMessage} {SM : IStateMachine}
    (Equals : LogEntry → LogEntry → bool) (configs : list RaftConfig) (k : nat) (c : Cluster)
    (Equals_sound : ∀ a b, Equals a b = true → a = b)
    (Hreach : reachable_in Equals configs k c) (Hsmall : small (Z.of_nat k))
    (i : nat) (p : Process) (Hp : processes c !! i = Some p)
    (ev : event) (out : output) (p' : Process)
    (Hev : match ev with
           | HandleAppendEntries req => ∃ caller, PAppend caller i req ∈ network c
           | _ => True
           end)
    (Hstep : process_step Equals ev p = Some (Done (out, p'))) :
  commit_index (node p) ≤ commit_index (node p') ∧
  (∀ index, index ≤ commit_index (node p) →
     raft_log (node p') !! index = raft_log (node p) !! index) ∧
  ∀ sm, applied sm (node p) → applied sm (node p').
Proof.
  destruct (log_reachable Equals Equals_sound configs k c Hreach Hsmall) as [Hinv _].
  destruct (li_process _ _ Hinv _ _ Hp) as [Hok _].
  destruct (process_step_ok Equals (Z.of_nat k) ev p out p') as (_ & [_ H1 H2 H3] & _); [done..| |done|done].
  destruct ev; try done. destruct Hev as [caller Hin].
  by destruct (li_packet _ _ Hinv _ _ _ Hin).
Qed.
