(* ===== verification/RaftReplies.v ===== *)
(** * The replies of [Execute]

    A client whose request is answered with [Commited] gets the output of the
    state machine for this very request, at the position of the log where the
    leader stored it. The invariant follows the frames of the suspended
    [Execute] calls: a frame names the entry that was created for it as long as
    its term is the current one, and it holds a result only once that entry is
    committed. *)

From S2P Require Import Prelude.
From S2P Require Import Result.
From S2P Require Import RtTypes.
From S2P Require Import KVInterface.
From S2P Require Import Logs.
From S2P Require Import StateMachine.
From S2P Require Import RaftNode.
From S2P Require Import RaftProcess.
From S2P Require Import RaftNodeProps.
From S2P Require Import RaftCluster.
From S2P Require Import RaftElection.
From S2P Require Import RaftInvariant.
From S2P Require Import RaftProcessOk.
From S2P Require Import RaftLogMatching.
From S2P Require Import RaftLogSafety.

Local Open Scope Z_scope.

Section node.
Context {AM : AnyMessage} {SM : IStateMachine}.
Implicit Types (n : RaftNode) (f : Frame) (e : LogEntry).

(** ** The invariant *)

(** [result] is the output of the state machine for the entry at [idx]. *)
Definition output_at (sm : sm_state) (log : gmap Z LogEntry) (idx : Z) (result : Any) : Prop :=
  last (apply_all (entry_request <$> log_upto log idx) (ExactlyOnce_new sm)).1 = Some result.

(** A frame of the current leader. *)
Record frame_sound (sm : sm_state) n f e : Prop := {
  fs_entry : full_log n (new_log_index f) = Some e;
  fs_done : replication_finished f = true →
    new_log_index f ≤ commit_index n ∧ output_at sm (raft_log n) (new_log_index f) (frame_result f);
}.

(** [cr] are the entries created so far, [leads] the terms this node has led. *)
Record replies_ok (cr : gmap (Z * Z) (LogEntry * Z)) (leads : Z → Prop) (sm : sm_state) n : Prop := {
  ro_applied : applied sm n;
  ro_live : state n = Leader → stopped (stop_leader n) = false;
  ro_names : ∀ id, is_Some (frames n !! id) → (id < next_name n)%nat;
  ro_pending : ∀ idx ptr, pending_requests n !! idx = Some ptr →
    ∃ f, frames n !! ptr = Some f ∧ new_log_index f = idx;
  ro_frames : ∀ id f, frames n !! id = Some f →
    leads (frame_term f) ∧
    ∃ e lt, cr !! (frame_term f, new_log_index f) = Some (e, lt) ∧
      (state n = Leader → term n = frame_term f → frame_sound sm n f e);
}.

Lemma apply_all_snoc_output rs r m :
  (apply_all (rs ++ [r]) m).1 = (apply_all rs m).1 ++ [(ExactlyOnce_Apply r (apply_all rs m).2).1].
Proof.
  rewrite apply_all_app. destruct (apply_all rs m) as [o m1]. simpl.
  by destruct (ExactlyOnce_Apply r m1).
Qed.

Lemma output_at_ext sm log log' idx result :
  (∀ i, i ≤ idx → log' !! i = log !! i) → output_at sm log idx result → output_at sm log' idx result.
Proof.
  unfold output_at. intros Hext H. rewrite (log_upto_ext log' log idx); [done|]. intros i [_ Hi]. auto.
Qed.

(** ** Steps that keep the frames *)

Record frames_kept n n' : Prop := {
  fk_frames : frames n' = frames n;
  fk_pending : pending_requests n' = pending_requests n;
  fk_names : (next_name n ≤ next_name n')%nat;
  fk_live : state n' = Leader → state n = Leader ∧ stop_leader n' = stop_leader n;
}.

Lemma frames_kept_refl n : frames_kept n n.
Proof. by split. Qed.

Lemma frames_kept_trans n1 n2 n3 : frames_kept n1 n2 → frames_kept n2 n3 → frames_kept n1 n3.
Proof.
  intros [H1 H2 H3 H4] [K1 K2 K3 K4]. split; [congruence..|lia|].
  intros Hs. destruct (K4 Hs) as [Hs2 ?]. destruct (H4 Hs2) as [? ?]. split; congruence.
Qed.

(** A leader goes on. *)
Lemma leader_kept_replies cr cr' (leads leads' : Z → Prop) sm n n' :
  replies_ok cr leads sm n → frames_kept n n' → grows n n' → cr ⊆ cr' → (∀ t, leads t → leads' t) →
  (state n' = Leader → term n' = term n ∧ ∀ i, full_log n' i = full_log n i) →
  replies_ok cr' leads' sm n'.
Proof.
  intros [R1 R2 R3 R4 R5] [K1 K2 K3 K4] Hgr Hcr Hle Hlead. split.
  - by apply (gr_applied _ _ Hgr).
  - intros Hs. destruct (K4 Hs) as [Hs0 ->]. auto.
  - intros id Hid. rewrite K1 in Hid. apply R3 in Hid. lia.
  - intros idx ptr. rewrite K1, K2. apply R4.
  - intros id f Hf. rewrite K1 in Hf. destruct (R5 id f Hf) as (Hl & e & lt & He & Hs). split; [auto|].
    exists e, lt. split; [by eapply lookup_weaken|]. intros Hst Ht. destruct (K4 Hst) as [Hst0 _].
    destruct (Hlead Hst) as [Hterm Hfull]. rewrite Hterm in Ht. destruct (Hs Hst0 Ht) as [S1 S2].
    split; [by rewrite Hfull|]. intros Hd. destruct (S2 Hd) as [Hc Ho].
    pose proof (gr_commit _ _ Hgr). split; [lia|]. eapply output_at_ext; [|done].
    intros i Hi. apply (gr_prefix _ _ Hgr). lia.
Qed.

(** A node that is not a leader afterwards: frames may have been signalled. *)
Record frames_stopped n n' : Prop := {
  fp_state : state n' ≠ Leader;
  fp_pending : pending_requests n' = pending_requests n;
  fp_names : (next_name n ≤ next_name n')%nat;
  fp_frames : ∀ id, match frames n !! id, frames n' !! id with
                    | None, None => True
                    | Some f, Some f' => new_log_index f' = new_log_index f ∧ frame_term f' = frame_term f
                    | _, _ => False
                    end;
}.

Lemma kept_stopped n n' : frames_kept n n' → state n' ≠ Leader → frames_stopped n n'.
Proof.
  intros [H1 H2 H3 H4] Hs. split; try done. intros id. rewrite H1. by destruct (frames n !! id).
Qed.

Lemma frames_stopped_trans n1 n2 n3 :
  frames_stopped n1 n2 → frames_stopped n2 n3 → frames_stopped n1 n3.
Proof.
  intros [H1 H2 H3 H4] [K1 K2 K3 K4]. split; [done|congruence|lia|]. intros id.
  specialize (H4 id). specialize (K4 id). destruct (frames n1 !! id), (frames n2 !! id), (frames n3 !! id); try done.
  destruct H4, K4. split; congruence.
Qed.

Lemma stopped_replies cr cr' (leads leads' : Z → Prop) sm n n' :
  replies_ok cr leads sm n → frames_stopped n n' → grows n n' → cr ⊆ cr' → (∀ t, leads t → leads' t) →
  replies_ok cr' leads' sm n'.
Proof.
  intros [R1 R2 R3 R4 R5] [P1 P2 P3 P4] Hgr Hcr Hle. split; [by apply (gr_applied _ _ Hgr)|done|..].
  - intros id [f' Hf']. specialize (P4 id). rewrite Hf' in P4.
    destruct (frames n !! id) eqn:Hf; [|done]. pose proof (R3 id ltac:(eauto)). lia.
  - intros idx ptr. rewrite P2. intros Hi. destruct (R4 idx ptr Hi) as (f & Hf & Hidx). specialize (P4 ptr).
    rewrite Hf in P4. destruct (frames n' !! ptr) as [f'|]; [|done]. destruct P4 as [E _]. exists f'. split; [done|congruence].
  - intros id f' Hf'. specialize (P4 id). rewrite Hf' in P4. destruct (frames n !! id) as [f|] eqn:Hf; [|done].
    destruct P4 as [E1 E2]. destruct (R5 id f Hf) as (Hl & e & lt & He & _). rewrite E1, E2. split; [auto|].
    exists e, lt. split; [by eapply lookup_weaken|done].
Qed.

(** ** Committing *)

Lemma apply_committed_replies cr leads sm k n n' :
  replies_ok cr leads sm (set_commit_index k n) → state n = Leader →
  0 ≤ k → k + 1 ≤ log_size (raft_log n) →
  apply_committed (k + 1) n = Done n' →
  replies_ok cr leads sm (set_commit_index (k + 1) n') ∧ state n' = Leader ∧ raft_log n' = raft_log n.
Proof.
  intros [R1 R2 R3 R4 R5] Hst Hk Hsize Happ. unfold apply_committed in Happ.
  apply bind_Done in Happ as (e & He%kv_Get_value & Happ).
  destruct (ExactlyOnce_Apply (entry_request e) (rsm n)) as [result rsm'] eqn:Hap. simpl in *.
  assert (Hupto : log_upto (raft_log n) (k + 1) = log_upto (raft_log n) k ++ [e]) by (by apply log_upto_snoc).
  assert (Happly : rsm' = (apply_all (entry_request <$> log_upto (raft_log n) (k + 1)) (ExactlyOnce_new sm)).2).
  { rewrite Hupto, fmap_app. simpl. rewrite apply_all_snoc. unfold applied in R1. simpl in R1. rewrite <-R1.
    by rewrite Hap. }
  assert (Hout : output_at sm (raft_log n) (k + 1) result).
  { unfold output_at. rewrite Hupto, fmap_app. simpl. rewrite apply_all_snoc_output, last_snoc.
    unfold applied in R1. simpl in R1. rewrite <-R1. by rewrite Hap. }
  assert (Hsound : ∀ f e', frame_sound sm (set_commit_index k n) f e' →
    ∀ n2, full_log n2 = full_log n → raft_log n2 = raft_log n → commit_index n2 = k + 1 → frame_sound sm n2 f e').
  { intros f e' [S1 S2] n2 E1 E2 E3. split; [by rewrite E1|]. intros Hd. destruct (S2 Hd) as [Hc Ho].
    simpl in *. rewrite E2, E3. split; [lia|done]. }
  destruct (pending_requests n !! (k + 1)) as [ptr|] eqn:Hptr.
  - destruct (R4 _ _ Hptr) as (f & Hf & Hidx). simpl in Hf. rewrite Hf in Happ. injection Happ as <-.
    split; [|done]. split; simpl.
    + exact Happly.
    + exact R2.
    + intros id [g Hg]. apply R3. apply lookup_insert_Some in Hg as [[<- _]|[_ Hg]]; simpl; eauto.
    + intros idx ptr' Hp'. destruct (R4 _ _ Hp') as (g & Hg & Hi). simpl in Hg.
      destruct (decide (ptr' = ptr)) as [->|Hne].
      * eexists. rewrite lookup_insert_eq. split; [done|]. simpl. congruence.
      * exists g. by rewrite lookup_insert_ne.
    + intros id g Hg. apply lookup_insert_Some in Hg as [[<- <-]|[_ Hg]]; simpl.
      * destruct (R5 _ _ Hf) as (Hl & e' & lt & Hcr & Hs). split; [done|]. exists e', lt. split; [done|].
        intros Hs' Ht. destruct (Hs Hs' Ht) as [S1 _]. split; simpl; [done|]. intros _. split; [lia|]. by rewrite Hidx.
      * destruct (R5 _ _ Hg) as (Hl & e' & lt & Hcr & Hs). split; [done|]. exists e', lt. split; [done|].
        intros Hs' Ht. by apply Hsound; [apply Hs|..].
  - injection Happ as <-. split; [|done]. split; simpl; [exact Happly|exact R2|exact R3|exact R4|].
    intros id g Hg. destruct (R5 _ _ Hg) as (Hl & e' & lt & Hcr & Hs). split; [done|]. exists e', lt. split; [done|].
    intros Hs' Ht. by apply Hsound; [apply Hs|..].
Qed.
Lemma UpdateCommitIndex_replies cr leads sm B n n' :
  node_ok B n → state n = Leader → replies_ok cr leads sm n → UpdateCommitIndex n = Done n' →
  replies_ok cr leads sm n' ∧ state n' = Leader.
Proof.
  intros Hok Hst Hro Hu. pose proof Hok as [_ K2 K3 _ _ K6]. destruct (K6 Hst) as [L1 _ _ _ _].
  destruct (UpdateCommitIndex_bounds n n') as (c & r & f & Heq & Hc); [done|exact (proj2 K3)|done|].
  unfold UpdateCommitIndex in Hu. apply bind_Done in Hu as (c' & Hfind & Hu).
  apply bind_Done in Hu as (n1 & Hloop & [= <-]).
  assert (c' = c) as -> by (apply (f_equal commit_index) in Heq; done). clear Heq.
  set (P := λ (xs : list Z) m, ∃ k, commit_index n ≤ k ≤ c ∧ xs = range (k + 1) (c + 1) ∧
    state m = Leader ∧ raft_log m = raft_log n ∧ replies_ok cr leads sm (set_commit_index k m)).
  assert (HP : P [] n1).
  { refine (for_each_inv P _ _ _ _ Hloop _ _).
    - exists (commit_index n). split_and!; [lia..|done|done|done|]. by destruct n.
    - intros x xs m m' (k & Hk & Hxs & Hs & Hlog & Hm) Hb.
      assert (Hlt : k < c) by (destruct (decide (k < c)); [done|by rewrite range_nil in Hxs by lia]).
      rewrite range_cons in Hxs by lia. simplify_eq. rewrite GetSavedLogSize_log in Hc.
      destruct (apply_committed_replies cr leads sm k m m') as (Hm' & Hs' & Hlog'); [done|done|lia|rewrite Hlog; lia|done|].
      exists (k + 1). split_and!; [lia..|done|done|congruence|done]. }
  destruct HP as (k & Hk & Hnil & Hs & _ & Hro').
  assert (k = c) as -> by (destruct (decide (k = c)); [done|by rewrite range_cons in Hnil by lia]).
  by split.
Qed.

(** ** Role changes *)

Lemma UpdateTerm_kept t v n n' : UpdateTerm t v n = Done n' → frames_kept n n'.
Proof. intros (db & -> & _)%UpdateTerm_shape. by split. Qed.

Lemma BecomeFollower_stopped n n' : BecomeFollower n = Done n' → frames_stopped n n'.
Proof.
  intros H. pose proof (BecomeFollower_shape _ _ H) as (_ & Hs & _ & _ & _ & _ & _ & _ & Hp & _).
  unfold BecomeFollower in H. outcome_inv.
  split; [by rewrite Hs|done|by destruct (state n); simpl; unfold Stop_leader; simpl; try case_decide|].
  intros id. destruct (state n); simpl; [|by destruct (frames n !! id)..].
  unfold Stop_leader. simpl.
  assert (Hsig : ∀ g : Frame → Frame, (∀ f, new_log_index (g f) = new_log_index f ∧ frame_term (g f) = frame_term f) →
    match frames n !! id, (g <$> frames n) !! id with
    | None, None => True
    | Some f, Some f' => new_log_index f' = new_log_index f ∧ frame_term f' = frame_term f
    | _, _ => False
    end).
  { intros g Hg. rewrite lookup_fmap. destruct (frames n !! id); simpl; auto. }
  case_decide; simpl; apply Hsig; intros f; by case_decide.
Qed.

Lemma step_down_stopped n n' :
  (if decide (state n ≠ Follower) then BecomeFollower n else Done n) = Done n' → frames_stopped n n'.
Proof.
  case_decide as Hs; intros H; [by apply BecomeFollower_stopped|]. injection H as <-.
  apply kept_stopped; [apply frames_kept_refl|]. by rewrite Hs.
Qed.

Lemma BecomeLeader_live n n' : BecomeLeader n = Done n' →
  stopped (stop_leader n') = false ∧ (next_name n ≤ next_name n')%nat.
Proof. unfold BecomeLeader. intros H. outcome_inv. simpl. split; [done|lia]. Qed.

(** [UpdateTerm] and then stepping down. *)
Lemma newer_term_stopped t n n1 n' :
  UpdateTerm t None n = Done n1 →
  (if decide (state n1 ≠ Follower) then BecomeFollower n1 else Done n1) = Done n' → frames_stopped n n'.
Proof.
  intros [H1 H2 H3 _]%UpdateTerm_kept [K1 K2 K3 K4]%step_down_stopped. split; [done|congruence|lia|].
  intros id. specialize (K4 id). by rewrite H1 in K4.
Qed.

Lemma RequestVote_frames req n res n' : RequestVote req n = Done (res, n') →
  frames_kept n n' ∨ frames_stopped n n'.
Proof.
  unfold RequestVote. intros H. apply bind_Done in H as (t & _ & H).
  case_decide; [left; injection H as <- <-; apply frames_kept_refl|].
  apply bind_Done in H as (n1 & H1 & H).
  assert (Hn1 : frames_kept n n1 ∨ frames_stopped n n1).
  { destruct (decide (t < rv_term req)); [right|left; injection H1 as <-; apply frames_kept_refl].
    apply bind_Done in H1 as (n0 & Hu & Hd). by eapply newer_term_stopped. }
  assert (Hn' : ∃ db, n' = set_raft_state db n1).
  { repeat case_decide; simplify_eq; try (by exists (raft_state n'); destruct n');
      (case_bool_decide || idtac); eexists; (done || by destruct n1). }
  destruct Hn' as [db ->]. destruct Hn1 as [[F1 F2 F3 F4]|[F1 F2 F3 F4]]; [left|right]; by split.
Qed.
Lemma AppendEntries_frames Equals req n res n' : AppendEntries Equals req n = Done (res, n') →
  frames_kept n n' ∨ frames_stopped n n'.
Proof.
  intros [_ Ho]%AppendEntries_inv.
  assert (Hfollow : ∀ n1, term n ≤ ae_term req → AppendEntries_follow req n = Done n1 → frames_stopped n n1).
  { intros n1 Hle Hf. pose proof (AppendEntries_follow_shape _ _ _ Hf Hle) as (_ & _ & Hs & _).
    unfold AppendEntries_follow in Hf. apply bind_Done in Hf as (t & _ & Hf).
    apply bind_Done in Hf as (n2 & Hb & Hf). apply bind_Done in Hf as (t' & _ & Hf).
    set (n0 := set_reset_election_timeout _ n) in *.
    assert (H1 : frames_kept n2 n1) by (case_decide; [by eapply UpdateTerm_kept|injection Hf as <-; apply frames_kept_refl]).
    assert (H2 : frames_stopped n0 n2 ∨ n2 = n0).
    { destruct (decide (t ≤ ae_term req ∧ state n0 ≠ Follower)); [left; by apply BecomeFollower_stopped|].
      right. by injection Hb. }
    destruct H1 as [F1 F2 F3 F4]. destruct H2 as [[P1 P2 P3 P4]| ->]; split; simpl in *.
    - by rewrite Hs.
    - congruence.
    - lia.
    - intros id. specialize (P4 id). rewrite F1. done.
    - by rewrite Hs.
    - done.
    - done.
    - intros id. rewrite F1. simpl. by destruct (frames n !! id). }
  destruct Ho as [|n1 Hle Hf _|n1 n2 Hle Hf Hm Hst]; [left; apply frames_kept_refl|right; eauto|right].
  destruct (Hfollow n1 Hle Hf) as [P1 P2 P3 P4].
  apply AppendEntries_store_shape in Hst as (r & ->). by split.
Qed.

(** The commit of a leader with what surrounds it. *)
Record commits (B : Z) n n' : Prop := {
  cm_leader : state n = Leader;
  cm_path : ∃ n1 n2, frames_kept n n1 ∧ grows n n1 ∧ state n1 = Leader ∧ raft_state n1 = raft_state n ∧
    (∀ i, full_log n1 i = full_log n i) ∧ node_ok B n1 ∧ UpdateCommitIndex n1 = Done n2 ∧
    frames_kept n2 n' ∧ keeps n2 n' ∧ raft_state n' = raft_state n2;
}.

Lemma commits_replies cr cr' (leads leads' : Z → Prop) sm B n n' :
  commits B n n' → replies_ok cr leads sm n → cr ⊆ cr' → (∀ t, leads t → leads' t) → replies_ok cr' leads' sm n'.
Proof.
  intros [Hs (n1 & n2 & K1 & G1 & S1 & T1 & F1 & Hok & Hu & K2 & Hk & T2)] Hro Hcr Hle.
  assert (R1 : replies_ok cr' leads' sm n1).
  { eapply leader_kept_replies; try done. intros _. split; [unfold term; by rewrite T1|done]. }
  destruct (UpdateCommitIndex_replies cr' leads' sm B n1 n2 Hok S1 R1 Hu) as [R2 S2].
  eapply leader_kept_replies; [done|done|by apply keeps_grows|done|done|].
  intros Hs'. split; [unfold term; by rewrite T2|]. destruct (ke_leader _ _ Hk Hs') as (_ & _ & _ & Hp).
  intros i. unfold full_log, extended. by rewrite (ke_log _ _ Hk), Hp.
Qed.

Lemma add_heartbeat_guard_frames id n :
  frames_kept n (add_heartbeat_guard id n) ∧ raft_state (add_heartbeat_guard id n) = raft_state n.
Proof. unfold add_heartbeat_guard. destruct (stopped _); by split. Qed.

Lemma main_session_frames B main n ss main' n' :
  small B → node_ok B n → fiber_ok n (InLeader main ss) →
  main_session_run main n = Some (Done (main', n')) → frames_kept n n' ∨ commits B n n'.
Proof.
  intros HB Hok [_ Hf] Hrun.
  assert (Hloop : ∀ n0, node_ok B n0 → frames_kept n n0 → grows n n0 → state n0 = state n → raft_state n0 = raft_state n →
    (∀ i, full_log n0 i = full_log n i) →
    (state n = Leader → match_index n0 !! self n0 = Some (log_size (raft_log n0))) →
    main_session_loop n0 = Done (main', n') → frames_kept n n' ∨ commits B n n').
  { intros n0 Hok0 Hk0 Hg0 Hs0 Ht0 Hf0 Hm0 Hl. unfold main_session_loop in Hl.
    destruct (decide (state n0 = Leader)) as [Hlead|Hlead]; [right|left; by injection Hl as _ <-].
    apply bind_Done in Hl as (n2 & Hit & [= _ <-]).
    destruct (LeaderMainSession_iteration_shape B n0 n2) as (n1 & n3 & Hsv & Hu & ->); [done..|apply Hm0; congruence|done|].
    destruct (saves_ok B n0 n1 Hok0 Hlead Hsv) as (Hok1 & Hgr1 & _ & Hlog1).
    destruct (add_heartbeat_guard_frames (self n0) n3) as [Hg1 Hg2].
    split; [congruence|]. exists n1, n3. split_and!; try done.
    - eapply frames_kept_trans; [done|].
      split; [apply sv_frames|apply sv_requests| |]; try done; [by rewrite (sv_names _ _ Hsv)|].
      intros _. split; [done|apply (sv_source _ _ Hsv)].
    - by eapply grows_trans.
    - apply (sv_state _ _ Hsv).
    - by rewrite (sv_term _ _ Hsv).
    - intros i. by rewrite Hlog1.
    - apply add_heartbeat_guard_keeps. }
  destruct main; simpl in Hrun; [| |done]; injection Hrun as Hrun.
  - apply bind_Done in Hrun as (n0 & Hst & Hl).
    destruct (LeaderMainSession_start_ok B n n0) as (Hok0 & Hgr0 & m & -> & Hm & _); [done..|].
    apply (Hloop (set_match_index m n)); try done.
  - apply (Hloop (Session_resume (node_id (config n)) n)); try done.
    + eapply keeps_ok; [apply Session_resume_keeps|done].
    + intros Hs. by destruct (Hf Hs).
Qed.

Lemma response_frames B id req result n next n' :
  small B → node_ok B n → id ≠ self n →
  (state n = Leader → next_index n !! id = Some (ae_prev_log_index req + 1) ∧
     0 ≤ ae_prev_log_index req ∧
     ae_prev_log_index req + Z.of_nat (length (ae_entries req)) ≤ full_size n) →
  LeaderNodeSession_response id req result n = Done (next, n') →
  frames_kept n n' ∨ frames_stopped n n' ∨ commits B n n'.
Proof.
  intros HB Hok Hid Hcall H. pose proof Hok as [_ K2 _ _ _ K6]. unfold LeaderNodeSession_response in H.
  destruct (decide (state n ≠ Leader)) as [|Hl]; [left; injection H as _ <-; apply frames_kept_refl|].
  apply dec_stable in Hl. destruct (K6 Hl) as [L1 L2 L3 L4 L5].
  destruct result as [response|]; [|left; injection H as _ <-; apply frames_kept_refl].
  apply bind_Done in H as (t & _ & H). destruct (decide (t < aer_term response)).
  { right; left. apply bind_Done in H as (n1 & Hu & H). apply bind_Done in H as (n2 & Hd & [= _ <-]).
    by eapply newer_term_stopped. }
  apply bind_Done in H as (nx & Hnx%vec_get_Done & H). destruct (aer_success response); simpl in H.
  - right; right. apply bind_Done in H as (m & Hm%vec_set_Done & H).
    apply bind_Done in H as (next' & Hnext'%vec_set_Done & H). destruct Hm as [_ ->], Hnext' as [_ ->].
    apply bind_Done in H as (n2 & Hu & H). apply bind_Done in H as (mine & _ & H). apply bind_Done in H as (his & _ & H).
    set (n1 := set_next_index _ _) in *.
    assert (Hn' : frames_kept n2 n' ∧ keeps n2 n' ∧ raft_state n' = raft_state n2).
    { destruct (decide (his = mine)); injection H as _ <-.
      - destruct (add_heartbeat_guard_frames id n2). split_and!; [done|apply add_heartbeat_guard_keeps|done].
      - split_and!; [apply frames_kept_refl|apply keeps_refl|done]. }
    destruct Hn' as (F & K & T). split; [done|]. exists n1, n2. split_and!; try done.
    destruct (Hcall Hl) as (Hnx' & Hprev & Hlen). rewrite Hnx in Hnx'. injection Hnx' as ->.
    pose proof (contiguous_size _ K2). destruct Hok as [O1 O2 O3 O4 O5 O6].
    split; try done. intros _. split; try done; simpl; rewrite ?length_insert; try done.
    + unfold self in *. simpl. by rewrite list_lookup_insert_ne by done.
    + intros id' nx' [[<- [<- _]]|[_ Hlk]]%list_lookup_insert_Some; [|by apply (L5 _ _ Hlk)].
      rewrite add64_small by word. change (full_size n1) with (full_size n). lia.
  - left. apply bind_Done in H as (? & _ & H). apply bind_Done in H as (next' & _ & [= _ <-]). by split.
Qed.
(** ** [Execute] *)

Lemma full_log_end n : full_log n (full_size n + 1) = None.
Proof.
  unfold full_log, extended, full_size. rewrite decide_False by lia. apply lookup_ge_None_2. lia.
Qed.

Lemma Execute_begin_replies cr (leads leads' : Z → Prop) sm B req lt n res n' :
  small B → node_ok B n → state n = Leader → Execute_begin req n = Done (res, n') →
  cr !! (term n, full_size n + 1) = None → (∀ t, leads t → leads' t) → leads' (term n) →
  replies_ok cr leads sm n →
  replies_ok (<[(term n, full_size n + 1) := (MkLogEntry (term n) req, lt)]> cr) leads' sm n'.
Proof.
  intros HB Hok Hs Hex Hnone Hle Hlead [R1 R2 R3 R4 R5].
  destruct (Execute_begin_ok B req n res n' HB Hok Hex) as [_ Hgr].
  assert (Hfull : ∀ i, full_log n' i =
    if decide (i = full_size n + 1) then Some (MkLogEntry (term n) req) else full_log n i).
  { destruct (Execute_begin_effect (λ _ _, true) B req n res n' Hok Hex) as [Hv Hsz _|Hs' _|req' E _ _ _ Hf _|req' n1 E _ _ _ _ _ _ _ _]; try done.
    - exfalso. apply Execute_begin_shape in Hex as [(_ & ? & _)|(_ & _ & idx & _ & _ & Hp & _ & Hl & _ & _ & _ & _ & Hs')]; [done|].
      specialize (Hsz Hs' Hs). unfold full_size in Hsz. rewrite Hp, Hl, length_app in Hsz. simpl in Hsz. lia.
    - exfalso. by apply Execute_begin_shape in Hex as [(_ & ? & _)|(_ & _ & idx & _ & _ & _ & _ & _ & _ & _ & _ & _ & ?)].
    - injection E as <-. exact Hf. }
  pose proof (lo_self _ _ (ok_leader _ _ Hok Hs)) as Hself. unfold self in Hself.
  unfold Execute_begin in Hex. rewrite decide_False in Hex by tauto.
  apply bind_Done in Hex as (index & Hindex%vec_get_Done & Hex). rewrite Hself in Hindex. injection Hindex as <-.
  apply bind_Done in Hex as (next & _ & Hex). apply bind_Done in Hex as (t & Ht & Hex).
  apply GetCurrentTerm_Done in Ht as [_ <-]. injection Hex as _ <-. simpl in *.
  assert (Hsound : ∀ f e, frame_sound sm n f e → term n = frame_term f →
    new_log_index f ≠ full_size n + 1).
  { intros f e [S1 _] _ E. rewrite E, full_log_end in S1. done. }
  split; simpl.
  - by apply (gr_applied _ _ Hgr).
  - auto.
  - intros id [g Hg]. apply lookup_insert_Some in Hg as [[<- _]|[_ Hg]]; [lia|]. pose proof (R3 id ltac:(eauto)). lia.
  - intros idx ptr Hptr. apply lookup_insert_Some in Hptr as [[<- <-]|[Hne Hptr]].
    + eexists. by rewrite lookup_insert_eq.
    + destruct (R4 idx ptr Hptr) as (f & Hf & Hidx). exists f. split; [|done].
      pose proof (R3 ptr ltac:(eauto)). by rewrite lookup_insert_ne by lia.
  - intros id g Hg. apply lookup_insert_Some in Hg as [[<- <-]|[_ Hg]]; simpl.
    + split; [done|]. eexists _, _. rewrite lookup_insert_eq. split; [done|]. intros _ _. split; simpl.
      * rewrite Hfull. by rewrite decide_True.
      * intros Hd. by rewrite (R2 Hs) in Hd.
    + destruct (R5 id g Hg) as (Hl & e & lt' & He & Hs'). split; [auto|]. exists e, lt'. split.
      * rewrite lookup_insert_ne; [done|]. intros E. rewrite <-E in He. congruence.
      * intros _ Htm. specialize (Hs' Hs Htm). pose proof (Hsound g e Hs' Htm). destruct Hs' as [S1 S2].
        split; [|done]. rewrite Hfull. by rewrite decide_False.
Qed.

Lemma Execute_finish_replies cr cr' (leads leads' : Z → Prop) sm id n res n' :
  Execute_finish id n = Done (res, n') → cr ⊆ cr' → (∀ t, leads t → leads' t) →
  replies_ok cr leads sm n → replies_ok cr' leads' sm n'.
Proof.
  intros Hex Hcr Hle [R1 R2 R3 R4 R5]. unfold Execute_finish in Hex. destruct (frames n !! id) as [f|] eqn:Hf; [|done].
  apply bind_Done in Hex as (t & _ & Hex).
  assert (Hn' : n' = set_frames (delete id (frames n)) (set_pending_requests (delete (new_log_index f) (pending_requests n)) n)).
  { destruct (decide (frame_term f ≠ t)); [by injection Hex|]. apply bind_Done in Hex as (? & _ & [= _ <-]). done. }
  rewrite Hn'. split; simpl; [done|done| | |].
  - intros id' [g Hg]. apply lookup_delete_Some in Hg as [_ Hg]. apply R3. eauto.
  - intros idx ptr [Hne Hptr]%lookup_delete_Some. destruct (R4 idx ptr Hptr) as (g & Hg & Hi).
    exists g. split; [|done]. rewrite lookup_delete_ne; [done|]. intros ->. congruence.
  - intros id' g [_ Hg]%lookup_delete_Some. destruct (R5 id' g Hg) as (Hl & e & lt & He & Hs). split; [auto|].
    exists e, lt. split; [by eapply lookup_weaken|]. intros H1 H2. destruct (Hs H1 H2). by split.
Qed.

(** ** What a step of a process does to the frames *)

Inductive frames_effect (B : Z) (ev : event) (out : output) n n' : Prop :=
  | fe_kept : frames_kept n n' → frames_effect B ev out n n'
  | fe_stopped : frames_stopped n n' → frames_effect B ev out n n'
  | fe_leads : BecomeLeader n = Done n' → frames_effect B ev out n n'
  | fe_commits : commits B n n' → frames_effect B ev out n n'
  | fe_begins req res : ev = HandleExecute req → Execute_begin req n = Done (res, n') → frames_effect B ev out n n'
  | fe_finishes id res : ev = ExecuteResumes id → out = ReplyExecute res → Execute_ready id n = true →
      Execute_finish id n = Done (res, n') → frames_effect B ev out n n'.

Lemma StartCandidate_vote_frames result votes n votes' n' :
  StartCandidate_vote result votes n = Done (votes', n') →
  frames_kept n n' ∨ frames_stopped n n' ∨ BecomeLeader n = Done n'.
Proof.
  unfold StartCandidate_vote. intros H. destruct result as [r|]; [|left; injection H as _ <-; apply frames_kept_refl].
  apply bind_Done in H as (t & _ & H). destruct (decide (t < rvr_term r)).
  { right; left. apply bind_Done in H as (n1 & Hu & H). apply bind_Done in H as (n2 & Hd & [= _ <-]).
    by eapply newer_term_stopped. }
  destruct (negb (rvr_vote_granted r)); [left; injection H as _ <-; apply frames_kept_refl|].
  case_decide; [|left; injection H as _ <-; apply frames_kept_refl].
  right; right. by apply bind_Done in H as (n1 & Hb & [= _ <-]).
Qed.

Lemma StartCandidate_begin_kept n req n' : StartCandidate_begin n = Done (req, n') → frames_kept n n'.
Proof.
  unfold StartCandidate_begin. intros H. apply bind_Done in H as (t & _ & H).
  apply bind_Done in H as (n1 & Hu & H). apply bind_Done in H as (t' & _ & [= _ <-]).
  apply UpdateTerm_shape in Hu as (db & -> & _). by split; simpl; [..|lia|].
Qed.

Local Arguments fiber_ok : simpl never.

Lemma process_step_frames Equals B ev p out p' :
  small B → process_ok B p → process_step Equals ev p = Some (Done (out, p')) →
  frames_effect B ev out (node p) (node p').
Proof.
  intros HB [Hok Hf] Hrun. destruct p as [n fb]. simpl in *.
  destruct ev; simpl in Hrun; try (destruct fb; discriminate Hrun).
  - destruct fb; try discriminate Hrun. injection Hrun as Hrun. unfold run_loop in Hrun. apply fe_kept.
    destruct (state n) eqn:Hs; [injection Hrun as _ <-; apply frames_kept_refl|
      injection Hrun as _ <-; simpl; split; simpl; (done || lia)|].
    apply bind_Done in Hrun as ([req n1] & Hc & [= _ <-]). by eapply StartCandidate_begin_kept.
  - destruct fb; try discriminate Hrun. injection Hrun as Hrun. apply bind_Done in Hrun as (n1 & H1 & [= _ <-]).
    apply fe_kept. unfold StartFollower_end in H1. destruct (stopped _); [injection H1 as <-; apply frames_kept_refl|].
    unfold BecomeCandidate in H1. apply bind_Done in H1 as (? & _ & [= <-]). by split.
  - destruct fb as [| |votes rv waiting|]; try discriminate Hrun. case_decide; [|done]. injection Hrun as Hrun.
    apply bind_Done in Hrun as ([v n1] & H1 & [= _ <-]).
    apply StartCandidate_vote_frames in H1 as [?|[?|?]]; [by apply fe_kept|by apply fe_stopped|by apply fe_leads].
  - destruct fb; try discriminate Hrun. case_decide; [|done]. injection Hrun as _ <-. apply fe_kept, frames_kept_refl.
  - destruct fb as [| | |main ss]; try discriminate Hrun. apply bind_Some in Hrun as (m & Hm & [= Hrun]).
    apply bind_Done in Hrun as ([main' n1] & -> & [= _ <-]).
    destruct (main_session_frames B main n ss main' n1) as [?|?]; [done..|by apply fe_kept|by apply fe_commits].
  - destruct fb as [| | |main ss]; try discriminate Hrun. destruct (ss !! id) as [[| |]|]; try discriminate Hrun.
    injection Hrun as Hrun. apply fe_kept.
    case_decide; [apply bind_Done in Hrun as (req & _ & [= _ <-])|injection Hrun as _ <-]; by split.
  - destruct fb as [| | |main ss]; try discriminate Hrun. destruct (ss !! id) as [[|req|]|] eqn:Hss; try discriminate Hrun.
    injection Hrun as Hrun. apply bind_Done in Hrun as ([nx n1] & H1 & [= _ <-]). destruct Hf as [Hids Hcall].
    destruct (response_frames B id req result n nx n1) as [?|[?|?]];
      [done|done|eauto|intros Hs; by apply Hcall|done|by apply fe_kept|by apply fe_stopped|by apply fe_commits].
  - destruct fb as [| | |[] ss]; try discriminate Hrun. case_decide; [|done]. injection Hrun as _ <-. apply fe_kept. by split.
  - injection Hrun as Hrun. apply bind_Done in Hrun as ([r n1] & H1 & [= _ <-]). by eapply fe_begins.
  - destruct (Execute_ready id n) eqn:Hr; [|done]. injection Hrun as Hrun.
    apply bind_Done in Hrun as ([r n1] & H1 & [= <- <-]). by eapply fe_finishes.
  - injection Hrun as Hrun. apply bind_Done in Hrun as ([r n1] & H1 & [= _ <-]).
    apply AppendEntries_frames in H1 as [?|?]; [by apply fe_kept|by apply fe_stopped].
  - injection Hrun as Hrun. apply bind_Done in Hrun as ([r n1] & H1 & [= _ <-]).
    apply RequestVote_frames in H1 as [?|?]; [by apply fe_kept|by apply fe_stopped].
Qed.

(** A suspended call keeps the position and the term of its entry. *)
Definition same_call f f' : Prop := new_log_index f' = new_log_index f ∧ frame_term f' = frame_term f.

Definition calls_kept (fs fs' : gmap nat Frame) : Prop :=
  ∀ id f, fs !! id = Some f → ∃ f', fs' !! id = Some f' ∧ same_call f f'.

Lemma calls_kept_refl fs : calls_kept fs fs.
Proof. intros id f Hf. by exists f. Qed.

Lemma calls_kept_trans fs1 fs2 fs3 : calls_kept fs1 fs2 → calls_kept fs2 fs3 → calls_kept fs1 fs3.
Proof.
  intros H K id f Hf. destruct (H id f Hf) as (g & Hg & E1 & E2). destruct (K id g Hg) as (h & Hh & E3 & E4).
  exists h. split; [done|]. split; congruence.
Qed.

Lemma apply_committed_calls idx n n' : apply_committed idx n = Done n' → calls_kept (frames n) (frames n').
Proof.
  unfold apply_committed. intros H. apply bind_Done in H as (e & _ & H).
  destruct (ExactlyOnce_Apply _ _). simpl in H.
  destruct (pending_requests n !! idx) as [ptr|]; [|injection H as <-; apply calls_kept_refl].
  destruct (frames n !! ptr) as [g|] eqn:Hg; [|done]. injection H as <-. intros id f Hf. simpl.
  destruct (decide (id = ptr)) as [->|Hne]; [|exists f; by rewrite lookup_insert_ne].
  rewrite Hg in Hf. injection Hf as ->. eexists. by rewrite lookup_insert_eq.
Qed.

Lemma UpdateCommitIndex_calls n n' : UpdateCommitIndex n = Done n' → calls_kept (frames n) (frames n').
Proof.
  unfold UpdateCommitIndex. intros H. apply bind_Done in H as (c & _ & H).
  apply bind_Done in H as (n1 & Hloop & [= <-]). simpl.
  refine (for_each_inv (λ _ m, calls_kept (frames n) (frames m)) _ _ _ _ Hloop (calls_kept_refl _) _).
  intros x xs m m' Hm Hb. eapply calls_kept_trans; [done|]. by eapply apply_committed_calls.
Qed.

Lemma frames_effect_calls B ev out n n' id f :
  (∀ id, is_Some (frames n !! id) → (id < next_name n)%nat) →
  frames_effect B ev out n n' → ev ≠ ExecuteResumes id → frames n !! id = Some f →
  ∃ f', frames n' !! id = Some f' ∧ same_call f f'.
Proof.
  intros Hnames [[-> _ _ _]|[_ _ _ Hf]|Hb|[_ (n1 & n2 & K1 & _ & _ & _ & _ & _ & Hu & K2 & _)]
    |req res -> Hb|id' res -> _ _ Hb] Hev Hid; [by exists f| | | | |].
  - specialize (Hf id). rewrite Hid in Hf. destruct (frames n' !! id) as [f'|]; [|done]. by exists f'.
  - apply BecomeLeader_shape in Hb as (_ & _ & _ & _ & _ & _ & _ & _ & _ & -> & _). by exists f.
  - rewrite (fk_frames _ _ K2). rewrite <-(fk_frames _ _ K1) in Hid. by eapply UpdateCommitIndex_calls.
  - unfold Execute_begin in Hb. case_decide; [injection Hb as _ <-; by exists f|].
    apply bind_Done in Hb as (? & _ & Hb). apply bind_Done in Hb as (? & _ & Hb).
    apply bind_Done in Hb as (? & _ & [= _ <-]). simpl. pose proof (Hnames id ltac:(eauto)).
    exists f. rewrite lookup_insert_ne by lia. by split.
  - assert (Hn' : frames n' = delete id' (frames n)).
    { unfold Execute_finish in Hb. destruct (frames n !! id'); [|done]. apply bind_Done in Hb as (t & _ & Hb).
      case_decide; outcome_inv; done. }
    exists f. rewrite Hn', lookup_delete_ne by congruence. by split.
Qed.

(** A leader suspends the call in a new frame. *)
Lemma Execute_begin_frame B req n res n' :
  node_ok B n → state n = Leader → Execute_begin req n = Done (res, n') →
  ∃ f, frames n' !! next_name n = Some f ∧ frame_term f = term n ∧ new_log_index f = full_size n + 1.
Proof.
  intros Hok Hs Hb. pose proof (lo_self _ _ (ok_leader _ _ Hok Hs)) as Hself. unfold self in Hself.
  unfold Execute_begin in Hb. rewrite decide_False in Hb by tauto.
  apply bind_Done in Hb as (index & Hindex%vec_get_Done & Hb). rewrite Hself in Hindex. injection Hindex as <-.
  apply bind_Done in Hb as (next & _ & Hb). apply bind_Done in Hb as (t & Ht & Hb).
  apply GetCurrentTerm_Done in Ht as [_ <-]. injection Hb as _ <-. simpl. eexists. by rewrite lookup_insert_eq.
Qed.

(** A new leader has no suspended call of its term. *)
Lemma BecomeLeader_replies cr cr' (leads leads' : Z → Prop) sm n n' :
  replies_ok cr leads sm n → BecomeLeader n = Done n' → grows n n' →
  ¬ leads (term n) → cr ⊆ cr' → (∀ t, leads t → leads' t) → replies_ok cr' leads' sm n'.
Proof.
  intros [R1 R2 R3 R4 R5] Hb Hgr Hno Hcr Hle. destruct (BecomeLeader_live _ _ Hb) as [Hlive Hnames].
  apply BecomeLeader_shape in Hb as (_ & _ & _ & Hrs & _ & _ & _ & _ & Hp & Hf & _).
  split; [by apply (gr_applied _ _ Hgr)|done|..].
  - intros id Hid. rewrite Hf in Hid. apply R3 in Hid. lia.
  - intros idx ptr. rewrite Hp, Hf. apply R4.
  - intros id f Hid. rewrite Hf in Hid. destruct (R5 id f Hid) as (Hl & e & lt & He & _). split; [auto|].
    exists e, lt. split; [by eapply lookup_weaken|]. intros _ Ht. destruct Hno. unfold term in *. by rewrite <-Hrs, Ht.
Qed.

Lemma fresh_replies cr leads sm n :
  frames n = ∅ → pending_requests n = ∅ → state n ≠ Leader → applied sm n → replies_ok cr leads sm n.
Proof.
  intros Hf Hp Hs Ha. split; [done|done|..].
  - intros id. rewrite Hf, lookup_empty. by intros [].
  - intros idx ptr. by rewrite Hp, lookup_empty.
  - intros id f. by rewrite Hf, lookup_empty.
Qed.
End node.

(** ** The invariant of a cluster *)

Section cluster.
Context {AM : AnyMessage} {SM : IStateMachine}.
Variable MessageDifferencer_Equals : LogEntry → LogEntry → bool.
Hypothesis Equals_sound : ∀ a b, MessageDifferencer_Equals a b = true → a = b.
Variable configs : list RaftConfig.

Definition leads_in (c : Cluster) (i : nat) (t : Z) : Prop := (t, i) ∈ leaders (history c).

Definition replies_inv (c : Cluster) : Prop :=
  ∀ i p, processes c !! i = Some p → ∃ sm, replies_ok (created (history c)) (leads_in c i) sm (node p).

Lemma replies_ok_mono cr cr' (leads leads' : Z → Prop) sm n :
  cr ⊆ cr' → (∀ t, leads t → leads' t) → replies_ok cr leads sm n → replies_ok cr' leads' sm n.
Proof.
  intros Hcr Hle Hro.
  eapply leader_kept_replies; [done|apply frames_kept_refl|apply grows_refl|done|done|by intros _].
Qed.

Section at_process.
Context (B : Z) (c : Cluster) (i : nat) (ev : event) (p p' : Process) (out : output)
  (packets : list packet).
Abbreviation c' := (update i ev p p' packets c).
Hypothesis HB : small B.
Hypothesis Helect : election_inv configs c.
Hypothesis Helect' : election_inv configs c'.
Hypothesis Hinv : log_inv B c.
Hypothesis Hp : processes c !! i = Some p.
Hypothesis Hrun : runs MessageDifferencer_Equals ev p out p'.
Hypothesis Hev : ∀ req, ev = HandleAppendEntries req → ∃ caller, PAppend caller i req ∈ network c.
Hypothesis Hreplies : replies_inv c.

Lemma step_mono : created (history c) ⊆ created (history c') ∧ ∀ j t, leads_in c j t → leads_in c' j t.
Proof. split; [by eapply created_mono|]. intros j t. by apply leaders_grow. Qed.

(** A call arrives. *)
Lemma execute_replies req sm :
  ev = HandleExecute req → replies_ok (created (history c)) (leads_in c i) sm (node p) →
  replies_ok (created (history c')) (leads_in c' i) sm (node p').
Proof.
  intros Hev' Hro. destruct step_mono as [Hcr Hle]. destruct (li_process _ _ Hinv _ _ Hp) as [[Hok _] _].
  pose proof Hrun as Hr. rewrite Hev' in Hr. unfold runs in Hr. simpl in Hr. injection Hr as Hr.
  apply bind_Done in Hr as ([r n1] & Hb & [= _ Hp']).
  assert (Hn : node p' = n1) by (by rewrite <-Hp'). rewrite Hn.
  destruct (decide (state (node p) = Leader)) as [Hs|Hs].
  - rewrite (created_execute B c i ev p p' packets Hinv Hp req Hev' Hs).
    eapply (Execute_begin_replies _ (leads_in c i)); [done..| |apply Hle| |done].
    + destruct (created (history c) !! _) eqn:Hnone; [|done].
      eapply li_fresh in Hnone; [|done..]. lia.
    + apply leaders_grow. by eapply inv_leader.
  - unfold Execute_begin in Hb. rewrite decide_True in Hb by done. injection Hb as _ <-.
    by eapply replies_ok_mono; [|apply Hle|].
Qed.

Lemma step_node_replies : ∃ sm, replies_ok (created (history c')) (leads_in c' i) sm (node p').
Proof.
  destruct (Hreplies _ _ Hp) as [sm Hro]. exists sm. destruct step_mono as [Hcr Hle].
  destruct (li_process _ _ Hinv _ _ Hp) as [Hok _].
  destruct (step_ok MessageDifferencer_Equals configs B c i ev p p' out packets) as (_ & Hgr & _); [done..|].
  destruct (process_step_frames _ B ev p out p' HB Hok Hrun)
    as [Hk|Hs|Hb|Hc|req res Hev' Hb|id res Hev' _ _ Hf].
  - destruct (effect_p MessageDifferencer_Equals B c i ev p p' out HB Hinv Hp Hrun)
      as [Hv _ _|Hs' _|req Hev' _ _ _ _ _|? ? _ _ _ Hs' _ _ _ _ _];
      [|by eapply stopped_replies; [done|apply kept_stopped|done|done|apply Hle]|by eapply execute_replies
       |by eapply stopped_replies; [done|apply kept_stopped|done|done|apply Hle]].
    eapply leader_kept_replies; [done|done|done|done|apply Hle|]. intros Hs'. destruct (fk_live _ _ Hk Hs') as [Hs _].
    split; [by eapply leader_term|]. intros j. specialize (Hv j). unfold log_view in Hv. by rewrite Hs, Hs' in Hv.
  - by eapply stopped_replies; [..|apply Hle].
  - pose proof (BecomeLeader_shape _ _ Hb) as (Hs & Hs' & _).
    destruct (new_leader_unused MessageDifferencer_Equals configs B c i ev p p' out packets) as [_ Hno];
      [done..|by rewrite Hs|done|].
    eapply BecomeLeader_replies; [done|done|done|apply Hno|done|apply Hle].
  - by eapply commits_replies; [..|apply Hle].
  - by eapply execute_replies.
  - by eapply Execute_finish_replies; [| |apply Hle|].
Qed.

Lemma step_replies : replies_inv c'.
Proof.
  intros j q [[-> ->]|[_ Hq]]%lookup_step; [apply step_node_replies|].
  destruct (Hreplies _ _ Hq) as [sm Hro]. exists sm. destruct step_mono as [Hcr Hle].
  eapply replies_ok_mono; [apply Hcr|apply Hle|apply Hro].
Qed.
End at_process.

Lemma restart_replies c i p sm :
  replies_inv c → replies_inv (MkCluster (<[i := restart sm p]> (processes c)) (network c) (history c)).
Proof.
  intros Hinv j q Hq. simpl in Hq. apply lookup_insert_Some in Hq as [[<- <-]|[_ Hq]]; [|by apply Hinv].
  exists sm. by apply fresh_replies.
Qed.

Lemma replies_step B c c' :
  small B → election_inv configs c → log_inv B c → replies_inv c →
  step MessageDifferencer_Equals c c' → replies_inv c'.
Proof.
  intros HB Helect Hinv Hro Hstep. pose proof (election_step _ _ _ _ Helect Hstep) as Helect'.
  destruct Hstep; [eapply step_replies..|by apply restart_replies]; try done.
  - intros req ->. done.
  - intros req [= ->]. eauto.
Qed.

Lemma initial_replies sms c : initial configs sms c → replies_inv c.
Proof.
  intros (_ & _ & _ & Hp) i p Hi. rewrite Hp in Hi. apply fmap_Some in Hi as (cfg & _ & ->).
  exists (sms i). by apply fresh_replies.
Qed.

Lemma replies_reachable k c :
  reachable_in MessageDifferencer_Equals configs k c → small (Z.of_nat k) → replies_inv c.
Proof.
  intros (sms & c0 & Hinit & Hsteps). revert c Hsteps. induction k as [|k IH]; intros c Hsteps Hk.
  - inversion Hsteps; subst. by eapply initial_replies.
  - apply nsteps_inv_r in Hsteps as (c1 & Hsteps & Hstep).
    destruct (log_reachable _ Equals_sound configs k c1) as [Hinv Helect]; [by exists sms, c0|word|].
    eapply (replies_step (Z.of_nat k)); [word|done..|by apply IH; [|word]|done].
Qed.

(** A reply that is [Commited] comes from a call whose entry is committed. *)
Lemma Commited_reply B c i p id result p' :
  log_inv B c → replies_inv c → processes c !! i = Some p →
  process_step MessageDifferencer_Equals (ExecuteResumes id) p =
    Some (Done (ReplyExecute (MkResponse Commited result), p')) →
  ∃ f e lt sm, frames (node p) !! id = Some f ∧
    created (history c) !! (frame_term f, new_log_index f) = Some (e, lt) ∧
    raft_log (node p) !! new_log_index f = Some e ∧
    new_log_index f ≤ commit_index (node p) ∧
    applied sm (node p) ∧ output_at sm (raft_log (node p)) (new_log_index f) result.
Proof.
  intros Hinv Hro Hp Hrun. destruct (Hro _ _ Hp) as [sm [R1 _ _ _ R5]].
  destruct (li_process _ _ Hinv _ _ Hp) as [[[_ K2 K3 _ _ _] _] _].
  simpl in Hrun. unfold Execute_ready in Hrun. destruct (frames (node p) !! id) as [f|] eqn:Hf; [|done].
  destruct (replication_finished f) eqn:Hd; [|done]. injection Hrun as Hrun.
  apply bind_Done in Hrun as ([r n1] & Hfin & [= -> _]). unfold Execute_finish in Hfin. rewrite Hf in Hfin.
  apply bind_Done in Hfin as (t & Ht & Hfin). apply GetCurrentTerm_Done in Ht as [_ <-].
  case_decide as Hterm; [done|]. outcome_inv.
  destruct (R5 _ _ Hf) as (_ & e & lt & He & Hs). destruct Hs as [S1 S2]; [done|by rewrite Hterm|].
  destruct (S2 Hd) as [Hc Ho]. exists f, e, lt, sm. split_and!; try done.
  rewrite <-S1. unfold full_log, extended. by rewrite decide_True by lia.
Qed.
End cluster.

(** [C7] A client that is answered [Commited] got the answer to its own
    request: a leader that accepts a request stores it as an entry of its term
    and suspends the call in a frame that names the position of this entry; no
    other step of the process changes what the frame names; and when the call
    returns [Commited], the entry created for the frame is in the log of the
    leader at a committed position, and the result is the output of the state
    machine for exactly this entry, applied after the entries before it. *)
Theorem Execute_reply_correct {AM : AnyMessage} {SM : IStateMachine}
    (Equals : LogEntry → LogEntry → bool) (configs : list RaftConfig) (k : nat) (c : Cluster)
    (Equals_sound : ∀ a b, Equals a b = true → a = b)
    (Hreach : reachable_in Equals configs k c) (Hsmall : small (Z.of_nat k))
    (i : nat) (p : Process) (Hp : processes c !! i = Some p) :
  (∀ request out p', state (node p) = Leader →
     process_step Equals (HandleExecute request) p = Some (Done (out, p')) →
     frames (node p) !! next_name (node p) = None ∧
     ∃ f lt, frames (node p') !! next_name (node p) = Some f ∧
       created (history (update i (HandleExecute request) p p' [] c)) !! (frame_term f, new_log_index f) =
         Some (MkLogEntry (frame_term f) request, lt)) ∧
  (∀ ev out p' id f, ev ≠ ExecuteResumes id → frames (node p) !! id = Some f →
     process_step Equals ev p = Some (Done (out, p')) →
     ∃ f', frames (node p') !! id = Some f' ∧
       new_log_index f' = new_log_index f ∧ frame_term f' = frame_term f) ∧
  (∀ id result p',
     process_step Equals (ExecuteResumes id) p = Some (Done (ReplyExecute (MkResponse Commited result), p')) →
     ∃ f e lt sm, frames (node p) !! id = Some f ∧
       created (history c) !! (frame_term f, new_log_index f) = Some (e, lt) ∧
       raft_log (node p) !! new_log_index f = Some e ∧
       new_log_index f ≤ commit_index (node p) ∧
       applied sm (node p) ∧ output_at sm (raft_log (node p)) (new_log_index f) result).
Proof.
  destruct (log_reachable Equals Equals_sound configs k c Hreach Hsmall) as [Hinv _].
  pose proof (replies_reachable Equals Equals_sound configs k c Hreach Hsmall) as Hro.
  destruct (li_process _ _ Hinv _ _ Hp) as [Hok _]. destruct (Hro _ _ Hp) as [sm Hr].
  split_and!.
  - intros request out p' Hs Hrun. split.
    { destruct (frames (node p) !! next_name (node p)) eqn:Hf; [|done].
      pose proof (ro_names _ _ _ _ Hr (next_name (node p)) ltac:(eauto)). lia. }
    rewrite (created_execute (Z.of_nat k) c i _ p p' [] Hinv Hp request eq_refl Hs).
    simpl in Hrun. injection Hrun as Hrun. apply bind_Done in Hrun as ([r n1] & Hb & [= _ <-]).
    destruct (Execute_begin_frame (Z.of_nat k) request (node p) r n1) as (f & Hf & Ht & Hi); [apply Hok|done|done|].
    exists f, (last_term (node p)). rewrite Ht, Hi, lookup_insert_eq. by split.
  - intros ev out p' id f Hev Hf Hrun.
    eapply frames_effect_calls; [apply (ro_names _ _ _ _ Hr)|by eapply process_step_frames|done|done].
  - intros id result p'. by eapply Commited_reply.
Qed.
