(* ===== verification/RaftHandlers.v ===== *)
(** * Functional behaviour of the RPC handlers and of the commit rule

    What [RequestVote], [AppendEntries] and [UpdateCommitIndex] compute, on
    every branch, and that they return without aborting the process. *)

From S2P Require Import Prelude.
From S2P Require Import Result.
From S2P Require Import RtTypes.
From S2P Require Import KVInterface.
From S2P Require Import Logs.
From S2P Require Import StateMachine.
From S2P Require Import RaftNode.
From S2P Require Import RaftProcess.
From S2P Require Import RaftNodeProps.
From S2P Require Import RaftInvariant.
From S2P Require Import RaftProcessOk.
From S2P Require Import RaftTrace.

Local Open Scope Z_scope.

Section handlers.
Context {AM : AnyMessage} {SM : IStateMachine}.
Implicit Types n : RaftNode.

(** ** RequestVote *)

(** The log of the candidate is at least as recent as the log of [n]. *)
Definition up_to_date (req : RequestVoteRequest) n : Prop :=
  GetLastSavedLogTerm n < rv_last_log_term req ∨
  GetLastSavedLogTerm n = rv_last_log_term req ∧ GetSavedLogSize n ≤ rv_last_log_index req.

(** When the vote goes to the candidate. *)
Definition grants (req : RequestVoteRequest) n : Prop :=
  term n < rv_term req ∧ up_to_date req n ∨
  term n = rv_term req ∧
    (vote n = Some (rv_candidate_id req) ∨ vote n = None ∧ up_to_date req n).

Lemma step_down_total n :
  ∃ n', (if decide (state n ≠ Follower) then BecomeFollower n else Done n) = Done n'.
Proof. case_decide; [by apply BecomeFollower_total|eauto]. Qed.

(** [RequestVote] after the term has been adopted. *)
Lemma RequestVote_decides (req : RequestVoteRequest) (t : Z) n :
  ∃ b n',
    (let reply b := MkRequestVoteResult t b in
     let voted_for := GetVotedFor n in
     if decide (voted_for = Some (rv_candidate_id req)) then Done (reply true, n) else
     if decide (voted_for ≠ None) then Done (reply false, n) else
     let last_log_term := GetLastSavedLogTerm n in
     let granted :=
       if decide (rv_last_log_term req < last_log_term) then false
       else if decide (last_log_term = rv_last_log_term req)
       then bool_decide (GetSavedLogSize n ≤ rv_last_log_index req)
       else true in
     let n := if granted
              then set_raft_state (kv_Put "voted_for" (rv_candidate_id req) (raft_state n)) n
              else n in
     Done (reply granted, n)) = Done (MkRequestVoteResult t b, n') ∧
    (b = true ↔ vote n = Some (rv_candidate_id req) ∨ vote n = None ∧ up_to_date req n) ∧
    term n' = term n ∧ vote n' = (if b then Some (rv_candidate_id req) else vote n).
Proof.
  cbv zeta. rewrite GetVotedFor_vote. case_decide as Hv.
  { eexists true, n. split_and!; try done. tauto. }
  case_decide as Hnone.
  { eexists false, n. split_and!; try done. split; [done|]. intros [?|[? _]]; congruence. }
  rename Hnone into Hvote. rewrite Hvote. clear Hv.
  set (g := if decide (rv_last_log_term req < _) then false else _).
  assert (Hg : g = true ↔ up_to_date req n).
  { unfold g, up_to_date. case_decide; [split; [done|lia]|].
    case_decide; [rewrite bool_decide_eq_true; lia|]. split; [lia|done]. }
  destruct g.
  - eexists true, _. split_and!; [done|tauto| |].
    + unfold term. simpl. unfold kv_Put. by rewrite lookup_insert_ne.
    + unfold vote. simpl. unfold kv_Put. by rewrite lookup_insert_eq.
  - eexists false, n. split_and!; try done. split; [done|]. intros [?|[_ Hu]]; [congruence|]. by apply Hg.
Qed.

(** ** UpdateCommitIndex *)

(** Every registered request is still suspended in [Execute]. *)
Definition pending_ok n : Prop :=
  ∀ index ptr, pending_requests n !! index = Some ptr → is_Some (frames n !! ptr).

Lemma apply_committed_total i n :
  pending_ok n → is_Some (raft_log n !! i) →
  ∃ n', apply_committed i n = Done n' ∧ pending_ok n' ∧ raft_log n' = raft_log n.
Proof.
  intros Hp [e He]. unfold apply_committed. unfold kv_Get. rewrite He. simpl.
  destruct (ExactlyOnce_Apply _ _) as [res r]. destruct (pending_requests n !! i) as [ptr|] eqn:Hi.
  2: { eexists. split_and!; [done|exact Hp|done]. }
  destruct (Hp _ _ Hi) as [f Hf]. rewrite Hf. eexists. split_and!; [done| |done].
  intros idx ptr' Hptr. simpl. rewrite lookup_insert_is_Some'. right. by eapply Hp.
Qed.

Lemma apply_loop_total ixs n :
  pending_ok n → (∀ i, i ∈ ixs → is_Some (raft_log n !! i)) →
  ∃ n', for_each ixs apply_committed n = Done n'.
Proof.
  revert n. induction ixs as [|i ixs IH]; intros n Hp Hlog; simpl; [eauto|].
  destruct (apply_committed_total i n) as (n1 & -> & Hp1 & Hl1); [done|apply Hlog; left|].
  simpl. apply IH; [done|]. intros j Hj. rewrite Hl1. apply Hlog. by right.
Qed.

Lemma UpdateCommitIndex_total n :
  length (match_index n) = nodes_count n → contiguous (raft_log n) →
  0 ≤ commit_index n → pending_ok n →
  ∃ n', UpdateCommitIndex n = Done n'.
Proof.
  intros Hlen Hc H0 Hp. unfold UpdateCommitIndex.
  destruct (find_commit_spec _ n (GetSavedLogSize n) Hlen eq_refl) as (c & -> & Hcase & _). simpl.
  destruct (apply_loop_total (range (commit_index n + 1) (c + 1)) n) as [n1 ->]; [done| |simpl; eauto].
  intros i Hi%elem_of_range. apply Hc. rewrite GetSavedLogSize_log in Hcase.
  destruct Hcase as [|[? ?]]; lia.
Qed.

(** ** AppendEntries *)

Lemma AppendEntries_follow_total req n :
  has_term n → ∃ n', AppendEntries_follow req n = Done n'.
Proof.
  intros Ht. unfold AppendEntries_follow.
  set (n0 := set_reset_election_timeout _ n).
  assert (Ht0 : GetCurrentTerm n0 = Done (term n)) by by apply GetCurrentTerm_Done.
  rewrite Ht0. simpl.
  assert (Hbf : ∃ n1, (if decide (term n ≤ ae_term req ∧ state n ≠ Follower)
            then BecomeFollower n0 else Done n0) = Done n1 ∧ raft_state n1 = raft_state n).
  { case_decide as Hd; [|eauto]. destruct (BecomeFollower_total n0) as [n1 Hn1]; [apply Hd|].
    exists n1. split; [done|]. by apply BecomeFollower_shape in Hn1 as (_ & _ & _ & ? & _). }
  destruct Hbf as (n1 & -> & Hrs). simpl.
  assert (Ht1 : GetCurrentTerm n1 = Done (term n)).
  { apply GetCurrentTerm_Done. unfold has_term, term in *. by rewrite Hrs. }
  rewrite Ht1. simpl. case_decide; [|eauto].
  apply GetCurrentTerm_Done in Ht1 as [? ?]. apply UpdateTerm_total; [done|lia].
Qed.

Variable MessageDifferencer_Equals : LogEntry → LogEntry → bool.

(** The request agrees with the committed entries it covers. *)
Definition agrees (req : AppendEntriesRequest) n : Prop :=
  ∀ i, ae_prev_log_index req < i ≤ commit_index n →
    i ≤ ae_prev_log_index req + Z.of_nat (length (ae_entries req)) →
    ∃ e e', raft_log n !! i = Some e ∧
      ae_entries req !! Z.to_nat (i - ae_prev_log_index req - 1) = Some e' ∧
      MessageDifferencer_Equals e' e = true.

Lemma check_loop_total B req n ixs :
  small B → 0 ≤ ae_prev_log_index req → commit_index n ≤ B →
  agrees req n →
  (∀ i, i ∈ ixs → ae_prev_log_index req < i ≤ commit_index n ∧
     i ≤ ae_prev_log_index req + Z.of_nat (length (ae_entries req))) →
  for_each ixs (check_committed MessageDifferencer_Equals req) n = Done n.
Proof.
  intros HB H0 Hci Ha. induction ixs as [|i ixs IH]; intros Hix; simpl; [done|].
  destruct (Hix i) as [Hi Hle]; [left|]. destruct (Ha i Hi Hle) as (e & e' & He & He' & Heq).
  assert (Hck : check_committed MessageDifferencer_Equals req i n = Done n).
  { unfold check_committed, kv_Get. rewrite He. simpl.
    rewrite (sub64_small i), sub64_small by word. rewrite (proj2 (vec_get_Done _ _ _) He'). simpl.
    by rewrite Heq. }
  rewrite Hck. simpl. apply IH. intros j Hj. apply Hix. by right.
Qed.

Lemma follower_loop_total ixs n :
  (∀ i, i ∈ ixs → is_Some (raft_log n !! i)) → ∃ n', for_each ixs follower_apply n = Done n'.
Proof.
  revert n. induction ixs as [|i ixs IH]; intros n Hlog; simpl; [eauto|].
  destruct (Hlog i) as [e He]; [left|].
  assert (Hap : ∃ r, follower_apply i n = Done (set_rsm r n)).
  { unfold follower_apply, kv_Get. rewrite He. simpl. eauto. }
  destruct Hap as [r ->]. simpl. apply IH. intros j Hj. apply Hlog. by right.
Qed.

Lemma AppendEntries_store_total B req n :
  small B → node_ok B n → request_bounds B req →
  ae_prev_log_index req ≤ log_size (raft_log n) → agrees req n →
  ∃ n', AppendEntries_store MessageDifferencer_Equals req n = Done n'.
Proof.
  intros HB [K1 K2 K3 K4 K5 _] [Hb1 Hb2] Hsz Ha. unfold AppendEntries_store.
  rewrite (check_loop_total B) by (done || lia || (intros i Hi%elem_of_range; lia)).
  rewrite (bind_Done_eq n). fold (appended_log req n).
  destruct (appended_log_contiguous req n) as [Hc Hs]; [word|done|done|lia|].
  match goal with |- context [for_each ?ixs follower_apply ?m] =>
    destruct (follower_loop_total ixs m) as [n1 ->]; [|simpl; eauto] end.
  intros i Hi%elem_of_range. rewrite GetSavedLogSize_log in Hi.
  change (raft_log (set_raft_log ?l n)) with l in *.
  change (commit_index (set_raft_log ?l n)) with (commit_index n) in *.
  apply Hc. lia.
Qed.
End handlers.

(** [C12] [RequestVote] always returns. The vote is granted exactly when the
    request is not of an older term, no other candidate has the vote of that
    term, and, unless the candidate has the vote already, its log is at least
    as recent; the node then holds the larger of the two terms and records the
    vote, and a node that denies its vote keeps an earlier vote of that term. *)
Theorem RequestVote_correct {AM : AnyMessage} {SM : IStateMachine}
    (req : RequestVoteRequest) (n : RaftNode) (Hterm : has_term n) :
  ∃ granted n',
    RequestVote req n = Done (MkRequestVoteResult (term n) granted, n') ∧
    (granted = true ↔ grants req n) ∧
    term n' = term n `max` rv_term req ∧
    vote n' = if granted then Some (rv_candidate_id req)
              else if decide (term n < rv_term req) then None else vote n.
Proof.
  unfold RequestVote. rewrite (proj2 (GetCurrentTerm_Done n (term n)) (conj Hterm eq_refl)).
  rewrite bind_Done_eq. cbv zeta. unfold grants. case_decide as Hold.
  { exists false, n. split_and!; [done|split; [done|lia]|lia|by rewrite decide_False by lia]. }
  destruct (decide (term n < rv_term req)) as [Hnew|Hsame].
  - destruct (UpdateTerm_total (rv_term req) None n) as [n1 Hn1]; [done..|].
    rewrite Hn1, bind_Done_eq. destruct (step_down_total n1) as [n2 Hn2]. rewrite Hn2, bind_Done_eq.
    apply UpdateTerm_shape in Hn1 as (db & -> & _ & _ & _ & Ht1 & Hv1).
    apply step_down_shape in Hn2 as [_ (_ & Hrs & Hl & _)].
    assert (Ht2 : term n2 = rv_term req) by (unfold term in *; by rewrite Hrs).
    assert (Hv2 : vote n2 = None) by (unfold vote in *; by rewrite Hrs).
    assert (Hu : up_to_date req n2 ↔ up_to_date req n)
      by (unfold up_to_date, GetLastSavedLogTerm, GetSavedLogSize; by rewrite Hl).
    destruct (RequestVote_decides req (term n) n2) as (b & n' & Hd & Hb & Ht & Hv).
    rewrite Hv2, Hu in Hb. rewrite Hv2 in Hv.
    exists b, n'. split_and!; [exact Hd| |lia|done].
    rewrite Hb. split; [intros [?|[_ ?]]; [done|by left]|intros [[_ ?]|[? _]]; [by right|lia]].
  - destruct (RequestVote_decides req (term n) n) as (b & n' & Hd & Hb & Ht & Hv).
    exists b, n'. split_and!; [exact Hd| |lia|done].
    rewrite Hb. split; [intros ?; right; split; [lia|done]|intros [[? _]|[_ ?]]; [lia|done]].
Qed.

Lemma RequestVote_correct_witness :
  let n := RaftNode_new TestMachine.init (Example3.cfg 1) ∅ ∅ in
  ∃ granted n',
    RequestVote (MkRequestVote 3 0 0 0) n = Done (MkRequestVoteResult 0 granted, n') ∧
    granted = true ∧ vote n' = Some 0.
Proof.
  destruct (RequestVote_correct (MkRequestVote 3 0 0 0)
    (RaftNode_new TestMachine.init (Example3.cfg 1) ∅ ∅)) as (g & n' & H1 & H2 & H3 & H4).
  { exists 0. reflexivity. }
  assert (Hg : g = true).
  { apply H2. left. split; [vm_compute; reflexivity|]. right. split; vm_compute; [reflexivity|discriminate]. }
  exists g, n'. split; [exact H1|]. split; [exact Hg|]. rewrite H4, Hg. reflexivity.
Defined.

(** [C13] The commit rule: [UpdateCommitIndex] returns, and sets the commit
    index to the largest index of the current term that a majority of the
    nodes stores, or leaves it unchanged when there is none above it. *)
Theorem UpdateCommitIndex_correct {AM : AnyMessage} {SM : IStateMachine} (n : RaftNode)
    (Hlen : length (match_index n) = nodes_count n) (Hlog : contiguous (raft_log n))
    (Hcommit : 0 ≤ commit_index n) (Hpending : pending_ok n) :
  ∃ n', UpdateCommitIndex n = Done n' ∧
    (commit_index n' = commit_index n ∨
     committable n (commit_index n') ∧ commit_index n' ≤ GetSavedLogSize n) ∧
    (∀ i, committable n i → i ≤ GetSavedLogSize n → i ≤ commit_index n') ∧
    ∀ sm, applied sm n → applied sm n'.
Proof.
  destruct (UpdateCommitIndex_total n) as [n' Hn']; [done..|].
  destruct (find_commit_spec _ n (GetSavedLogSize n) Hlen eq_refl) as (c & Hc & Hcase & Hmax).
  exists n'. split; [done|].
  pose proof (UpdateCommitIndex_shape _ _ Hn') as (c' & r & f & -> & Hf).
  rewrite Hc in Hf. injection Hf as <-. split_and!; [exact Hcase|exact Hmax|].
  intros sm. by apply UpdateCommitIndex_applied.
Qed.

Lemma UpdateCommitIndex_correct_witness :
  let e := MkLogEntry 1 (TestMachine.req 1 1 5) in
  let n := set_match_index [2; 1; 0] (set_current_term_start_index 1 (RaftNode_new TestMachine.init
             (Example3.cfg 0) ∅ (<[1 := e]> (<[2 := e]> ∅)))) in
  ∃ n', UpdateCommitIndex n = Done n' ∧ commit_index n' = 1.
Proof.
  intros e n. destruct (UpdateCommitIndex_correct n) as (n' & Hn' & Hcase & Hmax & _).
  - reflexivity.
  - apply (contiguous_intro _ 2); [lia|]. intros i. unfold n. simpl.
    rewrite !lookup_insert, lookup_empty. destruct (decide (1 = i)); [split; [lia|eauto]|].
    destruct (decide (2 = i)); [split; [lia|eauto]|]. split; [by intros []|lia].
  - unfold n. simpl. lia.
  - intros index ptr. unfold n. simpl. by rewrite lookup_empty.
  - exists n'. split; [exact Hn'|]. clear -Hn'. revert Hn'. vm_compute. intros [= <-]. reflexivity.
Defined.

(** [C11] [AppendEntries] accepts a request of a current leader whose previous
    entry matches and that agrees with the committed entries: it returns
    success, the node follows the leader in its term, the log is the kept
    prefix up to [max prev commit] followed by the entries of the request and
    nothing else, and the commit index never decreases and follows the leader
    as far as the log reaches. *)
Theorem AppendEntries_accepts {AM : AnyMessage} {SM : IStateMachine}
    (Equals : LogEntry → LogEntry → bool) (B : Z) (req : AppendEntriesRequest) (n : RaftNode)
    (HB : small B) (Hok : node_ok B n) (Hreq : request_bounds B req)
    (Hterm : term n ≤ ae_term req)
    (Hprev : if decide (ae_prev_log_index req = 0) then ae_prev_log_term req = 0
             else ∃ e, raft_log n !! ae_prev_log_index req = Some e ∧
                    entry_term e = ae_prev_log_term req)
    (Hagree : agrees Equals req n) :
  let last := ae_prev_log_index req + Z.of_nat (length (ae_entries req)) in
  let kept := ae_prev_log_index req `max` commit_index n in
  ∃ n', AppendEntries Equals req n = Done (MkAppendEntriesResult (term n) true, n') ∧
    state n' = Follower ∧ term n' = ae_term req ∧
    (∀ i, raft_log n' !! i =
       if decide (i ≤ kept) then raft_log n !! i
       else ae_entries req !! Z.to_nat (i - ae_prev_log_index req - 1)) ∧
    commit_index n' = commit_index n `max` (ae_leader_commit req `min` (last `max` kept)) ∧
    ∀ sm, applied sm n → applied sm n'.
Proof.
  intros last kept. pose proof Hok as [K1 K2 K3 K4 K5 _]. pose proof Hreq as [Hb1 Hb2].
  assert (Hsz : ae_prev_log_index req ≤ log_size (raft_log n)).
  { case_decide as H0; [lia|]. destruct Hprev as (e & He & _). apply K2. eauto. }
  destruct (AppendEntries_follow_total req n K1) as [n1 Hn1].
  pose proof (AppendEntries_follow_keeps _ _ _ Hn1) as Hk.
  pose proof (AppendEntries_follow_shape _ _ _ Hn1 Hterm) as (_ & _ & Hs1 & Ht1 & _).
  pose proof (keeps_ok _ _ _ Hk Hok) as Hok1.
  assert (Hl1 := ke_log _ _ Hk). assert (Hc1 := ke_commit _ _ Hk).
  assert (Hm : AppendEntries_matches req n1 = Done true).
  { unfold AppendEntries_matches. rewrite GetSavedLogSize_log, Hl1.
    destruct (decide (ae_prev_log_index req = 0)) as [H0|H0].
    - rewrite bool_decide_eq_true_2 by (by right). simpl.
      rewrite decide_False by lia. by rewrite decide_False by (intros Hne; by apply Hne).
    - rewrite bool_decide_eq_true_2 by (by left). simpl.
      rewrite decide_False by lia. rewrite decide_True by done.
      destruct Hprev as (e & He & Het). unfold kv_Get. rewrite He. simpl.
      by rewrite bool_decide_eq_true_2. }
  destruct (AppendEntries_store_total Equals B req n1) as [n2 Hn2]; [done..| | |].
  { by rewrite Hl1. }
  { intros i Hi Hle. rewrite Hl1. rewrite Hc1 in Hi. by apply Hagree. }
  destruct (AppendEntries_store_ok Equals B req n1 n2) as [_ Hgr]; [done..| |by rewrite Hs1|done|].
  { by rewrite Hl1. }
  assert (Hshape : state n2 = state n1 ∧ raft_state n2 = raft_state n1 ∧
    raft_log n2 = appended_log req n1 ∧ commit_index n2 = new_commit req n1).
  { by apply AppendEntries_store_shape in Hn2 as (r & ->). }
  destruct Hshape as (Hs2 & Hrs2 & Hl2 & Hc2).
  exists n2. split_and!.
  - unfold AppendEntries. rewrite (proj2 (GetCurrentTerm_Done n (term n)) (conj K1 eq_refl)).
    rewrite bind_Done_eq. rewrite decide_False by lia.
    rewrite Hn1, bind_Done_eq, Hm, bind_Done_eq. simpl negb. cbv iota. by rewrite Hn2.
  - congruence.
  - unfold term in *. by rewrite Hrs2.
  - intros i. destruct Hok1 as [_ J2 J3 J4 _ _]. rewrite Hl2.
    rewrite appended_log_lookup by (word || done || (rewrite Hl1; lia)). by rewrite Hc1, Hl1.
  - destruct Hok1 as [_ J2 J3 J4 _ _]. rewrite Hc2. unfold new_commit. rewrite GetSavedLogSize_log.
    change (raft_log (set_raft_log ?l n1)) with l.
    destruct (appended_log_contiguous req n1) as [_ ->]; [word|done|done|rewrite Hl1; lia|].
    by rewrite Hc1.
  - intros sm Hap. apply (gr_applied _ _ Hgr). by apply (gr_applied _ _ (keeps_grows _ _ Hk)).
Qed.

Lemma AppendEntries_accepts_witness :
  let e := MkLogEntry 1 (TestMachine.req 1 1 5) in
  let n := RaftNode_new TestMachine.init (Example3.cfg 1) ∅ ∅ in
  ∃ n', AppendEntries Example3.Equals (MkAppendEntries 1 0 0 0 [e] 1) n =
          Done (MkAppendEntriesResult 0 true, n') ∧
    raft_log n' !! 1 = Some e ∧ commit_index n' = 1.
Proof.
  intros e n.
  destruct (AppendEntries_accepts Example3.Equals 1 (MkAppendEntries 1 0 0 0 [e] 1) n)
    as (n' & H1 & _ & _ & H4 & H5 & _).
  - vm_compute. reflexivity.
  - destruct (contiguous_empty (V := @LogEntry TestMachine.test_any)) as [Hc Hz].
    split; simpl; try done; [exists 0; reflexivity|unfold self, nodes_count; simpl; lia].
  - split; simpl; lia.
  - vm_compute. discriminate.
  - reflexivity.
  - intros i Hi. simpl in Hi. lia.
  - exists n'. split_and!; [exact H1| |rewrite H5; reflexivity]. rewrite H4. reflexivity.
Defined.
