(* ===== verification/RaftEffects.v ===== *)
(** * What a step of a process does to the data of the protocol

    One case per way in which a step changes term, vote, log, commit index and
    the counters of a leader. The proofs of RaftCompleteness.v and
    RaftCommit.v go by these cases instead of the code. *)

From S2P Require Import Prelude.
From S2P Require Import Result.
From S2P Require Import RtTypes.
From S2P Require Import KVInterface.
From S2P Require Import Logs.
From S2P Require Import StateMachine.
From S2P Require Import RaftNode.
From S2P Require Import RaftProcess.
From S2P Require Import RaftNodeProps.
From S2P Require Import RaftCluster.
From S2P Require Import RaftElection.
From S2P Require Import RaftInvariant.
From S2P Require Import RaftProcessOk.
From S2P Require Import RaftLogMatching.

Local Open Scope Z_scope.

Section effects.
Context {AM : AnyMessage} {SM : IStateMachine}.
Variable MessageDifferencer_Equals : LogEntry → LogEntry → bool.
Implicit Types (n : RaftNode) (p : Process).

(** The comparison a voter makes. *)
Definition up_to_date n (req : RequestVoteRequest) : Prop :=
  GetLastSavedLogTerm n < rv_last_log_term req ∨
  GetLastSavedLogTerm n = rv_last_log_term req ∧ GetSavedLogSize n ≤ rv_last_log_index req.

Definition leader_same n n' : Prop :=
  state n' = Leader →
  state n = Leader ∧ current_term_start_index n' = current_term_start_index n ∧
  match_index n' = match_index n.

Record same_core n n' : Prop := {
  sc_state : raft_state n' = raft_state n;
  sc_log : raft_log n' = raft_log n;
  sc_commit : commit_index n' = commit_index n;
  sc_leader : leader_same n n';
}.

(** A newer term was seen. *)
Record steps_down n n' : Prop := {
  sd_term : term n < term n';
  sd_vote : vote n' = None;
  sd_log : raft_log n' = raft_log n;
  sd_commit : commit_index n' = commit_index n;
  sd_role : state n' = Follower;
}.

(** The counter of node [v] becomes [m], and the commit index follows. *)
Record counts n n' (v : nat) (m : Z) : Prop := {
  co_leader : state n = Leader;
  co_leader' : state n' = Leader;
  co_state : raft_state n' = raft_state n;
  co_start : current_term_start_index n' = current_term_start_index n;
  co_match : match_index n' = <[v := m]> (match_index n);
  co_commit : commit_index n' = commit_index n ∨
    commit_index n < commit_index n' ∧ current_term_start_index n ≤ commit_index n' ≤ log_size (raft_log n') ∧
    (MajorityCount n ≤ length (filter (λ m, (commit_index n' ≤ m)%Z) (match_index n')))%nat;
}.

Inductive core_effect (ev : event) (p : Process) n' : Prop :=
  | core_idle : same_core (node p) n' → core_effect ev p n'
  | core_steps_down : steps_down (node p) n' → core_effect ev p n'
  | core_stands :
      term (node p) < term n' → vote n' = Some (Z.of_nat (self (node p))) →
      raft_log n' = raft_log (node p) → commit_index n' = commit_index (node p) → state n' = Candidate →
      core_effect ev p n'
  | core_votes req :
      ev = HandleRequestVote req → term (node p) ≤ term n' → term n' = rv_term req →
      vote n' = Some (rv_candidate_id req) → up_to_date (node p) req →
      raft_log n' = raft_log (node p) → commit_index n' = commit_index (node p) →
      leader_same (node p) n' → core_effect ev p n'
  | core_leads : BecomeLeader (node p) = Done n' → core_effect ev p n'
  | core_saves :
      counts (node p) n' (self (node p)) (log_size (raft_log n')) → raft_log (node p) ⊆ raft_log n' →
      core_effect ev p n'
  | core_acknowledged v res main ss req :
      ev = AppendReturns v (Ok res) → aer_success res = true →
      main_fiber p = InLeader main ss → ss !! v = Some (SessionCalling req) →
      counts (node p) n' v (ae_prev_log_index req + Z.of_nat (length (ae_entries req))) →
      raft_log n' = raft_log (node p) → core_effect ev p n'
  | core_stores req n1 :
      ev = HandleAppendEntries req → term (node p) ≤ ae_term req →
      AppendEntries_follow req (node p) = Done n1 →
      AppendEntries_matches req n1 = Done true →
      AppendEntries_store MessageDifferencer_Equals req n1 = Done n' →
      core_effect ev p n'.

(** An accepted [AppendEntries]. *)
Lemma stores_data req n n1 n' :
  term n ≤ ae_term req → AppendEntries_follow req n = Done n1 →
  AppendEntries_store MessageDifferencer_Equals req n1 = Done n' →
  keeps n n1 ∧ state n1 = Follower ∧ state n' = Follower ∧ term n' = ae_term req ∧
  (∀ d, vote n' = Some d → vote n = Some d ∧ term n = term n') ∧
  raft_log n' = appended_log req n1 ∧ commit_index n' = new_commit req n1.
Proof.
  intros Hle Hf Hst. pose proof (AppendEntries_follow_keeps _ _ _ Hf) as Hk.
  apply AppendEntries_follow_shape in Hf as (_ & _ & Hs & Hterm & Hvote & _); [|done].
  apply AppendEntries_store_shape in Hst as (r & ->). split_and!; try done.
  intros d Hd. assert (Hd1 : vote n1 = Some d) by done. rewrite Hvote in Hd1. case_decide; [done|].
  split; [done|]. assert (term n1 = ae_term req) by done. change (term n = term n1). lia.
Qed.

Lemma same_core_refl n : same_core n n.
Proof. by split. Qed.

Lemma same_core_trans n1 n2 n3 : same_core n1 n2 → same_core n2 n3 → same_core n1 n3.
Proof.
  intros [H1 H2 H3 H4] [K1 K2 K3 K4]. split; [congruence..|]. intros Hs.
  destruct (K4 Hs) as (Hs2 & ? & ?). destruct (H4 Hs2) as (? & ? & ?). split_and!; congruence.
Qed.

Lemma same_data_core n n' : same_data n n' → state n' ≠ Leader → same_core n n'.
Proof. intros (_ & H1 & H2 & H3 & _) Hs. by split. Qed.

(** [UpdateTerm] to a later term, then [BecomeFollower]. *)
Lemma newer_term_steps_down t n n1 n' :
  UpdateTerm t None n = Done n1 →
  (if decide (state n1 ≠ Follower) then BecomeFollower n1 else Done n1) = Done n' → steps_down n n'.
Proof.
  intros (db & -> & _ & Hlt & _ & Ht & Hv)%UpdateTerm_shape (Hs & _ & Hr & Hl & Hc & _)%step_down_shape.
  split; simpl in *; try done; unfold term, vote in *; rewrite Hr; [simpl in *; lia|done].
Qed.

Lemma UpdateCommitIndex_counts n n' :
  length (match_index n) = nodes_count n → UpdateCommitIndex n = Done n' →
  commit_index n' = commit_index n ∨
  commit_index n < commit_index n' ∧ current_term_start_index n ≤ commit_index n' ≤ log_size (raft_log n) ∧
  (MajorityCount n ≤ length (filter (λ m, (commit_index n' ≤ m)%Z) (match_index n)))%nat.
Proof.
  intros Hlen (c & r & f & -> & Hf)%UpdateCommitIndex_shape. simpl.
  destruct (find_commit_spec _ n (GetSavedLogSize n) Hlen eq_refl) as (c' & Hc & Hcase & _).
  rewrite Hc in Hf. injection Hf as ->. destruct Hcase as [->|[(H1 & H2 & H3) H4]]; [by left|right].
  rewrite GetSavedLogSize_log in H4. by split_and!.
Qed.

Lemma add_heartbeat_guard_core id n :
  same_core n (add_heartbeat_guard id n) ∧ state (add_heartbeat_guard id n) = state n ∧
  current_term_start_index (add_heartbeat_guard id n) = current_term_start_index n ∧
  match_index (add_heartbeat_guard id n) = match_index n.
Proof. unfold add_heartbeat_guard. destruct (stopped _); by split_and!. Qed.

(** A count, the search for the commit index and the guard that follows. *)
Lemma counts_intro n n1 n2 n' v m :
  state n = Leader → state n1 = Leader → length (match_index n1) = nodes_count n1 → config n1 = config n →
  raft_state n1 = raft_state n → commit_index n1 = commit_index n →
  current_term_start_index n1 = current_term_start_index n → match_index n1 = <[v := m]> (match_index n) →
  UpdateCommitIndex n1 = Done n2 → n' = n2 ∨ (∃ id, n' = add_heartbeat_guard id n2) →
  counts n n' v m ∧ raft_log n' = raft_log n1.
Proof.
  intros Hs Hs1 Hlen Hcfg Hrs Hci Hst Hm Hu Hn'.
  pose proof (UpdateCommitIndex_counts _ _ Hlen Hu) as Hc.
  pose proof (UpdateCommitIndex_shape _ _ Hu) as (c & r & f & Hn2 & _).
  assert (Hd : state n' = state n2 ∧ raft_state n' = raft_state n2 ∧ raft_log n' = raft_log n2 ∧
    commit_index n' = commit_index n2 ∧ current_term_start_index n' = current_term_start_index n2 ∧
    match_index n' = match_index n2).
  { destruct Hn' as [->|[id ->]]; [by split_and!|].
    destruct (add_heartbeat_guard_core id n2) as ([? ? ? _] & ? & ? & ?). by split_and!. }
  destruct Hd as (D1 & D2 & D3 & D4 & D5 & D6).
  assert (Hf : state n2 = state n1 ∧ raft_state n2 = raft_state n1 ∧ raft_log n2 = raft_log n1 ∧
    current_term_start_index n2 = current_term_start_index n1 ∧ match_index n2 = match_index n1)
    by (rewrite Hn2; by split_and!).
  destruct Hf as (F1 & F2 & F3 & F4 & F5).
  split; [|congruence]. split; try congruence.
  rewrite D4, D3, F3, D6, F5, <-Hci, <-Hst. unfold MajorityCount, nodes_count in *. rewrite <-Hcfg. exact Hc.
Qed.

Lemma main_session_core B p main ss main' n' :
  small B → process_ok B p → main_fiber p = InLeader main ss →
  main_session_run main (node p) = Some (Done (main', n')) → core_effect MainSessionRuns p n'.
Proof.
  intros HB [Hok Hfib] Hf Hrun. rewrite Hf in Hfib. destruct Hfib as [_ Hfib]. set (n := node p) in *.
  assert (Hloop : ∀ n0 k, node_ok B n0 → n0 = set_heartbeat_guards k n ∨
      (∃ x, n0 = set_match_index (<[self n := x]> (match_index n)) n) →
    (state n = Leader → match_index n0 !! self n0 = Some (log_size (raft_log n0))) →
    main_session_loop n0 = Done (main', n') → core_effect MainSessionRuns p n').
  { intros n0 k Hok0 Hn0 Hm0 Hl.
    assert (Hd : config n0 = config n ∧ state n0 = state n ∧ raft_state n0 = raft_state n ∧ raft_log n0 = raft_log n ∧
      commit_index n0 = commit_index n ∧ current_term_start_index n0 = current_term_start_index n ∧
      full_size n0 = full_size n ∧ self n0 = self n ∧
      ∀ x, <[self n := x]> (match_index n0) = <[self n := x]> (match_index n)).
    { destruct Hn0 as [->|[x ->]]; split_and!; try done. intros y. simpl. by rewrite list_insert_insert_eq. }
    destruct Hd as (D0 & D1 & D2 & D3 & D4 & D5 & D6 & D7 & D8).
    unfold main_session_loop in Hl. destruct (decide (state n0 = Leader)) as [Hlead|Hlead].
    2: { injection Hl as _ <-. apply core_idle. split; try done. }
    apply bind_Done in Hl as (n2 & Hit & [= _ <-]).
    destruct (LeaderMainSession_iteration_shape B n0 n2) as (n1 & n3 & Hsv & Hu & ->);
      [done..|apply Hm0; congruence|done|].
    destruct (saves_ok B n0 n1 Hok0 Hlead Hsv) as (Hok1 & _).
    destruct (counts_intro n n1 n3 (add_heartbeat_guard (self n0) n3) (self n) (full_size n))
      as [Hc Hlog]; try (rewrite ?(sv_state _ _ Hsv), ?(sv_config _ _ Hsv), ?(sv_term _ _ Hsv), ?(sv_commit _ _ Hsv),
        ?(sv_start _ _ Hsv), ?(sv_counts _ _ Hsv); congruence || done).
    - apply (lo_match _ _ (ok_leader _ _ Hok1 (sv_state _ _ Hsv))).
    - right. eauto.
    - apply core_saves.
      + rewrite Hlog, (sv_size _ _ Hsv), D6. exact Hc.
      + fold n. rewrite Hlog. apply map_subseteq_spec. intros i e Hi. rewrite (sv_log _ _ Hsv).
        unfold full_log, extended. rewrite D3.
        assert (1 ≤ i ≤ log_size (raft_log n)) by (apply (ok_contiguous _ _ Hok); eauto). by rewrite decide_True by lia. }
  destruct main; simpl in Hrun; [| |done]; injection Hrun as Hrun.
  - apply bind_Done in Hrun as (n0 & Hst & Hl).
    destruct (LeaderMainSession_start_ok B n n0) as (Hok0 & _ & m & Hn0 & Hm & _); [done..|].
    unfold LeaderMainSession_start in Hst. apply bind_Done in Hst as (m' & [_ Hm']%vec_set_Done & [= Hn0']).
    eapply (Hloop n0 ∅); [done| | |done].
    + right. exists (GetSavedLogSize n). rewrite <-Hn0', Hm'. done.
    + intros _. by rewrite Hn0.
  - eapply (Hloop (Session_resume (node_id (config n)) n)); [|by left| |done].
    + eapply keeps_ok; [apply Session_resume_keeps|done].
    + intros Hs. by destruct (Hfib Hs).
Qed.

Lemma response_core B p id main ss req result nx n' :
  small B → process_ok B p → main_fiber p = InLeader main ss → ss !! id = Some (SessionCalling req) →
  LeaderNodeSession_response id req result (node p) = Done (nx, n') →
  core_effect (AppendReturns id result) p n'.
Proof.
  intros HB [Hok Hfib] Hf Hss H. rewrite Hf in Hfib. destruct Hfib as [_ Hcall].
  set (n := node p) in *. unfold LeaderNodeSession_response in H.
  destruct (decide (state n ≠ Leader)) as [|Hl]; [injection H as _ <-; apply core_idle, same_core_refl|].
  apply dec_stable in Hl. destruct (ok_leader _ _ Hok Hl) as [L1 L2 L3 L4 L5].
  destruct (Hcall Hl) as [_ Hreq]. destruct (Hreq _ _ Hss) as (Hnext & Hprev & Hlen).
  destruct result as [response|]; [|injection H as _ <-; apply core_idle, same_core_refl].
  apply bind_Done in H as (t & _ & H). destruct (decide (t < aer_term response)).
  { apply bind_Done in H as (n1 & Hu & H). apply bind_Done in H as (n2 & Hd & [= _ <-]).
    by eapply core_steps_down, newer_term_steps_down. }
  apply bind_Done in H as (nx' & Hnx%vec_get_Done & H).
  destruct (aer_success response) eqn:Hsucc; simpl in H.
  2: { apply bind_Done in H as (? & _ & H). apply bind_Done in H as (next' & _ & [= _ <-]). apply core_idle. by split. }
  apply bind_Done in H as (m & [_ ->]%vec_set_Done & H). apply bind_Done in H as (next' & [_ ->]%vec_set_Done & H).
  apply bind_Done in H as (n2 & Hu & H). apply bind_Done in H as (mine & _ & H). apply bind_Done in H as (his & _ & H).
  rewrite (add64_small (ae_prev_log_index req)) in Hu by word.
  match type of Hu with UpdateCommitIndex ?x = _ => set (n1 := x) in * end.
  destruct (counts_intro n n1 n2 n' id (ae_prev_log_index req + Z.of_nat (length (ae_entries req)))) as [Hc Hlog]; try done.
  - simpl. by rewrite length_insert.
  - destruct (decide (his = mine)); injection H as _ <-; eauto.
  - by eapply core_acknowledged.
Qed.

Lemma AppendEntries_core p req res n' :
  AppendEntries MessageDifferencer_Equals req (node p) = Done (res, n') →
  core_effect (HandleAppendEntries req) p n'.
Proof.
  intros [Ht Ho]%AppendEntries_inv. destruct Ho as [|n1 Hle Hf _|n1 n2 Hle Hf Hm Hst].
  - apply core_idle, same_core_refl.
  - pose proof (AppendEntries_follow_keeps _ _ _ Hf) as [_ Hl Hc _ _ _].
    pose proof (AppendEntries_follow_shape _ _ _ Hf Hle) as (_ & _ & Hs & Hterm & Hvote & _).
    case_decide; [apply core_steps_down; split; (done || lia)|]. apply core_idle. split; try done; [|intros Hs'; congruence].
    unfold AppendEntries_follow in Hf. apply bind_Done in Hf as (t & Ht1 & Hf). apply bind_Done in Hf as (n0 & Hd & Hf).
    apply bind_Done in Hf as (t' & Ht2%GetCurrentTerm_Done & Hf).
    assert (Hn0 : raft_state n0 = raft_state (node p)).
    { destruct (decide (t ≤ ae_term req ∧ _)); [|by injection Hd as <-].
      apply BecomeFollower_shape in Hd as (_ & _ & _ & -> & _). done. }
    destruct Ht2 as [_ <-]. rewrite decide_False in Hf; [by injection Hf as <-|].
    unfold term in *. rewrite Hn0. lia.
  - by eapply core_stores.
Qed.

Lemma RequestVote_core p req res n' :
  RequestVote req (node p) = Done (res, n') → core_effect (HandleRequestVote req) p n'.
Proof.
  set (n := node p). unfold RequestVote. intros H. apply bind_Done in H as (t & [_ <-]%GetCurrentTerm_Done & H).
  case_decide as Hge; [injection H as _ <-; apply core_idle, same_core_refl|].
  apply bind_Done in H as (n1 & H1 & H).
  assert (Hn1 : (n1 = n ∧ term n = rv_term req ∨ steps_down n n1) ∧ term n1 = rv_term req).
  { destruct (decide (term n < rv_term req)); [|injection H1 as <-; split; [left; split; [done|]|]; lia].
    apply bind_Done in H1 as (n0 & Hu & Hd). split; [right; by eapply newer_term_steps_down|].
    apply UpdateTerm_shape in Hu as (db & -> & _ & _ & _ & Ht & _). apply step_down_shape in Hd as (_ & _ & Hr & _).
    unfold term in *. by rewrite Hr. }
  destruct Hn1 as [Hn1 Hterm1].
  assert (Hidle : core_effect (HandleRequestVote req) p n1).
  { destruct Hn1 as [[-> _]|?]; [apply core_idle, same_core_refl|by apply core_steps_down]. }
  case_decide; [by injection H as _ <-|]. case_decide as Hv; [by injection H as _ <-|].
  injection H as _ <-.
  match goal with |- context [if ?g then set_raft_state _ _ else _] => destruct g eqn:Hg end; [|done].
  assert (Hlog : raft_log n1 = raft_log n ∧ commit_index n1 = commit_index n ∧ leader_same n n1 ∧ term n ≤ term n1).
  { destruct Hn1 as [[-> _]|[D1 D2 D3 D4 D5]]; [by split_and!|]. split_and!; try done; [|lia].
    intros Hs. congruence. }
  destruct Hlog as (Hlog & Hci & Hlead & Hle).
  set (n2 := set_raft_state _ n1).
  assert (Hterm2 : term n2 = term n1) by (unfold term; simpl; unfold kv_Put; by rewrite lookup_insert_ne).
  apply (core_votes _ _ _ req); try done; [by rewrite Hterm2|congruence|..].
  - unfold vote. simpl. unfold kv_Put. by rewrite lookup_insert_eq.
  - unfold up_to_date, GetLastSavedLogTerm, GetSavedLogSize in *. rewrite Hlog in Hg. fold n.
    case_decide; [done|]. case_decide; [apply bool_decide_eq_true in Hg; by right|left; lia].
Qed.

Lemma Execute_core p req res n' :
  Execute_begin req (node p) = Done (res, n') → core_effect (HandleExecute req) p n'.
Proof.
  intros H. apply core_idle. unfold Execute_begin in H. case_decide as Hs; outcome_inv; by split.
Qed.

Lemma Execute_finish_core p id res n' :
  Execute_finish id (node p) = Done (res, n') → core_effect (ExecuteResumes id) p n'.
Proof.
  intros H. apply core_idle. unfold Execute_finish in H. destruct (frames (node p) !! id); [|done]. outcome_inv.
  case_decide; outcome_inv; by split.
Qed.

Lemma vote_returns_core p id result votes votes' n' :
  StartCandidate_vote result votes (node p) = Done (votes', n') → core_effect (VoteReturns id result) p n'.
Proof.
  unfold StartCandidate_vote. intros H. destruct result as [r|]; [|injection H as _ <-; apply core_idle, same_core_refl].
  apply bind_Done in H as (t & _ & H). destruct (decide (t < rvr_term r)).
  { apply bind_Done in H as (n1 & Hu & H). apply bind_Done in H as (n2 & Hd & [= _ <-]).
    by eapply core_steps_down, newer_term_steps_down. }
  destruct (negb (rvr_vote_granted r)); [injection H as _ <-; apply core_idle, same_core_refl|].
  case_decide; [|injection H as _ <-; apply core_idle, same_core_refl].
  apply bind_Done in H as (n1 & Hb & [= _ <-]). by apply core_leads.
Qed.

Lemma run_loop_core p out p' : run_loop (node p) = Done (out, p') → core_effect RunLoop p (node p').
Proof.
  unfold run_loop. intros H. destruct (state (node p)) eqn:Hs.
  - injection H as _ <-. apply core_idle, same_core_refl.
  - injection H as _ <-. apply core_idle. simpl. by split.
  - apply bind_Done in H as ([req n1] & Hc & [= _ <-]). simpl.
    assert (Hci : commit_index n1 = commit_index (node p)).
    { unfold StartCandidate_begin in Hc. outcome_inv.
      match goal with H : UpdateTerm _ _ _ = _ |- _ => apply UpdateTerm_shape in H as (db & -> & _) end. done. }
    apply StartCandidate_begin_inv in Hc as (_ & _ & Hlt & Hst & Hl & Hv & _).
    apply core_stands; try done. congruence.
Qed.

(** Every step of a process. *)
Lemma process_step_core B ev p out p' :
  small B → process_ok B p →
  process_step MessageDifferencer_Equals ev p = Some (Done (out, p')) → core_effect ev p (node p').
Proof.
  intros HB Hok Hrun. destruct ev; simpl in Hrun; try (destruct (main_fiber p); discriminate Hrun).
  - destruct (main_fiber p); try discriminate Hrun. injection Hrun as Hrun. by eapply run_loop_core.
  - destruct (main_fiber p); try discriminate Hrun. injection Hrun as Hrun.
    apply bind_Done in Hrun as (n1 & H1 & [= _ <-]). apply core_idle. simpl.
    unfold StartFollower_end in H1. destruct (stopped _); [injection H1 as <-; apply same_core_refl|].
    apply BecomeCandidate_shape in H1 as (_ & Hs & Hd). apply same_data_core; [done|]. by rewrite Hs.
  - destruct (main_fiber p) as [| |votes rv waiting|] eqn:Hf; try discriminate Hrun. case_decide; [|done]. injection Hrun as Hrun.
    apply bind_Done in Hrun as ([v n1] & H1 & [= _ <-]). by eapply vote_returns_core.
  - destruct (main_fiber p); try discriminate Hrun. case_decide; [|done]. injection Hrun as _ <-.
    apply core_idle, same_core_refl.
  - destruct (main_fiber p) as [| | |main ss] eqn:Hf; try discriminate Hrun. apply bind_Some in Hrun as (m & Hm & [= Hrun]).
    apply bind_Done in Hrun as ([main' n1] & -> & [= _ <-]). by eapply main_session_core.
  - destruct (main_fiber p) as [| | |main ss] eqn:Hf; try discriminate Hrun.
    destruct (ss !! id) as [[| |]|]; try discriminate Hrun.
    injection Hrun as Hrun. apply core_idle.
    case_decide; [apply bind_Done in Hrun as (req & _ & [= _ <-])|injection Hrun as _ <-]; by split.
  - destruct (main_fiber p) as [| | |main ss] eqn:Hf; try discriminate Hrun.
    destruct (ss !! id) as [[|req|]|] eqn:Hss; try discriminate Hrun.
    injection Hrun as Hrun. apply bind_Done in Hrun as ([nx n1] & H1 & [= _ <-]). by eapply response_core.
  - destruct (main_fiber p) as [| | |[] ss] eqn:Hf; try discriminate Hrun. case_decide; [|done]. injection Hrun as _ <-.
    apply core_idle. by split.
  - injection Hrun as Hrun. apply bind_Done in Hrun as ([r n1] & H1 & [= _ <-]). by eapply Execute_core.
  - destruct (Execute_ready id (node p)); [|done]. injection Hrun as Hrun.
    apply bind_Done in Hrun as ([r n1] & H1 & [= _ <-]). by eapply Execute_finish_core.
  - injection Hrun as Hrun. apply bind_Done in Hrun as ([r n1] & H1 & [= _ <-]). by eapply AppendEntries_core.
  - injection Hrun as Hrun. apply bind_Done in Hrun as ([r n1] & H1 & [= _ <-]). by eapply RequestVote_core.
Qed.

(** ** Sessions and candidates *)

(** Node [v] is called with [req]. *)
Definition calls p (v : nat) (req : AppendEntriesRequest) : Prop :=
  ∃ main ss, main_fiber p = InLeader main ss ∧ ss !! v = Some (SessionCalling req).

(** The election with [req] runs. *)
Definition stands p (req : RequestVoteRequest) : Prop :=
  ∃ votes w, main_fiber p = InCandidate votes req w.

(** The request of a new candidate describes its log. *)
Definition describes n (req : RequestVoteRequest) : Prop :=
  rv_last_log_index req = GetSavedLogSize n ∧ rv_last_log_term req = GetLastSavedLogTerm n.

(** How the main fiber moves, and what is sent. *)
Inductive fiber_step p (out : output) p' : Prop :=
  | fs_other :
      (∀ targets req, out ≠ CallRequestVote targets req) →
      (∀ v req, calls p' v req → calls p v req ∨ out = CallAppendEntries v req) →
      (∀ req, stands p' req → stands p req) →
      fiber_step p out p'
  | fs_stands targets req votes w :
      out = CallRequestVote targets req → main_fiber p' = InCandidate votes req w →
      rv_term req = term (node p') → term (node p) < term (node p') → describes (node p') req →
      fiber_step p out p'.

Lemma fs_same p out p' :
  (∀ targets req, out ≠ CallRequestVote targets req) → main_fiber p' = main_fiber p → fiber_step p out p'.
Proof. intros Hout Hf. apply fs_other; [done|..]; unfold calls, stands; rewrite Hf; auto. Qed.

(** The fiber is neither in an election nor waiting for replies. *)
Lemma fs_quiet p p' :
  (∀ v req, ¬ calls p' v req) → (∀ req, ¬ stands p' req) → fiber_step p Silent p'.
Proof. intros Hc Hs. apply fs_other; [done|..]; [intros v req []%Hc|intros req []%Hs]. Qed.

Lemma fs_sessions p out p' main ss main' ss' :
  (∀ targets req, out ≠ CallRequestVote targets req) →
  main_fiber p = InLeader main ss → main_fiber p' = InLeader main' ss' →
  (∀ v req, ss' !! v = Some (SessionCalling req) →
     ss !! v = Some (SessionCalling req) ∨ out = CallAppendEntries v req) →
  fiber_step p out p'.
Proof.
  intros Hout Hf Hf' Hss. apply fs_other; [done|..].
  - intros v req (m & s & Hf2 & Hs). rewrite Hf' in Hf2. injection Hf2 as <- <-.
    apply Hss in Hs as [Hs|]; [left; by exists main, ss|by right].
  - intros req (votes & w & Hf2). congruence.
Qed.

Lemma process_step_fiber ev p out p' :
  process_step MessageDifferencer_Equals ev p = Some (Done (out, p')) → fiber_step p out p'.
Proof.
  intros Hrun. destruct ev; simpl in Hrun; try (destruct (main_fiber p); discriminate Hrun).
  - destruct (main_fiber p) eqn:Hf; try discriminate Hrun. injection Hrun as Hrun. unfold run_loop in Hrun.
    destruct (state (node p)).
    + injection Hrun as <- <-. apply fs_quiet; [|by intros req (? & ? & ?)].
      intros v req (? & ? & [= _ <-] & Hss). apply elem_of_list_to_map_2 in Hss.
      by apply list_elem_of_fmap in Hss as (y & [= _ ?] & _).
    + injection Hrun as <- <-. apply fs_quiet; by intros * (? & ? & ?); destruct_and?.
    + apply bind_Done in Hrun as ([req' n1] & Hc & [= <- <-]).
      assert (Hd : describes n1 req') by (unfold StartCandidate_begin in Hc; outcome_inv; by split).
      apply StartCandidate_begin_inv in Hc as (_ & _ & Hlt & _ & _ & _ & Ht & _). by eapply fs_stands.
  - destruct (main_fiber p) eqn:Hf; try discriminate Hrun. injection Hrun as Hrun.
    apply bind_Done in Hrun as (? & _ & [= <- <-]). apply fs_quiet; by intros * (? & ? & ?); destruct_and?.
  - destruct (main_fiber p) as [| |votes req w|] eqn:Hf; try discriminate Hrun. case_decide; [|done]. injection Hrun as Hrun.
    apply bind_Done in Hrun as ([? ?] & _ & [= <- <-]). apply fs_other; [done|by intros v req' (? & ? & ? & _)|].
    intros req' (? & ? & [= _ <- _]). by exists votes, w.
  - destruct (main_fiber p) eqn:Hf; try discriminate Hrun. case_decide; [|done]. injection Hrun as <- <-.
    apply fs_quiet; by intros * (? & ? & ?); destruct_and?.
  - destruct (main_fiber p) as [| | |main ss] eqn:Hf; try discriminate Hrun.
    apply bind_Some in Hrun as (m & _ & [= Hrun]). apply bind_Done in Hrun as ([? ?] & _ & [= <- <-]).
    eapply fs_sessions; [done|done|done|]. auto.
  - destruct (main_fiber p) as [| | |main ss] eqn:Hf; try discriminate Hrun.
    destruct (ss !! id) as [[| |]|]; try discriminate Hrun. injection Hrun as Hrun.
    case_decide; [apply bind_Done in Hrun as (req' & _ & [= <- <-])|injection Hrun as <- <-];
      (eapply fs_sessions; [done|done|done|]); intros v req [[<- E]|[_ Hss]]%lookup_insert_Some; simplify_eq; auto.
  - destruct (main_fiber p) as [| | |main ss] eqn:Hf; try discriminate Hrun.
    destruct (ss !! id) as [[|req'|]|]; try discriminate Hrun. injection Hrun as Hrun.
    apply bind_Done in Hrun as ([? ?] & _ & [= <- <-]).
    eapply fs_sessions; [done|done|done|]; intros v req [[<- E]|[_ Hss]]%lookup_insert_Some; simplify_eq; auto.
  - destruct (main_fiber p) as [| | |[] ss] eqn:Hf; try discriminate Hrun. case_decide; [|done]. injection Hrun as <- <-.
    apply fs_quiet; by intros * (? & ? & ?); destruct_and?.
  - injection Hrun as Hrun. apply bind_Done in Hrun as ([r ?] & _ & [= <- <-]). apply fs_same; [by destruct r|done].
  - destruct (Execute_ready id (node p)); [|done]. injection Hrun as Hrun.
    apply bind_Done in Hrun as ([? ?] & _ & [= <- <-]). by apply fs_same.
  - injection Hrun as Hrun. apply bind_Done in Hrun as ([? ?] & _ & [= <- <-]). by apply fs_same.
  - injection Hrun as Hrun. apply bind_Done in Hrun as ([? ?] & _ & [= <- <-]). by apply fs_same.
Qed.

Lemma candidate_stays ev p out p' req :
  process_step MessageDifferencer_Equals ev p = Some (Done (out, p')) → stands p req →
  stands p' req → state (node p') = Candidate →
  state (node p) = Candidate ∧ term (node p') = term (node p) ∨ term (node p) < term (node p').
Proof.
  intros Hrun _ (votes & w & Hf) Hs. pose proof (process_step_summary _ _ _ _ _ Hrun) as Hsum.
  destruct (es_candidacy _ _ _ _ Hsum)
    as [Hno|Hsame Hst|req' Hf2 Hgt Hrt Hrc Hv|id result votes0 req0 w0 votes' Hev' Hid Hf0 Hf2 Hvotes Hst]; auto.
  by destruct (Hno votes req w).
Qed.
End effects.
