(* ===== verification/RaftTimely.v ===== *)
(** * Executions over a timely network

    A network is timely if it delivers an [AppendEntries] request only while
    its sender waits for the reply; votes, replies and crashes are as in
    RaftCluster.v. RaftExamples.v shows that a committed entry can be lost
    without this; RaftCompleteness.v and RaftCommit.v show that it cannot be
    lost with it. An execution is the list of its clusters, the latest first. *)

From S2P Require Import Prelude.
From S2P Require Import Result.
From S2P Require Import RtTypes.
From S2P Require Import KVInterface.
From S2P Require Import Logs.
From S2P Require Import StateMachine.
From S2P Require Import Election.
From S2P Require Import RaftNode.
From S2P Require Import RaftProcess.
From S2P Require Import RaftNodeProps.
From S2P Require Import RaftCluster.
From S2P Require Import RaftElection.
From S2P Require Import RaftInvariant.
From S2P Require Import RaftProcessOk.
From S2P Require Import RaftLogMatching.
From S2P Require Import RaftLogSafety.
From S2P Require Import RaftEffects.

Local Open Scope Z_scope.

Section timely.
Context {AM : AnyMessage} {SM : IStateMachine}.
Variable MessageDifferencer_Equals : LogEntry → LogEntry → bool.

(** The node [caller] waits for the reply of [target] to [request]. *)
Definition waits (c : Cluster) (caller target : nat) (request : AppendEntriesRequest) : Prop :=
  ∃ p, processes c !! caller = Some p ∧ calls p target request.

(** What the network does in a step of process [i], and the packets sent. *)
Definition delivers (c : Cluster) (i : nat) (p : Process) (ev : event) (out : output)
    (packets : list packet) : Prop :=
  match ev with
  | HandleRequestVote request => ∃ caller result,
      PVote caller i request ∈ network c ∧ out = ReplyRequestVote result ∧
      packets = [PVoteReply caller i request result]
  | VoteReturns target (Ok result) => ∃ request,
      PVoteReply i target request result ∈ network c ∧ stands p request ∧ packets = []
  | HandleAppendEntries request => ∃ caller result,
      PAppend caller i request ∈ network c ∧ waits c caller i request ∧
      out = ReplyAppendEntries result ∧ packets = [PAppendReply caller i request result]
  | AppendReturns target (Ok result) => ∃ request,
      PAppendReply i target request result ∈ network c ∧ calls p target request ∧ packets = []
  | _ => packets = sent i out
  end.

Inductive timely_step (c : Cluster) : Cluster → Prop :=
  | timely_moves i p ev out p' packets :
      processes c !! i = Some p → runs MessageDifferencer_Equals ev p out p' →
      delivers c i p ev out packets →
      timely_step c (update i ev p p' packets c)
  | timely_restarts i p sm :
      processes c !! i = Some p →
      timely_step c (MkCluster (<[i := restart sm p]> (processes c)) (network c) (history c)).

Inductive execution (configs : list RaftConfig) : list Cluster → Prop :=
  | execution_starts sms c : initial configs sms c → execution configs [c]
  | execution_continues c c' s :
      execution configs (c :: s) → timely_step c c' → execution configs (c' :: c :: s).

(** Timely steps are steps. *)
Lemma timely_step_step c c' : timely_step c c' → step MessageDifferencer_Equals c c'.
Proof.
  intros [i p ev out p' packets Hp Hrun Hd|i p sm Hp]; [|by apply step_restart].
  destruct ev as [| |target [result|]| | | |target [result|]| | | |request|request]; simpl in Hd;
    try (subst; by eapply step_local).
  - destruct Hd as (request & Hin & (votes & w & Hf) & ->). by eapply step_vote_reply.
  - destruct Hd as (request & Hin & (main & ss & Hf & Hss) & ->). by eapply step_append_reply.
  - destruct Hd as (caller & result & Hin & _ & -> & ->). by eapply step_append_request.
  - destruct Hd as (caller & result & Hin & -> & ->). by eapply step_vote_request.
Qed.

Section execution.
Hypothesis Equals_sound : ∀ a b, MessageDifferencer_Equals a b = true → a = b.
Context (configs : list RaftConfig) (B : Z).
Hypothesis HB : small B.

Abbreviation execution := (execution configs).

Lemma log_inv_mono B1 B2 c : B1 ≤ B2 → log_inv B1 c → log_inv B2 c.
Proof.
  intros Hle [H1 H2 H3 H4 H5 H6]. split; try done.
  - intros i p Hp. destruct (H1 i p Hp) as [[? ?] ?]. split; [split; [|done]|done]. by eapply node_ok_mono.
  - intros caller target req Hin. destruct (H2 _ _ _ Hin) as [[? ?] ?]. split; [split; [done|lia]|done].
Qed.

Lemma execution_suffix s2 c s : execution (s2 ++ c :: s) → execution (c :: s).
Proof.
  induction s2 as [|c2 s2 IH]; simpl; [done|]. intros Hex. apply IH.
  destruct (s2 ++ c :: s) as [|c0 s0] eqn:E; [by destruct s2|]. by inversion Hex.
Qed.

Lemma execution_head c s :
  execution (c :: s) → Z.of_nat (length s) ≤ B →
  log_inv (Z.of_nat (length s)) c ∧ election_inv configs c.
Proof.
  revert c. induction s as [|c0 s IH]; intros c Hex Hlen; inversion Hex as [? ? Hi|? ? ? Hex' Hstep]; subst.
  - split; [by eapply initial_log_inv|by eapply initial_inv].
  - simpl in Hlen. destruct (IH c0 Hex' ltac:(lia)) as [Hinv Helect].
    apply timely_step_step in Hstep. split; [|by eapply election_step].
    simpl length. rewrite Nat2Z.inj_succ. eapply (log_step _ Equals_sound configs _ c0); [word|done..].
Qed.

Lemma execution_inv tr c :
  execution tr → Z.of_nat (length tr) ≤ B → c ∈ tr → log_inv B c ∧ election_inv configs c.
Proof.
  intros Hex Hlen (s2 & s & ->)%list_elem_of_split. apply execution_suffix in Hex.
  rewrite length_app in Hlen. simpl in Hlen. destruct (execution_head c s Hex ltac:(lia)) as [Hinv ?].
  split; [|done]. eapply log_inv_mono; [|done]. lia.
Qed.

(** ** One step *)

(** How process [i] gets from [p] to [p']. *)
Inductive evolution (c c' : Cluster) (i : nat) (p p' : Process) : Prop :=
  | evolution_same : p' = p → evolution c c' i p p'
  | evolution_moves ev out packets :
      runs MessageDifferencer_Equals ev p out p' → delivers c i p ev out packets →
      c' = update i ev p p' packets c → evolution c c' i p p'
  | evolution_restarts sm : p' = restart sm p → evolution c c' i p p'.

Lemma step_evolution c c' i p' :
  timely_step c c' → processes c' !! i = Some p' →
  ∃ p, processes c !! i = Some p ∧ evolution c c' i p p'.
Proof.
  intros [j q ev out q' packets Hq Hrun Hd|j q sm Hq] Hp'.
  - pose proof Hp' as [[-> ->]|[_ ?]]%lookup_step; [|exists p'; by split; [|apply evolution_same]].
    exists q. split; [done|]. by eapply evolution_moves.
  - simpl in Hp'. apply lookup_insert_Some in Hp' as [[<- <-]|[_ ?]]; [|exists p'; by split; [|apply evolution_same]].
    exists q. split; [done|]. by eapply evolution_restarts.
Qed.

(** A step changes one process. *)
Lemma step_lookup c c' i p :
  timely_step c c' → processes c !! i = Some p → ∃ p', processes c' !! i = Some p'.
Proof. intros [j q ev out q' packets Hq Hrun Hd|j q sm Hq] Hp; simpl; rewrite lookup_insert; case_decide; eauto. Qed.

Lemma restart_data sm p :
  has_term (node p) →
  raft_state (node (restart sm p)) = raft_state (node p) ∧ raft_log (node (restart sm p)) = raft_log (node p) ∧
  commit_index (node (restart sm p)) = 0 ∧ state (node (restart sm p)) = Follower ∧
  main_fiber (restart sm p) = InLoop.
Proof. intros [t Ht]. split_and!; try done. simpl. unfold kv_Get. by rewrite Ht. Qed.

Lemma step_leaders c c' x : timely_step c c' → x ∈ leaders (history c) → x ∈ leaders (history c').
Proof. intros []; [by apply leaders_grow|done]. Qed.

Lemma step_network c c' k : timely_step c c' → k ∈ network c → k ∈ network c'.
Proof. intros []; [|done]. simpl. intros Hin. apply elem_of_app. by right. Qed.

Section step.
Context (c c' : Cluster).
Hypothesis Hinv : log_inv B c.
Hypothesis Helect : election_inv configs c.
Hypothesis Helect' : election_inv configs c'.
Hypothesis Hstep : timely_step c c'.

Lemma step_delivers i p ev out packets :
  delivers c i p ev out packets → ∀ req, ev = HandleAppendEntries req →
  ∃ caller, PAppend caller i req ∈ network c ∧ waits c caller i req.
Proof. intros Hd req ->. destruct Hd as (caller & result & ? & ? & _). eauto. Qed.

Lemma step_term i p p' : processes c !! i = Some p → evolution c c' i p p' → term (node p) ≤ term (node p').
Proof.
  intros Hp [->|ev out packets Hrun Hd _|sm ->]; [done|..].
  - pose proof (process_step_summary _ _ _ _ _ Hrun) as Hsum. destruct (es_vote _ _ _ _ Hsum) as [|[? _]]; lia.
  - destruct (inv_process _ _ Helect _ _ Hp) as (_ & _ & _ & Ht).
    destruct (restart_data sm p Ht) as (Hrs & _). unfold term. by rewrite Hrs.
Qed.

Lemma step_created : created (history c) ⊆ created (history c').
Proof.
  destruct Hstep as [i p ev out p' packets Hp Hrun Hd|]; [|done].
  eapply created_mono; try done. intros req E. destruct (step_delivers _ _ _ _ _ Hd req E) as (caller & ? & _). eauto.
Qed.

(** A leader stays one and extends its log, or it is new and its term unused. *)
Lemma step_leader i p p' :
  processes c !! i = Some p → evolution c c' i p p' → state (node p') = Leader →
  (state (node p) = Leader ∧ term (node p') = term (node p) ∧ full_size (node p) ≤ full_size (node p') ∧
   ∀ k, k ≤ full_size (node p) → full_log (node p') k = full_log (node p) k) ∨
  (state (node p) = Candidate ∧ term (node p') = term (node p) ∧ BecomeLeader (node p) = Done (node p') ∧
   (∃ req, stands p req ∧ rv_term req = term (node p)) ∧ ∀ j, (term (node p), j) ∉ leaders (history c)).
Proof.
  intros Hp Hevo Hs'. destruct Hevo as [->|ev out packets Hrun Hd Hc'|sm ->]; [by left| |by destruct (restart_data sm p)].
  destruct (decide (state (node p) = Leader)) as [Hs|Hs].
  - left. split; [done|]. split; [by eapply leader_term|].
    destruct (effect_p MessageDifferencer_Equals B c i ev p p' out HB Hinv Hp Hrun)
      as [Hv Hsz _|?|req _ _ _ Hsz Hf _|? ? _ _ _ ? _ _ _ _ _]; [|done| |done].
    + rewrite (Hsz Hs' Hs). split; [done|]. intros k _. specialize (Hv k). unfold log_view in Hv. by rewrite Hs, Hs' in Hv.
    + split; [lia|]. intros k Hk. rewrite Hf. by rewrite decide_False by lia.
  - right. subst c'.
    destruct (new_leader_unused MessageDifferencer_Equals configs B c i ev p p' out packets) as [Ht Hno]; [done..|].
    destruct (process_step_core _ B ev p out p' HB ltac:(by eapply p_ok) Hrun)
      as [[_ _ _ Hl]|[_ _ _ _ ?]|_ _ _ _ ?|req _ _ _ _ _ _ _ Hl|Hb|[]|v res main ss req _ _ _ _ []|req n1 _ Hle Hf _ Hst];
      try congruence; try (by destruct (Hl Hs')).
    + pose proof (BecomeLeader_shape _ _ Hb) as (Hcand & _). split_and!; try done.
      pose proof (process_step_summary _ _ _ _ _ Hrun) as Hsum.
      destruct (es_leadership _ _ _ _ Hsum Hs') as [[? _]|(id & r & votes & req & w & _ & _ & _ & Hf & _)]; [done|].
      exists req. split; [by exists votes, w|].
      destruct (ei_count _ _ Helect i (view_of p) votes (rv_term req) w) as [Hterm _]; simpl.
      * by rewrite lookup_fmap, Hp.
      * by rewrite Hf.
      * simpl in Hterm. by rewrite Hterm by (by rewrite Hcand).
    + destruct (stores_data _ _ _ _ _ Hle Hf Hst) as (_ & _ & ? & _). congruence.
Qed.

(** An entry is created by a leader, at the end of its log. *)
Lemma step_creates t k e pt :
  created (history c') !! (t, k) = Some (e, pt) →
  created (history c) !! (t, k) = Some (e, pt) ∨
  ∃ i p p', processes c !! i = Some p ∧ processes c' !! i = Some p' ∧
    state (node p) = Leader ∧ state (node p') = Leader ∧ term (node p) = t ∧ term (node p') = t ∧
    k = full_size (node p) + 1 ∧ full_size (node p') = k ∧ full_log (node p') k = Some e ∧
    (∀ j, j < k → full_log (node p') j = full_log (node p) j) ∧
    entry_term e = t ∧ pt = last_term (node p).
Proof.
  destruct Hstep as [i p ev out p' packets Hp Hrun Hd|]; [|by left]. intros Hcr.
  destruct (created_step MessageDifferencer_Equals configs B c i ev p p' out packets)
    as [Heq|(req & Hev & Hs & Hnone & Heq)]; try done.
  { intros req E. destruct (step_delivers _ _ _ _ _ Hd req E) as (caller & ? & _). eauto. }
  { rewrite Heq in Hcr. by left. }
  rewrite Heq in Hcr. apply lookup_insert_Some in Hcr as [[[= <- <-] [= <- <-]]|[_ Hcr]]; [|by left].
  right. exists i, p, p'. simpl. rewrite lookup_insert_eq.
  assert (Hs' : state (node p') = Leader ∧ full_size (node p') = full_size (node p) + 1).
  { rewrite Hev in Hrun. unfold runs in Hrun. simpl in Hrun. injection Hrun as Hrun.
    apply bind_Done in Hrun as ([r n1] & Hb & [= _ <-]).
    apply Execute_begin_shape in Hb as [(_ & ? & _)|(_ & _ & ? & _ & _ & Hpl & _ & Hl & _ & _ & _ & _ & ?)]; [done|].
    split; [done|]. unfold full_size. simpl. rewrite Hpl, Hl, length_app. simpl. lia. }
  destruct Hs' as [Hs' Hsz].
  destruct (effect_p MessageDifferencer_Equals B c i ev p p' out HB Hinv Hp Hrun)
    as [_ Hsz' _|?|req' Hev' _ _ _ Hf _|? ? _ _ _ ? _ _ _ _ _]; [specialize (Hsz' Hs' Hs); lia|done| |done].
  rewrite Hev in Hev'. injection Hev' as <-. split_and!; try done.
  - by eapply leader_term.
  - rewrite Hf. by rewrite decide_True.
  - intros j Hj. rewrite Hf. by rewrite decide_False by lia.
Qed.
End step.

(** ** Along an execution *)

(** Facts that every step keeps hold from then on. *)
Lemma execution_mono (P : Cluster → Prop) c s c0 :
  execution (c :: s) → Z.of_nat (length (c :: s)) ≤ B → c0 ∈ c :: s →
  (∀ c1 c2, log_inv B c1 → election_inv configs c1 → log_inv B c2 → election_inv configs c2 →
     timely_step c1 c2 → P c1 → P c2) →
  P c0 → P c.
Proof.
  revert c. induction s as [|c1 s IH]; intros c Hex Hlen Hin Hkeep H0.
  - apply list_elem_of_singleton in Hin. congruence.
  - apply elem_of_cons in Hin as [<-|Hin]; [done|].
    inversion Hex as [|? ? ? Hex' Hstep]; subst. simpl in Hlen.
    destruct (execution_inv (c :: c1 :: s) c Hex ltac:(simpl; lia) ltac:(left)).
    destruct (execution_inv (c1 :: s) c1 Hex' ltac:(simpl; lia) ltac:(left)).
    eapply Hkeep; [..|apply (IH c1)]; try done. simpl. lia.
Qed.

Section along.
Context (c : Cluster) (s : list Cluster).
Hypothesis Hex : execution (c :: s).
Hypothesis Hlen : Z.of_nat (length (c :: s)) ≤ B.

Lemma terms_grow c0 i p0 :
  c0 ∈ c :: s → processes c0 !! i = Some p0 →
  ∃ p, processes c !! i = Some p ∧ term (node p0) ≤ term (node p).
Proof.
  intros Hin Hp0.
  apply (execution_mono (λ c, ∃ p, processes c !! i = Some p ∧ term (node p0) ≤ term (node p)) c s c0); [done..| |by exists p0].
  intros c1 c2 I1 E1 I2 E2 Hstep (p1 & Hp1 & Hle). destruct (step_lookup _ _ _ _ Hstep Hp1) as [p2 Hp2].
  exists p2. split; [done|]. destruct (step_evolution _ _ _ _ Hstep Hp2) as (p1' & Hp1' & Hevo).
  rewrite Hp1 in Hp1'. injection Hp1' as <-. pose proof (step_term c1 c2 E1 i p1 p2 Hp1 Hevo). lia.
Qed.

Lemma created_grow c0 : c0 ∈ c :: s → created (history c0) ⊆ created (history c).
Proof.
  intros Hin. apply (execution_mono (λ c, created (history c0) ⊆ created (history c)) c s c0); [done..| |done].
  intros c1 c2 I1 E1 I2 E2 Hstep H. etrans; [done|]. by eapply step_created.
Qed.

Lemma leaders_stay c0 x : c0 ∈ c :: s → x ∈ leaders (history c0) → x ∈ leaders (history c).
Proof.
  intros Hin. apply (execution_mono (λ c, x ∈ leaders (history c)) c s c0); [done..|].
  intros c1 c2 I1 E1 I2 E2 Hstep H. by eapply step_leaders.
Qed.

(** A leader only appends to its log. *)
Lemma leader_extends c0 i p0 p :
  c0 ∈ c :: s → processes c0 !! i = Some p0 → state (node p0) = Leader →
  processes c !! i = Some p → state (node p) = Leader → term (node p) = term (node p0) →
  full_size (node p0) ≤ full_size (node p) ∧
  ∀ k, k ≤ full_size (node p0) → full_log (node p) k = full_log (node p0) k.
Proof.
  intros Hin Hp0 Hs0 Hp Hs Ht.
  set (P := λ c, (term (node p0), i) ∈ leaders (history c) ∧
    ∀ p, processes c !! i = Some p → state (node p) = Leader → term (node p) = term (node p0) →
    full_size (node p0) ≤ full_size (node p) ∧
    ∀ k, k ≤ full_size (node p0) → full_log (node p) k = full_log (node p0) k).
  enough (HP : P c) by (by apply HP). clear p Hp Hs Ht.
  apply (execution_mono P c s c0); [done..| |].
  - intros c1 c2 I1 E1 I2 E2 Hstep [Hl H]. split; [by eapply step_leaders|]. intros p2 Hp2 Hs2 Ht2.
    destruct (step_evolution _ _ _ _ Hstep Hp2) as (p1 & Hp1 & Hevo).
    destruct (step_leader c1 c2 I1 E1 E2 Hstep i p1 p2 Hp1 Hevo Hs2) as [(Hs1 & Ht1 & Hsz & Hf)|(_ & Ht1 & _ & _ & Hno)].
    + destruct (H p1 Hp1 Hs1 ltac:(congruence)) as [Hsz0 Hf0]. split; [lia|].
      intros k Hk. rewrite Hf by lia. by apply Hf0.
    + destruct (Hno i). congruence.
  - split; [|intros p Hp Hs Ht; rewrite Hp0 in Hp; by injection Hp as <-].
    destruct (execution_inv (c :: s) c0 Hex Hlen Hin) as [_ E0]. by eapply inv_leader.
Qed.
End along.

(** [p] leads at some time of the execution. *)
Definition leads_at (tr : list Cluster) (i : nat) (p : Process) : Prop :=
  ∃ c, c ∈ tr ∧ processes c !! i = Some p ∧ state (node p) = Leader.

Lemma leads_at_cons c tr i p : leads_at tr i p → leads_at (c :: tr) i p.
Proof. intros (c0 & ? & ?). exists c0. split; [by right|done]. Qed.

(** Entries come from the log of a leader of their term. *)
Lemma created_origin c s t k e pt :
  execution (c :: s) → Z.of_nat (length (c :: s)) ≤ B →
  created (history c) !! (t, k) = Some (e, pt) →
  entry_term e = t ∧ ∃ i p, leads_at (c :: s) i p ∧ term (node p) = t ∧ full_log (node p) k = Some e.
Proof.
  revert c. induction s as [|c1 s IH]; intros c Hex Hlen Hcr.
  - inversion Hex as [sms ? (_ & Hh & _)|]; subst. by rewrite Hh in Hcr.
  - inversion Hex as [|? ? ? Hex' Hstep]; subst. simpl in Hlen.
    destruct (execution_inv (c :: c1 :: s) c Hex ltac:(simpl; lia) ltac:(left)).
    destruct (execution_inv (c1 :: s) c1 Hex' ltac:(simpl; lia) ltac:(left)).
    edestruct (step_creates c1 c) as [Hold|(i & p & p' & Hp & Hp' & _ & Hs' & _ & Ht' & _ & _ & Hf & _ & He & _)]; try done.
    + destruct (IH c1 Hex' ltac:(simpl; lia) Hold) as (He & i & p & Hl & ?).
      split; [done|]. exists i, p. split; [by apply leads_at_cons|done].
    + split; [done|]. exists i, p'. split; [|done]. exists c. split; [left|done].
Qed.

(** A request somebody waits for was built from the log of a leader. *)
Lemma waits_origin c s i v req :
  execution (c :: s) → Z.of_nat (length (c :: s)) ≤ B → waits c i v req →
  v ≠ i ∧ ∃ p, leads_at (c :: s) i p ∧ request_of (node p) v req.
Proof.
  intros Hex Hlen Hw. split.
  { destruct Hw as (p & Hp & main & ss & Hf & Hss).
    destruct (execution_inv (c :: s) c Hex Hlen ltac:(left)) as [Hinv Helect].
    destruct (li_process _ _ Hinv _ _ Hp) as [[_ Hfib] _]. rewrite Hf in Hfib.
    destruct (inv_process _ _ Helect _ _ Hp) as (_ & Hid & _). rewrite <-Hid. by eapply Hfib. }
  revert c Hex Hlen Hw. induction s as [|c1 s IH]; intros c Hex Hlen (p' & Hp' & Hcalls).
  - inversion Hex as [sms ? (_ & _ & _ & Hi)|]; subst. rewrite Hi in Hp'.
    apply fmap_Some in Hp' as (cfg & _ & ->). by destruct Hcalls as (? & ? & ? & _).
  - inversion Hex as [|? ? ? Hex' Hstep]; subst. simpl in Hlen.
    destruct (execution_inv (c1 :: s) c1 Hex' ltac:(simpl; lia) ltac:(left)) as [Hinv1 _].
    destruct (step_evolution _ _ _ _ Hstep Hp') as (p & Hp & Hevo).
    assert (Hold : calls p v req → ∃ p, leads_at (c :: c1 :: s) i p ∧ request_of (node p) v req).
    { intros Hc. destruct (IH c1 Hex' ltac:(simpl; lia)) as (p0 & Hl & Hr); [by exists p|].
      exists p0. split; [by apply leads_at_cons|done]. }
    destruct Hevo as [->|ev out packets Hrun Hd Hc'|sm ->]; [by apply Hold| |by destruct Hcalls as (? & ? & ? & _)].
    destruct (process_step_fiber _ _ _ _ _ Hrun) as [_ Hc _|targets rv votes w _ Hf _ _ _].
    + destruct (Hc v req Hcalls) as [?| ->]; [by apply Hold|].
      destruct (call_append_inv MessageDifferencer_Equals B ev p v req p') as [Hs Hr]; [done|by eapply p_ok|done|].
      exists p'. split; [|done]. exists c. split; [left|done].
    + destruct Hcalls as (? & ? & ? & _). congruence.
Qed.
End execution.
End timely.
