(* ===== verification/RaftCompleteness.v ===== *)
(** * Leader completeness

    In an execution over a timely network an entry that a majority has stored in
    the term in which it was created is in the log of every leader of a later
    term. The proof is by induction on the term of the leader: a majority voted
    for it, so one of its voters has stored the entry, still had it when it voted
    and compared its log with that of the candidate. *)

From S2P Require Import Prelude.
From S2P Require Import Result.
From S2P Require Import RtTypes.
From S2P Require Import KVInterface.
From S2P Require Import Logs.
From S2P Require Import StateMachine.
From S2P Require Import Election.
From S2P Require Import RaftNode.
From S2P Require Import RaftProcess.
From S2P Require Import RaftNodeProps.
From S2P Require Import RaftCluster.
From S2P Require Import RaftElection.
From S2P Require Import RaftInvariant.
From S2P Require Import RaftProcessOk.
From S2P Require Import RaftLogMatching.
From S2P Require Import RaftLogSafety.
From S2P Require Import RaftEffects.
From S2P Require Import RaftTimely.

Local Open Scope Z_scope.

Section completeness.
Context {AM : AnyMessage} {SM : IStateMachine}.
Variable MessageDifferencer_Equals : LogEntry → LogEntry → bool.
Hypothesis Equals_sound : ∀ a b, MessageDifferencer_Equals a b = true → a = b.
Context (configs : list RaftConfig) (B : Z).
Hypothesis HB : small B.

Abbreviation execution := (execution MessageDifferencer_Equals configs).
Abbreviation timely_step := (timely_step MessageDifferencer_Equals).
Abbreviation evolution := (evolution MessageDifferencer_Equals).

(** The last position a request covers. *)
Definition request_end (req : AppendEntriesRequest) : Z :=
  ae_prev_log_index req + Z.of_nat (length (ae_entries req)).

(** The entry of a request for a position. *)
Definition request_entry (req : AppendEntriesRequest) (k : Z) : option LogEntry :=
  ae_entries req !! Z.to_nat (k - ae_prev_log_index req - 1).

(** ** Accepted requests *)

Record accepts (p : Process) (req : AppendEntriesRequest) (p' : Process) : Prop := {
  ac_term : term (node p) ≤ ae_term req;
  ac_term' : term (node p') = ae_term req;
  ac_state' : state (node p') = Follower;
  ac_prev : 0 ≤ ae_prev_log_index req ≤ log_size (raft_log (node p));
  ac_match : ae_prev_log_index req ≠ 0 →
    ∃ e, raft_log (node p) !! ae_prev_log_index req = Some e ∧ entry_term e = ae_prev_log_term req;
  ac_checked : ∀ k, ae_prev_log_index req < k ≤ commit_index (node p) `min` request_end req →
    ∃ e, raft_log (node p) !! k = Some e ∧ request_entry req k = Some e;
  ac_log : ∀ k, raft_log (node p') !! k =
    if decide (k ≤ ae_prev_log_index req `max` commit_index (node p)) then raft_log (node p) !! k
    else request_entry req k;
  ac_size : log_size (raft_log (node p')) =
    request_end req `max` (ae_prev_log_index req `max` commit_index (node p));
  ac_commit : commit_index (node p') =
    commit_index (node p) `max` (ae_leader_commit req `min` log_size (raft_log (node p')));
}.

Lemma stores_accepts p req n1 p' :
  node_ok B (node p) → request_bounds B req → term (node p) ≤ ae_term req →
  AppendEntries_follow req (node p) = Done n1 → AppendEntries_matches req n1 = Done true →
  AppendEntries_store MessageDifferencer_Equals req n1 = Done (node p') → accepts p req p'.
Proof.
  intros Hok [Hb1 Hb2] Hle Hf Hm Hst.
  destruct (stores_data _ _ _ _ _ Hle Hf Hst) as (Hk & Hs1 & Hs' & Ht' & _ & Hlog' & Hc').
  pose proof (AppendEntries_matches_size _ _ Hm) as Hsz.
  pose proof (keeps_ok _ _ _ Hk Hok) as Hok1. destruct Hok1 as [K1 K2 K3 K4 K5 _].
  assert (Hl1 : raft_log n1 = raft_log (node p)) by apply (ke_log _ _ Hk).
  assert (Hc1 : commit_index n1 = commit_index (node p)) by apply (ke_commit _ _ Hk).
  destruct (appended_log_contiguous req n1) as [_ Hsize]; [word|done|done|lia|].
  split; try done.
  - rewrite <-Hl1. lia.
  - intros Hne. unfold AppendEntries_matches in Hm. apply bind_Done in Hm as (? & _ & Hm).
    case_decide; [done|]. rewrite decide_True in Hm by done. apply bind_Done in Hm as (e & He%kv_Get_value & [= Ht]).
    apply bool_decide_eq_true in Ht. exists e. by rewrite <-Hl1.
  - intros k Hk1. unfold AppendEntries_store in Hst. apply bind_Done in Hst as (n2 & Hck & _).
    rewrite <-Hl1. eapply (check_loop_equal _ Equals_sound B); [done|done| |exact Hck|].
    + intros j Hj%elem_of_range. lia.
    + apply elem_of_range. unfold request_end in Hk1. rewrite <-Hc1 in Hk1. lia.
  - intros k. rewrite Hlog', <-Hl1, <-Hc1. apply appended_log_lookup; [word|done|done|lia].
  - rewrite Hlog', <-Hc1. exact Hsize.
  - rewrite Hc', Hlog', <-Hc1. done.
Qed.

(** What a step does to the saved log. *)
Lemma step_log c c' i p p' :
  log_inv B c → election_inv configs c → processes c !! i = Some p → evolution c c' i p p' →
  raft_log (node p) ⊆ raft_log (node p') ∨
  ∃ caller req, waits c caller i req ∧ accepts p req p'.
Proof.
  intros Hinv Helect Hp [->|ev out packets Hrun Hd _|sm ->]; [by left| |].
  - destruct (li_process _ _ Hinv _ _ Hp) as [Hok _].
    destruct (process_step_core _ B ev p out p' HB Hok Hrun)
      as [[_ Hl _ _]|[_ _ Hl _ _]|_ _ Hl _ _|req _ _ _ _ _ Hl _ _|Hb|_ Hl|v res main ss req _ _ _ _ _ Hl
         |req n1 -> Hle Hf Hm Hst]; try (left; by rewrite Hl || done).
    + left. apply BecomeLeader_shape in Hb as (_ & _ & _ & _ & -> & _). done.
    + right. destruct Hd as (caller & result & Hin & Hw & _). exists caller, req. split; [done|].
      destruct (li_packet _ _ Hinv _ _ _ Hin) as [Hb _]. eapply stores_accepts; try done. apply Hok.
  - left. destruct (inv_process _ _ Helect _ _ Hp) as (_ & _ & _ & Ht).
    by destruct (restart_data sm p Ht) as (_ & -> & _).
Qed.

Lemma raft_log_view n k e : node_ok B n → raft_log n !! k = Some e → log_view n k = Some e.
Proof.
  intros Hok Hk. unfold log_view. case_decide; [|done].
  assert (1 ≤ k ≤ log_size (raft_log n)) by (apply (ok_contiguous _ _ Hok); eauto).
  unfold full_log, extended. by rewrite decide_True by lia.
Qed.

(** Where the entries a node stands for come from. *)
Lemma step_view c c' i p p' k e :
  log_inv B c → election_inv configs c → processes c !! i = Some p → evolution c c' i p p' →
  log_view (node p') k = Some e →
  log_view (node p) k = Some e ∨
  (state (node p) = Leader ∧ term (node p') = term (node p) ∧ entry_term e = term (node p)) ∨
  ∃ caller req, waits c caller i req ∧ accepts p req p' ∧ ae_prev_log_index req < k ∧ request_entry req k = Some e.
Proof.
  intros Hinv Helect Hp Hevo He. destruct (li_process _ _ Hinv _ _ Hp) as [[Hok Hfib] _].
  assert (Hsame : state (node p') ≠ Leader → raft_log (node p') = raft_log (node p) → log_view (node p) k = Some e).
  { intros Hs Hl. unfold log_view in He. rewrite decide_False, Hl in He by done. by apply raft_log_view. }
  destruct Hevo as [->|ev out packets Hrun Hd _|sm ->]; [by left| |].
  2: { left. destruct (inv_process _ _ Helect _ _ Hp) as (_ & _ & _ & Ht).
       apply Hsame; [done|]. by destruct (restart_data sm p Ht) as (_ & -> & _). }
  destruct (effect_p MessageDifferencer_Equals B c i ev p p' out HB Hinv Hp Hrun)
    as [Hv _ _|Hs Hl|req _ Hs Hs' _ Hf _|_ _ _ _ _ Hs' _ _ _ _ _].
  - left. by rewrite <-Hv.
  - left. by apply Hsame.
  - unfold log_view in He. rewrite decide_True in He by done. rewrite Hf in He.
    destruct (decide (k = full_size (node p) + 1)).
    + injection He as <-. right; left. split_and!; [done|by eapply leader_term|done].
    + left. unfold log_view. by rewrite decide_True.
  - destruct (process_step_core _ B ev p out p' HB (conj Hok Hfib) Hrun)
      as [[_ Hl _ _]|[_ _ Hl _ _]|_ _ Hl _ _|req _ _ _ _ _ Hl _ _|Hb|[]|v res main ss req _ _ _ _ [] _
         |req n1 -> Hle Hf Hm Hst]; try (left; by apply Hsame); try done.
    + left. apply BecomeLeader_shape in Hb as (_ & ? & _). done.
    + destruct Hd as (caller & result & Hin & Hw & _).
      destruct (li_packet _ _ Hinv _ _ _ Hin) as [Hb _].
      assert (Hacc : accepts p req p') by (by eapply stores_accepts).
      unfold log_view in He. rewrite decide_False in He by done. rewrite (ac_log _ _ _ Hacc) in He.
      destruct (decide (k ≤ _)); [left; by apply raft_log_view|right; right].
      exists caller, req. split_and!; (done || lia).
Qed.

(** ** Terms of entries *)

(** [f] has an entry of term [t] at position [k]. *)
Definition has (f : Z → option LogEntry) (k t : Z) : Prop := ∃ e, f k = Some e ∧ entry_term e = t.

Lemma full_log_bounds n k e : node_ok B n → full_log n k = Some e → 1 ≤ k ≤ full_size n.
Proof.
  intros Hok. pose proof (contiguous_size _ (ok_contiguous _ _ Hok)). unfold full_log, extended, full_size.
  case_decide as Hk; intros He.
  - assert (1 ≤ k ≤ log_size (raft_log n)) by (apply (ok_contiguous _ _ Hok); eauto). lia.
  - apply lookup_lt_Some in He. lia.
Qed.

Lemma request_entry_full n v req k e :
  request_of n v req → full_log n k = Some e → k ≤ full_size n → ae_prev_log_index req < k →
  request_entry req k = Some e.
Proof.
  intros [_ _ _ Hsz _ Hent _ _] He Hk Hprev. unfold request_entry.
  destruct (lookup_lt_is_Some_2 (ae_entries req) (Z.to_nat (k - ae_prev_log_index req - 1))) as [e' He']; [lia|].
  rewrite He'. apply Hent in He'. replace (_ + 1 + _) with k in He' by lia. congruence.
Qed.

Lemma request_entry_inv n v req k e :
  request_of n v req → ae_prev_log_index req < k → request_entry req k = Some e → full_log n k = Some e.
Proof.
  intros [_ _ _ _ _ Hent _ _] Hprev He. apply Hent in He. by replace (_ + 1 + _) with k in He by lia.
Qed.

(** In every execution: the tail of an execution is one. *)
Lemma tail_execution c s c0 :
  execution (c :: s) → Z.of_nat (length (c :: s)) ≤ B → c0 ∈ c :: s →
  ∃ s2 s0, c :: s = s2 ++ c0 :: s0 ∧ execution (c0 :: s0) ∧ Z.of_nat (length (c0 :: s0)) ≤ B.
Proof.
  intros Hex Hlen (s2 & s0 & Heq)%list_elem_of_split. exists s2, s0. rewrite Heq in *.
  split_and!; [done|by eapply execution_suffix|]. rewrite length_app in Hlen. simpl in *. lia.
Qed.

Lemma terms_nonneg c s i p :
  execution (c :: s) → Z.of_nat (length (c :: s)) ≤ B → processes c !! i = Some p → 0 ≤ term (node p).
Proof.
  revert c p. induction s as [|c1 s IH]; intros c p Hex Hlen Hp.
  - inversion Hex as [sms ? (_ & _ & _ & Hi)|]; subst. rewrite Hi in Hp. by apply fmap_Some in Hp as (cfg & _ & ->).
  - inversion Hex as [|? ? ? Hex' Hstep]; subst. simpl in Hlen.
    destruct (step_evolution _ _ _ _ _ Hstep Hp) as (p1 & Hp1 & Hevo).
    pose proof (IH c1 p1 Hex' ltac:(simpl; lia) Hp1).
    destruct (execution_inv _ Equals_sound configs B HB (c1 :: s) c1 Hex' ltac:(simpl; lia) ltac:(left)) as [_ E1].
    pose proof (step_term _ configs c1 c E1 i p1 p Hp1 Hevo). lia.
Qed.

(** Entries are not newer than the node that has them. *)
Lemma view_terms c s :
  execution (c :: s) → Z.of_nat (length (c :: s)) ≤ B →
  ∀ c0 i p k e, c0 ∈ c :: s → processes c0 !! i = Some p → log_view (node p) k = Some e →
  entry_term e ≤ term (node p).
Proof.
  revert c. induction s as [|c1 s IH]; intros c Hex Hlen c0 i p k e Hin Hp He.
  - apply list_elem_of_singleton in Hin as ->. inversion Hex as [sms ? (_ & _ & _ & Hi)|]; subst.
    rewrite Hi in Hp. by apply fmap_Some in Hp as (cfg & _ & ->).
  - inversion Hex as [|? ? ? Hex' Hstep]; subst. simpl in Hlen.
    specialize (IH c1 Hex' ltac:(simpl; lia)). apply elem_of_cons in Hin as [->|Hin]; [|by eapply IH].
    destruct (step_evolution _ _ _ _ _ Hstep Hp) as (p1 & Hp1 & Hevo).
    destruct (execution_inv _ Equals_sound configs B HB (c1 :: s) c1 Hex' ltac:(simpl; lia) ltac:(left)) as [I1 E1].
    pose proof (step_term _ configs c1 c E1 i p1 p Hp1 Hevo).
    destruct (step_view c1 c i p1 p k e I1 E1 Hp1 Hevo He) as [Hold|[(_ & _ & ->)|(caller & req & Hw & Hacc & Hprev & Hreq)]].
    + pose proof (IH c1 i p1 k e ltac:(left) Hp1 Hold). lia.
    + done.
    + destruct (waits_origin _ Equals_sound configs B HB c1 s caller i req Hex' ltac:(simpl; lia) Hw) as (_ & p0 & (c2 & Hin2 & Hp2 & Hs2) & Hof).
      rewrite (ac_term' _ _ _ Hacc), (ro_term _ _ _ Hof). eapply (IH c2 caller p0 k); [done..|].
      unfold log_view. rewrite decide_True by done. by eapply request_entry_inv.
Qed.

(** ** Leaders *)

Section leaders.
Context (c : Cluster) (s : list Cluster).
Hypothesis Hex : execution (c :: s).
Hypothesis Hlen : Z.of_nat (length (c :: s)) ≤ B.

Lemma at_inv c0 : c0 ∈ c :: s → log_inv B c0 ∧ election_inv configs c0.
Proof. by apply (execution_inv _ Equals_sound configs B HB (c :: s)). Qed.

Lemma at_ok c0 i p : c0 ∈ c :: s → processes c0 !! i = Some p → node_ok B (node p).
Proof. intros Hin Hp. destruct (at_inv c0 Hin) as [Hinv _]. by destruct (li_process _ _ Hinv _ _ Hp) as [[? _] _]. Qed.

(** All logs are chains of the entries created so far. *)
Lemma at_chain c0 i p :
  c0 ∈ c :: s → processes c0 !! i = Some p → chain (created (history c)) (log_view (node p)).
Proof.
  intros Hin Hp. destruct (at_inv c0 Hin) as [Hinv _].
  eapply chain_mono; [by eapply (created_grow _ Equals_sound configs B HB c s)|by eapply li_chain].
Qed.

Lemma at_raft_chain c0 i p :
  c0 ∈ c :: s → processes c0 !! i = Some p → chain (created (history c)) (λ k, raft_log (node p) !! k).
Proof. intros Hin Hp. eapply raft_log_chain; [by eapply at_ok|by eapply at_chain]. Qed.

Lemma leads_inv i p :
  leads_at (c :: s) i p →
  node_ok B (node p) ∧ chain (created (history c)) (full_log (node p)) ∧
  (term (node p), i) ∈ leaders (history c) ∧ ∀ k e, full_log (node p) k = Some e → entry_term e ≤ term (node p).
Proof.
  intros (c0 & Hin & Hp & Hs). destruct (at_inv c0 Hin) as [Hinv Helect].
  assert (Hview : ∀ k, log_view (node p) k = full_log (node p) k) by (intros k; unfold log_view; by rewrite decide_True).
  split_and!.
  - by eapply at_ok.
  - eapply chain_ext; [|by eapply at_chain]. intros k. by rewrite Hview.
  - eapply (leaders_stay _ Equals_sound configs B HB c s); [done..|]. by eapply inv_leader.
  - intros k e He. eapply (view_terms c s Hex Hlen c0 i p k); [done..|]. by rewrite Hview.
Qed.

(** The logs of the leaders of one term are prefixes of each other. *)
Lemma leader_logs_agree i j p q :
  leads_at (c :: s) i p → leads_at (c :: s) j q → term (node p) = term (node q) →
  i = j ∧
  ((full_size (node p) ≤ full_size (node q) ∧ ∀ k, k ≤ full_size (node p) → full_log (node q) k = full_log (node p) k) ∨
   (full_size (node q) ≤ full_size (node p) ∧ ∀ k, k ≤ full_size (node q) → full_log (node p) k = full_log (node q) k)).
Proof.
  intros Hp Hq Ht.
  assert (i = j) as <-.
  { destruct (leads_inv i p Hp) as (_ & _ & Hi & _). destruct (leads_inv j q Hq) as (_ & _ & Hj & _).
    destruct (at_inv c ltac:(left)) as [_ Helect]. rewrite Ht in Hi. by eapply leader_unique. }
  split; [done|]. destruct Hp as (c1 & Hin1 & Hp & Hsp), Hq as (c2 & Hin2 & Hq & Hsq).
  destruct (tail_execution c s c1 Hex Hlen Hin1) as (s2 & s0 & Heq & Hex1 & Hlen1). rewrite Heq in Hin2.
  apply elem_of_app in Hin2 as [Hin2|Hin2].
  - left. apply list_elem_of_split in Hin2 as (a & b & ->). rewrite <-app_assoc in Heq. simpl in Heq.
    assert (Hex2 : execution (c2 :: b ++ c1 :: s0)) by (rewrite Heq in Hex; by eapply execution_suffix).
    eapply (leader_extends _ Equals_sound configs B HB c2 (b ++ c1 :: s0)); try done.
    + rewrite Heq, length_app in Hlen. lia.
    + right. apply elem_of_app. right. left.
  - right. by eapply (leader_extends _ Equals_sound configs B HB c1 s0).
Qed.

(** Two entries of one term are in the log of one of its leaders. *)
Lemma same_term_leader t k k' x x' :
  created (history c) !! (t, k) = Some x → created (history c) !! (t, k') = Some x' →
  ∃ i p, leads_at (c :: s) i p ∧ has (full_log (node p)) k t ∧ has (full_log (node p)) k' t.
Proof.
  destruct x as [e pt], x' as [e' pt']. intros Hk Hk'.
  destruct (created_origin _ Equals_sound configs B HB c s t k e pt Hex Hlen Hk) as (He & i & p & Hl & Ht & Hf).
  destruct (created_origin _ Equals_sound configs B HB c s t k' e' pt' Hex Hlen Hk') as (He' & j & q & Hl' & Ht' & Hf').
  pose proof (full_log_bounds _ _ _ (proj1 (leads_inv i p Hl)) Hf).
  pose proof (full_log_bounds _ _ _ (proj1 (leads_inv j q Hl')) Hf').
  destruct (leader_logs_agree i j p q Hl Hl' ltac:(congruence)) as [<- [[_ Hag]|[_ Hag]]].
  - exists i, q. split; [done|]. split; [exists e; rewrite Hag by lia; done|by exists e'].
  - exists i, p. split; [done|]. split; [by exists e|exists e'; rewrite Hag by lia; done].
Qed.

(** A leader has all entries of its term. *)
Lemma leader_has_created i p k e pt :
  processes c !! i = Some p → state (node p) = Leader →
  created (history c) !! (term (node p), k) = Some (e, pt) → full_log (node p) k = Some e.
Proof.
  intros Hp Hs Hcr. assert (Hl : leads_at (c :: s) i p) by (exists c; split; [left|done]).
  destruct (created_origin _ Equals_sound configs B HB c s _ k e pt Hex Hlen Hcr) as (He & j & q & Hl' & Ht & Hf).
  pose proof (full_log_bounds _ _ _ (proj1 (leads_inv j q Hl')) Hf).
  destruct (leader_logs_agree i j p q Hl Hl' ltac:(congruence)) as [<- _].
  destruct Hl' as (c0 & Hin & Hq & Hsq).
  destruct (leader_extends _ Equals_sound configs B HB c s Hex Hlen c0 i q p) as [_ Hag]; try done.
  rewrite Hag by lia. done.
Qed.
End leaders.

(** Along a chain terms do not decrease. *)
Lemma chain_terms cr f i k t t' :
  (∀ t k e pt, cr !! (t, k) = Some (e, pt) → pt ≤ t) → chain cr f → has f i t → has f k t' → 1 ≤ i ≤ k → t ≤ t'.
Proof.
  intros Hcr Hc (e & He & <-) Hk Hik. remember (Z.to_nat (k - i)) as d eqn:Hd. revert k t' Hk Hik Hd.
  induction d as [|d IH]; intros k t' (e' & He' & <-) Hik Hd.
  - assert (k = i) as -> by lia. by simplify_eq.
  - destruct (Hc _ _ He') as (pt & Hpt & Hprev).
    rewrite decide_False in Hprev by lia. destruct Hprev as (e1 & He1 & Ht1). apply Hcr in Hpt.
    pose proof (IH (k - 1) pt ltac:(by exists e1) ltac:(lia) ltac:(lia)). lia.
Qed.

Lemma created_parent c s :
  execution (c :: s) → Z.of_nat (length (c :: s)) ≤ B →
  ∀ t k e pt, created (history c) !! (t, k) = Some (e, pt) → pt ≤ t.
Proof.
  revert c. induction s as [|c1 s IH]; intros c Hex Hlen t k e pt Hcr.
  - inversion Hex as [sms ? (_ & Hh & _)|]; subst. by rewrite Hh in Hcr.
  - inversion Hex as [|? ? ? Hex' Hstep]; subst.
    destruct (at_inv c (c1 :: s) Hex Hlen c ltac:(left)) as [_ E].
    assert (Hlen' : Z.of_nat (length (c1 :: s)) ≤ B) by (simpl in *; lia).
    destruct (at_inv c1 s Hex' Hlen' c1 ltac:(left)) as [I1 E1].
    destruct (step_creates _ configs B HB c1 c I1 E Hstep t k e pt Hcr)
      as [Hold|(i & p & p' & Hp & _ & Hs & _ & Ht & _ & _ & _ & _ & _ & _ & ->)]; [by eapply IH|].
    pose proof (full_log_last B (node p) ltac:(by eapply (at_ok c1 s Hex' Hlen' c1); [left|])) as Hlast.
    case_decide.
    + rewrite Hlast, <-Ht. by eapply terms_nonneg.
    + destruct Hlast as (e' & He' & <-). rewrite <-Ht.
      eapply (leads_inv c1 s Hex' Hlen' i p); [|done]. exists c1. split; [left|done].
Qed.

(** ** Requests somebody waits for *)

(** A step moves one process. *)
Lemma step_one c c' i j p p' q q' :
  timely_step c c' → i ≠ j → processes c !! i = Some p → processes c' !! i = Some p' →
  processes c !! j = Some q → processes c' !! j = Some q' → p' = p ∨ q' = q.
Proof.
  intros Hstep Hne Hp Hp' Hq Hq'.
  destruct Hstep as [k r ev out r' packets _ _ _|k r sm _]; simpl in Hp', Hq';
    (destruct (decide (k = i)) as [->|];
      [rewrite lookup_insert_ne in Hq' by done; right; congruence|rewrite lookup_insert_ne in Hp' by done; left; congruence]).
Qed.

Lemma calls_unique p v req req' : calls p v req → calls p v req' → req = req'.
Proof. intros (main & ss & Hf & Hss) (main' & ss' & Hf' & Hss'). congruence. Qed.

(** The sender of a request leads its term. *)
Lemma waits_leader c s i v req :
  execution (c :: s) → Z.of_nat (length (c :: s)) ≤ B → waits c i v req →
  (ae_term req, i) ∈ leaders (history c).
Proof.
  intros Hex Hlen Hw.
  destruct (waits_origin _ Equals_sound configs B HB c s i v req Hex Hlen Hw) as (_ & p & Hl & Hof).
  rewrite (ro_term _ _ _ Hof). by eapply leads_inv.
Qed.

(** A request somebody waits for has all entries of its term that the receiver has. *)
Lemma waits_covers c s :
  execution (c :: s) → Z.of_nat (length (c :: s)) ≤ B →
  ∀ i v req q k e, waits c i v req → processes c !! v = Some q → term (node q) ≤ ae_term req →
  log_view (node q) k = Some e → entry_term e = ae_term req → ae_prev_log_index req < k →
  request_entry req k = Some e.
Proof.
  revert c. induction s as [|c1 s IH]; intros c Hex Hlen i v req q k e Hw Hq Hterm He Het Hprev.
  - inversion Hex as [sms ? (_ & _ & _ & Hi)|]; subst. rewrite Hi in Hq. by apply fmap_Some in Hq as (cfg & _ & ->).
  - inversion Hex as [|? ? ? Hex' Hstep]; subst.
    assert (Hlen' : Z.of_nat (length (c1 :: s)) ≤ B) by (simpl in *; lia).
    destruct (at_inv c1 s Hex' Hlen' c1 ltac:(left)) as [I1 E1].
    destruct (at_inv c (c1 :: s) Hex Hlen c ltac:(left)) as [I2 E2].
    destruct (waits_origin _ Equals_sound configs B HB c (c1 :: s) i v req Hex Hlen Hw) as (Hne & _).
    pose proof (waits_leader c (c1 :: s) i v req Hex Hlen Hw) as Hlead.
    destruct (step_evolution _ _ _ _ _ Hstep Hq) as (q1 & Hq1 & Hevo).
    pose proof (step_term _ configs c1 c E1 v q1 q Hq1 Hevo) as Hle.
    destruct Hw as (p & Hp & Hcalls).
    destruct (step_evolution _ _ _ _ _ Hstep Hp) as (p1 & Hp1 & Hevo1).
    assert (Hhad : log_view (node q1) k = Some e → request_entry req k = Some e).
    { intros Hold. assert (Hkeep : calls p1 v req → request_entry req k = Some e).
      { intros Hc. eapply (IH c1 Hex' Hlen' i v req q1); try done; [by exists p1|lia]. }
      destruct Hevo1 as [->|ev out packets Hrun Hd Hc'|sm ->]; [by apply Hkeep| |by destruct Hcalls as (? & ? & ? & _)].
      destruct (process_step_fiber _ _ _ _ _ Hrun) as [_ Hc _|targets rv votes w _ Hf _ _ _].
      2: { destruct Hcalls as (? & ? & ? & _). congruence. }
      destruct (Hc v req Hcalls) as [?| ->]; [by apply Hkeep|].
      destruct (call_append_inv MessageDifferencer_Equals B ev p1 v req p) as [Hs Hr]; [done|by eapply (p_ok B c1)|done|].
      destruct (li_chain _ _ I2 _ _ Hq k e He) as (pt & Hcr & _).
      rewrite Het, (ro_term _ _ _ Hr) in Hcr.
      assert (Hfull : full_log (node p) k = Some e) by (by eapply (leader_has_created c (c1 :: s))).
      eapply request_entry_full; [done|done| |done].
      by eapply full_log_bounds; [eapply (at_ok c (c1 :: s)); [..|left|]|]. }
    destruct (step_view c1 c v q1 q k e I1 E1 Hq1 Hevo He)
      as [?|[(Hs & _ & Het')|(caller & req' & Hw' & Hacc & Hprev' & Hreq')]]; [by apply Hhad|..].
    + (* the receiver created it, so it leads the term of the request *)
      destruct Hne. eapply (leader_unique configs c (ae_term req)); [done| |done].
      eapply (step_leaders _ c1); [done|]. rewrite <-Het, Het'. by eapply inv_leader.
    + (* the receiver got it from a request of the same sender *)
      pose proof (waits_leader c1 s caller v req' Hex' Hlen' Hw') as Hlead'.
      destruct (waits_origin _ Equals_sound configs B HB c1 s caller v req' Hex' Hlen' Hw') as (Hne' & p0 & Hl0 & Hof).
      assert (Het' : ae_term req = ae_term req').
      { assert (entry_term e ≤ ae_term req').
        { rewrite (ro_term _ _ _ Hof). eapply (leads_inv c1 s Hex' Hlen' caller p0 Hl0). by eapply request_entry_inv. }
        rewrite (ac_term' _ _ _ Hacc) in Hterm. lia. }
      assert (caller = i) as ->.
      { eapply (leader_unique configs c (ae_term req)); [done| |done]. rewrite Het'. by eapply (step_leaders _ c1). }
      destruct Hw' as (p1' & Hp1' & Hcalls'). rewrite Hp1 in Hp1'. injection Hp1' as <-.
      destruct (step_one c1 c i v p1 p q1 q) as [->| ->]; try done; [|by apply Hhad]. by rewrite (calls_unique p1 v req req').
Qed.

(** ** Votes *)

(** A vote that is not for oneself was cast for a request of an up-to-date log. *)
Definition vote_cast (tr : list Cluster) (t : Z) (v : nat) (candidate : Z) : Prop :=
  ∃ s2 c s q caller req, tr = s2 ++ c :: s ∧ processes c !! v = Some q ∧ term (node q) = t ∧
    up_to_date (node q) req ∧ PVote caller v req ∈ network c ∧
    rv_term req = t ∧ rv_candidate_id req = candidate.

Lemma vote_cast_cons c tr t v d : vote_cast tr t v d → vote_cast (c :: tr) t v d.
Proof.
  intros (s2 & c0 & s & q & caller & req & -> & H). by exists (c :: s2), c0, s, q, caller, req.
Qed.

(** A step adds the vote of the process that moves. *)
Lemma step_ballots c c' t v d :
  timely_step c c' → (t, v, d) ∈ ballots (history c') →
  (t, v, d) ∈ ballots (history c) ∨
  ∃ p p' ev out packets, processes c !! v = Some p ∧ processes c' !! v = Some p' ∧
    runs MessageDifferencer_Equals ev p out p' ∧ delivers c v p ev out packets ∧
    term (node p') = t ∧ vote (node p') = Some d.
Proof.
  intros [i p ev out p' packets Hp Hrun Hd|i p sm Hp] Hb; [|by left].
  simpl in Hb. unfold observe_vote in Hb. destruct (vote (node p')) as [d'|] eqn:Hv; [|by left].
  apply elem_of_cons in Hb as [[= -> -> ->]|Hb]; [|by left]. right.
  exists p, p', ev, out, packets. simpl. by rewrite lookup_insert_eq.
Qed.

Lemma ballot_origin c s t v d :
  execution (c :: s) → Z.of_nat (length (c :: s)) ≤ B →
  (t, v, d) ∈ ballots (history c) → d = Z.of_nat v ∨ vote_cast (c :: s) t v d.
Proof.
  revert c. induction s as [|c1 s IH]; intros c Hex Hlen Hb.
  - inversion Hex as [sms ? (_ & Hh & _)|]; subst. rewrite Hh in Hb. by apply elem_of_nil in Hb.
  - inversion Hex as [|? ? ? Hex' Hstep]; subst.
    assert (Hlen' : Z.of_nat (length (c1 :: s)) ≤ B) by (simpl in *; lia).
    destruct (at_inv c1 s Hex' Hlen' c1 ltac:(left)) as [I1 E1].
    assert (Hold : (t, v, d) ∈ ballots (history c1) → d = Z.of_nat v ∨ vote_cast (c :: c1 :: s) t v d).
    { intros Hb1. destruct (IH c1 Hex' Hlen' Hb1) as [?|?]; [by left|right; by apply vote_cast_cons]. }
    destruct (step_ballots c1 c t v d Hstep Hb) as [?|(p & p' & ev & out & packets & Hp & Hp' & Hrun & Hd & Ht & Hv)]; [by apply Hold|].
    destruct (li_process _ _ I1 _ _ Hp) as [Hok _]. destruct (inv_process _ _ E1 _ _ Hp) as (_ & Hid & _).
    assert (Hsame : vote (node p) = Some d → term (node p) = t → d = Z.of_nat v ∨ vote_cast (c :: c1 :: s) t v d).
    { intros Hv1 Ht1. apply Hold. rewrite <-Ht1.
      apply (ei_vote_recorded _ _ E1 v (view_of p)); [|done]. simpl. by rewrite lookup_fmap, Hp. }
    destruct (process_step_core _ B ev p out p' HB Hok Hrun)
      as [[Hrs _ _ _]|[_ ? _ _ _]|_ Hv' _ _ _|req -> _ Ht' Hv' Hup Hl _ _|Hbl|[] _|x res main ss req _ _ _ _ [] _
         |req n1 -> Hle Hf Hm Hst].
    + apply Hsame; unfold vote, term in *; by rewrite <-Hrs.
    + congruence.
    + left. rewrite Hv in Hv'. injection Hv' as ->. unfold self. by rewrite Hid.
    + right. destruct Hd as (caller & result & Hin & _). rewrite Hv in Hv'. injection Hv' as ->.
      exists [], c, (c1 :: s), p', caller, req. split_and!; try done; [|by eapply step_network|congruence].
      unfold up_to_date, GetLastSavedLogTerm, GetSavedLogSize in *. by rewrite Hl.
    + apply BecomeLeader_shape in Hbl as (_ & _ & _ & Hrs & _). apply Hsame; unfold vote, term in *; by rewrite <-Hrs.
    + apply Hsame; unfold vote, term in *; congruence.
    + apply Hsame; unfold vote, term in *; congruence.
    + destruct (stores_data _ _ _ _ _ Hle Hf Hst) as (_ & _ & _ & _ & Hvote & _).
      destruct (Hvote d Hv) as [? ?]. apply Hsame; congruence.
Qed.

(** ** Candidates *)

Record candidate_ok (c : Cluster) (i : nat) (p : Process) : Prop := {
  ca_sent : ∀ x r, PVote i x r ∈ network c → rv_term r ≤ term (node p);
  ca_stands : ∀ req, stands p req → rv_term req ≤ term (node p);
  ca_unique : ∀ req x r, stands p req → PVote i x r ∈ network c → rv_term r = rv_term req → r = req;
  ca_log : ∀ req, stands p req → state (node p) = Candidate → term (node p) = rv_term req → describes (node p) req;
}.

Lemma sent_votes c i p ev out packets j x r :
  delivers c i p ev out packets → PVote j x r ∈ packets → j = i ∧ ∃ targets, out = CallRequestVote targets r.
Proof.
  assert (Hsent : PVote j x r ∈ sent i out → j = i ∧ ∃ targets, out = CallRequestVote targets r).
  { destruct out; simpl; rewrite ?elem_of_nil, ?list_elem_of_singleton; try done.
    intros (y & [= -> -> ->] & _)%list_elem_of_fmap. eauto. }
  intros Hd Hin. destruct ev as [| |target [result|]| | | |target [result|]| | | |request|request]; simpl in Hd;
    try (subst packets; by apply Hsent).
  - destruct Hd as (? & _ & _ & ->). by apply elem_of_nil in Hin.
  - destruct Hd as (? & _ & _ & ->). by apply elem_of_nil in Hin.
  - destruct Hd as (? & ? & _ & _ & _ & ->). by apply list_elem_of_singleton in Hin.
  - destruct Hd as (? & ? & _ & _ & ->). by apply list_elem_of_singleton in Hin.
Qed.

(** A candidate that goes on keeps its log. *)
Lemma candidate_same_log ev p out p' :
  process_ok B p → runs MessageDifferencer_Equals ev p out p' → state (node p') = Candidate →
  raft_log (node p') = raft_log (node p).
Proof.
  intros Hok Hrun Hs. destruct (process_step_core _ B ev p out p' HB Hok Hrun)
    as [[_ Hl _ _]|[_ _ Hl _ _]|_ _ Hl _ _|req _ _ _ _ _ Hl _ _|Hb|[] _|v res main ss req _ _ _ _ [] _
       |req n1 _ Hle Hf Hm Hst]; try done; try congruence.
  - by apply BecomeLeader_shape in Hb as (_ & ? & _ & _ & -> & _).
  - destruct (stores_data _ _ _ _ _ Hle Hf Hst) as (_ & _ & ? & _). congruence.
Qed.

Lemma candidate_step c c' i p p' :
  log_inv B c → election_inv configs c → timely_step c c' → processes c !! i = Some p → processes c' !! i = Some p' →
  candidate_ok c i p → candidate_ok c' i p'.
Proof.
  intros Hinv Helect Hstep Hp Hp' [H1 H2 H3 H4].
  destruct Hstep as [j q ev out q' packets Hq Hrun Hd|j q sm Hq].
  2: { simpl in Hp'. apply lookup_insert_Some in Hp' as [[-> <-]|[_ Hp']]; [|by rewrite Hp in Hp'; injection Hp' as <-].
       rewrite Hp in Hq. injection Hq as <-. destruct (inv_process _ _ Helect _ _ Hp) as (_ & _ & _ & Ht).
       destruct (restart_data sm p Ht) as (Hrs & _ & _ & _ & Hf).
       assert (Hno : ∀ req, ¬ stands (restart sm p) req) by (intros req (? & ? & ?); congruence).
       split; try (by intros req ? ? []%Hno); try (by intros req []%Hno).
       intros x r Hin. unfold term. rewrite Hrs. by eapply H1. }
  apply lookup_step in Hp' as [[-> ->]|[Hne Hp']].
  2: { rewrite Hp in Hp'. injection Hp' as <-.
       assert (Hnet : ∀ x r, PVote i x r ∈ network (update j ev q q' packets c) → PVote i x r ∈ network c).
       { intros x r Hin. simpl in Hin. apply elem_of_app in Hin as [Hin|?]; [|done].
         by destruct (sent_votes c j q ev out packets i x r Hd Hin) as [-> _]. }
       split; eauto. }
  rewrite Hp in Hq. injection Hq as <-.
  pose proof (process_step_summary _ _ _ _ _ Hrun) as Hsum.
  assert (Hle : term (node p) ≤ term (node q')) by (destruct (es_vote _ _ _ _ Hsum) as [|[? _]]; lia).
  destruct (process_step_fiber _ _ _ _ _ Hrun) as [Hnc _ Hst|targets req votes w -> Hf Ht Hlt Hdesc].
  - assert (Hnet : ∀ x r, PVote j x r ∈ network (update j ev p q' packets c) → PVote j x r ∈ network c).
    { intros x r Hin. simpl in Hin. apply elem_of_app in Hin as [Hin|?]; [|done].
      destruct (sent_votes c j p ev out packets j x r Hd Hin) as [_ [targets E]]. by destruct (Hnc targets r). }
    split.
    + intros x r Hin%Hnet. pose proof (H1 x r Hin). lia.
    + intros req Hs%Hst. pose proof (H2 req Hs). lia.
    + intros req x r Hs%Hst Hin%Hnet. by eapply H3.
    + intros req Hs' Hcand Hterm. pose proof (Hst req Hs') as Hs. pose proof (H2 req Hs).
      destruct (candidate_stays _ ev p out q' req Hrun Hs Hs' Hcand) as [[Hc1 Ht1]|Hlt]; [|lia].
      destruct (H4 req Hs Hc1 ltac:(congruence)) as [D1 D2]. unfold describes, GetSavedLogSize, GetLastSavedLogTerm in *.
      rewrite (candidate_same_log ev p out q'); [done|by eapply p_ok|done|done].
  - assert (Hnet : ∀ x r, PVote j x r ∈ network (update j ev p q' packets c) → r = req ∨ rv_term r ≤ term (node p)).
    { intros x r Hin. simpl in Hin. apply elem_of_app in Hin as [Hin|Hin]; [|right; by eapply H1].
      destruct (sent_votes c j p ev _ packets j x r Hd Hin) as [_ [targets' [= _ ->]]]. by left. }
    assert (Huniq : ∀ req', stands q' req' → req' = req) by (intros req' (? & ? & ?); congruence).
    split.
    + intros x r [->|?]%Hnet; lia.
    + intros req' ->%Huniq. lia.
    + intros req' x r ->%Huniq [->|?]%Hnet ?; [done|lia].
    + intros req' ->%Huniq _ _. done.
Qed.

Lemma candidates_ok c s i p :
  execution (c :: s) → Z.of_nat (length (c :: s)) ≤ B → processes c !! i = Some p → candidate_ok c i p.
Proof.
  revert c p. induction s as [|c1 s IH]; intros c p Hex Hlen Hp.
  - inversion Hex as [sms ? (Hnet & _ & _ & Hi)|]; subst. rewrite Hi in Hp. apply fmap_Some in Hp as (cfg & _ & ->).
    assert (Hno : ∀ req, ¬ stands (RunMain (sms i) cfg ∅ ∅) req) by (by intros req (? & ? & ?)).
    split; try (by intros req ? ? []%Hno); try (by intros req []%Hno).
    intros x r. rewrite Hnet. by intros ?%elem_of_nil.
  - inversion Hex as [|? ? ? Hex' Hstep]; subst.
    assert (Hlen' : Z.of_nat (length (c1 :: s)) ≤ B) by (simpl in *; lia).
    destruct (at_inv c1 s Hex' Hlen' c1 ltac:(left)) as [I1 E1].
    destruct (step_evolution _ _ _ _ _ Hstep Hp) as (p1 & Hp1 & _).
    by eapply (candidate_step c1 c i p1 p); try done; eapply IH.
Qed.

(** ** Entries stored by a majority *)

(** In [c] node [v] is in term [t] and has saved an entry of term [t] at [k]. *)
Definition stored_by (c : Cluster) (v : nat) (t k : Z) : Prop :=
  ∃ p, processes c !! v = Some p ∧ term (node p) = t ∧ has (λ j, raft_log (node p) !! j) k t.

Definition acked (tr : list Cluster) (v : nat) (t k : Z) : Prop := ∃ c, c ∈ tr ∧ stored_by c v t k.

(** A majority has stored the entry in its term. *)
Definition chosen (tr : list Cluster) (t k : Z) : Prop :=
  ∃ Q : gset nat, (length configs < 2 * size Q)%nat ∧ ∀ v, v ∈ Q → acked tr v t k.

Lemma last_saved n :
  node_ok B n →
  if decide (log_size (raft_log n) = 0) then GetLastSavedLogTerm n = 0
  else has (λ k, raft_log n !! k) (log_size (raft_log n)) (GetLastSavedLogTerm n).
Proof.
  intros Hok. unfold GetLastSavedLogTerm, log_size, has.
  destruct (kv_Last (raft_log n)) as [[k e]|] eqn:Hl; [|done]. apply kv_Last_Some in Hl as [Hk _].
  assert (1 ≤ k) by (apply (ok_contiguous _ _ Hok); eauto). rewrite decide_False by lia. eauto.
Qed.

Section chosen.
Context (c : Cluster) (s : list Cluster) (t k : Z).
Abbreviation tr := (c :: s).
Hypothesis Hex : execution tr.
Hypothesis Hlen : Z.of_nat (length tr) ≤ B.

(** Every leader of term [T] has the entry. *)
Definition complete (T : Z) : Prop :=
  ∀ i p, leads_at tr i p → term (node p) = T → has (full_log (node p)) k t.

(** A node that has stored the entry keeps it until the term [T] has a leader. *)
Lemma retained T s2 c0 s0 v p :
  (∀ T', t < T' < T → complete T') → tr = s2 ++ c0 :: s0 →
  (∀ j, (T, j) ∉ leaders (history c0)) → acked (c0 :: s0) v t k →
  processes c0 !! v = Some p → term (node p) ≤ T → has (λ j, raft_log (node p) !! j) k t.
Proof.
  intros Hcomp. revert c0 s2 p. induction s0 as [|c1 s0 IH]; intros c0 s2 p Htr Hunused Hack Hp Hterm.
  - destruct Hack as (ca & ->%list_elem_of_singleton & pa & Hpa & _ & Hhas). by simplify_eq.
  - assert (Hex0 : execution (c0 :: c1 :: s0)) by (rewrite Htr in Hex; by eapply execution_suffix).
    assert (Hlen0 : Z.of_nat (length (c0 :: c1 :: s0)) ≤ B) by (rewrite Htr, length_app in Hlen; lia).
    inversion Hex0 as [|? ? ? Hex1 Hstep]; subst.
    assert (Hlen1 : Z.of_nat (length (c1 :: s0)) ≤ B) by (simpl in *; lia).
    destruct (at_inv c1 s0 Hex1 Hlen1 c1 ltac:(left)) as [I1 E1].
    destruct Hack as (ca & Hin & pa & Hpa & Hta & Hhas).
    apply elem_of_cons in Hin as [->|Hin]; [by simplify_eq|].
    destruct (step_evolution _ _ _ _ _ Hstep Hp) as (p1 & Hp1 & Hevo).
    pose proof (step_term _ configs c1 c0 E1 v p1 p Hp1 Hevo) as Hle.
    destruct (IH c1 (s2 ++ [c0]) p1) as (e & He & Het); [by rewrite <-app_assoc| | |done|lia|].
    { intros j Hj. destruct (Hunused j). by eapply step_leaders. }
    { exists ca. split; [done|]. by exists pa. }
    destruct (step_log c1 c0 v p1 p I1 E1 Hp1 Hevo) as [Hsub|(caller & req & Hw & Hacc)].
    { exists e. split; [|done]. by eapply lookup_weaken. }
    destruct (terms_grow _ Equals_sound configs B HB c1 s0 Hex1 Hlen1 ca v pa Hin Hpa) as (p1' & Hp1' & Hta').
    rewrite Hp1 in Hp1'. injection Hp1' as <-.
    pose proof (ac_term _ _ _ Hacc). pose proof (ac_term' _ _ _ Hacc) as Ht'.
    unfold has. rewrite (ac_log _ _ _ Hacc). case_decide as Hkept; [eauto|].
    destruct (decide (ae_term req = t)) as [Heq|Hne].
    + exists e. split; [|done]. eapply (waits_covers c1 s0 Hex1 Hlen1 caller v req p1); [done|done|lia| |congruence|lia].
      apply raft_log_view; [|done]. by eapply (at_ok c1 s0 Hex1 Hlen1 c1); [left|].
    + destruct (waits_origin _ Equals_sound configs B HB c1 s0 caller v req Hex1 Hlen1 Hw) as (_ & p0 & Hl0 & Hof).
      assert (Hnew : ae_term req ≠ T).
      { intros E. destruct (Hunused caller). eapply step_leaders; [done|]. rewrite <-E. by eapply waits_leader. }
      pose proof (ro_term _ _ _ Hof) as Hterm0.
      destruct (Hcomp (ae_term req) ltac:(lia) caller p0) as (e0 & He0 & Het0); [|done|].
      { rewrite Htr. destruct Hl0 as (cl & Hin0 & ?). exists cl. split; [|done]. apply elem_of_app. right. by right. }
      exists e0. split; [|done]. eapply request_entry_full; [done|done| |lia].
      eapply full_log_bounds; [|done]. by eapply (leads_inv c1 s0 Hex1 Hlen1).
Qed.

Lemma suffix_ok s2 c0 s0 :
  tr = s2 ++ c0 :: s0 →
  execution (c0 :: s0) ∧ Z.of_nat (length (c0 :: s0)) ≤ B ∧ ∀ j x, leads_at (c0 :: s0) j x → leads_at tr j x.
Proof.
  intros Htr. split_and!.
  - rewrite Htr in Hex. by eapply execution_suffix.
  - rewrite Htr, length_app in Hlen. lia.
  - intros j x (cl & Hin & ?). rewrite Htr. exists cl. split; [|done]. apply elem_of_app. by right.
Qed.

(** A log with an entry of a later term that is complete has the entry. *)
Lemma later_entry_has s2 c1 s1 f j T' :
  tr = s2 ++ c1 :: s1 → chain (created (history c1)) f → complete T' → t < T' →
  has f j T' → has f k t.
Proof.
  intros Htr Hch Hcomp Hlt (e & He & Het). destruct (suffix_ok s2 c1 s1 Htr) as (Hex1 & Hlen1 & Hsub).
  destruct (Hch _ _ He) as (pt & Hcr & _). rewrite Het in Hcr.
  destruct (created_origin _ Equals_sound configs B HB c1 s1 T' j e pt Hex1 Hlen1 Hcr) as (_ & i & x & Hl & Htx & Hfx).
  destruct (leads_inv c1 s1 Hex1 Hlen1 i x Hl) as (Hokx & Hchx & _).
  pose proof (Hcomp i x (Hsub i x Hl) Htx) as Hhas. pose proof Hhas as (e' & He' & Het').
  pose proof (full_log_bounds _ _ _ Hokx Hfx). pose proof (full_log_bounds _ _ _ Hokx He').
  destruct (decide (k ≤ j)) as [Hle|Hgt].
  - exists e'. split; [|done]. by rewrite (chains_agree _ _ _ j e e Hch Hchx He Hfx eq_refl k ltac:(lia)).
  - pose proof (chain_terms _ _ j k T' t (created_parent c1 s1 Hex1 Hlen1) Hchx ltac:(by exists e) Hhas ltac:(lia)). lia.
Qed.

(** A log with a later entry of the same term has the entry. *)
Lemma same_term_has s2 c1 s1 f j :
  tr = s2 ++ c1 :: s1 → chain (created (history c1)) f → is_Some (created (history c1) !! (t, k)) →
  has f j t → 1 ≤ k ≤ j → has f k t.
Proof.
  intros Htr Hch [x Hcr] (e & He & Het) Hk. destruct (suffix_ok s2 c1 s1 Htr) as (Hex1 & Hlen1 & _).
  destruct (Hch _ _ He) as (pt & Hcr' & _). rewrite Het in Hcr'.
  destruct (same_term_leader c1 s1 Hex1 Hlen1 t j k _ _ Hcr' Hcr) as (i & y & Hl & (e1 & He1 & Het1) & (e2 & He2 & Het2)).
  destruct (leads_inv c1 s1 Hex1 Hlen1 i y Hl) as (_ & Hchy & _). exists e2. split; [|done].
  by rewrite (chains_agree _ _ _ j e e1 Hch Hchy He He1 ltac:(congruence) k Hk).
Qed.

Lemma created_nonneg s2 c1 s1 : tr = s2 ++ c1 :: s1 → is_Some (created (history c1) !! (t, k)) → 0 ≤ t.
Proof.
  intros Htr [[e pt] Hcr]. destruct (suffix_ok s2 c1 s1 Htr) as (Hex1 & Hlen1 & _).
  destruct (created_origin _ Equals_sound configs B HB c1 s1 t k e pt Hex1 Hlen1 Hcr)
    as (_ & j & x & (cl & Hin & Hx & _) & <- & _).
  destruct (tail_execution c1 s1 cl Hex1 Hlen1 Hin) as (? & sl & _ & Hexl & Hlenl). by eapply (terms_nonneg cl sl).
Qed.

(** A candidate whose log is up to date has the entry, too. *)
Lemma up_to_date_has T s2 c1 s1 c0 i v p q req :
  (∀ T', t < T' < T → complete T') → tr = s2 ++ c1 :: s1 →
  processes c1 !! i = Some p → term (node p) = T → (∀ j, (T, j) ∉ leaders (history c1)) →
  c0 ∈ c1 :: s1 → processes c0 !! v = Some q → has (λ j, raft_log (node q) !! j) k t →
  up_to_date (node q) req → describes (node p) req → has (λ j, raft_log (node p) !! j) k t.
Proof.
  intros Hcomp Htr Hp Hterm Hunused Hin Hq (e & He & Het) Hup [D1 D2].
  destruct (suffix_ok s2 c1 s1 Htr) as (Hex1 & Hlen1 & _).
  pose proof (at_ok c1 s1 Hex1 Hlen1 c0 v q Hin Hq) as Hokq.
  pose proof (at_ok c1 s1 Hex1 Hlen1 c1 i p ltac:(left) Hp) as Hokp.
  pose proof (at_raft_chain c1 s1 Hex1 Hlen1 c0 v q Hin Hq) as Hchq.
  pose proof (at_raft_chain c1 s1 Hex1 Hlen1 c1 i p ltac:(left) Hp) as Hchp.
  assert (Hkq : 1 ≤ k ≤ log_size (raft_log (node q))) by (apply (ok_contiguous _ _ Hokq); eauto).
  pose proof (last_saved _ Hokq) as Hlastq. rewrite decide_False in Hlastq by lia.
  assert (Htq : t ≤ GetLastSavedLogTerm (node q)).
  { eapply (chain_terms _ _ k); [exact (created_parent c1 s1 Hex1 Hlen1)|exact Hchq|by exists e|done|lia]. }
  assert (Hcr : is_Some (created (history c1) !! (t, k))).
  { destruct (Hchq _ _ He) as (pt & Hcr & _). rewrite Het in Hcr. eauto. }
  pose proof (created_nonneg s2 c1 s1 Htr Hcr).
  pose proof (last_saved _ Hokp) as Hlastp. unfold up_to_date in Hup. rewrite D1, D2, !GetSavedLogSize_log in Hup.
  case_decide as Hz; [exfalso; lia|]. destruct Hlastp as (ep & Hep & Hept). simpl in Hep.
  destruct (decide (t < GetLastSavedLogTerm (node p))) as [Hlt|Hge].
  - (* the last entry of the candidate is newer *)
    destruct (Hchp _ _ Hep) as (pt & Hcrp & _). rewrite Hept in Hcrp.
    destruct (at_inv c1 s1 Hex1 Hlen1 c1 ltac:(left)) as [I1 _].
    destruct (li_created _ _ I1 _ _ _ Hcrp) as [j Hj].
    assert (entry_term ep ≤ term (node p)).
    { eapply (view_terms c1 s1 Hex1 Hlen1 c1 i p); [left|done|]. by apply raft_log_view. }
    assert (GetLastSavedLogTerm (node p) ≠ T) by (intros E; destruct (Hunused j); by rewrite <-E).
    eapply (later_entry_has s2 c1 s1); [done|done|apply Hcomp|exact Hlt|by exists ep]. lia.
  - (* it is as new, and the log as long *)
    assert (Heq : GetLastSavedLogTerm (node p) = t) by lia. rewrite Heq in Hept.
    eapply (same_term_has s2 c1 s1); [done|done|done|by exists ep|lia].
Qed.

(** The time a node was in term [t] is before the time it is in a later term. *)
Lemma acked_before s2 c0 s0 v p :
  tr = s2 ++ c0 :: s0 → processes c0 !! v = Some p → t < term (node p) → acked tr v t k → acked (c0 :: s0) v t k.
Proof.
  intros Htr Hp Hlt (ca & Hin & pa & Hpa & Hta & Hhas). rewrite Htr in Hin.
  apply elem_of_app in Hin as [Hin|Hin]; [exfalso|exists ca; split; [done|by exists pa]].
  apply list_elem_of_split in Hin as (a & b & ->). rewrite <-app_assoc in Htr. simpl in Htr.
  assert (Hexa : execution (ca :: b ++ c0 :: s0)) by (rewrite Htr in Hex; by eapply execution_suffix).
  assert (Hlena : Z.of_nat (length (ca :: b ++ c0 :: s0)) ≤ B) by (rewrite Htr, length_app in Hlen; lia).
  destruct (terms_grow _ Equals_sound configs B HB ca (b ++ c0 :: s0) Hexa Hlena c0 v p) as (pa' & Hpa' & Hle).
  - right. apply elem_of_app. right. left.
  - done.
  - simplify_eq. lia.
Qed.

(** One of the nodes that stored the entry voted for the leader. *)
Lemma voter_stored T c2 i p' :
  chosen tr t k → c2 ∈ tr → processes c2 !! i = Some p' → state (node p') = Leader → term (node p') = T →
  ∃ v, acked tr v t k ∧ (T, v, Z.of_nat i) ∈ ballots (history c2).
Proof.
  intros (Q & HQ & Hacked) Hin Hp' Hs' <-. destruct (at_inv c s Hex Hlen c2 Hin) as [_ E2].
  destruct (ei_leaders _ _ E2 _ _ (inv_leader _ _ E2 _ _ Hp' Hs')) as (Q' & HQ' & Hballots). simpl in Hballots.
  destruct (majorities_meet (length configs) Q Q') as (v & Hv & Hv'); [|done|done|eauto].
  intros j [Hj|Hj]%elem_of_union.
  - destruct (Hacked j Hj) as (ca & Hina & pa & Hpa & _). destruct (at_inv c s Hex Hlen ca Hina) as [_ Ea].
    by destruct (inv_process _ _ Ea _ _ Hpa).
  - destruct (ei_ballot _ _ E2 _ _ _ (Hballots j Hj)) as (u & Hu & _). by destruct (ei_view _ _ E2 _ _ Hu).
Qed.

(** The request a vote for a running election was cast for. *)
Lemma vote_request c1 s1 i p req1 caller v req c0 :
  execution (c1 :: s1) → Z.of_nat (length (c1 :: s1)) ≤ B → processes c1 !! i = Some p → stands p req1 →
  c0 ∈ c1 :: s1 → PVote caller v req ∈ network c0 → rv_candidate_id req = Z.of_nat i →
  rv_term req = rv_term req1 → req = req1.
Proof.
  intros Hex1 Hlen1 Hp Hst Hin Hnet Hcid Hrt. destruct (at_inv c1 s1 Hex1 Hlen1 c1 ltac:(left)) as [_ E1].
  assert (Hnet1 : PVote caller v req ∈ network c1).
  { eapply (execution_mono _ Equals_sound configs B HB (λ c, PVote caller v req ∈ network c) c1 s1 c0); try done.
    intros ca cb _ _ _ _. apply step_network. }
  assert (rv_candidate_id req = Z.of_nat caller).
  { eapply (ei_asked _ _ E1 caller v (rv_term req)). simpl. apply list_elem_of_omap. by exists (PVote caller v req). }
  assert (caller = i) as -> by lia. by eapply (ca_unique _ _ _ (candidates_ok c1 s1 i p Hex1 Hlen1 Hp)).
Qed.

(** A new leader has the entry. *)
Lemma elected_has T s2 c1 s1 c2 i p p' :
  (∀ T', t < T' < T → complete T') → chosen tr t k → t < T →
  tr = s2 ++ c2 :: c1 :: s1 → processes c1 !! i = Some p → processes c2 !! i = Some p' →
  state (node p) = Candidate → state (node p') = Leader → term (node p') = T → term (node p) = T →
  (∃ req, stands p req ∧ rv_term req = T) → (∀ j, (T, j) ∉ leaders (history c1)) →
  has (λ j, raft_log (node p) !! j) k t.
Proof.
  intros Hcomp Hch HtT Htr Hp Hp' Hcand Hs' Ht' Ht (req1 & Hst & Hrt) Hunused.
  assert (Htr1 : tr = (s2 ++ [c2]) ++ c1 :: s1) by (by rewrite <-app_assoc).
  destruct (suffix_ok _ _ _ Htr) as (Hex2 & Hlen2 & _). destruct (suffix_ok _ _ _ Htr1) as (Hex1 & Hlen1 & _).
  destruct (at_inv c1 s1 Hex1 Hlen1 c1 ltac:(left)) as [I1 E1].
  assert (Hstep : timely_step c1 c2) by (by inversion Hex2).
  destruct (voter_stored T c2 i p' Hch) as (v & Hack & Hb); [rewrite Htr; apply elem_of_app; right; left|done..|].
  (* the vote of the candidate itself, or one that was cast before *)
  destruct (decide (v = i)) as [->|Hne].
  { eapply (retained T (s2 ++ [c2]) c1 s1 i p); [done|done|done| |done|lia].
    eapply (acked_before (s2 ++ [c2]) c1 s1 i p); [done|done|lia|done]. }
  assert (Hb1 : (T, v, Z.of_nat i) ∈ ballots (history c1)).
  { destruct (step_ballots c1 c2 _ v _ Hstep Hb) as [?|(q & q' & ev & out & packets & Hq & Hq' & _ & _ & Htq & Hvq)]; [done|].
    destruct (step_one c1 c2 i v p p' q q') as [->| ->]; try done; [congruence|].
    rewrite <-Htq. apply (ei_vote_recorded _ _ E1 v (view_of q)); [|done]. simpl. by rewrite lookup_fmap, Hq. }
  destruct (ballot_origin c1 s1 _ v _ Hex1 Hlen1 Hb1)
    as [?|(s3 & c0 & s0 & q & caller & req & Heq & Hq & Htq & Hup & Hnet & Hrt' & Hcid)]; [lia|].
  assert (Htr0 : tr = (s2 ++ [c2] ++ s3) ++ c0 :: s0) by (rewrite Htr1, Heq, <-!app_assoc; done).
  assert (Hin0 : c0 ∈ c1 :: s1) by (rewrite Heq; apply elem_of_app; right; left).
  assert (Hhas : has (λ j, raft_log (node q) !! j) k t).
  { eapply (retained T _ c0 s0 v q Hcomp Htr0); [| |done|lia].
    - intros j Hj. destruct (Hunused j). by eapply (leaders_stay _ Equals_sound configs B HB c1 s1).
    - eapply (acked_before _ c0 s0 v q Htr0); [done|lia|done]. }
  assert (req = req1) as -> by (eapply (vote_request c1 s1 i p req1 caller v req c0); (done || congruence)).
  eapply (up_to_date_has T (s2 ++ [c2]) c1 s1 c0 i v p q req1); try done.
  apply (ca_log _ _ _ (candidates_ok c1 s1 i p Hex1 Hlen1 Hp)); [done|done|congruence].
Qed.

(** Leader completeness. *)
Lemma leader_completeness T : chosen tr t k → t < T → complete T.
Proof.
  intros Hch HtT. remember (Z.to_nat (T - t)) as d eqn:Hd. revert T HtT Hd.
  induction d as [d IH] using lt_wf_ind. intros T HtT Hd.
  assert (Hcomp : ∀ T', t < T' < T → complete T').
  { intros T' HT'. eapply (IH (Z.to_nat (T' - t))); lia. }
  intros i p (c0 & (s2 & s0 & Htr)%list_elem_of_split & Hp & Hs) Hterm. revert c0 s2 p Htr Hp Hs Hterm.
  induction s0 as [|c1 s0 IHs]; intros c0 s2 p Htr Hp Hs Hterm.
  { assert (Hex0 : execution [c0]) by (rewrite Htr in Hex; by eapply execution_suffix).
    inversion Hex0 as [sms ? (_ & _ & _ & Hi)|]; subst. rewrite Hi in Hp. by apply fmap_Some in Hp as (cfg & _ & ->). }
  assert (Hex0 : execution (c0 :: c1 :: s0)) by (rewrite Htr in Hex; by eapply execution_suffix).
  assert (Hlen0 : Z.of_nat (length (c0 :: c1 :: s0)) ≤ B) by (rewrite Htr, length_app in Hlen; lia).
  inversion Hex0 as [|? ? ? Hex1 Hstep]; subst c' c2 s1.
  assert (Hlen1 : Z.of_nat (length (c1 :: s0)) ≤ B) by (simpl in *; lia).
  destruct (at_inv c0 (c1 :: s0) Hex0 Hlen0 c0 ltac:(left)) as [I0 E0].
  destruct (at_inv c1 s0 Hex1 Hlen1 c1 ltac:(left)) as [I1 E1].
  destruct (step_evolution _ _ _ _ _ Hstep Hp) as (p1 & Hp1 & Hevo).
  destruct (step_leader _ configs B HB c1 c0 I1 E1 E0 Hstep i p1 p Hp1 Hevo Hs)
    as [(Hs1 & Ht1 & Hsz & Hf)|(Hcand & Ht1 & Hb & Hst & Hno)].
  - destruct (IHs c1 (s2 ++ [c0]) p1) as (e & He & Het); [by rewrite <-app_assoc|done|done|congruence|].
    exists e. split; [|done]. rewrite Hf; [done|].
    eapply full_log_bounds; [|done]. by eapply (at_ok c1 s0 Hex1 Hlen1 c1); [left|].
  - destruct (elected_has T s2 c1 s0 c0 i p1 p) as (e & He & Het); try done; try congruence.
    { destruct Hst as (req & ? & ?). exists req. split; congruence. }
    { intros j. rewrite <-Hterm, Ht1. apply Hno. }
    exists e. split; [|done]. apply BecomeLeader_shape in Hb as (_ & _ & _ & _ & Hl & _).
    unfold full_log, extended. rewrite Hl.
    assert (1 ≤ k ≤ log_size (raft_log (node p1)))
      by (apply (ok_contiguous _ _ (at_ok c1 s0 Hex1 Hlen1 c1 i p1 ltac:(left) Hp1)); eauto).
    by rewrite decide_True by lia.
Qed.
End chosen.
End completeness.

(** [C6] Leader completeness, over a network that delivers an [AppendEntries]
    only while its sender waits: if each node of a majority has, at some time of
    the execution while it was in term [t], saved an entry of term [t] at
    position [k], then every leader of a later term has an entry of term [t]
    at position [k] (by log matching, the same entry after the same prefix). *)
Theorem timely_leader_completeness {AM : AnyMessage} {SM : IStateMachine}
    (Equals : LogEntry → LogEntry → bool) (configs : list RaftConfig) (tr : list Cluster)
    (Equals_sound : ∀ a b, Equals a b = true → a = b)
    (Hex : execution Equals configs tr) (Hsmall : small (Z.of_nat (length tr)))
    (t k : Z) (Q : gset nat) (Hmajority : (length configs < 2 * size Q)%nat)
    (Hstored : ∀ v, v ∈ Q → ∃ c, c ∈ tr ∧ stored_by c v t k)
    (c : Cluster) (Hc : c ∈ tr) (i : nat) (p : Process) (Hp : processes c !! i = Some p)
    (Hleader : state (node p) = Leader) (Hlater : t < term (node p)) :
  has (full_log (node p)) k t.
Proof.
  destruct tr as [|c0 s]; [by apply elem_of_nil in Hc|].
  eapply (leader_completeness Equals Equals_sound configs _ Hsmall c0 s t k Hex);
    [lia|by exists Q|exact Hlater|by exists c|done].
Qed.
