(* ===== verification/RaftCommit.v ===== *)
(** * Committed entries over a timely network

    What a leader counts as replicated is stored, so an entry that is committed
    is stored by a majority in the term of the leader that commits it. With
    leader completeness two nodes never commit different entries at one
    position, at whatever times of the execution. *)

From S2P Require Import Prelude.
From S2P Require Import Result.
From S2P Require Import RtTypes.
From S2P Require Import KVInterface.
From S2P Require Import Logs.
From S2P Require Import StateMachine.
From S2P Require Import Election.
From S2P Require Import RaftNode.
From S2P Require Import RaftProcess.
From S2P Require Import RaftNodeProps.
From S2P Require Import RaftCluster.
From S2P Require Import RaftElection.
From S2P Require Import RaftInvariant.
From S2P Require Import RaftProcessOk.
From S2P Require Import RaftLogMatching.
From S2P Require Import RaftLogSafety.
From S2P Require Import RaftEffects.
From S2P Require Import RaftTimely.
From S2P Require Import RaftCompleteness.

Local Open Scope Z_scope.

Section commit.
Context {AM : AnyMessage} {SM : IStateMachine}.
Variable MessageDifferencer_Equals : LogEntry → LogEntry → bool.
Hypothesis Equals_sound : ∀ a b, MessageDifferencer_Equals a b = true → a = b.
Context (configs : list RaftConfig) (B : Z).
Hypothesis HB : small B.

Abbreviation execution := (execution MessageDifferencer_Equals configs).
Abbreviation timely_step := (timely_step MessageDifferencer_Equals).
Abbreviation evolution := (evolution MessageDifferencer_Equals).
Abbreviation at_inv := (at_inv MessageDifferencer_Equals Equals_sound configs B HB).
Abbreviation at_ok := (at_ok MessageDifferencer_Equals Equals_sound configs B HB).
Abbreviation leads_inv := (leads_inv MessageDifferencer_Equals Equals_sound configs B HB).
Abbreviation waits_origin := (waits_origin MessageDifferencer_Equals Equals_sound configs B HB).
Abbreviation chosen := (chosen configs).

Lemma acked_cons c tr v t k : acked tr v t k → acked (c :: tr) v t k.
Proof. intros (c0 & ? & ?). exists c0. split; [by right|done]. Qed.

Lemma chosen_cons c tr t k : chosen tr t k → chosen (c :: tr) t k.
Proof. intros (Q & ? & Hq). exists Q. split; [done|]. intros v Hv. by apply acked_cons, Hq. Qed.

(** ** Replies *)

(** After an accepted request the receiver has the log of the sender. *)
Lemma accepted_log cr p req p' n v :
  node_ok B n → node_ok B (node p') → chain cr (full_log n) → chain cr (λ k, raft_log (node p') !! k) →
  request_of n v req → accepts p req p' →
  ∀ k, 1 ≤ k ≤ full_size n → raft_log (node p') !! k = full_log n k.
Proof.
  intros Hokn Hok' Hcn Hc' Hof Hacc k Hk. pose proof (ro_size _ _ _ Hof) as Hsz. fold (request_end req) in Hsz.
  pose proof (ac_prev _ _ _ Hacc) as Hprev.
  assert (Hend : ∃ e e', raft_log (node p') !! full_size n = Some e ∧ full_log n (full_size n) = Some e' ∧
    entry_term e = entry_term e').
  { rewrite <-Hsz. assert (Hpe : ae_prev_log_index req ≤ request_end req) by (unfold request_end; lia).
    destruct (decide (ae_prev_log_index req = request_end req)) as [Heq|Hne].
    - rewrite <-Heq. destruct (ac_match _ _ _ Hacc) as (e & He & Het); [lia|].
      pose proof (ro_prev_term _ _ _ Hof) as Hpt.  rewrite decide_False in Hpt by lia.
      destruct Hpt as (e' & He' & Het'). exists e, e'. rewrite (ac_log _ _ _ Hacc), decide_True by lia.
      split_and!; [done| |congruence].
      assert (1 ≤ ae_prev_log_index req ≤ log_size (raft_log n)) by (apply (ok_contiguous _ _ Hokn); eauto).
      unfold full_log, extended. by rewrite decide_True by lia.
    - assert (Hreq : ∃ e, raft_log (node p') !! request_end req = Some e ∧ request_entry req (request_end req) = Some e).
      { rewrite (ac_log _ _ _ Hacc). case_decide.
        - destruct (ac_checked _ _ _ Hacc (request_end req)) as (e & He & He'); [lia|]. eauto.
        - assert (is_Some (request_entry req (request_end req))) as [e He]; [|eauto].
          apply lookup_lt_is_Some. unfold request_end in *. lia. }
      destruct Hreq as (e & He & He'). exists e, e. split_and!; [done| |done].
      eapply request_entry_inv; [done|lia|done]. }
  destruct Hend as (e & e' & He & He' & Het).
  exact (chains_agree _ _ _ _ _ _ Hc' Hcn He He' Het k Hk).
Qed.

(** The entries of a request of its own term. *)
Definition acknowledged (tr : list Cluster) (i v : nat) (req : AppendEntriesRequest) : Prop :=
  ∃ p, leads_at tr i p ∧ request_of (node p) v req ∧
    ∀ k, has (full_log (node p)) k (ae_term req) → acked tr v (ae_term req) k.

Lemma acknowledged_cons c tr i v req : acknowledged tr i v req → acknowledged (c :: tr) i v req.
Proof.
  intros (p & Hl & Hof & Hk). exists p. split_and!; [by apply leads_at_cons|done|].
  intros k Hhas. by apply acked_cons, Hk.
Qed.

Lemma sent_replies c i p ev out packets j v req res :
  delivers c i p ev out packets → PAppendReply j v req res ∈ packets →
  v = i ∧ ev = HandleAppendEntries req ∧ out = ReplyAppendEntries res ∧ waits c j v req ∧ PAppend j v req ∈ network c.
Proof.
  assert (Hsent : PAppendReply j v req res ∉ sent i out).
  { intros Hin. destruct out; simpl in Hin; try (by apply elem_of_nil in Hin).
    - by apply list_elem_of_fmap in Hin as (y & ? & _).
    - by apply list_elem_of_singleton in Hin. }
  intros Hd Hin. destruct ev as [| |target [result|]| | | |target [result|]| | | |request|request]; simpl in Hd;
    try (subst packets; done).
  - destruct Hd as (? & _ & _ & ->). by apply elem_of_nil in Hin.
  - destruct Hd as (? & _ & _ & ->). by apply elem_of_nil in Hin.
  - destruct Hd as (? & ? & ? & ? & -> & ->). apply list_elem_of_singleton in Hin. by simplify_eq.
  - destruct Hd as (? & ? & _ & _ & ->). by apply list_elem_of_singleton in Hin.
Qed.

Lemma replies_acknowledge c s i v req res :
  execution (c :: s) → Z.of_nat (length (c :: s)) ≤ B →
  PAppendReply i v req res ∈ network c → aer_success res = true → acknowledged (c :: s) i v req.
Proof.
  revert c. induction s as [|c1 s IH]; intros c Hex Hlen Hin Hsucc.
  - inversion Hex as [sms ? (Hnet & _)|]; subst. rewrite Hnet in Hin. by apply elem_of_nil in Hin.
  - inversion Hex as [|? ? ? Hex' Hstep]; subst.
    assert (Hlen' : Z.of_nat (length (c1 :: s)) ≤ B) by (simpl in *; lia).
    assert (Hold : PAppendReply i v req res ∈ network c1 → acknowledged (c :: c1 :: s) i v req).
    { intros H. by apply acknowledged_cons, IH. }
    destruct (at_inv c1 s Hex' Hlen' c1 ltac:(left)) as [I1 E1].
    pose proof Hstep as Hstep0. destruct Hstep as [j p ev out p' packets Hp Hrun Hd|j p sm Hp]; [|by apply Hold].
    simpl in Hin. apply elem_of_app in Hin as [Hin|Hin]; [|by apply Hold].
    destruct (sent_replies _ _ _ _ _ _ _ _ _ _ Hd Hin) as (-> & -> & -> & Hw & Hpk).
    set (c := update j (HandleAppendEntries req) p p' packets c1) in *.
    destruct (waits_origin c1 s i j req Hex' Hlen' Hw) as (_ & p0 & Hl0 & Hof).
    assert (Hp' : processes c !! j = Some p') by (simpl; by rewrite lookup_insert_eq).
    assert (Hacc : accepts p req p').
    { destruct (li_packet _ _ I1 _ _ _ Hpk) as [Hb _]. unfold runs in Hrun. simpl in Hrun. injection Hrun as Hrun.
      apply bind_Done in Hrun as ([r n1] & [_ Ho]%AppendEntries_inv & [= -> Hp1]).
      destruct Ho as [|? _ _ _|n1 n2 Hle Hf Hm Hst]; [done|done|].
      eapply (stores_accepts _ Equals_sound B HB p req n1); try done; [|by rewrite <-Hp1].
      by eapply (at_ok c1 s Hex' Hlen' c1); [left|]. }
    exists p0. split_and!; [by apply leads_at_cons|done|]. intros k (e & He & Het).
    assert (Hl0' : leads_at (c :: c1 :: s) i p0) by (by apply leads_at_cons).
    destruct (leads_inv c (c1 :: s) Hex Hlen i p0 Hl0') as (Hok0 & Hch0 & _).
    exists c. split; [left|]. exists p'. split_and!; [done|apply (ac_term' _ _ _ Hacc)|]. exists e. split; [|done].
    rewrite (accepted_log (created (history c)) p req p' (node p0) j); try done.
    + by eapply (at_ok c (c1 :: s) Hex Hlen c); [left|].
    + by eapply (at_raft_chain _ Equals_sound configs B HB c (c1 :: s) Hex Hlen c); [left|].
    + by eapply full_log_bounds.
Qed.

(** ** The counters of a leader *)

Record counters_ok (tr : list Cluster) (p : Process) : Prop := {
  (** the requests a leader waits for are of its term *)
  ct_calls : ∀ v req, calls p v req → ae_term req = term (node p);
  (** the entries from [current_term_start_index] on are of its term *)
  ct_start : ∀ k e, full_log (node p) k = Some e → current_term_start_index (node p) ≤ k → entry_term e = term (node p);
  (** what is counted is stored *)
  ct_match : ∀ v m, match_index (node p) !! v = Some m →
    m ≤ full_size (node p) ∧
    ∀ k, has (full_log (node p)) k (term (node p)) → k ≤ m → acked tr v (term (node p)) k;
}.

(** The log of a leader at the end of a step. *)
Lemma leader_entries c c' i p p' k e :
  log_inv B c → election_inv configs c → processes c !! i = Some p → evolution c c' i p p' →
  state (node p) = Leader → state (node p') = Leader → full_log (node p') k = Some e →
  full_log (node p) k = Some e ∨ entry_term e = term (node p).
Proof.
  intros Hinv Helect Hp Hevo Hs Hs' He.
  destruct (step_view _ Equals_sound configs B HB c c' i p p' k e Hinv Helect Hp Hevo)
    as [Hold|[(_ & _ & ?)|(? & req & _ & Hacc & _)]].
  - unfold log_view. by rewrite decide_True.
  - left. unfold log_view in Hold. by rewrite decide_True in Hold.
  - by right.
  - pose proof (ac_state' _ _ _ Hacc). congruence.
Qed.

Section step.
Context (c c1 : Cluster) (s : list Cluster) (i : nat) (p p' : Process).
Hypothesis Hex : execution (c :: c1 :: s).
Hypothesis Hlen : Z.of_nat (length (c :: c1 :: s)) ≤ B.
Hypothesis Hp : processes c1 !! i = Some p.
Hypothesis Hp' : processes c !! i = Some p'.
Hypothesis Hevo : evolution c1 c i p p'.
Hypothesis Hs' : state (node p') = Leader.

Lemma inv1 : log_inv B c1 ∧ election_inv configs c1.
Proof. apply (at_inv c (c1 :: s) Hex Hlen). right. left. Qed.

Lemma ok1 : node_ok B (node p).
Proof. eapply (at_ok c (c1 :: s) Hex Hlen c1); [right; left|done]. Qed.

Lemma ok' : node_ok B (node p').
Proof. eapply (at_ok c (c1 :: s) Hex Hlen c); [left|done]. Qed.

Lemma leads' : leads_at (c :: c1 :: s) i p'.
Proof. exists c. split; [left|done]. Qed.

Lemma new_leader_counters :
  BecomeLeader (node p) = Done (node p') → (∃ req, stands p req) → counters_ok (c :: c1 :: s) p'.
Proof.
  intros Hb (req & votes & w & Hf). destruct inv1 as [I1 E1]. pose proof ok1 as Hok. pose proof ok' as Hok'.
  pose proof (BecomeLeader_shape _ _ Hb) as (_ & _ & _ & _ & Hl & _ & _ & Hpl & _ & _ & Hst & _ & Hm).
  assert (Hsz : full_size (node p') = log_size (raft_log (node p))).
  { unfold full_size. rewrite Hl, Hpl. simpl. lia. }
  pose proof (contiguous_size _ (ok_contiguous _ _ Hok)). pose proof (ok_bound _ _ Hok).
  rewrite GetSavedLogSize_log, add64_small in Hst by word. split.
  - intros v r Hc. destruct Hevo as [->|ev out packets Hrun Hd _|sm ->]; [|..|done].
    + destruct Hc as (? & ? & ? & _). congruence.
    + destruct (process_step_fiber _ _ _ _ _ Hrun) as [_ Hc' _|? ? ? ? _ Hf' _ _ _].
      2: { destruct Hc as (? & ? & ? & _). congruence. }
      destruct (Hc' v r Hc) as [(? & ? & ? & _)| ->]; [congruence|].
      destruct (call_append_inv MessageDifferencer_Equals B ev p v r p') as [_ Hr]; [done| |done|apply (ro_term _ _ _ Hr)].
      by destruct (li_process _ _ I1 _ _ Hp).
  - intros k e He Hk. pose proof (full_log_bounds _ _ _ _ Hok' He). lia.
  - intros v m Hv. rewrite Hm in Hv. apply lookup_replicate in Hv as [-> _]. split; [lia|].
    intros k (e & He & _) Hk. pose proof (full_log_bounds _ _ _ _ Hok' He). lia.
Qed.

(** A leader that stays. *)
Section stays.
Hypothesis Hs : state (node p) = Leader.
Hypothesis Hterm : term (node p') = term (node p).
Hypothesis Hsize : full_size (node p) ≤ full_size (node p').
Hypothesis Hprefix : ∀ k, k ≤ full_size (node p) → full_log (node p') k = full_log (node p) k.
Hypothesis Hct : counters_ok (c1 :: s) p.

(** A counter that does not change. *)
Lemma kept_counter v m :
  match_index (node p) !! v = Some m →
  m ≤ full_size (node p') ∧
  ∀ k, has (full_log (node p')) k (term (node p')) → k ≤ m → acked (c :: c1 :: s) v (term (node p')) k.
Proof.
  intros Hv. destruct (ct_match _ _ Hct v m Hv) as [Hm Hk]. split; [lia|].
  intros k (e & He & Het) Hle. rewrite Hterm in *. apply acked_cons, Hk; [|done].
  exists e. by rewrite <-Hprefix by lia.
Qed.

(** The entries the leader itself has saved. *)
Lemma saved_counter :
  log_size (raft_log (node p')) ≤ full_size (node p') ∧
  ∀ k, has (full_log (node p')) k (term (node p')) → k ≤ log_size (raft_log (node p')) →
  acked (c :: c1 :: s) i (term (node p')) k.
Proof.
  split; [unfold full_size; lia|]. intros k (e & He & Het) Hk. exists c. split; [left|].
  exists p'. split_and!; [done|done|]. exists e. split; [|done].
  unfold full_log, extended in He. by rewrite decide_True in He.
Qed.

(** The entries of an acknowledged request. *)
Lemma acknowledged_counter v req res :
  calls p v req → PAppendReply i v req res ∈ network c1 → aer_success res = true →
  request_end req ≤ full_size (node p') ∧
  ∀ k, has (full_log (node p')) k (term (node p')) → k ≤ request_end req →
  acked (c :: c1 :: s) v (term (node p')) k.
Proof.
  intros Hc Hin Hsucc.
  assert (Hex1 : execution (c1 :: s)) by (by inversion Hex).
  assert (Hlen1 : Z.of_nat (length (c1 :: s)) ≤ B) by (simpl in *; lia).
  destruct (replies_acknowledge c1 s i v req res Hex1 Hlen1 Hin Hsucc) as (p0 & Hl0 & Hof & Hk).
  pose proof (ct_calls _ _ Hct v req Hc) as Hreq. pose proof (ro_term _ _ _ Hof) as Ht0.
  destruct Hl0 as (c0 & Hin0 & Hp0 & Hs0).
  destruct (leader_extends _ Equals_sound configs B HB c (c1 :: s) Hex Hlen c0 i p0 p') as [Hsz Hf];
    [by right|done|done|done|done|congruence|].
  pose proof (ro_size _ _ _ Hof) as Hend. fold (request_end req) in Hend. split; [lia|].
  intros k (e & He & Het) Hle. rewrite Hterm, <-Hreq in *. apply acked_cons, Hk. exists e.
  by rewrite <-Hf by lia.
Qed.

Lemma stays_counters : counters_ok (c :: c1 :: s) p'.
Proof.
  destruct inv1 as [I1 E1]. destruct (li_process _ _ I1 _ _ Hp) as [Hok _].
  destruct (inv_process _ _ E1 _ _ Hp) as (_ & Hid & _).
  assert (Hkey : (∀ v req, calls p' v req → calls p v req ∨ ae_term req = term (node p')) ∧
    current_term_start_index (node p') = current_term_start_index (node p) ∧
    ∀ v m, match_index (node p') !! v = Some m →
      m ≤ full_size (node p') ∧
      ∀ k, has (full_log (node p')) k (term (node p')) → k ≤ m → acked (c :: c1 :: s) v (term (node p')) k).
  { destruct Hevo as [E|ev out packets Hrun Hd _|sm ->]; [| |done].
    { split_and!; [intros v req Hc; left; by rewrite <-E|by rewrite E|].
      intros v m Hv. apply kept_counter. by rewrite <-E. }
    split.
    { intros v req Hc. destruct (process_step_fiber _ _ _ _ _ Hrun) as [_ Hc' _|? ? ? ? _ Hf' _ _ _].
      2: { destruct Hc as (? & ? & ? & _). congruence. }
      destruct (Hc' v req Hc) as [?| ->]; [by left|right].
      destruct (call_append_inv MessageDifferencer_Equals B ev p v req p') as [_ Hr]; [done..|apply (ro_term _ _ _ Hr)]. }
    destruct (process_step_core _ B ev p out p' HB Hok Hrun)
      as [[_ _ _ Hl]|[_ _ _ _ ?]|_ _ _ _ ?|req _ _ _ _ _ _ _ Hl|Hb|[_ _ _ Hst Hm _] _
         |v res main ss req -> Hsucc Hf Hss [_ _ _ Hst Hm _] _|req n1 _ Hle Hf _ Hst]; try congruence.
    - destruct (Hl Hs') as (_ & -> & ->). split; [done|]. intros v m. apply kept_counter.
    - destruct (Hl Hs') as (_ & -> & ->). split; [done|]. intros v m. apply kept_counter.
    - apply BecomeLeader_shape in Hb as (? & _). congruence.
    - split; [done|]. rewrite Hm. intros v m [[<- [<- _]]|[_ Hv]]%list_lookup_insert_Some; [|by apply kept_counter].
      unfold self. rewrite Hid. apply saved_counter.
    - split; [done|]. rewrite Hm. destruct Hd as (req' & Hin & Hc & _).
      intros v' m [[<- [<- _]]|[_ Hv]]%list_lookup_insert_Some; [|by apply kept_counter].
      assert (Hc' : calls p v req) by (by exists main, ss). rewrite (calls_unique p v req' req) in Hin by done.
      by eapply acknowledged_counter.
    - destruct (stores_data _ _ _ _ _ Hle Hf Hst) as (_ & _ & ? & _). congruence. }
  destruct Hkey as (Hcalls & Hst & Hm). split; [|..|done].
  - intros v req [Hc|?]%Hcalls; [|done]. rewrite Hterm. by eapply ct_calls.
  - intros k e He Hk. rewrite Hterm. rewrite Hst in Hk.
    destruct (leader_entries c1 c i p p' k e I1 E1 Hp Hevo Hs Hs' He) as [Hold|?]; [|done]. by eapply (ct_start _ _ Hct k).
Qed.
End stays.
End step.

Lemma leader_counters c s i p :
  execution (c :: s) → Z.of_nat (length (c :: s)) ≤ B →
  processes c !! i = Some p → state (node p) = Leader → counters_ok (c :: s) p.
Proof.
  revert c p. induction s as [|c1 s IH]; intros c p Hex Hlen Hp Hs.
  - inversion Hex as [sms ? (_ & _ & _ & Hi)|]; subst. rewrite Hi in Hp. by apply fmap_Some in Hp as (cfg & _ & ->).
  - inversion Hex as [|? ? ? Hex1 Hstep]; subst.
    assert (Hlen1 : Z.of_nat (length (c1 :: s)) ≤ B) by (simpl in *; lia).
    destruct (at_inv c (c1 :: s) Hex Hlen c ltac:(left)) as [I0 E0].
    destruct (at_inv c1 s Hex1 Hlen1 c1 ltac:(left)) as [I1 E1].
    destruct (step_evolution _ _ _ _ _ Hstep Hp) as (p1 & Hp1 & Hevo).
    destruct (step_leader _ configs B HB c1 c I1 E1 E0 Hstep i p1 p Hp1 Hevo Hs)
      as [(Hs1 & Ht1 & Hsz & Hf)|(_ & _ & Hb & (req & Hst & _) & _)].
    + eapply (stays_counters c c1 s i p1 p); try done. by apply IH.
    + eapply (new_leader_counters c c1 s i p1 p); try done. eauto.
Qed.

(** ** The commit index *)

(** The nodes whose counter is at least [k]. *)
Lemma counted_nodes (k : Z) (l : list Z) :
  ∃ Q : gset nat, size Q = length (filter (λ m, k ≤ m) l) ∧
    ∀ v, v ∈ Q → ∃ m, l !! v = Some m ∧ k ≤ m.
Proof.
  induction l as [|x l (Q & HQ & Hin)] using rev_ind; [exists ∅; split; [done|set_solver]|].
  assert (Hold : ∀ v, v ∈ Q → ∃ m, (l ++ [x]) !! v = Some m ∧ k ≤ m).
  { intros v Hv. destruct (Hin v Hv) as (m & Hm & Hk). exists m. split; [|done].
    rewrite lookup_app_l; [done|]. by eapply lookup_lt_Some. }
  rewrite filter_app, length_app. unfold filter at 2. simpl. case_decide as Hx; simpl; [|exists Q; split; [lia|done]].
  exists ({[length l]} ∪ Q). split.
  - rewrite size_union, size_singleton; [lia|]. apply disjoint_singleton_l. intros Hv.
    destruct (Hin _ Hv) as (m & Hm & _). apply lookup_lt_Some in Hm. lia.
  - intros v [->%elem_of_singleton|Hv]%elem_of_union; [|by apply Hold].
    exists x. by rewrite list_lookup_middle.
Qed.

(** The first [k] entries of [f] are those of a leader that has an entry of its
    term stored by a majority at [k] or later. *)
Definition backed (tr : list Cluster) (f : Z → option LogEntry) (k : Z) : Prop :=
  k = 0 ∨ ∃ i p j, leads_at tr i p ∧ chosen tr (term (node p)) j ∧
    has (full_log (node p)) j (term (node p)) ∧ k ≤ j ∧ ∀ x, 1 ≤ x ≤ k → f x = full_log (node p) x.

Lemma backed_cons c tr f k : backed tr f k → backed (c :: tr) f k.
Proof.
  intros [->|(i & p & j & Hl & Hch & ?)]; [by left|right]. exists i, p, j.
  split; [by apply leads_at_cons|]. split; [by apply chosen_cons|done].
Qed.

Lemma backed_ext tr f g k k' :
  (∀ x, 1 ≤ x ≤ k' → g x = f x) → 0 ≤ k' ≤ k → backed tr f k → backed tr g k'.
Proof.
  intros Hext Hk Hb. destruct (decide (k' = 0)) as [|Hne]; [by left|].
  destruct Hb as [->|(i & p & j & Hl & Hch & Hhas & Hj & Hf)]; [lia|right]. exists i, p, j.
  split_and!; try done; [lia|]. intros x Hx. rewrite Hext by done. apply Hf. lia.
Qed.

(** A leader that commits by counting. *)
Lemma counted_backed c s i p :
  execution (c :: s) → Z.of_nat (length (c :: s)) ≤ B →
  processes c !! i = Some p → state (node p) = Leader →
  current_term_start_index (node p) ≤ commit_index (node p) ≤ log_size (raft_log (node p)) → 1 ≤ commit_index (node p) →
  (MajorityCount (node p) ≤ length (filter (λ m, (commit_index (node p) ≤ m)%Z) (match_index (node p))))%nat →
  backed (c :: s) (λ k, raft_log (node p) !! k) (commit_index (node p)).
Proof.
  intros Hex Hlen Hp Hs [Hst Hsz] Hpos Hmaj. set (k := commit_index (node p)) in *.
  pose proof (leader_counters c s i p Hex Hlen Hp Hs) as [_ Hstart Hmatch].
  destruct (at_inv c s Hex Hlen c ltac:(left)) as [_ Helect].
  destruct (inv_process _ _ Helect _ _ Hp) as (_ & _ & Hcount & _).
  pose proof (at_ok c s Hex Hlen c i p ltac:(left) Hp) as Hok.
  assert (Hlow : ∀ x, 1 ≤ x ≤ k → raft_log (node p) !! x = full_log (node p) x).
  { intros x Hx. unfold full_log, extended. by rewrite decide_True by lia. }
  assert (Hhas : has (full_log (node p)) k (term (node p))).
  { destruct (contiguous_lookup _ k (ok_contiguous _ _ Hok) ltac:(lia)) as [e He].
    rewrite Hlow in He by lia. exists e. split; [done|]. by eapply Hstart. }
  right. exists i, p, k. split_and!; [exists c; split; [left|done]| |done|lia|exact Hlow].
  destruct (counted_nodes k (match_index (node p))) as (Q & HQ & Hin). exists Q. split.
  - rewrite HQ. unfold MajorityCount in Hmaj. rewrite Hcount in Hmaj.
    pose proof (Nat.div_mod_eq (length configs) 2). pose proof (Nat.mod_upper_bound (length configs) 2). lia.
  - intros v Hv. destruct (Hin v Hv) as (m & Hm & Hk). by apply (Hmatch v m).
Qed.

Lemma counts_backed c c1 s i p p' v m :
  execution (c :: c1 :: s) → Z.of_nat (length (c :: c1 :: s)) ≤ B →
  processes c1 !! i = Some p → processes c !! i = Some p' →
  counts (node p) (node p') v m → commit_index (node p') ≠ commit_index (node p) →
  backed (c :: c1 :: s) (λ k, raft_log (node p') !! k) (commit_index (node p')).
Proof.
  intros Hex Hlen Hp Hp' [_ Hs' _ Hst _ [?|(Hlt & Hb & Hmaj)]] Hne; [done|].
  destruct (at_inv c (c1 :: s) Hex Hlen c ltac:(left)) as [_ E0].
  destruct (at_inv c (c1 :: s) Hex Hlen c1 ltac:(right; left)) as [_ E1].
  destruct (inv_process _ _ E0 _ _ Hp') as (_ & _ & Hc' & _). destruct (inv_process _ _ E1 _ _ Hp) as (_ & _ & Hc & _).
  pose proof (ok_commit _ _ (at_ok c (c1 :: s) Hex Hlen c1 i p ltac:(right; left) Hp)).
  eapply (counted_backed c (c1 :: s)); try done; [by rewrite Hst|lia|].
  unfold MajorityCount in *. rewrite Hc' in *. by rewrite Hc in Hmaj.
Qed.

(** A follower learns the commit index from a leader. *)
Lemma accepts_backed c c1 s i p p' caller req :
  execution (c :: c1 :: s) → Z.of_nat (length (c :: c1 :: s)) ≤ B →
  processes c !! i = Some p' → waits c1 caller i req → accepts p req p' →
  commit_index (node p') ≠ commit_index (node p) → 0 ≤ commit_index (node p) →
  (∀ c0 j q, c0 ∈ c1 :: s → processes c0 !! j = Some q →
     backed (c1 :: s) (λ k, raft_log (node q) !! k) (commit_index (node q))) →
  backed (c :: c1 :: s) (λ k, raft_log (node p') !! k) (commit_index (node p')).
Proof.
  intros Hex Hlen Hp' Hw Hacc Hne Hpos IH.
  assert (Hex1 : execution (c1 :: s)) by (by inversion Hex).
  assert (Hlen1 : Z.of_nat (length (c1 :: s)) ≤ B) by (simpl in *; lia).
  destruct (waits_origin c1 s caller i req Hex1 Hlen1 Hw) as (_ & p0 & Hl0 & Hof).
  destruct (leads_inv c (c1 :: s) Hex Hlen caller p0 ltac:(by apply leads_at_cons)) as (Hok0 & Hch0 & _).
  pose proof (at_ok c (c1 :: s) Hex Hlen c i p' ltac:(left) Hp') as Hok'.
  assert (Hlog : ∀ k, 1 ≤ k ≤ full_size (node p0) → raft_log (node p') !! k = full_log (node p0) k).
  { apply (accepted_log (created (history c)) p req p' (node p0) i); try done.
    by eapply (at_raft_chain _ Equals_sound configs B HB c (c1 :: s) Hex Hlen c); [left|]. }
  pose proof (ac_commit _ _ _ Hacc) as Hci. pose proof (ac_size _ _ _ Hacc) as Hsz.
  pose proof (ro_size _ _ _ Hof) as Hend. fold (request_end req) in Hend.
  pose proof (ro_commit _ _ _ Hof) as Hlc. pose proof (ac_prev _ _ _ Hacc).
  assert (ae_prev_log_index req ≤ request_end req) by (unfold request_end; lia).
  destruct Hl0 as (c0 & Hin0 & Hp0 & _). apply backed_cons. eapply backed_ext; [| |by eapply (IH c0 caller p0)].
  - intros x Hx. rewrite Hlog by lia. unfold full_log, extended.
    pose proof (ok_commit _ _ Hok0). by rewrite decide_True by lia.
  - lia.
Qed.

Lemma commit_backed c s :
  execution (c :: s) → Z.of_nat (length (c :: s)) ≤ B →
  ∀ c0 i p, c0 ∈ c :: s → processes c0 !! i = Some p →
  backed (c :: s) (λ k, raft_log (node p) !! k) (commit_index (node p)).
Proof.
  revert c. induction s as [|c1 s IH]; intros c Hex Hlen c0 i p' Hin Hp'.
  - apply list_elem_of_singleton in Hin as ->. inversion Hex as [sms ? (_ & _ & _ & Hi)|]; subst.
    rewrite Hi in Hp'. apply fmap_Some in Hp' as (cfg & _ & ->). by left.
  - assert (Hex1 : execution (c1 :: s)) by (by inversion Hex).
    assert (Hstep : timely_step c1 c) by (by inversion Hex).
    assert (Hlen1 : Z.of_nat (length (c1 :: s)) ≤ B) by (simpl in *; lia).
    specialize (IH c1 Hex1 Hlen1). apply elem_of_cons in Hin as [->|Hin]; [|by eapply backed_cons, IH].
    destruct (at_inv c1 s Hex1 Hlen1 c1 ltac:(left)) as [I1 E1].
    destruct (step_evolution _ _ _ _ _ Hstep Hp') as (p & Hp & Hevo).
    destruct (li_process _ _ I1 _ _ Hp) as [[Hok Hfib] _]. pose proof (ok_commit _ _ Hok) as Hci.
    pose proof (backed_cons c _ _ _ (IH c1 i p ltac:(left) Hp)) as Hb.
    assert (Hkept : raft_log (node p) ⊆ raft_log (node p') → commit_index (node p') = commit_index (node p) →
      backed (c :: c1 :: s) (λ k, raft_log (node p') !! k) (commit_index (node p'))).
    { intros Hsub ->. eapply backed_ext; [|split; [apply Hci|done]|exact Hb]. intros x Hx.
      destruct (contiguous_lookup _ x (ok_contiguous _ _ Hok) ltac:(lia)) as [e He].
      rewrite He. by eapply lookup_weaken. }
    destruct (decide (commit_index (node p') = commit_index (node p))) as [Heq|Hne].
    + destruct (step_log _ Equals_sound configs B HB c1 c i p p' I1 E1 Hp Hevo) as [?|(caller & req & Hw & Hacc)]; [by apply Hkept|].
      rewrite Heq. eapply backed_ext; [|split; [apply Hci|done]|exact Hb]. intros x Hx.
      rewrite (ac_log _ _ _ Hacc). by rewrite decide_True by lia.
    + destruct Hevo as [->|ev out packets Hrun Hd _|sm ->]; [done| |by left].
      destruct (process_step_core _ B ev p out p' HB (conj Hok Hfib) Hrun)
        as [[_ _ ? _]|[_ _ _ ? _]|_ _ _ ? _|req _ _ _ _ _ _ ? _|Hbl|Hco _|v res main ss req _ _ _ _ Hco _
           |req n1 -> Hle Hf Hm Hst]; try done; try (by eapply counts_backed).
      * by apply BecomeLeader_shape in Hbl as (_ & _ & _ & _ & _ & ? & _).
      * destruct Hd as (caller & result & Hpk & Hw & _). destruct (li_packet _ _ I1 _ _ _ Hpk) as [Hbd _].
        eapply (accepts_backed c c1 s i p p' caller req); try done; [|lia].
        by eapply (stores_accepts _ Equals_sound B HB p req n1).
Qed.

(** Two committed prefixes agree. *)
Lemma backed_agree c s f g k k' x :
  execution (c :: s) → Z.of_nat (length (c :: s)) ≤ B →
  backed (c :: s) f k → backed (c :: s) g k' → 1 ≤ x → x ≤ k → x ≤ k' → f x = g x.
Proof.
  intros Hex Hlen [->|(i & p & j & Hl & Hch & Hhas & Hj & Hf)] [->|(i' & p' & j' & Hl' & Hch' & Hhas' & Hj' & Hg)] Hx Hk Hk';
    [lia..|].
  rewrite Hf, Hg by lia.
  assert (Hle : ∀ i p j i' p' j', leads_at (c :: s) i p → leads_at (c :: s) i' p' →
    chosen (c :: s) (term (node p)) j → has (full_log (node p)) j (term (node p)) →
    has (full_log (node p')) j' (term (node p')) →
    x ≤ j → x ≤ j' → term (node p) < term (node p') → full_log (node p) x = full_log (node p') x).
  { clear -Hex Hlen Equals_sound HB Hx. intros i p j i' p' j' Hl Hl' Hch (e & He & Het) _ Hj Hj' Hlt.
    destruct (leads_inv c s Hex Hlen i p Hl) as (_ & Hc1 & _). destruct (leads_inv c s Hex Hlen i' p' Hl') as (_ & Hc2 & _).
    destruct (leader_completeness _ Equals_sound configs B HB c s _ j Hex Hlen (term (node p')) Hch Hlt i' p' Hl' eq_refl)
      as (e' & He' & Het').
    eapply (chains_agree _ _ _ j e e' Hc1 Hc2 He He'); [congruence|lia]. }
  destruct (Z.lt_total (term (node p)) (term (node p'))) as [?|[Heq|?]].
  - eapply (Hle i p j i' p' j'); (done || lia).
  - destruct (leads_inv c s Hex Hlen i p Hl) as (Hok & _). destruct (leads_inv c s Hex Hlen i' p' Hl') as (Hok' & _).
    destruct Hhas as (e & He & _), Hhas' as (e' & He' & _).
    apply full_log_bounds with (B := B) in He, He'; [|done..].
    destruct (leader_logs_agree _ Equals_sound configs B HB c s Hex Hlen i i' p p' Hl Hl' Heq) as [_ [[_ Hag]|[_ Hag]]];
      rewrite Hag by lia; done.
  - symmetry. eapply (Hle i' p' j' i p j); (done || lia).
Qed.
End commit.

(** [C5] State machine safety, over a network that delivers an [AppendEntries]
    only while its sender waits: whatever crashes, elections and losses happen,
    two nodes, each at any time of the execution, have the same entry at every
    position that both have committed. So no committed entry is ever lost or
    replaced, and the state machines apply the same requests in the same order. *)
Theorem timely_state_machine_safety {AM : AnyMessage} {SM : IStateMachine}
    (Equals : LogEntry → LogEntry → bool) (configs : list RaftConfig) (tr : list Cluster)
    (Equals_sound : ∀ a b, Equals a b = true → a = b)
    (Hex : execution Equals configs tr) (Hsmall : small (Z.of_nat (length tr)))
    (c c' : Cluster) (Hc : c ∈ tr) (Hc' : c' ∈ tr) (i j : nat) (p q : Process)
    (Hp : processes c !! i = Some p) (Hq : processes c' !! j = Some q) :
  ∀ index, 1 ≤ index ≤ commit_index (node p) `min` commit_index (node q) →
  raft_log (node p) !! index = raft_log (node q) !! index.
Proof.
  intros index Hi. destruct tr as [|c0 s]; [by apply elem_of_nil in Hc|].
  assert (Hlen : Z.of_nat (length (c0 :: s)) ≤ Z.of_nat (length (c0 :: s))) by lia.
  pose proof (commit_backed Equals Equals_sound configs _ Hsmall c0 s Hex Hlen c i p Hc Hp) as Hb.
  pose proof (commit_backed Equals Equals_sound configs _ Hsmall c0 s Hex Hlen c' j q Hc' Hq) as Hb'.
  eapply (backed_agree Equals Equals_sound configs _ Hsmall c0 s _ _ _ _ index Hex Hlen Hb Hb'); lia.
Qed.
