(* ===== verification/RaftExamples.v ===== *)
(** * Runs of a three-node cluster

    Concrete executions of RaftTrace.v: instances of the cluster theorems, and
    a run in which a delayed request makes a follower forget an entry it has
    acknowledged, so that two nodes commit different entries at one position.

    First, runs over a timely network: [timely_exec] runs labels of RaftTrace.v,
    refusing to deliver an [AppendEntries] whose sender does not wait, and keeps
    all clusters of the run. A run in which a leader commits an entry, a
    follower learns of it and becomes the next leader is an instance of the
    theorems of RaftCompleteness.v and RaftCommit.v. *)

From S2P Require Import Prelude.
From S2P Require Import Result.
From S2P Require Import RtTypes.
From S2P Require Import KVInterface.
From S2P Require Import Logs.
From S2P Require Import StateMachine.
From S2P Require Import RaftNode.
From S2P Require Import RaftProcess.
From S2P Require Import RaftNodeProps.
From S2P Require Import RaftCluster.
From S2P Require Import RaftElection.
From S2P Require Import RaftInvariant.
From S2P Require Import RaftProcessOk.
From S2P Require Import RaftLogMatching.
From S2P Require Import RaftTrace.
From S2P Require Import RaftLogSafety.
From S2P Require Import RaftReplies.
From S2P Require Import RaftEffects.
From S2P Require Import RaftTimely.
From S2P Require Import RaftCompleteness.
From S2P Require Import RaftCommit.

(** ** A timely network *)

Local Open Scope Z_scope.

Section trace.
Context {AM : AnyMessage} {SM : IStateMachine} `{!EqDecision Any}.
Variable MessageDifferencer_Equals : LogEntry → LogEntry → bool.

Definition waiting (c : Cluster) (caller target : nat) (request : AppendEntriesRequest) : bool :=
  match processes c !! caller with
  | Some p => match main_fiber p with
              | InLeader _ sessions => bool_decide (sessions !! target = Some (SessionCalling request))
              | _ => false
              end
  | None => false
  end.

Definition timely_label (l : label) (c : Cluster) : bool :=
  match l with
  | Deliver k => match network c !! k with
                 | Some (PAppend caller target request) => waiting c caller target request
                 | _ => true
                 end
  | _ => true
  end.

(** The clusters of the run, the latest first. *)
Fixpoint timely_exec (ls : list label) (c : Cluster) (past : list Cluster) : option (list Cluster) :=
  match ls with
  | [] => Some (c :: past)
  | l :: ls =>
      if timely_label l c then c' ← exec_label MessageDifferencer_Equals l c; timely_exec ls c' (c :: past)
      else None
  end.

Local Opaque process_step.

Lemma waiting_waits c caller target request : waiting c caller target request = true → waits c caller target request.
Proof.
  unfold waiting, waits, calls. intros H. repeat case_match; try done. apply bool_decide_eq_true in H. eauto 10.
Qed.

Lemma exec_label_timely l c c' :
  timely_label l c = true → exec_label MessageDifferencer_Equals l c = Some c' →
  timely_step MessageDifferencer_Equals c c'.
Proof.
  destruct l as [i ev|k|i sm]; simpl; intros Ht H.
  - apply bind_Some in H as (p & Hp & H). destruct (is_local ev) eqn:Hloc; [|done]. repeat case_match; simplify_eq.
    eapply timely_moves; [done|done|]. by destruct ev as [| |? []| | | |? []| | | | |].
  - apply bind_Some in H as (pkt & Hk & H). rewrite Hk in Ht. apply list_elem_of_lookup_2 in Hk.
    destruct pkt; simpl in H; apply bind_Some in H as (p & Hp & H); repeat case_match; simplify_eq;
      (eapply timely_moves; [done|done|]); simpl; unfold stands, calls; eauto 10 using waiting_waits.
  - apply bind_Some in H as (p & Hp & [= <-]). by eapply timely_restarts.
Qed.

Lemma timely_exec_execution configs ls c past tr :
  execution MessageDifferencer_Equals configs (c :: past) → timely_exec ls c past = Some tr →
  execution MessageDifferencer_Equals configs tr.
Proof.
  revert c past. induction ls as [|l ls IH]; simpl; intros c past Hex H; [by simplify_eq|].
  destruct (timely_label l c) eqn:Ht; [|done]. apply bind_Some in H as (c' & Hl & H).
  eapply (IH c'); [|exact H]. eapply execution_continues; [done|]. by eapply exec_label_timely.
Qed.
End trace.

Import TestMachine Example3.

(** Node 0 is elected, replicates and commits an entry; a heartbeat tells node 1
    about the commit; node 1 is elected with the vote of node 2. *)
Definition heartbeat : list label := [Local 0 (SessionRuns 1); Deliver 0].
Definition elect1 : list label :=
  [Local 1 RunLoop; Local 1 FollowerWakes; Local 1 RunLoop; Deliver 1; Deliver 0].
Definition handover : list label := elect0 ++ commit0 ++ heartbeat ++ elect1.

Definition clusters (ls : list label) : list Cluster := default [start] (timely_exec Equals ls start []).

Lemma clusters_execution ls : execution Equals configs (clusters ls).
Proof.
  assert (H0 : execution Equals configs [start]) by (eapply execution_starts, start_initial).
  unfold clusters. destruct (timely_exec Equals ls start []) as [tr|] eqn:He; [|done]. by eapply timely_exec_execution.
Qed.

(** The last cluster of the run. *)
Definition latest (ls : list label) : Cluster := default start (head (clusters ls)).

Lemma latest_in ls : latest ls ∈ clusters ls.
Proof.
  unfold latest. assert (Hne : clusters ls ≠ []).
  { intros E. pose proof (clusters_execution ls) as H. rewrite E in H. inversion H. }
  destruct (clusters ls); [done|left].
Qed.

Definition latest_process (ls : list label) (i : nat) : Process :=
  default (RunMain init (cfg i) ∅ ∅) (processes (latest ls) !! i).

Lemma latest_lookup ls i :
  match processes (latest ls) !! i with Some _ => true | None => false end = true →
  processes (latest ls) !! i = Some (latest_process ls i).
Proof. unfold latest_process. by destruct (processes (latest ls) !! i). Qed.

Lemma timely_state_machine_safety_witness :
  commit_index (node (latest_process handover 0)) = 1 ∧ commit_index (node (latest_process handover 1)) = 1 ∧
  state (node (latest_process handover 1)) = Leader ∧ term (node (latest_process handover 1)) = 2 ∧
  raft_log (node (latest_process handover 0)) !! 1 = raft_log (node (latest_process handover 1)) !! 1.
Proof.
  split_and!; [vm_compute; reflexivity..|].
  refine (timely_state_machine_safety Equals configs (clusters handover) Equals_sound
    (clusters_execution handover) _ (latest handover) (latest handover) (latest_in handover) (latest_in handover)
    0 1 (latest_process handover 0) (latest_process handover 1) _ _ 1 _);
    try (apply latest_lookup); vm_compute; (reflexivity || (split; discriminate)).
Defined.

(** The cluster [k] steps before the end of the run. *)
Definition earlier (ls : list label) (k : nat) : Cluster := default start (clusters ls !! k).

Lemma earlier_in ls k :
  match clusters ls !! k with Some _ => true | None => false end = true → earlier ls k ∈ clusters ls.
Proof.
  unfold earlier. destruct (clusters ls !! k) eqn:Hk; [|done]. intros _. by eapply list_elem_of_lookup_2.
Qed.

Lemma stored_by_compute c v t k p e :
  processes c !! v = Some p → term (node p) = t → raft_log (node p) !! k = Some e → entry_term e = t → stored_by c v t k.
Proof. intros. exists p. split_and!; [done|done|]. by exists e. Qed.

Lemma timely_leader_completeness_witness :
  state (node (latest_process handover 1)) = Leader ∧ term (node (latest_process handover 1)) = 2 ∧
  has (full_log (node (latest_process handover 1))) 1 1.
Proof.
  split_and!; [vm_compute; reflexivity..|].
  refine (timely_leader_completeness Equals configs (clusters handover) Equals_sound
    (clusters_execution handover) _ 1 1 {[0; 1]}%nat _ _ (latest handover) (latest_in handover)
    1 (latest_process handover 1) _ _ _); try (apply latest_lookup); try (vm_compute; reflexivity).
  intros v [->%elem_of_singleton| ->%elem_of_singleton]%elem_of_union;
    exists (earlier handover 5); (split; [apply earlier_in; vm_compute; reflexivity|]);
    eapply (stored_by_compute _ _ _ _ _ (MkLogEntry 1 (req 1 1 5))); vm_compute; reflexivity.
Defined.

(** ** An asynchronous network *)

Definition replicated : list label := elect0 ++ commit0.
Definition diverged : list label := replicated ++ late ++ elect2 ++ commit2.

Lemma election_safety_witness :
  reachable Equals configs (after diverged) ∧
  (1, 0%nat) ∈ leaders (history (after diverged)) ∧ (2, 2%nat) ∈ leaders (history (after diverged)) ∧
  ∀ t k l, (t, k) ∈ leaders (history (after diverged)) →
    (t, l) ∈ leaders (history (after diverged)) → k = l.
Proof.
  assert (Hr : reachable Equals configs (after diverged)).
  { eapply reachable_in_reachable, after_reachable_in. vm_compute. reflexivity. }
  split_and!; [exact Hr| | |].
  - apply (bool_decide_eq_true_1 _). vm_compute. reflexivity.
  - apply (bool_decide_eq_true_1 _). vm_compute. reflexivity.
  - apply (election_safety Equals configs (after diverged) 0 0
             (proc_after diverged 0) (proc_after diverged 0) Hr).
Defined.

Lemma log_matching_witness :
  raft_log (node (proc_after replicated 0)) !! 1 = raft_log (node (proc_after replicated 1)) !! 1 ∧
  is_Some (raft_log (node (proc_after replicated 0)) !! 1).
Proof.
  split; [|vm_compute; eauto].
  refine (log_matching Equals configs (length replicated) (after replicated) Equals_sound
    (after_reachable_in replicated _) _ 0 1 (proc_after replicated 0) (proc_after replicated 1)
    _ _ 1 (MkLogEntry 1 (req 1 1 5)) (MkLogEntry 1 (req 1 1 5)) _ _ _ 1 _);
    try (vm_compute; reflexivity); try (apply proc_after_lookup; vm_compute; reflexivity).
  lia.
Defined.

Lemma state_machine_is_committed_prefix_witness :
  commit_index (node (proc_after replicated 0)) = 1 ∧
  ∃ sm, rsm (node (proc_after replicated 0)) =
    (apply_all (entry_request <$> log_upto (raft_log (node (proc_after replicated 0))) 1)
       (ExactlyOnce_new sm)).2.
Proof.
  split; [vm_compute; reflexivity|].
  destruct (state_machine_is_committed_prefix Equals configs (length replicated) (after replicated)
    Equals_sound (after_reachable_in replicated ltac:(vm_compute; reflexivity))
    ltac:(vm_compute; reflexivity) 0 (proc_after replicated 0)
    (proc_after_lookup replicated 0 ltac:(vm_compute; reflexivity))) as (_ & _ & sm & Hsm).
  exists sm. exact Hsm.
Defined.

Lemma committed_entries_are_stable_witness :
  ∃ out p', process_step Equals (HandleExecute (req 1 2 6)) (proc_after replicated 0) = Some (Done (out, p')) ∧
    raft_log (node p') !! 1 = raft_log (node (proc_after replicated 0)) !! 1.
Proof.
  destruct (process_step Equals (HandleExecute (req 1 2 6)) (proc_after replicated 0))
    as [[[out p']| |]|] eqn:Hstep; [|exfalso; vm_compute in Hstep; discriminate..].
  exists out, p'. split; [reflexivity|].
  refine (proj1 (proj2 (committed_entries_are_stable Equals configs (length replicated)
    (after replicated) Equals_sound (after_reachable_in replicated _) _ 0 (proc_after replicated 0)
    (proc_after_lookup replicated 0 _) (HandleExecute (req 1 2 6)) out p' I Hstep)) 1 _);
    vm_compute; (reflexivity || discriminate).
Defined.

(** Node 0 suspends a second call, and answers the first one. *)
Lemma Execute_reply_correct_witness :
  let p := proc_after replicated 0 in
  (∃ p' f, process_step Equals (HandleExecute (req 1 2 6)) p = Some (Done (Silent, p')) ∧
     frames (node p') !! next_name (node p) = Some f) ∧
  ∃ id p' f e, process_step Equals (ExecuteResumes id) p =
      Some (Done (ReplyExecute (MkResponse Commited 0), p')) ∧
    frames (node p) !! id = Some f ∧ raft_log (node p) !! new_log_index f = Some e ∧
    new_log_index f ≤ commit_index (node p).
Proof.
  destruct (Execute_reply_correct Equals configs (length replicated) (after replicated) Equals_sound
    (after_reachable_in replicated ltac:(vm_compute; reflexivity)) ltac:(vm_compute; reflexivity)
    0 (proc_after replicated 0) (proc_after_lookup replicated 0 ltac:(vm_compute; reflexivity)))
    as (Haccept & _ & Hreply).
  split.
  - destruct (process_step Equals (HandleExecute (req 1 2 6)) (proc_after replicated 0))
      as [[[[] p']| |]|] eqn:Hstep; try (exfalso; vm_compute in Hstep; discriminate).
    destruct (Haccept (req 1 2 6) Silent p' ltac:(vm_compute; reflexivity) Hstep) as (_ & f & lt & Hf & _).
    exists p', f. split; [reflexivity|exact Hf].
  - pose (id := from_option fst 0%nat (head (map_to_list (frames (node (proc_after replicated 0)))))).
    assert (Hstep : ∃ p', process_step Equals (ExecuteResumes id) (proc_after replicated 0) =
      Some (Done (ReplyExecute (MkResponse Commited 0), p'))) by (eexists; vm_compute; reflexivity).
    destruct Hstep as [p' Hstep].
    destruct (Hreply id 0 p' Hstep) as (f & e & lt & sm & Hf & _ & He & Hc & _).
    exists id, p', f, e. split_and!; assumption.
Defined.

(** [C8] Committed entries can be lost: there is a reachable cluster in which
    two leaders have committed different entries at position 1 and applied
    them, because [AppendEntries] deletes everything after the entries of a
    request, also when the request is an old one that arrives late. The first
    leader has answered its client that the request is committed. *)
Theorem delayed_append_loses_committed_entry :
  ∃ c p q, reachable Equals configs c ∧
    processes c !! 0%nat = Some p ∧ processes c !! 2%nat = Some q ∧
    commit_index (node p) = 1 ∧ commit_index (node q) = 1 ∧
    raft_log (node p) !! 1 = Some (MkLogEntry 1 (req 1 1 5)) ∧
    raft_log (node q) !! 1 = Some (MkLogEntry 2 (req 2 1 7)) ∧
    (∃ id p', process_step Equals (ExecuteResumes id) p =
       Some (Done (ReplyExecute (MkResponse Commited 0), p'))).
Proof.
  exists (after diverged), (proc_after diverged 0), (proc_after diverged 2). split_and!.
  - eapply reachable_in_reachable, after_reachable_in. vm_compute. reflexivity.
  - apply proc_after_lookup. vm_compute. reflexivity.
  - apply proc_after_lookup. vm_compute. reflexivity.
  - vm_compute. reflexivity.
  - vm_compute. reflexivity.
  - vm_compute. reflexivity.
  - vm_compute. reflexivity.
  - exists (from_option fst 0%nat (head (map_to_list (frames (node (proc_after diverged 0)))))).
    eexists. vm_compute. reflexivity.
Qed.

Lemma single_node_never_leads_witness :
  let cfg := MkRaftConfig 0 [MkEndpoint "a" 1] (MkInterval 0 0) 0 0 "log" "state" in
  let p := RunMain init cfg ∅ ∅ in
  let c := MkCluster {[0%nat := p]} [] (MkHistory [] [] ∅) in
  reachable Equals [cfg] c ∧ state (node p) ≠ Leader.
Proof.
  intros cfg p c.
  assert (Hr : reachable Equals [cfg] c).
  { exists (λ _, init), c. split; [|apply rtc_refl]. split_and!; [reflexivity..| |].
    - intros [|[]] cf; simpl; intros [= <-]. done.
    - intros [|i]; [reflexivity|]. simpl. by rewrite lookup_singleton_ne. }
  split; [exact Hr|].
  exact (proj1 (single_node_never_leads Equals cfg c 0 p Hr ltac:(reflexivity))).
Defined.
