(* ===== verification/MtfNode.v ===== *)
(** * The Metamorphosis node: data and operations

    Model of [MetamorphosisNode] (src/metamorphosis/node/node.cpp), the queue
    node that replicates its log with Raft and stores a full copy of a message
    only on the main nodes. As in RaftNode.v, a method that runs without
    suspending the fiber is one function on the state of the node, and a method
    that suspends is split at the suspension points; [LOG] statements are left
    out. The file repeats the structure of the Raft node because the source
    does; it does not depend on RaftNode.v. *)

From S2P Require Import Prelude.
From S2P Require Import Result.
From S2P Require Import RtTypes.
From S2P Require Import KVInterface.

Local Open Scope Z_scope.

Inductive State : Type := Leader | Follower | Candidate.

#[export] Instance State_eq_dec : EqDecision State.
Proof. solve_decision. Defined.

Record StopSource : Type := MkStopSource { source_id : nat; stopped : bool }.

Record NodeConfig : Type := MkNodeConfig {
  node_id : nat;
  cluster_nodes : list Endpoint;
  election_timeout : Interval;
  heart_beat_period : Z;
  rpc_timeout : Z;
}.

(** ** Messages of metamorphosis.proto *)

Record ReadReq : Type := MkReadReq { read_offset : Z }.

(** The status and the [oneof] payload of a [ReadRsp]. *)
Inductive ReadRsp : Type :=
  | NOT_FOUND
  | HASH_ONLY (md5hash : list Z)
  | FULL_MESSAGE (data : string).

Record AppendReq : Type := MkAppendReq {
  req_data : string;
  req_producer_id : Z;
  req_sequence_id : Z;
}.

Inductive AppendRsp_Status : Type := NotALeader | Commited | InvalidSequenceId | ParallelRequest.

Record AppendRsp : Type := MkAppendRsp {
  rsp_status : AppendRsp_Status;
  rsp_offset : Z;
  rsp_next_sequence_id : Z;
}.

Record LogEntry : Type := MkLogEntry {
  entry_term : Z;
  entry_producer_id : Z;
  entry_data : string;
  entry_md5hash : list Z;
}.

#[export] Instance LogEntry_eq_dec : EqDecision LogEntry.
Proof. solve_decision. Defined.

Record AppendEntriesReq : Type := MkAppendEntries {
  ae_term : Z;
  ae_leader_id : Z;
  ae_prev_log_index : Z;
  ae_prev_log_term : Z;
  ae_entries : list LogEntry;
  ae_leader_commit : Z;
}.

Record AppendEntriesRsp : Type := MkAppendEntriesRsp { aer_term : Z; aer_success : bool }.

Record RequestVoteReq : Type := MkRequestVote {
  rv_term : Z;
  rv_candidate_id : Z;
  rv_last_log_index : Z;
  rv_last_log_term : Z;
}.

Record RequestVoteRsp : Type := MkRequestVoteRsp { rvr_term : Z; rvr_vote_granted : bool }.

(** ** State *)

(** A suspended call of [Append]: its locals and its [pending_request]. *)
Record Frame : Type := MkFrame {
  new_log_index : Z;
  frame_term : Z;
  frame_producer_id : Z;
  finish_guard : nat;
  replication_finished : bool;
  frame_offset : Z;
}.

Record MetamorphosisNode : Type := MkNode {
  stop_election : StopSource;
  stop_leader : StopSource;
  state : State;
  config : NodeConfig;
  reset_election_timeout : StopSource;
  reset_heartbeat_timeout : StopSource;
  raft_state : gmap string Z;
  raft_log : gmap Z LogEntry;
  commit_index : Z;
  producer_next_sequence_id : gmap Z Z;
  pending_producers : gset Z;
  match_index : list Z;
  next_index : list Z;
  current_term_start_index : Z;
  pending_requests : gmap Z nat;
  pending_log : list LogEntry;
  alive_main_nodes_count : Z;
  frames : gmap nat Frame;
  heartbeat_guards : gset nat;
  next_name : nat;
}.

(** ** Field updates *)

Definition set_stop_election v n := MkNode v (stop_leader n) (state n) (config n) (reset_election_timeout n) (reset_heartbeat_timeout n) (raft_state n) (raft_log n) (commit_index n) (producer_next_sequence_id n) (pending_producers n) (match_index n) (next_index n) (current_term_start_index n) (pending_requests n) (pending_log n) (alive_main_nodes_count n) (frames n) (heartbeat_guards n) (next_name n).
Definition set_stop_leader v n := MkNode (stop_election n) v (state n) (config n) (reset_election_timeout n) (reset_heartbeat_timeout n) (raft_state n) (raft_log n) (commit_index n) (producer_next_sequence_id n) (pending_producers n) (match_index n) (next_index n) (current_term_start_index n) (pending_requests n) (pending_log n) (alive_main_nodes_count n) (frames n) (heartbeat_guards n) (next_name n).
Definition set_state v n := MkNode (stop_election n) (stop_leader n) v (config n) (reset_election_timeout n) (reset_heartbeat_timeout n) (raft_state n) (raft_log n) (commit_index n) (producer_next_sequence_id n) (pending_producers n) (match_index n) (next_index n) (current_term_start_index n) (pending_requests n) (pending_log n) (alive_main_nodes_count n) (frames n) (heartbeat_guards n) (next_name n).
Definition set_reset_election_timeout v n := MkNode (stop_election n) (stop_leader n) (state n) (config n) v (reset_heartbeat_timeout n) (raft_state n) (raft_log n) (commit_index n) (producer_next_sequence_id n) (pending_producers n) (match_index n) (next_index n) (current_term_start_index n) (pending_requests n) (pending_log n) (alive_main_nodes_count n) (frames n) (heartbeat_guards n) (next_name n).
Definition set_reset_heartbeat_timeout v n := MkNode (stop_election n) (stop_leader n) (state n) (config n) (reset_election_timeout n) v (raft_state n) (raft_log n) (commit_index n) (producer_next_sequence_id n) (pending_producers n) (match_index n) (next_index n) (current_term_start_index n) (pending_requests n) (pending_log n) (alive_main_nodes_count n) (frames n) (heartbeat_guards n) (next_name n).
Definition set_raft_state v n := MkNode (stop_election n) (stop_leader n) (state n) (config n) (reset_election_timeout n) (reset_heartbeat_timeout n) v (raft_log n) (commit_index n) (producer_next_sequence_id n) (pending_producers n) (match_index n) (next_index n) (current_term_start_index n) (pending_requests n) (pending_log n) (alive_main_nodes_count n) (frames n) (heartbeat_guards n) (next_name n).
Definition set_raft_log v n := MkNode (stop_election n) (stop_leader n) (state n) (config n) (reset_election_timeout n) (reset_heartbeat_timeout n) (raft_state n) v (commit_index n) (producer_next_sequence_id n) (pending_producers n) (match_index n) (next_index n) (current_term_start_index n) (pending_requests n) (pending_log n) (alive_main_nodes_count n) (frames n) (heartbeat_guards n) (next_name n).
Definition set_commit_index v n := MkNode (stop_election n) (stop_leader n) (state n) (config n) (reset_election_timeout n) (reset_heartbeat_timeout n) (raft_state n) (raft_log n) v (producer_next_sequence_id n) (pending_producers n) (match_index n) (next_index n) (current_term_start_index n) (pending_requests n) (pending_log n) (alive_main_nodes_count n) (frames n) (heartbeat_guards n) (next_name n).
Definition set_producer_next_sequence_id v n := MkNode (stop_election n) (stop_leader n) (state n) (config n) (reset_election_timeout n) (reset_heartbeat_timeout n) (raft_state n) (raft_log n) (commit_index n) v (pending_producers n) (match_index n) (next_index n) (current_term_start_index n) (pending_requests n) (pending_log n) (alive_main_nodes_count n) (frames n) (heartbeat_guards n) (next_name n).
Definition set_pending_producers v n := MkNode (stop_election n) (stop_leader n) (state n) (config n) (reset_election_timeout n) (reset_heartbeat_timeout n) (raft_state n) (raft_log n) (commit_index n) (producer_next_sequence_id n) v (match_index n) (next_index n) (current_term_start_index n) (pending_requests n) (pending_log n) (alive_main_nodes_count n) (frames n) (heartbeat_guards n) (next_name n).
Definition set_match_index v n := MkNode (stop_election n) (stop_leader n) (state n) (config n) (reset_election_timeout n) (reset_heartbeat_timeout n) (raft_state n) (raft_log n) (commit_index n) (producer_next_sequence_id n) (pending_producers n) v (next_index n) (current_term_start_index n) (pending_requests n) (pending_log n) (alive_main_nodes_count n) (frames n) (heartbeat_guards n) (next_name n).
Definition set_next_index v n := MkNode (stop_election n) (stop_leader n) (state n) (config n) (reset_election_timeout n) (reset_heartbeat_timeout n) (raft_state n) (raft_log n) (commit_index n) (producer_next_sequence_id n) (pending_producers n) (match_index n) v (current_term_start_index n) (pending_requests n) (pending_log n) (alive_main_nodes_count n) (frames n) (heartbeat_guards n) (next_name n).
Definition set_current_term_start_index v n := MkNode (stop_election n) (stop_leader n) (state n) (config n) (reset_election_timeout n) (reset_heartbeat_timeout n) (raft_state n) (raft_log n) (commit_index n) (producer_next_sequence_id n) (pending_producers n) (match_index n) (next_index n) v (pending_requests n) (pending_log n) (alive_main_nodes_count n) (frames n) (heartbeat_guards n) (next_name n).
Definition set_pending_requests v n := MkNode (stop_election n) (stop_leader n) (state n) (config n) (reset_election_timeout n) (reset_heartbeat_timeout n) (raft_state n) (raft_log n) (commit_index n) (producer_next_sequence_id n) (pending_producers n) (match_index n) (next_index n) (current_term_start_index n) v (pending_log n) (alive_main_nodes_count n) (frames n) (heartbeat_guards n) (next_name n).
Definition set_pending_log v n := MkNode (stop_election n) (stop_leader n) (state n) (config n) (reset_election_timeout n) (reset_heartbeat_timeout n) (raft_state n) (raft_log n) (commit_index n) (producer_next_sequence_id n) (pending_producers n) (match_index n) (next_index n) (current_term_start_index n) (pending_requests n) v (alive_main_nodes_count n) (frames n) (heartbeat_guards n) (next_name n).
Definition set_alive_main_nodes_count v n := MkNode (stop_election n) (stop_leader n) (state n) (config n) (reset_election_timeout n) (reset_heartbeat_timeout n) (raft_state n) (raft_log n) (commit_index n) (producer_next_sequence_id n) (pending_producers n) (match_index n) (next_index n) (current_term_start_index n) (pending_requests n) (pending_log n) v (frames n) (heartbeat_guards n) (next_name n).
Definition set_frames v n := MkNode (stop_election n) (stop_leader n) (state n) (config n) (reset_election_timeout n) (reset_heartbeat_timeout n) (raft_state n) (raft_log n) (commit_index n) (producer_next_sequence_id n) (pending_producers n) (match_index n) (next_index n) (current_term_start_index n) (pending_requests n) (pending_log n) (alive_main_nodes_count n) v (heartbeat_guards n) (next_name n).
Definition set_heartbeat_guards v n := MkNode (stop_election n) (stop_leader n) (state n) (config n) (reset_election_timeout n) (reset_heartbeat_timeout n) (raft_state n) (raft_log n) (commit_index n) (producer_next_sequence_id n) (pending_producers n) (match_index n) (next_index n) (current_term_start_index n) (pending_requests n) (pending_log n) (alive_main_nodes_count n) (frames n) v (next_name n).
Definition set_next_name v n := MkNode (stop_election n) (stop_leader n) (state n) (config n) (reset_election_timeout n) (reset_heartbeat_timeout n) (raft_state n) (raft_log n) (commit_index n) (producer_next_sequence_id n) (pending_producers n) (match_index n) (next_index n) (current_term_start_index n) (pending_requests n) (pending_log n) (alive_main_nodes_count n) (frames n) (heartbeat_guards n) v.

(** ** Stop sources *)

Definition new_source (n : MetamorphosisNode) : StopSource := MkStopSource (next_name n) false.
Definition use_name (n : MetamorphosisNode) : MetamorphosisNode := set_next_name (S (next_name n)) n.
Definition stop (s : StopSource) : StopSource := MkStopSource (source_id s) true.

Definition signal_frame (f : Frame) : Frame :=
  MkFrame (new_log_index f) (frame_term f) (frame_producer_id f) (finish_guard f) true
    (frame_offset f).

(** [stop_leader.Stop()]: the [finish_guard]s signal their requests, the guards
    of the suspended sessions stop [reset_heartbeat_timeout]. *)
Definition Stop_leader (n : MetamorphosisNode) : MetamorphosisNode :=
  let s := stop_leader n in
  let n := set_stop_leader (stop s) n in
  let n := set_frames ((λ f, if decide (finish_guard f = source_id s) then signal_frame f else f)
                         <$> frames n) n in
  if decide (heartbeat_guards n = ∅) then n
  else set_reset_heartbeat_timeout (stop (reset_heartbeat_timeout n)) n.

Definition add_heartbeat_guard (id : nat) (n : MetamorphosisNode) : MetamorphosisNode :=
  if stopped (stop_leader n)
  then set_reset_heartbeat_timeout (stop (reset_heartbeat_timeout n)) n
  else set_heartbeat_guards ({[id]} ∪ heartbeat_guards n) n.

(** ** The counters of the producers *)

(** [producer_next_sequence_id[p]]: [operator[]] of [std::unordered_map]
    inserts 0 for a missing key. *)
Definition touch (p : Z) (m : gmap Z Z) : gmap Z Z := <[p := default 0 (m !! p)]> m.
Definition increment (p : Z) (m : gmap Z Z) : gmap Z Z := <[p := default 0 (m !! p) +64 1]> m.
Definition decrement (p : Z) (m : gmap Z Z) : gmap Z Z := <[p := default 0 (m !! p) -64 1]> m.

(** ** Accessors *)

Definition nodes_count (n : MetamorphosisNode) : nat := length (cluster_nodes (config n)).

Definition MajorityCount (n : MetamorphosisNode) : nat := (nodes_count n / 2 + 1)%nat.

(** Whether a node receives full messages from this node as leader. *)
Definition IsMainNode (n : MetamorphosisNode) (index : nat) : bool :=
  let majority_count := MajorityCount n in
  let majority_count := if decide (majority_count ≤ node_id (config n))%nat
                        then pred majority_count else majority_count in
  bool_decide (index < majority_count)%nat.

Definition GetLastSavedLogTerm (n : MetamorphosisNode) : Z :=
  match kv_Last (raft_log n) with
  | Some (_, entry) => entry_term entry
  | None => 0
  end.

Definition GetSavedLogSize (n : MetamorphosisNode) : Z :=
  match kv_Last (raft_log n) with
  | Some (key, _) => key
  | None => 0
  end.

Definition GetLogEntry (n : MetamorphosisNode) (index : Z) : outcome LogEntry :=
  let saved_log_size := GetSavedLogSize n in
  verify (bool_decide (0 < index ∧ index ≤ saved_log_size +64 Z.of_nat (length (pending_log n))))
    "Invalid log index";;
  if decide (index ≤ saved_log_size) then GetValue (kv_Get (raft_log n) index)
  else vec_get (pending_log n) (Z.to_nat (index -64 saved_log_size -64 1)).

Definition GetCurrentTerm (n : MetamorphosisNode) : outcome Z :=
  GetValue (kv_Get (raft_state n) "current_term").

Definition GetVotedFor (n : MetamorphosisNode) : option Z :=
  match kv_Get (raft_state n) "voted_for" with
  | Err _ => None
  | Ok v => Some v
  end.

Definition UpdateTerm (term : Z) (voted_for : option Z) (n : MetamorphosisNode)
    : outcome MetamorphosisNode :=
  current ← GetCurrentTerm n;
  verify (bool_decide (current < term)) "Invalid update term";;
  let db := kv_Put "current_term" term (raft_state n) in
  let db := match voted_for with
            | Some v => kv_Put "voted_for" v db
            | None => kv_Delete "voted_for" db
            end in
  Done (set_raft_state db n).

(** ** Construction *)

(** Body of the loop of the constructor that counts the entries of the log. *)
Definition count_entry (index : Z) (n : MetamorphosisNode) : outcome MetamorphosisNode :=
  entry ← GetValue (kv_Get (raft_log n) index);
  Done (set_producer_next_sequence_id
          (increment (entry_producer_id entry) (producer_next_sequence_id n)) n).

Definition MetamorphosisNode_new (cfg : NodeConfig) (state_db : gmap string Z)
    (log_db : gmap Z LogEntry) : outcome MetamorphosisNode :=
  let state_db := match kv_Get state_db "current_term" with
                  | Err _ => kv_Put "current_term" 0 state_db
                  | Ok _ => state_db
                  end in
  let n := MkNode (MkStopSource 0 false) (MkStopSource 1 false) Follower cfg
             (MkStopSource 2 false) (MkStopSource 3 false) state_db log_db 0 ∅ ∅ [] [] 0 ∅ [] 0
             ∅ ∅ 4 in
  for_each (range 1 (GetSavedLogSize n + 1)) count_entry n.

(** ** Change of state *)

Definition BecomeLeader (n : MetamorphosisNode) : outcome MetamorphosisNode :=
  verify (bool_decide (state n = Candidate)) "Invalid state";;
  let n := set_pending_log [] n in
  let n := set_current_term_start_index (GetSavedLogSize n +64 1) n in
  let n := set_next_index (replicate (nodes_count n) (GetSavedLogSize n +64 1)) n in
  let n := set_match_index (replicate (nodes_count n) 0) n in
  let src := new_source n in let n := use_name n in
  let n := set_reset_heartbeat_timeout src n in
  let src := new_source n in let n := use_name n in
  let n := set_stop_leader src n in
  let n := set_stop_election (stop (stop_election n)) n in
  let n := set_alive_main_nodes_count (Z.of_nat (MajorityCount n)) n in
  Done (set_state Leader n).

Definition BecomeFollower (n : MetamorphosisNode) : outcome MetamorphosisNode :=
  verify (bool_decide (state n ≠ Follower)) "Invalid state";;
  let n := match state n with
           | Leader => Stop_leader n
           | Candidate => set_stop_election (stop (stop_election n)) n
           | Follower => n
           end in
  Done (set_state Follower n).

Definition BecomeCandidate (n : MetamorphosisNode) : outcome MetamorphosisNode :=
  verify (bool_decide (state n = Follower)) "Invalid state";;
  let n := set_reset_election_timeout (stop (reset_election_timeout n)) n in
  Done (set_state Candidate n).

(** ** Commit index *)

Definition match_count (n : MetamorphosisNode) (index : Z) : outcome nat :=
  for_each (seq 0 (nodes_count n)) (λ id count,
    m ← vec_get (match_index n) id;
    Done (if decide (index ≤ m) then S count else count)) 0%nat.

(** The search loop of [UpdateCommitIndex]; the fuel bounds the number of
    indices above [commit_index]. *)
Fixpoint find_commit (fuel : nat) (n : MetamorphosisNode) (index : Z) : outcome Z :=
  match fuel with
  | O => Done (commit_index n)
  | S fuel =>
      if decide (commit_index n < index ∧ current_term_start_index n ≤ index) then
        count ← match_count n index;
        if decide (MajorityCount n ≤ count)%nat then Done index
        else find_commit fuel n (index - 1)
      else Done (commit_index n)
  end.

(** Body of the loop that tells a waiting request the offset of its message. *)
Definition notify_committed (index : Z) (n : MetamorphosisNode) : outcome MetamorphosisNode :=
  match pending_requests n !! index with
  | None => Done n
  | Some ptr =>
      match frames n !! ptr with
      | None => Undefined "dangling pending request"
      | Some f =>
          Done (set_frames (<[ptr := MkFrame (new_log_index f) (frame_term f) (frame_producer_id f)
                                       (finish_guard f) true index]> (frames n)) n)
      end
  end.

Definition UpdateCommitIndex (n : MetamorphosisNode) : outcome MetamorphosisNode :=
  new_commit_index ←
    find_commit (Z.to_nat (GetSavedLogSize n - commit_index n)) n (GetSavedLogSize n);
  n ← for_each (range (commit_index n + 1) (new_commit_index + 1)) notify_committed n;
  Done (set_commit_index new_commit_index n).

(** ** API *)

Section api.
(** [rt::ComputeMd5Hash], computed by OpenSSL. *)
Variable ComputeMd5Hash : string → list Z.

(** [Append] up to the [Await]: an immediate response, or the name of the frame
    that waits for replication. The [DEFER] erases the producer from
    [pending_producers] on every return after the insertion. *)
Definition Append_begin (request : AppendReq) (n : MetamorphosisNode)
    : outcome ((AppendRsp + nat) * MetamorphosisNode) :=
  let p := req_producer_id request in
  if decide (state n ≠ Leader) then Done (inl (MkAppendRsp NotALeader 0 0), n) else
  if decide (p ∈ pending_producers n) then Done (inl (MkAppendRsp ParallelRequest 0 0), n) else
  let n := set_pending_producers ({[p]} ∪ pending_producers n) n in
  let n := set_producer_next_sequence_id (touch p (producer_next_sequence_id n)) n in
  let next := default 0 (producer_next_sequence_id n !! p) in
  if decide (req_sequence_id request ≠ next) then
    let n := set_pending_producers (pending_producers n ∖ {[p]}) n in
    Done (inl (MkAppendRsp InvalidSequenceId 0 next), n)
  else
    let md5hash := ComputeMd5Hash (req_data request) in
    let self := node_id (config n) in
    index ← vec_get (next_index n) self;
    next_index' ← vec_set (next_index n) self (index +64 1);
    let n := set_next_index next_index' n in
    current_term ← GetCurrentTerm n;
    let n := set_pending_log (pending_log n ++ [MkLogEntry current_term p (req_data request) md5hash]) n in
    let frame := MkFrame index current_term p (source_id (stop_leader n))
                   (stopped (stop_leader n)) 0 in
    let id := next_name n in
    let n := use_name (set_frames (<[id := frame]> (frames n)) n) in
    let n := set_pending_requests (<[index := id]> (pending_requests n)) n in
    let n := set_reset_heartbeat_timeout (stop (reset_heartbeat_timeout n)) n in
    let src := new_source n in let n := use_name n in
    let n := set_reset_heartbeat_timeout src n in
    Done (inr id, n).
End api.

(** The [Await] of a frame returns once its event is signalled. *)
Definition Append_ready (id : nat) (n : MetamorphosisNode) : bool :=
  match frames n !! id with
  | Some f => replication_finished f
  | None => false
  end.

(** [Append] after the [Await]; the frame is destroyed and the [DEFER] runs. *)
Definition Append_finish (id : nat) (n : MetamorphosisNode)
    : outcome (AppendRsp * MetamorphosisNode) :=
  match frames n !! id with
  | None => Undefined "no such frame"
  | Some f =>
      let p := frame_producer_id f in
      let leave n := set_pending_producers (pending_producers n ∖ {[p]})
                       (set_frames (delete id (frames n)) n) in
      let n := set_pending_requests (delete (new_log_index f) (pending_requests n)) n in
      current_term ← GetCurrentTerm n;
      if decide (frame_term f ≠ current_term) then
        Done (MkAppendRsp NotALeader 0 0, leave n)
      else
        verify (bool_decide (state n = Leader)) "Invalid session state";;
        let n := set_producer_next_sequence_id (touch p (producer_next_sequence_id n)) n in
        let next := default 0 (producer_next_sequence_id n !! p) in
        Done (MkAppendRsp Commited (frame_offset f) next, leave n)
  end.

Definition Read (request : ReadReq) (n : MetamorphosisNode) : Result ReadRsp RpcError :=
  if decide (commit_index n < read_offset request) then Ok NOT_FOUND
  else match kv_Get (raft_log n) (read_offset request) with
       | Err error => Err (MkRpcError RpcInternal (DBError_Message error))
       | Ok value =>
           if decide (entry_data value ≠ EmptyString) then Ok (FULL_MESSAGE (entry_data value))
           else Ok (HASH_ONLY (entry_md5hash value))
       end.

(** ** Internal RPCs *)

Section append_entries.
(** [google::protobuf::util::MessageDifferencer::Equals] on log entries. *)
Variable MessageDifferencer_Equals : LogEntry → LogEntry → bool.

Definition check_committed (request : AppendEntriesReq) (index : Z) (n : MetamorphosisNode)
    : outcome MetamorphosisNode :=
  entry_from_log ← GetValue (kv_Get (raft_log n) index);
  entry_from_request ← vec_get (ae_entries request)
    (Z.to_nat (index -64 ae_prev_log_index request -64 1));
  verify (MessageDifferencer_Equals entry_from_request entry_from_log)
    "invalid state: committed log is inconsistent";;
  Done n.

(** Body of the loop that takes back the count of the entries after
    [prev_log_index]. The counter is unsigned. *)
Definition uncount_entry (index : Z) (n : MetamorphosisNode) : outcome MetamorphosisNode :=
  entry ← GetValue (kv_Get (raft_log n) index);
  let p := entry_producer_id entry in
  let n := set_producer_next_sequence_id (decrement p (producer_next_sequence_id n)) n in
  verify (bool_decide (0 ≤ default 0 (producer_next_sequence_id n !! p)))
    "Producer next sequence id must be non-negative";;
  Done n.

(** The entries of the request that are written. *)
Definition new_entries (request : AppendEntriesReq) (n : MetamorphosisNode) : list LogEntry :=
  let first := (ae_prev_log_index request `max` commit_index n) +64 1 in
  drop (Z.to_nat (first -64 ae_prev_log_index request -64 1)) (ae_entries request).

Definition append_batch (request : AppendEntriesReq) (n : MetamorphosisNode)
    : list (batch_command LogEntry) :=
  let first := (ae_prev_log_index request `max` commit_index n) +64 1 in
  BatchDeleteRange first u64_max ::
  imap (λ k entry, BatchPut (first + Z.of_nat k) entry) (new_entries request n).

(** [++producer_next_sequence_id[log_entry.producer_id()]] for every entry that
    is written. *)
Definition count_entries (entries : list LogEntry) (m : gmap Z Z) : gmap Z Z :=
  foldl (λ m entry, increment (entry_producer_id entry) m) m entries.

Definition AppendEntries_follow (request : AppendEntriesReq) (n : MetamorphosisNode)
    : outcome MetamorphosisNode :=
  let n := set_reset_election_timeout (stop (reset_election_timeout n)) n in
  current_term ← GetCurrentTerm n;
  n ← (if decide (current_term ≤ ae_term request ∧ state n ≠ Follower)
       then BecomeFollower n else Done n);
  current_term ← GetCurrentTerm n;
  if decide (current_term < ae_term request)
  then UpdateTerm (ae_term request) None n else Done n.

Definition AppendEntries_matches (request : AppendEntriesReq) (n : MetamorphosisNode)
    : outcome bool :=
  verify (bool_decide (ae_prev_log_index request ≠ 0 ∨ ae_prev_log_term request = 0))
    "invalid prev_log_term";;
  if decide (GetSavedLogSize n < ae_prev_log_index request) then Done false
  else if decide (ae_prev_log_index request ≠ 0) then
    entry ← GetValue (kv_Get (raft_log n) (ae_prev_log_index request));
    Done (bool_decide (entry_term entry = ae_prev_log_term request))
  else Done true.

Definition AppendEntries_store (request : AppendEntriesReq) (n : MetamorphosisNode)
    : outcome MetamorphosisNode :=
  n ← for_each
        (range (ae_prev_log_index request + 1)
           ((commit_index n `min`
             (ae_prev_log_index request + Z.of_nat (length (ae_entries request)))) + 1))
        (check_committed request) n;
  n ← for_each (range (ae_prev_log_index request + 1) (GetSavedLogSize n + 1)) uncount_entry n;
  let counters := count_entries (new_entries request n) (producer_next_sequence_id n) in
  let n := set_raft_log (kv_Write (append_batch request n) (raft_log n)) n in
  let n := set_producer_next_sequence_id counters n in
  let new_commit_index :=
    commit_index n `max` (ae_leader_commit request `min` GetSavedLogSize n) in
  Done (set_commit_index new_commit_index n).

Definition AppendEntries (request : AppendEntriesReq) (n : MetamorphosisNode)
    : outcome (AppendEntriesRsp * MetamorphosisNode) :=
  current_term ← GetCurrentTerm n;
  let response success := MkAppendEntriesRsp current_term success in
  if decide (ae_term request < current_term) then Done (response false, n) else
  n ← AppendEntries_follow request n;
  ok ← AppendEntries_matches request n;
  if negb ok then Done (response false, n) else
  n ← AppendEntries_store request n;
  Done (response true, n).
End append_entries.

Definition RequestVote (request : RequestVoteReq) (n : MetamorphosisNode)
    : outcome (RequestVoteRsp * MetamorphosisNode) :=
  current_term ← GetCurrentTerm n;
  let reply b := MkRequestVoteRsp current_term b in
  if decide (rv_term request < current_term) then Done (reply false, n) else
  n ← (if decide (current_term < rv_term request) then
         n ← UpdateTerm (rv_term request) None n;
         if decide (state n ≠ Follower) then BecomeFollower n else Done n
       else Done n);
  let voted_for := GetVotedFor n in
  if decide (voted_for = Some (rv_candidate_id request)) then Done (reply true, n) else
  if decide (voted_for ≠ None) then Done (reply false, n) else
  let last_log_term := GetLastSavedLogTerm n in
  let granted :=
    if decide (rv_last_log_term request < last_log_term) then false
    else if decide (last_log_term = rv_last_log_term request)
    then bool_decide (GetSavedLogSize n ≤ rv_last_log_index request)
    else true in
  let n := if granted
           then set_raft_state (kv_Put "voted_for" (rv_candidate_id request) (raft_state n)) n
           else n in
  Done (reply granted, n).

(** ** Leader sessions *)

Definition LeaderMainSession_start (n : MetamorphosisNode) : outcome MetamorphosisNode :=
  m ← vec_set (match_index n) (node_id (config n)) (GetSavedLogSize n);
  Done (set_match_index m n).

Definition pending_batch (base : Z) (entries : list LogEntry) : list (batch_command LogEntry) :=
  imap (λ k entry, BatchPut (base +64 Z.of_nat k +64 1) entry) entries.

(** One iteration of the loop of [StartLeaderMainSession], up to the [Await]:
    the pending entries are counted, their producers may send again, and they
    are saved. *)
Definition LeaderMainSession_iteration (n : MetamorphosisNode) : outcome MetamorphosisNode :=
  let self := node_id (config n) in
  base ← vec_get (match_index n) self;
  let entries := pending_log n in
  let n := set_producer_next_sequence_id
             (count_entries entries (producer_next_sequence_id n)) n in
  let n := set_pending_producers
             (pending_producers n ∖ list_to_set (entry_producer_id <$> entries)) n in
  let n := set_raft_log (kv_Write (pending_batch base entries) (raft_log n)) n in
  m ← vec_set (match_index n) self (base +64 Z.of_nat (length entries));
  let n := set_match_index m n in
  let n := set_pending_log [] n in
  n ← UpdateCommitIndex n;
  Done (add_heartbeat_guard self n).

Definition Session_resume (id : nat) (n : MetamorphosisNode) : MetamorphosisNode :=
  set_heartbeat_guards (heartbeat_guards n ∖ {[id]}) n.

(** [log_entry.mutable_data()->clear()] *)
Definition hash_only (e : LogEntry) : LogEntry :=
  MkLogEntry (entry_term e) (entry_producer_id e) EmptyString (entry_md5hash e).

(** The last entry a session sends: while a majority of main nodes is alive,
    the other nodes receive committed entries only. *)
Definition last_log_entry_index (id : nat) (n : MetamorphosisNode) : outcome Z :=
  if decide (IsMainNode n id = false ∧ alive_main_nodes_count n = Z.of_nat (MajorityCount n))
  then Done (commit_index n)
  else self_next ← vec_get (next_index n) (node_id (config n)); Done (self_next -64 1).

Definition LeaderNodeSession_request (id : nat) (n : MetamorphosisNode)
    : outcome AppendEntriesReq :=
  next ← vec_get (next_index n) id;
  verify (bool_decide (1 ≤ next)) "invalid next_index";;
  term ← GetCurrentTerm n;
  prev_log_term ← (if decide (next = 1) then Done 0
                   else entry_term <$> GetValue (kv_Get (raft_log n) (next -64 1)));
  last ← last_log_entry_index id n;
  entries ← for_each (range next (last + 1)) (λ index acc,
    entry ← (entry ← GetLogEntry n index;
             Done (if decide (index ≤ commit_index n) then hash_only entry else entry));
    Done (acc ++ [entry])) [];
  Done (MkAppendEntries term (Z.of_nat (node_id (config n))) (next -64 1) prev_log_term
          entries (commit_index n)).

Inductive session_next : Type :=
  | SessionContinue
  | SessionJoinTimeout
  | SessionSleep.

(** The local [is_alive] of a session and the count of alive main nodes after
    an RPC: a failure is counted once, a recovery once. *)
Definition note_alive (id : nat) (ok : bool) (is_alive : bool) (n : MetamorphosisNode)
    : bool * MetamorphosisNode :=
  if Bool.eqb ok is_alive then (is_alive, n)
  else (ok, if IsMainNode n id
            then set_alive_main_nodes_count
                   (if ok then alive_main_nodes_count n +64 1
                    else alive_main_nodes_count n -64 1) n
            else n).

Definition LeaderNodeSession_response (id : nat) (is_alive : bool) (request : AppendEntriesReq)
    (result : Result AppendEntriesRsp RpcError) (n : MetamorphosisNode)
    : outcome (session_next * bool * MetamorphosisNode) :=
  if decide (state n ≠ Leader) then Done (SessionContinue, is_alive, n) else
  match result with
  | Err _ =>
      let '(is_alive, n) := note_alive id false is_alive n in
      Done (SessionJoinTimeout, is_alive, n)
  | Ok response =>
      let '(is_alive, n) := note_alive id true is_alive n in
      current ← GetCurrentTerm n;
      if decide (current < aer_term response) then
        n ← UpdateTerm (aer_term response) None n;
        n ← (if decide (state n ≠ Follower) then BecomeFollower n else Done n);
        Done (SessionContinue, is_alive, n)
      else
      next ← vec_get (next_index n) id;
      if negb (aer_success response) then
        verify (bool_decide (2 ≤ next)) "invalid state";;
        next' ← vec_set (next_index n) id (next -64 1);
        Done (SessionContinue, is_alive, set_next_index next' n)
      else
        let count := Z.of_nat (length (ae_entries request)) in
        m ← vec_set (match_index n) id (ae_prev_log_index request +64 count);
        next' ← vec_set (next_index n) id (next +64 count);
        let n := set_next_index next' (set_match_index m n) in
        n ← UpdateCommitIndex n;
        mine ← vec_get (next_index n) (node_id (config n));
        his ← vec_get (next_index n) id;
        if decide (his = mine) then
          Done (SessionSleep, is_alive, add_heartbeat_guard id n)
        else Done (SessionContinue, is_alive, n)
  end.

(** [StartLeader] after its sessions have been joined. *)
Definition StartLeader_end (n : MetamorphosisNode) : MetamorphosisNode := set_pending_log [] n.

(** ** Follower and candidate *)

Definition StartFollower_begin (n : MetamorphosisNode) : MetamorphosisNode :=
  let src := new_source n in let n := use_name n in set_reset_election_timeout src n.

Definition StartFollower_end (n : MetamorphosisNode) : outcome MetamorphosisNode :=
  if stopped (reset_election_timeout n) then Done n else BecomeCandidate n.

Definition StartCandidate_begin (n : MetamorphosisNode)
    : outcome (RequestVoteReq * MetamorphosisNode) :=
  let src := new_source n in let n := use_name n in
  let n := set_stop_election src n in
  current ← GetCurrentTerm n;
  n ← UpdateTerm (current +64 1) (Some (Z.of_nat (node_id (config n)))) n;
  term ← GetCurrentTerm n;
  Done (MkRequestVote term (Z.of_nat (node_id (config n))) (GetSavedLogSize n)
          (GetLastSavedLogTerm n), n).

Definition StartCandidate_vote (result : Result RequestVoteRsp RpcError) (votes_count : nat)
    (n : MetamorphosisNode) : outcome (nat * MetamorphosisNode) :=
  match result with
  | Err _ => Done (votes_count, n)
  | Ok r =>
      current ← GetCurrentTerm n;
      if decide (current < rvr_term r) then
        n ← UpdateTerm (rvr_term r) None n;
        n ← (if decide (state n ≠ Follower) then BecomeFollower n else Done n);
        Done (votes_count, n)
      else if negb (rvr_vote_granted r) then Done (votes_count, n)
      else
        let votes_count := S votes_count in
        if decide (votes_count = MajorityCount n ∧ state n = Candidate) then
          n ← BecomeLeader n; Done (votes_count, n)
        else Done (votes_count, n)
  end.
