(* ===== verification/MtfProcess.v ===== *)
(** * The fibers of a Metamorphosis node

    [MetamorphosisNode::StartNode] and the fibers it starts
    (src/metamorphosis/node/node.cpp), as in RaftProcess.v: [process_step] runs
    one fiber, or one RPC handler, from one suspension point to the next. A
    session remembers in [is_alive] whether its last RPC succeeded. *)

From S2P Require Import Prelude.
From S2P Require Import Result.
From S2P Require Import RtTypes.
From S2P Require Import KVInterface.
From S2P Require Import MtfNode.

Local Open Scope Z_scope.

Section process.
Variable ComputeMd5Hash : string → list Z.
Variable MessageDifferencer_Equals : LogEntry → LogEntry → bool.

(** A fiber of [StartLeaderNodeSession]. *)
Inductive session : Type :=
  | SessionReady (is_alive : bool)
  | SessionCalling (is_alive : bool) (request : AppendEntriesReq)
  | SessionDone.

(** The fiber of [StartLeaderMainSession]. *)
Inductive main_session : Type := MainNew | MainWaiting | MainDone.

(** The main fiber. *)
Inductive fiber : Type :=
  | InLoop
  | InFollower
  | InCandidate (votes_count : nat) (request_vote : RequestVoteReq) (waiting : gset nat)
  | InLeader (main : main_session) (sessions : gmap nat session).

Record Process : Type := MkProcess { node : MetamorphosisNode; main_fiber : fiber }.

Inductive event : Type :=
  | RunLoop
  | FollowerWakes
  | VoteReturns (id : nat) (result : Result RequestVoteRsp RpcError)
  | ElectionEnds
  | MainSessionRuns
  | SessionRuns (id : nat)
  | AppendReturns (id : nat) (result : Result AppendEntriesRsp RpcError)
  | LeaderEnds
  | HandleAppend (request : AppendReq)
  | AppendResumes (id : nat)
  | HandleRead (request : ReadReq)
  | HandleAppendEntries (request : AppendEntriesReq)
  | HandleRequestVote (request : RequestVoteReq).

(** What a step hands to the RPC layer. *)
Inductive output : Type :=
  | Silent
  | CallRequestVote (targets : list nat) (request : RequestVoteReq)
  | CallAppendEntries (target : nat) (request : AppendEntriesReq)
  | ReplyAppend (response : AppendRsp)
  | ReplyRead (response : Result ReadRsp RpcError)
  | ReplyAppendEntries (response : AppendEntriesRsp)
  | ReplyRequestVote (response : RequestVoteRsp).

(** All nodes but this one, in the order of the loops over [cluster_nodes]. *)
Definition other_nodes (n : MetamorphosisNode) : list nat :=
  filter (λ id, id ≠ node_id (config n)) (seq 0 (nodes_count n)).

(** [switch (state)] of [StartNode], with the part of the called method that
    runs before it first suspends. *)
Definition run_loop (n : MetamorphosisNode) : outcome (output * Process) :=
  match state n with
  | Leader =>
      Done (Silent, MkProcess n
        (InLeader MainNew (list_to_map ((λ id, (id, SessionReady true)) <$> other_nodes n))))
  | Follower => Done (Silent, MkProcess (StartFollower_begin n) InFollower)
  | Candidate =>
      '(request, n) ← StartCandidate_begin n;
      Done (CallRequestVote (other_nodes n) request,
            MkProcess n (InCandidate 1 request (list_to_set (other_nodes n))))
  end.

(** [while (state == State::Leader)] of [StartLeaderMainSession]. *)
Definition main_session_loop (n : MetamorphosisNode) : outcome (main_session * MetamorphosisNode) :=
  if decide (state n = Leader) then
    n ← LeaderMainSession_iteration n; Done (MainWaiting, n)
  else Done (MainDone, n).

Definition main_session_run (main : main_session) (n : MetamorphosisNode)
    : option (outcome (main_session * MetamorphosisNode)) :=
  match main with
  | MainNew => Some (n ← LeaderMainSession_start n; main_session_loop n)
  | MainWaiting => Some (main_session_loop (Session_resume (node_id (config n)) n))
  | MainDone => None
  end.

Definition session_done (s : session) : bool :=
  match s with SessionDone => true | _ => false end.

(** [process_step ev p] is [None] when the fiber that [ev] names cannot run. *)
Definition process_step (ev : event) (p : Process) : option (outcome (output * Process)) :=
  let n := node p in
  let fb := main_fiber p in
  match ev, fb with
  | RunLoop, InLoop => Some (run_loop n)
  | FollowerWakes, InFollower =>
      Some (n ← StartFollower_end n; Done (Silent, MkProcess n InLoop))
  | VoteReturns id result, InCandidate votes request waiting =>
      if decide (id ∈ waiting) then
        Some ('(votes, n) ← StartCandidate_vote result votes n;
              Done (Silent, MkProcess n (InCandidate votes request (waiting ∖ {[id]}))))
      else None
  | ElectionEnds, InCandidate _ _ waiting =>
      if decide (waiting = ∅) then Some (Done (Silent, MkProcess n InLoop)) else None
  | MainSessionRuns, InLeader main sessions =>
      m ← main_session_run main n;
      Some ('(main, n) ← m; Done (Silent, MkProcess n (InLeader main sessions)))
  | SessionRuns id, InLeader main sessions =>
      match sessions !! id with
      | Some (SessionReady is_alive) =>
          let n := Session_resume id n in
          Some (if decide (state n = Leader) then
                  request ← LeaderNodeSession_request id n;
                  Done (CallAppendEntries id request,
                        MkProcess n (InLeader main
                          (<[id := SessionCalling is_alive request]> sessions)))
                else Done (Silent, MkProcess n (InLeader main (<[id := SessionDone]> sessions))))
      | _ => None
      end
  | AppendReturns id result, InLeader main sessions =>
      match sessions !! id with
      | Some (SessionCalling is_alive request) =>
          Some ('(_, is_alive, n) ← LeaderNodeSession_response id is_alive request result n;
                Done (Silent, MkProcess n (InLeader main
                  (<[id := SessionReady is_alive]> sessions))))
      | _ => None
      end
  | LeaderEnds, InLeader MainDone sessions =>
      if decide (map_Forall (λ _ s, session_done s = true) sessions)
      then Some (Done (Silent, MkProcess (StartLeader_end n) InLoop))
      else None
  | HandleAppend request, _ =>
      Some ('(r, n) ← Append_begin ComputeMd5Hash request n;
            Done (match r with inl response => ReplyAppend response | inr _ => Silent end,
                  MkProcess n fb))
  | AppendResumes id, _ =>
      if Append_ready id n
      then Some ('(response, n) ← Append_finish id n; Done (ReplyAppend response, MkProcess n fb))
      else None
  | HandleRead request, _ => Some (Done (ReplyRead (Read request n), p))
  | HandleAppendEntries request, _ =>
      Some ('(response, n) ← AppendEntries MessageDifferencer_Equals request n;
            Done (ReplyAppendEntries response, MkProcess n fb))
  | HandleRequestVote request, _ =>
      Some ('(response, n) ← RequestVote request n;
            Done (ReplyRequestVote response, MkProcess n fb))
  | _, _ => None
  end.

(** [RunMain] on databases that may hold the state of an earlier run. *)
Definition RunMain (cfg : NodeConfig) (state_db : gmap string Z) (log_db : gmap Z LogEntry)
    : outcome Process :=
  n ← MetamorphosisNode_new cfg state_db log_db; Done (MkProcess n InLoop).

(** Run a list of events. *)
Fixpoint run_events (evs : list event) (p : Process) : option (outcome (list output * Process)) :=
  match evs with
  | [] => Some (Done ([], p))
  | ev :: evs =>
      match process_step ev p with
      | Some (Done (out, p)) =>
          match run_events evs p with
          | Some (Done (outs, p)) => Some (Done (out :: outs, p))
          | r => r
          end
      | Some (Panic m) => Some (Panic m)
      | Some (Undefined w) => Some (Undefined w)
      | None => None
      end
  end.
End process.
