(* ===== verification/MtfCluster.v ===== *)
(** * Metamorphosis clusters

    A cluster of Metamorphosis nodes over the network of RaftCluster.v: packets
    are never removed, so they can be delayed, duplicated, reordered and lost,
    and a process can crash at any time and restart on its databases. The first
    half says how every operation of MtfNode.v moves term, vote and role. *)

From S2P Require Import Prelude.
From S2P Require Import Result.
From S2P Require Import RtTypes.
From S2P Require Import KVInterface.
From S2P Require Import MtfNode.
From S2P Require Import MtfProcess.

Local Open Scope Z_scope.

Section node_props.
Implicit Types n : MetamorphosisNode.

Definition term n : Z := default 0 (raft_state n !! "current_term").
Definition vote n : option Z := raft_state n !! "voted_for".
Definition has_term n : Prop := is_Some (raft_state n !! "current_term").

Lemma mtf_GetCurrentTerm_Done n t : GetCurrentTerm n = Done t ↔ has_term n ∧ term n = t.
Proof.
  unfold GetCurrentTerm, has_term, term. rewrite kv_Get_value.
  split; [intros ->; eauto|]. by intros [[t' ->] <-].
Qed.

Lemma mtf_GetVotedFor n : GetVotedFor n = vote n.
Proof. unfold GetVotedFor, vote, kv_Get. by destruct (raft_state n !! "voted_for"). Qed.

Lemma mtf_UpdateTerm_shape t v n n' :
  UpdateTerm t v n = Done n' →
  ∃ db, n' = set_raft_state db n ∧ has_term n ∧ term n < t ∧
    has_term n' ∧ term n' = t ∧ vote n' = v.
Proof.
  unfold UpdateTerm. intros H. outcome_inv.
  match goal with H : GetCurrentTerm _ = _ |- _ => apply mtf_GetCurrentTerm_Done in H as [Ht <-] end.
  eexists. split; [done|]. unfold has_term, term, vote. simpl. split_and!; [done..| | |];
    destruct v; unfold kv_Put, kv_Delete;
    rewrite ?lookup_insert_eq, ?lookup_insert_ne, ?lookup_delete_ne, ?lookup_insert_eq, ?lookup_delete_eq
      by done; eauto.
Qed.

(** ** Evolution of term, vote and role *)

(** Terms only grow, and within a term a vote, once cast, stays. *)
Definition vote_le n n' : Prop :=
  term n < term n' ∨ term n = term n' ∧ (vote n = None ∨ vote n' = vote n).

Record evolves n n' : Prop := {
  ev_config : config n' = config n;
  ev_has_term : has_term n → has_term n';
  ev_vote : vote_le n n';
  ev_role : state n' ≠ Follower → state n' = state n ∧ term n' = term n;
}.

(** Only the role and the databases of the Raft state matter. *)
Definition same_vote n n' : Prop := config n' = config n ∧ raft_state n' = raft_state n.

Lemma mtf_vote_le_same n n' : raft_state n' = raft_state n → vote_le n n'.
Proof. unfold vote_le, term, vote. intros ->. auto. Qed.

Lemma mtf_evolves_same n n' :
  same_vote n n' → (state n' = state n ∨ state n' = Follower) → evolves n n'.
Proof.
  intros [Hc Hr] Hs. split; [done|unfold has_term; by rewrite Hr|by apply mtf_vote_le_same|].
  intros Hnf. destruct Hs; [|done]. split; [done|]. unfold term. by rewrite Hr.
Qed.

Lemma mtf_evolves_refl n : evolves n n.
Proof. apply mtf_evolves_same; [by split|auto]. Qed.

Lemma mtf_evolves_trans n1 n2 n3 : evolves n1 n2 → evolves n2 n3 → evolves n1 n3.
Proof.
  intros [H1 H2 H3 H4] [K1 K2 K3 K4]. split; [congruence|auto| |].
  - destruct H3 as [?|[? [?|Hv1]]], K3 as [?|[? [?|Hv2]]]; try (left; lia); right; (split; [lia|]);
      auto; [left|right]; congruence.
  - intros Hs. destruct (K4 Hs) as [Hs' Ht]. rewrite Hs' in Hs. destruct (H4 Hs). split; congruence.
Qed.

Lemma mtf_BecomeFollower_shape n n' :
  BecomeFollower n = Done n' → state n' = Follower ∧ same_vote n n'.
Proof.
  unfold BecomeFollower. intros H. outcome_inv. split; [done|].
  unfold Stop_leader. destruct (state n); simpl; [case_decide|..]; by split.
Qed.

(** [if (state != State::Follower) BecomeFollower();] *)
Lemma mtf_step_down_shape n n' :
  (if decide (state n ≠ Follower) then BecomeFollower n else Done n) = Done n' →
  state n' = Follower ∧ same_vote n n'.
Proof.
  case_decide as Hs; intros H; [by apply mtf_BecomeFollower_shape|].
  outcome_inv. split; [by destruct (decide (state n' = Follower))|by split].
Qed.

(** Moving to a later term as a follower. *)
Lemma mtf_later_term_evolves t v n n1 n' :
  UpdateTerm t v n = Done n1 →
  (if decide (state n1 ≠ Follower) then BecomeFollower n1 else Done n1) = Done n' →
  evolves n n' ∧ term n' = t ∧ has_term n' ∧ state n' = Follower.
Proof.
  intros (db & -> & _ & Hlt & Ht & Hterm & _)%mtf_UpdateTerm_shape (Hs & Hc & Hr)%mtf_step_down_shape.
  assert (Hterm' : term n' = t) by (unfold term in *; by rewrite Hr).
  assert (Ht' : has_term n') by (unfold has_term in *; by rewrite Hr).
  split_and!; [|done..]. split; [by rewrite Hc|done|left; lia|done].
Qed.

Lemma mtf_BecomeLeader_shape n n' :
  BecomeLeader n = Done n' → state n = Candidate ∧ state n' = Leader ∧ same_vote n n'.
Proof. unfold BecomeLeader. intros H. outcome_inv. by split_and!. Qed.

Lemma mtf_BecomeCandidate_shape n n' :
  BecomeCandidate n = Done n' → state n = Follower ∧ state n' = Candidate ∧ same_vote n n'.
Proof. unfold BecomeCandidate. intros H. outcome_inv. by split_and!. Qed.

(** Loops whose body keeps term, vote and role keep them. *)
Lemma mtf_loop_keeps {A} (body : A → MetamorphosisNode → outcome MetamorphosisNode) xs n n' :
  (∀ x m m', body x m = Done m' → same_vote m m' ∧ state m' = state m) →
  for_each xs body n = Done n' → same_vote n n' ∧ state n' = state n.
Proof.
  intros Hb H.
  refine (for_each_inv (λ _ m, same_vote n m ∧ state m = state n) _ _ _ _ H _ _); [by split_and!|].
  intros x xs' m m' [[Hc Hr] Hs] Hm. destruct (Hb _ _ _ Hm) as [[Hc' Hr'] Hs'].
  split; [split|]; congruence.
Qed.

Lemma mtf_UpdateCommitIndex_evolves n n' : UpdateCommitIndex n = Done n' → evolves n n'.
Proof.
  unfold UpdateCommitIndex. intros H. outcome_inv.
  match goal with H : for_each _ notify_committed _ = _ |- _ => apply mtf_loop_keeps in H as [[Hc Hr] Hs] end.
  - apply mtf_evolves_same; [by split|by left].
  - intros i m m' Hm. unfold notify_committed in Hm. repeat case_match; outcome_inv; by split_and!.
Qed.

(** ** Handlers *)

Variable ComputeMd5Hash : string → list Z.
Variable MessageDifferencer_Equals : LogEntry → LogEntry → bool.

Lemma mtf_AppendEntries_store_evolves req n n' :
  AppendEntries_store MessageDifferencer_Equals req n = Done n' → evolves n n'.
Proof.
  unfold AppendEntries_store. intros H. outcome_inv.
  match goal with H : for_each _ (check_committed _ _) _ = Done ?m |- _ =>
    apply mtf_loop_keeps in H as [[Hc1 Hr1] Hs1];
      [|intros i m1 m1' Hm; unfold check_committed in Hm; outcome_inv; by split_and!] end.
  match goal with H : for_each _ uncount_entry _ = Done ?m |- _ =>
    apply mtf_loop_keeps in H as [[Hc2 Hr2] Hs2];
      [|intros i m1 m1' Hm; unfold uncount_entry in Hm; outcome_inv; by split_and!] end.
  apply mtf_evolves_same; [split|left]; simpl; congruence.
Qed.

Lemma mtf_AppendEntries_follow_evolves req n n' :
  AppendEntries_follow req n = Done n' → term n ≤ ae_term req → evolves n n' ∧ state n' = Follower.
Proof.
  unfold AppendEntries_follow. intros H Hle. outcome_inv.
  set (n0 := set_reset_election_timeout _ n) in *.
  match goal with H : GetCurrentTerm n0 = _ |- _ => apply mtf_GetCurrentTerm_Done in H as [Ht0 <-] end.
  match goal with H : (if _ then BecomeFollower n0 else _) = Done ?m |- _ =>
    rename m into n1; rename H into Hbf end.
  assert (Hn1 : state n1 = Follower ∧ same_vote n n1).
  { case_if Hbf as [Hd|Hd]; [by apply mtf_BecomeFollower_shape in Hbf|]. split; [|by split].
    match goal with |- state ?m = _ => destruct (decide (state m = Follower)) end; [done|]. exfalso. apply Hd. by split. }
  destruct Hn1 as [Hs1 [Hc1 Hr1]].
  match goal with H : GetCurrentTerm n1 = _ |- _ => apply mtf_GetCurrentTerm_Done in H as [_ <-] end.
  match goal with H : (if _ then UpdateTerm _ _ _ else _) = _ |- _ => case_if H as [Hlt|Hge] end.
  - match goal with H : UpdateTerm _ _ _ = _ |- _ => 
      apply mtf_UpdateTerm_shape in H as (db & -> & _ & _ & Ht & Hterm & _) end.
    split; [|done]. split; [done|done| |done]. left. rewrite Hterm.
    unfold term in Hlt |- *. by rewrite Hr1 in Hlt.
  - outcome_inv. split; [|done]. apply mtf_evolves_same; [by split|by right].
Qed.

Lemma mtf_AppendEntries_evolves req n res n' :
  AppendEntries MessageDifferencer_Equals req n = Done (res, n') → evolves n n'.
Proof.
  unfold AppendEntries. intros H. outcome_inv.
  match goal with H : GetCurrentTerm n = _ |- _ => apply mtf_GetCurrentTerm_Done in H as [_ <-] end.
  case_decide; outcome_inv; [apply mtf_evolves_refl|].
  match goal with H : AppendEntries_follow _ _ = _ |- _ =>
    apply mtf_AppendEntries_follow_evolves in H as [Hev _]; [|lia] end.
  match goal with H : AppendEntries_matches _ _ = Done ?b |- _ => destruct b end; simpl in *; outcome_inv; [|done].
  eapply mtf_evolves_trans; [done|]. by eapply mtf_AppendEntries_store_evolves.
Qed.

Lemma mtf_RequestVote_inv req n res n' :
  RequestVote req n = Done (res, n') →
  evolves n n' ∧
  (rvr_vote_granted res = true → term n' = rv_term req ∧ vote n' = Some (rv_candidate_id req)).
Proof.
  unfold RequestVote. intros H. outcome_inv.
  match goal with H : GetCurrentTerm n = _ |- _ => apply mtf_GetCurrentTerm_Done in H as [Ht <-] end.
  case_decide as Hlt; outcome_inv; [by split; [apply mtf_evolves_refl|]|].
  match goal with H : (if decide (term n < _) then _ else _) = Done ?m |- _ =>
    rename m into n1; rename H into Hup end.
  assert (Hn1 : evolves n n1 ∧ term n1 = rv_term req ∧ has_term n1).
  { case_if Hup as [Hnew|Hnew].
    - match goal with H : UpdateTerm _ _ _ = _ |- _ =>
        eapply mtf_later_term_evolves in H as (? & ? & ? & _); [|done] end. done.
    - split_and!; [apply mtf_evolves_refl|lia|done]. }
  destruct Hn1 as (Hev & Hterm & Ht1). rewrite mtf_GetVotedFor in *.
  case_decide as Hv; outcome_inv; [done|]. case_decide as Hnone; outcome_inv; [done|].
  match goal with |- context [if ?g then set_raft_state _ _ else _] => destruct g eqn:Hg end; [|done].
  set (n2 := set_raft_state _ n1).
  assert (Hterm2 : term n2 = term n1) by (unfold term; simpl; unfold kv_Put; by rewrite lookup_insert_ne).
  assert (Hvote2 : vote n2 = Some (rv_candidate_id req))
    by (unfold vote; simpl; unfold kv_Put; by rewrite lookup_insert_eq).
  split; [|by rewrite Hterm2, Hvote2].
  eapply mtf_evolves_trans; [done|]. split; [done| | |done].
  - unfold has_term. simpl. unfold kv_Put. by rewrite lookup_insert_ne.
  - right. split; [done|]. left. by destruct (vote n1).
Qed.

(** ** Sessions and requests *)

Lemma mtf_add_heartbeat_guard_evolves id n : evolves n (add_heartbeat_guard id n).
Proof.
  unfold add_heartbeat_guard. destruct (stopped _); (apply mtf_evolves_same; [by split|by left]).
Qed.

Lemma mtf_Append_begin_evolves req n res n' :
  Append_begin ComputeMd5Hash req n = Done (res, n') → evolves n n'.
Proof.
  unfold Append_begin. intros H.
  repeat (case_decide; outcome_inv; [apply mtf_evolves_same; [by split|by left]|]).
  apply mtf_evolves_same; [by split|by left].
Qed.

Lemma mtf_Append_finish_evolves id n res n' :
  Append_finish id n = Done (res, n') → evolves n n'.
Proof.
  unfold Append_finish. intros H. destruct (frames n !! id); outcome_inv.
  case_decide; outcome_inv; (apply mtf_evolves_same; [by split|by left]).
Qed.

Lemma mtf_main_iteration_evolves n n' : LeaderMainSession_iteration n = Done n' → evolves n n'.
Proof.
  unfold LeaderMainSession_iteration. intros H. outcome_inv.
  match goal with H : UpdateCommitIndex _ = _ |- _ => apply mtf_UpdateCommitIndex_evolves in H end.
  eapply mtf_evolves_trans; [|apply mtf_add_heartbeat_guard_evolves].
  eapply mtf_evolves_trans; [|done]. apply mtf_evolves_same; [by split|by left].
Qed.

Lemma mtf_Session_resume_evolves id n : evolves n (Session_resume id n).
Proof. apply mtf_evolves_same; [by split|by left]. Qed.

Lemma mtf_main_session_evolves main n m main' n' :
  main_session_run main n = Some m → m = Done (main', n') → evolves n n'.
Proof.
  intros Hm ->.
  assert (Hloop : ∀ n1 r, main_session_loop n1 = Done r → evolves n1 r.2).
  { intros n1 [? ?] H. unfold main_session_loop in H. case_decide; outcome_inv; simpl.
    - by apply mtf_main_iteration_evolves.
    - apply mtf_evolves_refl. }
  destruct main; simplify_eq/=.
  - unfold LeaderMainSession_start in *. outcome_inv.
    eapply mtf_evolves_trans; [|by eapply (Hloop _ (_, _))]. apply mtf_evolves_same; [by split|by left].
  - eapply mtf_evolves_trans; [apply mtf_Session_resume_evolves|]. by eapply (Hloop _ (_, _)).
Qed.

Lemma mtf_note_alive_evolves id ok alive n : evolves n (note_alive id ok alive n).2.
Proof.
  unfold note_alive. repeat case_match; simplify_eq/=; try apply mtf_evolves_refl;
    (apply mtf_evolves_same; [by split|by left]).
Qed.

Lemma mtf_session_response_evolves id alive req result n r n' :
  LeaderNodeSession_response id alive req result n = Done (r, n') → evolves n n'.
Proof.
  unfold LeaderNodeSession_response. intros H.
  case_decide; outcome_inv; [apply mtf_evolves_refl|]. clear H0.
  destruct result as [response|].
  2: { pose proof (mtf_note_alive_evolves id false alive n) as Hna.
       destruct (note_alive id false alive n). by outcome_inv. }
  pose proof (mtf_note_alive_evolves id true alive n) as Hna.
  destruct (note_alive id true alive n) as [alive' n1]. simpl in Hna. outcome_inv.
  eapply mtf_evolves_trans; [exact Hna|]. case_decide; outcome_inv.
  { match goal with H : UpdateTerm _ _ _ = _ |- _ =>
      eapply mtf_later_term_evolves in H as (? & _); done end. }
  case_match; outcome_inv; [apply mtf_evolves_same; [by split|by left]|].
  match goal with H : UpdateCommitIndex _ = _ |- _ => apply mtf_UpdateCommitIndex_evolves in H end.
  case_decide; outcome_inv;
    [eapply mtf_evolves_trans; [|apply mtf_add_heartbeat_guard_evolves]|];
    (eapply mtf_evolves_trans; [|done]); (apply mtf_evolves_same; [by split|by left]).
Qed.

(** ** Elections *)

Lemma mtf_StartCandidate_begin_inv n req n' :
  StartCandidate_begin n = Done (req, n') →
  config n' = config n ∧ has_term n' ∧ term n < term n' ∧ state n' = state n ∧
  vote n' = Some (Z.of_nat (node_id (config n))) ∧
  rv_term req = term n' ∧ rv_candidate_id req = Z.of_nat (node_id (config n)).
Proof.
  unfold StartCandidate_begin. simpl. intros H. outcome_inv.
  match goal with H : UpdateTerm _ _ _ = _ |- _ =>
    apply mtf_UpdateTerm_shape in H as (db & -> & _ & Hlt & Ht' & Hterm' & Hvote') end.
  match goal with H : GetCurrentTerm (set_raft_state _ _) = _ |- _ =>
    apply mtf_GetCurrentTerm_Done in H as [_ <-] end.
  split_and!; try done. unfold term in Hlt at 1. simpl in Hlt. rewrite Hterm'. exact Hlt.
Qed.

Inductive vote_outcome (result : Result RequestVoteRsp RpcError) (votes : nat) n
    : nat → MetamorphosisNode → Prop :=
  | vote_ignored n' : evolves n n' → vote_outcome result votes n votes n'
  | vote_counted r :
      result = Ok r → rvr_vote_granted r = true → vote_outcome result votes n (S votes) n
  | vote_wins r n' :
      result = Ok r → rvr_vote_granted r = true →
      S votes = MajorityCount n → state n = Candidate →
      state n' = Leader → same_vote n n' → vote_outcome result votes n (S votes) n'.

Lemma mtf_StartCandidate_vote_inv result votes n votes' n' :
  StartCandidate_vote result votes n = Done (votes', n') →
  vote_outcome result votes n votes' n'.
Proof.
  unfold StartCandidate_vote. intros H.
  destruct result as [r|]; outcome_inv; [|apply vote_ignored, mtf_evolves_refl].
  case_decide; outcome_inv.
  { match goal with H : UpdateTerm _ _ _ = _ |- _ =>
      eapply mtf_later_term_evolves in H as (? & _); [|done] end. by apply vote_ignored. }
  destruct (rvr_vote_granted r) eqn:Hg; simpl in *; outcome_inv; [|apply vote_ignored, mtf_evolves_refl].
  case_decide as Hwin; outcome_inv; [|by eapply vote_counted].
  match goal with H : BecomeLeader _ = _ |- _ => apply mtf_BecomeLeader_shape in H as (_ & ? & ?) end.
  destruct Hwin. by eapply vote_wins.
Qed.

(** A node that starts on databases keeps their term and vote. *)
Lemma mtf_RunMain_inv cfg state_db log_db p :
  RunMain cfg state_db log_db = Done p →
  config (node p) = cfg ∧ state (node p) = Follower ∧ main_fiber p = InLoop ∧ has_term (node p) ∧
  term (node p) = default 0 (state_db !! "current_term") ∧ vote (node p) = state_db !! "voted_for".
Proof.
  unfold RunMain, MetamorphosisNode_new. intros H. outcome_inv.
  match goal with H : for_each _ count_entry _ = _ |- _ => apply mtf_loop_keeps in H as [[Hc Hr] Hs] end.
  2: { intros i m m' Hm. unfold count_entry in Hm. outcome_inv. by split_and!. }
  unfold has_term, term, vote. simpl in *. rewrite Hr. unfold kv_Get, kv_Put.
  destruct (state_db !! "current_term") eqn:Ht.
  - rewrite Ht. split_and!; eauto.
  - rewrite lookup_insert_eq, lookup_insert_ne by done. split_and!; eauto.
Qed.
End node_props.

(** ** Clusters *)

Section cluster.
Variable ComputeMd5Hash : string → list Z.
Variable MessageDifferencer_Equals : LogEntry → LogEntry → bool.

(** A call and its reply; [caller] and [target] are node ids. *)
Inductive packet : Type :=
  | PVote (caller target : nat) (request : RequestVoteReq)
  | PVoteReply (caller target : nat) (request : RequestVoteReq) (result : RequestVoteRsp)
  | PAppend (caller target : nat) (request : AppendEntriesReq)
  | PAppendReply (caller target : nat) (request : AppendEntriesReq) (result : AppendEntriesRsp).

(** The processes, all packets ever sent, and who voted for whom and led when. *)
Record Cluster : Type := MkCluster {
  processes : gmap nat Process;
  network : list packet;
  ballots : list (Z * nat * Z);   (** (term, voter, candidate) *)
  leaders : list (Z * nat);       (** (term, leader) *)
}.

Definition sent (i : nat) (out : output) : list packet :=
  match out with
  | CallRequestVote targets request => (λ t, PVote i t request) <$> targets
  | CallAppendEntries target request => [PAppend i target request]
  | _ => []
  end.

(** Events that need nothing from the network. *)
Definition is_local (ev : event) : bool :=
  match ev with
  | VoteReturns _ (Ok _) | AppendReturns _ (Ok _)
  | HandleAppendEntries _ | HandleRequestVote _ => false
  | _ => true
  end.

Definition update (i : nat) (p' : Process) (packets : list packet) (c : Cluster) : Cluster :=
  MkCluster (<[i := p']> (processes c)) (packets ++ network c)
    match vote (node p') with
    | Some candidate => (term (node p'), i, candidate) :: ballots c
    | None => ballots c
    end
    (if decide (state (node p') = Leader) then (term (node p'), i) :: leaders c else leaders c).

Definition runs (ev : event) (p : Process) (out : output) (p' : Process) : Prop :=
  process_step ComputeMd5Hash MessageDifferencer_Equals ev p = Some (Done (out, p')).

Inductive step : Cluster → Cluster → Prop :=
  | step_local c i p ev out p' :
      processes c !! i = Some p → is_local ev = true → runs ev p out p' →
      step c (update i p' (sent i out) c)
  | step_vote_request c caller i request p result p' :
      PVote caller i request ∈ network c → processes c !! i = Some p →
      runs (HandleRequestVote request) p (ReplyRequestVote result) p' →
      step c (update i p' [PVoteReply caller i request result] c)
  | step_vote_reply c i target request result p votes waiting out p' :
      PVoteReply i target request result ∈ network c → processes c !! i = Some p →
      main_fiber p = InCandidate votes request waiting →
      runs (VoteReturns target (Ok result)) p out p' →
      step c (update i p' [] c)
  | step_append_request c caller i request p result p' :
      PAppend caller i request ∈ network c → processes c !! i = Some p →
      runs (HandleAppendEntries request) p (ReplyAppendEntries result) p' →
      step c (update i p' [PAppendReply caller i request result] c)
  | step_append_reply c i target request result p main sessions is_alive out p' :
      PAppendReply i target request result ∈ network c → processes c !! i = Some p →
      main_fiber p = InLeader main sessions →
      sessions !! target = Some (SessionCalling is_alive request) →
      runs (AppendReturns target (Ok result)) p out p' →
      step c (update i p' [] c)
  | step_restart c i p p' :
      processes c !! i = Some p →
      RunMain (config (node p)) (raft_state (node p)) (raft_log (node p)) = Done p' →
      step c (MkCluster (<[i := p']> (processes c)) (network c) (ballots c) (leaders c)).

(** Processes with empty databases, each configured with its index. *)
Definition initial (configs : list NodeConfig) (c : Cluster) : Prop :=
  network c = [] ∧ ballots c = [] ∧ leaders c = [] ∧
  (∀ i cfg, configs !! i = Some cfg → node_id cfg = i ∧ length (cluster_nodes cfg) = length configs) ∧
  (∀ i p, processes c !! i = Some p → ∃ cfg, configs !! i = Some cfg ∧ RunMain cfg ∅ ∅ = Done p).

Definition reachable (configs : list NodeConfig) (c : Cluster) : Prop :=
  ∃ c0, initial configs c0 ∧ rtc step c0 c.
End cluster.
