(* ===== verification/MtfElection.v ===== *)
(** * Election safety of Metamorphosis

    Every step of a Metamorphosis process is a step of the abstract node of
    Election.v, so the clusters of MtfCluster.v simulate its elections and a
    term never has two leaders. *)

From S2P Require Import Prelude.
From S2P Require Import Election.
From S2P Require Import Result.
From S2P Require Import RtTypes.
From S2P Require Import KVInterface.
From S2P Require Import MtfNode.
From S2P Require Import MtfProcess.
From S2P Require Import MtfCluster.

Local Open Scope Z_scope.

Section election.
Variable ComputeMd5Hash : string → list Z.
Variable MessageDifferencer_Equals : LogEntry → LogEntry → bool.
Abbreviation runs := (runs ComputeMd5Hash MessageDifferencer_Equals).
Abbreviation step := (step ComputeMd5Hash MessageDifferencer_Equals).

(** ** Views *)

Definition role_of (s : State) : role :=
  match s with Leader => RLeader | Follower => RFollower | Candidate => RCandidate end.

Definition view_of (p : Process) : view :=
  MkView (node_id (config (node p))) (nodes_count (node p))
    (bool_decide (is_Some (raft_state (node p) !! "current_term")))
    (term (node p)) (vote (node p)) (role_of (state (node p)))
    match main_fiber p with
    | InCandidate votes req w => Some (votes, rv_term req, w)
    | _ => None
    end.

Definition label_of (ev : event) (out : output) : label :=
  match ev, out with
  | VoteReturns id (Ok r), _ => LVoteReturns id (rvr_vote_granted r)
  | VoteReturns id (Err _), _ => LVoteReturns id false
  | HandleRequestVote req, ReplyRequestVote res =>
      LVoteHandled (rv_term req) (rv_candidate_id req) (rvr_vote_granted res)
  | _, _ => LOther
  end.

Lemma mtf_role_of_inj s s' : role_of s = role_of s' → s = s'.
Proof. by destruct s, s'. Qed.

(** A step that moves the node by an evolution and keeps the main fiber or
    leaves it outside an election. *)
Lemma mtf_evolves_view l p p' :
  evolves (node p) (node p') →
  main_fiber p' = main_fiber p ∨ (∀ votes req w, main_fiber p' ≠ InCandidate votes req w) →
  (∀ t d, l = LVoteHandled t d true → term (node p') = t ∧ vote (node p') = Some d) →
  view_step l (view_of p) (view_of p').
Proof.
  intros [Hc Ht Hv Hr] Hf Hg.
  assert (Hrole : ∀ s, s ≠ Follower → role_of (state (node p')) = role_of s →
            role_of (state (node p)) = role_of s ∧ term (node p') = term (node p)).
  { intros s Hs He%mtf_role_of_inj. rewrite <-He in *. destruct (Hr Hs) as [Hst ?]. by rewrite Hst. }
  split; simpl; [by rewrite Hc|unfold nodes_count; by rewrite Hc| |exact Hv| | |exact Hg].
  - rewrite !bool_decide_eq_true. apply Ht.
  - destruct Hf as [Hf|Hf].
    + apply count_same; [by simpl; rewrite Hf|]. intros Hs. by apply (Hrole Candidate).
    + apply count_none. simpl. destruct (main_fiber p'); try done. by destruct (Hf votes_count request_vote waiting).
  - intros Hs. left. by apply (Hrole Leader).
Qed.

Lemma mtf_run_loop_view n out p' :
  run_loop n = Done (out, p') → view_step LOther (view_of (MkProcess n InLoop)) (view_of p').
Proof.
  unfold run_loop. intros H. destruct (state n) eqn:Hs; outcome_inv.
  - apply mtf_evolves_view; simpl; [apply mtf_evolves_refl|by right|done].
  - apply mtf_evolves_view; simpl; [apply mtf_evolves_same; [by split|by left]|by right|done].
  - simpl in *.
    match goal with H : StartCandidate_begin _ = Done (?r, ?m) |- _ =>
      rename r into req; rename m into n';
      apply mtf_StartCandidate_begin_inv in H as (Hc & Ht & Hlt & Hst & Hv & Hrt & Hrc) end.
    split; simpl; [by rewrite Hc|unfold nodes_count; by rewrite Hc| |by left| | |done].
    + intros _. by apply bool_decide_eq_true.
    + apply (count_start _ _ _ (list_to_set (other_nodes n'))); simpl; [by rewrite Hrt| |by rewrite Hv, Hc].
      rewrite elem_of_list_to_set. unfold other_nodes. rewrite list_elem_of_filter. by intros [? _].
    + rewrite Hst, Hs. done.
Qed.

Lemma mtf_vote_returns_view id result votes req w n votes' n' :
  id ∈ w → vote_outcome result votes n votes' n' →
  view_step (label_of (VoteReturns id result) Silent)
    (view_of (MkProcess n (InCandidate votes req w)))
    (view_of (MkProcess n' (InCandidate votes' req (w ∖ {[id]})))).
Proof.
  intros Hin Ho.
  assert (Hl : ∃ g, label_of (VoteReturns id result) Silent = LVoteReturns id g ∧
                    ∀ r, result = Ok r → g = rvr_vote_granted r).
  { destruct result; eexists; (split; [done|]); by intros r [=]; subst. }
  destruct Hl as (g & -> & Hg).
  destruct Ho as [n' [Hc Ht Hv Hr]|r Hres Hgr|r n' Hres Hgr Hmaj Hs Hs' [Hc Hrs]].
  - split; simpl; [by rewrite Hc|unfold nodes_count; by rewrite Hc| |exact Hv| | |done].
    + rewrite !bool_decide_eq_true. apply Ht.
    + eapply count_vote; simpl; [done|done|done|done|by left|]. intros Hs%(mtf_role_of_inj _ Candidate). simpl in *.
      destruct Hr as [Hst ?]; [by rewrite Hs|]. by rewrite <-Hst, Hs.
    + intros Hs%(mtf_role_of_inj _ Leader). left.
      destruct Hr as [Hst ?]; [by rewrite Hs|]. by rewrite <-Hst, Hs.
  - rewrite (Hg _ Hres), Hgr. split; simpl; [done|done|done|right; auto| |by left|done].
    eapply count_vote; simpl; [done|done|done|done|by right|]. by intros ?.
  - rewrite (Hg _ Hres), Hgr.
    split; simpl; [by rewrite Hc|unfold nodes_count; by rewrite Hc|by rewrite Hrs| | | |done].
    + by apply mtf_vote_le_same.
    + eapply count_vote; simpl; [done|done|done|done|by right|]. intros Hr. simpl in Hr. by rewrite Hs' in Hr.
    + intros _. right. exists id, votes, (rv_term req), w. simpl. rewrite Hs.
      split_and!; try done. unfold term. by rewrite Hrs.
Qed.

(** Every step of a process is a step of the abstract node. *)
Lemma mtf_process_view_step ev p out p' :
  runs ev p out p' → view_step (label_of ev out) (view_of p) (view_of p').
Proof.
  unfold MtfCluster.runs, process_step. intros H. destruct p as [n fb]. simpl in H.
  destruct ev; repeat case_match; simplify_eq/=; outcome_inv.
  - by eapply mtf_run_loop_view.
  - unfold StartFollower_end in *. case_match; outcome_inv.
    { apply mtf_evolves_view; simpl; [apply mtf_evolves_refl|by right|done]. }
    match goal with H : BecomeCandidate _ = _ |- _ => apply mtf_BecomeCandidate_shape in H as (Hs & Hs' & Hc & Hr) end.
    split; simpl; [by rewrite Hc|unfold nodes_count; by rewrite Hc|by rewrite Hr| | |by rewrite Hs'|done].
    + by apply mtf_vote_le_same.
    + by apply count_none.
  - match goal with H : StartCandidate_vote _ _ _ = _ |- _ => apply mtf_StartCandidate_vote_inv in H end.
    by apply (mtf_vote_returns_view _ (Ok _)) || by apply (mtf_vote_returns_view _ result).
  - apply mtf_evolves_view; simpl; [apply mtf_evolves_refl|by right|done].
  - apply bind_Some in H as (m & Hm & [= H]). outcome_inv.
    apply mtf_evolves_view; simpl; [by eapply mtf_main_session_evolves|by right|done].
  - apply mtf_evolves_view; simpl; [apply mtf_Session_resume_evolves|by right|done].
  - apply mtf_evolves_view; simpl; [apply mtf_Session_resume_evolves|by right|done].
  - apply mtf_evolves_view; simpl; [by eapply mtf_session_response_evolves|by right|done].
  - apply mtf_evolves_view; simpl; [apply mtf_evolves_same; [by split|by left]|by right|done].
  - apply mtf_evolves_view; simpl; [by eapply mtf_Append_begin_evolves|by left|done].
  - apply mtf_evolves_view; simpl; [by eapply mtf_Append_finish_evolves|by left|done].
  - apply mtf_evolves_view; simpl; [apply mtf_evolves_refl|by left|done].
  - apply mtf_evolves_view; simpl; [by eapply mtf_AppendEntries_evolves|by left|done].
  - match goal with H : RequestVote _ _ = _ |- _ => apply mtf_RequestVote_inv in H as [Hev Hg] end.
    apply mtf_evolves_view; simpl; [done|by left|]. intros t d [= <- <- Hgr]. by apply Hg.
Qed.

(** ** Clusters *)

Definition vote_asked (k : packet) : option (nat * nat * Z * Z) :=
  match k with
  | PVote caller target req => Some (caller, target, rv_term req, rv_candidate_id req)
  | _ => None
  end.

Definition vote_granted (k : packet) : option (nat * nat * Z) :=
  match k with
  | PVoteReply caller target req res =>
      if rvr_vote_granted res then Some (caller, target, rv_term req) else None
  | _ => None
  end.

Definition election_of (c : Cluster) : election :=
  MkElection (view_of <$> processes c) (omap vote_asked (network c)) (omap vote_granted (network c))
    (ballots c) (leaders c).

Lemma mtf_election_of_update i p' packets c :
  election_of (update i p' packets c) =
    moves i (view_of p') (omap vote_asked packets) (omap vote_granted packets) (election_of c).
Proof.
  unfold election_of, moves. simpl. rewrite fmap_insert, !omap_app. f_equal.
  unfold record_leader. simpl. by destruct (state (node p')).
Qed.

(** A process asks for votes for itself, and sends no votes of its own accord. *)
Lemma mtf_sent_asked ev i p out p' :
  runs ev p out p' →
  asks_for_itself i (node_id (config (node p))) (omap vote_asked (sent i out)) ∧
  omap vote_granted (sent i out) = [].
Proof.
  intros Hrun.
  assert (Hself : ∀ targets req, out = CallRequestVote targets req →
            rv_candidate_id req = Z.of_nat (node_id (config (node p)))).
  { intros targets req ->. unfold MtfCluster.runs, process_step in Hrun. destruct p as [n fb]. simpl in *.
    destruct ev; repeat case_match; simplify_eq/=; outcome_inv.
    - match goal with H : run_loop _ = _ |- _ => unfold run_loop in H; destruct (state n); outcome_inv end.
      simpl in *. match goal with H : StartCandidate_begin _ = _ |- _ =>
        apply mtf_StartCandidate_begin_inv in H as (_ & _ & _ & _ & _ & _ & ?) end. done.
    - apply bind_Some in Hrun as (m & Hm & [= H]). by outcome_inv.
    - by case_match. }
  destruct out; simpl; try (split; [intros r []%not_elem_of_nil|done]).
  specialize (Hself _ _ eq_refl). split.
  - intros r Hr. apply list_elem_of_omap in Hr as (k & Hk & Hr).
    apply list_elem_of_fmap in Hk as (t & -> & _). simpl in Hr. injection Hr as <-. rewrite Hself. eauto.
  - clear Hself Hrun. by induction targets.
Qed.

Context (configs : list NodeConfig).

Definition cluster_inv (c : Cluster) : Prop := election_inv (length configs) (election_of c).

Lemma mtf_election_simulates c c' :
  cluster_inv c → step c c' → election_step (election_of c) (election_of c').
Proof.
  intros Hinv Hstep.
  destruct Hstep as
    [c i p ev out p' Hp Hloc Hrun|c caller i req p res p' Hin Hp Hrun
    |c i target req res p votes w out p' Hin Hp Hf Hrun
    |c caller i req p res p' Hin Hp Hrun|c i target req res p main ss alive out p' Hin Hp Hf Hss Hrun
    |c i p p' Hp Hrun].
  all: assert (Hview : views (election_of c) !! i = Some (view_of p)) by (simpl; by rewrite lookup_fmap, Hp).
  6: { unfold election_of at 2. simpl. rewrite fmap_insert.
       apply (es_restart (election_of c) i (view_of p)); [done|].
       apply mtf_RunMain_inv in Hrun as (Hc & Hs & Hf & Ht & Hterm & Hvote).
       split; simpl; [by rewrite Hc|unfold nodes_count; by rewrite Hc| |done|done|by rewrite Hs|by rewrite Hf].
       by apply bool_decide_eq_true. }
  all: pose proof (mtf_process_view_step _ _ _ _ Hrun) as Hvs.
  all: rewrite mtf_election_of_update.
  - destruct (mtf_sent_asked _ i _ _ _ Hrun) as [Hasks ->].
    apply (es_other _ _ (view_of p) (label_of ev out)); [done| | |done|done];
      destruct ev as [| |? []| | | |? []| | | | | |]; done.
  - simpl in Hvs |- *. destruct (rvr_vote_granted res) eqn:Hg.
    + apply (es_grant _ caller i (rv_term req) (rv_candidate_id req) (view_of p)); [|done|done].
      simpl. apply list_elem_of_omap. eauto.
    + eapply (es_other _ _ (view_of p)); [done|..|done|]; [done|done|]. intros r []%not_elem_of_nil.
  - simpl in Hvs |- *. destruct (rvr_vote_granted res) eqn:Hg.
    + apply (es_count _ i target (view_of p) votes (rv_term req) w); [|done|simpl; by rewrite Hf|done].
      simpl. apply list_elem_of_omap. exists (PVoteReply i target req res). split; [done|]. simpl. by rewrite Hg.
    + eapply (es_other _ _ (view_of p)); [done|..|done|]; [by intros ? [=]|done|]. intros r []%not_elem_of_nil.
  - simpl. eapply (es_other _ _ (view_of p)); [done|..|done|]; [done|done|]. intros r []%not_elem_of_nil.
  - simpl. eapply (es_other _ _ (view_of p)); [done|..|done|]; [done|done|]. intros r []%not_elem_of_nil.
Qed.

Lemma mtf_initial_inv c : initial configs c → cluster_inv c.
Proof.
  intros (Hnet & Hb & Hl & Hcfg & Hp).
  assert (Hproc : ∀ i v, views (election_of c) !! i = Some v →
    ∃ cfg p, configs !! i = Some cfg ∧ v = view_of p ∧ RunMain cfg ∅ ∅ = Done p).
  { intros i v Hi. simpl in Hi. rewrite lookup_fmap in Hi. apply fmap_Some in Hi as (p & Hi & ->).
    apply Hp in Hi as (cfg & ? & ?). eauto. }
  assert (Hnew : ∀ i v, views (election_of c) !! i = Some v →
    v_vote v = None ∧ v_count v = None ∧ v_role v = RFollower).
  { intros i v (cfg & p & _ & -> & (_ & Hs & Hf & _ & _ & Hv)%mtf_RunMain_inv)%Hproc. simpl.
    by rewrite Hs, Hf, Hv. }
  split.
  all: try (unfold election_of; rewrite ?Hb, ?Hl, ?Hnet; simpl; intros *; by (intros []%not_elem_of_nil)).
  - intros i v (cfg & p & Hi & -> & (Hc & _ & _ & Ht & _)%mtf_RunMain_inv)%Hproc.
    destruct (Hcfg _ _ Hi). simpl. unfold nodes_count. rewrite Hc. split_and!; [|done..|].
    + by eapply lookup_lt_Some.
    + by apply bool_decide_eq_true.
  - intros i v d (Hv & _)%Hnew. by rewrite Hv.
  - intros i v votes t w (_ & Hv & _)%Hnew. by rewrite Hv.
  - intros i v (_ & _ & Hv)%Hnew. by rewrite Hv.
Qed.

Lemma mtf_reachable_inv c :
  reachable ComputeMd5Hash MessageDifferencer_Equals configs c → cluster_inv c.
Proof.
  intros (c0 & Hinit & Hsteps). apply mtf_initial_inv in Hinit.
  induction Hsteps as [|c1 c2 c3 Hst _ IH]; [done|]. apply IH.
  eapply election_step_inv; [done|]. by apply mtf_election_simulates.
Qed.
End election.

(** [C9] Election safety of Metamorphosis: in every cluster of Metamorphosis
    nodes reachable from empty databases under an arbitrary network and
    arbitrary crashes, no term has two leaders, at one time or at two. *)
Theorem mtf_election_safety (ComputeMd5Hash : string → list Z)
    (Equals : LogEntry → LogEntry → bool) (configs : list NodeConfig) (c : Cluster)
    (i j : nat) (p q : Process) :
  reachable ComputeMd5Hash Equals configs c →
  (∀ t k l, (t, k) ∈ leaders c → (t, l) ∈ leaders c → k = l) ∧
  (processes c !! i = Some p → processes c !! j = Some q →
   state (node p) = Leader → state (node q) = Leader →
   term (node p) = term (node q) → i = j).
Proof.
  intros Hinv%mtf_reachable_inv.
  assert (Huniq : ∀ t k l, (t, k) ∈ leaders c → (t, l) ∈ leaders c → k = l)
    by (intros t k l; by apply (one_leader_per_term _ _ t k l Hinv)).
  assert (Hled : ∀ k r, processes c !! k = Some r → state (node r) = Leader → (term (node r), k) ∈ leaders c).
  { intros k r Hr Hs. apply (ei_leader _ _ Hinv k (view_of r)); simpl; [|by rewrite Hs].
    by rewrite lookup_fmap, Hr. }
  split; [done|]. intros Hp Hq Hsp Hsq Ht. apply (Huniq (term (node p))); [by apply Hled|].
  rewrite Ht. by apply Hled.
Qed.
