(* ===== verification/MtfTrace.v ===== *)
(** * Executable runs of a Metamorphosis cluster

    [exec] runs the steps of MtfCluster.v named by a list of labels, and a
    successful run is an execution of the cluster. Runs of a three-node cluster
    give an instance of election safety and show how an acknowledged message is
    lost to a delayed request. *)

From S2P Require Import Prelude.
From S2P Require Import Result.
From S2P Require Import RtTypes.
From S2P Require Import KVInterface.
From S2P Require Import MtfNode.
From S2P Require Import MtfProcess.
From S2P Require Import MtfCluster.
From S2P Require Import MtfElection.

Local Open Scope Z_scope.

#[export] Instance mtf_RequestVoteReq_eq_dec : EqDecision RequestVoteReq.
Proof. solve_decision. Defined.
#[export] Instance mtf_AppendEntriesReq_eq_dec : EqDecision AppendEntriesReq.
Proof. solve_decision. Defined.
#[export] Instance mtf_session_eq_dec : EqDecision session.
Proof. solve_decision. Defined.

Section trace.
Variable ComputeMd5Hash : string → list Z.
Variable MessageDifferencer_Equals : LogEntry → LogEntry → bool.
Abbreviation run_event ev p := (process_step ComputeMd5Hash MessageDifferencer_Equals ev p).

Inductive label : Type :=
  | Local (i : nat) (ev : event)
  | Deliver (k : nat)      (** the packet at position [k] of the network *)
  | Crash (i : nat).

Definition exec_deliver (pkt : packet) (c : Cluster) : option Cluster :=
  match pkt with
  | PVote caller i request =>
      p ← processes c !! i;
      match run_event (HandleRequestVote request) p with
      | Some (Done (ReplyRequestVote result, p')) =>
          Some (update i p' [PVoteReply caller i request result] c)
      | _ => None
      end
  | PVoteReply i target request result =>
      p ← processes c !! i;
      match main_fiber p with
      | InCandidate _ request' _ =>
          if decide (request' = request) then
            match run_event (VoteReturns target (Ok result)) p with
            | Some (Done (_, p')) => Some (update i p' [] c)
            | _ => None
            end
          else None
      | _ => None
      end
  | PAppend caller i request =>
      p ← processes c !! i;
      match run_event (HandleAppendEntries request) p with
      | Some (Done (ReplyAppendEntries result, p')) =>
          Some (update i p' [PAppendReply caller i request result] c)
      | _ => None
      end
  | PAppendReply i target request result =>
      p ← processes c !! i;
      match main_fiber p with
      | InLeader _ sessions =>
          match sessions !! target with
          | Some (SessionCalling _ request') =>
              if decide (request' = request) then
                match run_event (AppendReturns target (Ok result)) p with
                | Some (Done (_, p')) => Some (update i p' [] c)
                | _ => None
                end
              else None
          | _ => None
          end
      | _ => None
      end
  end.

Definition exec_label (l : label) (c : Cluster) : option Cluster :=
  match l with
  | Local i ev =>
      p ← processes c !! i;
      if is_local ev then
        match run_event ev p with
        | Some (Done (out, p')) => Some (update i p' (sent i out) c)
        | _ => None
        end
      else None
  | Deliver k => pkt ← network c !! k; exec_deliver pkt c
  | Crash i =>
      p ← processes c !! i;
      match RunMain (config (node p)) (raft_state (node p)) (raft_log (node p)) with
      | Done p' => Some (MkCluster (<[i := p']> (processes c)) (network c) (ballots c) (leaders c))
      | _ => None
      end
  end.

Fixpoint exec (ls : list label) (c : Cluster) : option Cluster :=
  match ls with
  | [] => Some c
  | l :: ls => c' ← exec_label l c; exec ls c'
  end.

Local Opaque process_step RunMain.

Lemma mtf_exec_label_step l c c' :
  exec_label l c = Some c' → step ComputeMd5Hash MessageDifferencer_Equals c c'.
Proof.
  destruct l as [i ev|k|i]; simpl; intros H.
  - apply bind_Some in H as (p & Hp & H). repeat case_match; simplify_eq. by eapply step_local.
  - apply bind_Some in H as (pkt & Hk & H). apply list_elem_of_lookup_2 in Hk.
    destruct pkt; simpl in H; apply bind_Some in H as (p & Hp & H); repeat case_match; simplify_eq.
    + by eapply step_vote_request.
    + by eapply step_vote_reply.
    + by eapply step_append_request.
    + by eapply step_append_reply.
  - apply bind_Some in H as (p & Hp & H). case_match; simplify_eq. by eapply step_restart.
Qed.

Lemma mtf_exec_rtc ls c c' :
  exec ls c = Some c' → rtc (step ComputeMd5Hash MessageDifferencer_Equals) c c'.
Proof.
  revert c. induction ls as [|l ls IH]; simpl; intros c H; [by simplify_eq|].
  apply bind_Some in H as (c1 & Hl & H). econstructor; [by eapply mtf_exec_label_step|]. auto.
Qed.
End trace.

(** Three nodes; [hash] stands for the digest of a message. *)
Module MtfExample3.

Definition hash (s : string) : list Z := [Z.of_nat (String.length s)].
Definition Equals (a b : LogEntry) : bool := bool_decide (a = b).
Definition endpoints : list Endpoint := [MkEndpoint "a" 1; MkEndpoint "b" 2; MkEndpoint "c" 3].
Definition cfg (i : nat) : NodeConfig := MkNodeConfig i endpoints (MkInterval 0 0) 0 0.
Definition configs : list NodeConfig := [cfg 0; cfg 1; cfg 2].
Definition timeout {A} : Result A RpcError := Err (MkRpcError Cancelled "").

(** The process a node starts as. *)
Definition boot (i : nat) : Process :=
  match RunMain (cfg i) ∅ ∅ with
  | Done p => p
  | _ => MkProcess (MkNode (MkStopSource 0 true) (MkStopSource 0 true) Follower (cfg i)
                      (MkStopSource 0 true) (MkStopSource 0 true) ∅ ∅ 0 ∅ ∅ [] [] 0 ∅ [] 0 ∅ ∅ 0) InLoop
  end.

Definition start : Cluster :=
  MkCluster (list_to_map ((λ i, (i, boot i)) <$> [0; 1; 2]%nat)) [] [] [].

Lemma mtf_start_initial : initial configs start.
Proof.
  split_and!; [done..| |].
  - intros [|[|[|i]]] cf; simpl; intros [= <-]; done.
  - assert (Hb : ∀ i, (i < 3)%nat → RunMain (cfg i) ∅ ∅ = Done (boot i)).
    { intros i Hi. do 3 (destruct i as [|i]; [vm_compute; reflexivity|]). lia. }
    intros i p Hp. unfold start in Hp. simpl in Hp.
    repeat (apply lookup_insert_Some in Hp as [[<- <-]|[_ Hp]]; [eexists; split; [reflexivity|apply Hb; lia]|]).
    by rewrite lookup_empty in Hp.
Qed.

Definition after (ls : list label) : Cluster := default start (exec hash Equals ls start).
Definition completes (ls : list label) : bool :=
  match exec hash Equals ls start with Some _ => true | None => false end.

Lemma mtf_after_reachable ls : completes ls = true → reachable hash Equals configs (after ls).
Proof.
  unfold completes, after. destruct (exec hash Equals ls start) as [c|] eqn:He; [|done]. intros _.
  exists start. split; [apply mtf_start_initial|]. by eapply mtf_exec_rtc.
Qed.

Definition proc_after (ls : list label) (i : nat) : Process := default (boot i) (processes (after ls) !! i).

(** Node 0 is elected in term 1 with the vote of node 1 and starts to lead. *)
Definition elect0 : list label :=
  [Local 0 RunLoop; Local 0 FollowerWakes; Local 0 RunLoop; Deliver 0; Deliver 0;
   Local 0 (VoteReturns 2 timeout); Local 0 ElectionEnds; Local 0 RunLoop;
   Local 0 MainSessionRuns].

(** It replicates a message to node 1 and commits it, after a first, empty
    request to node 1 got no answer in time. *)
Definition commit0 : list label :=
  [Local 0 (SessionRuns 1); Local 0 (AppendReturns 1 timeout);
   Local 0 (HandleAppend (MkAppendReq "x" 7 0)); Local 0 MainSessionRuns;
   Local 0 (SessionRuns 1); Deliver 0; Deliver 0].

(** The empty request arrives at node 1 after the message; node 2 is elected in
    term 2 with the vote of node 1 and, as node 0 does not answer, replicates
    another message to node 1 and commits it at the same offset. *)
Definition late : list label := [Deliver 2].
Definition elect2 : list label :=
  [Local 2 RunLoop; Local 2 FollowerWakes; Local 2 RunLoop;
   Local 2 (VoteReturns 0 timeout); Local 2 (VoteReturns 1 timeout); Local 2 ElectionEnds;
   Local 2 RunLoop; Deliver 1; Deliver 0;
   Local 2 (VoteReturns 0 timeout); Local 2 ElectionEnds; Local 2 RunLoop;
   Local 2 MainSessionRuns].
Definition commit2 : list label :=
  [Local 2 (HandleAppend (MkAppendReq "y" 9 0)); Local 2 MainSessionRuns;
   Local 2 (SessionRuns 0); Local 2 (AppendReturns 0 timeout); Local 2 (SessionRuns 1); Deliver 0; Deliver 0].

Definition diverged : list label := elect0 ++ commit0 ++ late ++ elect2 ++ commit2.
End MtfExample3.

Import MtfExample3.

Lemma mtf_election_safety_witness :
  reachable hash Equals configs (after diverged) ∧
  (1, 0%nat) ∈ leaders (after diverged) ∧ (2, 2%nat) ∈ leaders (after diverged) ∧
  ∀ t k l, (t, k) ∈ leaders (after diverged) → (t, l) ∈ leaders (after diverged) → k = l.
Proof.
  assert (Hr : reachable hash Equals configs (after diverged)).
  { apply mtf_after_reachable. vm_compute. reflexivity. }
  split_and!; [exact Hr| | |].
  - apply (bool_decide_eq_true_1 _). vm_compute. reflexivity.
  - apply (bool_decide_eq_true_1 _). vm_compute. reflexivity.
  - apply (mtf_election_safety hash Equals configs (after diverged) 0 0
             (proc_after diverged 0) (proc_after diverged 0) Hr).
Defined.

(** [C10] Acknowledged messages can be lost: in a reachable cluster two nodes have
    committed different messages at offset 1, the first of which a producer was
    told is committed at that offset, because [AppendEntries] deletes everything
    after the entries of a request, also when an old request arrives late. *)
Theorem delayed_append_loses_acknowledged_message :
  reachable hash Equals configs (after diverged) ∧
  Read (MkReadReq 1) (node (proc_after diverged 0)) = Ok (FULL_MESSAGE "x") ∧
  Read (MkReadReq 1) (node (proc_after diverged 2)) = Ok (FULL_MESSAGE "y") ∧
  ∃ id p', process_step hash Equals (AppendResumes id) (proc_after diverged 0) =
    Some (Done (ReplyAppend (MkAppendRsp Commited 1 1), p')).
Proof.
  split_and!; [apply mtf_after_reachable; vm_compute; reflexivity|vm_compute; reflexivity..|].
  exists (from_option fst 0%nat (head (map_to_list (frames (node (proc_after diverged 0)))))).
  eexists. vm_compute. reflexivity.
Qed.
