(* ===== verification/MtfProps.v ===== *)
(** * Properties of the Metamorphosis node

    The counters of the producers against the log, the main nodes, what a
    leader sends to whom, reading, appending, and runs that show where the
    counters and the marks of the producers go wrong. *)

From S2P Require Import Prelude.
From S2P Require Import Result.
From S2P Require Import RtTypes.
From S2P Require Import KVInterface.
From S2P Require Import Logs.
From S2P Require Import MtfNode.
From S2P Require Import MtfProcess.

Local Open Scope Z_scope.

(** ** Counting entries *)

Section counting.
Implicit Types (log : gmap Z LogEntry) (n : MetamorphosisNode).

Definition is_from (p : Z) (e : LogEntry) : bool := bool_decide (entry_producer_id e = p).

(** The number of entries of producer [p] among [es]. *)
Definition count_in (p : Z) (es : list LogEntry) : Z := Z.of_nat (length (filter (is_from p) es)).

(** The entries at positions [lo .. hi - 1]. *)
Definition entries_between log (lo hi : Z) : list LogEntry := omap (λ i, log !! i) (range lo hi).

(** A counter of the node, 0 for an unknown producer. *)
Definition counter n (p : Z) : Z := default 0 (producer_next_sequence_id n !! p).

Lemma count_in_app p es es' : count_in p (es ++ es') = count_in p es + count_in p es'.
Proof. unfold count_in. rewrite filter_app, length_app. lia. Qed.

Lemma count_in_nonneg p es : 0 ≤ count_in p es.
Proof. unfold count_in. lia. Qed.

Lemma count_in_cons p e es :
  count_in p (e :: es) = (if decide (entry_producer_id e = p) then 1 else 0) + count_in p es.
Proof.
  unfold count_in. rewrite filter_cons. unfold is_from.
  destruct (decide (entry_producer_id e = p)) as [Hp|Hp].
  - rewrite decide_True by (by apply bool_decide_pack). simpl. lia.
  - rewrite decide_False by (by intros ?%bool_decide_unpack). lia.
Qed.

Lemma wrap64_idem_add a b : wrap64 (wrap64 a + b) = wrap64 (a + b).
Proof. unfold wrap64. by rewrite Zplus_mod_idemp_l. Qed.

(** Incrementing over a list of entries. *)
Lemma count_entries_lookup es m p :
  wrap64 (default 0 (count_entries es m !! p)) = wrap64 (default 0 (m !! p) + count_in p es).
Proof.
  revert m. induction es as [|e es IH]; intros m; simpl.
  { unfold count_in. simpl. by rewrite Z.add_0_r. }
  unfold count_entries in *. simpl. rewrite IH, count_in_cons. unfold increment.
  destruct (decide (entry_producer_id e = p)) as [->|Hne].
  - rewrite lookup_insert_eq. simpl. unfold add64. rewrite wrap64_idem_add. f_equal. lia.
  - by rewrite lookup_insert_ne.
Qed.

Lemma entries_between_cons log lo hi e :
  lo < hi → log !! lo = Some e → entries_between log lo hi = e :: entries_between log (lo + 1) hi.
Proof. intros Hlt He. unfold entries_between. rewrite range_cons by done. simpl. by rewrite He. Qed.

Lemma entries_between_split log lo mid hi :
  lo ≤ mid ≤ hi →
  entries_between log lo hi = entries_between log lo mid ++ entries_between log mid hi.
Proof.
  intros Hm. unfold entries_between. rewrite <-omap_app. f_equal.
  assert (∀ d l, 0 ≤ l → lo + l ≤ mid → Z.to_nat (mid - (lo + l)) = d →
    range (lo + l) hi = range (lo + l) mid ++ range mid hi) as Hind.
  { induction d as [|d IH]; intros l Hl Hle Hd.
    - assert (lo + l = mid) as -> by lia. by rewrite (range_nil mid mid) by lia.
    - rewrite (range_cons (lo + l) hi), (range_cons (lo + l) mid) by lia. simpl. f_equal.
      replace (lo + l + 1) with (lo + (l + 1)) by lia. apply IH; lia. }
  replace lo with (lo + 0) by lia. apply (Hind (Z.to_nat (mid - lo))); lia.
Qed.

Lemma entries_between_ext log log' lo hi :
  (∀ i, lo ≤ i < hi → log !! i = log' !! i) → entries_between log lo hi = entries_between log' lo hi.
Proof.
  intros Hext. unfold entries_between.
  assert (H : Forall (λ i, log !! i = log' !! i) (range lo hi)).
  { apply Forall_forall. intros i Hi%elem_of_range. by apply Hext. }
  induction H as [|i ixs Hi _ IH]; csimpl; [done|]. rewrite Hi. destruct (log' !! i); [f_equal|]; done.
Qed.

(** A log that holds [es] at positions [lo, lo + 1, ...]. *)
Lemma entries_between_list log es lo :
  (∀ k, es !! k = log !! (lo + Z.of_nat k)) →
  entries_between log lo (lo + Z.of_nat (length es)) = es.
Proof.
  revert lo. induction es as [|e es IH]; intros lo Hes.
  - unfold entries_between. by rewrite range_nil by (simpl; lia).
  - rewrite (entries_between_cons log lo _ e).
    + f_equal. replace (lo + Z.of_nat (length (e :: es))) with (lo + 1 + Z.of_nat (length es)) by (simpl; lia).
      apply IH. intros k. specialize (Hes (S k)). simpl in Hes. rewrite Hes. f_equal. lia.
    + simpl. lia.
    + specialize (Hes 0%nat). simpl in Hes. by rewrite Z.add_0_r in Hes.
Qed.

(** ** The loops that count *)

Lemma count_loop n lo hi :
  (∀ i, lo ≤ i < hi → is_Some (raft_log n !! i)) →
  ∃ m, for_each (range lo hi) count_entry n = Done (set_producer_next_sequence_id m n) ∧
    m = count_entries (entries_between (raft_log n) lo hi) (producer_next_sequence_id n).
Proof.
  remember (Z.to_nat (hi - lo)) as d eqn:Hd. revert n lo Hd.
  induction d as [|d IH]; intros n lo Hd Hlog.
  - unfold entries_between. rewrite range_nil by lia. simpl. exists (producer_next_sequence_id n).
    by destruct n.
  - destruct (Hlog lo) as [e He]; [lia|].
    rewrite (entries_between_cons _ _ _ e), range_cons by (lia || done). cbn [for_each].
    assert (Hce : count_entry lo n = Done (set_producer_next_sequence_id
      (increment (entry_producer_id e) (producer_next_sequence_id n)) n)).
    { unfold count_entry, kv_Get. by rewrite He. }
    rewrite Hce, bind_Done_eq.
    edestruct (IH (set_producer_next_sequence_id
      (increment (entry_producer_id e) (producer_next_sequence_id n)) n) (lo + 1))
      as (m & Hm & Heq); [lia|intros i Hi; apply Hlog; lia|].
    exists m. split; [exact Hm|exact Heq].
Qed.

Lemma uncount_loop n lo hi :
  (∀ i, lo ≤ i < hi → is_Some (raft_log n !! i)) →
  ∃ m, for_each (range lo hi) uncount_entry n = Done (set_producer_next_sequence_id m n) ∧
    ∀ p, wrap64 (default 0 (m !! p)) =
      wrap64 (counter n p - count_in p (entries_between (raft_log n) lo hi)).
Proof.
  remember (Z.to_nat (hi - lo)) as d eqn:Hd. revert n lo Hd.
  induction d as [|d IH]; intros n lo Hd Hlog.
  - unfold entries_between. rewrite range_nil by lia. simpl. exists (producer_next_sequence_id n).
    split; [by destruct n|]. intros p. unfold count_in, counter. simpl. by rewrite Z.sub_0_r.
  - destruct (Hlog lo) as [e He]; [lia|]. set (q := entry_producer_id e).
    rewrite range_cons by lia. cbn [for_each].
    set (n1 := set_producer_next_sequence_id (decrement q (producer_next_sequence_id n)) n).
    assert (Hce : uncount_entry lo n = Done n1).
    { unfold uncount_entry, kv_Get. rewrite He. simpl. unfold decrement. rewrite lookup_insert_eq. simpl.
      rewrite bool_decide_eq_true_2; [done|]. unfold sub64. apply wrap64_range. }
    rewrite Hce, bind_Done_eq.
    destruct (IH n1 (lo + 1)) as (m & Hm & Heq); [lia|intros i Hi; apply Hlog; lia|].
    exists m. split; [exact Hm|]. intros p. rewrite Heq.
    rewrite (entries_between_cons _ lo hi e), count_in_cons by (lia || done).
    fold q. unfold counter, n1. simpl. unfold decrement.
    destruct (decide (q = p)) as [->|Hne].
    + rewrite lookup_insert_eq. simpl. unfold sub64.
      rewrite <-Z.add_opp_r, wrap64_idem_add. f_equal. lia.
    + by rewrite lookup_insert_ne.
Qed.

(** Counters stay machine words. *)
Definition words (m : gmap Z Z) : Prop := ∀ p, is_u64 (default 0 (m !! p)).

Lemma words_insert m p z : words m → words (<[p := wrap64 z]> m).
Proof.
  intros Hm q. rewrite lookup_insert. case_decide; [apply wrap64_range|apply Hm].
Qed.

Lemma count_entries_words es m : words m → words (count_entries es m).
Proof.
  unfold count_entries. revert m. induction es as [|e es IH]; intros m Hm; simpl; [done|].
  by apply IH, words_insert.
Qed.

Lemma uncount_loop_words ixs n n' :
  for_each ixs uncount_entry n = Done n' →
  words (producer_next_sequence_id n) → words (producer_next_sequence_id n').
Proof.
  intros H Hw. refine (for_each_inv (λ _ m, words (producer_next_sequence_id m)) _ _ _ _ H Hw _).
  intros i ixs' m m' Hm Hb. unfold uncount_entry in Hb. outcome_inv. by apply words_insert.
Qed.

(** ** The counters against the log *)

(** The counter of every producer is the number of its entries in the log. *)
Definition counts n : Prop :=
  ∀ p, counter n p = count_in p (entries_between (raft_log n) 1 (log_size (raft_log n) + 1)).

Lemma count_between_le p log lo hi : lo ≤ hi → count_in p (entries_between log lo hi) ≤ hi - lo.
Proof.
  intros Hle. unfold count_in. pose proof (length_range lo hi) as Hlen.
  assert (length (entries_between log lo hi) ≤ length (range lo hi))%nat.
  { unfold entries_between. clear. induction (range lo hi); csimpl; [lia|].
    destruct (log !! a); simpl; lia. }
  pose proof (length_filter (is_from p) (entries_between log lo hi)). lia.
Qed.

Lemma counts_words n : small (log_size (raft_log n)) → 0 ≤ log_size (raft_log n) → counts n →
  words (producer_next_sequence_id n).
Proof.
  intros Hs H0 Hc p. change (is_u64 (counter n p)). rewrite Hc.
  pose proof (count_in_nonneg p (entries_between (raft_log n) 1 (log_size (raft_log n) + 1))).
  pose proof (count_between_le p (raft_log n) 1 (log_size (raft_log n) + 1)). word.
Qed.

Lemma wrap64_words z : is_u64 z → wrap64 z = z.
Proof. apply wrap64_small. Qed.

Variable MessageDifferencer_Equals : LogEntry → LogEntry → bool.

Lemma mtf_check_loop_shape req ixs n n' :
  for_each ixs (check_committed MessageDifferencer_Equals req) n = Done n' → n' = n.
Proof.
  intros H. refine (for_each_inv (λ _ m, m = n) _ _ _ _ H _ _); [done|].
  intros i ixs' m1 m2 -> Hap. unfold check_committed in Hap. by outcome_inv.
Qed.

(** The log after a request has been stored. *)
Definition appended_log (req : AppendEntriesReq) n : gmap Z LogEntry :=
  kv_Write (replace_batch (ae_prev_log_index req) (commit_index n) (ae_entries req)) (raft_log n).

Lemma AppendEntries_store_counters req n n' :
  let prev := ae_prev_log_index req in
  let kept := prev `max` commit_index n in
  let log' := appended_log req n in
  small (log_size (raft_log n)) → small (prev + Z.of_nat (length (ae_entries req))) →
  contiguous (raft_log n) → 0 ≤ commit_index n ≤ log_size (raft_log n) →
  0 ≤ prev ≤ log_size (raft_log n) → counts n →
  AppendEntries_store MessageDifferencer_Equals req n = Done n' →
  raft_log n' = log' ∧
  ∀ p, counter n' p =
    wrap64 (count_in p (entries_between log' 1 (log_size log' + 1)) -
            count_in p (entries_between (raft_log n) (prev + 1) (kept + 1))).
Proof.
  intros prev kept log' Hs1 Hs2 Hc Hci Hprev Hcnt H. unfold AppendEntries_store in H.
  apply bind_Done in H as (n0 & Hck & H). apply mtf_check_loop_shape in Hck as ->.
  apply bind_Done in H as (n1 & Hun & [= <-]).
  destruct (uncount_loop n (prev + 1) (GetSavedLogSize n + 1)) as (m & Hm & Hdec).
  { intros i Hi. apply Hc. change (GetSavedLogSize n) with (log_size (raft_log n)) in Hi. lia. }
  pose proof (uncount_loop_words _ _ _ Hun (counts_words n Hs1 (contiguous_size _ Hc) Hcnt)) as Hw.
  change (ae_prev_log_index req) with prev in Hun. rewrite Hm in Hun. injection Hun as <-.
  split; [done|]. intros p. unfold counter at 1. cbn [producer_next_sequence_id set_commit_index
    set_producer_next_sequence_id set_raft_log].
  set (es := new_entries req _).
  assert (Hes : es = drop (Z.to_nat (kept - prev)) (ae_entries req)).
  { unfold es, new_entries. simpl. fold prev. fold kept.
    rewrite (add64_small kept) by (unfold kept; word).
    rewrite (sub64_small (kept + 1)), sub64_small by (unfold kept; word). f_equal. lia. }
  rewrite <-(wrap64_words (default 0 (count_entries es m !! p)))
    by (apply count_entries_words; exact Hw).
  rewrite count_entries_lookup, <-wrap64_idem_add, Hdec, wrap64_idem_add. f_equal.
  rewrite Hcnt. change (GetSavedLogSize n) with (log_size (raft_log n)).
  destruct (replace_contiguous prev (commit_index n) (ae_entries req) (raft_log n)) as [Hc' Hsz];
    [word|done..|]. change (kv_Write _ (raft_log n)) with log' in Hc', Hsz. fold kept in Hsz.
  assert (Hlk : ∀ i, log' !! i = if decide (i ≤ kept) then raft_log n !! i
                                 else ae_entries req !! Z.to_nat (i - prev - 1)).
  { intros i. apply replace_lookup; [word|done..]. }
  rewrite (entries_between_split (raft_log n) 1 (prev + 1)), count_in_app by lia.
  rewrite (entries_between_split log' 1 (kept + 1)), count_in_app by (unfold kept in *; lia).
  rewrite (entries_between_ext log' (raft_log n) 1 (kept + 1))
    by (intros i Hi; by rewrite Hlk, decide_True by lia).
  rewrite (entries_between_split (raft_log n) 1 (prev + 1) (kept + 1)), count_in_app by (unfold kept; lia).
  replace (entries_between log' (kept + 1) (log_size log' + 1)) with es; [lia|].
  replace (log_size log' + 1) with (kept + 1 + Z.of_nat (length es))
    by (rewrite Hsz, Hes, length_drop; unfold kept; lia).
  symmetry. apply entries_between_list. intros k. rewrite Hlk, decide_False by lia.
  rewrite Hes, lookup_drop. f_equal. unfold kept. lia.
Qed.
End counting.

Section counts.
Implicit Types n : MetamorphosisNode.

(** Following a leader touches neither log, commit index nor counters. *)
Definition same_log n n' : Prop :=
  raft_log n' = raft_log n ∧ commit_index n' = commit_index n ∧
  producer_next_sequence_id n' = producer_next_sequence_id n.

Lemma BecomeFollower_same_log n n' : BecomeFollower n = Done n' → same_log n n'.
Proof.
  unfold BecomeFollower. intros H. outcome_inv. unfold Stop_leader.
  destruct (state n); simpl; [case_decide|..]; by split_and!.
Qed.

Lemma UpdateTerm_same_log t v n n' : UpdateTerm t v n = Done n' → same_log n n'.
Proof. unfold UpdateTerm. intros H. outcome_inv. by split_and!. Qed.

Lemma AppendEntries_follow_same_log req n n' :
  AppendEntries_follow req n = Done n' → same_log n n'.
Proof.
  unfold AppendEntries_follow. intros H. outcome_inv.
  match goal with H : (if _ then BecomeFollower ?m else _) = Done ?m' |- _ =>
    assert (Hs : same_log m m');
      [case_if H as [?|?]; [by apply BecomeFollower_same_log|by split_and!]|] end.
  match goal with H : (if _ then UpdateTerm _ _ ?m else _) = Done ?m' |- _ =>
    assert (Hs' : same_log m m');
      [case_if H as [?|?]; [by eapply UpdateTerm_same_log|by split_and!]|] end.
  destruct Hs as (? & ? & ?), Hs' as (? & ? & ?). split_and!; simpl in *; congruence.
Qed.

(** An accepted request: the node has followed the leader, then stored. *)
Lemma AppendEntries_accepted Eq req n t n' :
  AppendEntries Eq req n = Done (MkAppendEntriesRsp t true, n') →
  ∃ n1, same_log n n1 ∧ AppendEntries_matches req n1 = Done true ∧
    AppendEntries_store Eq req n1 = Done n'.
Proof.
  unfold AppendEntries. intros H. outcome_inv.
  match goal with H : (if decide _ then _ else _) = _ |- _ => case_if H as [?|?] end.
  match goal with H : AppendEntries_follow _ _ = Done ?m |- _ =>
    apply AppendEntries_follow_same_log in H; exists m end.
  match goal with H : AppendEntries_matches _ _ = Done ?b |- _ => destruct b end; simpl in *; outcome_inv.
  by split_and!.
Qed.

Lemma mtf_matches_size req n :
  AppendEntries_matches req n = Done true → ae_prev_log_index req ≤ log_size (raft_log n).
Proof.
  unfold AppendEntries_matches. intros H. outcome_inv.
  change (GetSavedLogSize n) with (log_size (raft_log n)) in *. case_decide; [done|lia].
Qed.

Lemma AppendEntries_counters Eq req n t n' :
  let prev := ae_prev_log_index req in
  small (log_size (raft_log n)) → small (prev + Z.of_nat (length (ae_entries req))) →
  contiguous (raft_log n) → 0 ≤ commit_index n ≤ log_size (raft_log n) → 0 ≤ prev → counts n →
  AppendEntries Eq req n = Done (MkAppendEntriesRsp t true, n') →
  prev ≤ log_size (raft_log n) ∧ raft_log n' = appended_log req n ∧
  ∀ p, counter n' p =
    wrap64 (count_in p (entries_between (raft_log n') 1 (log_size (raft_log n') + 1)) -
            count_in p (entries_between (raft_log n) (prev + 1) (prev `max` commit_index n + 1))).
Proof.
  intros prev Hs1 Hs2 Hc Hci Hprev Hcnt (n1 & (Hl & Hci1 & Hp) & Hm & Hst)%AppendEntries_accepted.
  apply mtf_matches_size in Hm. rewrite Hl in Hm.
  assert (Hcnt1 : counts n1) by (intros p; unfold counter; rewrite Hp, Hl; apply Hcnt).
  destruct (AppendEntries_store_counters Eq req n1 n') as [Hl' Hd];
    rewrite ?Hl, ?Hci1; try done.
  assert (Happ : appended_log req n1 = appended_log req n) by (unfold appended_log; by rewrite Hl, Hci1).
  rewrite Hl', Happ. split_and!; [done|done|]. intros p. rewrite Hd, Happ, Hl, Hci1. done.
Qed.

Lemma count_in_sound n p : small (log_size (raft_log n)) → contiguous (raft_log n) →
  is_u64 (count_in p (entries_between (raft_log n) 1 (log_size (raft_log n) + 1))).
Proof.
  intros Hs Hc%contiguous_size.
  pose proof (count_in_nonneg p (entries_between (raft_log n) 1 (log_size (raft_log n) + 1))).
  pose proof (count_between_le p (raft_log n) 1 (log_size (raft_log n) + 1)). word.
Qed.

(** The main session saves and counts the pending entries. *)
Lemma UpdateCommitIndex_same n n' :
  UpdateCommitIndex n = Done n' →
  raft_log n' = raft_log n ∧ producer_next_sequence_id n' = producer_next_sequence_id n.
Proof.
  unfold UpdateCommitIndex. intros H. outcome_inv.
  match goal with H : for_each _ _ _ = Done _ |- _ =>
    refine (for_each_inv (λ _ m, raft_log m = raft_log n ∧
      producer_next_sequence_id m = producer_next_sequence_id n) _ _ _ _ H _ _) end; [done|].
  intros i ixs m m' Hm Hb. unfold notify_committed in Hb.
  destruct (pending_requests m !! i); [|by outcome_inv].
  destruct (frames m !! _); by outcome_inv.
Qed.

Lemma LeaderMainSession_iteration_same n n' base :
  match_index n !! node_id (config n) = Some base →
  LeaderMainSession_iteration n = Done n' →
  raft_log n' = kv_Write (extend_batch base (pending_log n)) (raft_log n) ∧
  producer_next_sequence_id n' = count_entries (pending_log n) (producer_next_sequence_id n).
Proof.
  unfold LeaderMainSession_iteration. intros Hb H. outcome_inv.
  match goal with H : UpdateCommitIndex _ = _ |- _ => apply UpdateCommitIndex_same in H as [Hl Hp] end.
  unfold add_heartbeat_guard. destruct (stopped _); simpl; by rewrite Hl, Hp.
Qed.

Lemma main_session_counts n n' :
  small (log_size (raft_log n) + Z.of_nat (length (pending_log n))) →
  contiguous (raft_log n) → counts n →
  match_index n !! node_id (config n) = Some (log_size (raft_log n)) →
  LeaderMainSession_iteration n = Done n' → counts n' ∧ contiguous (raft_log n').
Proof.
  intros Hs Hc Hcnt Hb H. pose proof (contiguous_size _ Hc) as H0.
  destruct (LeaderMainSession_iteration_same _ _ _ Hb H) as [Hl Hp].
  destruct (extend_contiguous (raft_log n) (pending_log n)) as (Hlk & Hc' & Hsz); [done|word|].
  rewrite <-Hl in Hlk, Hc', Hsz. split; [|done]. intros p.
  assert (Hw : words (producer_next_sequence_id n')).
  { rewrite Hp. apply count_entries_words. apply counts_words; [word|done|done]. }
  rewrite <-(wrap64_words (counter n' p)) by apply Hw. unfold counter. rewrite Hp, count_entries_lookup.
  change (default 0 (producer_next_sequence_id n !! p)) with (counter n p). rewrite Hcnt.
  rewrite <-count_in_app. rewrite <-(wrap64_words (count_in p (entries_between (raft_log n') _ _)))
    by (apply count_in_sound; [by rewrite Hsz|done]).
  f_equal. f_equal.
  rewrite (entries_between_split (raft_log n') 1 (log_size (raft_log n) + 1)) by lia. f_equal.
  - apply entries_between_ext. intros i Hi. rewrite Hlk. unfold extended. by rewrite decide_True by lia.
  - rewrite Hsz. symmetry.
    replace (log_size (raft_log n) + Z.of_nat (length (pending_log n)) + 1)
      with (log_size (raft_log n) + 1 + Z.of_nat (length (pending_log n))) by lia.
    apply entries_between_list. intros k. rewrite Hlk. unfold extended. rewrite decide_False by lia.
    f_equal. lia.
Qed.
End counts.

Lemma AppendEntries_rejected Eq req n t n' :
  AppendEntries Eq req n = Done (MkAppendEntriesRsp t false, n') → same_log n n'.
Proof.
  unfold AppendEntries. intros H. outcome_inv.
  match goal with H : (if decide _ then _ else _) = _ |- _ => case_if H as [?|?] end; [by outcome_inv|].
  outcome_inv.
  match goal with H : AppendEntries_follow _ _ = Done ?m |- _ =>
    apply AppendEntries_follow_same_log in H end.
  match goal with H : AppendEntries_matches _ _ = Done ?b |- _ => destruct b end; simpl in *; by outcome_inv.
Qed.

(** Subtracting a positive number below the modulus changes a word. *)
Lemma wrap64_sub_ne a b : is_u64 a → 0 < b ≤ u64_max → wrap64 (a - b) ≠ a.
Proof.
  intros Ha Hb Heq. unfold is_u64, u64_max in *.
  assert (Hd : wrap64 (a - b) = a - b ∨ wrap64 (a - b) = a - b + u64_modulus).
  { unfold wrap64. destruct (decide (b ≤ a)); [left; apply Z.mod_small; lia|right].
    symmetry. apply (Z.mod_unique_pos _ _ (-1)); lia. }
  lia.
Qed.

(** Between [prev_log_index] and a larger commit index some producer has an entry. *)
Lemma count_in_positive log lo hi :
  contiguous log → 1 ≤ lo → lo < hi → hi ≤ log_size log + 1 →
  ∃ p, 0 < count_in p (entries_between log lo hi).
Proof.
  intros Hc Hlo Hlt Hhi. destruct (contiguous_lookup log lo) as [e He]; [done|lia|].
  exists (entry_producer_id e). rewrite (entries_between_cons log lo hi e), count_in_cons by done.
  rewrite decide_True by done. pose proof (count_in_nonneg (entry_producer_id e) (entries_between log (lo + 1) hi)).
  lia.
Qed.

(** [C22] The counters of the producers against the log, the number of whose
    entries they are said to be: a node that starts on a log without gaps
    counts the entries of every producer; the main session keeps the counters
    in step with the entries it saves; a request of a leader that is rejected
    changes neither; and a request that is accepted leaves every counter
    smaller than the number of the producer's entries in the new log by the
    number of its entries after [prev_log_index] up to the commit index
    (modulo 2^64): these are uncounted and not counted again. So the counters
    agree with the log afterwards exactly when the request does not start
    before the commit index. *)
Theorem producer_counters_and_log (Eq : LogEntry → LogEntry → bool) :
  (∀ cfg state_db log, contiguous log → small (log_size log) →
     ∃ n, MetamorphosisNode_new cfg state_db log = Done n ∧ raft_log n = log ∧ counts n) ∧
  (∀ n n', small (log_size (raft_log n) + Z.of_nat (length (pending_log n))) →
     contiguous (raft_log n) → counts n →
     match_index n !! node_id (config n) = Some (log_size (raft_log n)) →
     LeaderMainSession_iteration n = Done n' → counts n' ∧ contiguous (raft_log n')) ∧
  (∀ req n t accepted n', let prev := ae_prev_log_index req in
     small (log_size (raft_log n)) → small (prev + Z.of_nat (length (ae_entries req))) →
     contiguous (raft_log n) → 0 ≤ commit_index n ≤ log_size (raft_log n) → 0 ≤ prev → counts n →
     AppendEntries Eq req n = Done (MkAppendEntriesRsp t accepted, n') →
     if accepted : bool then
       contiguous (raft_log n') ∧
       (∀ p, counter n' p =
          wrap64 (count_in p (entries_between (raft_log n') 1 (log_size (raft_log n') + 1)) -
                  count_in p (entries_between (raft_log n) (prev + 1) (commit_index n + 1)))) ∧
       (counts n' ↔ commit_index n ≤ prev)
     else raft_log n' = raft_log n ∧ counts n').
Proof.
  split_and!.
  - intros cfg state_db log Hc Hs. pose proof (contiguous_size _ Hc). unfold MetamorphosisNode_new.
    match goal with |- context [for_each _ count_entry ?m] => set (n0 := m) end.
    destruct (count_loop n0 1 (GetSavedLogSize n0 + 1)) as (m & -> & Hm).
    { intros i Hi. apply Hc. change (GetSavedLogSize n0) with (log_size log) in Hi. lia. }
    eexists. split_and!; [done|done|]. intros p.
    assert (Hw : words m) by (rewrite Hm; apply count_entries_words; intros q; unfold n0; simpl; rewrite lookup_empty; simpl; word).
    rewrite <-(wrap64_words (counter _ p)) by apply Hw. unfold counter. simpl. rewrite Hm.
    rewrite count_entries_lookup. simpl. rewrite lookup_empty. simpl.
    apply wrap64_words. apply (count_in_sound n0); done.
  - intros n n'. apply main_session_counts.
  - intros req n t accepted n' prev Hs1 Hs2 Hc Hci Hprev Hcnt H. destruct accepted; cycle 1.
    { apply AppendEntries_rejected in H as (Hl & _ & Hp). split; [done|].
      intros p. unfold counter. rewrite Hp, Hl. apply Hcnt. }
    destruct (AppendEntries_counters _ _ _ _ _ Hs1 Hs2 Hc Hci ltac:(lia) Hcnt H) as (Hsz & Hl & Hd).
    fold prev in Hsz, Hd.
    destruct (replace_contiguous prev (commit_index n) (ae_entries req) (raft_log n))
      as [Hc' Hsz']; [word|done|done|lia|].
    change (kv_Write _ _) with (appended_log req n) in Hc', Hsz'. rewrite <-Hl in Hc', Hsz'. split; [done|].
    assert (Hd' : ∀ p, counter n' p =
      wrap64 (count_in p (entries_between (raft_log n') 1 (log_size (raft_log n') + 1)) -
              count_in p (entries_between (raft_log n) (prev + 1) (commit_index n + 1)))).
    { intros p. rewrite Hd. destruct (decide (prev ≤ commit_index n)); [by rewrite Z.max_r by lia|].
      unfold entries_between at 2 4. by rewrite !range_nil by lia. }
    assert (Hs' : small (log_size (raft_log n'))) by (rewrite Hsz'; word).
    split; [done|]. split.
    + intros Hcnt'. destruct (decide (commit_index n ≤ prev)) as [|Hlt]; [done|exfalso].
      destruct (count_in_positive (raft_log n) (prev + 1) (commit_index n + 1)) as [p Hp]; [done|lia..|].
      pose proof (count_between_le p (raft_log n) (prev + 1) (commit_index n + 1) ltac:(lia)) as Hle.
      specialize (Hd' p). rewrite Hcnt' in Hd'. symmetry in Hd'. revert Hd'.
      apply wrap64_sub_ne; [by apply count_in_sound|]. word.
    + intros Hle p. rewrite Hd'. unfold entries_between at 2. rewrite range_nil by lia.
      unfold count_in at 2. simpl. rewrite Z.sub_0_r. by apply wrap64_words, count_in_sound.
Qed.

(** The counters drift after a retried request: when an accepted request
    starts before the commit index, every entry between [prev_log_index] and
    the commit index is uncounted but not counted again, so the counter of a
    producer is too small by the number of its entries there. *)
Theorem retried_request_drifts_counters (Eq : LogEntry → LogEntry → bool)
    (req : AppendEntriesReq) (n n' : MetamorphosisNode) (t : Z)
    (Hs1 : small (log_size (raft_log n)))
    (Hs2 : small (ae_prev_log_index req + Z.of_nat (length (ae_entries req))))
    (Hc : contiguous (raft_log n)) (Hci : 0 ≤ commit_index n ≤ log_size (raft_log n))
    (Hprev : 0 ≤ ae_prev_log_index req ≤ commit_index n) (Hcnt : counts n)
    (H : AppendEntries Eq req n = Done (MkAppendEntriesRsp t true, n')) :
  ∀ p, counter n' p =
    wrap64 (count_in p (entries_between (raft_log n') 1 (log_size (raft_log n') + 1)) -
            count_in p (entries_between (raft_log n) (ae_prev_log_index req + 1) (commit_index n + 1))).
Proof.
  destruct (AppendEntries_counters _ _ _ _ _ Hs1 Hs2 Hc Hci ltac:(lia) Hcnt H) as (_ & _ & Hd).
  intros p. rewrite Hd. by rewrite Z.max_r by lia.
Qed.
