(* ===== verification/MtfBehaviour.v ===== *)
(** * Behaviour of the Metamorphosis node

    Which nodes are main nodes, what a leader sends to whom, how [Read] and
    [Append] answer, and runs of a leader and a follower that show two faults:
    a request appended twice, and a follower that aborts on a late request. *)

From S2P Require Import Prelude.
From S2P Require Import Result.
From S2P Require Import RtTypes.
From S2P Require Import KVInterface.
From S2P Require Import Logs.
From S2P Require Import MtfNode.
From S2P Require Import MtfProcess.
From S2P Require Import MtfTrace.
From S2P Require Import MtfProps.

Local Open Scope Z_scope.

(** ** Main nodes *)

Lemma count_main (s k m : nat) :
  length (filter (λ i, i = s ∨ (i < k)%nat) (seq 0 m)) =
  (k `min` m + if decide (k ≤ s < m) then 1 else 0)%nat.
Proof.
  induction m as [|m IH]; simpl.
  { rewrite decide_False by lia. lia. }
  change (0%nat :: seq 1 m) with (seq 0 (S m)). rewrite seq_S, filter_app, length_app, IH.
  rewrite filter_cons, filter_nil. simpl.
  repeat case_decide; simpl; lia.
Qed.

(** The main nodes of a leader, the leader itself included, are exactly
    a majority of the cluster, whichever node leads. *)
Theorem main_nodes_are_a_majority (n : MetamorphosisNode)
    (Hid : (node_id (config n) < nodes_count n)%nat) :
  length (filter (λ i, i = node_id (config n) ∨ IsMainNode n i = true) (seq 0 (nodes_count n))) =
  MajorityCount n ∧ (nodes_count n < 2 * MajorityCount n)%nat.
Proof.
  assert (Hmaj : (nodes_count n < 2 * MajorityCount n ∧ MajorityCount n ≤ nodes_count n)%nat).
  { unfold MajorityCount. pose proof (Nat.div_mod_eq (nodes_count n) 2).
    pose proof (Nat.mod_upper_bound (nodes_count n) 2). lia. }
  split; [|lia]. unfold IsMainNode.
  set (k := if decide (MajorityCount n ≤ node_id (config n))%nat then _ else _).
  rewrite (list_filter_iff _ (λ i, i = node_id (config n) ∨ (i < k)%nat))
    by (intros i; by rewrite bool_decide_eq_true).
  rewrite count_main. unfold k. repeat case_decide; lia.
Qed.

Lemma main_nodes_are_a_majority_witness :
  let eps := [MkEndpoint "a" 1; MkEndpoint "b" 1; MkEndpoint "c" 1; MkEndpoint "d" 1; MkEndpoint "e" 1] in
  ∃ n, MetamorphosisNode_new (MkNodeConfig 4 eps (MkInterval 0 0) 0 0) ∅ ∅ = Done n ∧
    length (filter (λ i, i = node_id (config n) ∨ IsMainNode n i = true) (seq 0 5)) = 3%nat.
Proof.
  intros eps. eexists. split; [reflexivity|].
  match goal with |- context [config ?m] =>
    exact (proj1 (main_nodes_are_a_majority m ltac:(vm_compute; lia))) end.
Defined.

(** ** What a leader sends *)

(** The log of a leader with its pending entries. *)
Definition full_log (n : MetamorphosisNode) : Z → option LogEntry :=
  extended (raft_log n) (pending_log n).

Lemma mtf_GetLogEntry_full n i e :
  contiguous (raft_log n) →
  small (log_size (raft_log n) + Z.of_nat (length (pending_log n))) →
  GetLogEntry n i = Done e → full_log n i = Some e.
Proof.
  intros Hc Hs H. pose proof (contiguous_size _ Hc). unfold GetLogEntry in H. outcome_inv.
  change (GetSavedLogSize n) with (log_size (raft_log n)) in *.
  rewrite add64_small in * by word. unfold full_log, extended.
  case_decide; [by apply kv_Get_value in H1|].
  outcome_inv. rewrite (sub64_small i), sub64_small in * by word. done.
Qed.

Lemma mtf_GetLogEntry_total n i :
  contiguous (raft_log n) →
  small (log_size (raft_log n) + Z.of_nat (length (pending_log n))) →
  1 ≤ i ≤ log_size (raft_log n) + Z.of_nat (length (pending_log n)) →
  ∃ e, GetLogEntry n i = Done e ∧ full_log n i = Some e.
Proof.
  intros Hc Hs Hi. pose proof (contiguous_size _ Hc).
  assert (∃ e, GetLogEntry n i = Done e) as [e He]; [|exists e; split; [done|by apply mtf_GetLogEntry_full]].
  unfold GetLogEntry. change (GetSavedLogSize n) with (log_size (raft_log n)).
  rewrite add64_small by word. rewrite bool_decide_eq_true_2 by lia. simpl. case_decide.
  - destruct (contiguous_lookup (raft_log n) i) as [e He]; [done|lia|].
    exists e. by apply kv_Get_total.
  - rewrite (sub64_small i), sub64_small by word.
    destruct (lookup_lt_is_Some_2 (pending_log n) (Z.to_nat (i - log_size (raft_log n) - 1))) as [e He]; [lia|].
    exists e. by apply vec_get_Done.
Qed.

(** A loop that collects one result per index, when every index has one. *)
Lemma for_each_collect_total {A} (g : Z → outcome A) lo hi :
  (∀ i, lo ≤ i < hi → ∃ a, g i = Done a) →
  ∃ l, for_each (range lo hi) (λ i acc, a ← g i; Done (acc ++ [a])) [] = Done l.
Proof.
  intros Hg. destruct (for_each_total (λ (xs : list Z) (_ : list A), ∀ x, x ∈ xs → lo ≤ x < hi)
    (range lo hi) (λ i acc, a ← g i; Done (acc ++ [a])) []) as (l & Hl & _); [| |by exists l].
  - intros x Hx. unfold range in Hx. apply elem_of_seqZ in Hx. lia.
  - intros x xs acc Hxs. destruct (Hg x) as [a Ha]; [apply Hxs; set_solver|].
    exists (acc ++ [a]). split; [by rewrite Ha|]. set_solver.
Qed.

(** A leader's own next index is the end of its log with the pending entries:
    from [BecomeLeader] on, after [Append] and after the main session. *)
Definition next_is_end (n : MetamorphosisNode) : Prop :=
  next_index n !! node_id (config n) =
    Some (log_size (raft_log n) + Z.of_nat (length (pending_log n)) + 1).

Lemma UpdateCommitIndex_keeps_next n n' :
  UpdateCommitIndex n = Done n' →
  next_index n' = next_index n ∧ pending_log n' = pending_log n ∧ config n' = config n.
Proof.
  unfold UpdateCommitIndex. intros H. outcome_inv.
  match goal with H : for_each _ _ _ = Done _ |- _ =>
    refine (for_each_inv (λ _ m, next_index m = next_index n ∧ pending_log m = pending_log n ∧ config m = config n)
      _ _ _ _ H _ _) end; [done|].
  intros i ixs m m' Hm Hb. unfold notify_committed in Hb.
  destruct (pending_requests m !! i); [|by outcome_inv].
  destruct (frames m !! _); by outcome_inv.
Qed.

Lemma next_is_end_kept (ComputeMd5Hash : string → list Z) :
  (∀ n n', contiguous (raft_log n) → small (log_size (raft_log n)) → (node_id (config n) < nodes_count n)%nat →
     BecomeLeader n = Done n' → next_is_end n') ∧
  (∀ request n r n', contiguous (raft_log n) →
     small (log_size (raft_log n) + Z.of_nat (length (pending_log n))) → next_is_end n →
     Append_begin ComputeMd5Hash request n = Done (r, n') → next_is_end n') ∧
  (∀ n n', contiguous (raft_log n) →
     small (log_size (raft_log n) + Z.of_nat (length (pending_log n))) → next_is_end n →
     match_index n !! node_id (config n) = Some (log_size (raft_log n)) →
     LeaderMainSession_iteration n = Done n' → next_is_end n').
Proof.
  split_and!.
  - intros n n' Hc%contiguous_size Hs Hid H. unfold BecomeLeader in H. outcome_inv. unfold next_is_end. simpl.
    rewrite lookup_replicate_2 by done. change (GetSavedLogSize _) with (log_size (raft_log n)).
    rewrite add64_small by word. f_equal. lia.
  - intros request n r n' Hc%contiguous_size Hs Hend H. unfold Append_begin in H.
    case_decide; [by outcome_inv|]. case_decide; [by outcome_inv|]. case_decide; [by outcome_inv|]. outcome_inv.
    unfold next_is_end in *. simpl in *. simplify_eq/=. rewrite length_app. simpl.
    rewrite list_lookup_insert_eq by done. rewrite add64_small by word. f_equal. lia.
  - intros n n' Hc Hs Hend Hm H. pose proof (contiguous_size _ Hc).
    destruct (LeaderMainSession_iteration_same _ _ _ Hm H) as [Hl _].
    destruct (extend_contiguous (raft_log n) (pending_log n)) as (_ & _ & Hsz); [done|word|]. rewrite <-Hl in Hsz.
    unfold LeaderMainSession_iteration in H. outcome_inv.
    match goal with H : UpdateCommitIndex _ = _ |- _ => apply UpdateCommitIndex_keeps_next in H as (Hn & Hp & Hcf) end.
    simpl in *. unfold next_is_end, add_heartbeat_guard in *. destruct (stopped _); simpl in *;
      rewrite Hn, Hcf, Hp, Hsz, Hend; simpl; f_equal; lia.
Qed.

(** Whether node [id] is sent entries that are not committed yet. *)
Definition gets_uncommitted (n : MetamorphosisNode) (id : nat) : Prop :=
  IsMainNode n id = true ∨ alive_main_nodes_count n ≠ Z.of_nat (MajorityCount n).

#[export] Instance gets_uncommitted_dec n id : Decision (gets_uncommitted n id).
Proof. unfold gets_uncommitted. apply _. Defined.

Lemma last_log_entry_index_eq (id : nat) (n : MetamorphosisNode) (size : Z) :
  0 ≤ size → size < u64_max → next_index n !! node_id (config n) = Some (size + 1) →
  last_log_entry_index id n = Done (if decide (gets_uncommitted n id) then size else commit_index n).
Proof.
  intros H0 H1 Hself. unfold last_log_entry_index.
  rewrite (proj2 (vec_get_Done _ _ _) Hself). simpl. rewrite sub64_small by (unfold is_u64; lia).
  assert (Hiff : gets_uncommitted n id ↔
    ¬ (IsMainNode n id = false ∧ alive_main_nodes_count n = Z.of_nat (MajorityCount n))).
  { unfold gets_uncommitted. destruct (IsMainNode n id); [naive_solver|].
    destruct (decide (alive_main_nodes_count n = Z.of_nat (MajorityCount n))); naive_solver. }
  repeat case_decide; try (f_equal; lia); exfalso; naive_solver.
Qed.

(** [C18] What a session sends to node [id], exactly: with the last entry the
    node is not known to miss saved, the request names that entry as the
    previous one with its term, carries the term and the commit index of the
    leader, and holds every entry from [next_index[id]] up to the end of the
    log with the pending entries - or up to the commit index when the node is
    not a main node and all main nodes are alive -, one by one and in order, a
    committed entry without its data, an entry that is not committed with its
    data. While all main nodes are alive no data is sent to a node that is not
    a main node. If the previous entry is not saved yet the check of the
    lookup aborts the process. ([next_is_end_kept] shows that leaders satisfy
    the hypothesis on their own next index.) *)
Theorem session_sends_data_to_main_nodes (id : nat) (n : MetamorphosisNode) (term next : Z)
    (Hc : contiguous (raft_log n))
    (Hs : small (log_size (raft_log n) + Z.of_nat (length (pending_log n))))
    (Hci : 0 ≤ commit_index n ≤ log_size (raft_log n))
    (Hterm : raft_state n !! "current_term" = Some term)
    (Hself : next_is_end n)
    (Hnext : next_index n !! id = Some next) (H64 : 1 ≤ next ≤ u64_max) :
  let last := if decide (gets_uncommitted n id)
              then log_size (raft_log n) + Z.of_nat (length (pending_log n)) else commit_index n in
  if decide (next ≤ log_size (raft_log n) + 1) then
    ∃ req, LeaderNodeSession_request id n = Done req ∧
      ae_term req = term ∧ ae_leader_id req = Z.of_nat (node_id (config n)) ∧
      ae_leader_commit req = commit_index n ∧
      ae_prev_log_index req = next - 1 ∧
      Some (ae_prev_log_term req) =
        (if decide (next = 1) then Some 0 else entry_term <$> raft_log n !! (next - 1)) ∧
      length (ae_entries req) = Z.to_nat (last + 1 - next) ∧
      (∀ k e, ae_entries req !! k = Some e →
         let i := next + Z.of_nat k in
         ∃ e0, full_log n i = Some e0 ∧
           e = if decide (i ≤ commit_index n) then hash_only e0 else e0) ∧
      (¬ gets_uncommitted n id → ∀ e, e ∈ ae_entries req → entry_data e = EmptyString)
  else ∃ message, LeaderNodeSession_request id n = Panic message.
Proof.
  intros last. pose proof (contiguous_size _ Hc).
  unfold LeaderNodeSession_request.
  rewrite (proj2 (vec_get_Done _ _ _) Hnext). simpl. rewrite bool_decide_eq_true_2 by lia. simpl.
  unfold GetCurrentTerm. rewrite (kv_Get_total _ _ _ Hterm). simpl.
  rewrite (sub64_small next) by (unfold is_u64; lia).
  rewrite (last_log_entry_index_eq id n (log_size (raft_log n) + Z.of_nat (length (pending_log n))));
    [fold last|lia|unfold small in Hs; lia|exact Hself].
  case_decide as Hle; cycle 1.
  { rewrite decide_False by lia. unfold kv_Get.
    replace (raft_log n !! (next - 1)) with (@None LogEntry); [simpl; eauto|].
    symmetry. apply eq_None_not_Some. intros ?%Hc. lia. }
  assert (Hprev : ∃ pt, (if decide (next = 1) then Done 0
      else entry_term <$> GetValue (kv_Get (raft_log n) (next - 1))) = Done pt ∧
    Some pt = if decide (next = 1) then Some 0 else entry_term <$> raft_log n !! (next - 1)).
  { case_decide; [by exists 0|]. destruct (contiguous_lookup (raft_log n) (next - 1)) as [e He]; [done|lia|].
    exists (entry_term e). rewrite (kv_Get_total _ _ _ He), He. done. }
  destruct Hprev as (pt & -> & Hpt). simpl.
  assert (Hlast : last ≤ log_size (raft_log n) + Z.of_nat (length (pending_log n)))
    by (unfold last; destruct (decide (gets_uncommitted n id)); lia).
  destruct (for_each_collect_total (λ index, entry ← GetLogEntry n index;
    Done (if decide (index ≤ commit_index n) then hash_only entry else entry)) next (last + 1))
    as [entries Hents].
  { intros i Hi. destruct (mtf_GetLogEntry_total n i) as (e & -> & _); [done..|lia|]. simpl. eauto. }
  rewrite Hents. simpl. apply for_each_collect in Hents as [Hlen Hent].
  assert (Hk : ∀ k e, entries !! k = Some e → ∃ e0, full_log n (next + Z.of_nat k) = Some e0 ∧
    e = if decide (next + Z.of_nat k ≤ commit_index n) then hash_only e0 else e0).
  { intros k e Hk. apply Hent, bind_Done in Hk as (e0 & He0 & [= <-]).
    apply mtf_GetLogEntry_full in He0; eauto. }
  eexists. split; [reflexivity|]. simpl. split_and!; [done..|].
  intros Hno e [k He]%list_elem_of_lookup. destruct (Hk k e He) as (e0 & He0 & ->).
  apply lookup_lt_Some in He. unfold last in Hlen. rewrite (decide_False (P := gets_uncommitted n id)) in Hlen by done.
  by rewrite decide_True by lia.
Qed.

(** ** Reading *)

(** [Read] never shows an entry that is not committed: a committed offset
    gives the data of its entry, or its hash when the node has no data; an
    offset above the commit index is not found; offset 0, which no message
    has, is an internal error of the RPC and not [NOT_FOUND]. *)
Theorem Read_correct (n : MetamorphosisNode) (offset : Z)
    (Hc : contiguous (raft_log n)) (Hci : 0 ≤ commit_index n ≤ log_size (raft_log n)) :
  (commit_index n < offset → Read (MkReadReq offset) n = Ok NOT_FOUND) ∧
  (1 ≤ offset ≤ commit_index n → ∃ e, raft_log n !! offset = Some e ∧
     Read (MkReadReq offset) n =
       Ok (if decide (entry_data e = EmptyString) then HASH_ONLY (entry_md5hash e)
           else FULL_MESSAGE (entry_data e))) ∧
  (offset = 0 → ∃ message, Read (MkReadReq offset) n = Err (MkRpcError RpcInternal message)).
Proof.
  unfold Read. simpl. split_and!.
  - intros Hgt. by rewrite decide_True.
  - intros Hle. rewrite decide_False by lia. destruct (proj2 (Hc offset)) as [e He]; [lia|].
    exists e. split; [done|]. unfold kv_Get. rewrite He.
    destruct (decide (entry_data e = EmptyString)) as [->|Hne]; [done|].
    by rewrite decide_True by done.
  - intros ->. rewrite decide_False by lia.
    assert (Hnone : raft_log n !! 0 = None) by (apply eq_None_not_Some; intros ?%Hc; lia).
    unfold kv_Get. rewrite Hnone. eauto.
Qed.

(** ** Appending *)

(** [Append] on a leader accepts a message exactly when no request of its
    producer is marked as pending and its sequence id is the number of messages
    the producer has in the log; it then adds one entry of the current term at
    the next index and answers later. Otherwise it answers at once, with the
    next sequence id in the case of a wrong one, and changes no log. *)
Theorem Append_begin_correct (ComputeMd5Hash : string → list Z) (request : AppendReq)
    (n : MetamorphosisNode) (term index : Z)
    (Hterm : GetCurrentTerm n = Done term) (Hlead : state n = Leader)
    (Hnext : next_index n !! node_id (config n) = Some index) :
  let p := req_producer_id request in
  ∃ r n', Append_begin ComputeMd5Hash request n = Done (r, n') ∧
    raft_log n' = raft_log n ∧
    (if decide (p ∈ pending_producers n) then
       r = inl (MkAppendRsp ParallelRequest 0 0) ∧ n' = n
     else if decide (req_sequence_id request = counter n p) then
       ∃ id, r = inr id ∧
       pending_log n' = pending_log n ++
         [MkLogEntry term p (req_data request) (ComputeMd5Hash (req_data request))] ∧
       next_index n' !! node_id (config n) = Some (index +64 1) ∧
       pending_requests n' !! index = Some id ∧
       (∃ f, frames n' !! id = Some f ∧ new_log_index f = index ∧ frame_producer_id f = p) ∧
       pending_producers n' = {[p]} ∪ pending_producers n
     else
       r = inl (MkAppendRsp InvalidSequenceId 0 (counter n p)) ∧
       pending_log n' = pending_log n ∧ pending_producers n' = pending_producers n).
Proof.
  intros p. unfold Append_begin. fold p. rewrite decide_False by (intros Hn; by apply Hn).
  destruct (decide (p ∈ pending_producers n)) as [Hp|Hp]; [eexists _, _; by split_and!|].
  cbn [producer_next_sequence_id set_producer_next_sequence_id set_pending_producers].
  assert (Ht : default 0 (touch p (producer_next_sequence_id n) !! p) = counter n p).
  { unfold touch. by rewrite lookup_insert_eq. }
  rewrite Ht. destruct (decide (req_sequence_id request = counter n p)) as [Heq|Hne].
  - rewrite decide_False by (intros Hn; by apply Hn). cbn [next_index set_producer_next_sequence_id
      set_pending_producers config].
    rewrite (proj2 (vec_get_Done _ _ _) Hnext), bind_Done_eq.
    assert (Hset : vec_set (next_index n) (node_id (config n)) (index +64 1) =
      Done (<[node_id (config n) := index +64 1]> (next_index n))).
    { unfold vec_set. rewrite decide_True; [done|]. by eapply lookup_lt_Some. }
    rewrite Hset, bind_Done_eq.
    match goal with |- context [GetCurrentTerm ?m] =>
      change (GetCurrentTerm m) with (GetCurrentTerm n) end.
    rewrite Hterm, bind_Done_eq. eexists _, _. split; [reflexivity|]. split; [done|].
    eexists. split; [done|]. simpl. split_and!; try done.
    + rewrite list_lookup_insert_eq; [done|]. by eapply lookup_lt_Some.
    + by rewrite lookup_insert_eq.
    + eexists. rewrite lookup_insert_eq. by split_and!.
  - rewrite decide_True by done. eexists _, _. split; [reflexivity|]. simpl.
    split_and!; try done. apply leibniz_equiv. set_solver.
Qed.

(** ** Runs *)

(** Runs of one node of the cluster of MtfTrace.v. *)
Module Example3.
Import MtfExample3.

Definition run := run_events hash Equals.

(** Node 0 is elected with the vote of node 1 and starts to lead. *)
Definition elected : list event :=
  [RunLoop; FollowerWakes; RunLoop; VoteReturns 1 (Ok (MkRequestVoteRsp 1 true));
   VoteReturns 2 timeout; ElectionEnds; RunLoop; MainSessionRuns].

Definition acked : Result AppendEntriesRsp RpcError := Ok (MkAppendEntriesRsp 1 true).

(** The first message of producer 7 is replicated; before its request resumes,
    the second message arrives; after it has resumed, the second message
    arrives again. *)
Definition duplicated : list event :=
  elected ++
  [HandleAppend (MkAppendReq "x" 7 0); MainSessionRuns; SessionRuns 1; AppendReturns 1 acked;
   HandleAppend (MkAppendReq "y" 7 1); AppendResumes 8; HandleAppend (MkAppendReq "y" 7 1);
   MainSessionRuns].

(** Node 1 does not answer; the message is committed with node 2 and sent to
    node 1 again. *)
Definition resent : list event :=
  elected ++
  [HandleAppend (MkAppendReq "x" 7 0); MainSessionRuns; SessionRuns 1; AppendReturns 1 timeout;
   SessionRuns 2; AppendReturns 2 acked; SessionRuns 1].
End Example3.

Import MtfExample3 Example3.

(** A message can be appended twice: the mark of a producer is erased when
    an earlier request of the producer returns, so a repeated request is taken
    for a new one while the first copy is still pending, and both copies, with
    the same sequence id, reach the log. *)
Theorem repeated_request_appended_twice :
  ∃ outs p, run duplicated (boot 0) = Some (Done (outs, p)) ∧
    raft_log (node p) !! 2 = Some (MkLogEntry 1 7 "y" (hash "y")) ∧
    raft_log (node p) !! 3 = Some (MkLogEntry 1 7 "y" (hash "y")) ∧
    (∀ k, k = 12%nat ∨ k = 14%nat → duplicated !! k = Some (HandleAppend (MkAppendReq "y" 7 1))).
Proof.
  eexists _, _. split; [vm_compute; reflexivity|].
  split_and!; [reflexivity..|]. by intros k [->| ->].
Qed.

(** A leader sends the same entry first with its data and, once it is
    committed, without. A main node that receives both in this order loses its
    data; a node that receives them in the other order aborts, because the
    committed entry without data differs from the late one. *)
Theorem resent_entry_loses_data_or_aborts :
  ∃ outs p full hashed,
    run resent (boot 0) = Some (Done (outs, p)) ∧
    outs !! 10%nat = Some (CallAppendEntries 1 full) ∧
    outs !! 14%nat = Some (CallAppendEntries 1 hashed) ∧
    IsMainNode (node p) 1 = true ∧
    (∃ outs1 q1, run [HandleAppendEntries full] (boot 1) = Some (Done (outs1, q1)) ∧
       entry_data <$> raft_log (node q1) !! 1 = Some "x") ∧
    (∃ outs2 q2, run [HandleAppendEntries full; HandleAppendEntries hashed] (boot 1) =
         Some (Done (outs2, q2)) ∧
       entry_data <$> raft_log (node q2) !! 1 = Some "") ∧
    run [HandleAppendEntries hashed; HandleAppendEntries full] (boot 1) =
      Some (Panic "invalid state: committed log is inconsistent").
Proof.
  eexists _, _, _, _. split; [vm_compute; reflexivity|].
  split; [reflexivity|]. split; [reflexivity|]. split; [reflexivity|]. split_and!.
  - eexists _, _. split; [vm_compute; reflexivity|]. vm_compute. reflexivity.
  - eexists _, _. split; [vm_compute; reflexivity|]. vm_compute. reflexivity.
  - vm_compute. reflexivity.
Qed.

(** ** Instances of the theorems *)

(** The leader of [resent] at its end. *)
Definition resent_leader : MetamorphosisNode :=
  match run resent (boot 0) with Some (Done (_, p)) => node p | _ => node (boot 0) end.

Lemma resent_leader_log :
  contiguous (raft_log resent_leader) ∧ log_size (raft_log resent_leader) = 1.
Proof.
  apply contiguous_intro; [lia|]. intros i.
  assert (Hl : raft_log resent_leader = {[1 := MkLogEntry 1 7 "x" (hash "x")]}) by (vm_compute; reflexivity).
  rewrite Hl, lookup_singleton. case_decide; [subst; split; [lia|eauto]|split; [by intros []|lia]].
Qed.

Lemma Read_correct_witness :
  Read (MkReadReq 1) resent_leader = Ok (FULL_MESSAGE "x") ∧
  Read (MkReadReq 2) resent_leader = Ok NOT_FOUND.
Proof.
  destruct resent_leader_log as [Hc Hz].
  assert (Hci : 0 ≤ commit_index resent_leader ≤ log_size (raft_log resent_leader))
    by (rewrite Hz; vm_compute; split; discriminate).
  split.
  - destruct (Read_correct resent_leader 1 Hc Hci) as (_ & H & _).
    destruct H as (e & He & ->); [vm_compute; split; discriminate|].
    revert He. vm_compute. intros [= <-]. reflexivity.
  - destruct (Read_correct resent_leader 2 Hc Hci) as (H & _). apply H. vm_compute. reflexivity.
Defined.

Lemma session_sends_data_to_main_nodes_witness :
  ∃ req, LeaderNodeSession_request 1 resent_leader = Done req ∧
    ae_leader_commit req = 1 ∧ ae_prev_log_index req = 0 ∧ length (ae_entries req) = 1%nat ∧
    ∀ k e, ae_entries req !! k = Some e →
      ∃ e0, full_log resent_leader (1 + Z.of_nat k) = Some e0.
Proof.
  destruct resent_leader_log as [Hc Hz].
  assert (Hp : pending_log resent_leader = []) by (vm_compute; reflexivity).
  assert (Hcm : commit_index resent_leader = 1) by (vm_compute; reflexivity).
  pose proof (session_sends_data_to_main_nodes 1 resent_leader 1 1) as H.
  rewrite Hz, Hp, Hcm in H. simpl in H.
  destruct H as (req & Hreq & _ & _ & H1 & H2 & _ & H3 & H4 & _).
  - exact Hc.
  - vm_compute. reflexivity.
  - lia.
  - vm_compute. reflexivity.
  - vm_compute. reflexivity.
  - vm_compute. reflexivity.
  - split; vm_compute; discriminate.
  - exists req. split_and!; [done|done|done|rewrite H3; by destruct (decide (gets_uncommitted resent_leader 1))|].
    intros k e He. destruct (H4 k e He) as (e0 & He0 & _). exists e0. exact He0.
Defined.

Lemma Append_begin_correct_witness :
  ∃ r n', Append_begin hash (MkAppendReq "z" 7 1) resent_leader = Done (r, n') ∧
    pending_log n' = pending_log resent_leader ++ [MkLogEntry 1 7 "z" (hash "z")].
Proof.
  destruct (Append_begin_correct hash (MkAppendReq "z" 7 1) resent_leader 1 2)
    as (r & n' & H1 & _ & H3).
  - vm_compute. reflexivity.
  - vm_compute. reflexivity.
  - vm_compute. reflexivity.
  - exists r, n'. split; [exact H1|]. rewrite decide_False in H3.
    + rewrite decide_True in H3
        by (assert (Hq : bool_decide (1 = counter resent_leader 7) = true) by (vm_compute; reflexivity);
            by apply bool_decide_eq_true in Hq).
      destruct H3 as (id & _ & H3 & _). exact H3.
    + assert (Hp : bool_decide (7 ∈ pending_producers resent_leader) = false) by (vm_compute; reflexivity).
      by apply bool_decide_eq_false in Hp.
Defined.

(** Node 1 after the request of [resent] without data. *)
Definition hashed : AppendEntriesReq := MkAppendEntries 1 0 0 0 [MkLogEntry 1 7 "" (hash "x")] 1.
Definition hashed_follower : MetamorphosisNode :=
  match AppendEntries Equals hashed (node (boot 1)) with Done (_, n) => n | _ => node (boot 1) end.

Lemma hashed_follower_ok :
  contiguous (raft_log hashed_follower) ∧ log_size (raft_log hashed_follower) = 1 ∧
  counts hashed_follower.
Proof.
  assert (Hl : raft_log hashed_follower = {[1 := MkLogEntry 1 7 "" (hash "x")]}) by (vm_compute; reflexivity).
  assert (Hp : producer_next_sequence_id hashed_follower = {[7 := 1]}) by (vm_compute; reflexivity).
  destruct (contiguous_intro (raft_log hashed_follower) 1) as [Hc Hz]; [lia| |].
  { intros i. rewrite Hl, lookup_singleton. case_decide; [subst; split; [lia|eauto]|split; [by intros []|lia]]. }
  split_and!; [done..|]. intros p. unfold counter. rewrite Hz, Hp, Hl.
  rewrite lookup_singleton. rewrite (entries_between_cons _ 1 _ (MkLogEntry 1 7 "" (hash "x"))) by (reflexivity || lia).
  unfold entries_between. rewrite range_nil by lia. rewrite count_in_cons. simpl.
  unfold count_in. simpl. by destruct (decide (7 = p)).
Qed.

Lemma retried_request_drifts_counters_witness :
  ∃ n', AppendEntries Equals hashed hashed_follower = Done (MkAppendEntriesRsp 1 true, n') ∧
    raft_log n' = raft_log hashed_follower ∧ counter hashed_follower 7 = 1 ∧ counter n' 7 = 0.
Proof.
  destruct hashed_follower_ok as (Hc & Hz & Hcnt).
  destruct (AppendEntries Equals hashed hashed_follower) as [[rsp n']| |] eqn:H;
    [|exfalso; vm_compute in H; discriminate..].
  assert (Hr : rsp = MkAppendEntriesRsp 1 true) by (vm_compute in H; injection H as <- _; reflexivity).
  assert (Hl : raft_log n' = raft_log hashed_follower)
    by (vm_compute in H; injection H as _ <-; vm_compute; reflexivity).
  rewrite Hr in H. exists n'. split; [rewrite Hr; reflexivity|]. split; [exact Hl|].
  split; [vm_compute; reflexivity|].
  rewrite (retried_request_drifts_counters Equals hashed hashed_follower n' 1); try assumption.
  - rewrite Hl, Hz. vm_compute. reflexivity.
  - rewrite Hz. word.
  - simpl. word.
  - rewrite Hz. vm_compute. split; discriminate.
  - vm_compute. split; discriminate.
Defined.

(** A restart on the log of [hashed_follower], the request [hashed] on a new
    node, and the same request once more: the last one makes the counter wrong. *)
Lemma producer_counters_and_log_witness :
  (∃ n, MetamorphosisNode_new (cfg 2) ∅ (raft_log hashed_follower) = Done n ∧ counter n 7 = 1) ∧
  (∃ t n', AppendEntries Equals hashed hashed_follower = Done (MkAppendEntriesRsp t true, n') ∧
     ¬ counts n' ∧ counter n' 7 = 0).
Proof.
  destruct hashed_follower_ok as (Hc & Hz & Hcnt).
  destruct (producer_counters_and_log Equals) as (H & _ & H').
  split.
  - destruct (H (cfg 2) ∅ (raft_log hashed_follower)) as (n & Hn & Hl & Hcnt'); [exact Hc|rewrite Hz; word|].
    exists n. split; [exact Hn|]. rewrite (Hcnt' 7), Hl, Hz. vm_compute. reflexivity.
  - destruct (AppendEntries Equals hashed hashed_follower) as [[rsp n']| |] eqn:Hrun;
      [|exfalso; vm_compute in Hrun; discriminate..].
    assert (Hr : rsp = MkAppendEntriesRsp 1 true) by (vm_compute in Hrun; injection Hrun as <- _; reflexivity).
    subst rsp. exists 1, n'. split; [reflexivity|].
    assert (Hci : commit_index hashed_follower = 1) by (vm_compute; reflexivity).
    destruct (H' hashed hashed_follower 1 true n') as (_ & Hd & Hiff);
      [rewrite Hz; word|vm_compute; reflexivity|exact Hc|rewrite Hci, Hz; lia|simpl; lia|exact Hcnt|exact Hrun|].
    split; [|vm_compute in Hrun; injection Hrun as <-; reflexivity].
    rewrite Hiff, Hci. simpl. lia.
Defined.
