(* ===== verification/Cancellation.v ===== *)
(** * Cancellation

    Model of src/runtime/util/cancellation: stop sources and stop tokens share
    a reference-counted [StopState]; stop callbacks are the nodes of an
    intrusive doubly linked list hanging off it.

    [Handles]: the counting. A [StopSource] and a [StopToken] both are a pointer
    that may be null; handles are named by the address of the object, states by
    theirs. Reading a state that was deleted is undefined.

    [Callbacks]: the list, as pointers in a heap of nodes. The spin lock makes
    every operation atomic; a callback runs while the lock is held and must not
    use the same state (the source documents the deadlock), so it is a function
    on the state of the rest of the program. *)

From S2P Require Import Prelude.

Local Open Scope Z_scope.

Definition ptr : Type := positive.

Module Handles.

(** The part of [StopState] the handles use. *)
Record StopState : Type := MkStopState {
  cancelled : bool;
  ref_count : Z;
}.

Record heap : Type := MkHeap {
  states : gmap ptr StopState;
  handles : gmap ptr (option ptr);
}.

Definition deref (p : ptr) (h : heap) : outcome StopState :=
  match states h !! p with
  | Some s => Done s
  | None => Undefined "use after free"
  end.

Definition Ref (p : ptr) (h : heap) : outcome heap :=
  s ← deref p h;
  Done (MkHeap (<[p := MkStopState (cancelled s) (ref_count s +64 1)]> (states h)) (handles h)).

Definition UnRef (p : ptr) (h : heap) : outcome heap :=
  s ← deref p h;
  let count := ref_count s -64 1 in
  Done (if decide (count = 0) then MkHeap (delete p (states h)) (handles h)
        else MkHeap (<[p := MkStopState (cancelled s) count]> (states h)) (handles h)).

(** The [state_] member of the object at [o]. *)
Definition get_state (o : ptr) (h : heap) : outcome (option ptr) :=
  match handles h !! o with
  | Some st => Done st
  | None => Undefined "object does not exist"
  end.

Definition set_state (o : ptr) (st : option ptr) (h : heap) : heap :=
  MkHeap (states h) (<[o := st]> (handles h)).

(** [StopSource()]: a new state at [p]. *)
Definition StopSource_new (o p : ptr) (h : heap) : outcome heap :=
  Ref p (MkHeap (<[p := MkStopState false 0]> (states h)) (<[o := Some p]> (handles h))).

(** [StopToken(state)], used by [GetToken] and the copy constructor: the new
    object at [o'] points to the state of the object at [o]. *)
Definition StopToken_from (o o' : ptr) (h : heap) : outcome heap :=
  st ← get_state o h;
  match st with
  | None => Done (set_state o' None h)
  | Some p => Ref p (set_state o' (Some p) h)
  end.

(** [std::swap(other.state_, state_)] *)
Definition swap (o o' : ptr) (h : heap) : outcome heap :=
  st ← get_state o h;
  st' ← get_state o' h;
  Done (set_state o st' (set_state o' st h)).

(** The move constructors: a null pointer swapped with the argument. *)
Definition move_construct (o o' : ptr) (h : heap) : outcome heap :=
  swap o o' (set_state o' None h).

(** The destructors. *)
Definition destroy (o : ptr) (h : heap) : outcome heap :=
  st ← get_state o h;
  h' ← match st with
       | None => Done h
       | Some p => UnRef p h
       end;
  Done (MkHeap (states h') (delete o (handles h'))).

(** [StopToken::operator=(StopToken other)]: the argument is a copy of the
    object at [from], swapped in and destroyed with the old state. *)
Definition token_assign (o from tmp : ptr) (h : heap) : outcome heap :=
  h ← StopToken_from from tmp h;
  h ← swap o tmp h;
  destroy tmp h.

Definition StopToken_StopRequested (o : ptr) (h : heap) : outcome bool :=
  st ← get_state o h;
  match st with
  | None => Done false
  | Some p => s ← deref p h; Done (cancelled s)
  end.

(** No check for a source that was moved from. *)
Definition StopSource_StopRequested (o : ptr) (h : heap) : outcome bool :=
  st ← get_state o h;
  match st with
  | None => Undefined "null pointer"
  | Some p => s ← deref p h; Done (cancelled s)
  end.

(** The assignment of [Stop] to the shared state. *)
Definition StopSource_cancel (o : ptr) (h : heap) : outcome heap :=
  st ← get_state o h;
  match st with
  | None => Done h
  | Some p =>
      s ← deref p h;
      Done (MkHeap (<[p := MkStopState true (ref_count s)]> (states h)) (handles h))
  end.

(** ** Reachable heaps *)

Inductive step : heap → heap → Prop :=
  | step_source o p h h' :
      handles h !! o = None → states h !! p = None → StopSource_new o p h = Done h' → step h h'
  | step_token o o' h h' :
      is_Some (handles h !! o) → handles h !! o' = None → StopToken_from o o' h = Done h' → step h h'
  | step_move o o' h h' :
      is_Some (handles h !! o) → handles h !! o' = None → move_construct o o' h = Done h' → step h h'
  | step_swap o o' h h' :
      is_Some (handles h !! o) → is_Some (handles h !! o') → swap o o' h = Done h' → step h h'
  | step_assign o from tmp h h' :
      is_Some (handles h !! o) → is_Some (handles h !! from) → handles h !! tmp = None →
      token_assign o from tmp h = Done h' → step h h'
  | step_cancel o h h' :
      is_Some (handles h !! o) → StopSource_cancel o h = Done h' → step h h'
  | step_destroy o h h' :
      is_Some (handles h !! o) → destroy o h = Done h' → step h h'.

(** The number of objects that point to the state at [p]. *)
Definition count (p : ptr) (hs : gmap ptr (option ptr)) : nat :=
  size (filter (λ kv : ptr * option ptr, kv.2 = Some p) hs).

Definition counted (h : heap) : Prop :=
  ∀ p, match states h !! p with
       | Some s => ref_count s = Z.of_nat (count p (handles h)) ∧ (0 < count p (handles h))%nat
       | None => count p (handles h) = 0%nat
       end.

Definition points (st : option ptr) (p : ptr) : nat := if decide (st = Some p) then 1 else 0.

Lemma count_insert_fresh p o st hs :
  hs !! o = None → count p (<[o := st]> hs) = (points st p + count p hs)%nat.
Proof.
  intros Ho. unfold count, points. case_decide as Hd.
  - rewrite map_filter_insert_True by done. rewrite map_size_insert_None; [done|].
    apply map_lookup_filter_None. by left.
  - rewrite map_filter_insert_False by done. by rewrite delete_id.
Qed.

Lemma count_delete p o st hs :
  hs !! o = Some st → count p hs = (points st p + count p (delete o hs))%nat.
Proof.
  intros Ho. rewrite <-(insert_delete_id _ _ _ Ho) at 1. apply count_insert_fresh, lookup_delete_eq.
Qed.

Lemma count_insert p o st st' hs :
  hs !! o = Some st → (count p (<[o := st']> hs) + points st p)%nat = (points st' p + count p hs)%nat.
Proof.
  intros Ho. rewrite (count_delete p o st hs) by done.
  rewrite <-insert_delete_eq. rewrite count_insert_fresh by apply lookup_delete_eq. lia.
Qed.

Lemma points_Some p q : points (Some q) p = if decide (q = p) then 1%nat else 0%nat.
Proof. unfold points. repeat case_decide; congruence. Qed.

Lemma points_None p : points None p = 0%nat.
Proof. done. Qed.

(** Fewer objects than a 64-bit counter counts. *)
Definition bounded (h : heap) : Prop := Z.of_nat (size (handles h)) < u64_max.

Lemma count_size p hs : (count p hs ≤ size hs)%nat.
Proof. apply map_subseteq_size, map_filter_subseteq. Qed.

Lemma counted_alive h o p :
  counted h → handles h !! o = Some (Some p) →
  ∃ s, states h !! p = Some s ∧ ref_count s = Z.of_nat (count p (handles h)) ∧
       (0 < count p (handles h))%nat.
Proof.
  intros Hc Ho. specialize (Hc p). rewrite (count_delete p o _ _ Ho), points_Some, decide_True in * by done.
  destruct (states h !! p) as [s|]; [by eauto|lia].
Qed.

Lemma StopSource_new_counted o p h :
  counted h → handles h !! o = None → states h !! p = None →
  ∃ h', StopSource_new o p h = Done h' ∧ counted h'.
Proof.
  intros Hc Ho Hp. unfold StopSource_new, Ref, deref. simpl. rewrite lookup_insert_eq, bind_Done_eq.
  eexists. split; [done|]. intros q. simpl. rewrite count_insert_fresh, points_Some by done.
  rewrite insert_insert_eq, lookup_insert. specialize (Hc q). case_decide as Hq.
  - subst q. rewrite Hp in Hc. rewrite Hc. simpl. split; [vm_compute; reflexivity|lia].
  - done.
Qed.

Lemma StopToken_from_counted o o' h :
  counted h → bounded h → is_Some (handles h !! o) → handles h !! o' = None →
  ∃ h', StopToken_from o o' h = Done h' ∧ counted h' ∧
        handles h' = <[o' := default None (handles h !! o)]> (handles h).
Proof.
  intros Hc Hb [st Ho] Ho'. unfold StopToken_from, get_state. rewrite Ho, bind_Done_eq.
  destruct st as [p|]; simpl.
  - destruct (counted_alive h o p Hc Ho) as (s & Hs & Hrc & Hpos).
    unfold Ref, deref. simpl. rewrite Hs, bind_Done_eq. eexists. split_and!; [done| |done].
    intros q. simpl. rewrite count_insert_fresh, points_Some by done. rewrite lookup_insert.
    specialize (Hc q). case_decide as Hq; [|done]. subst q. simpl.
    rewrite add64_small; [lia|]. pose proof (count_size p (handles h)). unfold bounded in Hb.
    unfold is_u64. lia.
  - eexists. split_and!; [done| |done]. intros q. simpl. rewrite count_insert_fresh by done.
    rewrite (points_None q). apply Hc.
Qed.

Lemma swap_counted o o' h :
  counted h → is_Some (handles h !! o) → is_Some (handles h !! o') →
  ∃ h', swap o o' h = Done h' ∧ counted h' ∧ dom (handles h') = dom (handles h).
Proof.
  intros Hc [st Ho] [st' Ho']. unfold swap, get_state. rewrite Ho, Ho', !bind_Done_eq.
  eexists. split_and!; [done| |simpl; apply elem_of_dom_2 in Ho, Ho'; set_solver].
  intros q. specialize (Hc q). simpl.
  assert (Heq : count q (<[o := st']> (<[o' := st]> (handles h))) = count q (handles h)); [|by rewrite Heq].
  pose proof (count_insert q o' st' st _ Ho') as H1.
  destruct (decide (o = o')) as [<-|Hne].
  - rewrite Ho in Ho'. injection Ho' as <-. rewrite insert_insert_eq, insert_id by done. done.
  - pose proof (count_insert q o st st' (<[o' := st]> (handles h))) as H2.
    rewrite lookup_insert_ne in H2 by done. specialize (H2 Ho). lia.
Qed.

Lemma set_state_None_counted o h :
  counted h → handles h !! o = None → counted (set_state o None h).
Proof. intros Hc Ho q. simpl. rewrite count_insert_fresh, points_None by done. apply Hc. Qed.

Lemma destroy_counted o h :
  counted h → bounded h → is_Some (handles h !! o) →
  ∃ h', destroy o h = Done h' ∧ counted h' ∧ handles h' = delete o (handles h).
Proof.
  intros Hc Hb [st Ho]. unfold destroy, get_state. rewrite Ho, bind_Done_eq.
  destruct st as [p|].
  - destruct (counted_alive h o p Hc Ho) as (s & Hs & Hrc & Hpos).
    unfold UnRef, deref. rewrite Hs, !bind_Done_eq. pose proof (count_size p (handles h)) as Hsz.
    unfold bounded in Hb. rewrite sub64_small by (unfold is_u64; lia).
    pose proof (count_delete p o _ _ Ho) as Hdel. rewrite points_Some, decide_True in Hdel by done.
    assert (Hother : ∀ q, q ≠ p → count q (handles h) = count q (delete o (handles h))).
    { intros q Hq. by rewrite (count_delete q o _ _ Ho), points_Some, decide_False by done. }
    case_decide as Hz; (eexists; split_and!; [done| |done]); intros q; simpl; specialize (Hc q);
      destruct (decide (q = p)) as [->|Hq].
    + rewrite lookup_delete_eq. lia.
    + by rewrite lookup_delete_ne, <-Hother.
    + rewrite lookup_insert_eq. simpl. lia.
    + by rewrite lookup_insert_ne, <-Hother.
  - rewrite bind_Done_eq. eexists. split_and!; [done| |done]. intros q. simpl. specialize (Hc q).
    by rewrite (count_delete q o _ _ Ho), points_None in Hc.
Qed.
Lemma move_construct_counted o o' h :
  counted h → is_Some (handles h !! o) → handles h !! o' = None →
  ∃ h', move_construct o o' h = Done h' ∧ counted h'.
Proof.
  intros Hc Ho Ho'. assert (o ≠ o') by (intros ->; destruct Ho; congruence).
  destruct (swap_counted o o' (set_state o' None h)) as (h' & Hs & Hc' & _).
  - by apply set_state_None_counted.
  - simpl. by rewrite lookup_insert_ne.
  - simpl. rewrite lookup_insert_eq. eauto.
  - eauto.
Qed.

(** Room for the temporary of an assignment. *)
Definition roomy (h : heap) : Prop := Z.of_nat (size (handles h)) + 1 < u64_max.

Lemma token_assign_counted o from tmp h :
  counted h → roomy h → is_Some (handles h !! o) → is_Some (handles h !! from) →
  handles h !! tmp = None → ∃ h', token_assign o from tmp h = Done h' ∧ counted h'.
Proof.
  intros Hc Hr Ho Hf Ht. unfold token_assign, roomy in *.
  destruct (StopToken_from_counted from tmp h) as (h1 & Hh1 & Hc1 & Hd1); [done|unfold bounded; lia|done..|].
  rewrite Hh1, bind_Done_eq.
  destruct (swap_counted o tmp h1) as (h2 & Hh2 & Hc2 & Hd2); [done| | |].
  { rewrite Hd1, lookup_insert_ne; [done|]. intros ->. destruct Ho; congruence. }
  { rewrite Hd1, lookup_insert_eq. eauto. }
  rewrite Hh2, bind_Done_eq. destruct (destroy_counted tmp h2) as (h3 & Hh3 & Hc3 & _); [done| | |by eauto].
  - unfold bounded. rewrite <-size_dom, Hd2, size_dom, Hd1, map_size_insert_None by done. lia.
  - rewrite <-elem_of_dom, Hd2, elem_of_dom, Hd1, lookup_insert_eq. eauto.
Qed.

Lemma cancel_counted o h :
  counted h → is_Some (handles h !! o) → ∃ h', StopSource_cancel o h = Done h' ∧ counted h'.
Proof.
  intros Hc [st Ho]. unfold StopSource_cancel, get_state. rewrite Ho, bind_Done_eq.
  destruct st as [p|]; [|by eauto]. destruct (counted_alive h o p Hc Ho) as (s & Hs & Hrc & Hpos).
  unfold deref. rewrite Hs, bind_Done_eq. eexists. split; [done|]. intros q. simpl.
  specialize (Hc q). rewrite lookup_insert. case_decide as Hq; [|done]. by subst q.
Qed.

(** Two results of the same call are equal. *)
Ltac same_outcome :=
  repeat match goal with
  | H : ?c = Done ?x, H' : ?c = Done ?y |- _ => rewrite H in H'; injection H' as ->
  end.

Lemma step_counted h h' : counted h → roomy h → step h h' → counted h'.
Proof.
  intros Hc Hr Hstep. assert (Hb : bounded h) by (unfold bounded, roomy in *; lia).
  destruct Hstep as [o p h h' Ho Hp Heq|o o' h h' Ho Ho' Heq|o o' h h' Ho Ho' Heq|o o' h h' Ho Ho' Heq
    |o from tmp h h' Ho Hf Ht Heq|o h h' Ho Heq|o h h' Ho Heq].
  - destruct (StopSource_new_counted o p h) as (? & ? & ?); [done..|by same_outcome].
  - destruct (StopToken_from_counted o o' h) as (? & ? & ? & _); [done..|by same_outcome].
  - destruct (move_construct_counted o o' h) as (? & ? & ?); [done..|by same_outcome].
  - destruct (swap_counted o o' h) as (? & ? & ? & _); [done..|by same_outcome].
  - destruct (token_assign_counted o from tmp h) as (? & ? & ?); [done..|by same_outcome].
  - destruct (cancel_counted o h) as (? & ? & ?); [done..|by same_outcome].
  - destruct (destroy_counted o h) as (? & ? & ? & _); [done..|by same_outcome].
Qed.

Definition empty_heap : heap := MkHeap ∅ ∅.

(** Runs on machines with fewer than 2^64 objects. *)
Definition run : relation heap := rtc (λ h h', step h h' ∧ roomy h).

Lemma run_counted h : run empty_heap h → counted h.
Proof.
  assert (Hi : counted empty_heap) by (intros p; simpl; by rewrite lookup_empty).
  intros Hrun. revert Hi. induction Hrun as [|h1 h2 h3 [Hs Hr] _ IH]; [done|].
  intros Hc. by eapply IH, step_counted.
Qed.

Lemma count_pos p hs : (0 < count p hs)%nat ↔ ∃ o, hs !! o = Some (Some p).
Proof.
  split.
  - intros Hc. unfold count in Hc.
    destruct (map_choose (filter (λ kv : ptr * option ptr, kv.2 = Some p) hs)) as (o & st & Ho).
    { intros He. rewrite He, map_size_empty in Hc. lia. }
    apply map_lookup_filter_Some in Ho as [Ho Hst]. simpl in Hst. subst st. eauto.
  - intros [o Ho]. rewrite (count_delete p o _ _ Ho), points_Some, decide_True by done. lia.
Qed.

(** [C29] The reference counts of cancellation states are right whatever sources
    and tokens are created, copied, moved, assigned and destroyed: a state
    exists exactly as long as an object points to it, its counter is the number
    of those objects, and no operation on an existing object touches a deleted
    state. Asking a source that was moved from whether a stop was requested is
    the one exception: it dereferences a null pointer. *)
Theorem stop_state_lifetime (h : heap) :
  run empty_heap h → roomy h →
  (∀ p s, states h !! p = Some s → ref_count s = Z.of_nat (count p (handles h))) ∧
  (∀ p, is_Some (states h !! p) ↔ ∃ o, handles h !! o = Some (Some p)) ∧
  (∀ o st, handles h !! o = Some st →
     (∃ b, StopToken_StopRequested o h = Done b) ∧
     (∃ h', StopSource_cancel o h = Done h') ∧
     (∃ h', destroy o h = Done h') ∧
     (∀ o', handles h !! o' = None →
        (∃ h', StopToken_from o o' h = Done h') ∧ (∃ h', move_construct o o' h = Done h')) ∧
     (∀ from tmp, is_Some (handles h !! from) → handles h !! tmp = None →
        ∃ h', token_assign o from tmp h = Done h') ∧
     match st with
     | None => StopSource_StopRequested o h = Undefined "null pointer"
     | Some _ => StopSource_StopRequested o h = StopToken_StopRequested o h
     end).
Proof.
  intros Hrun Hr. pose proof (run_counted h Hrun) as Hc.
  assert (Hb : bounded h) by (unfold bounded, roomy in *; lia). split_and!.
  - intros p s Hs. specialize (Hc p). rewrite Hs in Hc. apply Hc.
  - intros p. rewrite <-count_pos. specialize (Hc p). destruct (states h !! p) as [s|].
    + naive_solver.
    + rewrite Hc. split; [by intros [? ?]|lia].
  - intros o st Ho. split_and!.
    + unfold StopToken_StopRequested, get_state. rewrite Ho, bind_Done_eq. destruct st as [p|]; [|by eauto].
      destruct (counted_alive h o p Hc Ho) as (s & Hs & _). unfold deref. rewrite Hs. eauto.
    + destruct (cancel_counted o h) as (? & ? & _); eauto.
    + destruct (destroy_counted o h) as (? & ? & _); eauto.
    + intros o' Ho'. split.
      * destruct (StopToken_from_counted o o' h) as (? & ? & _); eauto.
      * destruct (move_construct_counted o o' h) as (? & ? & _); eauto.
    + intros from tmp Hf Ht. destruct (token_assign_counted o from tmp h) as (? & ? & _); eauto.
    + unfold StopSource_StopRequested, StopToken_StopRequested, get_state. rewrite Ho, !bind_Done_eq.
      by destruct st.
Qed.

(** A source, a token of it, and the source destroyed: the state lives on for
    the token. *)
Lemma stop_state_lifetime_witness :
  ∃ h, run empty_heap h ∧ handles h !! 2%positive = Some (Some 1%positive) ∧
       is_Some (states h !! 1%positive) ∧ StopToken_StopRequested 2%positive h = Done false.
Proof.
  pose (s1 := MkStopState false 1).
  pose (h1 := MkHeap {[ 1%positive := s1 ]} {[ 1%positive := Some 1%positive ]}).
  pose (h2 := MkHeap {[ 1%positive := MkStopState false 2 ]}
                     {[ 1%positive := Some 1%positive; 2%positive := Some 1%positive ]}).
  pose (h3 := MkHeap {[ 1%positive := s1 ]} {[ 2%positive := Some 1%positive ]}).
  assert (Hrun : run empty_heap h3).
  { eapply rtc_l; [split; [eapply (step_source 1%positive 1%positive empty_heap h1)|]; vm_compute; reflexivity|].
    eapply rtc_l; [split; [eapply (step_token 1%positive 2%positive h1 h2)|]; [eexists|..]; vm_compute; reflexivity|].
    eapply rtc_l; [split; [eapply (step_destroy 1%positive h2 h3)|]; [eexists|..]; vm_compute; reflexivity|].
    apply rtc_refl. }
  exists h3. destruct (stop_state_lifetime h3 Hrun) as (_ & Halive & _); [vm_compute; reflexivity|].
  split_and!; [done|vm_compute; reflexivity| |vm_compute; reflexivity].
  apply Halive. exists 2%positive. vm_compute. reflexivity.
Defined.
End Handles.

Module Callbacks.

Record StopCallbackNode : Type := MkNode {
  next : option ptr;
  prev : option ptr;
}.

Section callbacks.
(** The rest of the program, and what the callback of each node does to it. *)
Context {X : Type} (callback : ptr → X → X).

(** The part of [StopState] the callbacks use, with the nodes it points to. *)
Record StopState : Type := MkStopState {
  callbacks : option ptr;
  cancelled : bool;
  nodes : gmap ptr StopCallbackNode;
  world : X;
}.

Definition with_nodes (ns : gmap ptr StopCallbackNode) (s : StopState) : StopState :=
  MkStopState (callbacks s) (cancelled s) ns (world s).
Definition with_callbacks (c : option ptr) (s : StopState) : StopState :=
  MkStopState c (cancelled s) (nodes s) (world s).

Definition node (p : ptr) (s : StopState) : outcome StopCallbackNode :=
  match nodes s !! p with
  | Some n => Done n
  | None => Undefined "node does not exist"
  end.

(** [p->next = q] and [p->prev = q] for a pointer that may be null. *)
Definition set_next (p q : option ptr) (s : StopState) : outcome StopState :=
  match p with
  | None => Done s
  | Some p => n ← node p s; Done (with_nodes (<[p := MkNode q (prev n)]> (nodes s)) s)
  end.

Definition set_prev (p q : option ptr) (s : StopState) : outcome StopState :=
  match p with
  | None => Done s
  | Some p => n ← node p s; Done (with_nodes (<[p := MkNode (next n) q]> (nodes s)) s)
  end.

Definition Unlink (this : ptr) (s : StopState) : outcome StopState :=
  n ← node this s;
  let s := if decide (callbacks s = Some this) then with_callbacks (next n) s else s in
  s ← set_next (prev n) (next n) s;
  s ← set_prev (next n) (prev n) s;
  Done (with_nodes (<[this := MkNode None None]> (nodes s)) s).

Definition Execute (this : ptr) (s : StopState) : outcome StopState :=
  Unlink this (MkStopState (callbacks s) (cancelled s) (nodes s) (callback this (world s))).

(** The constructor of [StopCallback] with a token that has a state; with an
    empty token nothing happens. *)
Definition StopCallback_new (this : ptr) (s : StopState) : outcome StopState :=
  let s := with_nodes (<[this := MkNode None None]> (nodes s)) s in
  if cancelled s then Execute this s
  else match callbacks s with
       | None => Done (with_callbacks (Some this) s)
       | Some head =>
           s ← set_prev (Some head) (Some this) s;
           s ← set_next (Some this) (Some head) s;
           Done (with_callbacks (Some this) s)
       end.

Definition StopCallback_destroy (this : ptr) (s : StopState) : outcome StopState :=
  s ← Unlink this s;
  Done (with_nodes (delete this (nodes s)) s).

(** The loop of [StopSource::Stop]; [None] when the fuel does not suffice. *)
Fixpoint Stop_loop (fuel : nat) (s : StopState) : option (outcome StopState) :=
  match callbacks s with
  | None => Some (Done s)
  | Some head =>
      match fuel with
      | O => None
      | S fuel =>
          match Execute head s with
          | Done s' => Stop_loop fuel s'
          | Panic msg => Some (Panic msg)
          | Undefined w => Some (Undefined w)
          end
      end
  end.

Definition Stop (fuel : nat) (s : StopState) : option (outcome StopState) :=
  Stop_loop fuel (MkStopState (callbacks s) true (nodes s) (world s)).

(** ** The pointers form a list *)

(** The linked nodes are [xs], from the head; every other node is detached. *)
Record linked (xs : list ptr) (s : StopState) : Prop := {
  l_nodup : NoDup xs;
  l_head : callbacks s = head xs;
  l_node : ∀ l1 x l2, xs = l1 ++ x :: l2 → nodes s !! x = Some (MkNode (head l2) (last l1));
  l_free : ∀ x n, nodes s !! x = Some n → x ∉ xs → n = MkNode None None;
}.

Lemma head_app_cons {A} (l1 l2 : list A) x : head (l1 ++ x :: l2) = Some (default x (head l1)).
Proof. by destruct l1. Qed.

Lemma linked_push xs s this :
  linked xs s → nodes s !! this = None → cancelled s = false →
  ∃ s', StopCallback_new this s = Done s' ∧ linked (this :: xs) s' ∧
        cancelled s' = false ∧ world s' = world s ∧ dom (nodes s') = {[ this ]} ∪ dom (nodes s).
Proof.
  intros [Hnd Hh Hn Hf] Hthis Hc. unfold StopCallback_new. simpl. rewrite Hc, Hh.
  assert (Hfresh : this ∉ xs).
  { intros Hin. apply list_elem_of_split in Hin as (l1 & l2 & ->). by rewrite (Hn l1 this l2) in Hthis. }
  destruct xs as [|x xs]; simpl.
  - eexists. split_and!; [done| |done|done|simpl; by rewrite dom_insert_L]. split; simpl.
    + apply NoDup_singleton.
    + done.
    + intros [|? [|]] y l2 Heq; simplify_eq/=. by rewrite lookup_insert_eq.
    + intros y n Hy Hin. rewrite lookup_insert_ne in Hy by set_solver. apply (Hf y n); [done|set_solver].
  - assert (Hne : this ≠ x) by set_solver.
    unfold node. simpl. rewrite lookup_insert_ne by done. rewrite (Hn [] x xs) by done. simpl.
    rewrite lookup_insert_ne, lookup_insert_eq by done. simpl. eexists. split_and!; [done| |done|done|].
    2: { simpl. rewrite !dom_insert_L. assert (x ∈ dom (nodes s)) by (apply elem_of_dom; rewrite (Hn [] x xs); eauto).
         set_solver. }
    split; simpl; [by constructor|done| |].
    + intros [|a [|b l1]] y l2 Heq.
      * injection Heq as <- <-. by rewrite lookup_insert_eq.
      * injection Heq as <- <- <-. rewrite lookup_insert_ne, lookup_insert_eq by done. done.
      * injection Heq as <- <- Hxs.
        assert (Hy : nodes s !! y = Some (MkNode (head l2) (last (x :: l1)))) by (apply Hn; by rewrite Hxs).
        assert (y ≠ x ∧ y ≠ this) as [? ?].
        { apply NoDup_cons in Hnd as [Hx _]. set_solver. }
        rewrite !lookup_insert_ne by done. rewrite Hy. by destruct l1.
    + intros y n Hy Hin. apply not_elem_of_cons in Hin as [? [? ?]%not_elem_of_cons].
      rewrite !lookup_insert_ne in Hy by done. apply (Hf y n); [done|set_solver].
Qed.
(** The effect of the two pointer updates of [Unlink] on each node. *)
Definition unlinked_nodes (l1 l2 : list ptr) (this : ptr) (s : StopState) (p : ptr) :
    option StopCallbackNode :=
  if decide (p = this) then Some (MkNode None None)
  else n ← nodes s !! p;
       Some (MkNode (if decide (last l1 = Some p) then head l2 else next n)
                    (if decide (head l2 = Some p) then last l1 else prev n)).

Lemma Unlink_linked_nodes l1 this l2 s :
  linked (l1 ++ this :: l2) s →
  ∃ s', Unlink this s = Done s' ∧ callbacks s' = head (l1 ++ l2) ∧ cancelled s' = cancelled s ∧
        world s' = world s ∧ ∀ p, nodes s' !! p = unlinked_nodes l1 l2 this s p.
Proof.
  intros [Hnd Hh Hn Hf]. pose proof (Hn l1 this l2 eq_refl) as Hthis.
  unfold Unlink, node. rewrite Hthis, bind_Done_eq. cbn [next prev].
  assert (Hc : (if decide (callbacks s = Some this) then with_callbacks (head l2) s else s) =
               with_callbacks (head (l1 ++ l2)) s).
  { rewrite Hh. destruct l1 as [|x l1]; simpl.
    - by rewrite decide_True.
    - rewrite decide_False; [destruct s; simpl in *; by rewrite Hh|]. intros [= ->].
      apply NoDup_cons in Hnd as [Hx _]. set_solver. }
  rewrite Hc. clear Hc. rewrite NoDup_app in Hnd. destruct Hnd as (Hnd1 & Hdis & Hnd2).
  apply NoDup_cons in Hnd2 as [Ht2 Hnd2].
  destruct l1 as [|x l1 _] using rev_ind; [|rewrite last_snoc]; destruct l2 as [|y l2]; cbn [head set_next last].
  - rewrite !bind_Done_eq. cbn [set_prev]. rewrite bind_Done_eq. eexists. split_and!; [done..|]. intros p. simpl.
    unfold unlinked_nodes. simpl. rewrite lookup_insert. repeat case_decide; try done.
    by destruct (nodes s !! p) as [[]|].
  - cbn [set_prev]. unfold node. simpl.
    rewrite (Hn [this] y l2) by done. simpl. eexists. split_and!; [done..|]. intros p. simpl.
    unfold unlinked_nodes. simpl. rewrite !lookup_insert.
    repeat case_decide; simplify_eq/=; try done.
    + by rewrite (Hn [this] p l2).
    + by destruct (nodes s !! p) as [[]|].
  - unfold node. simpl. rewrite (Hn l1 x [this]) by (by rewrite <-(assoc_L (++))). simpl.
    eexists. split_and!; [done..|]. intros p. simpl. unfold unlinked_nodes. rewrite last_snoc. simpl.
    rewrite !lookup_insert. repeat case_decide; simplify_eq/=; try done.
    + by rewrite (Hn l1 p [this]) by (by rewrite <-(assoc_L (++))).
    + by destruct (nodes s !! p) as [[]|].
  - assert (Hxy : x ≠ y) by (intros ->; apply (Hdis y); set_solver).
    unfold node. simpl. rewrite (Hn l1 x (this :: y :: l2)) by (by rewrite <-(assoc_L (++))). simpl.
    unfold node. simpl. rewrite lookup_insert_ne by done.
    rewrite (Hn ((l1 ++ [x]) ++ [this]) y l2) by (by rewrite <-!(assoc_L (++))). simpl.
    eexists. split_and!; [done| |done|done|].
    { by destruct l1. }
    intros p. simpl. unfold unlinked_nodes. rewrite last_snoc. simpl.
    rewrite !lookup_insert. repeat case_decide; simplify_eq/=; try done.
    + by rewrite (Hn ((l1 ++ [x]) ++ [this]) p l2) by (by rewrite <-!(assoc_L (++))).
    + by rewrite (Hn l1 p (this :: y :: l2)) by (by rewrite <-(assoc_L (++))).
    + by destruct (nodes s !! p) as [[]|].
Qed.
Lemma linked_remove l1 this l2 s :
  linked (l1 ++ this :: l2) s →
  ∃ s', Unlink this s = Done s' ∧ linked (l1 ++ l2) s' ∧ cancelled s' = cancelled s ∧
        world s' = world s ∧ dom (nodes s') = dom (nodes s).
Proof.
  intros Hl. destruct (Unlink_linked_nodes l1 this l2 s Hl) as (s' & Hu & Hh' & Hc' & Hw' & Hn').
  destruct Hl as [Hnd Hh Hn Hf]. exists s'.
  assert (Hthis : is_Some (nodes s !! this)) by (rewrite (Hn l1 this l2); eauto).
  apply NoDup_app in Hnd as (Hnd1 & Hdis & [Ht2 Hnd2]%NoDup_cons).
  split_and!; [done| |done|done|].
  2: { apply set_eq. intros p. rewrite !elem_of_dom, Hn'. unfold unlinked_nodes.
       case_decide as Hp; [subst p; naive_solver|].
       destruct (nodes s !! p); simpl; split; intros [? ?]; naive_solver. }
  split; [apply NoDup_app; set_solver|done| |].
  - intros m1 y m2 Heq. rewrite Hn'. unfold unlinked_nodes.
    apply app_eq_inv in Heq as [(k & Hl1 & Hm)|(k & Hm1 & Hl2)].
    + destruct k as [|z k]; simpl in Hm.
      * rewrite app_nil_r in Hl1. subst m1 l2. rewrite decide_False by set_solver.
        rewrite (Hn (l1 ++ [this]) y m2) by (by rewrite <-(assoc_L (++))). simpl.
        rewrite (decide_True (P := Some y = Some y)) by done.
        rewrite decide_False; [done|]. intros Hlast. apply last_Some_elem_of in Hlast. set_solver.
      * injection Hm as <- ->. subst l1. rewrite decide_False by set_solver.
        rewrite (Hn m1 y (k ++ this :: l2)) by (by rewrite <-(assoc_L (++))). simpl.
        assert (Hhd : head l2 ≠ Some y).
        { intros Hy%head_Some_elem_of. apply (Hdis y); set_solver. }
        rewrite (decide_False (P := head l2 = Some y)) by done. do 2 f_equal.
        apply NoDup_app in Hnd1 as (_ & _ & [Hyk _]%NoDup_cons).
        rewrite last_app_cons. destruct k as [|z k]; simpl; [by rewrite decide_True|].
        rewrite decide_False; [done|]. intros Hlast.
        assert (y ∈ z :: k) by (apply last_Some_elem_of; by destruct k). done.
    + subst l2 m1. apply NoDup_app in Hnd2 as (_ & Hky & _). rewrite decide_False by set_solver.
      rewrite (Hn (l1 ++ this :: k) y m2) by (by rewrite <-(assoc_L (++))). simpl.
      rewrite decide_False; [|intros Hlast%last_Some_elem_of; apply (Hdis y); set_solver].
      do 2 f_equal. destruct k as [|z k]; simpl.
      * by rewrite decide_True, app_nil_r.
      * rewrite decide_False by (intros [= ->]; apply (Hky y); set_solver).
        rewrite !last_app_cons. simpl. done.
  - intros x n. rewrite Hn'. unfold unlinked_nodes. case_decide as Hx; [by intros [= <-]|].
    destruct (nodes s !! x) as [n'|] eqn:Hnx; simpl; [|done]. intros [= <-] Hin.
    rewrite (Hf x n' Hnx) by set_solver. simpl.
    rewrite !decide_False; [done|intros Hy%head_Some_elem_of; set_solver
                           |intros Hy%last_Some_elem_of; set_solver].
Qed.
(** Unlinking a node that is not in the list changes nothing. *)
Lemma Unlink_detached xs this s :
  linked xs s → this ∉ xs → is_Some (nodes s !! this) → Unlink this s = Done s.
Proof.
  intros [Hnd Hh Hn Hf] Hnot [n Hthis]. pose proof (Hf _ _ Hthis Hnot) as ->.
  unfold Unlink, node. rewrite Hthis, bind_Done_eq. cbn [next prev set_next set_prev].
  rewrite decide_False; [|rewrite Hh; by intros ?%head_Some_elem_of]. rewrite !bind_Done_eq.
  destruct s as [c b ns w]. unfold with_nodes. simpl in *. by rewrite insert_id.
Qed.

Lemma linked_execute_head x xs s :
  linked (x :: xs) s →
  ∃ s', Execute x s = Done s' ∧ linked xs s' ∧ cancelled s' = cancelled s ∧
        world s' = callback x (world s) ∧ dom (nodes s') = dom (nodes s).
Proof.
  intros [Hnd Hh Hn Hf].
  destruct (linked_remove [] x xs
    (MkStopState (callbacks s) (cancelled s) (nodes s) (callback x (world s)))) as (s' & Hs' & Hrest).
  - by split.
  - exists s'. by split.
Qed.

Lemma Stop_loop_linked xs s :
  linked xs s →
  ∃ s', Stop_loop (length xs) s = Some (Done s') ∧ linked [] s' ∧ cancelled s' = cancelled s ∧
        world s' = foldl (λ w p, callback p w) (world s) xs ∧ dom (nodes s') = dom (nodes s).
Proof.
  revert s. induction xs as [|x xs IH]; intros s Hl; simpl; rewrite (l_head _ _ Hl); simpl.
  - eexists. by split_and!.
  - destruct (linked_execute_head x xs s Hl) as (s1 & -> & Hl1 & Hc1 & Hw1 & Hd1).
    destruct (IH s1 Hl1) as (s2 & Hs2 & Hl2 & Hc2 & Hw2 & Hd2). exists s2. split_and!; [done|done|congruence..].
Qed.

Lemma linked_nodes xs s x : linked xs s → x ∈ xs → is_Some (nodes s !! x).
Proof.
  intros Hl (l1 & l2 & ->)%list_elem_of_split. rewrite (l_node _ _ Hl l1 x l2) by done. eauto.
Qed.

Lemma linked_forget xs s this :
  linked xs s → this ∉ xs → linked xs (with_nodes (delete this (nodes s)) s).
Proof.
  intros [Hnd Hh Hn Hf] Hnot. split; simpl; [done|done| |].
  - intros l1 x l2 ->. rewrite lookup_delete_ne by set_solver. by apply Hn.
  - intros x n [_ Hx]%lookup_delete_Some. by apply Hf.
Qed.

Lemma linked_allocate xs s this :
  linked xs s → this ∉ xs → linked xs (with_nodes (<[this := MkNode None None]> (nodes s)) s).
Proof.
  intros [Hnd Hh Hn Hf] Hnot. split; simpl; [done|done| |].
  - intros l1 x l2 ->. rewrite lookup_insert_ne by set_solver. by apply Hn.
  - intros x n [[<- <-]|[_ Hx]]%lookup_insert_Some; [done|by apply Hf].
Qed.

Lemma linked_world xs s w :
  linked xs s → linked xs (MkStopState (callbacks s) (cancelled s) (nodes s) w).
Proof. by intros [Hnd Hh Hn Hf]. Qed.

Lemma filter_ne_id (l : list ptr) this : this ∉ l → filter (λ p, p ≠ this) l = l.
Proof.
  induction l as [|x l IH]; intros Hnot; [done|]. apply not_elem_of_cons in Hnot as [? ?].
  rewrite filter_cons_True by done. by rewrite IH.
Qed.

Lemma filter_ne_split (l1 l2 : list ptr) this :
  this ∉ l1 → this ∉ l2 → filter (λ p, p ≠ this) (l1 ++ this :: l2) = l1 ++ l2.
Proof.
  intros H1 H2. rewrite filter_app, filter_cons_False by naive_solver.
  by rewrite !filter_ne_id.
Qed.

(** [C30] Stop callbacks, on any list of registered callbacks: [Stop] runs every
    registered callback exactly once, the most recently registered first, and
    ends with an empty list, with as many iterations as there are callbacks;
    registering runs the callback at once when a stop was already requested and
    otherwise puts it in front; destroying a callback takes it out of the list
    wherever it is without running it, and leaves the others as they were. *)
Theorem stop_callbacks_correct (xs : list ptr) (s : StopState) :
  linked xs s →
  (∃ s', Stop (length xs) s = Some (Done s') ∧ linked [] s' ∧ cancelled s' = true ∧
         world s' = foldl (λ w p, callback p w) (world s) xs ∧ dom (nodes s') = dom (nodes s)) ∧
  (∀ this, nodes s !! this = None →
     ∃ s', StopCallback_new this s = Done s' ∧ cancelled s' = cancelled s ∧
           dom (nodes s') = {[ this ]} ∪ dom (nodes s) ∧
           if cancelled s then linked xs s' ∧ world s' = callback this (world s)
           else linked (this :: xs) s' ∧ world s' = world s) ∧
  (∀ this, is_Some (nodes s !! this) →
     ∃ s', StopCallback_destroy this s = Done s' ∧ cancelled s' = cancelled s ∧
           linked (filter (λ p, p ≠ this) xs) s' ∧ world s' = world s ∧
           dom (nodes s') = dom (nodes s) ∖ {[ this ]}).
Proof.
  intros Hl. split_and!.
  - apply (Stop_loop_linked xs (MkStopState (callbacks s) true (nodes s) (world s))). by destruct Hl.
  - intros this Hthis. destruct (cancelled s) eqn:Hc.
    + assert (Hnot : this ∉ xs) by (intros Hin%(linked_nodes xs s); [destruct Hin; congruence|done]).
      unfold StopCallback_new. simpl. rewrite Hc. unfold Execute. simpl. rewrite (Unlink_detached xs).
      * eexists. split_and!; [done|done|simpl; by rewrite dom_insert_L| |done].
        by apply (linked_world xs (with_nodes _ s)), linked_allocate.
      * by apply (linked_world xs (with_nodes _ s)), linked_allocate.
      * done.
      * simpl. rewrite lookup_insert_eq. eauto.
    + destruct (linked_push xs s this Hl Hthis Hc) as (s' & Hs' & Hl' & Hc' & Hw' & Hd'). eauto 10.
  - intros this Hthis. unfold StopCallback_destroy. destruct (decide (this ∈ xs)) as [Hin|Hnot].
    + apply list_elem_of_split in Hin as (l1 & l2 & ->).
      pose proof (l_nodup _ _ Hl) as Hnd. apply NoDup_app in Hnd as (_ & Hdis & [Ht2 _]%NoDup_cons).
      assert (Ht1 : this ∉ l1) by set_solver.
      destruct (linked_remove l1 this l2 s Hl) as (s' & -> & Hl' & Hc' & Hw' & Hd').
      rewrite bind_Done_eq, filter_ne_split by done. eexists. split_and!; [done|done| |done|].
      * apply linked_forget; [done|]. set_solver.
      * simpl. by rewrite dom_delete_L, Hd'.
    + rewrite (Unlink_detached xs) by done. rewrite bind_Done_eq.
      rewrite filter_ne_id by done.
      eexists. split_and!; [done|done|by apply linked_forget|done|]. simpl. by rewrite dom_delete_L.
Qed.
End callbacks.

(** Two callbacks that record their execution, registered and stopped. *)
Definition log_callback (p : ptr) (w : list ptr) : list ptr := w ++ [p].
Definition fresh_state : StopState := MkStopState None false ∅ ([] : list ptr).

Lemma fresh_linked : linked [] fresh_state.
Proof.
  split; simpl; [constructor|done|by intros [] ? ?|]. intros x n Hx. by rewrite lookup_empty in Hx.
Qed.

Lemma stop_callbacks_correct_witness :
  ∃ s1 s2 s3, StopCallback_new log_callback 1%positive fresh_state = Done s1 ∧
    StopCallback_new log_callback 2%positive s1 = Done s2 ∧
    Stop log_callback 2 s2 = Some (Done s3) ∧ world s3 = [2%positive; 1%positive].
Proof.
  destruct (stop_callbacks_correct log_callback [] fresh_state fresh_linked) as (_ & Hnew & _).
  destruct (Hnew 1%positive) as (s1 & Hs1 & Hc1 & Hd1 & Hl1 & Hw1); [done|].
  destruct (stop_callbacks_correct log_callback [1%positive] s1 Hl1) as (_ & Hnew1 & _).
  destruct (Hnew1 2%positive) as (s2 & Hs2 & Hc2 & Hd2 & Hrest).
  { apply not_elem_of_dom. rewrite Hd1. set_solver. }
  rewrite Hc1 in Hrest. destruct Hrest as [Hl2 Hw2].
  destruct (stop_callbacks_correct log_callback [2%positive; 1%positive] s2 Hl2)
    as ((s3 & Hs3 & _ & _ & Hw3 & _) & _).
  exists s1, s2, s3. split_and!; [done..|]. rewrite Hw3, Hw2, Hw1. done.
Defined.
End Callbacks.
