(* ===== verification/Sync.v ===== *)
(** * Synchronization

    Model of the synchronization objects: [SpinLock] (src/util/spin_lock.h),
    [Event] (src/runtime/util/event) and [Latch] (src/runtime/util/latch).
    Threads and fibers interleave at the atomic operations of the lock and at
    the waits of the condition variables; a waiter that was notified checks its
    condition again when it runs. *)

From S2P Require Import Prelude.

Local Open Scope Z_scope.

Module SpinLock.

(** Where a thread is in [Lock]/[Unlock]: outside, about to [exchange], in the
    inner loop that waits with [load], inside the critical section. *)
Inductive pc : Type := Outside | Exchanging | Spinning | Critical.

#[export] Instance pc_eq_dec : EqDecision pc.
Proof. solve_decision. Defined.

Record state : Type := MkState { is_locked : bool; threads : gmap nat pc }.

(** [is_locked_.exchange(true)] by a thread in [Exchanging]. *)
Definition exchange (t : nat) (s : state) : state :=
  MkState true (<[t := if is_locked s then Spinning else Critical]> (threads s)).

(** [is_locked_.load()] by a thread in [Spinning]. *)
Definition load (t : nat) (s : state) : state :=
  MkState (is_locked s) (<[t := if is_locked s then Spinning else Exchanging]> (threads s)).

(** [is_locked_.store(false)] in [Unlock]. *)
Definition Unlock (t : nat) (s : state) : state := MkState false (<[t := Outside]> (threads s)).

Inductive step : state → state → Prop :=
  | step_enter t s :
      threads s !! t = Some Outside →
      step s (MkState (is_locked s) (<[t := Exchanging]> (threads s)))
  | step_exchange t s : threads s !! t = Some Exchanging → step s (exchange t s)
  | step_load t s : threads s !! t = Some Spinning → step s (load t s)
  | step_unlock t s : threads s !! t = Some Critical → step s (Unlock t s).

Definition initial (ts : gset nat) : state := MkState false (gset_to_gmap Outside ts).

Record ok (s : state) : Prop := {
  ok_locked : is_locked s = true → ∃ t, threads s !! t = Some Critical;
  ok_unlocked : is_locked s = false → ∀ t, threads s !! t ≠ Some Critical;
  ok_unique : ∀ t1 t2, threads s !! t1 = Some Critical → threads s !! t2 = Some Critical → t1 = t2;
}.

Lemma initial_ok ts : ok (initial ts).
Proof.
  assert (Hn : ∀ t, threads (initial ts) !! t ≠ Some Critical).
  { intros t. simpl. rewrite lookup_gset_to_gmap_Some. naive_solver. }
  split; [done|done|]. intros t1 t2 H1. by destruct (Hn t1).
Qed.

Lemma lock_step_ok s s' : ok s → step s s' → ok s'.
Proof.
  intros [Hl Hu Hq] Hstep.
  assert (Hkeep : ∀ t p b, threads s !! t ≠ Some Critical → p ≠ Critical → b = is_locked s →
            ok (MkState b (<[t := p]> (threads s)))).
  { intros t p b Ht Hp ->. split; simpl.
    - intros (t' & Ht')%Hl. exists t'. rewrite lookup_insert_ne; [done|]. congruence.
    - intros Hf t'. rewrite lookup_insert. case_decide; [congruence|]. by apply Hu.
    - intros t1 t2. rewrite !lookup_insert. repeat case_decide; try congruence. apply Hq. }
  destruct Hstep as [t s Ht|t s Ht|t s Ht|t s Ht].
  - apply Hkeep; congruence.
  - unfold exchange. destruct (is_locked s) eqn:Hb; [apply Hkeep; congruence|].
    split; simpl; [intros _; exists t; by rewrite lookup_insert_eq|done|].
    intros t1 t2. rewrite !lookup_insert. repeat case_decide; try congruence.
    + intros _ H2. by destruct (Hu eq_refl t2).
    + intros H1. by destruct (Hu eq_refl t1).
    + intros H1. by destruct (Hu eq_refl t1).
  - unfold load. destruct (is_locked s) eqn:Hb; apply Hkeep; congruence.
  - unfold Unlock. split; simpl; [done| |].
    + intros _ t'. rewrite lookup_insert. case_decide as Hd; [done|]. intros Ht'. apply Hd. by apply Hq.
    + intros t1 t2. rewrite !lookup_insert. repeat case_decide; try congruence. apply Hq.
Qed.

(** The spin lock excludes: in every run of any number of threads at most
    one is in its critical section, and the lock is marked exactly while one
    is; when it is free, a waiting thread gets it with its next two atomic
    operations if no other thread interferes. *)
Theorem spin_lock_excludes (ts : gset nat) (s : state) :
  rtc step (initial ts) s →
  (∀ t1 t2, threads s !! t1 = Some Critical → threads s !! t2 = Some Critical → t1 = t2) ∧
  (is_locked s = true ↔ ∃ t, threads s !! t = Some Critical) ∧
  (∀ t, is_locked s = false → threads s !! t = Some Spinning →
     threads (exchange t (load t s)) !! t = Some Critical).
Proof.
  intros Hrun. assert (Hok : ok s).
  { pose proof (initial_ok ts) as Hi. revert Hi. induction Hrun; eauto using lock_step_ok. }
  destruct Hok as [Hl Hu Hq]. split_and!; [done| |].
  - split; [done|]. intros [t Ht]. destruct (is_locked s) eqn:Hb; [done|]. by destruct (Hu eq_refl t).
  - intros t Hf Ht. unfold exchange, load. simpl. by rewrite Hf, lookup_insert_eq.
Qed.

(** Two threads: the second waits while the first holds the lock. *)
Lemma spin_lock_excludes_witness :
  ∃ s, rtc step (initial {[ 1%nat; 2%nat ]}) s ∧ threads s !! 1%nat = Some Critical ∧
       threads s !! 2%nat = Some Spinning ∧ is_locked s = true.
Proof.
  pose (s1 := MkState false (<[1%nat := Exchanging]> (threads (initial {[ 1%nat; 2%nat ]})))).
  pose (s3 := MkState true (<[2%nat := Exchanging]> (threads (exchange 1 s1)))).
  assert (Hrun : rtc step (initial {[ 1%nat; 2%nat ]}) (exchange 2 s3)).
  { eapply rtc_l; [by apply (step_enter 1)|]. eapply rtc_l; [by apply (step_exchange 1 s1)|].
    eapply rtc_l; [by apply (step_enter 2 (exchange 1 s1))|].
    eapply rtc_l; [by apply (step_exchange 2 s3)|]. apply rtc_refl. }
  exists (exchange 2 s3). destruct (spin_lock_excludes _ _ Hrun) as (_ & [_ Hlock] & _).
  split_and!; [done|done|done|]. apply Hlock. by exists 1%nat.
Defined.
End SpinLock.

Module Event.

(** [resumed_], and the fibers that are suspended in [Await]. A fiber that was
    notified is [notified] until it runs. *)
Record state : Type := MkState {
  resumed : bool;
  waiting : gset nat;
  notified : gset nat;
}.

Definition Await_begin (t : nat) (s : state) : bool * state :=
  if resumed s then (true, s) else (false, MkState (resumed s) ({[ t ]} ∪ waiting s) (notified s)).

Definition Signal (s : state) : state := MkState true ∅ (waiting s ∪ notified s).
Definition Reset (s : state) : state := MkState false (waiting s) (notified s).

(** A notified fiber runs and evaluates the condition again. *)
Definition Await_resume (t : nat) (s : state) : bool * state :=
  if resumed s then (true, MkState (resumed s) (waiting s) (notified s ∖ {[ t ]}))
  else (false, MkState (resumed s) ({[ t ]} ∪ waiting s) (notified s ∖ {[ t ]})).

(** A signal that is not reset releases every fiber that waits at that
    moment; one that is reset before the fiber runs is lost for it. *)
Lemma signal_releases t s :
  t ∈ waiting s →
  t ∈ notified (Signal s) ∧ fst (Await_resume t (Signal s)) = true ∧
  fst (Await_resume t (Reset (Signal s))) = false.
Proof. intros Ht. simpl. split_and!; [set_solver|done|done]. Qed.
End Event.

Module Latch.

(** [count_] and the guards, [true] for a guard that points to the latch. *)
Record state : Type := MkState { count : Z; guards : gmap nat bool }.

Definition MakeGuard (g : nat) (s : state) : state :=
  MkState (count s +64 1) (<[g := true]> (guards s)).

(** Move construction into a new guard: a null pointer swapped with the
    argument. *)
Definition Move (g g' : nat) (s : state) : outcome state :=
  match guards s !! g with
  | Some b => Done (MkState (count s) (<[g := false]> (<[g' := b]> (guards s))))
  | None => Undefined "guard does not exist"
  end.

(** Move assignment: the pointers are swapped. *)
Definition Assign (g g' : nat) (s : state) : outcome state :=
  match guards s !! g, guards s !! g' with
  | Some b, Some b' => Done (MkState (count s) (<[g := b']> (<[g' := b]> (guards s))))
  | _, _ => Undefined "guard does not exist"
  end.

(** The destructor; the flag tells whether waiters are notified. *)
Definition Destroy (g : nat) (s : state) : outcome (bool * state) :=
  match guards s !! g with
  | Some true =>
      let n := count s -64 1 in
      Done (bool_decide (n = 0), MkState n (delete g (guards s)))
  | Some false => Done (false, MkState (count s) (delete g (guards s)))
  | None => Undefined "guard does not exist"
  end.

(** The condition [AwaitZero] waits for. *)
Definition is_zero (s : state) : bool := bool_decide (count s = 0).

Inductive step : state → state → Prop :=
  | step_make g s : guards s !! g = None → step s (MakeGuard g s)
  | step_move g g' s s' : guards s !! g' = None → g ≠ g' → Move g g' s = Done s' → step s s'
  | step_assign g g' s s' : Assign g g' s = Done s' → step s s'
  | step_destroy g s b s' : Destroy g s = Done (b, s') → step s s'.

Definition held (gs : gmap nat bool) : nat := size (filter (λ kv : nat * bool, kv.2 = true) gs).
Definition weight (b : bool) : nat := if b then 1 else 0.

Lemma held_fresh g b gs : gs !! g = None → held (<[g := b]> gs) = (weight b + held gs)%nat.
Proof.
  intros Hg. unfold held, weight. destruct b.
  - rewrite map_filter_insert_True by done. rewrite map_size_insert_None; [done|].
    apply map_lookup_filter_None. by left.
  - rewrite map_filter_insert_False by done. by rewrite delete_id.
Qed.

Lemma held_delete g b gs : gs !! g = Some b → held gs = (weight b + held (delete g gs))%nat.
Proof.
  intros Hg. rewrite <-(insert_delete_id _ _ _ Hg) at 1. apply held_fresh, lookup_delete_eq.
Qed.

Lemma held_insert g b b' gs :
  gs !! g = Some b → (held (<[g := b']> gs) + weight b)%nat = (weight b' + held gs)%nat.
Proof.
  intros Hg. rewrite (held_delete g b gs) by done. rewrite <-insert_delete_eq.
  rewrite held_fresh by apply lookup_delete_eq. lia.
Qed.

Definition ok (s : state) : Prop := count s = Z.of_nat (held (guards s)).
Definition bounded (s : state) : Prop := Z.of_nat (size (guards s)) < u64_max.

Lemma held_size gs : (held gs ≤ size gs)%nat.
Proof. apply map_subseteq_size, map_filter_subseteq. Qed.

Lemma latch_step_ok s s' : ok s → bounded s → step s s' → ok s'.
Proof.
  intros Hok Hb Hstep. unfold ok, bounded in *. pose proof (held_size (guards s)).
  destruct Hstep as [g s Hg|g g' s s' Hg' Hne Hm|g g' s s' Ha|g s b s' Hd].
  - simpl. rewrite held_fresh by done. rewrite add64_small by (unfold is_u64; lia). simpl. lia.
  - unfold Move in Hm. destruct (guards s !! g) as [b|] eqn:Hg; [|done]. injection Hm as <-. simpl.
    pose proof (held_fresh g' b _ Hg') as H1.
    pose proof (held_insert g b false (<[g' := b]> (guards s))) as H2.
    rewrite lookup_insert_ne in H2 by done. specialize (H2 Hg). simpl in H2. lia.
  - unfold Assign in Ha. destruct (guards s !! g) as [b|] eqn:Hg; [|done].
    destruct (guards s !! g') as [b'|] eqn:Hg'; [|done]. injection Ha as <-. simpl.
    pose proof (held_insert g' b' b _ Hg') as H1. destruct (decide (g = g')) as [<-|Hne].
    + rewrite insert_insert_eq. assert (b = b') as <- by congruence. rewrite insert_id by done. done.
    + pose proof (held_insert g b b' (<[g' := b]> (guards s))) as H2.
      rewrite lookup_insert_ne in H2 by done. specialize (H2 Hg). lia.
  - unfold Destroy in Hd. destruct (guards s !! g) as [[]|] eqn:Hg; [|..|done]; injection Hd as <- <-; simpl;
      rewrite (held_delete g _ _ Hg) in *; simpl in *; [|done].
    rewrite sub64_small by (unfold is_u64; lia). lia.
Qed.

Definition run : relation state := rtc (λ s s', step s s' ∧ bounded s).

(** A latch counts the guards that hold it, however guards are created,
    moved, swapped and destroyed: [AwaitZero] can return exactly when no guard
    holds the latch, and the destructor of the guard that releases it last is
    the one that wakes the waiters. *)
Theorem latch_counts_guards (s : state) :
  run (MkState 0 ∅) s → bounded s →
  count s = Z.of_nat (held (guards s)) ∧
  (is_zero s = true ↔ ∀ g, guards s !! g ≠ Some true) ∧
  (∀ g b s', guards s !! g = Some true → Destroy g s = Done (b, s') →
     b = is_zero s').
Proof.
  intros Hrun Hb. assert (Hok : ok s).
  { assert (Hi : ok (MkState 0 ∅)) by done. revert Hi. clear Hb.
    induction Hrun as [|s1 s2 s3 [Hs Hb] _ IH]; eauto using latch_step_ok. }
  unfold ok in Hok. split_and!; [done| |].
  - unfold is_zero. rewrite bool_decide_eq_true, Hok. split.
    + intros Hz g Hg. rewrite (held_delete g true) in Hz by done. simpl in Hz. lia.
    + intros Hn. unfold held.
      assert (filter (λ kv : nat * bool, kv.2 = true) (guards s) = ∅) as ->; [|done].
      apply map_empty_filter. intros g b Hg Hbt. simpl in Hbt. subst b. by eapply Hn.
  - intros g b s' Hg Hd. unfold Destroy in Hd. rewrite Hg in Hd. injection Hd as <- <-. done.
Qed.

Lemma latch_counts_guards_witness :
  ∃ s, run (MkState 0 ∅) s ∧ is_zero s = true ∧ size (guards s) = 1%nat.
Proof.
  pose (s1 := MakeGuard 1 (MkState 0 ∅)).
  pose (s2 := MkState 1 (<[1%nat := false]> (<[2%nat := true]> (guards s1)))).
  pose (s3 := MkState 0 (delete 2%nat (guards s2))).
  assert (Hrun : run (MkState 0 ∅) s3).
  { eapply rtc_l; [split; [by apply (step_make 1)|done]|].
    eapply rtc_l; [split; [apply (step_move 1 2 s1 s2); by vm_compute|by vm_compute]|].
    eapply rtc_l; [split; [apply (step_destroy 2 s2 true s3); by vm_compute|by vm_compute]|]. apply rtc_refl. }
  exists s3. destruct (latch_counts_guards s3 Hrun) as (_ & [_ Hz] & _); [by vm_compute|].
  split_and!; [done| |by vm_compute]. apply Hz. intros g. unfold s3, s2. simpl.
  intros [H2 Hg]%lookup_delete_Some. apply lookup_insert_Some in Hg as [[_ ?]|[H1 Hg]]; [done|].
  rewrite !lookup_insert_ne in Hg by done. by rewrite lookup_empty in Hg.
Defined.
End Latch.
