(* ===== verification/SimTime.v ===== *)
(** * Simulated time

    Model of the clocks of the simulator: [BinarySearch] of src/util, the
    local time of a host, its inverse and [Host::SleepUntil]
    (src/runtime/simulator/host.cpp), and the event queue that drives the
    global time ([World::SleepUntil], [World::RunSimulation],
    src/runtime/simulator/world.cpp).

    Times are counts of microseconds in a signed 64-bit integer; an overflow is
    undefined behaviour. The product [drift_ * t] is floating point and is a
    parameter ([scaled]). *)

From S2P Require Import Prelude.
From S2P Require Import RtTypes.

Local Open Scope Z_scope.

Definition i64_max : Z := 2 ^ 63 - 1.
Definition i64_min : Z := - 2 ^ 63.

(** A signed 64-bit result. *)
Definition i64 (z : Z) : outcome Z :=
  if decide (i64_min ≤ z ≤ i64_max) then Done z else Undefined "signed overflow".

Lemma i64_ok z : i64_min ≤ z ≤ i64_max → i64 z = Done z.
Proof. intros. unfold i64. by rewrite decide_True. Qed.

(** ** Binary search *)

(** The least element of [begin, end) that satisfies a monotone predicate, or
    [end]. The fuel bounds the number of iterations. *)
Fixpoint BinarySearch (fuel : nat) (begin_ end_ : Z) (predicate : Z → outcome bool) : outcome Z :=
  if decide (begin_ < end_) then
    match fuel with
    | O => Undefined "out of fuel"
    | S fuel =>
        let middle := begin_ + (end_ - begin_) `quot` 2 in
        p ← predicate middle;
        if (p : bool) then BinarySearch fuel begin_ middle predicate
        else BinarySearch fuel (middle + 1) end_ predicate
    end
  else Done begin_.

Lemma BinarySearch_lt fuel begin_ end_ predicate :
  begin_ < end_ →
  BinarySearch (S fuel) begin_ end_ predicate =
    (p ← predicate (begin_ + (end_ - begin_) `quot` 2);
     if (p : bool) then BinarySearch fuel begin_ (begin_ + (end_ - begin_) `quot` 2) predicate
     else BinarySearch fuel (begin_ + (end_ - begin_) `quot` 2 + 1) end_ predicate).
Proof. intros. simpl. by rewrite decide_True. Qed.

(** [n] iterations are enough for an interval shorter than [2^n]; the search
    probes only elements of the interval. *)
Lemma BinarySearch_spec fuel begin_ end_ predicate (P : Z → bool) :
  begin_ ≤ end_ → end_ - begin_ < 2 ^ Z.of_nat fuel →
  (∀ x, begin_ ≤ x < end_ → predicate x = Done (P x)) →
  (∀ x y, begin_ ≤ x ≤ y → y < end_ → P x = true → P y = true) →
  ∃ r, BinarySearch fuel begin_ end_ predicate = Done r ∧ begin_ ≤ r ≤ end_ ∧
       (∀ x, begin_ ≤ x < r → P x = false) ∧ (∀ x, r ≤ x < end_ → P x = true).
Proof.
  revert begin_ end_. induction fuel as [|fuel IH]; intros b e Hle Hlen Hp Hmono; simpl.
  - simpl in Hlen. rewrite decide_False by lia. exists b. split_and!; [done|lia..].
  - rewrite Nat2Z.inj_succ, Z.pow_succ_r in Hlen by lia.
    case_decide as Hlt; [|exists b; split_and!; [done|lia..]].
    rewrite Z.quot_div_nonneg by lia.
    pose proof (Z.div_mod (e - b) 2 ltac:(lia)). pose proof (Z.mod_pos_bound (e - b) 2 ltac:(lia)).
    set (m := b + (e - b) `div` 2). assert (Hm : b ≤ m < e) by lia.
    rewrite (Hp m Hm), bind_Done_eq. destruct (P m) eqn:HPm.
    + destruct (IH b m) as (r & -> & Hr & Hlo & Hhi); [lia|lia|intros; apply Hp; lia| |].
      { intros x y ??. apply Hmono; lia. }
      exists r. split_and!; [done|lia|lia|done|].
      intros x Hx. destruct (decide (x < m)); [apply Hhi; lia|]. apply (Hmono m); lia || done.
    + destruct (IH (m + 1) e) as (r & -> & Hr & Hlo & Hhi); [lia|lia|intros; apply Hp; lia| |].
      { intros x y ??. apply Hmono; lia. }
      exists r. split_and!; [done|lia|lia| |done].
      intros x Hx. destruct (decide (m < x)); [apply Hlo; lia|].
      destruct (P x) eqn:HPx; [|done]. rewrite <-HPm. symmetry. apply (Hmono x); lia || done.
Qed.

(** ** The clock of a host *)

Section host.
(** [static_cast<Duration::rep>(drift_ * t)]; [start_time_]; the random lag of
    a sleep is an argument of [SleepUntil]. *)
Variable scaled : Z → Z.
Variable start_time : Z.

Definition ToLocalTime (global_time : Z) : outcome Z :=
  product ← i64 (scaled global_time);
  shift ← i64 (product + start_time);
  i64 (global_time + shift).

(** 63 iterations halve [0, 2^63 - 1) to nothing. *)
Definition ToGlobalTime (local_time : Z) : outcome Z :=
  global_time ← BinarySearch 63 0 i64_max (λ val,
    l ← ToLocalTime val; Done (bool_decide (local_time ≤ l)));
  l ← ToLocalTime global_time;
  verify (bool_decide (local_time ≤ l)) "ToGlobalTime error";;
  Done global_time.

(** The part of [Host::SleepUntil] before the fiber is suspended: the global
    time it asks the world to be woken up at. *)
Definition SleepUntil_begin (lag local_time now : Z) : outcome Z :=
  local_time ← i64 (local_time + lag);
  global_timestamp ← ToGlobalTime local_time;
  verify (bool_decide (now ≤ global_timestamp)) "invalid timestamp for sleep";;
  Done global_timestamp.

(** [SleepFor(duration)] of src/runtime/simulator/time.cpp. *)
Definition SleepFor_begin (lag duration now : Z) : outcome Z :=
  l ← ToLocalTime now;
  wake ← i64 (l + duration);
  SleepUntil_begin lag wake now.

(** The first sleep of a host, in [RunMain]. *)
Definition RunMain_begin (lag now : Z) : outcome Z := SleepUntil_begin lag start_time now.

(** The clock runs at least as fast as the global time, and does not overflow
    in the first half of the range. *)
Definition horizon : Z := i64_max `div` 2.
Definition local (t : Z) : Z := t + (scaled t + start_time).

Record clock_ok : Prop := {
  clock_zero : scaled 0 = 0;
  clock_start : 0 ≤ start_time;
  clock_mono : ∀ x y, 0 ≤ x ≤ y → scaled x ≤ scaled y;
  clock_range : local horizon ≤ i64_max;
}.

Hypothesis Hclock : clock_ok.

Lemma scaled_range t : 0 ≤ t ≤ horizon → 0 ≤ scaled t ∧ local t ≤ i64_max.
Proof.
  intros Ht. destruct Hclock as [Hz Hs Hm Hr].
  pose proof (Hm 0 t ltac:(lia)). pose proof (Hm t horizon ltac:(lia)). unfold local in *. lia.
Qed.

Lemma ToLocalTime_ok t : 0 ≤ t ≤ horizon → ToLocalTime t = Done (local t).
Proof.
  intros Ht. destruct (scaled_range t Ht) as [Hs Hl]. destruct Hclock as [_ Hst _ _].
  unfold ToLocalTime, local in *. assert (i64_min ≤ 0) by done.
  do 2 (rewrite i64_ok, bind_Done_eq by lia). by rewrite i64_ok by lia.
Qed.

(** Strictly: two different instants never show the same local time. *)
Lemma local_mono x y : 0 ≤ x → x < y → local x < local y.
Proof. intros. unfold local. pose proof (clock_mono Hclock x y ltac:(lia)). lia. Qed.

Lemma local_mono_iff x y : 0 ≤ x → 0 ≤ y → x < y ↔ local x < local y.
Proof.
  intros Hx Hy. split; [by apply local_mono|]. intros Hl.
  destruct (Z.lt_trichotomy x y) as [?|[->|Hgt]]; [done|lia|].
  pose proof (local_mono y x Hy Hgt). lia.
Qed.
Lemma ToGlobalTime_least t :
  t ≤ local horizon →
  ∃ g, ToGlobalTime t = Done g ∧ 0 ≤ g ≤ horizon ∧ t ≤ local g ∧
       ∀ x, 0 ≤ x < g → local x < t.
Proof.
  intros Ht. unfold ToGlobalTime. rewrite (BinarySearch_lt 62) by done. change (0 + (i64_max - 0) `quot` 2) with horizon.
  assert (H0 : 0 ≤ horizon) by done.
  rewrite ToLocalTime_ok, !bind_Done_eq by lia. rewrite bool_decide_eq_true_2 by done.
  destruct (BinarySearch_spec 62 0 horizon
    (λ val, l ← ToLocalTime val; Done (bool_decide (t ≤ l))) (λ val, bool_decide (t ≤ local val)))
    as (g & -> & Hg & Hlo & Hhi); [done|done| | |].
  - intros x Hx. by rewrite ToLocalTime_ok by lia.
  - intros x y Hx Hy ?%bool_decide_eq_true. apply bool_decide_eq_true.
    destruct (decide (x = y)) as [->|]; [done|]. pose proof (local_mono x y ltac:(lia) ltac:(lia)). lia.
  - assert (Hle : t ≤ local g).
    { destruct (decide (g = horizon)) as [->|]; [done|].
      apply (bool_decide_eq_true_1 (t ≤ local g)), Hhi. lia. }
    rewrite bind_Done_eq, ToLocalTime_ok, bind_Done_eq by lia.
    rewrite bool_decide_eq_true_2 by done. exists g. split_and!; [done|lia|lia|done|].
    intros x Hx. specialize (Hlo x Hx). apply bool_decide_eq_false in Hlo. lia.
Qed.

(** A sleeping fiber is woken at the right time: for a clock that is not
    slower than the global time, [SleepUntil] picks the first instant at which
    the host's clock shows the requested time or more, never an instant in the
    past; it aborts exactly when the requested time had already passed one
    instant earlier, so [SleepFor] with a duration that is not negative never
    aborts. *)
Theorem sleep_wakes_at_requested_time (lag t now : Z) :
  0 ≤ lag → 0 ≤ now ≤ horizon → i64_min ≤ t → t + lag ≤ local horizon →
  (if decide (0 < now ∧ t + lag ≤ local (now - 1))
   then SleepUntil_begin lag t now = Panic "invalid timestamp for sleep"
   else ∃ g, SleepUntil_begin lag t now = Done g ∧ now ≤ g ∧ t + lag ≤ local g ∧
             ∀ x, 0 ≤ x < g → local x < t + lag) ∧
  (∀ duration, 0 ≤ duration → local now + duration + lag ≤ local horizon →
     ∃ g, SleepFor_begin lag duration now = Done g ∧ now ≤ g ∧
          local now + duration + lag ≤ local g ∧
          ∀ x, 0 ≤ x < g → local x < local now + duration + lag).
Proof.
  intros Hlag Hnow Ht Hmax.
  assert (Hgen : ∀ t, i64_min ≤ t → t + lag ≤ local horizon →
    if decide (0 < now ∧ t + lag ≤ local (now - 1))
    then SleepUntil_begin lag t now = Panic "invalid timestamp for sleep"
    else ∃ g, SleepUntil_begin lag t now = Done g ∧ now ≤ g ∧ t + lag ≤ local g ∧
              ∀ x, 0 ≤ x < g → local x < t + lag).
  { clear t Ht Hmax. intros t Ht Hmax. unfold SleepUntil_begin.
    pose proof (clock_range Hclock). rewrite i64_ok, bind_Done_eq by lia.
    destruct (ToGlobalTime_least (t + lag) Hmax) as (g & -> & Hg & Hle & Hmin). rewrite bind_Done_eq.
    case_decide as Hd.
    - rewrite bool_decide_eq_false_2; [done|]. intros Hng.
      specialize (Hmin (now - 1) ltac:(lia)). lia.
    - assert (Hng : now ≤ g).
      { destruct (decide (now ≤ g)); [done|]. destruct Hd. split; [lia|].
        destruct (decide (g = now - 1)) as [->|]; [done|].
        pose proof (local_mono g (now - 1) ltac:(lia) ltac:(lia)). lia. }
      rewrite bool_decide_eq_true_2 by done. eauto. }
  split; [by apply Hgen|]. intros duration Hd Hend.
  pose proof (scaled_range now Hnow) as [Hsn _]. pose proof (clock_start Hclock).
  assert (i64_min ≤ 0) by done. assert (0 ≤ local now) by (unfold local; lia).
  pose proof (clock_range Hclock). unfold SleepFor_begin. rewrite ToLocalTime_ok, bind_Done_eq by lia.
  rewrite i64_ok, bind_Done_eq by lia. specialize (Hgen (local now + duration) ltac:(lia) Hend).
  rewrite decide_False in Hgen; [done|]. intros [Hpos Hle].
  pose proof (local_mono (now - 1) now ltac:(lia) ltac:(lia)). lia.
Qed.
End host.

(** A clock that gains one microsecond in a thousand, started at five seconds. *)
Lemma sample_clock_ok : clock_ok (λ t, t `div` 1000) 5000000.
Proof.
  split; [done|done| |by vm_compute].
  intros x y Hxy. apply Z.div_le_mono; lia.
Qed.

Lemma sleep_wakes_at_requested_time_witness :
  ∃ g, SleepFor_begin (λ t, t `div` 1000) 5000000 10 2000000 1000000 = Done g ∧
       local (λ t, t `div` 1000) 5000000 1000000 + 2000000 + 10 ≤
       local (λ t, t `div` 1000) 5000000 g.
Proof.
  destruct (sleep_wakes_at_requested_time (λ t, t `div` 1000) 5000000 sample_clock_ok
              10 6001000 1000000) as [_ Hfor]; [by vm_compute..|].
  destruct (Hfor 2000000) as (g & Hg & _ & Hle & _); [by vm_compute..|]. eauto.
Defined.

(** ** The event queue *)

(** [std::multimap<Timestamp, Event*>] in the order of the tree, with the
    address of the event as its number in the order of the insertions. *)
Record world : Type := MkWorld {
  current_time : Z;
  events_queue : list (Z * nat);
  inserted : nat;
}.

(** [multimap::insert]: behind the elements with an equal key. *)
Fixpoint multimap_insert {E} (ts : Z) (event : E) (q : list (Z * E)) : list (Z * E) :=
  match q with
  | [] => [(ts, event)]
  | (ts', e') :: q' =>
      if decide (ts' ≤ ts) then (ts', e') :: multimap_insert ts event q' else (ts, event) :: q
  end.

(** [World::SleepUntil] up to the suspension of the fiber. *)
Definition World_SleepUntil (wake_up_time : Z) (w : world) : world :=
  MkWorld (current_time w) (multimap_insert wake_up_time (inserted w) (events_queue w)) (S (inserted w)).

(** The stop callback of [World::SleepUntil]. *)
Definition World_cancel (event : nat) (w : world) : world :=
  MkWorld (current_time w) (filter (λ te, te.2 ≠ event) (events_queue w)) (inserted w).

(** One iteration of the loop of [RunSimulation]: the event it signals, or
    [None] when the loop ends. *)
Definition RunSimulation_iteration (duration iteration_count : Z) (w : world) :
    option (outcome (nat * world)) :=
  match events_queue w with
  | (ts, event) :: rest =>
      if decide (ts ≤ duration ∧ 0 < iteration_count) then
        Some (verify (bool_decide (current_time w ≤ ts)) "invalid event timestamp";;
              Done (event, MkWorld ts rest (inserted w)))
      else None
  | [] => None
  end.

(** Between two iterations the fibers go to sleep, never in the past, and
    cancel sleeps. *)
Inductive sim_step : world → world → Prop :=
  | sim_sleep ts w : current_time w ≤ ts → sim_step w (World_SleepUntil ts w)
  | sim_cancel e w : sim_step w (World_cancel e w)
  | sim_fire duration count w e w' :
      RunSimulation_iteration duration count w = Some (Done (e, w')) → sim_step w w'.

Definition initial_world : world := MkWorld 0 [] 0.

(** The queue is sorted by time and then by age. *)
Definition before (a b : Z * nat) : Prop := a.1 < b.1 ∨ a.1 = b.1 ∧ (a.2 < b.2)%nat.

Fixpoint ordered (q : list (Z * nat)) : Prop :=
  match q with
  | [] => True
  | a :: q' => (∀ b, b ∈ q' → before a b) ∧ ordered q'
  end.

Record queue_ok (w : world) : Prop := {
  q_ordered : ordered (events_queue w);
  q_future : ∀ te, te ∈ events_queue w → current_time w ≤ te.1;
  q_old : ∀ te, te ∈ events_queue w → (te.2 < inserted w)%nat;
}.

Lemma elem_of_multimap_insert {E} ts (e : E) q te :
  te ∈ multimap_insert ts e q ↔ te = (ts, e) ∨ te ∈ q.
Proof.
  induction q as [|[ts' e'] q IH]; simpl; [set_solver|]. case_decide; set_solver.
Qed.

Lemma ordered_insert ts e q :
  ordered q → (∀ te, te ∈ q → (te.2 < e)%nat) → ordered (multimap_insert ts e q).
Proof.
  induction q as [|[ts' e'] q IH]; intros Ho Hold; simpl; [split; [set_solver|done]|].
  destruct Ho as [Hfst Ho]. case_decide as Hle; simpl.
  - split; [|apply IH; [done|set_solver]]. intros b [->|Hb]%elem_of_multimap_insert; [|by apply Hfst].
    specialize (Hold (ts', e') ltac:(left)). unfold before. simpl in *. lia.
  - split; [|done]. intros b Hb. apply elem_of_cons in Hb as [->|Hb]; [left; simpl; lia|].
    specialize (Hfst b Hb). unfold before in *. simpl in *. lia.
Qed.

Lemma ordered_filter (P : Z * nat → Prop) `{∀ x, Decision (P x)} q : ordered q → ordered (filter P q).
Proof.
  induction q as [|a q IH]; intros Ho; [done|]. destruct Ho as [Hfst Ho]. rewrite filter_cons.
  case_decide; [|by apply IH]. split; [|by apply IH].
  intros b [_ Hb]%list_elem_of_filter. by apply Hfst.
Qed.

Lemma sim_step_ok w w' : queue_ok w → sim_step w w' → queue_ok w'.
Proof.
  intros [Ho Hf Hold] Hstep. destruct Hstep as [ts w Hts|e w|duration count w e w' Hit].
  - split; simpl; [by apply ordered_insert| |].
    + intros te [->|Hte]%elem_of_multimap_insert; [done|by apply Hf].
    + intros te [->|Hte]%elem_of_multimap_insert; [simpl; lia|]. specialize (Hold te Hte). lia.
  - split; simpl; [by apply ordered_filter|..]; intros te [_ Hte]%list_elem_of_filter; auto.
  - unfold RunSimulation_iteration in Hit. destruct (events_queue w) as [|[ts ev] q] eqn:Hq; [done|].
    case_decide; [|done]. destruct (bool_decide _) in Hit; [|done]. injection Hit as <- <-.
    destruct Ho as [Hfst Ho]. split; simpl; [done| |].
    + intros te Hte. specialize (Hfst te Hte). unfold before in Hfst. simpl in Hfst. lia.
    + intros te Hte. apply Hold. by right.
Qed.

(** The simulated time never goes back: in every run, the check of the
    event loop holds and the loop signals, among the sleeping fibers, the one
    with the earliest wake-up time and among equals the one that went to sleep
    first; the new time is that fiber's wake-up time. *)
Theorem events_fire_in_order (w : world) (duration count : Z) :
  rtc sim_step initial_world w →
  match events_queue w with
  | [] => RunSimulation_iteration duration count w = None
  | (ts, e) :: rest =>
      current_time w ≤ ts ∧ (∀ te, te ∈ rest → before (ts, e) te) ∧
      RunSimulation_iteration duration count w =
        if decide (ts ≤ duration ∧ 0 < count)
        then Some (Done (e, MkWorld ts rest (inserted w))) else None
  end.
Proof.
  intros Hrun. assert (Hok : queue_ok w).
  { assert (Hi : queue_ok initial_world) by (split; simpl; [done|set_solver..]).
    revert Hi. induction Hrun; eauto using sim_step_ok. }
  destruct Hok as [Ho Hf _]. unfold RunSimulation_iteration.
  destruct (events_queue w) as [|[ts e] rest]; [done|]. destruct Ho as [Hfst _].
  specialize (Hf (ts, e) ltac:(left)). simpl in Hf. split_and!; [done|done|].
  case_decide; [|done]. by rewrite bool_decide_eq_true_2.
Qed.

(** Two fibers that sleep until the same instant and one that wakes earlier. *)
Lemma events_fire_in_order_witness :
  RunSimulation_iteration 100 10 (World_SleepUntil 5 (World_SleepUntil 7 (World_SleepUntil 7 initial_world))) =
    Some (Done (2%nat, MkWorld 5 [(7, 0%nat); (7, 1%nat)] 3)).
Proof.
  pose proof (events_fire_in_order
    (World_SleepUntil 5 (World_SleepUntil 7 (World_SleepUntil 7 initial_world))) 100 10) as Hfire.
  simpl in Hfire. destruct Hfire as (_ & _ & Hit); [|exact Hit].
  eapply rtc_l; [by apply (sim_sleep 7)|]. eapply rtc_l; [by apply (sim_sleep 7)|].
  eapply rtc_l; [by apply (sim_sleep 5)|]. apply rtc_refl.
Defined.
