(* ===== verification/SimNetwork.v ===== *)
(** * Simulated hosts, servers and network

    Model of src/runtime/simulator: the life of a [Host] (host.cpp), the RPC
    server (rpc_server.cpp), the typed wrappers of client and service
    (rpc_client_base.h, rpc_service_base.h), the links and the path of a request
    through the [World] (world.cpp).

    A request suspends its fiber twice, for the delays of the message and of the
    reply, and the world may change meanwhile; its path is a step relation
    whose steps take the world of the moment. What the service does is a
    function on the state [X] of the program that runs on the target host. *)

From S2P Require Import Prelude.
From S2P Require Import Result.
From S2P Require Import RtTypes.
From S2P Require Import Serde.

Local Open Scope Z_scope.

Section network.
Context {X : Type}.

(** ** Services and servers *)

(** [Service::ProcessRequest(data, handler_name)] *)
Definition Service : Type := string → Data → X → outcome (Result Data RpcError * X).

Record ServerImpl : Type := MkServer {
  services : gmap string Service;
  running : bool;
  finished : bool;
  server_port : Z;
}.

Definition ServerImpl_new : ServerImpl := MkServer ∅ false false 0.

Definition Register (name : string) (service : Service) (s : ServerImpl) : outcome ServerImpl :=
  verify (bool_decide (services s !! name = None)) "service is already registered";;
  Done (MkServer (<[name := service]> (services s)) (running s) (finished s) (server_port s)).

(** The dispatch of [ServerImpl::ProcessRequest], once a worker is running. *)
Definition Server_ProcessRequest (s : ServerImpl) (data : Data) (service_name handler_name : string) (x : X) :
    outcome (Result Data RpcError * X) :=
  match services s !! service_name with
  | None => Done (Err (MkRpcError HandlerNotFound ("Unknown service: " +:+ service_name)), x)
  | Some service => service handler_name data x
  end.

(** ** Hosts *)

Record Host : Type := MkHost {
  servers : gmap Z ServerImpl;
  main_joinable : bool;  (** [main_fiber_.joinable()] *)
  paused : bool;
  host_epoch : Z;
}.

Definition RegisterServer (server : ServerImpl) (port : Z) (h : Host) : outcome Host :=
  verify (bool_decide (servers h !! port = None)) "port is already used";;
  Done (MkHost (<[port := server]> (servers h)) (main_joinable h) (paused h) (host_epoch h)).

Definition UnregisterServer (port : Z) (h : Host) : outcome Host :=
  verify (bool_decide (is_Some (servers h !! port))) "server was not registered";;
  Done (MkHost (delete port (servers h)) (main_joinable h) (paused h) (host_epoch h)).

Definition Server_Start (port : Z) (s : ServerImpl) (h : Host) : outcome (ServerImpl * Host) :=
  verify (negb (running s)) "RpcServer is already running";;
  let s := MkServer (services s) true (finished s) port in
  h ← RegisterServer s port h;
  Done (s, h).

(** [ShutDown] up to the wait for the requests that are being processed. *)
Definition Server_ShutDown (s : ServerImpl) (h : Host) : outcome (ServerImpl * Host) :=
  verify (running s) "RpcServer is not running";;
  verify (negb (finished s)) "RpcServer is already finished";;
  h ← UnregisterServer (server_port s) h;
  Done (MkServer (services s) (running s) true (server_port s), h).

Definition Server_destroy (s : ServerImpl) : outcome unit :=
  verify (finished s) "Destruction of running server".

Definition PauseHost (h : Host) : Host := MkHost (servers h) (main_joinable h) true (host_epoch h).
Definition ResumeHost (h : Host) : Host := MkHost (servers h) (main_joinable h) false (host_epoch h).

Definition KillHost (h : Host) : Host :=
  if main_joinable h then MkHost ∅ false (paused h) (host_epoch h +64 1) else h.

Definition StartHost (h : Host) : Host :=
  if main_joinable h then h else MkHost (servers h) true (paused h) (host_epoch h).

(** What [StopFiberIfNecessary] does to a fiber started in epoch [e]. *)
Inductive fiber_fate : Type := Continues | WaitsForResume | StoppedForEver.

Definition StopFiberIfNecessary (h : Host) (e : Z) : outcome fiber_fate :=
  if paused h then Done WaitsForResume
  else
    verify (bool_decide (e ≤ host_epoch h)) "invalid fiber epoch";;
    Done (if decide (e = host_epoch h) then Continues else StoppedForEver).

(** [Host::ProcessRequest] between its two calls of [StopFiberIfNecessary]. *)
Definition Host_ProcessRequest (h : Host) (port : Z) (data : Data) (service_name handler_name : string)
    (x : X) : outcome (Result Data RpcError * X) :=
  match servers h !! port with
  | None => Done (Err (MkRpcError ConnectionRefused ""), x)
  | Some server => Server_ProcessRequest server data service_name handler_name x
  end.

(** ** The world *)

Record World : Type := MkWorld {
  hosts : gmap string Host;
  closed_links : gset (string * string);
}.

Definition AddHost (address : string) (h : Host) (w : World) : outcome World :=
  verify (bool_decide (hosts w !! address = None)) "address already used";;
  Done (MkWorld (<[address := h]> (hosts w)) (closed_links w)).

Definition CloseLink (from to : string) (w : World) : World :=
  MkWorld (hosts w) ({[ (from, to) ]} ∪ closed_links w).
Definition RestoreLink (from to : string) (w : World) : World :=
  MkWorld (hosts w) (closed_links w ∖ {[ (from, to) ]}).
Definition CloseLinkBidirectional (first second : string) (w : World) : World :=
  CloseLink second first (CloseLink first second w).
Definition RestoreLinkBidirectional (first second : string) (w : World) : World :=
  RestoreLink second first (RestoreLink first second w).

(** ** The path of a request *)

Record request : Type := MkRequest {
  rq_from : string;
  rq_to : Endpoint;
  rq_data : Data;
  rq_service : string;
  rq_handler : string;
}.

(** After the first delay: [is_network_error] and the second draw ([drop]) are
    random, [stopped] is the state of the caller's token. Either the request
    ends with a result, or it is dropped because the caller has gone, or the
    target host processes it. *)
Inductive delivery : Type :=
  | Replied (result : Result Data RpcError)
  | Abandoned
  | Delivered (h : Host).

Definition deliver (r : request) (is_network_error drop stopped : bool) (w : World) : delivery :=
  if is_network_error && drop then Replied (Err (MkRpcError NetworkError ""))
  else match hosts w !! address (rq_to r) with
       | None => Replied (Err (MkRpcError ConnectionRefused ""))
       | Some target =>
           if decide ((rq_from r, address (rq_to r)) ∈ closed_links w)
           then Replied (Err (MkRpcError NetworkError ""))
           else if stopped then Abandoned
           else Delivered target
       end.

(** After the second delay. *)
Definition reply (r : request) (is_network_error : bool) (result : Result Data RpcError) (w : World) :
    Result Data RpcError :=
  if decide ((rq_from r, address (rq_to r)) ∈ closed_links w) then Err (MkRpcError NetworkError "")
  else if is_network_error then Err (MkRpcError NetworkError "")
  else result.

(** Whether the request reaches a service on the host. *)
Definition reaches_service (h : Host) (r : request) : bool :=
  match servers h !! port (rq_to r) with
  | Some server => bool_decide (is_Some (services server !! rq_service r))
  | None => false
  end.

(** A request on its way: waiting for the first delay; being processed on a
    host in the epoch of the delivery; waiting for the second delay; over. The
    caller has the result of the last state, and [Cancelled] if it stops
    waiting earlier. *)
Inductive stage : Type :=
  | Travelling
  | Processing (e : Z)
  | Returning (result : Result Data RpcError)
  | Over (result : option (Result Data RpcError)).

(** [runs] counts the calls of the service. *)
Record flight : Type := MkFlight { at_stage : stage; runs : nat; target_state : X }.

(** One step of the fiber of the request [r] with the fixed draw [neterr], in
    the world of the moment. *)
Inductive flight_step (r : request) (neterr : bool) (w : World) : flight → flight → Prop :=
  | fl_reply drop stopped n x result :
      deliver r neterr drop stopped w = Replied result →
      flight_step r neterr w (MkFlight Travelling n x) (MkFlight (Over (Some result)) n x)
  | fl_abandon drop n x :
      deliver r neterr drop true w = Abandoned →
      flight_step r neterr w (MkFlight Travelling n x) (MkFlight (Over None) n x)
  | fl_deliver drop n x h :
      deliver r neterr drop false w = Delivered h →
      flight_step r neterr w (MkFlight Travelling n x) (MkFlight (Processing (host_epoch h)) n x)
  | fl_process e n x x' h result :
      hosts w !! address (rq_to r) = Some h →
      StopFiberIfNecessary h e = Done Continues →
      Host_ProcessRequest h (port (rq_to r)) (rq_data r) (rq_service r) (rq_handler r) x = Done (result, x') →
      flight_step r neterr w (MkFlight (Processing e) n x) 
                  (MkFlight (Returning result) (if reaches_service h r then S n else n) x')
  | fl_return n x result :
      flight_step r neterr w (MkFlight (Returning result) n x)
                  (MkFlight (Over (Some (reply r neterr result w))) n x).

(** A flight through changing worlds. *)
Inductive flight_run (r : request) (neterr : bool) : flight → flight → Prop :=
  | fr_refl f : flight_run r neterr f f
  | fr_step w f1 f2 f3 :
      flight_step r neterr w f1 f2 → flight_run r neterr f2 f3 → flight_run r neterr f1 f3.
End network.
Arguments Service : clear implicits.
Arguments ServerImpl : clear implicits.
Arguments Host : clear implicits.
Arguments World : clear implicits.
Arguments flight : clear implicits.

(** ** The typed wrappers *)

Section wrappers.
Context {X Req Rsp : Type} `{!ProtoMessage Req} `{!ProtoMessage Rsp}.

(** [Service::ProcessRequestWrapper] *)
Definition ProcessRequestWrapper (handler : Req → X → outcome (Result Rsp RpcError * X)) (data : Data) (x : X) :
    outcome (Result Data RpcError * X) :=
  match ParseFromArray data with
  | None => Done (Err (MkRpcError ParseError ""), x)
  | Some request =>
      '(result, x') ← handler request x;
      match result with
      | Err e => Done (Err e, x')
      | Ok value =>
          match SerializeToArray value with
          | Some serialized_result => Done (Ok serialized_result, x')
          | None => Panic "serialization error"
          end
      end
  end.

(** The template [ClientBase::MakeRequest], over the untyped one. *)
Definition Client_MakeRequest (send : Data → X → outcome (Result Data RpcError * X)) (req : Req) (x : X) :
    outcome (Result Rsp RpcError * X) :=
  match SerializeToArray req with
  | None => Panic "serialization error"
  | Some data =>
      '(result, x') ← send data x;
      match result with
      | Err e => Done (Err e, x')
      | Ok d =>
          match ParseFromArray d with
          | None => Done (Err (MkRpcError ParseError ""), x')
          | Some proto_result => Done (Ok proto_result, x')
          end
      end
  end.

(** Protobuf's documented behaviour: serialized messages parse to equal ones. *)
Hypothesis Req_round_trip : ∀ (m : Req) d, SerializeToArray m = Some d → ParseFromArray d = Some m.
Hypothesis Rsp_round_trip : ∀ (m : Rsp) d, SerializeToArray m = Some d → ParseFromArray d = Some m.

Lemma rpc_wrappers_transparent (handler : Req → X → outcome (Result Rsp RpcError * X)) req x d :
  SerializeToArray req = Some d →
  (∀ result x', handler req x = Done (Ok result, x') → is_Some (SerializeToArray result)) →
  Client_MakeRequest (ProcessRequestWrapper handler) req x = handler req x.
Proof.
  intros Hd Hser. unfold Client_MakeRequest, ProcessRequestWrapper. rewrite Hd.
  rewrite (Req_round_trip _ _ Hd). destruct (handler req x) as [[[v|e] x']|msg|w] eqn:Hh; simpl; [|done..].
  destruct (Hser v x' eq_refl) as [d' Hd']. rewrite Hd'. simpl. by rewrite (Rsp_round_trip _ _ Hd').
Qed.
End wrappers.

(** ** Properties *)

Section properties.
Context {X : Type}.

(** What is known at every stage of a flight that started in state [x0]. *)
Definition flight_ok (r : request) (x0 : X) (f : flight X) : Prop :=
  match at_stage f with
  | Travelling | Processing _ => runs f = 0%nat ∧ target_state f = x0
  | Returning result =>
      ∃ (h : Host X), Host_ProcessRequest h (port (rq_to r)) (rq_data r) (rq_service r) (rq_handler r) x0 =
                Done (result, target_state f) ∧
              runs f = if reaches_service h r then 1%nat else 0%nat
  | Over None => runs f = 0%nat ∧ target_state f = x0
  | Over (Some result) =>
      runs f = 0%nat ∧ target_state f = x0 ∧ HasError result = true ∨
      ∃ (h : Host X) result', Host_ProcessRequest h (port (rq_to r)) (rq_data r) (rq_service r) (rq_handler r) x0 =
                Done (result', target_state f) ∧
              (runs f = if reaches_service h r then 1%nat else 0%nat) ∧
              (result = result' ∨ result = Err (MkRpcError NetworkError ""))
  end.

Lemma deliver_replied r neterr drop stopped (w : World X) result :
  deliver r neterr drop stopped w = Replied result → HasError result = true.
Proof.
  unfold deliver. destruct (neterr && drop); [by intros [= <-]|].
  destruct (hosts w !! _); [|by intros [= <-]]. case_decide; [by intros [= <-]|]. by destruct stopped.
Qed.

Lemma reply_cases r neterr result (w : World X) :
  reply r neterr result w = result ∨ reply r neterr result w = Err (MkRpcError NetworkError "").
Proof. unfold reply. case_decide; [by right|]. destruct neterr; [by right|by left]. Qed.

Lemma flight_step_ok r neterr (w : World X) x0 f f' :
  flight_ok r x0 f → flight_step r neterr w f f' → flight_ok r x0 f'.
Proof.
  intros Hok Hstep. destruct Hstep as [drop stopped n x result Hd|drop n x Hd|drop n x h Hd
    |e n x x' h result Hh Hs Hp|n x result]; unfold flight_ok in *; simpl in *.
  - left. destruct Hok as [-> ->]. split_and!; [done..|]. by eapply deliver_replied.
  - done.
  - done.
  - destruct Hok as [-> ->]. exists h. split; [done|]. by destruct (reaches_service h r).
  - right. destruct Hok as (h & Hp & Hn). exists h, result. split_and!; [done..|]. apply reply_cases.
Qed.

Lemma flight_run_ok r neterr x0 (f f' : flight X) :
  flight_ok r x0 f → flight_run r neterr f f' → flight_ok r x0 f'.
Proof. intros Hok Hrun. revert Hok. induction Hrun; eauto using flight_step_ok. Qed.

Lemma reaches_service_false (h : Host X) r x x' result :
  reaches_service h r = false →
  Host_ProcessRequest h (port (rq_to r)) (rq_data r) (rq_service r) (rq_handler r) x = Done (result, x') →
  x' = x ∧ HasError result = true.
Proof.
  unfold reaches_service, Host_ProcessRequest, Server_ProcessRequest.
  destruct (servers h !! _) as [s|]; [|by intros _ [= <- <-]].
  destruct (services s !! _); intros Hr; [by apply bool_decide_eq_false in Hr; destruct Hr; eauto|].
  by intros [= <- <-].
Qed.

(** A remote call runs the service at most once, whatever the network does
    and however hosts and links change on the way: a call that returns a value
    ran the service exactly once, and the value and the new state are the
    service's; a call whose request never reached the service returns an error
    and changes nothing; a [NetworkError] says nothing about whether the
    service ran. *)
Theorem rpc_runs_at_most_once (r : request) (neterr : bool) (x0 : X) (f : flight X) :
  flight_run r neterr (MkFlight Travelling 0 x0) f →
  (runs f ≤ 1)%nat ∧
  (runs f = 0%nat → target_state f = x0) ∧
  (∀ value, at_stage f = Over (Some (Ok value)) →
     runs f = 1%nat ∧
     ∃ h : Host X, Host_ProcessRequest h (port (rq_to r)) (rq_data r) (rq_service r) (rq_handler r) x0 =
               Done (Ok value, target_state f)) ∧
  (∀ result, at_stage f = Over (Some result) → runs f = 0%nat → HasError result = true).
Proof.
  intros Hrun. assert (Hok : flight_ok r x0 f) by (eapply flight_run_ok; [|done]; done).
  clear Hrun. unfold flight_ok in Hok. destruct f as [st n x]. simpl in *.
  destruct st as [| e |result|[result|]]; try (destruct Hok as [-> ->]; by split_and!; [lia|..]).
  - destruct Hok as (h & Hp & ->). destruct (reaches_service h r) eqn:Hr; [by split_and!; [lia|..]|].
    destruct (reaches_service_false h r x0 x result Hr Hp) as [-> _]. by split_and!; [lia|..].
  - destruct Hok as [(-> & -> & He)|(h & result' & Hp & -> & Hres)].
    + split_and!; [lia|done| |by intros ? [= <-]]. intros value [= ->]. done.
    + destruct (reaches_service h r) eqn:Hr.
      * split_and!; [lia|done| |done]. intros value [= ->]. split; [done|]. exists h.
        destruct Hres as [<-|[=]]. done.
      * destruct (reaches_service_false h r x0 x result' Hr Hp) as [-> He].
        assert (Herr : HasError result = true) by (by destruct Hres as [->| ->]).
        split_and!; [lia|done| |by intros ? [= <-]]. intros value [= ->]. done.
Qed.

(** Closing the link from a server back to a client does not affect the
    calls of that client: both directions of a call look only at the link from
    the client to the server. *)
Theorem reverse_link_is_ignored (r : request) (neterr drop stopped : bool)
    (result : Result Data RpcError) (w : World X) :
  rq_from r ≠ address (rq_to r) →
  deliver r neterr drop stopped (CloseLink (address (rq_to r)) (rq_from r) w) =
    deliver r neterr drop stopped w ∧
  reply r neterr result (CloseLink (address (rq_to r)) (rq_from r) w) = reply r neterr result w.
Proof.
  intros Hne. unfold deliver, reply, CloseLink. simpl.
  assert (Hiff : (rq_from r, address (rq_to r)) ∈ {[ (address (rq_to r), rq_from r) ]} ∪ closed_links w ↔
                 (rq_from r, address (rq_to r)) ∈ closed_links w) by set_solver.
  split.
  - destruct (neterr && drop); [done|]. destruct (hosts w !! _); [|done].
    by rewrite (decide_ext _ _ _ _ Hiff).
  - by rewrite (decide_ext _ _ _ _ Hiff).
Qed.

(** Closed links stop calls in the direction they name. *)
Lemma closed_link_refuses (r : request) neterr drop stopped result (w : World X) :
  let w' := CloseLink (rq_from r) (address (rq_to r)) w in
  (∀ h, deliver r neterr drop stopped w' ≠ Delivered h) ∧
  reply r neterr result w' = Err (MkRpcError NetworkError "").
Proof.
  unfold deliver, reply, CloseLink. simpl.
  assert (Hin : (rq_from r, address (rq_to r)) ∈ {[ (rq_from r, address (rq_to r)) ]} ∪ closed_links w)
    by set_solver.
  split; [|by rewrite decide_True]. intros h.
  destruct (neterr && drop); [done|]. destruct (hosts w !! _); [by rewrite decide_True|done].
Qed.

(** ** The life of a host *)

Inductive host_step : Host X → Host X → Prop :=
  | host_pause h : host_step h (PauseHost h)
  | host_resume h : host_step h (ResumeHost h)
  | host_kill h : host_epoch h < u64_max → host_step h (KillHost h)
  | host_start h : host_step h (StartHost h)
  | host_register server p h h' : RegisterServer server p h = Done h' → host_step h h'
  | host_unregister p h h' : UnregisterServer p h = Done h' → host_step h h'.

Lemma host_step_epoch h h' :
  0 ≤ host_epoch h ≤ u64_max → host_step h h' → host_epoch h ≤ host_epoch h' ≤ u64_max.
Proof.
  intros Hr Hs. destruct Hs as [h|h|h Hlt|h|server p h h' Hreg|p h h' Hreg]; simpl; try lia.
  - unfold KillHost. destruct (main_joinable h); simpl; [|lia].
    rewrite add64_small; unfold is_u64; lia.
  - unfold StartHost. destruct (main_joinable h); simpl; lia.
  - unfold RegisterServer in Hreg. case_bool_decide; [|done]. injection Hreg as <-. simpl. lia.
  - unfold UnregisterServer in Hreg. case_bool_decide; [|done]. injection Hreg as <-. simpl. lia.
Qed.

(** A killed host is gone: after [KillHost] on a running host no server
    answers on any port, and whatever happens to the host later, a fiber that
    was started before the kill never gets past [StopFiberIfNecessary] again,
    while the fibers of the current epoch continue whenever the host is not
    paused. *)
Theorem killed_fibers_never_continue (h h' : Host X) (e : Z) :
  main_joinable h = true → 0 ≤ host_epoch h < u64_max → e ≤ host_epoch h →
  rtc host_step (KillHost h) h' →
  servers (KillHost h) = ∅ ∧
  (StopFiberIfNecessary h' e = Done WaitsForResume ∨ StopFiberIfNecessary h' e = Done StoppedForEver) ∧
  StopFiberIfNecessary h' (host_epoch h') = Done (if paused h' then WaitsForResume else Continues).
Proof.
  intros Hj Hr He Hrun.
  assert (Hkill : host_epoch (KillHost h) = host_epoch h + 1).
  { unfold KillHost. rewrite Hj. simpl. apply add64_small. unfold is_u64. lia. }
  assert (Hle : host_epoch h + 1 ≤ host_epoch h' ≤ u64_max).
  { rewrite <-Hkill. assert (Hi : 0 ≤ host_epoch (KillHost h) ≤ u64_max) by lia. revert Hi. clear -Hrun.
    induction Hrun as [|h1 h2 h3 Hs _ IH]; intros Hi; [lia|].
    pose proof (host_step_epoch h1 h2 Hi Hs). specialize (IH ltac:(lia)). lia. }
  split_and!; [unfold KillHost; by rewrite Hj| |]; unfold StopFiberIfNecessary; destruct (paused h'); auto.
  - right. rewrite bool_decide_eq_true_2 by lia. rewrite (bind_Done_eq ()). by rewrite decide_False by lia.
  - rewrite bool_decide_eq_true_2 by lia. rewrite (bind_Done_eq ()). by rewrite decide_True.
Qed.
End properties.

(** ** Instances *)

(** A service that counts its calls and answers with the data it got. *)
Definition echo : Service nat := λ _ data n, Done (Ok data, S n).

Definition echo_host : Host nat :=
  MkHost {[ 80 := MkServer {[ "Echo" := echo ]} true false 80 ]} true false 0.

Definition echo_world : World nat := MkWorld {[ "server" := echo_host ]} ∅.

Definition echo_request : request :=
  MkRequest "client" (MkEndpoint "server" 80) [1; 2; 3] "Echo" "Echo".

(** A call that succeeds. *)
Lemma rpc_runs_at_most_once_witness :
  ∃ f, flight_run echo_request false (MkFlight Travelling 0 0%nat) f ∧
       at_stage f = Over (Some (Ok [1; 2; 3])) ∧ runs f = 1%nat.
Proof.
  exists (MkFlight (Over (Some (Ok [1; 2; 3]))) 1 1%nat).
  assert (Hrun : flight_run echo_request false (MkFlight Travelling 0 0%nat)
                   (MkFlight (Over (Some (Ok [1; 2; 3]))) 1 1%nat)).
  { eapply (fr_step _ _ echo_world); [by apply (fl_deliver _ _ _ false 0 0%nat echo_host)|].
    eapply (fr_step _ _ echo_world); [by apply (fl_process _ _ _ 0 0 0%nat 1%nat echo_host (Ok [1; 2; 3]))|].
    eapply (fr_step _ _ echo_world); [apply fl_return|]. apply fr_refl. }
  split_and!; [done..|].
  destruct (rpc_runs_at_most_once echo_request false 0%nat _ Hrun) as (_ & _ & Hval & _).
  by destruct (Hval [1; 2; 3] eq_refl) as [? _].
Defined.

Lemma reverse_link_is_ignored_witness :
  deliver echo_request false false false (CloseLink "server" "client" echo_world) = Delivered echo_host.
Proof.
  destruct (reverse_link_is_ignored echo_request false false false (Ok []) echo_world) as [Hd _]; [done|].
  change (CloseLink (address (rq_to echo_request)) (rq_from echo_request) echo_world)
    with (CloseLink "server" "client" echo_world) in Hd.
  by rewrite Hd.
Defined.

(** The host is killed and started again; a fiber of the first epoch stays
    stopped. *)
Lemma killed_fibers_never_continue_witness :
  StopFiberIfNecessary (StartHost (KillHost echo_host)) 0 = Done StoppedForEver.
Proof.
  destruct (killed_fibers_never_continue echo_host (StartHost (KillHost echo_host)) 0)
    as (_ & [Hw|Hs] & _); [done|by vm_compute|by vm_compute| |by vm_compute in Hw|done].
  apply rtc_once, host_start.
Defined.
