(* ===== verification/SimScheduler.v ===== *)
(** * The scheduler of the simulator

    Model of src/runtime/simulator/scheduler.{h,cpp}: which fiber runs next,
    and which host and epoch a new fiber belongs to. Fibers and hosts are named
    by their address; the random index is an argument of [pick_next]. Boost
    calls [awakened] when a fiber becomes ready and [pick_next] when the running
    fiber is suspended. *)

From S2P Require Import Prelude.

Local Open Scope Z_scope.

Record RuntimeSimulationProps : Type := MkProps {
  is_main : bool;
  host_initialized : bool;
  current_host : option positive;
  host_epoch : Z;
}.

Definition new_props : RuntimeSimulationProps := MkProps false false None 0.

Definition SetCurrentHost (host : option positive) (epoch : Z) (p : RuntimeSimulationProps) :
    RuntimeSimulationProps := MkProps (is_main p) true host epoch.

Definition MarkAsMainFiber (p : RuntimeSimulationProps) : RuntimeSimulationProps :=
  MkProps true (host_initialized p) (current_host p) (host_epoch p).

Record RuntimeSimulationScheduler : Type := MkScheduler {
  ready_fibers : list positive;
  main_fiber : option positive;
  last_host : option positive;
  last_epoch : Z;
  properties : gmap positive RuntimeSimulationProps;
}.

Definition props_of (ctx : positive) (s : RuntimeSimulationScheduler) : RuntimeSimulationProps :=
  default new_props (properties s !! ctx).

Definition awakened (ctx : positive) (is_dispatcher : bool) (s : RuntimeSimulationScheduler) :
    outcome RuntimeSimulationScheduler :=
  let props := props_of ctx s in
  let props := if host_initialized props then props
               else SetCurrentHost (last_host s) (last_epoch s) props in
  verify (negb is_dispatcher || bool_decide (current_host props = None))
    "dispatching fiber has non-null current_host";;
  let ps := <[ctx := props]> (properties s) in
  if is_main props then
    verify (bool_decide (main_fiber s = None)) "Main fiber is already awakened";;
    Done (MkScheduler (ready_fibers s) (Some ctx) (last_host s) (last_epoch s) ps)
  else
    Done (MkScheduler (ready_fibers s ++ [ctx]) (main_fiber s) (last_host s) (last_epoch s) ps).

Definition has_ready_fibers (s : RuntimeSimulationScheduler) : bool :=
  bool_decide (is_Some (main_fiber s)) || bool_decide (ready_fibers s ≠ []).

(** The choice of the fiber: the main fiber only when nothing else is ready. *)
Definition choose (index : nat) (s : RuntimeSimulationScheduler) :
    outcome (positive * RuntimeSimulationScheduler) :=
  match ready_fibers s with
  | [] =>
      match main_fiber s with
      | Some ctx => Done (ctx, MkScheduler [] None (last_host s) (last_epoch s) (properties s))
      | None => Undefined "null context"
      end
  | _ =>
      ctx ← vec_get (ready_fibers s) index;
      Done (ctx, MkScheduler (delete index (ready_fibers s)) (main_fiber s) (last_host s)
                   (last_epoch s) (properties s))
  end.

Definition pick_next (index : nat) (s : RuntimeSimulationScheduler) :
    outcome (positive * RuntimeSimulationScheduler) :=
  verify (has_ready_fibers s) "unexpected schedule state (maybe some of fibers are not joined)";;
  '(ctx, s) ← choose index s;
  let p := props_of ctx s in
  Done (ctx,
    if bool_decide (current_host p ≠ None) || is_main p
    then MkScheduler (ready_fibers s) (main_fiber s) (current_host p) (host_epoch p) (properties s)
    else s).

(** The fibers the scheduler knows to be ready. *)
Definition tracked (s : RuntimeSimulationScheduler) : list positive :=
  ready_fibers s ++ option_list (main_fiber s).

(** A fiber that wakes up is added once; the one that is picked is removed. *)
Lemma awakened_tracked ctx b s s' : awakened ctx b s = Done s' → tracked s' ≡ₚ ctx :: tracked s.
Proof.
  intros Ha. unfold awakened in Ha. apply bind_Done in Ha as (u & _ & Ha). destruct (is_main _).
  - apply bind_Done in Ha as (u' & Hv & Ha). apply verify_Done, bool_decide_eq_true in Hv as Hm.
    injection Ha as <-. unfold tracked. simpl. rewrite Hm. simpl. by rewrite app_nil_r, Permutation_app_comm.
  - injection Ha as <-. unfold tracked. simpl. rewrite <-(assoc_L (++)). simpl. by rewrite Permutation_middle.
Qed.

Lemma pick_next_tracked index s ctx s' : pick_next index s = Done (ctx, s') → tracked s ≡ₚ ctx :: tracked s'.
Proof.
  intros Hp. unfold pick_next in Hp. apply bind_Done in Hp as (u & _ & Hp). apply bind_Done in Hp as ([c s1] & Hc & Hp).
  assert (tracked s ≡ₚ c :: tracked s1) as ->.
  { unfold choose in Hc. destruct (ready_fibers s) as [|r rs] eqn:Hr.
    - destruct (main_fiber s) as [mf|] eqn:Hm; [|done]. injection Hc as <- <-. unfold tracked. by rewrite Hr, Hm.
    - rewrite <-Hr in Hc. apply bind_Done in Hc as (c' & Hg & [= <- <-]). apply vec_get_Done in Hg.
      unfold tracked. simpl. by rewrite (delete_Permutation _ _ _ Hg) at 1. }
  injection Hp as <- <-. by destruct (_ || _).
Qed.

(** The scheduler loses no fiber and runs none twice: a fiber that wakes
    up is added once to the ready fibers, and the next fiber is one of them and
    is removed; the main fiber, which moves the simulated time forward, runs
    only when no other fiber is ready. *)
Theorem scheduler_tracks_fibers (s : RuntimeSimulationScheduler) :
  (∀ ctx s', awakened ctx false s = Done s' → tracked s' ≡ₚ ctx :: tracked s) ∧
  (∀ index, has_ready_fibers s = true → (ready_fibers s ≠ [] → index < length (ready_fibers s))%nat →
     ∃ ctx s', pick_next index s = Done (ctx, s') ∧ tracked s ≡ₚ ctx :: tracked s' ∧
       if decide (ready_fibers s = []) then main_fiber s = Some ctx
       else ready_fibers s !! index = Some ctx ∧ main_fiber s' = main_fiber s).
Proof.
  split.
  - intros ctx s'. apply awakened_tracked.
  - intros index Hr Hi. unfold pick_next. rewrite Hr, (bind_Done_eq ()). unfold choose.
    assert (Hfinal : ∀ s1 (b : bool) h e,
      tracked (if b then MkScheduler (ready_fibers s1) (main_fiber s1) h e (properties s1) else s1) = tracked s1 ∧
      main_fiber (if b then MkScheduler (ready_fibers s1) (main_fiber s1) h e (properties s1) else s1) =
        main_fiber s1).
    { intros s1 [] h e; done. }
    destruct (ready_fibers s) as [|f fs] eqn:Hready.
    + unfold has_ready_fibers in Hr. rewrite Hready in Hr. destruct (main_fiber s) as [ctx|] eqn:Hm; [|done].
      rewrite bind_Done_eq. eexists ctx, _. split; [done|]. split; [|done].
      unfold tracked at 1. rewrite Hready, Hm. simpl. by case_match.
    + rewrite <-Hready in *. specialize (Hi ltac:(by rewrite Hready)).
      destruct (lookup_lt_is_Some_2 _ _ Hi) as [ctx Hctx]. unfold vec_get. rewrite Hctx, !bind_Done_eq.
      eexists ctx, _. split; [done|]. rewrite decide_False by (by rewrite Hready).
      edestruct Hfinal as [Ht Hmf]. rewrite Ht, Hmf. split; [|done].
      unfold tracked. simpl. rewrite (delete_Permutation _ _ _ Hctx) at 1. done.
Qed.

(** Four fibers, one of them the main fiber. *)
Definition sample : RuntimeSimulationScheduler :=
  MkScheduler [2; 3]%positive (Some 1%positive) None 0
    {[ 1%positive := MkProps true true None 0; 2%positive := MkProps false true (Some 9%positive) 4 ]}.

Lemma scheduler_tracks_fibers_witness :
  ∃ s', pick_next 0 sample = Done (2%positive, s') ∧ main_fiber s' = Some 1%positive.
Proof.
  destruct (scheduler_tracks_fibers sample) as [_ Hpick].
  destruct (Hpick 0%nat) as (ctx & s' & Hp & _ & Hcase); [done|simpl; lia|].
  simpl in Hcase. destruct Hcase as [[= <-] Hm]. eauto.
Defined.

(** A fiber belongs to the host and the epoch of the fiber that started
    it: after a fiber of a host was picked to run, every fiber that wakes up for
    the first time gets its host and its epoch, and keeps them. *)
Theorem fibers_inherit_host (s s1 s2 : RuntimeSimulationScheduler) (index : nat) (f g h : positive) (e : Z) :
  pick_next index s = Done (f, s1) →
  current_host (props_of f s) = Some h → host_epoch (props_of f s) = e →
  host_initialized (props_of g s1) = false →
  awakened g false s1 = Done s2 →
  current_host (props_of g s2) = Some h ∧ host_epoch (props_of g s2) = e ∧
  host_initialized (props_of g s2) = true ∧
  (∀ s3 b, awakened g b s2 = Done s3 → props_of g s3 = props_of g s2).
Proof.
  intros Hp Hh He Hg Ha. unfold pick_next in Hp.
  destruct (has_ready_fibers s); [|done]. rewrite (bind_Done_eq ()) in Hp.
  apply bind_Done in Hp as ([ctx s0] & Hc & [= <- <-]).
  assert (Hprops : properties s0 = properties s).
  { unfold choose in Hc. destruct (ready_fibers s) as [|r rs]; [destruct (main_fiber s); by simplify_eq/=|].
    apply bind_Done in Hc as (c & _ & [= _ <-]). done. }
  assert (Hsame : props_of ctx s0 = props_of ctx s) by (unfold props_of; by rewrite Hprops).
  rewrite Hsame, Hh in Hg, Ha. simpl in Hg, Ha.
  change (host_initialized (props_of g s0) = false) in Hg.
  assert (Hg2 : props_of g s2 = SetCurrentHost (Some h) e (props_of g s0)).
  { unfold awakened in Ha. change (props_of g _) with (props_of g s0) in Ha. rewrite Hg, He in Ha.
    apply bind_Done in Ha as (u & _ & Ha).
    destruct (is_main _) in Ha; [apply bind_Done in Ha as (u' & _ & Ha)|]; injection Ha as <-;
      unfold props_of at 1; simpl; by rewrite lookup_insert_eq. }
  rewrite Hg2. split_and!; [done..|]. intros s3 b Ha3. rewrite <-Hg2.
  unfold awakened in Ha3. rewrite Hg2 in Ha3. simpl in Ha3. apply bind_Done in Ha3 as (? & _ & Ha3).
  rewrite Hg2. destruct (is_main _) in Ha3; [apply bind_Done in Ha3 as (? & _ & Ha3)|]; injection Ha3 as <-;
    unfold props_of at 1; simpl; by rewrite lookup_insert_eq.
Qed.

Lemma fibers_inherit_host_witness :
  ∃ s1 s2, pick_next 0 sample = Done (2%positive, s1) ∧ awakened 7 false s1 = Done s2 ∧
    current_host (props_of 7 s2) = Some 9%positive ∧ host_epoch (props_of 7 s2) = 4.
Proof.
  assert (Hp : ∃ s1, pick_next 0 sample = Done (2%positive, s1)) by (eexists; vm_compute; reflexivity).
  destruct Hp as [s1 Hp]. assert (Hs1 : s1 = snd (match pick_next 0 sample with Done x => x | _ => (1%positive, sample) end))
    by (by rewrite Hp).
  assert (Ha : ∃ s2, awakened 7 false s1 = Done s2) by (rewrite Hs1; eexists; vm_compute; reflexivity).
  destruct Ha as [s2 Ha]. exists s1, s2.
  destruct (fibers_inherit_host sample s1 s2 0 2 7 9 4 Hp) as (Hh & He & _);
    [done|done|rewrite Hs1; vm_compute; reflexivity|done|]. done.
Defined.
