(* ===== verification/SimFibers.v ===== *)
(** * Fibers of the simulator

    The machine the simulated programs run on: programs of fibers, the random
    draws, the state of the simulation and one step of the machine. Fibers are
    cooperative: a fiber runs until it yields, waits or ends, and the scheduler
    of SimScheduler.v picks the next one. What the source uses of Boost.Fiber
    is a constructor of [prog] each: [Yield], the wait on a condition variable
    with a predicate ([Wait]), the start of a fiber with its launch policy
    ([Fork]). A mutex of the source is held only between two suspensions, so
    no fiber ever waits for one and they are left out.

    Calls of virtual functions of the simulated program ([IHostRunnable::Main],
    [Service::ProcessRequest]) are resolved by the machine. *)

From S2P Require Import Prelude.
From S2P Require Import Result.
From S2P Require Import RtTypes.
From S2P Require Import Serde.
From S2P Require Import SimScheduler.
From Stdlib Require Import QArith_base.

Local Open Scope Z_scope.

#[export] Instance Q_eq_dec : EqDecision Q.
Proof. solve_decision. Defined.

(** Addresses of fibers, condition variables and objects; no two objects have
    the same address. *)
Abbreviation ptr := positive.

(** ** Random draws *)

(** A computation that draws random numbers:
    [uniform_int_distribution(lo, hi)]; whether a draw of
    [uniform_real_distribution(0, 1)] is below a probability; a drift drawn from
    an interval, as the function [static_cast<rep>(drift * t)]. *)
Inductive rand (A : Type) : Type :=
  | Drawn (a : A)
  | Int (lo hi : Z) (k : Z → rand A)
  | Below (proba : Q) (k : bool → rand A)
  | Drift (from to : Q) (k : (Z → Z) → rand A).
Arguments Drawn {A} a.
Arguments Int {A} lo hi k.
Arguments Below {A} proba k.
Arguments Drift {A} from to k.

Fixpoint rand_bind {A B} (r : rand A) (f : A → rand B) : rand B :=
  match r with
  | Drawn a => f a
  | Int lo hi k => Int lo hi (λ z, rand_bind (k z) f)
  | Below p k => Below p (λ b, rand_bind (k b) f)
  | Drift lo hi k => Drift lo hi (λ d, rand_bind (k d) f)
  end.

(** A generator answers the [n]-th draw. *)
Class Generator : Type := {
  next_int : N → Z → Z → Z;
  next_below : N → Q → bool;
  next_drift : N → Q → Q → Z → Z;
}.

(** The documented ranges of the distributions. *)
Class GeneratorLaws (G : Generator) : Prop := {
  next_int_range n lo hi : lo ≤ hi → lo ≤ next_int n lo hi ≤ hi;
  next_below_zero n p : (p <= 0)%Q → next_below n p = false;
  next_drift_zero n : next_drift n 0 0 = λ _, 0;
}.

(** The value and the number of the next draw. *)
Fixpoint draw `{Generator} {A} (r : rand A) (n : N) : A * N :=
  match r with
  | Drawn a => (a, n)
  | Int lo hi k => draw (k (next_int n lo hi)) (N.succ n)
  | Below p k => draw (k (next_below n p)) (N.succ n)
  | Drift lo hi k => draw (k (next_drift n lo hi)) (N.succ n)
  end.

(** Every value that can be drawn satisfies [P]; draws from intervals that are
    not a point are enumerated, drifts other than 0 are not covered. *)
Fixpoint always {A} (P : A → bool) (r : rand A) : bool :=
  match r with
  | Drawn a => P a
  | Int lo hi k => bool_decide (lo ≤ hi) && forallb (λ z, always P (k z)) (range lo (hi + 1))
  | Below p k => always P (k false) && (Qle_bool p 0 || always P (k true))
  | Drift lo hi k => bool_decide ((lo, hi) = (0%Q, 0%Q)) && always P (k (λ _, 0))
  end.

(** ** The state of a simulation *)

(** What a [StopCallback] of the simulator does when it is executed: the lambda
    of [World::SleepUntil] takes the event out of the queue and signals it, the
    lambda of [World::MakeRequest] signals it. Simulated programs have callbacks
    that signal an event or stop another [StopSource]; of the latter there can be
    several for one source, so they have the address of the [StopCallback]. *)
Inductive stop_callback : Type :=
  | CancelSleep (event : ptr)
  | SignalEvent (event : ptr)
  | StopOther (callback source : ptr).

#[export] Instance stop_callback_eq_dec : EqDecision stop_callback.
Proof. solve_decision. Defined.

(** The state behind a [StopSource] with its callbacks, the newest first; the
    list is linked and counted in Cancellation.v. *)
Record StopState : Type := MkStopState {
  cancelled : bool;
  callbacks : list stop_callback;
}.

(** The fields of [rpc::Server::ServerImpl]; [requests_latch_] by its count and
    the address of the server, the events by their addresses. *)
Record ServerImpl : Type := MkServer {
  services : gmap string ptr;
  running : bool;
  finished : bool;
  requests_count : Z;
  worker_started : ptr;
  shutdown_event : ptr;
  server_port : Z;
}.

(** The fields of [Host]. [main_joinable] is [main_fiber_.joinable()]; waiting
    on [pause_cv_] is waiting on the address of the host. *)
Record Host : Type := MkHost {
  start_time : Z;
  drift : Z → Z;
  max_sleep_lag : Z;
  host_main : ptr;
  main_joinable : bool;
  address : string;
  servers : gmap Z ptr;
  paused : bool;
  epoch : Z;
}.

Record WorldOptions : Type := MkWorldOptions {
  network_error_proba : Q;
  delivery_time : Interval;
  long_delivery_time : Interval;
  long_delivery_time_proba : Q;
}.

(** The fields of [World]; an event of the queue is the address of its [Event]. *)
Record World : Type := MkWorld {
  hosts : gmap string ptr;
  initialized : bool;
  events_queue : list (Z * ptr);
  current_time : Z;
  options : WorldOptions;
  closed_links : gset (string * string);
}.

(** History of the requests of the servers, the newest first: a worker called
    [Run]; a fiber took its guard of [requests_latch_], called the handler of a
    service, returned from it, released the guard; [ShutDown] returned; a
    simulation ended. The calls of handlers and their returns are recorded by
    the machine itself. *)
Inductive call : Type :=
  | RunCalled (server : ptr)
  | Began (server fiber : ptr)
  | Handled (server fiber : ptr)
  | Returned (server fiber : ptr)
  | Answered (server fiber : ptr)
  | Drained (server : ptr)
  | SimulationEnded.

#[export] Instance call_eq_dec : EqDecision call.
Proof. solve_decision. Defined.

(** The fiber a call is recorded for. *)
Definition call_fiber (c : call) : option ptr :=
  match c with
  | Began _ f | Handled _ f | Returned _ f | Answered _ f => Some f
  | RunCalled _ | Drained _ | SimulationEnded => None
  end.

(** [X] has the variables of the simulated program that its fibers share. *)
Record sim (X : Type) : Type := MkSim {
  scheduler : RuntimeSimulationScheduler;
  waiters : gmap ptr (list ptr);  (** of the condition variables *)
  terminated : gset ptr;
  resumed : gmap ptr bool;  (** of the events that exist *)
  user_events : gset ptr;  (** the events that the simulated program has created *)
  sources : gmap ptr ptr;  (** the [StopSource]s with the states they point to *)
  stop_states : gmap ptr StopState;
  host_objects : gmap ptr Host;
  server_objects : gmap ptr ServerImpl;
  results : gmap ptr (Result Data RpcError);  (** of the requests, by their event *)
  world : World;
  vars : X;
  expectations : list bool;  (** of the test, the newest first *)
  history : list call;
  next_ptr : ptr;
}.
Arguments MkSim {X}.
Arguments scheduler {X}.
Arguments waiters {X}.
Arguments terminated {X}.
Arguments resumed {X}.
Arguments user_events {X}.
Arguments sources {X}.
Arguments stop_states {X}.
Arguments host_objects {X}.
Arguments server_objects {X}.
Arguments results {X}.
Arguments world {X}.
Arguments vars {X}.
Arguments expectations {X}.
Arguments history {X}.
Arguments next_ptr {X}.

Section setters.
Context {X : Type}.
Implicit Type s : sim X.

Definition with_scheduler v s := MkSim v (waiters s) (terminated s) (resumed s) (user_events s) (sources s)
  (stop_states s) (host_objects s) (server_objects s) (results s) (world s) (vars s) (expectations s) (history s) (next_ptr s).
Definition with_waiters v s := MkSim (scheduler s) v (terminated s) (resumed s) (user_events s) (sources s)
  (stop_states s) (host_objects s) (server_objects s) (results s) (world s) (vars s) (expectations s) (history s) (next_ptr s).
Definition with_terminated v s := MkSim (scheduler s) (waiters s) v (resumed s) (user_events s) (sources s)
  (stop_states s) (host_objects s) (server_objects s) (results s) (world s) (vars s) (expectations s) (history s) (next_ptr s).
Definition with_resumed v s := MkSim (scheduler s) (waiters s) (terminated s) v (user_events s) (sources s)
  (stop_states s) (host_objects s) (server_objects s) (results s) (world s) (vars s) (expectations s) (history s) (next_ptr s).
Definition with_user_events v s := MkSim (scheduler s) (waiters s) (terminated s) (resumed s) v (sources s)
  (stop_states s) (host_objects s) (server_objects s) (results s) (world s) (vars s) (expectations s) (history s) (next_ptr s).
Definition with_sources v s := MkSim (scheduler s) (waiters s) (terminated s) (resumed s) (user_events s) v
  (stop_states s) (host_objects s) (server_objects s) (results s) (world s) (vars s) (expectations s) (history s) (next_ptr s).
Definition with_stop_states v s := MkSim (scheduler s) (waiters s) (terminated s) (resumed s) (user_events s) (sources s)
  v (host_objects s) (server_objects s) (results s) (world s) (vars s) (expectations s) (history s) (next_ptr s).
Definition with_host_objects v s := MkSim (scheduler s) (waiters s) (terminated s) (resumed s) (user_events s) (sources s)
  (stop_states s) v (server_objects s) (results s) (world s) (vars s) (expectations s) (history s) (next_ptr s).
Definition with_server_objects v s := MkSim (scheduler s) (waiters s) (terminated s) (resumed s) (user_events s) (sources s)
  (stop_states s) (host_objects s) v (results s) (world s) (vars s) (expectations s) (history s) (next_ptr s).
Definition with_results v s := MkSim (scheduler s) (waiters s) (terminated s) (resumed s) (user_events s) (sources s)
  (stop_states s) (host_objects s) (server_objects s) v (world s) (vars s) (expectations s) (history s) (next_ptr s).
Definition with_world v s := MkSim (scheduler s) (waiters s) (terminated s) (resumed s) (user_events s) (sources s)
  (stop_states s) (host_objects s) (server_objects s) (results s) v (vars s) (expectations s) (history s) (next_ptr s).
Definition with_vars (v : X) s := MkSim (scheduler s) (waiters s) (terminated s) (resumed s) (user_events s) (sources s)
  (stop_states s) (host_objects s) (server_objects s) (results s) (world s) v (expectations s) (history s) (next_ptr s).
Definition with_expectations v s := MkSim (scheduler s) (waiters s) (terminated s) (resumed s) (user_events s) (sources s)
  (stop_states s) (host_objects s) (server_objects s) (results s) (world s) (vars s) v (history s) (next_ptr s).
Definition with_history v s := MkSim (scheduler s) (waiters s) (terminated s) (resumed s) (user_events s) (sources s)
  (stop_states s) (host_objects s) (server_objects s) (results s) (world s) (vars s) (expectations s) v (next_ptr s).
Definition with_next_ptr v s := MkSim (scheduler s) (waiters s) (terminated s) (resumed s) (user_events s) (sources s)
  (stop_states s) (host_objects s) (server_objects s) (results s) (world s) (vars s) (expectations s) (history s) v.
End setters.

(** ** Code between two suspensions

    A piece of code that runs on a fiber without suspending it. *)
Definition M (X A : Type) : Type := ptr → sim X → rand (outcome (A * sim X)).

Section code.
Context {X : Type}.

#[global] Instance M_ret : MRet (M X) := λ A a _ s, Drawn (Done (a, s)).
#[global] Instance M_bind : MBind (M X) := λ A B k m f s,
  rand_bind (m f s) (λ r, match r with
    | Done (a, s') => k a f s'
    | Panic msg => Drawn (Panic msg)
    | Undefined w => Drawn (Undefined w)
    end).

Definition this_fiber : M X ptr := λ f s, Drawn (Done (f, s)).
Definition gets {A} (g : sim X → A) : M X A := λ _ s, Drawn (Done (g s, s)).
Definition modify (g : sim X → sim X) : M X unit := λ _ s, Drawn (Done ((), g s)).

(** Code that draws nothing. *)
Definition lift {A} (o : outcome A) : M X A := λ _ s, Drawn (a ← o; Done (a, s)).
Definition M_verify (condition : bool) (message : string) : M X unit := lift (verify condition message).
Definition deref {A} (objects : sim X → gmap ptr A) (p : ptr) : M X A :=
  o ← gets (λ s, objects s !! p);
  lift (match o with Some a => Done a | None => Undefined "dangling pointer" end).

(** The history is not part of the code. *)
Definition record_call (c : call) : M X unit := modify (λ s, with_history (c :: history s) s).

Definition allocate : M X ptr := λ _ s, Drawn (Done (next_ptr s, with_next_ptr (Pos.succ (next_ptr s)) s)).

Definition random_int (lo hi : Z) : M X Z := λ _ s, Int lo hi (λ z, Drawn (Done (z, s))).
Definition random_below (p : Q) : M X bool := λ _ s, Below p (λ b, Drawn (Done (b, s))).
Definition random_drift (lo hi : Q) : M X (Z → Z) := λ _ s, Drift lo hi (λ d, Drawn (Done (d, s))).

(** The scheduler is told that a fiber is ready. *)
Definition wake (f : ptr) (is_dispatcher : bool) : M X unit :=
  sched ← gets scheduler;
  sched' ← lift (awakened f is_dispatcher sched);
  modify (with_scheduler sched').

Fixpoint wake_all (fs : list ptr) : M X unit :=
  match fs with
  | [] => mret ()
  | f :: fs => wake f false;; wake_all fs
  end.

(** [condition_variable::notify_all] *)
Definition notify_all (cv : ptr) : M X unit :=
  ws ← gets waiters;
  modify (with_waiters (delete cv ws));;
  wake_all (default [] (ws !! cv)).
End code.

(** ** Programs *)

Inductive launch : Type := post | dispatch.

Inductive prog (X R : Type) : Type :=
  | Ret (r : R)
  | Do {A : Type} (m : M X A) (k : A → prog X R)
  | Yield (k : prog X R)
  | Wait (cv : ptr) (predicate : M X bool) (k : prog X R)
      (** [cv.wait(guard, predicate)] *)
  | Loop {S T : Type} (body : S → prog X (S + T)) (s : S) (k : T → prog X R)
      (** the body again and again, until it returns a result of the loop *)
  | Fork (policy : launch) (body : prog X unit) (k : ptr → prog X R)
  | CallMain (runnable : ptr) (k : prog X R)
  | CallService (server service : ptr) (handler : string) (data : Data) (k : Result Data RpcError → prog X R).
      (** the call of a service by a server *)
Arguments Ret {X R} r.
Arguments Do {X R A} m k.
Arguments Yield {X R} k.
Arguments Wait {X R} cv predicate k.
Arguments Loop {X R S T} body s k.
Arguments Fork {X R} policy body k.
Arguments CallMain {X R} runnable k.
Arguments CallService {X R} server service handler data k.

Fixpoint prog_bind {X R B} (p : prog X R) (f : R → prog X B) : prog X B :=
  match p with
  | Ret r => f r
  | Do m k => Do m (λ a, prog_bind (k a) f)
  | Yield k => Yield (prog_bind k f)
  | Wait cv predicate k => Wait cv predicate (prog_bind k f)
  | Loop body s k => Loop body s (λ t, prog_bind (k t) f)
  | Fork policy body k => Fork policy body (λ h, prog_bind (k h) f)
  | CallMain r k => CallMain r (prog_bind k f)
  | CallService server s h d k => CallService server s h d (λ r, prog_bind (k r) f)
  end.

#[export] Instance prog_ret X : MRet (prog X) := λ A, Ret.
#[export] Instance prog_mbind X : MBind (prog X) := λ A B f p, prog_bind p f.

Definition atomic {X A} (m : M X A) : prog X A := Do m Ret.

(** [while (condition) body] *)
Definition while {X} (condition : prog X bool) (body : prog X unit) : prog X unit :=
  Loop (λ _, c ← condition; if (c : bool) then body;; Ret (inl ()) else Ret (inr ())) () Ret.

(** [fiber::join] and [future::wait]: until the fiber has ended. *)
Definition fiber_join {X} (h : ptr) : prog X unit :=
  Wait h (gets (λ s, bool_decide (h ∈ terminated s))) (Ret ()).

Definition fiber {X} (policy : launch) (body : prog X unit) : prog X ptr := Fork policy body Ret.

(** ** The machine *)

(** The fiber of the thread and the dispatcher fiber of Boost, which resumes
    another fiber whenever it is picked. *)
Definition main_fiber_ptr : ptr := 1%positive.
Definition dispatcher : ptr := 2%positive.

Section machine.
Context {X : Type}.
(** The virtual functions of the simulated program. *)
Variable Main : ptr → prog X unit.
Variable ProcessRequest : ptr → string → Data → prog X (Result Data RpcError).

(** The running fiber with the rest of its program, and the programs of the
    fibers that are suspended. *)
Record machine : Type := MkMachine {
  current : ptr;
  code : prog X unit;
  fibers : gmap ptr (prog X unit);
  state : sim X;
}.

Inductive status : Type :=
  | Running (m : machine)
  | Ended (s : sim X)
  | Crashed (why : outcome False).

Definition pick : M X ptr :=
  sched ← gets scheduler;
  index ← match ready_fibers sched with
          | [] => mret 0
          | ready => random_int 0 (Z.of_nat (length ready) - 1)
          end;
  '(ctx, sched') ← lift (pick_next (Z.to_nat index) sched);
  modify (with_scheduler sched');;
  mret ctx.

(** The next fiber. One that yields is made ready once the next one is picked;
    so is the dispatcher. *)
Definition switch (yielding : option ptr) : M X ptr :=
  ctx ← pick;
  match yielding with Some f => wake f false | None => mret () end;;
  if decide (ctx = dispatcher) then
    ctx ← pick;
    wake dispatcher true;;
    mret ctx
  else mret ctx.

Definition crashed {A} (o : outcome A) : status :=
  match o with
  | Done _ => Crashed (Undefined "unreachable")
  | Panic msg => Crashed (Panic msg)
  | Undefined w => Crashed (Undefined w)
  end.

(** The running fiber is suspended. *)
Definition suspend (yielding : option ptr) (self : ptr) (fs : gmap ptr (prog X unit)) (s : sim X) : rand status :=
  rand_bind (switch yielding self s) (λ r,
    match r with
    | Done (ctx, s') =>
        match fs !! ctx with
        | Some p => Drawn (Running (MkMachine ctx p (delete ctx fs) s'))
        | None => Drawn (Crashed (Undefined "no such fiber"))
        end
    | o => Drawn (crashed o)
    end).

(** Code of the running fiber, then [next]. *)
Definition execute {A} (m : M X A) (self : ptr) (s : sim X) (next : A → sim X → rand status) : rand status :=
  rand_bind (m self s) (λ r,
    match r with
    | Done (a, s') => next a s'
    | o => Drawn (crashed o)
    end).

Definition wait_on (cv f : ptr) (s : sim X) : sim X :=
  with_waiters (<[cv := default [] (waiters s !! cv) ++ [f]]> (waiters s)) s.

Definition step (m : machine) : rand status :=
  let self := current m in
  let continue p s := Drawn (Running (MkMachine self p (fibers m) s)) in
  match code m with
  | Ret _ =>
      if decide (self = main_fiber_ptr) then Drawn (Ended (state m))
      else execute (modify (λ s, with_terminated ({[ self ]} ∪ terminated s) s);; notify_all self) self (state m)
             (λ _ s, suspend None self (fibers m) s)
  | Do c k => execute c self (state m) (λ a s, continue (k a) s)
  | Yield k => suspend (Some self) self (<[self := k]> (fibers m)) (state m)
  | Wait cv predicate k =>
      execute predicate self (state m) (λ b s,
        if (b : bool) then continue k s
        else suspend None self (<[self := code m]> (fibers m)) (wait_on cv self s))
  | Loop body s k =>
      continue (prog_bind (body s) (λ r, match r with inl s' => Loop body s' k | inr t => k t end)) (state m)
  | Fork post body k =>
      execute (f ← allocate; wake f false;; mret f) self (state m) (λ f s,
        Drawn (Running (MkMachine self (k f) (<[f := body]> (fibers m)) s)))
  | Fork dispatch body k =>
      execute (f ← allocate; wake self false;; mret f) self (state m) (λ f s,
        Drawn (Running (MkMachine f body (<[self := k f]> (fibers m)) s)))
  | CallMain r k => continue (prog_bind (Main r) (λ _, k)) (state m)
  | CallService server sv h d k =>
      execute (record_call (Handled server self)) self (state m) (λ _ s,
        continue (prog_bind (ProcessRequest sv h d) (λ r, Do (record_call (Returned server self)) (λ _, k r))) s)
  end.

(** At most [2 ^ depth] steps with the draws of a generator. *)
Fixpoint run `{Generator} (depth : nat) (m : machine) (n : N) : status * N :=
  match depth with
  | O => draw (step m) n
  | S depth =>
      match run depth m n with
      | (Running m', n') => run depth m' n'
      | r => r
      end
  end.

(** Whether all runs, whatever is drawn, end within [fuel] steps in a state
    that satisfies [P]. *)
Fixpoint explore (P : status → bool) (fuel : nat) (m : machine) : bool :=
  match fuel with
  | O => false
  | S fuel => always (λ st, match st with Running m' => explore P fuel m' | _ => P st end) (step m)
  end.

(** The thread at the start of a test: it runs the test; only the dispatcher is
    ready; the scheduler of the simulation is not used yet. *)
Definition boot (x : X) (test : prog X unit) : machine :=
  MkMachine main_fiber_ptr test ∅
    (MkSim (MkScheduler [dispatcher] None None 0 {[ dispatcher := MkProps false true None 0 ]})
       ∅ ∅ ∅ ∅ ∅ ∅ ∅ ∅ ∅
       (MkWorld ∅ false [] 0 (MkWorldOptions 0 (MkInterval 0 0) (MkInterval 0 0) 0) ∅)
       x [] [] 3%positive).
End machine.
Arguments machine : clear implicits.
Arguments status : clear implicits.
