(* ===== verification/SimRuntime.v ===== *)
(** * The runtime of the simulator as programs of fibers

    The functions of src/runtime/simulator (world.cpp, host.cpp, rpc_server.cpp,
    rpc_client_base, rpc_service_base, time.cpp, api.cpp) and of the event and
    the latch they use, statement by statement, as programs of the machine of
    SimFibers.v: the world with its queue of events, hosts with their clocks,
    servers that wait for workers and for their requests, requests that travel
    through the network. Code between two suspensions is of type [M], a
    function that can suspend the fiber is of type [prog]. *)

From S2P Require Import Prelude.
From S2P Require Import Result.
From S2P Require Import RtTypes.
From S2P Require Import Serde.
From S2P Require Import SimTime.
From S2P Require Import SimScheduler.
From S2P Require Import SimFibers.
From Stdlib Require Import QArith_base.

Local Open Scope Z_scope.

Section runtime.
Context {X : Type}.
Implicit Types (e h f p server : ptr).

(** ** Events *)

Definition Event_new : M X ptr :=
  e ← allocate;
  modify (λ s, with_resumed (<[e := false]> (resumed s)) s);;
  mret e.

Definition Event_Signal (e : ptr) : M X unit :=
  deref resumed e;;
  modify (λ s, with_resumed (<[e := true]> (resumed s)) s);;
  notify_all e.

Definition Event_Await (e : ptr) : prog X unit := Wait e (deref resumed e) (Ret ()).

Definition Event_destroy (e : ptr) : M X unit := modify (λ s, with_resumed (delete e (resumed s)) s).

(** ** Cancellation *)

(** A [StopSource] is an object with a pointer to its state. *)
Definition new_state : M X ptr :=
  p ← allocate;
  modify (λ s, with_stop_states (<[p := MkStopState false []]> (stop_states s)) s);;
  mret p.

Definition StopSource_new : M X ptr :=
  source ← allocate;
  p ← new_state;
  modify (λ s, with_sources (<[source := p]> (sources s)) s);;
  mret source.

(** [source = StopSource()] *)
Definition StopSource_assign (source : ptr) : M X unit :=
  p ← new_state;
  deref sources source;;
  modify (λ s, with_sources (<[source := p]> (sources s)) s).

(** A [StopToken], [None] for the default one. *)
Definition StopToken : Type := option ptr.
Definition GetToken (source : ptr) : M X StopToken := p ← deref sources source; mret (Some p).

Definition StopRequested (token : StopToken) : M X bool :=
  match token with
  | Some p => st ← deref stop_states p; mret (cancelled st)
  | None => mret false
  end.

(** The lambdas of the callbacks; [events_queue_.erase(it)] needs an iterator
    to an element of the queue. *)
Definition in_queue (e : ptr) (q : list (Z * ptr)) : bool := bool_decide (e ∈ q.*2).

Definition with_events_queue (q : list (Z * ptr)) (w : World) : World :=
  MkWorld (hosts w) (initialized w) q (current_time w) (options w) (closed_links w).

(** [Stop] is the call of [StopSource::Stop]. *)
Definition run_callback (Stop : ptr → M X unit) (c : stop_callback) : M X unit :=
  match c with
  | CancelSleep e =>
      w ← gets world;
      lift (if in_queue e (events_queue w) then Done () else Undefined "erase of an invalid iterator");;
      modify (with_world (with_events_queue (filter (λ te, te.2 ≠ e) (events_queue w)) w));;
      Event_Signal e
  | SignalEvent e => Event_Signal e
  | StopOther _ source => Stop source
  end.

Fixpoint Stop_loop (Stop : ptr → M X unit) (p : ptr) (cs : list stop_callback) : M X unit :=
  match cs with
  | [] => mret ()
  | c :: cs =>
      run_callback Stop c;;
      modify (λ s, with_stop_states (<[p := MkStopState true cs]> (stop_states s)) s);;
      Stop_loop Stop p cs
  end.

(** [StopSource::Stop] with at most [depth] callbacks that are nested. A
    callback that stops its own source waits for its own spin lock. *)
Fixpoint Stop_nested (depth : nat) (source : ptr) : M X unit :=
  match depth with
  | O => lift (Undefined "stop callbacks are nested too deeply")
  | S depth =>
      p ← deref sources source;
      st ← deref stop_states p;
      modify (λ s, with_stop_states (<[p := MkStopState true (callbacks st)]> (stop_states s)) s);;
      Stop_loop (Stop_nested depth) p (callbacks st)
  end.

Definition StopSource_Stop : ptr → M X unit := Stop_nested 16.

(** [StopSource::StopRequested] *)
Definition Source_StopRequested (source : ptr) : M X bool := token ← GetToken source; StopRequested token.

Definition StopCallback_new (token : StopToken) (c : stop_callback) : M X unit :=
  match token with
  | None => mret ()
  | Some p =>
      st ← deref stop_states p;
      if cancelled st then run_callback StopSource_Stop c
      else modify (λ s, with_stop_states (<[p := MkStopState false (c :: callbacks st)]> (stop_states s)) s)
  end.

(** The destructor unlinks the callback, if it is still linked. *)
Definition StopCallback_destroy (token : StopToken) (c : stop_callback) : M X unit :=
  match token with
  | None => mret ()
  | Some p =>
      st ← deref stop_states p;
      modify (λ s, with_stop_states
        (<[p := MkStopState (cancelled st) (filter (λ c', c' ≠ c) (callbacks st))]> (stop_states s)) s)
  end.

(** ** Events and callbacks of the simulated programs

    A program reaches only the events it has created itself. *)
Definition new_event : M X ptr :=
  e ← Event_new;
  modify (λ s, with_user_events ({[ e ]} ∪ user_events s) s);;
  mret e.

Definition own_event (e : ptr) : M X unit :=
  own ← gets user_events;
  lift (if decide (e ∈ own) then Done () else Undefined "not an event of the program").

Definition signal_event (e : ptr) : M X unit := own_event e;; Event_Signal e.

(** [StopCallback(token, [&]() { event.Signal(); })] *)
Definition signal_on_stop (token : StopToken) (e : ptr) : M X unit :=
  own_event e;; StopCallback_new token (SignalEvent e).

(** [StopCallback(token, [&]() { source.Stop(); })] *)
Definition stop_on_stop (token : StopToken) (source : ptr) : M X stop_callback :=
  callback ← allocate;
  let c := StopOther callback source in
  StopCallback_new token c;;
  mret c.

(** ** The fiber's properties *)

(** [this_fiber::properties()]: a fiber that was never passed to [awakened]
    yields first. *)
Definition this_fiber_properties : prog X RuntimeSimulationProps :=
  f ← atomic this_fiber;
  props ← atomic (gets (λ s, properties (scheduler s) !! f));
  match props with
  | Some props => Ret props
  | None => Yield (atomic (gets (λ s, props_of f (scheduler s))))
  end.

Definition set_props (f : ptr) (g : RuntimeSimulationProps → RuntimeSimulationProps) : M X unit :=
  modify (λ s, let sched := scheduler s in
    with_scheduler (MkScheduler (ready_fibers sched) (main_fiber sched) (last_host sched) (last_epoch sched)
      (<[f := g (props_of f sched)]> (properties sched))) s).

(** [sim::GetCurrentHost], [sim::GetCurrentEpoch] *)
Definition GetCurrentHost : prog X ptr :=
  props ← this_fiber_properties;
  atomic (
    M_verify (host_initialized props) "current host is not initialized";;
    match current_host props with
    | Some h => mret h
    | None => lift (Panic "system function is called outside server context")
    end).

Definition GetCurrentEpoch : prog X Z :=
  props ← this_fiber_properties;
  atomic (
    M_verify (host_initialized props) "current host is not initialized";;
    mret (SimScheduler.host_epoch props)).

(** ** [World] *)

Definition GetGlobalTime : M X Z := gets (λ s, current_time (world s)).

(** Scheduled fibers move to the new scheduler. The generator is whatever
    answers the draws, so the seed has no effect. *)
Definition Initialize (seed : Z) (opts : WorldOptions) : M X unit :=
  modify (λ s, let w := world s in let sched := scheduler s in
    with_world (MkWorld (hosts w) true (events_queue w) (current_time w) opts (closed_links w))
      (with_scheduler (MkScheduler (ready_fibers sched) (main_fiber sched) None 0 (properties sched)) s)).

Definition World_AddHost (addr : string) (h : ptr) : M X unit :=
  w ← gets world;
  M_verify (bool_decide (hosts w !! addr = None)) "address already used";;
  modify (with_world (MkWorld (<[addr := h]> (hosts w)) (initialized w) (events_queue w) (current_time w)
                        (options w) (closed_links w))).

(** Up to the wait; the event is a local variable of the fiber. *)
Definition SleepUntil_begin (wake_up_time : Z) (stop_token : StopToken) : M X ptr :=
  e ← Event_new;
  modify (λ s, with_world (with_events_queue (multimap_insert wake_up_time e (events_queue (world s))) (world s)) s);;
  StopCallback_new stop_token (CancelSleep e);;
  mret e.

(** The argument is evaluated by the caller in the same piece of code; its
    value is returned too. *)
Definition World_SleepUntil (wake_up_time : M X Z) (stop_token : StopToken) : prog X Z :=
  '(t, e) ← atomic (t ← wake_up_time; e ← SleepUntil_begin t stop_token; mret (t, e));
  Event_Await e;;
  atomic (StopCallback_destroy stop_token (CancelSleep e);; Event_destroy e);;
  Ret t.

Definition GetRandomDuration (interval : Interval) : M X Z := random_int (from interval) (to interval).

Definition GetRpcDelay : M X Z :=
  opts ← gets (λ s, options (world s));
  b ← random_below (long_delivery_time_proba opts);
  if (b : bool) then GetRandomDuration (long_delivery_time opts)
  else GetRandomDuration (delivery_time opts).

Definition ShouldMakeNetworkError : M X bool :=
  opts ← gets (λ s, options (world s));
  random_below (network_error_proba opts).

Definition GetHost (addr : string) : M X ptr :=
  w ← gets world;
  match hosts w !! addr with
  | Some h => mret h
  | None => lift (Panic ("host <" +:+ addr +:+ "> is not registered in the world"))
  end.

Definition with_closed_links (links : gset (string * string)) (w : World) : World :=
  MkWorld (hosts w) (initialized w) (events_queue w) (current_time w) (options w) links.

Definition CloseLink (from to : string) : M X unit :=
  modify (λ s, with_world (with_closed_links ({[ (from, to) ]} ∪ closed_links (world s)) (world s)) s).
Definition RestoreLink (from to : string) : M X unit :=
  modify (λ s, with_world (with_closed_links (closed_links (world s) ∖ {[ (from, to) ]}) (world s)) s).

(** ** [Host] *)

Definition update_host (h : ptr) (g : Host → Host) : M X unit :=
  host ← deref host_objects h;
  modify (λ s, with_host_objects (<[h := g host]> (host_objects s)) s).

Definition GetLocalTime (h : ptr) : M X Z :=
  host ← deref host_objects h;
  t ← GetGlobalTime;
  lift (ToLocalTime (drift host) (start_time host) t).

(** [pause_cv_.wait(guard, ...)], then the check of the epoch; a fiber of an
    older epoch waits for ever on a condition variable that nobody knows. *)
Definition StopFiberIfNecessary (h : ptr) : prog X unit :=
  Wait h (host ← deref host_objects h; mret (negb (paused host))) (Ret ());;
  fiber_epoch ← GetCurrentEpoch;
  stopped ← atomic (
    host ← deref host_objects h;
    M_verify (bool_decide (fiber_epoch ≤ epoch host)) "invalid fiber epoch";;
    mret (bool_decide (fiber_epoch ≠ epoch host)));
  if (stopped : bool) then cv ← atomic allocate; Wait cv (mret false) (Ret ())
  else Ret ().

(** The global time a sleep until [local_time] ends. *)
Definition wake_up_time (h : ptr) (local_time : Z) : M X Z :=
  host ← deref host_objects h;
  val ← random_int 0 (max_sleep_lag host);
  local_time ← lift (i64 (local_time + val));
  global_timestamp ← lift (ToGlobalTime (drift host) (start_time host) local_time);
  now ← GetGlobalTime;
  M_verify (bool_decide (now ≤ global_timestamp)) "invalid timestamp for sleep";;
  mret global_timestamp.

Definition Host_SleepUntil (h : ptr) (local_time : Z) (stop_token : StopToken) : prog X bool :=
  current ← GetCurrentHost;
  atomic (M_verify (bool_decide (current = h)) "invalid current_host");;
  global_timestamp ← World_SleepUntil (wake_up_time h local_time) stop_token;
  atomic (
    now ← GetGlobalTime;
    stop ← StopRequested stop_token;
    M_verify (bool_decide (now = global_timestamp) || stop) "SleepUntil error");;
  StopFiberIfNecessary h;;
  atomic (StopRequested stop_token).

Definition RunMain (h : ptr) : prog X unit :=
  host ← atomic (deref host_objects h);
  (if decide (epoch host = 0) then Host_SleepUntil h (start_time host) None;; Ret () else Ret ());;
  CallMain (host_main host) (Ret ()).

Definition with_servers (servers : gmap Z ptr) (host : Host) : Host :=
  MkHost (start_time host) (drift host) (max_sleep_lag host) (host_main host) (main_joinable host)
    (address host) servers (paused host) (epoch host).

Definition RegisterServer (h server : ptr) (port : Z) : prog X unit :=
  StopFiberIfNecessary h;;
  atomic (
    host ← deref host_objects h;
    M_verify (bool_decide (servers host !! port = None)) "port is already used";;
    update_host h (with_servers (<[port := server]> (servers host)))).

Definition UnregisterServer (h : ptr) (port : Z) : prog X unit :=
  StopFiberIfNecessary h;;
  atomic (
    host ← deref host_objects h;
    M_verify (bool_decide (is_Some (servers host !! port))) "server was not registered";;
    update_host h (with_servers (delete port (servers host)))).

Definition with_paused (b : bool) (host : Host) : Host :=
  MkHost (start_time host) (drift host) (max_sleep_lag host) (host_main host) (main_joinable host)
    (address host) (servers host) b (epoch host).

Definition Host_PauseHost (h : ptr) : M X unit := update_host h (with_paused true).
Definition Host_ResumeHost (h : ptr) : M X unit := update_host h (with_paused false);; notify_all h.

Definition Host_KillHost (h : ptr) : M X unit :=
  host ← deref host_objects h;
  if main_joinable host then
    update_host h (λ host,
      MkHost (start_time host) (drift host) (max_sleep_lag host) (host_main host) false
        (address host) ∅ (paused host) (epoch host +64 1))
  else mret ().

Definition Host_StartHost (h : ptr) : prog X unit :=
  host ← atomic (deref host_objects h);
  if main_joinable host then Ret ()
  else
    f ← fiber post (RunMain h);
    atomic (
      update_host h (λ host,
        MkHost (start_time host) (drift host) (max_sleep_lag host) (host_main host) true
          (address host) (servers host) (paused host) (epoch host));;
      set_props f (SetCurrentHost (Some h) (epoch host)));;
    Yield (Ret ()).

Record HostOptions : Type := MkHostOptions {
  start_time_interval : Interval;
  drift_interval : Q * Q;
  opt_max_sleep_lag : Z;
}.

(** The constructor. *)
Definition Host_new (addr : string) (main : ptr) (opts : HostOptions) : prog X ptr :=
  h ← atomic (
    h ← allocate;
    d ← random_drift (drift_interval opts).1 (drift_interval opts).2;
    t ← GetRandomDuration (start_time_interval opts);
    modify (λ s, with_host_objects
      (<[h := MkHost t d (opt_max_sleep_lag opts) main false addr ∅ false 0]> (host_objects s)) s);;
    mret h);
  Host_StartHost h;;
  Ret h.

(** ** The RPC server *)

Definition update_server (server : ptr) (g : ServerImpl → ServerImpl) : M X unit :=
  sv ← deref server_objects server;
  modify (λ s, with_server_objects (<[server := g sv]> (server_objects s)) s).

Definition Server_new : M X ptr :=
  server ← allocate;
  started ← Event_new;
  shutdown ← Event_new;
  modify (λ s, with_server_objects
    (<[server := MkServer ∅ false false 0 started shutdown 0]> (server_objects s)) s);;
  mret server.

Definition Server_Register (server : ptr) (service_name : string) (service : ptr) : M X unit :=
  sv ← deref server_objects server;
  M_verify (bool_decide (services sv !! service_name = None)) "service is already registered";;
  update_server server (λ sv,
    MkServer (<[service_name := service]> (services sv)) (running sv) (finished sv) (requests_count sv)
      (worker_started sv) (shutdown_event sv) (server_port sv)).

Definition Start_begin (server : ptr) (port : Z) : M X unit :=
  sv ← deref server_objects server;
  M_verify (negb (running sv)) "RpcServer is already running";;
  update_server server (λ sv,
    MkServer (services sv) true (finished sv) (requests_count sv) (worker_started sv) (shutdown_event sv) port).

Definition Server_Start (server : ptr) (port : Z) : prog X unit :=
  atomic (Start_begin server port);;
  h ← GetCurrentHost;
  RegisterServer h server port.

Definition Run_begin (server : ptr) : M X ptr :=
  sv ← deref server_objects server;
  record_call (RunCalled server);;
  Event_Signal (worker_started sv);;
  mret (shutdown_event sv).

Definition Server_Run (server : ptr) : prog X unit :=
  shutdown_event ← atomic (Run_begin server);
  Event_Await shutdown_event.

(** [LatchGuard::LatchGuard], [~LatchGuard] and [Latch::AwaitZero] on
    [requests_latch_]. *)
Definition with_requests_count (n : Z) (sv : ServerImpl) : ServerImpl :=
  MkServer (services sv) (running sv) (finished sv) n (worker_started sv) (shutdown_event sv) (server_port sv).

Definition LatchGuard_new (server : ptr) : M X unit :=
  f ← this_fiber;
  record_call (Began server f);;
  update_server server (λ sv, with_requests_count (requests_count sv +64 1) sv).

Definition LatchGuard_destroy (server : ptr) : M X unit :=
  f ← this_fiber;
  record_call (Answered server f);;
  sv ← deref server_objects server;
  let n := requests_count sv -64 1 in
  update_server server (with_requests_count n);;
  if decide (n = 0) then notify_all server else mret ().

Definition is_zero (server : ptr) : M X bool :=
  sv ← deref server_objects server;
  mret (bool_decide (requests_count sv = 0)).

Definition AwaitZero (server : ptr) : prog X unit := Wait server (is_zero server) (Ret ()).

Definition ShutDown_begin (server : ptr) : M X Z :=
  sv ← deref server_objects server;
  M_verify (running sv) "RpcServer is not running";;
  M_verify (negb (finished sv)) "RpcServer is already finished";;
  update_server server (λ sv,
    MkServer (services sv) (running sv) true (requests_count sv) (worker_started sv) (shutdown_event sv)
      (server_port sv));;
  mret (server_port sv).

(** The last statement; the return of [ShutDown] is recorded with it. *)
Definition ShutDown_end (server : ptr) : M X unit :=
  record_call (Drained server);;
  sv ← deref server_objects server;
  Event_Signal (shutdown_event sv).

Definition Server_ShutDown (server : ptr) : prog X unit :=
  port ← atomic (ShutDown_begin server);
  h ← GetCurrentHost;
  UnregisterServer h port;;
  AwaitZero server;;
  atomic (ShutDown_end server).

(** The condition of [worker_started_.Await()]. *)
Definition worker_is_started (server : ptr) : M X bool :=
  sv ← deref server_objects server;
  deref resumed (worker_started sv).

Definition Server_ProcessRequest (server : ptr) (data : Data) (service_name handler_name : string) :
    prog X (Result Data RpcError) :=
  started ← atomic (LatchGuard_new server;; sv ← deref server_objects server; mret (worker_started sv));
  Wait started (worker_is_started server) (Ret ());;
  service ← atomic (sv ← deref server_objects server; mret (services sv !! service_name));
  result ← match service with
    | None => Ret (Err (MkRpcError HandlerNotFound ("Unknown service: " +:+ service_name)))
    | Some service => CallService server service handler_name data Ret
    end;
  atomic (LatchGuard_destroy server);;
  Ret result.

Definition Server_destroy (server : ptr) : M X unit :=
  sv ← deref server_objects server;
  M_verify (finished sv) "Destruction of running server".

(** ** Requests *)

Definition Host_ProcessRequest (h : ptr) (port : Z) (data : Data) (service_name handler_name : string) :
    prog X (Result Data RpcError) :=
  current ← GetCurrentHost;
  atomic (M_verify (bool_decide (current = h)) "invalid current_host");;
  StopFiberIfNecessary h;;
  server ← atomic (host ← deref host_objects h; mret (servers host !! port));
  match server with
  | None => Ret (Err (MkRpcError ConnectionRefused ""))
  | Some server =>
      result ← Server_ProcessRequest server data service_name handler_name;
      StopFiberIfNecessary h;;
      Ret result
  end.

Definition set_result (e : ptr) (result : Result Data RpcError) : M X unit :=
  deref results e;;
  modify (λ s, with_results (<[e := result]> (results s)) s);;
  Event_Signal e.

Definition link_closed (from to : string) : M X bool :=
  w ← gets world; mret (bool_decide ((from, to) ∈ closed_links w)).

(** [GetGlobalTime() + delay] *)
Definition after (delay : M X Z) : M X Z :=
  now ← GetGlobalTime;
  d ← delay;
  lift (i64 (now + d)).

(** The fiber of a request; [e] is [state->event] and the key of
    [state->result]. *)
Definition request_fiber (e : ptr) (from : string) (endpoint : Endpoint) (data : Data)
    (service_name handler_name : string) (stop_token : StopToken) : prog X unit :=
  let to := RtTypes.address endpoint in
  let network_error : Result Data RpcError := Err (MkRpcError NetworkError "") in
  World_SleepUntil (after GetRpcDelay) stop_token;;
  is_network_error ← atomic ShouldMakeNetworkError;
  drop ← (if (is_network_error : bool) then atomic (random_below (1 # 2)) else Ret false);
  if (drop : bool) then atomic (set_result e network_error)
  else
    w ← atomic (gets world);
    match hosts w !! to with
    | None => atomic (set_result e (Err (MkRpcError ConnectionRefused "")))
    | Some target_host =>
        closed ← atomic (link_closed from to);
        if (closed : bool) then atomic (set_result e network_error)
        else
          this_fiber_properties;;
          stop ← atomic (
            host ← deref host_objects target_host;
            f ← this_fiber;
            set_props f (SetCurrentHost (Some target_host) (epoch host));;
            StopRequested stop_token);
          if (stop : bool) then Ret ()
          else
            result ← Host_ProcessRequest target_host (port endpoint) data service_name handler_name;
            World_SleepUntil (after GetRpcDelay) stop_token;;
            closed ← atomic (link_closed from to);
            atomic (set_result e (if (closed : bool) then network_error
                                  else if (is_network_error : bool) then network_error else result))
    end.

(** [state] and the stop callback. *)
Definition MakeRequest_begin (stop_token : StopToken) : M X ptr :=
  e ← Event_new;
  modify (λ s, with_results (<[e := Err (MkRpcError Cancelled "")]> (results s)) s);;
  StopCallback_new stop_token (SignalEvent e);;
  mret e.

Definition World_MakeRequest (from : string) (endpoint : Endpoint) (data : Data)
    (service_name handler_name : string) (stop_token : StopToken) : prog X (Result Data RpcError) :=
  e ← atomic (MakeRequest_begin stop_token);
  fiber post (request_fiber e from endpoint data service_name handler_name stop_token);;
  Event_Await e;;
  atomic (StopCallback_destroy stop_token (SignalEvent e);; deref results e).

Definition Host_MakeRequest (h : ptr) (endpoint : Endpoint) (data : Data) (service_name handler_name : string)
    (stop_token : StopToken) : prog X (Result Data RpcError) :=
  current ← GetCurrentHost;
  atomic (M_verify (bool_decide (current = h)) "invalid current_host");;
  StopFiberIfNecessary h;;
  host ← atomic (deref host_objects h);
  result ← World_MakeRequest (address host) endpoint data service_name handler_name stop_token;
  StopFiberIfNecessary h;;
  Ret result.

(** [ClientBase::MakeRequest] *)
Definition ClientBase_MakeRequest (endpoint : Endpoint) (data : Data) (service_name handler_name : string)
    (stop_token : StopToken) : prog X (Result Data RpcError) :=
  h ← GetCurrentHost;
  Host_MakeRequest h endpoint data service_name handler_name stop_token.

(** ** [RunSimulation] *)

(** One test of the loop condition and, if it holds, the part of the body
    before the yield. *)
Definition fire (duration iteration_count : Z) : M X bool :=
  w ← gets world;
  match events_queue w with
  | (ts, e) :: rest =>
      if decide (ts ≤ duration ∧ 0 < iteration_count) then
        M_verify (bool_decide (current_time w ≤ ts)) "invalid event timestamp";;
        modify (with_world (MkWorld (hosts w) (initialized w) rest ts (options w) (closed_links w)));;
        Event_Signal e;;
        mret true
      else mret false
  | [] => mret false
  end.

Fixpoint kill_all (hs : list ptr) : M X unit :=
  match hs with
  | [] => mret ()
  | h :: hs => Host_KillHost h;; Host_ResumeHost h;; kill_all hs
  end.

Definition RunSimulation_end : M X unit :=
  record_call SimulationEnded;;
  modify (λ s, let w := world s in
    with_host_objects (foldr delete (host_objects s) (map_to_list (hosts w)).*2)
      (with_world (MkWorld ∅ false [] 0 (options w) ∅) s)).

Definition RunSimulation (duration iteration_count : Z) : prog X unit :=
  atomic (w ← gets world; M_verify (initialized w) "world in unitialized");;
  this_fiber_properties;;
  atomic (f ← this_fiber; set_props f MarkAsMainFiber);;
  Yield (Ret ());;
  Loop (λ iteration_count,
    fired ← atomic (fire duration iteration_count);
    if (fired : bool) then Yield (Ret (inl (iteration_count - 1))) else Ret (inr ())) iteration_count Ret;;
  atomic (w ← gets world; kill_all (map_to_list (hosts w)).*2);;
  Yield (Ret ());;
  atomic RunSimulation_end.

(** ** time.cpp and api.cpp *)

Definition Now : prog X Z :=
  h ← GetCurrentHost;
  atomic (GetLocalTime h).

Definition SleepUntil (timestamp : Z) (stop_token : StopToken) : prog X bool :=
  h ← GetCurrentHost;
  Host_SleepUntil h timestamp stop_token.

Definition SleepFor (duration : Z) (stop_token : StopToken) : prog X bool :=
  now ← Now;
  t ← atomic (lift (i64 (now + duration)));
  SleepUntil t stop_token.

Definition InitWorld (seed : Z) (opts : WorldOptions) : prog X unit := atomic (Initialize seed opts).

Definition AddHost (addr : string) (main : ptr) (opts : HostOptions) : prog X unit :=
  h ← Host_new addr main opts;
  atomic (World_AddHost addr h).

Definition GetHostUniqueId : prog X ptr := GetCurrentHost.

Definition PauseHost (addr : string) : prog X unit := atomic (h ← GetHost addr; Host_PauseHost h).
Definition ResumeHost (addr : string) : prog X unit := atomic (h ← GetHost addr; Host_ResumeHost h).
Definition KillHost (addr : string) : prog X unit := atomic (h ← GetHost addr; Host_KillHost h).
Definition StartHost (addr : string) : prog X unit := h ← atomic (GetHost addr); Host_StartHost h.

Definition CloseLinkBidirectional (first second : string) : M X unit :=
  CloseLink first second;; CloseLink second first.
Definition RestoreLinkBidirectional (first second : string) : M X unit :=
  RestoreLink first second;; RestoreLink second first.

(** ** The typed wrappers *)

Context {Req Rsp : Type} `{!ProtoMessage Req} `{!ProtoMessage Rsp}.

(** The template [ClientBase::MakeRequest]. *)
Definition MakeRequest (endpoint : Endpoint) (request : Req) (service_name handler_name : string)
    (stop_token : StopToken) : prog X (Result Rsp RpcError) :=
  match SerializeToArray request with
  | None => atomic (lift (Panic "serialization error"))
  | Some data =>
      result ← ClientBase_MakeRequest endpoint data service_name handler_name stop_token;
      match result with
      | Err e => Ret (Err e)
      | Ok d =>
          match (ParseFromArray d : option Rsp) with
          | None => Ret (Err (MkRpcError ParseError ""))
          | Some proto_result => Ret (Ok proto_result)
          end
      end
  end.

(** [Service::ProcessRequestWrapper] *)
Definition ProcessRequestWrapper (data : Data) (handler : Req → prog X (Result Rsp RpcError)) :
    prog X (Result Data RpcError) :=
  match (ParseFromArray data : option Req) with
  | None => Ret (Err (MkRpcError ParseError ""))
  | Some request =>
      result ← handler request;
      match result with
      | Err e => Ret (Err e)
      | Ok value =>
          match SerializeToArray value with
          | Some serialized_result => Ret (Ok serialized_result)
          | None => atomic (lift (Panic "serialization error"))
          end
      end
  end.
End runtime.
