(* ===== verification/SimFibersProps.v ===== *)
(** * Reasoning about simulated fibers

    What a draw can give ([drawn]), the states a machine can reach, that
    [explore] covers every run, and a rule for invariants: a property of the
    state that every piece of code of the programs preserves holds in every
    reachable state. *)

From S2P Require Import Prelude.
From S2P Require Import Result.
From S2P Require Import RtTypes.
From S2P Require Import Serde.
From S2P Require Import SimScheduler.
From S2P Require Import SimFibers.
From Stdlib Require Import QArith_base.

Local Open Scope Z_scope.

(** ** Draws *)

(** The values a computation can return under the documented ranges. *)
Inductive drawn {A : Type} : rand A → A → Prop :=
  | drawn_value a : drawn (Drawn a) a
  | drawn_int lo hi k z a : lo ≤ z ≤ hi → drawn (k z) a → drawn (Int lo hi k) a
  | drawn_below p k b a : ((p <= 0)%Q → b = false) → drawn (k b) a → drawn (Below p k) a
  | drawn_drift lo hi k d a : ((lo, hi) = (0%Q, 0%Q) → d = λ _, 0) → drawn (k d) a → drawn (Drift lo hi k) a.

Lemma drawn_Drawn {A} (a b : A) : drawn (Drawn a) b ↔ a = b.
Proof. split; [by inversion 1|intros ->; constructor]. Qed.

Lemma drawn_bind {A B} (r : rand A) (f : A → rand B) b :
  drawn (rand_bind r f) b ↔ ∃ a, drawn r a ∧ drawn (f a) b.
Proof.
  split.
  - induction r as [a|lo hi k IH|p k IH|lo hi k IH]; simpl; intros Hd.
    + exists a. by rewrite drawn_Drawn.
    + inversion Hd; simplify_eq. edestruct IH as (a' & ? & ?); eauto using drawn.
    + inversion Hd; simplify_eq. edestruct IH as (a' & ? & ?); eauto using drawn.
    + inversion Hd; simplify_eq. edestruct IH as (a' & ? & ?); eauto using drawn.
  - intros (a & Ha & Hb). induction Ha; simpl; eauto using drawn.
Qed.

Lemma always_sound {A} (P : A → bool) (r : rand A) a : always P r = true → drawn r a → P a = true.
Proof.
  intros HP Hd. induction Hd as [a|lo hi k z a Hz _ IH|p k b a Hb _ IH|lo hi k d a Hd _ IH]; simpl in HP; [done|..].
  - apply andb_prop in HP as [_ HP]. apply IH. rewrite forallb_forall in HP. apply HP.
    apply list_elem_of_In, elem_of_range. lia.
  - apply andb_prop in HP as [Hf Ht]. destruct b; [|by apply IH]. apply orb_prop in Ht as [Hle|Ht]; [|by apply IH].
    by rewrite Qle_bool_iff in Hle; specialize (Hb Hle).
  - apply andb_prop in HP as [He HP]. apply bool_decide_eq_true in He. rewrite (Hd He) in IH. by apply IH.
Qed.

(** The intervals of the draws that a generator makes are ranges. *)
Fixpoint ranges_ok `{G : Generator} {A} (r : rand A) (n : N) : bool :=
  match r with
  | Drawn _ => true
  | Int lo hi k => bool_decide (lo ≤ hi) && ranges_ok (k (next_int n lo hi)) (N.succ n)
  | Below p k => ranges_ok (k (next_below n p)) (N.succ n)
  | Drift lo hi k => ranges_ok (k (next_drift n lo hi)) (N.succ n)
  end.

(** A generator that respects the ranges draws such a value. *)
Lemma ranges_ok_drawn `{!GeneratorLaws G} {A} (r : rand A) n : ranges_ok r n = true → drawn r (draw r n).1.
Proof.
  revert n. induction r as [a|lo hi k IH|p k IH|lo hi k IH]; intros n HP; simpl in *; [constructor|..].
  - apply andb_prop in HP as [Hle HP]. apply bool_decide_eq_true in Hle.
    pose proof (next_int_range n lo hi Hle). econstructor; [done|]. by apply IH.
  - econstructor; [apply next_below_zero|]. by apply IH.
  - econstructor; [|by apply IH]. intros [= -> ->]. apply next_drift_zero.
Qed.

Lemma always_ranges_ok `{!GeneratorLaws G} {A} (P : A → bool) (r : rand A) n : always P r = true → ranges_ok r n = true.
Proof.
  revert n. induction r as [a|lo hi k IH|p k IH|lo hi k IH]; intros n HP; simpl in *; [done|..].
  - apply andb_prop in HP as [Hle HP]. rewrite Hle. apply bool_decide_eq_true in Hle.
    pose proof (next_int_range n lo hi Hle). apply IH.
    rewrite forallb_forall in HP. apply HP, list_elem_of_In, elem_of_range. lia.
  - apply andb_prop in HP as [Hf Ht]. apply IH. destruct (next_below n p) eqn:Hb; [|done].
    apply orb_prop in Ht as [Hle|Ht]; [|done]. rewrite Qle_bool_iff in Hle.
    by rewrite (next_below_zero n p Hle) in Hb.
  - apply andb_prop in HP as [He HP]. apply bool_decide_eq_true in He. simplify_eq.
    rewrite (next_drift_zero n). by apply IH.
Qed.

Lemma draw_drawn `{!GeneratorLaws G} {A} (P : A → bool) (r : rand A) n :
  always P r = true → drawn r (draw r n).1.
Proof. intros HP. by apply ranges_ok_drawn, (always_ranges_ok P). Qed.

(** ** Runs *)

Section runs.
Context {X : Type}.
Variable Main : ptr → prog X unit.
Variable ProcessRequest : ptr → string → Data → prog X (Result Data RpcError).
Local Abbreviation step := (step Main ProcessRequest).

(** The states reachable by steps with any draws. *)
Inductive reaches : machine X → status X → Prop :=
  | reaches_refl m : reaches m (Running m)
  | reaches_step m m' st : drawn (step m) (Running m') → reaches m' st → reaches m st
  | reaches_last m st : drawn (step m) st → reaches m st.

Lemma reaches_snoc m m1 m2 : reaches m (Running m1) → drawn (step m1) (Running m2) → reaches m (Running m2).
Proof.
  intros Hr Hd. remember (Running m1) as st eqn:Hst. revert Hst.
  induction Hr as [m|m m' st Hd' _ IH|m st Hd']; intros Hst; subst; [simplify_eq; by apply reaches_last|..].
  - eapply reaches_step; [done|]. by apply IH.
  - eapply reaches_step; [done|]. by apply reaches_last.
Qed.

(** What holds at the start and is kept by every step from a reachable state. *)
Lemma reaches_invariant_r (P : machine X → Prop) m0 m :
  P m0 → (∀ m1 m2, reaches m0 (Running m1) → P m1 → drawn (step m1) (Running m2) → P m2) →
  reaches m0 (Running m) → P m.
Proof.
  intros H0 Hstep Hr. remember (Running m) as st eqn:Hst.
  assert (Hgen : ∀ m1, reaches m1 st → reaches m0 (Running m1) → P m1 → P m); [|eauto using reaches_refl].
  clear Hr H0. intros m1 Hr. induction Hr as [m1|m1 m2 st Hd _ IH|m1 st Hd]; intros H1 HP; subst; [by simplify_eq|..].
  - apply IH; [done|by eapply reaches_snoc|by eapply Hstep].
  - by eapply Hstep.
Qed.

(** [k] steps with the draws of a generator, or fewer if the run ends. *)
Fixpoint run_steps `{G : Generator} (k : nat) (m : machine X) (n : N) : status X * N :=
  match k with
  | O => (Running m, n)
  | S k =>
      match draw (step m) n with
      | (Running m', n') => run_steps k m' n'
      | r => r
      end
  end.

Lemma run_steps_add `{G : Generator} j k m n :
  run_steps (j + k) m n =
    match run_steps j m n with
    | (Running m', n') => run_steps k m' n'
    | r => r
    end.
Proof.
  revert m n. induction j as [|j IH]; intros m n; [done|]. simpl.
  destruct (draw (step m) n) as [[m'|s|o] n']; [apply IH|done..].
Qed.

Lemma run_run_steps `{G : Generator} depth m n :
  run Main ProcessRequest depth m n = run_steps (2 ^ depth) m n.
Proof.
  revert m n. induction depth as [|depth IH]; intros m n.
  - simpl. by destruct (draw _ n) as [[m'|s|o] n'].
  - simpl. rewrite Nat.add_0_r, run_steps_add, IH. destruct (run_steps _ m n) as [[m'|s|o] n']; [apply IH|done..].
Qed.

Lemma explore_sound `{!GeneratorLaws G} P fuel m n k :
  explore Main ProcessRequest P fuel m = true → (fuel ≤ k)%nat →
  ∃ st n', run_steps k m n = (st, n') ∧ P st = true ∧ ∀ m', st ≠ Running m'.
Proof.
  revert m n k. induction fuel as [|fuel IH]; intros m n k Hex Hk; [done|].
  destruct k as [|k]; [lia|]. simpl in Hex |- *.
  pose proof (draw_drawn _ _ n Hex) as Hd. pose proof (always_sound _ _ _ Hex Hd) as HP. simpl in HP.
  destruct (draw (step m) n) as [[m'|s|o] n'] eqn:Hdraw; simpl in HP.
  - apply IH; [done|lia].
  - by exists (Ended s), n'.
  - by exists (Crashed o), n'.
Qed.

(** A run in which every draw is from a range is a path of the machine. *)
Fixpoint checked `{G : Generator} (k : nat) (m : machine X) (n : N) : bool :=
  match k with
  | O => true
  | S k =>
      ranges_ok (step m) n &&
      match draw (step m) n with
      | (Running m', n') => checked k m' n'
      | _ => true
      end
  end.

Lemma checked_reaches `{!GeneratorLaws G} k m n m' n' :
  checked k m n = true → run_steps k m n = (Running m', n') → reaches m (Running m').
Proof.
  revert m n. induction k as [|k IH]; intros m n Hc Hr; simpl in *; [simplify_eq; constructor|].
  apply andb_prop in Hc as [Ha Hc]. pose proof (ranges_ok_drawn _ n Ha) as Hd.
  destruct (draw (step m) n) as [[m1|s|o] n1]; simplify_eq/=. eapply reaches_step; eauto.
Qed.

Lemma checked_add `{G : Generator} j k m n m' n' :
  checked (j + k) m n = true → run_steps j m n = (Running m', n') → checked k m' n' = true.
Proof.
  revert m n. induction j as [|j IH]; intros m n Hc Hr; simpl in *; [by simplify_eq|].
  apply andb_prop in Hc as [_ Hc]. destruct (draw (step m) n) as [[m1|s|o] n1]; simplify_eq. by eapply IH.
Qed.

Lemma checked_le `{G : Generator} j k m n : checked (j + k) m n = true → checked j m n = true.
Proof.
  revert m n. induction j as [|j IH]; intros m n Hc; simpl in *; [done|]. apply andb_prop in Hc as [-> Hc].
  destruct (draw (step m) n) as [[m1|s|o] n1]; [|done..]. by apply IH.
Qed.

(** All runs of a machine that was explored end in a state with [P]. *)
Lemma explored_runs `{!GeneratorLaws G} P fuel depth m n :
  explore Main ProcessRequest P fuel m = true → (fuel ≤ 2 ^ depth)%nat →
  P (run Main ProcessRequest depth m n).1 = true.
Proof.
  intros Hex Hle. rewrite run_run_steps. by destruct (explore_sound P fuel m n _ Hex Hle) as (st & n' & -> & ? & _).
Qed.
End runs.

(** ** Invariants of the state *)

Section code.
Context {X : Type}.

(** Code that ends normally. *)
Lemma M_bind_drawn {A B} (m : M X A) (k : A → M X B) f s b s2 :
  drawn ((m ≫= k) f s) (Done (b, s2)) →
  ∃ a s1, drawn (m f s) (Done (a, s1)) ∧ drawn (k a f s1) (Done (b, s2)).
Proof.
  intros Hd. unfold mbind, M_bind in Hd. apply drawn_bind in Hd as ([[a s1]|msg|w] & Hm & Hk); [eauto|..];
    by apply drawn_Drawn in Hk.
Qed.

Lemma lift_drawn {A} (o : outcome A) f (s : sim X) a s' :
  drawn (lift o f s) (Done (a, s')) → o = Done a ∧ s' = s.
Proof. unfold lift. rewrite drawn_Drawn. destruct o; simpl; by intros [= -> ->]. Qed.

Lemma deref_drawn {A} (objects : sim X → gmap ptr A) p f s a s' :
  drawn (deref objects p f s) (Done (a, s')) → objects s !! p = Some a ∧ s' = s.
Proof.
  unfold deref. intros (o & s1 & Hg & Hl)%M_bind_drawn. unfold gets in Hg. apply drawn_Drawn in Hg as [= <- <-].
  apply lift_drawn in Hl as [Ho ->]. by destruct (objects s !! p); simplify_eq.
Qed.

Lemma random_int_drawn lo hi f (s : sim X) z s' :
  drawn (random_int lo hi f s) (Done (z, s')) → lo ≤ z ≤ hi ∧ s' = s.
Proof. unfold random_int. inversion 1; simplify_eq. match goal with H : drawn (Drawn _) _ |- _ => inversion H end. by simplify_eq. Qed.

Lemma random_below_drawn p f (s : sim X) b s' : drawn (random_below p f s) (Done (b, s')) → s' = s.
Proof. unfold random_below. inversion 1; simplify_eq. match goal with H : drawn (Drawn _) _ |- _ => inversion H end. by simplify_eq. Qed.

Lemma random_drift_drawn lo hi f (s : sim X) d s' : drawn (random_drift lo hi f s) (Done (d, s')) → s' = s.
Proof. unfold random_drift. inversion 1; simplify_eq. match goal with H : drawn (Drawn _) _ |- _ => inversion H end. by simplify_eq. Qed.
End code.

(** Decompose the hypotheses that a piece of code ended normally. *)
Ltac code_inv :=
  repeat match goal with
  | H : drawn (mbind _ _ _ _) (Done _) |- _ => apply M_bind_drawn in H as (? & ? & ? & ?)
  | H : drawn (mret _ _ _) (Done _) |- _ => unfold mret, M_ret in H; apply drawn_Drawn in H as [= <- <-]
  | H : drawn (gets _ _ _) (Done _) |- _ => unfold gets in H; apply drawn_Drawn in H as [= <- <-]
  | H : drawn (this_fiber _ _) (Done _) |- _ => unfold this_fiber in H; apply drawn_Drawn in H as [= <- <-]
  | H : drawn (modify _ _ _) (Done _) |- _ => unfold modify in H; apply drawn_Drawn in H as [= <- <-]
  | H : drawn (allocate _ _) (Done _) |- _ => unfold allocate in H; apply drawn_Drawn in H as [= <- <-]
  | H : drawn (lift _ _ _) (Done _) |- _ => apply lift_drawn in H as [? ->]
  | H : drawn (deref _ _ _ _) (Done _) |- _ => apply deref_drawn in H as [? ->]
  | H : drawn (M_verify _ _ _ _) (Done _) |- _ => unfold M_verify in H
  | H : drawn (random_int _ _ _ _) (Done _) |- _ => apply random_int_drawn in H as [? ->]
  | H : drawn (random_below _ _ _) (Done _) |- _ => apply random_below_drawn in H as ->
  | H : drawn (random_drift _ _ _ _) (Done _) |- _ => apply random_drift_drawn in H as ->
  | H : drawn ((let '(_, _) := ?x in _) _ _) (Done _) |- _ => destruct x
  | H : drawn ((if ?b then _ else _) _ _) (Done _) |- _ =>
      lazymatch type of b with bool => destruct b eqn:? | list _ => fail | _ => destruct b as [?|?] in H end
  | H : drawn ((match ?o with Some _ => _ | None => _ end) _ _) (Done _) |- _ => destruct o eqn:?
  end.

Section invariants.
Context {X : Type}.
Variable I : sim X → Prop.

Definition preserves {A} (m : M X A) : Prop :=
  ∀ f s a s', I s → drawn (m f s) (Done (a, s')) → I s'.

Lemma preserves_bind {A B} (m : M X A) (k : A → M X B) :
  preserves m → (∀ a, preserves (k a)) → preserves (m ≫= k).
Proof. intros Hm Hk f s b s2 HI Hd. code_inv. eapply Hk; [|done]. by eapply Hm. Qed.

Lemma preserves_ret {A} (a : A) : preserves (mret a).
Proof. intros f s b s' HI Hd. by code_inv. Qed.
Lemma preserves_gets {A} (g : sim X → A) : preserves (gets g).
Proof. intros f s b s' HI Hd. by code_inv. Qed.
Lemma preserves_this_fiber : preserves this_fiber.
Proof. intros f s b s' HI Hd. by code_inv. Qed.
Lemma preserves_lift {A} (o : outcome A) : preserves (lift o).
Proof. intros f s b s' HI Hd. by code_inv. Qed.
Lemma preserves_verify c msg : preserves (M_verify c msg).
Proof. apply preserves_lift. Qed.
Lemma preserves_deref {A} (objects : sim X → gmap ptr A) p : preserves (deref objects p).
Proof. intros f s b s' HI Hd. by code_inv. Qed.
Lemma preserves_int lo hi : preserves (random_int lo hi).
Proof. intros f s b s' HI Hd. by code_inv. Qed.
Lemma preserves_below p : preserves (random_below p).
Proof. intros f s b s' HI Hd. by code_inv. Qed.
Lemma preserves_drift lo hi : preserves (random_drift lo hi).
Proof. intros f s b s' HI Hd. by code_inv. Qed.
Lemma preserves_modify (g : sim X → sim X) : (∀ s, I s → I (g s)) → preserves (modify g).
Proof. intros Hg f s b s' HI Hd. code_inv. by apply Hg. Qed.

(** Every piece of code of a program preserves the invariant. *)
Fixpoint safe {R} (p : prog X R) : Prop :=
  match p with
  | Ret _ => True
  | Do m k => preserves m ∧ ∀ a, safe (k a)
  | Yield k => safe k
  | Wait _ predicate k => preserves predicate ∧ safe k
  | Loop body _ k => (∀ s, safe (body s)) ∧ ∀ t, safe (k t)
  | Fork _ body k => safe body ∧ ∀ h, safe (k h)
  | CallMain _ k => safe k
  | CallService server _ _ _ k =>
      (∀ f, preserves (record_call (Handled server f)) ∧ preserves (record_call (Returned server f))) ∧
      ∀ r, safe (k r)
  end.

Lemma safe_bind {R S} (p : prog X R) (k : R → prog X S) : safe p → (∀ r, safe (k r)) → safe (p ≫= k).
Proof.
  unfold mbind, prog_mbind. induction p; simpl; intros Hp Hk; naive_solver.
Qed.

Lemma safe_atomic {A} (m : M X A) : preserves m → safe (atomic m).
Proof. done. Qed.

(** What the machine itself changes. *)
Record stable : Prop := {
  stable_scheduler v s : I s → I (with_scheduler v s);
  stable_waiters v s : I s → I (with_waiters v s);
  stable_terminated v s : I s → I (with_terminated v s);
  stable_allocate : preserves allocate;
}.
Hypothesis Hstable : stable.

Lemma preserves_wake f b : preserves (wake f b).
Proof.
  repeat (apply preserves_bind; [|intros ?]); eauto using preserves_gets, preserves_lift, preserves_modify, stable_scheduler.
Qed.

Lemma preserves_wake_all fs : preserves (wake_all fs).
Proof. induction fs; simpl; eauto using preserves_ret, preserves_bind, preserves_wake. Qed.

Lemma preserves_notify_all cv : preserves (notify_all cv).
Proof.
  apply preserves_bind; [apply preserves_gets|]. intros ws.
  apply preserves_bind; [apply preserves_modify; eauto using stable_waiters|]. intros _. apply preserves_wake_all.
Qed.

Lemma preserves_pick : preserves pick.
Proof.
  apply preserves_bind; [apply preserves_gets|]. intros sched.
  apply preserves_bind; [case_match; eauto using preserves_ret, preserves_int|]. intros index.
  apply preserves_bind; [apply preserves_lift|]. intros [ctx sched'].
  apply preserves_bind; [apply preserves_modify; eauto using stable_scheduler|]. intros _. apply preserves_ret.
Qed.

Lemma preserves_switch y : preserves (switch y).
Proof.
  apply preserves_bind; [apply preserves_pick|]. intros ctx.
  apply preserves_bind; [destruct y; eauto using preserves_ret, preserves_wake|]. intros _.
  case_decide; [|apply preserves_ret].
  apply preserves_bind; [apply preserves_pick|]. intros ctx'.
  apply preserves_bind; [apply preserves_wake|]. intros _. apply preserves_ret.
Qed.

End invariants.

(** Split code into the pieces that [leaf] shows to preserve an invariant. *)
Ltac split_code leaf :=
  repeat first
    [ apply preserves_ret | apply preserves_gets | apply preserves_this_fiber | apply preserves_lift
    | apply preserves_verify | apply preserves_deref | apply preserves_int | apply preserves_below
    | apply preserves_drift | solve [leaf] | apply preserves_bind; [|intros ?]
    | match goal with |- preserves _ (match _ with _ => _ end) => case_match end ].

Section reachable.
Context {X : Type}.
(** The programs preserve [I]; what is shown of the states is [J], which is [I]
    itself or true of every state. *)
Variable I J : sim X → Prop.
Hypothesis HJ : ∀ A (m : M X A), preserves I m → preserves J m.
Hypothesis Hstable : stable J.
Variable Main : ptr → prog X unit.
Variable ProcessRequest : ptr → string → Data → prog X (Result Data RpcError).

Record machine_ok (m : machine X) : Prop := {
  ok_code : safe I (code m);
  ok_fibers f p : fibers m !! f = Some p → safe I p;
  ok_state : J (state m);
}.

Definition status_ok (st : status X) : Prop :=
  match st with
  | Running m => machine_ok m
  | Ended s => J s
  | Crashed _ => True
  end.

Lemma suspend_ok y self fs s st :
  (∀ f p, fs !! f = Some p → safe I p) → J s → drawn (suspend y self fs s) st → status_ok st.
Proof.
  intros Hfs HI Hd. unfold suspend in Hd. apply drawn_bind in Hd as ([[ctx s']|msg|w] & Hsw & Hd).
  - assert (J s') by (by eapply preserves_switch). destruct (fs !! ctx) as [p|] eqn:Hp.
    + apply drawn_Drawn in Hd as <-. split; simpl; [by eapply Hfs| |done].
      intros f q [_ Hq]%lookup_delete_Some. by eapply Hfs.
    + by apply drawn_Drawn in Hd as <-.
  - by apply drawn_Drawn in Hd as <-.
  - by apply drawn_Drawn in Hd as <-.
Qed.

Lemma execute_ok {A} (m : M X A) self s next st :
  preserves J m → J s → (∀ a s', J s' → drawn (next a s') st → status_ok st) →
  drawn (execute m self s next) st → status_ok st.
Proof.
  intros Hm HI Hnext Hd. unfold execute in Hd. apply drawn_bind in Hd as ([[a s']|msg|w] & Hdm & Hd).
  - eapply Hnext; [|done]. by eapply Hm.
  - by apply drawn_Drawn in Hd as <-.
  - by apply drawn_Drawn in Hd as <-.
Qed.

Hypothesis Main_safe : ∀ r, safe I (Main r).
Hypothesis ProcessRequest_safe : ∀ sv h d, safe I (ProcessRequest sv h d).

Lemma fibers_insert_ok (fs : gmap ptr (prog X unit)) f p :
  (∀ f p, fs !! f = Some p → safe I p) → safe I p → ∀ f' p', <[f := p]> fs !! f' = Some p' → safe I p'.
Proof. intros Hfs Hp f' p' [[_ <-]|[_ Hf]]%lookup_insert_Some; eauto. Qed.

Lemma machine_step_ok m st : machine_ok m → drawn (step Main ProcessRequest m) st → status_ok st.
Proof.
  intros [Hcode Hfs HI] Hd. unfold step in Hd. destruct (code m) as [r|A c k|k|cv pred k|S T body s k|pol body k|r k|server sv h d k];
    simpl in Hcode.
  - case_decide; [by apply drawn_Drawn in Hd as <-|]. refine (execute_ok _ _ _ _ _ _ HI _ Hd); [|intros [] s'; by apply suspend_ok].
    apply preserves_bind; [apply preserves_modify; intros s' ?; by apply (stable_terminated J Hstable)|].
    intros _. by apply preserves_notify_all.
  - destruct Hcode as [Hc Hk]. refine (execute_ok _ _ _ _ _ (HJ _ _ Hc) HI _ Hd). intros a s' HI' Hd'.
    apply drawn_Drawn in Hd' as <-. by split; simpl; eauto.
  - refine (suspend_ok _ _ _ _ _ _ HI Hd). by apply fibers_insert_ok.
  - destruct Hcode as [Hc Hk]. refine (execute_ok _ _ _ _ _ (HJ _ _ Hc) HI _ Hd). intros [] s' HI' Hd'.
    + apply drawn_Drawn in Hd' as <-. by split.
    + refine (suspend_ok _ _ _ _ _ _ _ Hd'); [|by apply (stable_waiters J Hstable)].
      apply fibers_insert_ok; [done|exact (conj Hc Hk)].
  - destruct Hcode as [Hb Hk]. apply drawn_Drawn in Hd as <-. split; simpl; [|done|done].
    apply safe_bind; [done|]. intros [s'|t]; [exact (conj Hb Hk)|by apply Hk].
  - destruct Hcode as [Hb Hk]. assert (Halloc : ∀ g, preserves J (f ← allocate; wake (g f) false;; mret f)).
    { intros g. apply preserves_bind; [by apply stable_allocate|]. intros f.
      apply preserves_bind; [by apply preserves_wake|]. intros _. apply preserves_ret. }
    destruct pol.
    + refine (execute_ok _ _ _ _ _ (Halloc id) HI _ Hd). intros f s' HI' Hd'.
      apply drawn_Drawn in Hd' as <-. split; simpl; [done| |done]. by apply fibers_insert_ok.
    + refine (execute_ok _ _ _ _ _ (Halloc (λ _, current m)) HI _ Hd). intros f s' HI' Hd'.
      apply drawn_Drawn in Hd' as <-. split; simpl; [done| |done]. by apply fibers_insert_ok.
  - apply drawn_Drawn in Hd as <-. split; simpl; [|done|done]. by apply safe_bind.
  - destruct Hcode as [Hrec Hk]. refine (execute_ok _ _ _ _ _ (HJ _ _ (proj1 (Hrec (current m)))) HI _ Hd).
    intros [] s' HI' Hd'. apply drawn_Drawn in Hd' as <-. split; simpl; [|done|done].
    apply safe_bind; [apply ProcessRequest_safe|]. intros r. split; [apply Hrec|intros _; apply Hk].
Qed.

Lemma reaches_ok m st : machine_ok m → reaches Main ProcessRequest m st → status_ok st.
Proof.
  intros Hok Hr. induction Hr as [m|m m' st Hd _ IH|m st Hd]; [done|..].
  - apply IH. by apply (machine_step_ok m (Running m')).
  - by eapply machine_step_ok.
Qed.
End reachable.

Lemma reaches_invariant {X} (I : sim X → Prop) Main ProcessRequest m st :
  stable I → (∀ r, safe I (Main r)) → (∀ sv h d, safe I (ProcessRequest sv h d)) →
  machine_ok I I m → reaches Main ProcessRequest m st → status_ok I I st.
Proof. intros. eapply reaches_ok; eauto. Qed.

(** The programs of reachable machines preserve what the first ones do. *)
Lemma reaches_safe {X} (I : sim X → Prop) Main ProcessRequest m m' :
  (∀ r, safe I (Main r)) → (∀ sv h d, safe I (ProcessRequest sv h d)) →
  machine_ok I (λ _, True) m → reaches Main ProcessRequest m (Running m') → machine_ok I (λ _, True) m'.
Proof. intros HMain HPR Hm Hr. apply (reaches_ok I (λ _, True) ltac:(done) ltac:(done) Main ProcessRequest HMain HPR _ _ Hm Hr). Qed.

Lemma boot_ok {X} (I : sim X → Prop) x test : safe I test → machine_ok I (λ _, True) (boot x test).
Proof. intros Ht. split; simpl; [done| |done]. intros f p Hf. by rewrite lookup_empty in Hf. Qed.

(** An invariant of the programs holds from some moment on. *)
Lemma programs_invariant {X} (I : sim X → Prop) Main ProcessRequest (x : X) test m1 m2 :
  stable I → (∀ r, safe I (Main r)) → (∀ sv h d, safe I (ProcessRequest sv h d)) → safe I test →
  reaches Main ProcessRequest (boot x test) (Running m1) → I (state m1) →
  reaches Main ProcessRequest m1 (Running m2) → I (state m2).
Proof.
  intros Hst HMain HPR Htest H1 Hi H2.
  destruct (reaches_safe I Main ProcessRequest _ m1 HMain HPR (boot_ok I x test Htest) H1) as [Hcode Hfs _].
  exact (ok_state _ _ _ (reaches_invariant I Main ProcessRequest m1 (Running m2) Hst HMain HPR (Build_machine_ok _ _ _ Hcode Hfs Hi) H2)).
Qed.
