(* ===== verification/SimClients.v ===== *)
(** * Properties of the simulated runtime, for all programs

    [client] has the programs that use the simulator through its interface;
    what is proved here holds for every such program, every table of hosts and
    services and every draw: the simulated time does not go back, no handler
    runs before a worker, [ShutDown] waits for the requests. *)

From S2P Require Import Prelude.
From S2P Require Import Result.
From S2P Require Import RtTypes.
From S2P Require Import Serde.
From S2P Require Import SimTime.
From S2P Require Import SimScheduler.
From S2P Require Import SimFibers.
From S2P Require Import SimRuntime.
From S2P Require Import SimFibersProps.
From stdpp Require Import sorting.

Local Open Scope Z_scope.

(** ** Programs *)

(** Delays are not negative. *)
Definition options_ok (opts : WorldOptions) : Prop :=
  0 ≤ from (delivery_time opts) ∧ 0 ≤ from (long_delivery_time opts).

Section clients.
Context {X : Type}.

(** Code of a program that does not suspend its fiber: its variables, random
    draws, and the objects of the runtime that it may use in this way. *)
Inductive block : ∀ A : Type, M X A → Prop :=
  | block_ret A (a : A) : block _ (mret a)
  | block_bind A B (m : M X A) (k : A → M X B) : block _ m → (∀ a, block _ (k a)) → block _ (m ≫= k)
  | block_lift A (o : outcome A) : block _ (lift o)
  | block_read A (g : X → A) : block _ (gets (λ s, g (vars s)))
  | block_write (g : X → X) : block _ (modify (λ s, with_vars (g (vars s)) s))
  | block_expect b : block _ (modify (λ s, with_expectations (b :: expectations s) s))
  | block_expectations A (g : list bool → A) : block _ (gets (λ s, g (expectations s)))
  | block_allocate : block _ allocate
  | block_int lo hi : block _ (random_int lo hi)
  | block_below p : block _ (random_below p)
  | block_GetGlobalTime : block _ GetGlobalTime
  | block_StopSource_new : block _ StopSource_new
  | block_assign source : block _ (StopSource_assign source)
  | block_Stop source : block _ (StopSource_Stop source)
  | block_GetToken source : block _ (GetToken source)
  | block_StopRequested token : block _ (StopRequested token)
  | block_new_event : block _ new_event
  | block_signal_event e : block _ (signal_event e)
  | block_Event_destroy e : block _ (Event_destroy e)
  | block_signal_on_stop token e : block _ (signal_on_stop token e)
  | block_stop_on_stop token source : block _ (stop_on_stop token source)
  | block_callback_destroy token c : block _ (StopCallback_destroy token c)
  | block_Server_new : block _ Server_new
  | block_Register server name service : block _ (Server_Register server name service)
  | block_Server_destroy server : block _ (Server_destroy server)
  | block_CloseLink from to : block _ (CloseLink from to)
  | block_RestoreLink from to : block _ (RestoreLink from to).

(** The calls of the interface of the simulator that are programs (runtime/time.h, runtime/rpc_server.h,
    simulator/api.h, cancellation, events) and what a program uses of Boost:
    those that do not concern requests, and those that do. *)
Inductive basic : ∀ R : Type, prog X R → Prop :=
  | api_yield : basic _ (Yield (Ret ()))
  | api_join h : basic _ (fiber_join h)
  | api_Await e : basic _ (Event_Await e)
  | api_GetCurrentHost : basic _ GetCurrentHost
  | api_GetHostUniqueId : basic _ GetHostUniqueId
  | api_StopFiberIfNecessary h : basic _ (StopFiberIfNecessary h)
  | api_GetCurrentEpoch : basic _ GetCurrentEpoch
  | api_Now : basic _ Now
  | api_SleepUntil t token : basic _ (SleepUntil t token)
  | api_Start server port : basic _ (Server_Start server port)
  | api_Run server : basic _ (Server_Run server)
  | api_InitWorld seed opts : options_ok opts → basic _ (InitWorld seed opts)
  | api_AddHost addr main opts : basic _ (AddHost addr main opts)
  | api_RunSimulation duration count : basic _ (RunSimulation duration count)
  | api_PauseHost addr : basic _ (PauseHost addr)
  | api_ResumeHost addr : basic _ (ResumeHost addr)
  | api_KillHost addr : basic _ (KillHost addr)
  | api_StartHost addr : basic _ (StartHost addr).

Inductive api : ∀ R : Type, prog X R → Prop :=
  | api_basic R p : basic R p → api R p
  | api_ShutDown server : api _ (Server_ShutDown server)
  | api_MakeRequest endpoint data service handler token :
      api _ (ClientBase_MakeRequest endpoint data service handler token).

Inductive client : ∀ R : Type, prog X R → Prop :=
  | client_api R p : api R p → client R p
  | client_atomic A (m : M X A) : block A m → client A (atomic m)
  | client_ret R (r : R) : client R (Ret r)
  | client_bind R S (p : prog X R) (k : R → prog X S) :
      client R p → (∀ r, client S (k r)) → client S (p ≫= k)
  | client_fiber policy body : client unit body → client ptr (fiber policy body)
  | client_loop S T (body : S → prog X (S + T)) s :
      (∀ s, client (S + T) (body s)) → client T (Loop body s Ret).

Lemma client_safe (I : sim X → Prop) R p :
  (∀ R p, api R p → safe I p) → (∀ A m, block A m → preserves I m) → client R p → safe I p.
Proof.
  intros Hapi Hblock Hp. induction Hp; [eauto|by apply safe_atomic, Hblock|done|by apply safe_bind|done|done].
Qed.

(** ** Invariants of the runtime *)

(** What has to be shown of an invariant: the pieces of code of the runtime
    preserve it, and it is not about the variables of the programs. *)
Record code_preserves (I : sim X → Prop) : Prop := {
  rp_allocate : preserves I allocate;
  rp_notify cv : preserves I (notify_all cv);
  rp_props f g : preserves I (set_props f g);
  rp_expectations v s : I s → I (with_expectations v s);
  rp_hosts v s : I s → I (with_host_objects v s);
  rp_links v s : I s → I (with_world (with_closed_links v (world s)) s);
  rp_add_host addr h : preserves I (World_AddHost addr h);
  rp_init seed opts : options_ok opts → preserves I (Initialize seed opts);
  rp_sleep h t token :
    preserves I (t ← wake_up_time h t; e ← SleepUntil_begin t token; mret (t, e));
  rp_delay token : preserves I (t ← after GetRpcDelay; e ← SleepUntil_begin t token; mret (t, e));
  rp_callback_destroy token c : preserves I (StopCallback_destroy token c);
  rp_event_destroy e : preserves I (Event_destroy e);
  rp_source : preserves I StopSource_new;
  rp_assign source : preserves I (StopSource_assign source);
  rp_stop source : preserves I (StopSource_Stop source);
  rp_new_event : preserves I new_event;
  rp_signal_event e : preserves I (signal_event e);
  rp_signal_on_stop token e : preserves I (signal_on_stop token e);
  rp_stop_on_stop token source : preserves I (stop_on_stop token source);
  rp_server_new : preserves I Server_new;
  rp_register server name service : preserves I (Server_Register server name service);
  rp_start server port : preserves I (Start_begin server port);
  rp_run server : preserves I (Run_begin server);
  rp_shutdown server : preserves I (ShutDown_begin server);
  rp_request token : preserves I (MakeRequest_begin token);
  rp_result e result : preserves I (set_result e result);
  rp_fire duration count : preserves I (fire duration count);
  rp_end : preserves I RunSimulation_end;
}.

(** The same of the pieces that handle a request. *)
Record requests_preserve (I : sim X → Prop) : Prop := {
  rq_guard_new server : preserves I (LatchGuard_new server);
  rq_guard_destroy server : preserves I (LatchGuard_destroy server);
  rq_handled server f : preserves I (record_call (Handled server f));
  rq_returned server f : preserves I (record_call (Returned server f));
  rq_shutdown_end server : preserves I (ShutDown_end server);
}.

Definition runtime_preserves (I : sim X → Prop) : Prop :=
  code_preserves I ∧ requests_preserve I ∧ ∀ v s, I s → I (with_vars v s).

Create HintDb sim_safe.
#[local] Hint Resolve preserves_ret preserves_gets preserves_this_fiber preserves_lift preserves_verify preserves_deref
  preserves_int preserves_below preserves_drift : sim_safe.
#[local] Hint Resolve rp_sleep rp_delay rp_callback_destroy rp_event_destroy rp_source rp_assign rp_stop rp_new_event
  rp_signal_event rp_signal_on_stop rp_stop_on_stop rp_server_new rp_register
  rp_start rp_run rq_guard_new rq_guard_destroy rp_shutdown rq_shutdown_end rp_request rp_result
  rp_fire rp_end rp_add_host rp_init rp_allocate rp_notify rp_props : sim_safe.

(** Split a program into its pieces of code and these into the known ones. *)
Ltac solve_safe :=
  repeat match goal with
  | |- safe _ (mbind _ _) => apply safe_bind; [|intros ?]
  | |- safe _ (atomic _) => apply safe_atomic
  | |- safe _ (Ret _) => done
  | |- safe ?I (Yield ?k) => change (safe I k)
  | |- safe ?I (CallMain _ ?k) => change (safe I k)
  | |- safe _ (CallService _ _ _ _ _) => split; [split; eauto using rq_handled, rq_returned|intros ?]
  | |- safe _ (if _ then _ else _) => case_match
  | |- safe _ (match _ with _ => _ end) => case_match
  | |- safe _ (fiber _ _) => split; [|done]
  | |- safe _ (Wait _ _ _) => split
  | |- safe _ _ => solve [eauto with sim_safe]
  | |- preserves _ (match _ with _ => _ end) => case_match
  | |- preserves _ _ => solve [eauto with sim_safe]
  | |- preserves _ (mbind _ _) => apply preserves_bind; [|intros ?]
  | H : code_preserves _ |- preserves _ (modify _) =>
      apply preserves_modify; intros ? ?;
      first [by apply (rp_hosts _ H) | by apply (rp_links _ H) | by apply (rp_expectations _ H)]
  end.

Section safe.
Variable I : sim X → Prop.
Hypothesis HI : code_preserves I.

Lemma preserves_update_host h g : preserves I (update_host h g).
Proof.
  apply preserves_bind; [apply preserves_deref|]. intros host. apply preserves_modify. intros s Hs. by apply HI.
Qed.

Lemma preserves_kill_all hs : preserves I (kill_all hs).
Proof.
  induction hs as [|h hs IH]; [apply preserves_ret|].
  apply preserves_bind; [|intros _; apply preserves_bind; [|intros _; exact IH]].
  - apply preserves_bind; [apply preserves_deref|]. intros host.
    destruct (main_joinable host); [apply preserves_update_host|apply preserves_ret].
  - apply preserves_bind; [apply preserves_update_host|]. intros _. by apply rp_notify.
Qed.

Lemma safe_await e : safe I (Event_Await e).
Proof. split; [apply preserves_deref|done]. Qed.
#[local] Hint Resolve preserves_update_host preserves_kill_all safe_await : sim_safe.

Lemma safe_this_fiber_properties : safe I this_fiber_properties.
Proof. unfold this_fiber_properties. solve_safe. Qed.
#[local] Hint Resolve safe_this_fiber_properties : sim_safe.

Lemma safe_GetCurrentHost : safe I GetCurrentHost.
Proof. unfold GetCurrentHost. solve_safe. Qed.
Lemma safe_GetCurrentEpoch : safe I GetCurrentEpoch.
Proof. unfold GetCurrentEpoch. solve_safe. Qed.
#[local] Hint Resolve safe_GetCurrentHost safe_GetCurrentEpoch : sim_safe.

Lemma safe_StopFiberIfNecessary h : safe I (StopFiberIfNecessary h).
Proof. unfold StopFiberIfNecessary. solve_safe. Qed.
#[local] Hint Resolve safe_StopFiberIfNecessary : sim_safe.

Lemma preserves_StopRequested token : preserves I (StopRequested token).
Proof. unfold StopRequested. solve_safe. Qed.
Lemma preserves_GetGlobalTime : preserves I GetGlobalTime.
Proof. apply preserves_gets. Qed.
#[local] Hint Resolve preserves_StopRequested preserves_GetGlobalTime : sim_safe.

Lemma safe_World_SleepUntil h t token : safe I (World_SleepUntil (wake_up_time h t) token).
Proof. unfold World_SleepUntil. solve_safe. Qed.
Lemma safe_World_SleepFor token : safe I (World_SleepUntil (after GetRpcDelay) token).
Proof. unfold World_SleepUntil. solve_safe. Qed.
#[local] Hint Resolve safe_World_SleepUntil safe_World_SleepFor : sim_safe.

Lemma safe_Host_SleepUntil h t token : safe I (Host_SleepUntil h t token).
Proof. unfold Host_SleepUntil. solve_safe. Qed.
#[local] Hint Resolve safe_Host_SleepUntil : sim_safe.

Lemma safe_RegisterServer h server port : safe I (RegisterServer h server port).
Proof. unfold RegisterServer. solve_safe. Qed.
Lemma safe_UnregisterServer h port : safe I (UnregisterServer h port).
Proof. unfold UnregisterServer. solve_safe. Qed.
#[local] Hint Resolve safe_RegisterServer safe_UnregisterServer : sim_safe.

Lemma safe_RunMain h : safe I (RunMain h).
Proof. unfold RunMain. solve_safe. Qed.
#[local] Hint Resolve safe_RunMain : sim_safe.

Lemma safe_Host_StartHost h : safe I (Host_StartHost h).
Proof. unfold Host_StartHost. solve_safe. Qed.
#[local] Hint Resolve safe_Host_StartHost : sim_safe.

Lemma preserves_GetRandomDuration interval : preserves I (GetRandomDuration interval).
Proof. apply preserves_int. Qed.
Lemma preserves_ShouldMakeNetworkError : preserves I ShouldMakeNetworkError.
Proof. unfold ShouldMakeNetworkError. solve_safe. Qed.
Lemma preserves_GetHost addr : preserves I (GetHost addr).
Proof. unfold GetHost. solve_safe. Qed.
Lemma preserves_link_closed from to : preserves I (link_closed from to).
Proof. unfold link_closed. solve_safe. Qed.
#[local] Hint Resolve preserves_GetRandomDuration preserves_ShouldMakeNetworkError preserves_GetHost
  preserves_link_closed : sim_safe.

Lemma safe_Host_new addr main opts : safe I (Host_new addr main opts).
Proof. unfold Host_new. solve_safe. Qed.

Lemma preserves_worker_is_started server : preserves I (worker_is_started server).
Proof. unfold worker_is_started. solve_safe. Qed.
Lemma preserves_is_zero server : preserves I (is_zero server).
Proof. unfold is_zero. solve_safe. Qed.
#[local] Hint Resolve preserves_worker_is_started preserves_is_zero : sim_safe.

Lemma preserves_GetLocalTime h : preserves I (GetLocalTime h).
Proof. unfold GetLocalTime. solve_safe. Qed.
Lemma preserves_Host_KillHost h : preserves I (Host_KillHost h).
Proof. unfold Host_KillHost. solve_safe. Qed.
#[local] Hint Resolve safe_Host_new preserves_GetLocalTime preserves_Host_KillHost : sim_safe.

Lemma safe_RunSimulation duration count : safe I (RunSimulation duration count).
Proof.
  unfold RunSimulation. solve_safe. split; [|done]. intros n. solve_safe.
Qed.
#[local] Hint Resolve safe_RunSimulation : sim_safe.

Lemma basic_safe R (p : prog X R) : basic R p → safe I p.
Proof.
  destruct 1; unfold fiber_join, GetHostUniqueId, Now, SleepUntil, Server_Start, Server_Run,
    InitWorld, AddHost, PauseHost, ResumeHost, KillHost, StartHost, Host_PauseHost, Host_ResumeHost; solve_safe.
Qed.

Hypothesis HR : requests_preserve I.

Lemma safe_Server_ProcessRequest server data service handler :
  safe I (Server_ProcessRequest server data service handler).
Proof. unfold Server_ProcessRequest. solve_safe. Qed.
#[local] Hint Resolve safe_Server_ProcessRequest : sim_safe.

Lemma safe_Host_ProcessRequest h port data service handler :
  safe I (Host_ProcessRequest h port data service handler).
Proof. unfold Host_ProcessRequest. solve_safe. Qed.
#[local] Hint Resolve safe_Host_ProcessRequest : sim_safe.

Lemma safe_request_fiber e from endpoint data service handler token :
  safe I (request_fiber e from endpoint data service handler token).
Proof. unfold request_fiber. solve_safe. Qed.
#[local] Hint Resolve safe_request_fiber : sim_safe.

Lemma safe_World_MakeRequest from endpoint data service handler token :
  safe I (World_MakeRequest from endpoint data service handler token).
Proof. unfold World_MakeRequest. solve_safe. Qed.
#[local] Hint Resolve safe_World_MakeRequest : sim_safe.

Lemma safe_Host_MakeRequest h endpoint data service handler token :
  safe I (Host_MakeRequest h endpoint data service handler token).
Proof. unfold Host_MakeRequest. solve_safe. Qed.
#[local] Hint Resolve safe_Host_MakeRequest : sim_safe.

Lemma api_safe R (p : prog X R) : api R p → safe I p.
Proof.
  destruct 1; [by apply basic_safe|unfold Server_ShutDown, AwaitZero; solve_safe|unfold ClientBase_MakeRequest; solve_safe].
Qed.
End safe.

Lemma block_safe (I : sim X → Prop) A (m : M X A) :
  code_preserves I → (∀ v s, I s → I (with_vars v s)) → block A m → preserves I m.
Proof.
  intros Hcode Hvars. induction 1; unfold GetToken, Server_destroy, CloseLink, RestoreLink; solve_safe;
    eauto using preserves_bind, preserves_StopRequested, preserves_modify.
Qed.

Section invariants.
Variable I : sim X → Prop.
Hypothesis HI : runtime_preserves I.

Lemma block_preserves A (m : M X A) : block A m → preserves I m.
Proof. destruct HI as (Hcode & _ & Hvars). by apply block_safe. Qed.

Lemma clients_program_safe R (p : prog X R) : client R p → safe I p.
Proof. apply client_safe; [intros ? ?; apply api_safe; apply HI|apply block_preserves]. Qed.

Context (Main : ptr → prog X unit) (ProcessRequest : ptr → string → Data → prog X (Result Data RpcError)).

(** The hosts, the services and the test are client programs. *)
Record clients (test : prog X unit) : Prop := {
  cl_Main r : client _ (Main r);
  cl_ProcessRequest sv h d : client _ (ProcessRequest sv h d);
  cl_test : client _ test;
}.

Lemma clients_boot_safe x test : clients test → machine_ok I (λ _, True) (boot x test).
Proof. intros [_ _ Ht]. by apply boot_ok, clients_program_safe. Qed.

(** An invariant of the runtime holds from some moment on. *)
Lemma clients_invariant x test m1 m2 :
  stable I → clients test → reaches Main ProcessRequest (boot x test) (Running m1) → I (state m1) →
  reaches Main ProcessRequest m1 (Running m2) → I (state m2).
Proof.
  intros Hst [HMain HPR Ht]. apply programs_invariant; eauto using clients_program_safe.
Qed.

Lemma clients_reachable x test m :
  stable I → clients test → I (state (boot x test)) →
  reaches Main ProcessRequest (boot x test) (Running m) → I (state m).
Proof. intros Hst Hc Hi. apply (clients_invariant x test); [done|done|apply reaches_refl|done]. Qed.
End invariants.

(** Invariants that do not depend on the scheduler. *)
Lemma stable_props (I : sim X → Prop) f g : stable I → preserves I (set_props f g).
Proof. intros Hst. apply preserves_modify. intros s Hs. by apply (stable_scheduler I Hst). Qed.
End clients.
Arguments block {X} {A}.
Arguments basic {X} {R}.
Arguments api {X} {R}.
Arguments client {X} {R}.

(** Code and programs are split into what the interface has; the lemmas on
    further functions are in the database. *)
Create HintDb sim_client.

Ltac solve_block :=
  repeat match goal with
  | |- block (mbind _ _) => apply block_bind; [|intros ?]
  | |- block (mret _) => apply block_ret
  | |- block (match _ with _ => _ end) => case_match
  | |- block _ => solve [constructor | eauto 2 with sim_client]
  end.

Ltac solve_client :=
  repeat match goal with
  | |- client (mbind _ _) => apply client_bind; [|intros ?]
  | |- client (Ret _) => apply client_ret
  | |- client (fiber _ _) => apply client_fiber
  | |- client (Loop _ _ Ret) => apply client_loop; intros ?
  | |- client (match _ with _ => _ end) => case_match
  | |- client (atomic _) => apply client_atomic; solve_block
  | |- client _ => solve [apply client_api; first [constructor; done | apply api_basic; constructor; done] | eauto 2 with sim_client]
  end.

Section derived.
Context {X : Type}.

Lemma block_verify c msg : block (M_verify (X := X) c msg).
Proof. apply block_lift. Qed.
Lemma block_GetRandomDuration i : block (GetRandomDuration (X := X) i).
Proof. apply block_int. Qed.
#[local] Hint Resolve block_verify : sim_client.

Lemma client_SleepFor d token : client (X := X) (SleepFor d token).
Proof. unfold SleepFor. solve_client. Qed.

Lemma client_MakeRequest `{ProtoMessage Request} `{ProtoMessage Response} endpoint request service handler token :
  client (X := X) (MakeRequest (Req := Request) (Rsp := Response) endpoint request service handler token).
Proof. unfold MakeRequest. solve_client. Qed.

Lemma client_while condition body : client (X := X) condition → client body → client (while condition body).
Proof. intros Hc Hb. unfold while. solve_client; done. Qed.
End derived.
#[export] Hint Resolve block_verify block_GetRandomDuration client_SleepFor client_MakeRequest : sim_client.

(** ** Invariants about fibers, variables or calls

    The rest of the state does not matter for such an invariant. *)

Section quiet.
Context {X : Type}.
Variable I : sim X → Prop.

Record quiet : Prop := {
  quiet_allocate : preserves I allocate;
  quiet_notify cv : preserves I (notify_all cv);
  quiet_other s s' :
    ready_fibers (scheduler s) = ready_fibers (scheduler s') → main_fiber (scheduler s) = main_fiber (scheduler s') →
    waiters s = waiters s' → next_ptr s = next_ptr s' → vars s = vars s' → history s = history s' → I s → I s';
  quiet_record c : call_fiber c = None → preserves I (record_call c);
}.
Hypothesis HI : quiet.

Lemma quiet_modify (g : sim X → sim X) :
  (∀ s, ready_fibers (scheduler s) = ready_fibers (scheduler (g s)) ∧
        main_fiber (scheduler s) = main_fiber (scheduler (g s)) ∧ waiters s = waiters (g s) ∧
        next_ptr s = next_ptr (g s) ∧ vars s = vars (g s) ∧ history s = history (g s)) →
  preserves I (modify g).
Proof. intros Hg. apply preserves_modify. intros s. destruct (Hg s) as (? & ? & ? & ? & ? & ?). by apply quiet_other. Qed.

Ltac quiet_leaf :=
  first [ apply quiet_notify, HI | apply quiet_allocate, HI | by apply (quiet_record HI) | by apply quiet_modify ].

Lemma quiet_Signal e : preserves I (Event_Signal e).
Proof. unfold Event_Signal. split_code quiet_leaf. Qed.

Lemma quiet_callback Stop c : (∀ source, preserves I (Stop source)) → preserves I (run_callback Stop c).
Proof.
  intros HStop. destruct c; unfold run_callback; split_code ltac:(first [apply HStop | apply quiet_Signal | quiet_leaf]).
Qed.

Lemma quiet_Stop source : preserves I (StopSource_Stop source).
Proof.
  unfold StopSource_Stop. generalize 16%nat as depth. intros depth. revert source.
  induction depth as [|depth IH]; intros source; simpl; [apply preserves_lift|].
  assert (Hloop : ∀ p cs, preserves I (Stop_loop (Stop_nested depth) p cs)).
  { intros p. induction cs as [|c cs IHcs]; simpl; [apply preserves_ret|].
    split_code ltac:(first [exact IHcs | by apply quiet_callback | quiet_leaf]). }
  split_code ltac:(first [apply Hloop | quiet_leaf]).
Qed.

Lemma quiet_callback_new token c : preserves I (StopCallback_new token c).
Proof. unfold StopCallback_new. split_code ltac:(first [apply quiet_callback, quiet_Stop | quiet_leaf]). Qed.

Ltac quiet_code :=
  first
    [ quiet_leaf | apply quiet_Stop
    | unfold World_AddHost, Initialize, SleepUntil_begin, wake_up_time, after, GetRpcDelay, GetRandomDuration,
        GetGlobalTime, Event_new, Event_destroy, StopCallback_destroy, StopSource_new,
        StopSource_assign, new_state, new_event, signal_event, own_event, signal_on_stop, stop_on_stop, Server_new, Server_Register,
        Start_begin, update_server, Run_begin, LatchGuard_new, LatchGuard_destroy,
        ShutDown_begin, ShutDown_end, MakeRequest_begin, set_result, fire, RunSimulation_end;
      split_code ltac:(first [apply quiet_Signal | apply quiet_callback_new | quiet_leaf]) ].

Lemma quiet_requests : (∀ c, preserves I (record_call c)) → requests_preserve I.
Proof. intros Hrec. split; intros; first [apply Hrec | unfold LatchGuard_new, LatchGuard_destroy, ShutDown_end, update_server;
  split_code ltac:(first [apply Hrec | apply quiet_Signal | quiet_leaf])]. Qed.

Lemma quiet_runtime : code_preserves I.
Proof.
  split; try (intros v s; by apply (quiet_other HI)); intros; quiet_code.
Qed.
End quiet.

Section vars.
Context {X : Type}.
Variable P : X → Prop.

Lemma vars_stable : stable (λ s : sim X, P (vars s)).
Proof. split; [done..|]. intros f s a s' HI Hd. by code_inv. Qed.

(** The runtime does not access the variables of the programs. *)
Lemma vars_quiet : quiet (λ s : sim X, P (vars s)).
Proof. split; [apply vars_stable|intros; apply preserves_notify_all, vars_stable|by intros s s' _ _ _ _ ->|by intros; apply preserves_modify]. Qed.

Lemma vars_runtime : code_preserves (λ s : sim X, P (vars s)).
Proof. apply quiet_runtime, vars_quiet. Qed.

Lemma vars_requests : requests_preserve (λ s : sim X, P (vars s)).
Proof. apply quiet_requests; [apply vars_quiet|by intros; apply preserves_modify]. Qed.
End vars.

(** ** The simulated time *)

Section time.
Context {X : Type}.

Definition earlier (a b : Z * ptr) : Prop := a.1 ≤ b.1.

Definition simulations (h : list call) : nat := length (filter (λ c, c = SimulationEnded) h).

(** Events of the queue are in the future and sorted; since some moment, when
    [n] simulations had ended and the time was [t0], the time has not gone back
    or a simulation has ended. *)
Record time_ok (t0 : Z) (n : nat) (w : World) (h : list call) : Prop := {
  to_sorted : StronglySorted earlier (events_queue w);
  to_future te : te ∈ events_queue w → current_time w ≤ te.1;
  to_options : options_ok (options w);
  to_count : (n ≤ simulations h)%nat;
  to_since : t0 ≤ current_time w ∨ (n < simulations h)%nat;
}.

Definition time_inv t0 n (s : sim X) : Prop := time_ok t0 n (world s) (history s).

Lemma insert_sorted ts e q :
  StronglySorted earlier q → StronglySorted earlier (multimap_insert ts e q).
Proof.
  induction q as [|[ts' e'] q IH]; intros Hs; simpl; [repeat constructor|].
  apply StronglySorted_inv in Hs as [Hs Hall]. case_decide as Hle.
  - constructor; [by apply IH|]. apply Forall_forall. intros b [->|Hb]%elem_of_multimap_insert; [done|].
    by eapply Forall_forall in Hall.
  - constructor; [by constructor|]. constructor; [unfold earlier; simpl; lia|].
    eapply Forall_impl; [exact Hall|]. unfold earlier. simpl. intros b ?. lia.
Qed.

Lemma sorted_filter (P : Z * ptr → Prop) `{∀ x, Decision (P x)} q :
  StronglySorted earlier q → StronglySorted earlier (filter P q).
Proof.
  induction 1 as [|a q Hs IH Hall]; [constructor|]. rewrite filter_cons. case_decide; [|done].
  constructor; [done|]. apply Forall_forall. intros b [_ Hb]%list_elem_of_filter. by eapply Forall_forall in Hall.
Qed.

Context (t0 : Z) (n : nat).
Local Abbreviation I := (time_inv t0 n).

Lemma time_stable : stable I.
Proof. split; [done..|]. intros f s a s' HI Hd. by code_inv. Qed.

Lemma simulations_cons c h : (simulations h ≤ simulations (c :: h))%nat.
Proof. unfold simulations. rewrite filter_cons. case_decide; simpl; lia. Qed.

Lemma time_record c : preserves I (record_call c).
Proof.
  apply preserves_modify. intros s [Hs Hf Ho Hn Ht]. pose proof (simulations_cons c (history s)).
  split; simpl; [done..|lia|]. destruct Ht as [?|?]; [by left|right; lia].
Qed.

Lemma time_Signal e : preserves I (Event_Signal e).
Proof.
  apply preserves_bind; [apply preserves_deref|]. intros b.
  apply preserves_bind; [by apply preserves_modify|]. intros _. apply preserves_notify_all, time_stable.
Qed.

Lemma time_callback Stop c : (∀ source, preserves I (Stop source)) → preserves I (run_callback Stop c).
Proof.
  intros HStop. destruct c as [e|e|cb source]; [|apply time_Signal|apply HStop].
  intros f s a s' HI Hd. unfold run_callback in Hd. code_inv. eapply time_Signal; [|done].
  destruct HI as [Hs Hf Ho Hn Ht]. split; simpl; [by apply sorted_filter| |done..].
  intros te [_ Hte]%list_elem_of_filter. by apply Hf.
Qed.

Lemma time_Stop source : preserves I (StopSource_Stop source).
Proof.
  unfold StopSource_Stop. generalize 16%nat as depth. intros depth. revert source.
  induction depth as [|depth IH]; intros source; [apply preserves_lift|].
  assert (Hloop : ∀ p cs, preserves I (Stop_loop (Stop_nested depth) p cs)).
  { intros p. induction cs as [|c cs IHcs]; [apply preserves_ret|].
    apply preserves_bind; [by apply time_callback|]. intros _.
    apply preserves_bind; [by apply preserves_modify|]. intros _. exact IHcs. }
  apply preserves_bind; [apply preserves_deref|]. intros p. apply preserves_bind; [apply preserves_deref|]. intros st.
  apply preserves_bind; [by apply preserves_modify|]. intros _. apply Hloop.
Qed.

Lemma time_callback_new token c : preserves I (StopCallback_new token c).
Proof.
  destruct token as [p|]; [|apply preserves_ret]. apply preserves_bind; [apply preserves_deref|]. intros st.
  destruct (cancelled st); [apply time_callback, time_Stop|by apply preserves_modify].
Qed.

(** A sleep ends now or later. *)
Lemma time_sleep (wt : M X Z) token :
  (∀ f s t s', I s → drawn (wt f s) (Done (t, s')) → s' = s ∧ current_time (world s) ≤ t) →
  preserves I (t ← wt; e ← SleepUntil_begin t token; mret (t, e)).
Proof.
  intros Hwt f s a s' HI Hd. unfold SleepUntil_begin, Event_new in Hd. code_inv.
  match goal with H : drawn (wt _ _) _ |- _ => destruct (Hwt _ _ _ _ HI H) as [-> Hle] end.
  eapply time_callback_new; [|done]. destruct HI as [Hs Hf Ho Hn Ht]. split; simpl; [by apply insert_sorted| |done..].
  intros te [->|Hte]%elem_of_multimap_insert; [done|by apply Hf].
Qed.

Lemma time_update_server server g : preserves I (update_server server g).
Proof. apply preserves_bind; [apply preserves_deref|]. intros sv. by apply preserves_modify. Qed.

Lemma time_fire duration count : preserves I (fire duration count).
Proof.
  intros f s a s' HI Hd. unfold fire in Hd. code_inv.
  destruct (events_queue (world s)) as [|[ts e] rest] eqn:Hq; [by code_inv|]. code_inv; [|done].
  eapply time_Signal; [|done]. destruct HI as [Hs Hf Ho Hn Ht]. rewrite Hq in Hs, Hf.
  apply StronglySorted_inv in Hs as [Hs Hall]. pose proof (Hf (ts, e) ltac:(left)) as Hle. simpl in Hle.
  split; simpl; [done| |done|done|].
  - intros te Hte. by eapply Forall_forall in Hall.
  - destruct Ht as [?|?]; [left; lia|by right].
Qed.

Lemma time_end : preserves I RunSimulation_end.
Proof.
  intros f s a s' HI Hd. unfold RunSimulation_end, record_call in Hd. code_inv. destruct HI as [Hs Hf Ho Hn Ht].
  assert (Hc : simulations (SimulationEnded :: history s) = S (simulations (history s))) by done.
  split; simpl; [constructor|intros te Hte; by apply not_elem_of_nil in Hte|done|lia|right; lia].
Qed.
End time.

(** The pieces of code that are treated above; all other code leaves the time
    and the queue alone. *)
Ltac time_leaf :=
  first
    [ apply time_record | apply time_Signal | apply time_callback_new | apply time_update_server
    | apply preserves_notify_all, time_stable | by apply preserves_modify
    | apply (stable_allocate _ (time_stable _ _)) ].

Lemma time_requests {X} t0 n : requests_preserve (time_inv (X := X) t0 n).
Proof. split; intros; unfold LatchGuard_new, LatchGuard_destroy, ShutDown_end; split_code time_leaf. Qed.

Lemma time_runtime {X} t0 n : runtime_preserves (time_inv (X := X) t0 n).
Proof.
  split; [|split; [by apply time_requests|done]]. split; try done; try by (intros; unfold Event_destroy, StopSource_new, StopSource_assign, new_state, new_event, signal_event, own_event,
    signal_on_stop, stop_on_stop, Server_new, Event_new, Server_Register,
    Start_begin, Run_begin, ShutDown_begin,
    MakeRequest_begin, set_result, StopCallback_destroy; split_code time_leaf).
  - by intros v s [].
  - intros addr h f s a s' HI Hd. unfold World_AddHost in Hd. code_inv. by destruct HI.
  - intros seed opts Hopts. apply preserves_modify. by intros s [].
  - intros h t token. apply time_sleep. intros f s t' s' _ Hd. unfold wake_up_time, GetGlobalTime in Hd. code_inv.
    split; [done|]. match goal with H : verify _ _ = Done _ |- _ => by apply verify_Done, bool_decide_eq_true in H end.
  - intros token. apply time_sleep. intros f s t' s' HI Hd.
    unfold after, GetGlobalTime, GetRpcDelay, GetRandomDuration in Hd. code_inv;
      (split; [done|]); destruct (to_options _ _ _ _ HI); unfold i64 in *; case_decide; simplify_eq; lia.
  - apply time_Stop.
  - apply time_fire.
  - apply time_end.
Qed.

(** [C19] The simulated time never goes back: whatever the simulated programs
    do, from any moment of a simulation to any later moment of it the time does
    not decrease; the events of the queue are sorted and none is in the past, so
    the loop of [RunSimulation] wakes the earliest sleeper and its check holds. *)
Theorem simulated_time_never_goes_back {X} Main ProcessRequest (x : X) test m1 m2 :
  clients Main ProcessRequest test →
  reaches Main ProcessRequest (boot x test) (Running m1) →
  reaches Main ProcessRequest m1 (Running m2) →
  simulations (history (state m2)) = simulations (history (state m1)) →
  current_time (world (state m1)) ≤ current_time (world (state m2)) ∧
  StronglySorted earlier (events_queue (world (state m2))) ∧
  (∀ te, te ∈ events_queue (world (state m2)) → current_time (world (state m2)) ≤ te.1).
Proof.
  intros Hc H1 H2 Hn.
  assert (Hi1 : time_inv 0 0 (state m1)).
  { apply (clients_reachable _ (time_runtime 0 0) Main ProcessRequest x test); [apply time_stable|done| |done].
    split; simpl; [constructor|intros te Hte; by apply not_elem_of_nil in Hte|done|lia|by left]. }
  set (t1 := current_time (world (state m1))). set (n1 := simulations (history (state m1))).
  assert (Hi2 : time_inv t1 n1 (state m2)).
  { apply (clients_invariant _ (time_runtime t1 n1) Main ProcessRequest x test m1); [apply time_stable|done..| |done].
    destruct Hi1 as [Hs Hf Ho _ _]. split; [done..|unfold n1; lia|left; unfold t1; lia]. }
  destruct Hi2 as [Hs Hf _ _ Ht]. split_and!; [unfold n1 in Ht; lia|done..].
Qed.
