(* ===== verification/SimFiberSafety.v ===== *)
(** * No fiber is lost

    Every suspended fiber is ready to run, or waits for one condition variable;
    no fiber is at two places. For all client programs of the simulator. *)

From S2P Require Import Prelude.
From S2P Require Import Result.
From S2P Require Import RtTypes.
From S2P Require Import Serde.
From S2P Require Import SimTime.
From S2P Require Import SimScheduler.
From S2P Require Import SimFibers.
From S2P Require Import SimRuntime.
From S2P Require Import SimFibersProps.
From S2P Require Import SimClients.

Local Open Scope Z_scope.

(** ** Where fibers are *)

(** The fibers that wait for some condition variable. *)
Definition waiting (ws : gmap ptr (list ptr)) : list ptr := mjoin (map_to_list ws).*2.

(** The ready fibers and the waiting ones. *)
Definition places {X} (s : sim X) : list ptr := tracked (scheduler s) ++ waiting (waiters s).

Lemma waiting_delete cv ws : waiting ws ≡ₚ default [] (ws !! cv) ++ waiting (delete cv ws).
Proof.
  destruct (ws !! cv) as [l|] eqn:Hl; simpl; [|by rewrite delete_id].
  unfold waiting. by rewrite <-(map_to_list_delete _ _ _ Hl).
Qed.

Lemma waiting_insert cv f ws : waiting (<[cv := default [] (ws !! cv) ++ [f]]> ws) ≡ₚ f :: waiting ws.
Proof.
  rewrite (waiting_delete cv (<[_ := _]> ws)), (waiting_delete cv ws), lookup_insert_eq, delete_insert_eq. simpl.
  rewrite <-(assoc_L (++)). simpl. by rewrite Permutation_middle.
Qed.

(** ** The code of the runtime *)

Section code.
Context {X : Type}.
Context (L : list ptr) (n : ptr).

(** Code wakes waiting fibers but adds and removes none. *)
Definition places_inv (s : sim X) : Prop := places s ≡ₚ L ∧ (n ≤ next_ptr s)%positive.

Lemma wake_places f b g (s : sim X) a s' :
  drawn (wake f b g s) (Done (a, s')) →
  places s' ≡ₚ f :: places s ∧ next_ptr s' = next_ptr s ∧ waiters s' = waiters s.
Proof.
  intros Hd. unfold wake in Hd. code_inv. split_and!; [|done..]. unfold places. simpl.
  match goal with H : awakened _ _ _ = _ |- _ => by rewrite (awakened_tracked _ _ _ _ H) end.
Qed.

Lemma wake_all_places fs g (s : sim X) a s' :
  drawn (wake_all fs g s) (Done (a, s')) → places s' ≡ₚ fs ++ places s ∧ next_ptr s' = next_ptr s.
Proof.
  revert s. induction fs as [|f fs IH]; intros s Hd; simpl in Hd; [by code_inv|]. code_inv.
  match goal with H : drawn (wake _ _ _ _) _ |- _ => apply wake_places in H as (Hp1 & Hn1 & _) end.
  match goal with H : drawn (wake_all _ _ _) _ |- _ => apply IH in H as [Hp2 Hn2] end.
  split; [|congruence]. rewrite Hp2, Hp1. simpl. by rewrite Permutation_middle.
Qed.

Lemma places_notify cv : preserves places_inv (notify_all cv).
Proof.
  intros f s a s' [Hp Hn] Hd. unfold notify_all in Hd. code_inv.
  match goal with H : drawn (wake_all _ _ _) _ |- _ => apply wake_all_places in H as [Hp2 Hn2] end. simpl in Hn2.
  split; [|by rewrite Hn2]. rewrite Hp2, <-Hp. unfold places. simpl. rewrite (waiting_delete cv (waiters s)).
  by rewrite !(assoc_L (++)), (Permutation_app_comm (default [] _)).
Qed.

Lemma places_allocate : preserves places_inv allocate.
Proof. intros f s a s' [Hp Hn] Hd. code_inv. split; [done|]. simpl. lia. Qed.

Lemma places_quiet : quiet places_inv.
Proof.
  split; [apply places_allocate|apply places_notify| |by intros; apply preserves_modify].
  intros s s' Hs Hm Hw Hn _ _ [Hp Hle]. unfold places_inv, places, tracked in *. by rewrite <-Hs, <-Hm, <-Hw, <-Hn.
Qed.

Lemma places_runtime : runtime_preserves places_inv.
Proof. split_and!; [apply quiet_runtime, places_quiet|apply quiet_requests; [apply places_quiet|by intros; apply preserves_modify]|done]. Qed.
End code.

(** ** The machine *)

Section machine.
Context {X : Type}.
Context (Main : ptr → prog X unit) (ProcessRequest : ptr → string → Data → prog X (Result Data RpcError)).

Record fibers_ok (m : machine X) : Prop := {
  fo_nodup : NoDup (current m :: places (state m));
  fo_places f : f ∈ places (state m) ↔ f = dispatcher ∨ f ∈ dom (fibers m);
  fo_fresh f : f ∈ current m :: places (state m) → (f < next_ptr (state m))%positive;
  fo_dispatcher : dispatcher ∉ dom (fibers m);
}.

Lemma pick_places g (s : sim X) ctx s' :
  drawn (pick g s) (Done (ctx, s')) → places s ≡ₚ ctx :: places s' ∧ next_ptr s' = next_ptr s.
Proof.
  intros Hd. unfold pick in Hd. apply M_bind_drawn in Hd as (sched & s1 & Hg & Hd). code_inv.
  assert (x0 = s) as ->.
  { match goal with H : drawn ((match ready_fibers _ with _ => _ end) _ _) _ |- _ => destruct (ready_fibers _); by code_inv end. }
  split; [|done]. unfold places. simpl.
  match goal with H : pick_next _ _ = _ |- _ => by rewrite (pick_next_tracked _ _ _ _ H) end.
Qed.

(** The next fiber leaves the places, a yielding one joins them. *)
Lemma switch_places y g (s : sim X) ctx s' :
  NoDup (option_list y ++ places s) → drawn (switch y g s) (Done (ctx, s')) →
  option_list y ++ places s ≡ₚ ctx :: places s' ∧ ctx ≠ dispatcher ∧ next_ptr s' = next_ptr s.
Proof.
  intros Hnd Hd. unfold switch in Hd. apply M_bind_drawn in Hd as (c1 & s1 & H1 & Hd).
  apply pick_places in H1 as [Hp1 Hn1]. apply M_bind_drawn in Hd as (u & s2 & H2 & Hd).
  assert (Hp2 : places s2 ≡ₚ option_list y ++ places s1 ∧ next_ptr s2 = next_ptr s1).
  { destruct y as [f|]; [by apply wake_places in H2 as (? & ? & _)|by code_inv]. }
  clear H2. destruct Hp2 as [Hp2 Hn2]. rewrite Hp1, <-Permutation_middle in Hnd. rewrite Hp1, <-Permutation_middle.
  apply NoDup_cons in Hnd as [Hno Hnd]. case_decide as Hdisp.
  - subst c1. apply M_bind_drawn in Hd as (c2 & s3 & H3 & Hd). apply pick_places in H3 as [Hp3 Hn3].
    apply M_bind_drawn in Hd as (u' & s4 & H4 & Hd). apply wake_places in H4 as (Hp4 & Hn4 & _). code_inv.
    split_and!; [|intros ->|congruence].
    + rewrite Hp4, <-Hp2, Hp3. apply perm_swap.
    + apply Hno. rewrite <-Hp2, Hp3. by left.
  - code_inv. split_and!; [by rewrite Hp2|done|congruence].
Qed.

Lemma suspend_fibers y self fs (s : sim X) m :
  NoDup (option_list y ++ places s) →
  (∀ f, f ∈ option_list y ++ places s ↔ f = dispatcher ∨ f ∈ dom fs) →
  (∀ f, f ∈ option_list y ++ places s → (f < next_ptr s)%positive) → dispatcher ∉ dom fs →
  drawn (suspend y self fs s) (Running m) → fibers_ok m.
Proof.
  intros Hnd Hdom Hlt Hdisp Hd. unfold suspend in Hd. apply drawn_bind in Hd as ([[ctx s']|msg|w] & Hsw & Hd);
    [|by apply drawn_Drawn in Hd..].
  destruct (switch_places y self s ctx s' Hnd Hsw) as (Hp & Hne & Hn).
  destruct (fs !! ctx) as [p|] eqn:Hctx; [|by apply drawn_Drawn in Hd]. apply drawn_Drawn in Hd as [= <-].
  assert (Hnd' : NoDup (ctx :: places s')) by (by rewrite <-Hp).
  split; simpl; [done| | |set_solver].
  - intros f. apply NoDup_cons in Hnd' as [Hno _]. rewrite dom_delete_L, elem_of_difference, elem_of_singleton.
    pose proof (Hdom f) as Hf. rewrite Hp, elem_of_cons in Hf. split.
    + intros Hin. assert (f ≠ ctx) by (by intros ->). naive_solver.
    + intros [->|[Hin Hfc]]; [destruct Hf as [_ [|]]; [by left|congruence|done]|naive_solver].
  - intros f. rewrite <-Hp, Hn. apply Hlt.
Qed.

(** Code of a fiber keeps everyone in place. *)
Lemma places_code {A} (c : M X A) self s a s' :
  (∀ L n, preserves (places_inv L n) c) → drawn (c self s) (Done (a, s')) →
  places s' ≡ₚ places s ∧ (next_ptr s ≤ next_ptr s')%positive.
Proof. intros Hc Hd. by apply (Hc (places s) (next_ptr s) self s a). Qed.

Lemma execute_running {A} (c : M X A) self s next (m : machine X) :
  drawn (execute c self s next) (Running m) →
  ∃ a s', drawn (c self s) (Done (a, s')) ∧ drawn (next a s') (Running m).
Proof.
  intros Hd. unfold execute in Hd. apply drawn_bind in Hd as ([[a s']|msg|w] & Hc & Hd); [eauto|by apply drawn_Drawn in Hd..].
Qed.

Lemma fibers_ok_perm (m : machine X) p s' :
  fibers_ok m → places s' ≡ₚ places (state m) → (next_ptr (state m) ≤ next_ptr s')%positive →
  fibers_ok (MkMachine (current m) p (fibers m) s').
Proof.
  intros [Hnd Hpl Hfr Hdi] Hp Hn. split; simpl; [by rewrite Hp|by intros f; rewrite Hp| |done].
  intros f. rewrite Hp. intros Hf%Hfr. lia.
Qed.

Lemma current_not_dispatcher m : fibers_ok m → dispatcher ≠ current m.
Proof.
  intros [Hnd Hpl _ _] Heq. apply NoDup_cons in Hnd as [Hself _]. apply Hself. rewrite <-Heq. apply Hpl. by left.
Qed.

(** The running fiber is suspended: it becomes ready or waits. *)
Lemma suspend_self y m p s' m' :
  fibers_ok m → option_list y ++ places s' ≡ₚ current m :: places (state m) →
  (next_ptr (state m) ≤ next_ptr s')%positive →
  drawn (suspend y (current m) (<[current m := p]> (fibers m)) s') (Running m') → fibers_ok m'.
Proof.
  intros Hok Hp Hn Hd. pose proof (current_not_dispatcher m Hok). destruct Hok as [Hnd Hpl Hfr Hdi].
  eapply suspend_fibers; [..|exact Hd].
  - by rewrite Hp.
  - intros f. rewrite Hp, elem_of_cons, dom_insert_L, Hpl. set_solver.
  - intros f. rewrite Hp. intros Hf%Hfr. lia.
  - rewrite dom_insert_L. set_solver.
Qed.

(** A new fiber, and either it or the one that started it becomes ready. *)
Lemma fork_fibers m s' new ready p q :
  fibers_ok m → (new, ready) = (current m, next_ptr (state m)) ∨ (new, ready) = (next_ptr (state m), current m) →
  places s' ≡ₚ ready :: places (state m) → next_ptr s' = Pos.succ (next_ptr (state m)) →
  fibers_ok (MkMachine new p (<[ready := q]> (fibers m)) s').
Proof.
  intros Hok Hcase Hp Hn. pose proof (current_not_dispatcher m Hok) as Hdisp. destruct Hok as [Hnd Hpl Hfr Hdi].
  assert (Hnext : next_ptr (state m) ∉ current m :: places (state m)).
  { intros Hin%Hfr. lia. }
  assert (Hperm : new :: places s' ≡ₚ next_ptr (state m) :: current m :: places (state m)).
  { rewrite Hp. destruct Hcase as [[= -> ->]|[= -> ->]]; [apply perm_swap|done]. }
  assert (Hne : dispatcher ≠ ready).
  { destruct Hcase as [[= -> ->]|[= -> ->]]; [|done]. intros Heq. apply Hnext. rewrite <-Heq. right. apply Hpl. by left. }
  split; simpl.
  - rewrite Hperm. by apply NoDup_cons.
  - intros f. rewrite Hp, elem_of_cons, dom_insert_L, Hpl. set_solver.
  - intros f. rewrite Hperm, Hn, elem_of_cons. intros [->|Hf%Hfr]; lia.
  - rewrite dom_insert_L. set_solver.
Qed.

Lemma step_fibers m m' :
  fibers_ok m → (∀ L n, machine_ok (places_inv L n) (λ _, True) m) →
  drawn (step Main ProcessRequest m) (Running m') → fibers_ok m'.
Proof.
  intros Hok Hsafe Hd.
  assert (Hcode : ∀ L n, safe (places_inv L n) (code m)) by (intros; by destruct (Hsafe L n)). clear Hsafe.
  unfold step in Hd. destruct (code m) as [r|A c k|k|cv pred k|S T body s k|pol body k|r k|server sv h d k]; simpl in Hcode;
    try by (apply drawn_Drawn in Hd as [= <-]; apply fibers_ok_perm).
  - case_decide; [by apply drawn_Drawn in Hd|]. apply execute_running in Hd as (u & s' & Hc & Hd).
    apply places_code in Hc as [Hp Hn].
    2:{ intros L n. apply preserves_bind; [by apply preserves_modify|]. intros _. apply places_notify. }
    destruct Hok as [Hnd Hpl Hfr Hdi]. apply NoDup_cons in Hnd as [_ Hnd].
    eapply suspend_fibers; [..|exact Hd]; simpl; [by rewrite Hp|by intros f; rewrite Hp| |done].
    intros f. rewrite Hp. intros Hf. specialize (Hfr f ltac:(by right)). lia.
  - apply execute_running in Hd as (a & s' & Hc & Hd). apply drawn_Drawn in Hd as [= <-].
    apply places_code in Hc as [Hp Hn]; [by apply fibers_ok_perm|]. intros L n. by destruct (Hcode L n).
  - refine (suspend_self (Some (current m)) _ _ _ _ Hok _ _ Hd); [done|lia].
  - apply execute_running in Hd as (b & s' & Hc & Hd).
    apply places_code in Hc as [Hp Hn]; [|intros L n; by destruct (Hcode L n)].
    destruct b; [apply drawn_Drawn in Hd as [= <-]; by apply fibers_ok_perm|].
    refine (suspend_self None _ _ _ _ Hok _ _ Hd); [|exact Hn]. simpl. rewrite <-Hp. unfold places, wait_on. simpl.
    rewrite waiting_insert. by rewrite Permutation_middle.
  - destruct pol; apply execute_running in Hd as (f & s' & Hc & Hd); apply drawn_Drawn in Hd as [= <-];
      apply M_bind_drawn in Hc as (f' & s1 & Ha & Hc); apply M_bind_drawn in Hc as (u & s2 & Hw & Hc);
      code_inv; apply wake_places in Hw as (Hp & Hn & _); eapply fork_fibers; eauto.
Qed.

Lemma reaches_fibers x test m :
  clients Main ProcessRequest test → reaches Main ProcessRequest (boot x test) (Running m) → fibers_ok m.
Proof.
  intros Hc Hr. pose proof (λ L n, clients_boot_safe (places_inv L n) (places_runtime L n) Main ProcessRequest x test Hc) as Hsafe.
  assert (Hok : fibers_ok (boot x test)).
  { split; simpl; [|intros f; unfold places, waiting; simpl; rewrite map_to_list_empty, dom_empty_L; set_solver
                   |intros f; unfold places, waiting; simpl; rewrite map_to_list_empty|by rewrite dom_empty_L].
    - unfold places, waiting. simpl. rewrite map_to_list_empty. apply (bool_decide_unpack (NoDup _)). by vm_compute.
    - rewrite !elem_of_cons, elem_of_nil. unfold main_fiber_ptr, dispatcher. intros [->|[->|[]]]; lia. }
  revert Hok Hsafe Hr. generalize (boot x test) as m0. intros m0 Hok Hsafe Hr.
  remember (Running m) as st eqn:Hst. revert m Hst Hok Hsafe.
  induction Hr as [m0|m0 m1 st Hd _ IH|m0 st Hd]; intros m Hst Hok Hsafe; subst; [by simplify_eq| |by eapply step_fibers].
  apply IH; [done|by eapply step_fibers|]. intros L n. destruct Hc as [HMain HPR _].
  eapply (reaches_safe (places_inv L n)); [..|by apply Hsafe|by apply reaches_last];
    eauto using clients_program_safe, places_runtime.
Qed.
End machine.

(** [C21] No fiber is lost and none is at two places: in every state that
    the simulated programs reach, each suspended fiber is exactly once among
    the ready fibers of the scheduler and the fibers that wait for condition
    variables, the running one is not among them, and apart from the dispatcher
    of Boost they contain nothing else: whatever is picked or notified next is
    a fiber that exists and does not run. *)
Theorem no_fiber_is_lost {X} Main ProcessRequest (x : X) test m :
  clients Main ProcessRequest test →
  reaches Main ProcessRequest (boot x test) (Running m) →
  NoDup (current m :: places (state m)) ∧
  (∀ f, f ∈ places (state m) ↔ f = dispatcher ∨ is_Some (fibers m !! f)) ∧
  fibers m !! dispatcher = None.
Proof.
  intros Hc Hr. destruct (reaches_fibers Main ProcessRequest x test m Hc Hr) as [Hnd Hpl _ Hdi].
  split_and!; [done| |by apply not_elem_of_dom]. intros f. by rewrite Hpl, elem_of_dom.
Qed.
