(* ===== verification/SimServer.v ===== *)
(** * The waits of the simulated RPC server

    The server of src/runtime/simulator/rpc_server.cpp counts the requests it
    has accepted in a latch, lets a request wait until a worker has called
    [Run], and lets [ShutDown] wait until the latch is zero. The invariant below
    ties the latch and the events of the servers to the history of the machine,
    in which the machine itself records the calls of handlers and their
    returns; it holds for all client programs (SimClients.v).

    Some code keeps the invariant only where it stands: a handler may be called
    only after the wait for a worker, the guard of the latch may be released
    only after the handler has returned, and [ShutDown] may end only after its
    wait. [wp] follows the program of a fiber with what is known at each point:
    the current state up to the next suspension, and the calls of the fiber
    itself across suspensions, since no other fiber adds to them. *)

From S2P Require Import Prelude.
From S2P Require Import Result.
From S2P Require Import RtTypes.
From S2P Require Import Serde.
From S2P Require Import SimTime.
From S2P Require Import SimScheduler.
From S2P Require Import SimFibers.
From S2P Require Import SimRuntime.
From S2P Require Import SimFibersProps.
From S2P Require Import SimClients.
From S2P Require Import SimFiberSafety.

Local Open Scope Z_scope.

(** ** The history of a server *)

Definition is_began (server : ptr) (c : call) : bool :=
  match c with Began sv _ => bool_decide (sv = server) | _ => false end.
Definition is_answered (server : ptr) (c : call) : bool :=
  match c with Answered sv _ => bool_decide (sv = server) | _ => false end.
Definition is_handled (server : ptr) (c : call) : bool :=
  match c with Handled sv _ => bool_decide (sv = server) | _ => false end.
Definition is_returned (server : ptr) (c : call) : bool :=
  match c with Returned sv _ => bool_decide (sv = server) | _ => false end.

Definition tally (p : call → bool) (h : list call) : Z := Z.of_nat (length (filter (λ c, p c = true) h)).

(** Requests that were accepted and not answered yet. *)
Definition pending (server : ptr) (h : list call) : Z := tally (is_began server) h - tally (is_answered server) h.

(** Handlers of the server that run. *)
Definition handling (server : ptr) (h : list call) : Z := tally (is_handled server) h - tally (is_returned server) h.

(** The calls of a fiber. *)
Definition own (f : ptr) (h : list call) : list call := filter (λ c, call_fiber c = Some f) h.

Lemma tally_cons p c h : tally p (c :: h) = (if p c then 1 else 0) + tally p h.
Proof. unfold tally. rewrite filter_cons. destruct (p c); case_decide; done || (simpl; lia). Qed.

Lemma pending_cons server c h :
  pending server (c :: h) =
    pending server h + (if is_began server c then 1 else 0) - (if is_answered server c then 1 else 0).
Proof. unfold pending. rewrite !tally_cons. lia. Qed.

Lemma handling_cons server c h :
  handling server (c :: h) =
    handling server h + (if is_handled server c then 1 else 0) - (if is_returned server c then 1 else 0).
Proof. unfold handling. rewrite !tally_cons. lia. Qed.

Lemma own_cons f c h : own f (c :: h) = if decide (call_fiber c = Some f) then c :: own f h else own f h.
Proof. unfold own. by rewrite filter_cons. Qed.

Lemma own_other f c h : call_fiber c ≠ Some f → own f (c :: h) = own f h.
Proof. intros Hc. by rewrite own_cons, decide_False. Qed.

Lemma own_self f c h : call_fiber c = Some f → own f (c :: h) = c :: own f h.
Proof. intros Hc. by rewrite own_cons, decide_True. Qed.

Lemma pending_bound server h : - Z.of_nat (length h) ≤ pending server h ≤ Z.of_nat (length h).
Proof.
  unfold pending, tally. pose proof (length_filter (λ c, is_began server c = true) h).
  pose proof (length_filter (λ c, is_answered server c = true) h). lia.
Qed.

(** What holds before every call of some kind in the history. *)
Definition before (P : call → list call → Prop) (h : list call) : Prop :=
  ∀ h1 c h2, h = h1 ++ c :: h2 → P c h2.

Lemma before_cons P c h : P c h → before P h → before P (c :: h).
Proof.
  intros Hc Hh h1 c' h2 Heq. destruct h1 as [|c1 h1]; simplify_eq/=; [done|]. by apply (Hh h1).
Qed.

(** A fiber that runs a handler of a server holds a guard of its latch. *)
Definition guarded (h : list call) : Prop :=
  ∀ server f, 0 ≤ handling server (own f h) ≤ pending server (own f h).

Definition call_ok (c : call) (h : list call) : Prop :=
  match c with
  | Handled server _ => RunCalled server ∈ h
  | Drained server => wrap64 (pending server h) = 0 ∧ guarded h
  | _ => True
  end.

Lemma guarded_other c h : call_fiber c = None → guarded h → guarded (c :: h).
Proof. intros Hc Hh server f. rewrite own_other by congruence. apply Hh. Qed.

Lemma guarded_own c f h :
  call_fiber c = Some f → guarded h →
  (∀ server, 0 ≤ handling server (c :: own f h) ≤ pending server (c :: own f h)) → guarded (c :: h).
Proof.
  intros Hc Hh Hf server g. destruct (decide (g = f)) as [->|Hne]; [by rewrite own_self|].
  rewrite own_other by congruence. apply Hh.
Qed.

(** A tally of the calls of fibers is the sum of the tallies of the fibers. *)
Lemma tally_nonneg p h : 0 ≤ tally p h.
Proof. unfold tally. lia. Qed.

Definition sum_own (p : call → bool) (fs : list ptr) (h : list call) : Z :=
  foldr (λ f z, tally p (own f h) + z) 0 fs.

Lemma sum_own_cons p fs c h :
  NoDup fs → (∀ f, call_fiber c = Some f → f ∈ fs) → (p c = true → is_Some (call_fiber c)) →
  sum_own p fs (c :: h) = (if p c then 1 else 0) + sum_own p fs h.
Proof.
  intros Hnd Hin Hp. assert (Hno : ∀ fs, (∀ f, f ∈ fs → call_fiber c ≠ Some f) → sum_own p fs (c :: h) = sum_own p fs h).
  { clear. induction fs as [|g fs IH]; intros Hne; simpl; [done|]. rewrite own_other by (apply Hne; left).
    f_equal. apply IH. intros f Hf. apply Hne. by right. }
  destruct (call_fiber c) as [f|] eqn:Hc; cycle 1.
  { rewrite Hno by done. destruct (p c); [by destruct (Hp eq_refl)|lia]. }
  specialize (Hin f eq_refl). clear Hp. induction fs as [|g fs IH]; [by apply not_elem_of_nil in Hin|].
  apply NoDup_cons in Hnd as [Hg Hnd]. simpl. destruct (decide (g = f)) as [->|Hne].
  - rewrite own_self, tally_cons, Hno by (done || (intros g' Hg' [= ->]; done)). lia.
  - rewrite own_other by congruence. apply elem_of_cons in Hin as [->|Hin]; [done|]. rewrite IH by done. lia.
Qed.

Lemma sum_own_tally p fs h :
  NoDup fs → (∀ c f, c ∈ h → call_fiber c = Some f → f ∈ fs) →
  (∀ c, p c = true → is_Some (call_fiber c)) → sum_own p fs h = tally p h.
Proof.
  intros Hnd Hin Hp. induction h as [|c h IH].
  - clear. induction fs as [|f fs IH]; [done|]. simpl. by rewrite IH.
  - rewrite sum_own_cons, tally_cons, IH; [done|..]; try done.
    + intros c' f Hc'. apply Hin. by right.
    + intros f. apply Hin. by left.
    + apply Hp.
Qed.

Lemma guarded_total server h : guarded h → 0 ≤ handling server h ≤ pending server h.
Proof.
  intros Hg. set (fs := remove_dups (omap call_fiber h)).
  assert (Hsum : ∀ p, (∀ c, p c = true → is_Some (call_fiber c)) → tally p h = sum_own p fs h).
  { intros p Hp. symmetry. apply sum_own_tally; [apply NoDup_remove_dups| |done].
    intros c f Hc Hf. unfold fs. rewrite elem_of_remove_dups, list_elem_of_omap. eauto. }
  unfold handling, pending. rewrite !Hsum by (intros []; simpl; eauto; done).
  clear Hsum. clearbody fs. unfold sum_own. induction fs as [|f fs IH]; simpl; [lia|].
  specialize (Hg server f). unfold handling, pending in Hg. lia.
Qed.

(** ** The invariant *)

(** The event that the fibers of a server wait for a worker on. *)
Definition is_worker_event (svs : gmap ptr ServerImpl) (e : ptr) : Prop :=
  ∃ server sv, svs !! server = Some sv ∧ worker_started sv = e.

(** An event that exists and is none of those. *)
Definition plain (next : ptr) (svs : gmap ptr ServerImpl) (e : ptr) : Prop :=
  (e < next)%positive ∧ ¬ is_worker_event svs e.

Definition plain_callback (next : ptr) (svs : gmap ptr ServerImpl) (c : stop_callback) : Prop :=
  match c with CancelSleep e | SignalEvent e => plain next svs e | StopOther _ _ => True end.

Record server_ok (next : ptr) (svs : gmap ptr ServerImpl) (res : gmap ptr bool) (stops : gmap ptr StopState)
    (results : gmap ptr (Result Data RpcError)) (own : gset ptr) (q : list (Z * ptr)) (h : list call) : Prop := {
  so_latch server sv : svs !! server = Some sv → requests_count sv = wrap64 (pending server h);
  so_none server : svs !! server = None → pending server h = 0;
  so_run server sv : svs !! server = Some sv → res !! worker_started sv = Some true → RunCalled server ∈ h;
  so_history : before call_ok h;
  so_guarded : guarded h;
  so_servers server sv :
    svs !! server = Some sv →
    (server < next)%positive ∧ (worker_started sv < next)%positive ∧ plain next svs (shutdown_event sv);
  so_inj server1 server2 sv1 sv2 :
    svs !! server1 = Some sv1 → svs !! server2 = Some sv2 → worker_started sv1 = worker_started sv2 →
    server1 = server2;
  so_queue te : te ∈ q → plain next svs te.2;
  so_callbacks p st c : stops !! p = Some st → c ∈ callbacks st → plain_callback next svs c;
  so_results e r : results !! e = Some r → plain next svs e;
  so_own e : e ∈ own → plain next svs e;
}.

Definition server_inv {X} (s : sim X) : Prop :=
  server_ok (next_ptr s) (server_objects s) (resumed s) (stop_states s) (results s) (user_events s)
    (events_queue (world s)) (history s).

Definition plain_in {X} (s : sim X) (e : ptr) : Prop := plain (next_ptr s) (server_objects s) e.

Definition plain_callback_in {X} (s : sim X) (c : stop_callback) : Prop :=
  plain_callback (next_ptr s) (server_objects s) c.

Lemma plain_succ next svs e : plain next svs e → plain (Pos.succ next) svs e.
Proof. intros [? ?]. split; [lia|done]. Qed.

Lemma plain_callback_impl next svs next' svs' c :
  (∀ e, plain next svs e → plain next' svs' e) → plain_callback next svs c → plain_callback next' svs' c.
Proof. intros He. destruct c; simpl; eauto. Qed.
#[local] Hint Resolve plain_callback_impl : core.

Section invariant.
Context {X : Type}.
Implicit Types s : sim X.

Lemma server_allocate : preserves server_inv (X := X) allocate.
Proof.
  intros f s a s' [Hl Hn Hr Hh Hg Hs Hi Hq Hc He Hu] Hd. code_inv. split; simpl; eauto using plain_succ.
  intros server sv Hsv. destruct (Hs server sv Hsv) as (? & ? & ?). split_and!; [lia|lia|by apply plain_succ].
Qed.

Lemma server_stable : stable (server_inv (X := X)).
Proof. split; [done..|apply server_allocate]. Qed.

(** A signal of an event that is not the one of a worker. *)
Lemma server_signal e f s a s' :
  server_inv s → plain_in s e → drawn (Event_Signal e f s) (Done (a, s')) → server_inv s'.
Proof.
  intros Hinv [_ Hplain] Hd. unfold Event_Signal in Hd. code_inv.
  eapply preserves_notify_all; [apply server_stable| |done]. destruct Hinv as [Hl Hn Hr Hh Hg Hs Hi Hq Hc He Hu].
  split; simpl; eauto. intros server sv Hsv. rewrite lookup_insert_ne; [by eauto|].
  intros ->. apply Hplain. by exists server, sv.
Qed.

(** [Event_Signal] changes neither servers nor addresses. *)
Lemma signal_frame e f s a s' :
  drawn (Event_Signal e f s) (Done (a, s')) → ∀ e', plain_in s e' → plain_in s' e'.
Proof.
  intros Hd e' He'. unfold Event_Signal in Hd. code_inv.
  refine (preserves_notify_all (λ s, plain_in s e') _ _ _ _ _ _ _ ltac:(eassumption)); [|done].
  split; [done..|]. intros f' s1 a' s2 Hp Hd. code_inv. by apply plain_succ.
Qed.

(** What code may do with the events: it keeps the invariant, and events that
    are not those of workers stay so. *)
Definition keeps {A} (m : M X A) : Prop :=
  ∀ f s a s', server_inv s → drawn (m f s) (Done (a, s')) →
    server_inv s' ∧ ∀ e, plain_in s e → plain_in s' e.

Lemma callback_ok Stop c f s a s' :
  (∀ source, keeps (Stop source)) →
  server_inv s → plain_callback_in s c → drawn (run_callback Stop c f s) (Done (a, s')) →
  server_inv s' ∧ ∀ e, plain_in s e → plain_in s' e.
Proof.
  intros HStop Hinv Hp Hd. destruct c as [e|e|cb source]; unfold run_callback in Hd;
    [|by eauto using server_signal, signal_frame|by eapply HStop]. code_inv.
  match goal with H : drawn (Event_Signal e _ _) _ |- _ => rename H into Hsig end.
  split; [|intros e' He'; by eapply signal_frame].
  refine (server_signal _ _ _ _ _ _ _ Hsig); [|exact Hp]. destruct Hinv as [Hl Hn Hr Hh Hg Hs Hi Hq Hc He Hu].
  split; simpl; eauto. intros te [_ Hte]%list_elem_of_filter. eauto.
Qed.

Lemma server_set_callbacks p b cs s :
  server_inv s → (∀ c, c ∈ cs → plain_callback_in s c) →
  server_inv (with_stop_states (<[p := MkStopState b cs]> (stop_states s)) s).
Proof.
  intros [Hl Hn Hr Hh Hg Hs Hi Hq Hc He Hu] Hcs. split; simpl; eauto.
  intros p' st c [[_ <-]|[_ Hst]]%lookup_insert_Some Hin; [by apply Hcs|eauto].
Qed.

Lemma Stop_keeps depth source : keeps (Stop_nested depth source).
Proof.
  revert source. induction depth as [|depth IH]; intros source f s a s' Hinv Hd; simpl in Hd; [by code_inv|].
  assert (Hloop : ∀ p cs f s a s', server_inv s → (∀ c, c ∈ cs → plain_callback_in s c) →
    drawn (Stop_loop (Stop_nested depth) p cs f s) (Done (a, s')) →
    server_inv s' ∧ ∀ e, plain_in s e → plain_in s' e).
  { intros p. clear -IH. induction cs as [|c cs IHcs]; intros f s a s' Hinv Hcs Hd; simpl in Hd; [by code_inv|].
    code_inv. match goal with H : drawn (run_callback _ _ _ _) _ |- _ => apply callback_ok in H as [Hinv1 Hframe] end;
      [|done|done|by apply Hcs; left].
    assert (Hcs1 : ∀ c', c' ∈ cs → plain_callback_in x0 c').
    { intros c' Hc'. eapply plain_callback_impl; [exact Hframe|]. apply Hcs. by right. }
    match goal with H : drawn (Stop_loop _ _ _ _ _) _ |- _ => apply IHcs in H as [Hinv2 Hframe2] end.
    - split; [done|]. intros e He. by apply Hframe2, Hframe.
    - by apply server_set_callbacks.
    - done. }
  code_inv.
  match goal with H : stop_states s !! _ = Some ?st |- _ =>
    assert (Hcs : ∀ c, c ∈ callbacks st → plain_callback_in s c) by (intros c Hc; by eapply (so_callbacks _ _ _ _ _ _ _ _ Hinv)) end.
  match goal with H : drawn (Stop_loop _ _ _ _ _) _ |- _ => apply Hloop in H; [exact H|by apply server_set_callbacks|done] end.
Qed.

Lemma server_Stop source : preserves (server_inv (X := X)) (StopSource_Stop source).
Proof. intros f s a s' Hinv Hd. by eapply Stop_keeps. Qed.

Lemma server_callback_new token c f s a s' :
  server_inv s → plain_callback_in s c → drawn (StopCallback_new token c f s) (Done (a, s')) → server_inv s'.
Proof.
  intros Hinv Hp Hd. unfold StopCallback_new in Hd. destruct token as [p|]; [|by code_inv]. code_inv.
  - eapply callback_ok; [|done..]. apply Stop_keeps.
  - apply server_set_callbacks; [done|]. intros c' [->|Hc']%elem_of_cons; [done|].
    by eapply (so_callbacks _ _ _ _ _ _ _ _ Hinv).
Qed.

Lemma server_callback_destroy token c : preserves (server_inv (X := X)) (StopCallback_destroy token c).
Proof.
  intros f s a s' Hinv Hd. unfold StopCallback_destroy in Hd. destruct token as [p|]; [|by code_inv]. code_inv.
  apply server_set_callbacks; [done|]. intros c' [_ Hc']%list_elem_of_filter.
  by eapply (so_callbacks _ _ _ _ _ _ _ _ Hinv).
Qed.

(** A new event is not the event of a worker. *)
Lemma server_Event_new f s e s' :
  server_inv s → drawn (Event_new f s) (Done (e, s')) → server_inv s' ∧ plain_in s' e.
Proof.
  intros Hinv Hd. unfold Event_new in Hd. code_inv.
  assert (Hfresh : ∀ server sv, server_objects s !! server = Some sv → worker_started sv ≠ next_ptr s).
  { intros server sv Hsv. destruct (so_servers _ _ _ _ _ _ _ _ Hinv server sv Hsv) as (_ & ? & _). lia. }
  split; [|split; simpl; [lia|]; intros (server & sv & Hsv & Hw); by eapply Hfresh].
  assert (Hinv' := server_allocate f s (next_ptr s) _ Hinv ltac:(constructor)).
  destruct Hinv' as [Hl Hn Hr Hh Hg Hs Hi Hq Hc He Hu]. split; simpl in *; eauto.
  intros server sv Hsv. rewrite lookup_insert_ne; [by eauto|]. intros Heq. by eapply Hfresh.
Qed.

Lemma server_new_event : preserves (server_inv (X := X)) new_event.
Proof.
  intros f s a s' Hinv Hd. unfold new_event in Hd. code_inv.
  match goal with H : drawn (Event_new _ _) _ |- _ => destruct (server_Event_new _ _ _ _ Hinv H) as [Hinv1 Hp] end.
  destruct Hinv1 as [Hl Hn Hr Hh Hg Hs Hi Hq Hc He Hu]. split; simpl; eauto.
  intros e [->%elem_of_singleton|?]%elem_of_union; eauto.
Qed.

Lemma server_new_state : preserves (server_inv (X := X)) new_state.
Proof.
  intros f s a s' Hinv Hd. unfold new_state in Hd. code_inv.
  pose proof (server_allocate f s _ _ Hinv ltac:(constructor)) as Hinv'.
  apply (server_set_callbacks _ _ _ _ Hinv'). intros c Hc. by apply not_elem_of_nil in Hc.
Qed.

Lemma server_sleep (wt : M X Z) token :
  (∀ f s t s', drawn (wt f s) (Done (t, s')) → s' = s) →
  preserves server_inv (t ← wt; e ← SleepUntil_begin t token; mret (t, e)).
Proof.
  intros Hwt f s a s' Hinv Hd. unfold SleepUntil_begin in Hd. code_inv.
  match goal with H : drawn (wt _ _) _ |- _ => apply Hwt in H as -> end.
  match goal with H : drawn (Event_new _ _) _ |- _ => destruct (server_Event_new _ _ _ _ Hinv H) as [Hinv1 Hp] end.
  match goal with H : drawn (StopCallback_new _ _ _ _) _ |- _ => refine (server_callback_new _ _ _ _ _ _ _ _ H); [|exact Hp] end.
  destruct Hinv1 as [Hl Hn Hr Hh Hg Hs Hi Hq Hc He Hu].
  split; simpl; eauto. intros te [->|Hte]%elem_of_multimap_insert; eauto.
Qed.

Lemma server_request token : preserves (server_inv (X := X)) (MakeRequest_begin token).
Proof.
  intros f s a s' Hinv Hd. unfold MakeRequest_begin in Hd. code_inv.
  match goal with H : drawn (Event_new _ _) _ |- _ => destruct (server_Event_new _ _ _ _ Hinv H) as [Hinv1 Hp] end.
  match goal with H : drawn (StopCallback_new _ _ _ _) _ |- _ => refine (server_callback_new _ _ _ _ _ _ _ _ H); [|exact Hp] end.
  destruct Hinv1 as [Hl Hn Hr Hh Hg Hs Hi Hq Hc He Hu].
  split; simpl; eauto. intros e r [[<- _]|[_ Hr']]%lookup_insert_Some; [exact Hp|eauto].
Qed.

Lemma server_result e result : preserves (server_inv (X := X)) (set_result e result).
Proof.
  intros f s a s' Hinv Hd. unfold set_result in Hd. code_inv.
  assert (Hp : plain_in s e) by (by eapply (so_results _ _ _ _ _ _ _ _ Hinv)).
  match goal with H : drawn (Event_Signal _ _ _) _ |- _ => refine (server_signal _ _ _ _ _ _ _ H); [|exact Hp] end. destruct Hinv as [Hl Hn Hr Hh Hg Hs Hi Hq Hc He Hu].
  split; simpl; eauto. intros e' r [[<- _]|[_ Hr']]%lookup_insert_Some; [exact Hp|eauto].
Qed.

Lemma server_fire duration count : preserves (server_inv (X := X)) (fire duration count).
Proof.
  intros f s a s' Hinv Hd. unfold fire in Hd. code_inv.
  destruct (events_queue (world s)) as [|[ts e] rest] eqn:Hq; [by code_inv|]. code_inv; [|done].
  assert (Hp : ∀ te, te ∈ (ts, e) :: rest → plain_in s te.2).
  { intros te. rewrite <-Hq. apply (so_queue _ _ _ _ _ _ _ _ Hinv). }
  match goal with H : drawn (Event_Signal _ _ _) _ |- _ => refine (server_signal _ _ _ _ _ _ _ H); [|apply (Hp (ts, e)); left] end.
  destruct Hinv as [Hl Hn Hr Hh Hg Hs Hi _ Hc He Hu]. split; simpl; eauto.
  intros te Hte. apply Hp. by right.
Qed.

(** A server whose events stay the same. *)
Lemma plain_update svs server sv sv' next e :
  svs !! server = Some sv → worker_started sv' = worker_started sv →
  plain next svs e → plain next (<[server := sv']> svs) e.
Proof.
  intros Hsv Hw [Hlt Hno]. split; [done|]. intros (server' & sv0 & Hsv0 & Heq). apply Hno.
  apply lookup_insert_Some in Hsv0 as [[<- <-]|[_ Hsv0]]; [|by exists server', sv0]. exists server, sv. split; [done|congruence].
Qed.

(** A change of a server, and a call that goes with it. *)
Lemma server_update server sv sv' h s :
  server_inv s → server_objects s !! server = Some sv →
  worker_started sv' = worker_started sv → shutdown_event sv' = shutdown_event sv →
  requests_count sv' = wrap64 (pending server h) →
  (∀ server', server' ≠ server → pending server' h = pending server' (history s)) →
  (∀ c, c ∈ history s → c ∈ h) → before call_ok h → guarded h →
  server_inv (with_server_objects (<[server := sv']> (server_objects s)) (with_history h s)).
Proof.
  intros [Hl Hn Hr Hh Hg Hs Hi Hq Hc He Hu] Hsv Hw Hsd Hcount Hpend Hsub Hbefore Hguarded.
  assert (Hold : ∀ server0 sv0, <[server := sv']> (server_objects s) !! server0 = Some sv0 →
    ∃ sv1, server_objects s !! server0 = Some sv1 ∧ worker_started sv0 = worker_started sv1 ∧
           shutdown_event sv0 = shutdown_event sv1).
  { intros server0 sv0 [[<- <-]|[_ H0]]%lookup_insert_Some; eauto. }
  split; simpl; eauto using plain_update.
  - intros server0 sv0 [[<- <-]|[Hne H0]]%lookup_insert_Some; [done|]. rewrite Hpend by done. eauto.
  - intros server0 [Hne H0]%lookup_insert_None. rewrite Hpend by done. eauto.
  - intros server0 sv0 (sv1 & H1 & Hw1 & _)%Hold Hres. rewrite Hw1 in Hres. eauto.
  - intros server0 sv0 (sv1 & H1 & -> & ->)%Hold. destruct (Hs _ _ H1) as (? & ? & ?).
    split_and!; [done..|by eapply plain_update].
  - intros s1 s2 sv1 sv2 (? & ? & -> & _)%Hold (? & ? & -> & _)%Hold. eauto.
Qed.

Lemma server_update_same server sv sv' s :
  server_inv s → server_objects s !! server = Some sv →
  worker_started sv' = worker_started sv → shutdown_event sv' = shutdown_event sv →
  requests_count sv' = requests_count sv →
  server_inv (with_server_objects (<[server := sv']> (server_objects s)) s).
Proof.
  intros Hinv Hsv Hw Hsd Hcount. apply (server_update server sv sv' (history s) s); try done; [|apply Hinv..].
  rewrite Hcount. by eapply (so_latch _ _ _ _ _ _ _ _ Hinv).
Qed.

(** A call that is neither the start nor the end of a request. *)
Lemma server_record c s :
  server_inv s → call_ok c (history s) → (∀ server, pending server (c :: history s) = pending server (history s)) →
  guarded (c :: history s) → server_inv (with_history (c :: history s) s).
Proof.
  intros [Hl Hn Hr Hh Hg Hs Hi Hq Hc He Hu] Hok Hp Hg'. split; simpl; eauto.
  - intros server sv Hsv. rewrite Hp. eauto.
  - intros server Hsv. rewrite Hp. eauto.
  - intros server sv Hsv Hres. right. eauto.
  - by apply before_cons.
Qed.

Lemma wrap64_add_l a b : wrap64 (wrap64 a + b) = wrap64 (a + b).
Proof. unfold wrap64. apply Zplus_mod_idemp_l. Qed.
Lemma wrap64_sub_l a b : wrap64 (wrap64 a - b) = wrap64 (a - b).
Proof. unfold wrap64. apply Zminus_mod_idemp_l. Qed.

Lemma server_guard_new server : preserves (server_inv (X := X)) (LatchGuard_new server).
Proof.
  intros f s a s' Hinv Hd. unfold LatchGuard_new, record_call, update_server in Hd. code_inv. simpl in *.
  eapply server_update; [done|done|done|done| | |by right|by apply before_cons, Hinv|]; simpl.
  - rewrite (so_latch _ _ _ _ _ _ _ _ Hinv _ _ ltac:(eassumption)), pending_cons. simpl.
    rewrite bool_decide_eq_true_2 by done. unfold add64. rewrite wrap64_add_l. f_equal. lia.
  - intros server' Hne. rewrite pending_cons. simpl. rewrite bool_decide_eq_false_2 by done. lia.
  - apply (guarded_own _ f); [done|apply Hinv|]. intros server'. pose proof (so_guarded _ _ _ _ _ _ _ _ Hinv server' f).
    rewrite handling_cons, pending_cons. simpl. case_bool_decide; lia.
Qed.

(** A fiber that has returned from its handlers may release the guard. *)
Lemma server_guard_release server sv f s :
  server_inv s → server_objects s !! server = Some sv →
  handling server (own f (history s)) < pending server (own f (history s)) →
  server_inv (with_server_objects (<[server := with_requests_count (requests_count sv -64 1) sv]> (server_objects s))
    (with_history (Answered server f :: history s) s)).
Proof.
  intros Hinv Hsv Hlt. eapply server_update; [done|done|done|done| | |by right|by apply before_cons, Hinv|]; simpl.
  - rewrite (so_latch _ _ _ _ _ _ _ _ Hinv _ _ Hsv), pending_cons. simpl.
    rewrite bool_decide_eq_true_2 by done. unfold sub64. rewrite wrap64_sub_l. f_equal. lia.
  - intros server' Hne. rewrite pending_cons. simpl. rewrite bool_decide_eq_false_2 by done. lia.
  - apply (guarded_own _ f); [done|apply Hinv|]. intros server'. pose proof (so_guarded _ _ _ _ _ _ _ _ Hinv server' f).
    rewrite handling_cons, pending_cons. simpl. case_bool_decide; [subst server'|]; lia.
Qed.

Lemma server_guard_destroy server f s a s' :
  server_inv s → handling server (own f (history s)) < pending server (own f (history s)) →
  drawn (LatchGuard_destroy server f s) (Done (a, s')) →
  server_inv s' ∧ history s' = Answered server f :: history s.
Proof.
  intros Hinv Hlt Hd. unfold LatchGuard_destroy, record_call, update_server in Hd. code_inv; simpl in *; simplify_eq.
  - split; [eapply preserves_notify_all; [apply server_stable|by apply server_guard_release|done]|].
    refine (preserves_notify_all (λ s', history s' = Answered server f :: history s) _ _ _ _ _ _ _ ltac:(eassumption)); [|done].
    split; [done..|]. intros f' s1 a' s2 Hp Hd. by code_inv.
  - split; [by apply server_guard_release|done].
Qed.

(** A new server with the next three addresses. *)
Definition fresh_server (next : ptr) : ServerImpl :=
  MkServer ∅ false false 0 (Pos.succ next) (Pos.succ (Pos.succ next)) 0.

Lemma plain_fresh next svs e :
  plain next svs e → plain (Pos.succ (Pos.succ (Pos.succ next))) (<[next := fresh_server next]> svs) e.
Proof.
  intros [Hlt Hno]. split; [lia|]. intros (server & sv & [[_ <-]|[_ Hsv]]%lookup_insert_Some & Hw); [simpl in Hw; lia|].
  apply Hno. by exists server, sv.
Qed.

Lemma server_new : preserves (server_inv (X := X)) Server_new.
Proof.
  intros f s a s' Hinv Hd. unfold Server_new, Event_new in Hd. code_inv. set (next := next_ptr s).
  change (MkServer _ _ _ _ _ _ _) with (fresh_server next). destruct Hinv as [Hl Hn Hr Hh Hg Hs Hi Hq Hc He Hu].
  assert (Hnone : server_objects s !! next = None).
  { destruct (server_objects s !! next) as [sv|] eqn:Hsv; [|done].
    destruct (Hs _ _ Hsv) as (? & _ & _). unfold next in *. lia. }
  assert (Hw : ∀ server sv, server_objects s !! server = Some sv → (worker_started sv < next)%positive).
  { intros server sv Hsv. by destruct (Hs _ _ Hsv) as (_ & ? & _). }
  split; simpl; eauto using plain_fresh.
  - intros server sv [[<- <-]|[_ Hsv]]%lookup_insert_Some; [by rewrite Hn|eauto].
  - intros server [Hsv _]%lookup_insert_None. eauto.
  - intros server sv [[<- <-]|[_ Hsv]]%lookup_insert_Some; simpl.
    + rewrite lookup_insert_ne by lia. by rewrite lookup_insert_eq.
    + specialize (Hw server sv Hsv). rewrite !lookup_insert_ne by lia. eauto.
  - intros server sv [[<- <-]|[_ Hsv]]%lookup_insert_Some; simpl.
    + split_and!; [lia|lia|]. split; [lia|].
      intros (server & sv & [[_ <-]|[_ Hsv]]%lookup_insert_Some & Heq); simpl in *; [lia|]. specialize (Hw server sv Hsv). lia.
    + destruct (Hs _ _ Hsv) as (? & ? & ?). split_and!; [lia|lia|by apply plain_fresh].
  - intros server1 server2 sv1 sv2 [[<- <-]|[_ H1]]%lookup_insert_Some [[<- <-]|[_ H2]]%lookup_insert_Some; simpl;
      [done|specialize (Hw _ _ H2); lia|specialize (Hw _ _ H1); lia|eauto].
Qed.

Lemma server_Run server : preserves (server_inv (X := X)) (Run_begin server).
Proof.
  intros f s a s' Hinv Hd. unfold Run_begin, record_call, Event_Signal in Hd. code_inv. simpl in *.
  eapply preserves_notify_all; [apply server_stable| |done].
  pose proof (server_record (RunCalled server) s Hinv Logic.I ltac:(done)
    (guarded_other (RunCalled server) _ eq_refl (so_guarded _ _ _ _ _ _ _ _ Hinv))) as [Hl Hn Hr Hh Hg Hs Hi Hq Hc He Hu].
  split; simpl in *; eauto. intros server' sv' Hsv' [[Heq _]|[_ Hres]]%lookup_insert_Some; [|eauto].
  assert (server = server') as -> by eauto. left.
Qed.

(** What holds where a handler is called, where it returns and where
    [ShutDown] ends. *)
Lemma server_handled server f s :
  server_inv s → RunCalled server ∈ history s →
  handling server (own f (history s)) < pending server (own f (history s)) →
  server_inv (with_history (Handled server f :: history s) s).
Proof.
  intros Hinv Hrun Hlt. apply server_record; [done|done|done|]. apply (guarded_own _ f); [done|apply Hinv|].
  intros server'. pose proof (so_guarded _ _ _ _ _ _ _ _ Hinv server' f).
  rewrite handling_cons, pending_cons. simpl. case_bool_decide; [subst server'|]; lia.
Qed.

Lemma server_returned server f s :
  server_inv s → 0 < handling server (own f (history s)) →
  server_inv (with_history (Returned server f :: history s) s).
Proof.
  intros Hinv Hlt. apply server_record; [done|done|done|]. apply (guarded_own _ f); [done|apply Hinv|].
  intros server'. pose proof (so_guarded _ _ _ _ _ _ _ _ Hinv server' f).
  rewrite handling_cons, pending_cons. simpl. case_bool_decide; [subst server'|]; lia.
Qed.

Lemma server_drained server sv s :
  server_inv s → server_objects s !! server = Some sv → requests_count sv = 0 →
  server_inv (with_history (Drained server :: history s) s).
Proof.
  intros Hinv Hsv Hz. apply server_record; [done| |done|by apply guarded_other, Hinv]. simpl.
  split; [|apply Hinv]. by rewrite <-(so_latch _ _ _ _ _ _ _ _ Hinv server _ Hsv).
Qed.

Lemma server_code : code_preserves (server_inv (X := X)).
Proof.
  split; try done.
  - apply server_allocate.
  - intros cv. apply preserves_notify_all, server_stable.
  - intros f g. apply stable_props, server_stable.
  - intros addr h f s a s' Hinv Hd. unfold World_AddHost in Hd. code_inv. by destruct Hinv.
  - intros seed opts _. by apply preserves_modify.
  - intros h t token. apply server_sleep. intros f s t' s' Hd. unfold wake_up_time, GetGlobalTime in Hd. by code_inv.
  - intros token. apply server_sleep. intros f s t' s' Hd.
    unfold after, GetGlobalTime, GetRpcDelay, GetRandomDuration in Hd. by code_inv.
  - apply server_callback_destroy.
  - intros e. apply preserves_modify. intros s [Hl Hn Hr Hh Hg Hs Hi Hq Hc He Hu]. split; simpl; eauto.
    intros server sv Hsv [_ ?]%lookup_delete_Some. eauto.
  - intros f s a s' Hinv Hd. unfold StopSource_new in Hd. code_inv.
    match goal with H : drawn (new_state _ _) _ |- _ => refine (server_new_state _ _ _ _ _ H) end.
    refine (server_allocate f s _ _ Hinv _). constructor.
  - intros source f s a s' Hinv Hd. unfold StopSource_assign in Hd. code_inv.
    match goal with H : drawn (new_state _ _) _ |- _ => exact (server_new_state _ _ _ _ Hinv H) end.
  - apply server_Stop.
  - apply server_new_event.
  - intros e f s a s' Hinv Hd. unfold signal_event, own_event in Hd. code_inv. case_decide; simplify_eq.
    eapply server_signal; [done| |done]. by apply (so_own _ _ _ _ _ _ _ _ Hinv).
  - intros token e f s a s' Hinv Hd. unfold signal_on_stop, own_event in Hd. code_inv. case_decide; simplify_eq.
    eapply server_callback_new; [done| |done]. by apply (so_own _ _ _ _ _ _ _ _ Hinv).
  - intros token source f s a s' Hinv Hd. unfold stop_on_stop in Hd. code_inv.
    match goal with H : drawn (StopCallback_new _ _ _ _) _ |- _ => refine (server_callback_new _ _ _ _ _ _ _ _ H) end;
      [|done]. refine (server_allocate f s _ _ Hinv _). constructor.
  - apply server_new.
  - intros server name service f s a s' Hinv Hd. unfold Server_Register, update_server in Hd. code_inv.
    by eapply server_update_same.
  - intros server port f s a s' Hinv Hd. unfold Start_begin, update_server in Hd. code_inv.
    by eapply server_update_same.
  - apply server_Run.
  - intros server f s a s' Hinv Hd. unfold ShutDown_begin, update_server in Hd. code_inv.
    by eapply server_update_same.
  - apply server_request.
  - apply server_result.
  - apply server_fire.
  - intros f s a s' Hinv Hd. unfold RunSimulation_end, record_call in Hd. code_inv.
    pose proof (server_record SimulationEnded s Hinv Logic.I ltac:(done)
      (guarded_other SimulationEnded _ eq_refl (so_guarded _ _ _ _ _ _ _ _ Hinv))) as [Hl Hn Hr Hh Hg Hs Hi Hq Hc He Hu].
    split; simpl in *; eauto. intros te Hte. by apply not_elem_of_nil in Hte.
Qed.
End invariant.

(** ** Following the program of a fiber *)

Section protocol.
Context {X : Type}.
Implicit Types s : sim X.

Local Abbreviation mine f s := (own f (history s)).

(** After a suspension of [f]: any state in which its own calls are the same. *)
Definition later (f : ptr) (s : sim X) (P : sim X → Prop) : Prop :=
  ∀ s', server_inv s' → mine f s' = mine f s → P s'.

(** Only calls of [f] were added. *)
Definition adds_own (f : ptr) (s s' : sim X) : Prop := ∀ g, g ≠ f → mine g s' = mine g s.

Definition record (c : call) (s : sim X) : sim X := with_history (c :: history s) s.

(** From state [s] fiber [f] can run [p]: the invariant holds after each piece
    of code, other fibers may run at the suspensions, and [Q] holds at the end.
    Loops leave the calls of the fiber as they are. *)
Fixpoint wp {R} (p : prog X R) (f : ptr) (Q : R → sim X → Prop) (s : sim X) : Prop :=
  match p with
  | Ret r => Q r s
  | Do m k => ∀ a s', drawn (m f s) (Done (a, s')) → server_inv s' ∧ adds_own f s s' ∧ wp (k a) f Q s'
  | Yield k => later f s (wp k f Q)
  | Wait _ predicate k =>
      later f s (λ s1, ∀ b s', drawn (predicate f s1) (Done (b, s')) →
        server_inv s' ∧ (∀ g, mine g s' = mine g s1) ∧ (b = true → wp k f Q s'))
  | Loop body _ k =>
      (∀ st, later f s (wp (body st) f (λ _ s', mine f s' = mine f s))) ∧ ∀ t, later f s (wp (k t) f Q)
  | Fork _ body k => (∀ g s', server_inv s' → wp body g (λ _ _, True) s') ∧ ∀ h, later f s (wp (k h) f Q)
  | CallMain _ k => later f s (wp k f Q)
  | CallService server _ _ _ k =>
      server_inv (record (Handled server f) s) ∧
      ∀ r, later f (record (Handled server f) s) (λ s',
        server_inv (record (Returned server f) s') ∧ wp (k r) f Q (record (Returned server f) s'))
  end.

Lemma wp_mono {R} (p : prog X R) f (Q Q' : R → sim X → Prop) s :
  (∀ r s', Q r s' → Q' r s') → wp p f Q s → wp p f Q' s.
Proof.
  revert s. induction p as [r|R A m k IH|R k IH|R cv pred k IH|R S T body IHb st k IH|R pol body IHb k IH|R h k IH|R server sv h d k IH];
    intros s HQ Hp; simpl in *; unfold later in *.
  - by apply HQ.
  - intros a s' Hd. destruct (Hp a s' Hd) as (? & ? & ?). eauto.
  - eauto.
  - intros s1 H1 H2 b s' Hd. destruct (Hp s1 H1 H2 b s' Hd) as (? & ? & ?). eauto 6.
  - destruct Hp. eauto.
  - destruct Hp. eauto.
  - eauto.
  - destruct Hp as [? Hp]. split; [done|]. intros r s' H1 H2. destruct (Hp r s' H1 H2). eauto.
Qed.

Lemma wp_bind {R S} (p : prog X R) (k : R → prog X S) f Q s :
  wp p f (λ r, wp (k r) f Q) s → wp (p ≫= k) f Q s.
Proof.
  unfold mbind, prog_mbind. revert s.
  induction p as [r|R A m k' IH|R k' IH|R cv pred k' IH|R S' T body IHb st k' IH|R pol body IHb k' IH|R h k' IH|R server sv h d k' IH];
    intros s Hp; simpl in *; unfold later in *.
  - done.
  - intros a s' Hd. destruct (Hp a s' Hd) as (? & ? & ?). eauto.
  - eauto.
  - intros s1 H1 H2 b s' Hd. destruct (Hp s1 H1 H2 b s' Hd) as (? & ? & ?). eauto 6.
  - destruct Hp. eauto.
  - destruct Hp. eauto.
  - eauto.
  - destruct Hp as [? Hp]. split; [done|]. intros r s' H1 H2. destruct (Hp r s' H1 H2). eauto.
Qed.

Lemma wp_inv {R} (p : prog X R) f Q s :
  server_inv s → wp p f Q s → wp p f (λ r s', server_inv s' ∧ Q r s') s.
Proof.
  revert s. induction p as [r|R A m k IH|R k IH|R cv pred k IH|R S T body IHb st k IH|R pol body IHb k IH|R h k IH|R server sv h d k IH];
    intros s Hinv Hp; simpl in *; unfold later in *.
  - done.
  - intros a s' Hd. destruct (Hp a s' Hd) as (? & ? & ?). eauto.
  - eauto.
  - intros s1 H1 H2 b s' Hd. destruct (Hp s1 H1 H2 b s' Hd) as (? & ? & ?). eauto 6.
  - destruct Hp. eauto.
  - destruct Hp. eauto.
  - eauto.
  - destruct Hp as [? Hp]. split; [done|]. intros r s' H1 H2. destruct (Hp r s' H1 H2). eauto.
Qed.

Lemma wp_seq {R S} (p : prog X R) (k : R → prog X S) f Q Q' s :
  server_inv s → wp p f Q s → (∀ r s', server_inv s' → Q r s' → wp (k r) f Q' s') → wp (p ≫= k) f Q' s.
Proof.
  intros Hinv Hp Hk. apply wp_bind. eapply wp_mono; [|by apply wp_inv]. intros r s' [? ?]. by apply Hk.
Qed.

(** Programs that may run anywhere, and those that leave the calls of their
    fiber alone. *)
Definition runs {R} (p : prog X R) : Prop := ∀ f s, server_inv s → wp p f (λ _ _, True) s.
Definition calm {R} (p : prog X R) : Prop := ∀ f s, server_inv s → wp p f (λ _ s', mine f s' = mine f s) s.

Lemma calm_runs {R} (p : prog X R) : calm p → runs p.
Proof. intros Hp f s Hinv. eapply wp_mono; [|by apply Hp]. done. Qed.

Lemma runs_bind {R S} (p : prog X R) (k : R → prog X S) : runs p → (∀ r, runs (k r)) → runs (p ≫= k).
Proof. intros Hp Hk f s Hinv. eapply wp_seq; [done|by apply Hp|]. intros r s' Hinv' _. by apply Hk. Qed.

Lemma calm_bind {R S} (p : prog X R) (k : R → prog X S) : calm p → (∀ r, calm (k r)) → calm (p ≫= k).
Proof.
  intros Hp Hk f s Hinv. eapply wp_seq; [done|by apply Hp|]. intros r s' Hinv' <-. by apply Hk.
Qed.

(** In front of a calm program, the state does not matter. *)
Lemma calm_later {R} (p : prog X R) f s (s0 : sim X) :
  calm p → mine f s = mine f s0 → later f s (wp p f (λ _ s', mine f s' = mine f s0)).
Proof. intros Hp Heq s' Hinv Heq'. rewrite <-Heq, <-Heq'. by apply Hp. Qed.

Lemma calm_loop {S T} (body : S → prog X (S + T)) st : (∀ st, calm (body st)) → calm (Loop body st Ret).
Proof.
  intros Hb f s Hinv. simpl. split; [|by intros t s' _ ->]. intros st'. by apply calm_later.
Qed.

Lemma calm_fiber policy (body : prog X unit) : runs body → calm (fiber policy body).
Proof. intros Hb f s Hinv. simpl. split; [intros g s' Hinv'; by apply Hb|by intros h s' _ ->]. Qed.

(** Code that keeps the invariant and adds no calls. *)
Lemma own_stable g L : stable (λ s : sim X, mine g s = L).
Proof. split; [done..|]. intros f s a s' Hi Hd. by code_inv. Qed.

Lemma own_quiet g L : quiet (λ s : sim X, mine g s = L).
Proof.
  split; [apply own_stable|intros; apply preserves_notify_all, own_stable|by intros s s' _ _ _ _ _ ->|].
  intros c Hc. apply preserves_modify. intros s Hs. simpl. by rewrite own_other by congruence.
Qed.

Lemma safe_calm {R} (p : prog X R) :
  safe server_inv p → (∀ g L, safe (λ s : sim X, mine g s = L) p) → calm p.
Proof.
  induction p as [r|R A m k IH|R k IH|R cv pred k IH|R S T body IHb st k IH|R pol body IHb k IH|R h k IH|R server sv h d k IH];
    intros Hi Ho f s Hinv; simpl in *.
  - done.
  - intros a s' Hd. destruct Hi as [Hm Hk]. pose proof (Hm f s a s' Hinv Hd) as Hinv'.
    assert (Hown : ∀ g, mine g s' = mine g s) by (intros g; by eapply (proj1 (Ho g (mine g s)))).
    split_and!; [done|by intros g _|]. rewrite <-(Hown f). apply IH; [done|intros g L; apply Ho|done].
  - by apply calm_later; [apply IH|].
  - intros s1 Hinv1 Heq b s' Hd. destruct Hi as [Hm Hk]. pose proof (Hm f s1 b s' Hinv1 Hd) as Hinv'.
    assert (Hown : ∀ g, mine g s' = mine g s1) by (intros g; by eapply (proj1 (Ho g (mine g s1)))).
    split_and!; [done|done|]. intros _. rewrite <-Heq, <-(Hown f). apply IH; [done|intros g L; apply Ho|done].
  - destruct Hi as [Hb Hk]. split.
    + intros st'. apply calm_later; [|done]. apply IHb; [done|intros g L; apply Ho].
    + intros t. apply calm_later; [|done]. apply IH; [done|intros g L; apply Ho].
  - destruct Hi as [Hb Hk]. split.
    + intros g s' Hinv'. apply calm_runs; [|done]. apply IHb; [done|intros g' L; apply Ho].
    + intros h. apply calm_later; [|done]. apply IH; [done|intros g L; apply Ho].
  - by apply calm_later; [apply IH|].
  - exfalso. destruct (Ho f (mine f s)) as [Hr _]. destruct (Hr f) as [Hr' _].
    specialize (Hr' f s tt (record (Handled server f) s) eq_refl). simpl in Hr'. rewrite own_self in Hr' by done.
    specialize (Hr' ltac:(constructor)). apply (f_equal length) in Hr'. simpl in Hr'. lia.
Qed.

Lemma calm_code {R} (p : prog X R) : (∀ I : sim X → Prop, code_preserves I → safe I p) → calm p.
Proof.
  intros Hp. apply safe_calm; [apply Hp, server_code|]. intros g L. apply Hp, quiet_runtime, own_quiet.
Qed.

(** ** The requests *)

Lemma guard_new_calls server f s a s' :
  server_inv s → drawn (LatchGuard_new server f s) (Done (a, s')) →
  server_inv s' ∧ history s' = Began server f :: history s.
Proof.
  intros Hinv Hd. split; [by eapply server_guard_new|].
  unfold LatchGuard_new, record_call, update_server in Hd. by code_inv.
Qed.

Lemma wp_release {R} server (result : R) f s :
  server_inv s → handling server (mine f s) < pending server (mine f s) →
  wp (atomic (LatchGuard_destroy server);; Ret result) f (λ _ _, True) s.
Proof.
  intros Hinv Hlt [] s' Hd. destruct (server_guard_destroy server f s () s' Hinv Hlt Hd) as [Hinv' Hh].
  split_and!; [done| |done]. intros g Hg. rewrite Hh. apply own_other. simpl. congruence.
Qed.

(** The guard is taken, a worker has called [Run] when the handler is called,
    and the guard is released after the handler has returned. *)
Lemma runs_Server_ProcessRequest server data service_name handler :
  runs (Server_ProcessRequest server data service_name handler).
Proof.
  intros f s Hinv. unfold Server_ProcessRequest. apply wp_bind. intros started s1' Hd.
  apply M_bind_drawn in Hd as (u & s1 & Hg & Hd). apply guard_new_calls in Hg as [Hinv1 Hh]; [|done]. code_inv.
  pose proof (so_guarded _ _ _ _ _ _ _ _ Hinv server f) as Hguard. set (L := mine f s) in *.
  assert (Hown1 : mine f s1 = Began server f :: L) by (rewrite Hh; by apply own_self).
  split_and!; [done|intros g Hne; rewrite Hh; apply own_other; simpl; congruence|].
  cbn [wp]. apply wp_bind. intros s2 Hinv2 Hown2 b s3 Hd. unfold worker_is_started in Hd. code_inv.
  split_and!; [done|done|]. intros ->. cbn [wp].
  assert (Hrun : RunCalled server ∈ history s2) by (by eapply (so_run _ _ _ _ _ _ _ _ Hinv2)).
  rewrite Hown1 in Hown2. apply wp_bind. intros service s4 Hd. code_inv. split_and!; [done|done|]. cbn [wp].
  assert (Hlt : handling server (mine f s2) < pending server (mine f s2)).
  { rewrite Hown2, handling_cons, pending_cons. simpl. rewrite bool_decide_eq_true_2 by done. lia. }
  destruct (services _ !! service_name) as [service|]; [|by apply wp_release].
  apply wp_bind. cbn [wp]. split; [by apply server_handled|]. intros r s5 Hinv5 Hown5. simpl in Hown5.
  rewrite own_self, Hown2 in Hown5 by done.
  assert (Hh5 : handling server (mine f s5) = handling server L + 1).
  { rewrite Hown5, !handling_cons. simpl. rewrite bool_decide_eq_true_2 by done. lia. }
  assert (Hp5 : pending server (mine f s5) = pending server L + 1).
  { rewrite Hown5, !pending_cons. simpl. rewrite bool_decide_eq_true_2 by done. lia. }
  assert (Hinv6 : server_inv (record (Returned server f) s5)) by (apply server_returned; [done|lia]).
  split; [done|]. apply wp_release; [done|]. simpl. rewrite own_self, handling_cons, pending_cons by done. simpl.
  rewrite bool_decide_eq_true_2 by done. lia.
Qed.

(** A program split into parts that run; code of the runtime is known. *)
Lemma calm_await e : calm (Event_Await e).
Proof. apply calm_code. intros. apply safe_await. Qed.
Lemma calm_sleep token : calm (World_SleepUntil (after GetRpcDelay) token).
Proof. apply calm_code. intros. by apply safe_World_SleepFor. Qed.
Lemma calm_stop h : calm (StopFiberIfNecessary h).
Proof. apply calm_code. intros. by apply safe_StopFiberIfNecessary. Qed.
Lemma calm_host : calm GetCurrentHost.
Proof. apply calm_code. intros. by apply safe_GetCurrentHost. Qed.
Lemma calm_properties : calm this_fiber_properties.
Proof. apply calm_code. intros. by apply safe_this_fiber_properties. Qed.
Lemma calm_ret {R} (r : R) : calm (Ret r).
Proof. done. Qed.
Lemma calm_atomic {A} (m : M X A) : (∀ I : sim X → Prop, code_preserves I → preserves I m) → calm (atomic m).
Proof. intros Hm. apply calm_code. intros I HI. by apply safe_atomic, Hm. Qed.
Create HintDb sim_calm.
#[local] Hint Resolve calm_await calm_sleep calm_stop calm_host calm_properties calm_ret : sim_calm.
#[local] Hint Resolve preserves_ret preserves_gets preserves_this_fiber preserves_lift preserves_verify preserves_deref
  preserves_below preserves_link_closed preserves_ShouldMakeNetworkError preserves_StopRequested
  rp_request rp_result rp_props rp_shutdown rp_callback_destroy : sim_calm.

Ltac solve_runs :=
  repeat match goal with
  | |- calm (mbind _ _) => apply calm_bind; [|intros ?]
  | |- runs (mbind _ _) => apply runs_bind; [|intros ?]
  | |- calm (match _ with _ => _ end) => case_match
  | |- runs (match _ with _ => _ end) => case_match
  | |- calm _ => solve [eauto with sim_calm]
  | |- calm (atomic _) => apply calm_atomic; intros ? ?
  | |- preserves _ _ => solve [eauto with sim_calm]
  | |- preserves _ (mbind _ _) => apply preserves_bind; [|intros ?]
  | |- runs _ => first [solve [eauto with sim_calm] | apply calm_runs]
  end.

Lemma runs_Host_ProcessRequest h port data service handler : runs (Host_ProcessRequest h port data service handler).
Proof. unfold Host_ProcessRequest. pose proof runs_Server_ProcessRequest. solve_runs. Qed.

Lemma runs_request_fiber e from endpoint data service handler token :
  runs (request_fiber e from endpoint data service handler token).
Proof. unfold request_fiber. pose proof runs_Host_ProcessRequest. solve_runs. Qed.

Lemma calm_MakeRequest endpoint data service handler token :
  calm (ClientBase_MakeRequest endpoint data service handler token).
Proof.
  pose proof runs_request_fiber. pose proof (calm_fiber post).
  unfold ClientBase_MakeRequest, Host_MakeRequest, World_MakeRequest. solve_runs.
Qed.

(** [ShutDown] ends in a state in which the latch is zero. *)
Lemma calm_ShutDown server : calm (Server_ShutDown server).
Proof.
  unfold Server_ShutDown. apply calm_bind; [solve_runs|]. intros port. apply calm_bind; [solve_runs|]. intros h.
  apply calm_bind; [apply calm_code; intros; by apply safe_UnregisterServer|]. intros _.
  intros f s Hinv s1 Hinv1 Hown1 b s2 Hd. unfold is_zero in Hd. code_inv. split_and!; [done|done|].
  intros Hz%bool_decide_eq_true. intros [] s3 Hd. unfold ShutDown_end, record_call in Hd. code_inv. simpl in *.
  simplify_eq. match goal with H : server_objects s1 !! server = Some ?sv |- _ => rename H into Hsv end.
  assert (Hinv2 := server_drained server _ s1 Hinv1 Hsv Hz).
  match goal with H : drawn (Event_Signal _ _ _) _ |- _ => rename H into Hsig end.
  assert (Hinv3 : server_inv s3).
  { refine (server_signal _ _ _ _ _ Hinv2 _ Hsig). by destruct (so_servers _ _ _ _ _ _ _ _ Hinv2 server _ Hsv) as (_ & _ & ?). }
  assert (Hown3 : ∀ g, mine g s3 = mine g s1).
  { intros g. refine (quiet_Signal _ (own_quiet g (mine g s1)) _ _ _ _ _ _ Hsig). simpl. by apply own_other. }
  split_and!; [done|by intros g _|]. simpl. by rewrite Hown3.
Qed.

Lemma calm_block {A} (m : M X A) : block m → calm (atomic m).
Proof.
  intros Hm. apply safe_calm; [apply safe_atomic, block_safe; [apply server_code|done|done]|].
  intros g L. apply safe_atomic, block_safe; [apply quiet_runtime, own_quiet|done|done].
Qed.

(** Client programs neither begin nor end requests on their own fiber. *)
Lemma client_calm {R} (p : prog X R) : client p → calm p.
Proof.
  induction 1 as [R p Hp|A m Hm|R r|R S p k _ IHp _ IHk|policy body _ IH|S T body s _ IH].
  - destruct Hp as [R p Hp|server|endpoint data service handler token]; [|apply calm_ShutDown|apply calm_MakeRequest].
    apply calm_code. intros I HI. by apply basic_safe.
  - by apply calm_block.
  - apply calm_ret.
  - by apply calm_bind.
  - by apply calm_fiber, calm_runs.
  - by apply calm_loop.
Qed.

(** ** The machine *)

Context (Main : ptr → prog X unit) (ProcessRequest : ptr → string → Data → prog X (Result Data RpcError)).
Context (test : prog X unit) (Hclients : clients Main ProcessRequest test).

Record protocol_ok (m : machine X) : Prop := {
  po_inv : server_inv (state m);
  po_code : wp (code m) (current m) (λ _ _, True) (state m);
  po_fibers f p : fibers m !! f = Some p → later f (state m) (wp p f (λ _ _, True));
}.

(** The others still can go on after code of the running fiber. *)
Lemma fibers_later (fs : gmap ptr (prog X unit)) self s s' :
  (∀ f p, fs !! f = Some p → later f s (wp p f (λ _ _, True))) → fs !! self = None → adds_own self s s' →
  ∀ f p, fs !! f = Some p → later f s' (wp p f (λ _ _, True)).
Proof.
  intros Hfs Hself Hadd f p Hp s'' Hinv Heq. apply (Hfs f p Hp s'' Hinv). rewrite Heq. apply Hadd. congruence.
Qed.

Lemma fibers_insert_later (fs : gmap ptr (prog X unit)) s g q :
  (∀ f p, fs !! f = Some p → later f s (wp p f (λ _ _, True))) → later g s (wp q g (λ _ _, True)) →
  ∀ f p, <[g := q]> fs !! f = Some p → later f s (wp p f (λ _ _, True)).
Proof. intros Hfs Hq f p [[<- <-]|[_ Hp]]%lookup_insert_Some; eauto. Qed.

(** What the machine itself does adds no calls. *)
Lemma machine_keeps {A} (c : M X A) self s a s' :
  (∀ I : sim X → Prop, stable I → preserves I c) → server_inv s → drawn (c self s) (Done (a, s')) →
  server_inv s' ∧ ∀ g, mine g s' = mine g s.
Proof.
  intros Hc Hinv Hd. split; [by eapply (Hc server_inv server_stable)|]. intros g.
  by refine (Hc (λ s0, mine g s0 = mine g s) (own_stable g (mine g s)) _ _ _ _ _ Hd).
Qed.

Lemma end_stable self (I : sim X → Prop) : stable I →
  preserves I (modify (λ s, with_terminated ({[ self ]} ∪ terminated s) s);; notify_all self).
Proof.
  intros HI. apply preserves_bind; [apply preserves_modify; intros; by apply (stable_terminated I HI)|].
  intros _. by apply preserves_notify_all.
Qed.

Lemma fork_stable (w : ptr → ptr) (I : sim X → Prop) : stable I →
  preserves I (f ← allocate; wake (w f) false;; mret f).
Proof.
  intros HI. apply preserves_bind; [by apply stable_allocate|]. intros f.
  apply preserves_bind; [by apply preserves_wake|]. intros _. apply preserves_ret.
Qed.

Lemma suspend_protocol y self fs s m :
  server_inv s → (∀ f p, fs !! f = Some p → later f s (wp p f (λ _ _, True))) →
  drawn (suspend y self fs s) (Running m) → protocol_ok m.
Proof.
  intros Hinv Hfs Hd. unfold suspend in Hd. apply drawn_bind in Hd as ([[ctx s']|msg|w] & Hsw & Hd);
    [|by apply drawn_Drawn in Hd..].
  destruct (machine_keeps (switch y) self s ctx s') as [Hinv' Hown]; [intros; by apply preserves_switch|done|done|].
  destruct (fs !! ctx) as [p|] eqn:Hp; apply drawn_Drawn in Hd; simplify_eq. split; simpl; [done|by apply (Hfs ctx p Hp)|].
  intros f q [_ Hq]%lookup_delete_Some s'' Hinv'' Heq. apply (Hfs f q Hq s'' Hinv''). by rewrite Heq.
Qed.

(** The body of a handler and the record of its return. *)
Lemma wp_call server sv h d (k : Result Data RpcError → prog X unit) f s :
  server_inv (record (Handled server f) s) →
  (∀ r, later f (record (Handled server f) s) (λ s',
     server_inv (record (Returned server f) s') ∧ wp (k r) f (λ _ _, True) (record (Returned server f) s'))) →
  wp (prog_bind (ProcessRequest sv h d) (λ r, Do (record_call (Returned server f)) (λ _, k r))) f (λ _ _, True)
    (record (Handled server f) s).
Proof.
  intros Hinv Hk. destruct Hclients as [_ HPR _].
  apply (wp_seq (ProcessRequest sv h d) _ _ (λ _ s', mine f s' = mine f (record (Handled server f) s)));
    [done|by apply client_calm|].
  intros r s' Hinv' Heq. cbn [wp]. intros [] s2 Hd. apply drawn_Drawn in Hd as [= <-].
  destruct (Hk r s' Hinv' Heq) as [Hi2 Hk2]. split; [exact Hi2|]. split; [|exact Hk2].
  intros g Hg. simpl. apply own_other. simpl. congruence.
Qed.

Lemma protocol_step m m' :
  fibers_ok m → protocol_ok m → drawn (step Main ProcessRequest m) (Running m') → protocol_ok m'.
Proof.
  intros Hok [Hinv Hcode Hfs] Hd.
  assert (Hself : fibers m !! current m = None).
  { destruct Hok as [Hnd Hpl _ _]. apply not_elem_of_dom. intros Hin. apply NoDup_cons in Hnd as [Hno _].
    apply Hno, Hpl. by right. }
  destruct Hclients as [HMain HPR _].
  unfold step in Hd. destruct (code m) as [r|A c k|k|cv pred k|S T body st k|pol body k|r k|server sv h d k]; cbn [wp] in Hcode.
  - case_decide; [by apply drawn_Drawn in Hd|]. apply execute_running in Hd as (u & s' & Hc & Hd).
    apply machine_keeps in Hc as [Hinv' Hown]; [|apply end_stable|done]. refine (suspend_protocol _ _ _ _ _ Hinv' _ Hd).
    apply (fibers_later _ (current m) (state m)); [done|done|by intros g _].
  - apply execute_running in Hd as (a & s' & Hc & Hd). apply drawn_Drawn in Hd as [= <-].
    destruct (Hcode a s' Hc) as (? & ? & ?). split; simpl; [done|done|by eapply fibers_later].
  - refine (suspend_protocol _ _ _ _ _ Hinv _ Hd). by apply fibers_insert_later.
  - apply execute_running in Hd as (b & s' & Hc & Hd).
    destruct (Hcode (state m) Hinv eq_refl b s' Hc) as (Hinv' & Hown & Hk).
    assert (Hfs' : ∀ f p, fibers m !! f = Some p → later f s' (wp p f (λ _ _, True)))
      by (apply (fibers_later _ (current m) (state m)); [done|done|by intros g _]).
    destruct b; [apply drawn_Drawn in Hd as [= <-]; split; simpl; auto|].
    refine (suspend_protocol _ _ _ _ _ _ _ Hd); [by apply (stable_waiters _ server_stable)|].
    apply fibers_insert_later; [exact Hfs'|]. intros s1 Hinv1 Heq. cbn [wp]. intros s2 Hinv2 Heq2.
    apply Hcode; [done|]. rewrite Heq2, Heq. apply Hown.
  - apply drawn_Drawn in Hd as [= <-]. split; simpl; [done| |done]. destruct Hcode as [Hb Hk].
    apply (wp_seq (body st) _ _ (λ _ s', mine (current m) s' = mine (current m) (state m))); [done|by apply Hb|].
    intros [st'|t] s' Hinv' Heq; [|by apply Hk]. cbn [wp]. split.
    + intros st'' s'' Hinv'' Heq''. rewrite Heq. apply Hb; [done|congruence].
    + intros t s'' Hinv'' Heq''. apply Hk; [done|congruence].
  - destruct Hcode as [Hb Hk].
    destruct pol; apply execute_running in Hd as (f & s' & Hc & Hd); apply drawn_Drawn in Hd as [= <-];
      (apply machine_keeps in Hc as [Hinv' Hown]; [|first [apply (fork_stable id) | apply fork_stable]|done]);
      assert (Hfs' := fibers_later _ (current m) (state m) s' Hfs Hself ltac:(by intros g _));
      split; simpl; try done; try (apply fibers_insert_later; [exact Hfs'|]).
    + by apply Hk.
    + intros s1 Hinv1 _. by apply Hb.
    + by apply Hb.
    + intros s1 Hinv1 Heq. apply Hk; [done|]. rewrite Heq. apply Hown.
  - apply drawn_Drawn in Hd as [= <-]. split; simpl; [done| |done].
    apply (wp_seq (Main r) _ _ (λ _ s', mine (current m) s' = mine (current m) (state m)));
      [done|by apply client_calm|]. intros [] s' Hinv' Heq. by apply Hcode.
  - apply drawn_Drawn in Hd as [= <-]. destruct Hcode as [Hinv1 Hk]. split; [done|by apply wp_call|].
    apply (fibers_later _ (current m) (state m)); [done|done|]. intros g Hg. simpl. apply own_other. simpl. congruence.
Qed.

Lemma protocol_boot x : protocol_ok (boot x test).
Proof.
  assert (Hinv : server_inv (state (boot x test))).
  { split; simpl; try by intros; simplify_map_eq.
    - intros h1 c h2 Heq. by destruct h1.
    - intros te Hte. by apply not_elem_of_nil in Hte. }
  split; [done| |intros f p; simpl; by rewrite lookup_empty].
  apply calm_runs; [|done]. apply client_calm, Hclients.
Qed.

Lemma reaches_protocol x m : reaches Main ProcessRequest (boot x test) (Running m) → protocol_ok m.
Proof.
  apply (reaches_invariant_r Main ProcessRequest); [apply protocol_boot|].
  intros m1 m2 Hr Hm1. apply protocol_step; [|done]. by apply (reaches_fibers Main ProcessRequest x test).
Qed.
End protocol.

(** [C20] The waits of the simulated server work, whatever the simulated
    programs do. A server calls the handler of a service only after a worker
    has called [Run]. When [ShutDown] returns, every request that the server
    has accepted by then is answered and every handler it has called has
    returned. At any moment the latch of a server counts the requests that are
    accepted and not answered, and these include every request whose handler
    runs. All this while fewer than 2^64 calls are made. *)
Theorem server_waits_for_workers_and_requests {X} Main ProcessRequest (x : X) test m server :
  clients Main ProcessRequest test →
  reaches Main ProcessRequest (boot x test) (Running m) →
  Z.of_nat (length (history (state m))) < 2 ^ 64 →
  (∀ h1 f h2, history (state m) = h1 ++ Handled server f :: h2 → RunCalled server ∈ h2) ∧
  (∀ h1 h2, history (state m) = h1 ++ Drained server :: h2 →
     tally (is_began server) h2 = tally (is_answered server) h2 ∧
     tally (is_handled server) h2 = tally (is_returned server) h2) ∧
  (∀ f, 0 ≤ handling server (own f (history (state m))) ≤ pending server (own f (history (state m)))) ∧
  (∀ sv, server_objects (state m) !! server = Some sv →
     requests_count sv = pending server (history (state m)) ∧
     0 ≤ handling server (history (state m)) ≤ requests_count sv).
Proof.
  intros Hc Hr Hlen. pose proof (po_inv _ (reaches_protocol Main ProcessRequest test Hc x m Hr)) as Hinv.
  destruct Hinv as [Hl _ _ Hh Hg _ _ _ _ _ _].
  assert (Hword : ∀ h, Z.of_nat (length h) < 2 ^ 64 → guarded h → wrap64 (pending server h) = pending server h).
  { intros h Hsmall Hgh. pose proof (guarded_total server h Hgh). pose proof (pending_bound server h).
    apply wrap64_small. unfold is_u64, u64_max, u64_modulus. lia. }
  split_and!; [intros h1 f h2; by apply Hh| |intros f; apply Hg|].
  - intros h1 h2 Heq. destruct (Hh h1 (Drained server) h2 Heq) as [Hz Hg2]. rewrite Heq, length_app in Hlen. simpl in Hlen.
    rewrite Hword in Hz by (done || lia). pose proof (guarded_total server h2 Hg2). unfold handling, pending in *. lia.
  - intros sv Hsv. rewrite (Hl _ _ Hsv), Hword by done. split; [done|by apply guarded_total].
Qed.
