(* ===== verification/SimTestLib.v ===== *)
(** * Tests of the simulator: what they share

    A test is a program of the main fiber (SimFibers.v, SimRuntime.v); the
    objects it gives to the simulator by pointer are numbered, and the tables
    [Main] and [ProcessRequest] have their virtual functions. The variables that
    the hosts share by reference are the state [X] of the test. A test passes if
    it ends and every [EXPECT] is true.

    [schedules_pass] says so of all runs whatever is drawn, [pass_with] of the
    runs with the draws of a sample generator. *)

From S2P Require Import Prelude.
From S2P Require Import Result.
From S2P Require Import RtTypes.
From S2P Require Import Serde.
From S2P Require Import SimScheduler.
From S2P Require Import SimFibers.
From S2P Require Import SimRuntime.
From S2P Require Import SimFibersProps.
From S2P Require Import SimClients.
From stdpp Require Import pretty.
From Stdlib Require Import QArith_base.

Local Open Scope Z_scope.

Definition us (n : Z) : Z := n.
Definition ms (n : Z) : Z := 1000 * n.
Definition sec (n : Z) : Z := 1000000 * n.
Definition minutes (n : Z) : Z := 60 * sec n.
Definition hour (n : Z) : Z := 60 * minutes n.

Section helpers.
Context {X : Type}.

Definition EXPECT (b : bool) : prog X unit :=
  atomic (modify (λ s, with_expectations (b :: expectations s) s)).
Definition EXPECT_EQ {A} `{EqDecision A} (a b : A) : prog X unit := EXPECT (bool_decide (a = b)).

(** [testing::Test::HasNonfatalFailure] *)
Definition HasNonfatalFailure : prog X bool := atomic (gets (λ s, negb (forallb id (expectations s)))).

(** The variables of the test. *)
Definition read : prog X X := atomic (gets (λ s, vars s)).
Definition write (x : X) : prog X unit := atomic (modify (λ s, with_vars x s)).

Definition ValueOf {T E} `{ErrorTraits E} (r : Result T E) : prog X T := atomic (lift (GetValue r)).
Definition ErrorOf {T E} `{ErrorTraits E} (r : Result T E) : prog X E := atomic (lift (GetError r)).

(** Default arguments. *)
Definition default_world : WorldOptions := MkWorldOptions 0 (MkInterval 0 0) (MkInterval 0 0) 0.
Definition default_host : HostOptions := MkHostOptions (MkInterval 0 0) (0%Q, 0%Q) 0.
Definition RunSimulation_default : prog X unit := RunSimulation (2 ^ 63 - 1) u64_max.
Definition Sleep (duration : Z) : prog X unit := SleepFor duration None;; Ret ().
Definition token_of (source : ptr) : prog X StopToken := atomic (GetToken source).

(** [boost::fibers::async] *)
Definition async (policy : launch) (body : prog X unit) : prog X ptr := fiber policy body.

Fixpoint for_loop (n : nat) (i : Z) (body : Z → prog X unit) : prog X unit :=
  match n with
  | O => Ret ()
  | S n => body i;; for_loop n (i + 1) body
  end.

Definition passes (st : status X) : bool :=
  match st with
  | Ended s => forallb id (expectations s)
  | _ => false
  end.

Definition no_services : ptr → string → Data → prog X (Result Data RpcError) :=
  λ _ _ _, atomic (lift (Undefined "no such service")).
End helpers.

(** ** The messages of src/runtime/simulator/ut/test_service.proto

    Protobuf is a parameter of the runtime; here a message is serialized to the
    bytes of its string. *)

Record EchoRequest : Type := MkEchoRequest { request_msg : string }.
Record EchoReply : Type := MkEchoReply { reply_msg : string }.

Definition to_bytes (msg : string) : Data := (λ c, Z.of_nat (Ascii.nat_of_ascii c)) <$> String.list_ascii_of_string msg.
Definition of_bytes (d : Data) : string := String.string_of_list_ascii ((λ z, Ascii.ascii_of_nat (Z.to_nat z)) <$> d).

#[export] Instance EchoRequest_message : ProtoMessage EchoRequest := {|
  SerializeToArray m := Some (to_bytes (request_msg m));
  ParseFromArray d := Some (MkEchoRequest (of_bytes d));
|}.
#[export] Instance EchoReply_message : ProtoMessage EchoReply := {|
  SerializeToArray m := Some (to_bytes (reply_msg m));
  ParseFromArray d := Some (MkEchoReply (of_bytes d));
|}.

Section services.
Context {X : Type}.

(** The client that the generator of the simulator writes for [EchoService]. *)
Definition Client_Echo (endpoint : Endpoint) (msg : string) (stop_token : StopToken) :
    prog X (Result EchoReply RpcError) :=
  MakeRequest endpoint (MkEchoRequest msg) "EchoService" "Echo" stop_token.

(** The stub for [EchoService] with its virtual function [Echo]. *)
Definition EchoServiceStub (Echo : EchoRequest → prog X (Result EchoReply RpcError)) (handler_name : string)
    (data : Data) : prog X (Result Data RpcError) :=
  if decide (handler_name = "Echo") then ProcessRequestWrapper data Echo
  else Ret (Err (MkRpcError HandlerNotFound "")).

(** [Main] of a host with one server that has one service and runs for
    [duration]. *)
Definition serve (service_name : string) (service : ptr) (port duration : Z) : prog X unit :=
  server ← atomic Server_new;
  atomic (Server_Register server service_name service);;
  Server_Start server port;;
  worker ← fiber post (Server_Run server);
  Sleep duration;;
  Server_ShutDown server;;
  fiber_join worker;;
  atomic (Server_destroy server).
End services.

(** ** Client programs *)

Section clients.
Context {X : Type}.

Lemma client_Sleep d : client (X := X) (Sleep d).
Proof. unfold Sleep. solve_client. Qed.

Lemma client_EXPECT b : client (X := X) (EXPECT b).
Proof. unfold EXPECT. solve_client. Qed.

Lemma client_HasNonfatalFailure : client (X := X) HasNonfatalFailure.
Proof. apply client_atomic, (block_expectations _ (λ e, negb (forallb id e))). Qed.

Lemma client_read : client (X := X) read.
Proof. apply client_atomic, (block_read X (λ x, x)). Qed.

Lemma client_for_loop n i body : (∀ i, client (X := X) (body i)) → client (for_loop n i body).
Proof. intros Hb. revert i. induction n as [|n IH]; intros i; simpl; solve_client; done. Qed.

Lemma client_Echo endpoint msg token : client (X := X) (Client_Echo endpoint msg token).
Proof. unfold Client_Echo. solve_client. Qed.
#[local] Hint Resolve client_Sleep : sim_client.

Lemma client_serve name service port d : client (X := X) (serve name service port d).
Proof. unfold serve. solve_client. Qed.

Lemma client_stub `{ProtoMessage Request} `{ProtoMessage Response} data
    (handler : Request → prog X (Result Response RpcError)) :
  (∀ r, client (handler r)) → client (ProcessRequestWrapper data handler).
Proof. intros Hh. unfold ProcessRequestWrapper. solve_client; done. Qed.
End clients.
#[export] Hint Resolve client_Sleep client_EXPECT client_HasNonfatalFailure client_read client_Echo client_serve : sim_client.

(** ** Sample generators *)

Definition mix (seed n : Z) : Z := Z.shiftr ((n + seed) * (48271 + n)) 3.

#[local] Instance mixed (seed : Z) : Generator := {|
  next_int n lo hi := lo + mix seed (Z.of_N n) `mod` (hi - lo + 1);
  next_below n p := bool_decide ((mix seed (Z.of_N n) `mod` 1000) * QDen p < Qnum p * 1000);
  next_drift n lo hi :=
    if decide ((lo, hi) = (0%Q, 0%Q)) then λ _, 0
    else let d := (lo + (hi - lo) * (mix seed (Z.of_N n) `mod` 1000 # 1000))%Q in
      λ t, (Qnum d * t) `quot` QDen d;
|}.

#[export] Instance mixed_laws seed : GeneratorLaws (mixed seed).
Proof.
  split; simpl.
  - intros n lo hi Hle. pose proof (Z.mod_pos_bound (mix seed (Z.of_N n)) (hi - lo + 1) ltac:(lia)). lia.
  - intros n p Hp. apply bool_decide_eq_false. unfold Qle in Hp. simpl in Hp.
    pose proof (Z.mod_pos_bound (mix seed (Z.of_N n)) 1000 ltac:(lia)). nia.
  - done.
Qed.

(** The result of a run of at most [2 ^ 30] steps. *)
Definition run_with {X} (seed : Z) (Main : ptr → prog X unit)
    (ProcessRequest : ptr → string → Data → prog X (Result Data RpcError)) (x : X) (test : prog X unit) : status X :=
  fst (run (H := mixed seed) Main ProcessRequest 30 (boot x test) 0).

Definition pass_with {X} (seeds : list Z) (Main : ptr → prog X unit)
    (ProcessRequest : ptr → string → Data → prog X (Result Data RpcError)) (x : X) (test : prog X unit) : bool :=
  forallb (λ seed, passes (run_with seed Main ProcessRequest x test)) seeds.

(** All runs, whatever is drawn, of at most 2000 steps. *)
Definition schedules_pass {X} (Main : ptr → prog X unit)
    (ProcessRequest : ptr → string → Data → prog X (Result Data RpcError)) (x : X) (test : prog X unit) : bool :=
  explore Main ProcessRequest passes 2000 (boot x test).

(** ** Moments of a sample run *)

Section moments.
Context {X : Type} (seed : Z) (Main : ptr → prog X unit)
  (ProcessRequest : ptr → string → Data → prog X (Result Data RpcError)) (start : machine X).

Definition after_steps (k : nat) : status X * N := run_steps (G := mixed seed) Main ProcessRequest k start 0.

Definition machine_at (k : nat) : machine X := match after_steps k with (Running m, _) => m | _ => start end.

(** The run does not end within [k] steps, and every draw is from a range. *)
Definition runs_for (k : nat) : bool :=
  checked (G := mixed seed) Main ProcessRequest k start 0 &&
  match after_steps k with (Running _, _) => true | _ => false end.

Lemma reaches_between j k :
  runs_for (j + k) = true →
  reaches Main ProcessRequest start (Running (machine_at j)) ∧
  reaches Main ProcessRequest (machine_at j) (Running (machine_at (j + k))).
Proof.
  unfold runs_for, machine_at, after_steps. intros [Hc Hr]%andb_prop. rewrite run_steps_add in *.
  destruct (run_steps (G := mixed seed) _ _ j start 0) as [[m|s|o] n] eqn:Hj; [|done..].
  destruct (run_steps (G := mixed seed) _ _ k m n) as [[m'|s|o] n'] eqn:Hk; [|done..].
  split; [exact (checked_reaches _ _ j start 0 m n (checked_le _ _ _ _ _ _ Hc) Hj)|].
  exact (checked_reaches _ _ k m n m' n' (checked_add _ _ _ _ _ _ _ _ Hc Hj) Hk).
Qed.

Lemma reaches_at k : runs_for k = true → reaches Main ProcessRequest start (Running (machine_at k)).
Proof. intros Hr. apply (reaches_between 0 k Hr). Qed.
End moments.
