(* ===== verification/SimTimeTests.v ===== *)
(** * Tests of the clocks, of cancellation and of killed hosts

    src/runtime/simulator/ut/time.cpp, cancellation.cpp, host_kill.cpp and
    host_pause.cpp as programs of the simulated runtime. *)

From S2P Require Import Prelude.
From S2P Require Import Result.
From S2P Require Import RtTypes.
From S2P Require Import Serde.
From S2P Require Import SimScheduler.
From S2P Require Import SimFibers.
From S2P Require Import SimRuntime.
From S2P Require Import SimTestLib.
From stdpp Require Import pretty.
From Stdlib Require Import QArith_base.

Local Open Scope Z_scope.

(** ** src/runtime/simulator/ut/time.cpp *)

Module SimpleOneHost.
Definition Main (_ : ptr) : prog () unit :=
  now ← Now; EXPECT_EQ now (hour 0);;
  Sleep (hour 24);;
  now ← Now; EXPECT_EQ now (hour 24);;
  Sleep (hour 24);;
  now ← Now; EXPECT_EQ now (hour 48).

Definition test : prog () unit :=
  InitWorld 42 default_world;;
  AddHost "addr1" 1 default_host;;
  RunSimulation_default.
End SimpleOneHost.


(** The second [RunSimulation] must abort. *)
Module WorldInitialization.
Definition Main (_ : ptr) : prog () unit := Ret ().

Definition test : prog () unit :=
  InitWorld 42 default_world;;
  AddHost "addr1" 1 default_host;;
  RunSimulation_default.

Definition EXPECT_DEATH : prog () unit := test;; RunSimulation_default.
End WorldInitialization.

Module HostOrdering.
(** [ids] *)
Definition push_back (id : Z) : prog (list Z) unit := ids ← read; write (ids ++ [id]).

Definition Host1 : prog (list Z) unit :=
  start ← Now;
  SleepUntil (start + sec 2) None;;
  push_back 1;;
  SleepUntil (start + sec 3) None;;
  push_back 1.

Definition Host2 : prog (list Z) unit :=
  start ← Now;
  SleepUntil (start + sec 1) None;;
  push_back 2;;
  SleepUntil (start + sec 4) None;;
  push_back 2;;
  SleepUntil (start + sec 6) None;;
  push_back 2.

Definition Main (p : ptr) : prog (list Z) unit := if decide (p = 1%positive) then Host1 else Host2.

Definition test : prog (list Z) unit :=
  InitWorld 42 default_world;;
  AddHost "addr1" 1 (MkHostOptions (MkInterval (sec 10) (sec 20)) (0%Q, 0%Q) 0);;
  AddHost "addr2" 2 default_host;;
  RunSimulation_default;;
  ids ← read;
  EXPECT_EQ ids [2; 1; 1; 2; 2].
End HostOrdering.

(** [duration] is 10 hours in the source. *)
Module TimeLoop.
Section test.
Variable duration : Z.

(** [prev] *)
Definition Host (start_sleep : Z) (id : Z) : prog Z unit :=
  now ← Now;
  let end_time := now + duration in
  Sleep start_sleep;;
  Loop (λ _,
    now ← Now;
    if decide (now < end_time) then
      Sleep (sec 1);;
      prev ← read;
      EXPECT (bool_decide (prev ≠ id));;
      if decide (prev = id) then Ret (inr ())
      else write id;; Ret (inl ())
    else Ret (inr ())) () Ret.

Definition Main (p : ptr) : prog Z unit :=
  if decide (p = 1%positive) then Host (ms 500) 1 else Host (ms 1000) 2.

(** With [prev = 2]. *)
Definition test : prog Z unit :=
  InitWorld 42 default_world;;
  AddHost "addr1" 1 default_host;;
  AddHost "addr2" 2 default_host;;
  RunSimulation_default.
End test.
End TimeLoop.

(** The tests [Drift] and [SleepLag] differ in the options of the second host;
    [duration] is 10 hours and [at_least] 5 in the source. *)
Module Inconsistency.
Section test.
Variable duration at_least : Z.

(** [prev] and [inconsistency_count] *)
Definition Host (start_sleep : Z) (id : Z) : prog (Z * Z) unit :=
  now ← Now;
  let end_time := now + duration in
  Sleep start_sleep;;
  Loop (λ _,
    now ← Now;
    if decide (now < end_time) then
      Sleep (sec 1);;
      '(prev, inconsistency_count) ← read;
      write (id, if decide (prev = id) then inconsistency_count + 1 else inconsistency_count);;
      Ret (inl ())
    else Ret (inr ())) () Ret.

Definition Main (p : ptr) : prog (Z * Z) unit :=
  if decide (p = 1%positive) then Host (ms 500) 1 else Host (ms 1000) 2.

(** With [prev = 2] and [inconsistency_count = 0]. *)
Definition Drift : prog (Z * Z) unit :=
  InitWorld 42 default_world;;
  AddHost "addr1" 1 default_host;;
  AddHost "addr2" 2 (MkHostOptions (MkInterval 0 0) (1 # 1000, 2 # 1000)%Q 0);;
  RunSimulation_default;;
  '(_, inconsistency_count) ← read;
  EXPECT (bool_decide (at_least ≤ inconsistency_count)).

Definition SleepLag : prog (Z * Z) unit :=
  InitWorld 42 default_world;;
  AddHost "addr1" 1 default_host;;
  AddHost "addr2" 2 (MkHostOptions (MkInterval 0 0) (0%Q, 0%Q) (ms 1));;
  RunSimulation_default;;
  '(_, inconsistency_count) ← read;
  EXPECT (bool_decide (at_least ≤ inconsistency_count)).
End test.
End Inconsistency.

Module AwaitFiberInHost.
(** [last] *)
Definition Host (first_dur second_dur : Z) : prog Z unit :=
  handle ← fiber post (Sleep first_dur);
  fiber_join handle;;
  now ← Now; EXPECT_EQ now first_dur;;
  handle ← fiber dispatch (Sleep second_dur);
  fiber_join handle;;
  current ← Now;
  EXPECT_EQ current (first_dur + second_dur);;
  last ← read;
  EXPECT (bool_decide (last ≤ current));;
  write current.

Definition Main (p : ptr) : prog Z unit :=
  match p with
  | 1 => Host (minutes 5) (hour 10)
  | 2 => Host (us 10) (ms 2)
  | 3 => Host (hour 100) (ms 1)
  | 4 => Host (sec 1) (sec 1)
  | _ => Host (us 1) (us 1)
  end%positive.

Definition test : prog Z unit :=
  InitWorld 42 default_world;;
  AddHost "addr1" 1 default_host;;
  AddHost "addr2" 2 default_host;;
  AddHost "addr3" 3 default_host;;
  AddHost "addr4" 4 default_host;;
  AddHost "addr5" 5 default_host;;
  RunSimulation_default.
End AwaitFiberInHost.

Module Dispatch.
(** [hosts] *)
Definition same (host_id : ptr) : prog (gset ptr) unit := id ← GetHostUniqueId; EXPECT_EQ host_id id.
Definition nap : prog (gset ptr) unit := Sleep (hour 1).

(** [async(policy, []() { SleepFor(1h); }).wait()] *)
Definition nested_nap (policy : launch) : prog (gset ptr) unit := h ← async policy nap; fiber_join h.

Definition fiber1 (host_id : ptr) : prog (gset ptr) unit :=
  nap;;
  same host_id;;
  h1 ← async dispatch (same host_id;; nap;; same host_id;; nested_nap dispatch;; nap;; same host_id);
  h2 ← async dispatch (nap;; same host_id;; nested_nap dispatch;; nap);
  same host_id;;
  nap;;
  fiber_join h1;;
  nap;;
  fiber_join h2;;
  nap;;
  same host_id.

Definition fiber2 (host_id : ptr) : prog (gset ptr) unit :=
  same host_id;;
  nap;;
  same host_id;;
  h1 ← async post (nap;; nested_nap dispatch;; same host_id;; nap);
  h2 ← async post (nap;; nested_nap post;; nap);
  nap;;
  fiber_join h1;;
  nap;;
  fiber_join h2;;
  nap.

Definition Main (_ : ptr) : prog (gset ptr) unit :=
  start_time ← Now;
  host_id ← GetHostUniqueId;
  hosts ← read;
  EXPECT (bool_decide (host_id ∉ hosts));;
  write ({[ host_id ]} ∪ hosts);;
  h1 ← async dispatch (fiber1 host_id);
  h2 ← async dispatch (fiber2 host_id);
  h3 ← async dispatch (
    nap;; same host_id;; fiber_join h1;; nap;; same host_id;; fiber_join h2;; nap;; same host_id);
  fiber_join h3;;
  now ← Now;
  EXPECT_EQ (now - start_time) (hour 8);;
  same host_id.

Definition host_options : HostOptions := MkHostOptions (MkInterval (hour 1) (hour 2)) (1 # 1000, 2 # 1000)%Q 0.

(** 100 simulations with 10 hosts in the source; in each one the set of hosts
    is a new one. *)
Definition test (simulations hosts : nat) : prog (gset ptr) unit :=
  for_loop simulations 0 (λ _,
    write ∅;;
    InitWorld 42 default_world;;
    for_loop hosts 0 (λ i, AddHost ("addr" +:+ pretty i) 1 host_options);;
    RunSimulation_default).
End Dispatch.

(** ** src/runtime/simulator/ut/cancellation.cpp *)

Module CancelSleepSimplyWorks.
Definition Main (_ : ptr) : prog () unit :=
  source ← atomic StopSource_new;
  handle ← async post (Sleep (sec 1);; atomic (StopSource_Stop source));
  token ← token_of source;
  stopped ← SleepFor (hour 1) token;
  EXPECT stopped;;
  now ← Now; EXPECT_EQ now (sec 1);;
  fiber_join handle.

Definition test : prog () unit :=
  InitWorld 42 default_world;;
  AddHost "addr1" 1 default_host;;
  RunSimulation_default.
End CancelSleepSimplyWorks.

Module SleepAfterCancel.
Definition Main (_ : ptr) : prog () unit :=
  source ← atomic StopSource_new;
  atomic (StopSource_Stop source);;
  token ← token_of source;
  SleepFor (hour 1) token;;
  now ← Now; EXPECT_EQ now (sec 0).

Definition test : prog () unit :=
  InitWorld 42 default_world;;
  AddHost "addr1" 1 default_host;;
  RunSimulation_default.
End SleepAfterCancel.

Module CancellationDoesNotAffectOther.
Definition Main (_ : ptr) : prog () unit :=
  source ← atomic StopSource_new;
  atomic (StopSource_Stop source);;
  h1 ← async post (token ← token_of source; SleepFor (hour 1) token;; Ret ());
  h2 ← async post (Sleep (hour 1));
  h3 ← async post (token ← token_of source; SleepFor (hour 1) token;; Ret ());
  now ← Now; EXPECT_EQ now (sec 0);;
  atomic (StopSource_Stop source);;
  now ← Now; EXPECT_EQ now (sec 0);;
  fiber_join h1;;
  fiber_join h2;;
  fiber_join h3;;
  now ← Now; EXPECT_EQ now (hour 1).

Definition test : prog () unit :=
  InitWorld 42 default_world;;
  AddHost "addr1" 1 default_host;;
  RunSimulation_default.
End CancellationDoesNotAffectOther.

(** ** src/runtime/simulator/ut/host_kill.cpp *)

Module KillSimplyWorks.
Definition Supervisor : prog Z unit :=
  Sleep (sec 1);;
  KillHost "addr1";;
  Sleep (hour 1);;
  StartHost "addr1".

(** [count] *)
Definition Host : prog Z unit :=
  count ← read; write (count + 1);;
  Sleep (sec 10);;
  count ← read; write (count + 1).

Definition Main (p : ptr) : prog Z unit := if decide (p = 1%positive) then Host else Supervisor.

Definition simulation : prog Z unit :=
  InitWorld 42 default_world;;
  AddHost "addr1" 1 default_host;;
  AddHost "supervisor" 2 default_host;;
  RunSimulation_default.

Definition test : prog Z unit :=
  simulation;;
  count ← read; EXPECT_EQ count 3;;
  simulation;;
  count ← read; EXPECT_EQ count 6.
End KillSimplyWorks.

Module KillWithoutRestarting.
Definition Supervisor : prog Z unit :=
  Sleep (sec 1);;
  KillHost "addr1";;
  PauseHost "addr1".

(** [count] *)
Definition Host : prog Z unit :=
  count ← read; write (count + 1);;
  Sleep (sec 10);;
  count ← read; write (count + 1).

Definition Main (p : ptr) : prog Z unit := if decide (p = 1%positive) then Host else Supervisor.

Definition simulation : prog Z unit :=
  InitWorld 42 default_world;;
  AddHost "addr1" 1 default_host;;
  AddHost "supervisor" 2 default_host;;
  RunSimulation_default.

Definition test : prog Z unit :=
  simulation;;
  count ← read; EXPECT_EQ count 1;;
  simulation;;
  count ← read; EXPECT_EQ count 2.
End KillWithoutRestarting.

(** ** src/runtime/simulator/ut/host_pause.cpp *)

Module PauseSimplyWorks.
Definition Supervisor : prog () unit :=
  Sleep (sec 1);;
  PauseHost "addr1";;
  Sleep (hour 1);;
  ResumeHost "addr1".

Definition Host : prog () unit :=
  start ← Now;
  Sleep (sec 10);;
  end_ ← Now;
  EXPECT_EQ (end_ - start) (hour 1 + sec 1).

Definition Main (p : ptr) : prog () unit := if decide (p = 1%positive) then Host else Supervisor.

Definition test : prog () unit :=
  InitWorld 42 default_world;;
  AddHost "addr1" 1 default_host;;
  AddHost "supervisor" 2 default_host;;
  RunSimulation_default.
End PauseSimplyWorks.

Module PauseWithoutResuming.
Definition Supervisor : prog Z unit := PauseHost "addr1".

(** [count] *)
Definition Host : prog Z unit :=
  Sleep (sec 1);;
  count ← read; write (count + 1).

Definition Main (p : ptr) : prog Z unit := if decide (p = 1%positive) then Host else Supervisor.

Definition simulation : prog Z unit :=
  InitWorld 42 default_world;;
  AddHost "addr1" 1 default_host;;
  AddHost "supervisor" 2 default_host;;
  RunSimulation (sec 5) u64_max.

Definition test : prog Z unit :=
  simulation;;
  simulation;;
  count ← read; EXPECT_EQ count 0.
End PauseWithoutResuming.

