(* ===== verification/SimRpcTests.v ===== *)
(** * Tests of remote calls

    src/runtime/simulator/ut/rpc.cpp, host_connections.cpp and the tests with
    servers of host_pause.cpp as programs of the simulated runtime. *)

From S2P Require Import Prelude.
From S2P Require Import Result.
From S2P Require Import RtTypes.
From S2P Require Import Serde.
From S2P Require Import SimScheduler.
From S2P Require Import SimFibers.
From S2P Require Import SimRuntime.
From S2P Require Import SimTestLib.
From stdpp Require Import pretty.
From Stdlib Require Import QArith_base.

Local Open Scope Z_scope.

(** ** src/runtime/simulator/ut/rpc.cpp *)

(** [EchoService::Echo] *)
Definition EchoService_Echo {X} (msg : string) (request : EchoRequest) : prog X (Result EchoReply RpcError) :=
  Ret (Ok (MkEchoReply ("Hello, " +:+ request_msg request +:+ msg))).

(** All services are an [EchoService] with the empty message. *)
Definition EchoServices {X} (_ : ptr) : string → Data → prog X (Result Data RpcError) :=
  EchoServiceStub (EchoService_Echo "").

Definition addr1 : Endpoint := MkEndpoint "addr1" 42.

Module RpcSimplyWorks.
Definition Host : prog () unit := serve "EchoService" 1 42 (hour 1).

Definition Client : prog () unit :=
  Sleep (sec 1);;
  result ← Client_Echo addr1 "Client" None;
  value ← ValueOf result; EXPECT_EQ (reply_msg value) "Hello, Client";;
  result ← Client_Echo addr1 "Again Client" None;
  value ← ValueOf result; EXPECT_EQ (reply_msg value) "Hello, Again Client".

Definition Main (p : ptr) : prog () unit := if decide (p = 1%positive) then Host else Client.

Definition test : prog () unit :=
  InitWorld 42 default_world;;
  AddHost "addr1" 1 default_host;;
  AddHost "addr2" 2 default_host;;
  RunSimulation_default.
End RpcSimplyWorks.

Definition delivery (lo hi : Z) : WorldOptions := MkWorldOptions 0 (MkInterval lo hi) (MkInterval 0 0) 0.

(** That two durations differ is a matter of the seed. *)
Module DeliveryTime.
Definition Host : prog () unit := serve "EchoService" 1 42 (hour 1).

Definition Client : prog () unit :=
  Sleep (sec 1);;
  start ← Now;
  result ← Client_Echo addr1 "Client" None;
  value ← ValueOf result; EXPECT_EQ (reply_msg value) "Hello, Client";;
  now ← Now;
  let duration1 := now - start in
  EXPECT (bool_decide (duration1 ≤ ms 20));;
  EXPECT (bool_decide (ms 10 ≤ duration1));;
  start ← Now;
  result ← Client_Echo addr1 "Again Client" None;
  value ← ValueOf result; EXPECT_EQ (reply_msg value) "Hello, Again Client";;
  now ← Now;
  let duration2 := now - start in
  EXPECT (bool_decide (duration2 ≤ ms 20));;
  EXPECT (bool_decide (ms 10 ≤ duration2));;
  EXPECT (bool_decide (duration2 ≠ duration1)).

Definition Main (p : ptr) : prog () unit := if decide (p = 1%positive) then Host else Client.

Definition test : prog () unit :=
  InitWorld 42 (delivery (ms 5) (ms 10));;
  AddHost "addr1" 1 default_host;;
  AddHost "addr2" 2 default_host;;
  RunSimulation_default.
End DeliveryTime.

(** 10000 calls in the source, of which 2500 to 3500 fail. *)
Module NetworkErrorProba.
Definition Host : prog () unit := serve "EchoService" 1 42 (hour 10).

Section client.
Variable calls at_least at_most : Z.

Definition request (error_count : Z) : prog () Z :=
  result ← Client_Echo addr1 "Client" None;
  match result with
  | Err e => EXPECT_EQ (rpc_error_type e) NetworkError;; Ret (error_count + 1)
  | Ok value => EXPECT_EQ (reply_msg value) "Hello, Client";; Ret error_count
  end.

Definition Client : prog () unit :=
  Sleep (sec 1);;
  error_count ← Loop (λ '(i, error_count),
    if decide (i < calls) then
      error_count ← request error_count;
      Ret (inl (i + 1, error_count))
    else Ret (inr error_count)) (0, 0) Ret;
  EXPECT (bool_decide (at_least ≤ error_count));;
  EXPECT (bool_decide (error_count ≤ at_most)).

Definition Main (p : ptr) : prog () unit := if decide (p = 1%positive) then Host else Client.
End client.

Definition test : prog () unit :=
  InitWorld 3 (MkWorldOptions (3 # 10) (MkInterval (ms 5) (ms 10)) (MkInterval 0 0) 0);;
  AddHost "addr1" 1 default_host;;
  AddHost "addr2" 2 default_host;;
  RunSimulation_default.
End NetworkErrorProba.

(** 50 clients with 100 rounds in the source. *)
Module ManyClientsManyServers.
Definition Host : prog () unit :=
  server1 ← atomic Server_new;
  server2 ← atomic Server_new;
  handle ← async post (serve "EchoService" 3 3 (hour 10));
  atomic (Server_Register server1 "EchoService" 1);;
  Server_Start server1 1;;
  worker1 ← fiber post (Server_Run server1);
  atomic (Server_Register server2 "EchoService" 2);;
  Server_Start server2 2;;
  worker2 ← fiber post (Server_Run server2);
  Sleep (hour 10);;
  fiber_join handle;;
  Server_ShutDown server1;;
  Server_ShutDown server2;;
  fiber_join worker1;;
  fiber_join worker2;;
  atomic (Server_destroy server2);;
  atomic (Server_destroy server1).

Definition start_request (endpoint : Endpoint) (msg : string) : prog () ptr :=
  async post (
    result ← Client_Echo endpoint msg None;
    EXPECT (negb (HasError result));;
    value ← ValueOf result; EXPECT_EQ (reply_msg value) ("Hello, " +:+ msg)).

Definition round : prog () unit :=
  r1 ← start_request (MkEndpoint "addr1" 1) "host1port1";
  r2 ← start_request (MkEndpoint "addr1" 2) "host1port2";
  r3 ← start_request (MkEndpoint "addr1" 3) "host1port3";
  r4 ← start_request (MkEndpoint "addr2" 1) "host2port1";
  r5 ← start_request (MkEndpoint "addr2" 2) "host2port2";
  r6 ← start_request (MkEndpoint "addr2" 3) "host2port3";
  fiber_join r1;; fiber_join r2;; fiber_join r3;; fiber_join r4;; fiber_join r5;; fiber_join r6.

Definition Client (kIterCount : nat) : prog () unit :=
  Sleep (sec 1);;
  start_time ← Now;
  for_loop kIterCount 0 (λ _, round);;
  now ← Now;
  EXPECT (bool_decide (now - start_time < ms 20 * Z.of_nat kIterCount));;
  EXPECT (bool_decide (ms 10 * Z.of_nat kIterCount < now - start_time)).

Definition Main (kIterCount : nat) (p : ptr) : prog () unit :=
  if decide (p = 1%positive) then Host else Client kIterCount.

Definition test (clients : nat) : prog () unit :=
  InitWorld 42 (delivery (ms 5) (ms 10));;
  AddHost "addr1" 1 default_host;;
  AddHost "addr2" 1 default_host;;
  for_loop clients 0 (λ i, AddHost ("client" +:+ pretty i) 2 default_host);;
  RunSimulation_default.
End ManyClientsManyServers.

(** 50 clients with 100 rounds in the source. *)
Module EchoProxy.
(** [host_id] of the proxy *)
Definition ProxyHost : prog ptr unit :=
  host_id ← GetHostUniqueId;
  write host_id;;
  serve "EchoProxy" 1 42 (hour 10).

Definition same_host : prog ptr unit := host_id ← read; id ← GetHostUniqueId; EXPECT_EQ host_id id.

Definition Forward (endpoint : Endpoint) (suffix : string) (request : EchoRequest) :
    prog ptr (Result EchoReply RpcError) :=
  same_host;;
  reply ← Client_Echo endpoint (request_msg request) None;
  same_host;;
  value ← ValueOf reply;
  Ret (Ok (MkEchoReply (reply_msg value +:+ suffix))).

Definition Forward1 : EchoRequest → prog ptr (Result EchoReply RpcError) := Forward (MkEndpoint "addr1" 1) " Forward1".
Definition Forward2 : EchoRequest → prog ptr (Result EchoReply RpcError) := Forward (MkEndpoint "addr2" 2) " Forward2".

(** The generated stub of [EchoProxy]. *)
Definition EchoProxyStub (handler_name : string) (data : Data) : prog ptr (Result Data RpcError) :=
  if decide (handler_name = "Forward1") then ProcessRequestWrapper data Forward1
  else if decide (handler_name = "Forward2") then ProcessRequestWrapper data Forward2
  else Ret (Err (MkRpcError HandlerNotFound "")).

Definition EchoHost1 : prog ptr unit := serve "EchoService" 2 1 (hour 10).
Definition EchoHost2 : prog ptr unit := serve "EchoService" 3 2 (hour 10).

Definition forward (method msg : string) : prog ptr (Result EchoReply RpcError) :=
  MakeRequest (MkEndpoint "proxy_addr" 42) (MkEchoRequest msg) "EchoProxy" method None.

Definition message (m : string) (client_ind i : Z) : string :=
  "m=" +:+ m +:+ ";client=" +:+ pretty client_ind +:+ ";ind=" +:+ pretty i.

Definition Client (kIterCount : nat) (client_ind : Z) : prog ptr unit :=
  Sleep (sec 1);;
  start_time ← Now;
  handle1 ← async dispatch (for_loop kIterCount 0 (λ i,
    Sleep (ms 10);;
    h ← async dispatch (
      Sleep (ms 1);;
      res ← forward "Forward1" (message "1" client_ind i);
      EXPECT (negb (HasError res));;
      value ← ValueOf res;
      EXPECT_EQ (reply_msg value) ("Hello, " +:+ message "1" client_ind i +:+ "host1 Forward1");;
      Sleep (ms 1));
    Sleep (ms 10);;
    fiber_join h));
  handle2 ← async post (for_loop kIterCount 0 (λ i,
    Sleep (ms 10);;
    res ← forward "Forward2" (message "2" client_ind i);
    EXPECT (negb (HasError res));;
    value ← ValueOf res;
    EXPECT_EQ (reply_msg value) ("Hello, " +:+ message "2" client_ind i +:+ "host2 Forward2");;
    Sleep (ms 10)));
  fiber_join handle1;;
  fiber_join handle2;;
  now ← Now;
  EXPECT (bool_decide (now - start_time < (ms 40 + ms 22) * Z.of_nat kIterCount));;
  EXPECT (bool_decide ((ms 20 + ms 22) * Z.of_nat kIterCount < now - start_time)).

Definition Main (kIterCount : nat) (p : ptr) : prog ptr unit :=
  match p with
  | 1 => EchoHost1
  | 2 => EchoHost2
  | 3 => ProxyHost
  | _ => Client kIterCount (Zpos p - 4)
  end%positive.

Definition ProcessRequest (service : ptr) : string → Data → prog ptr (Result Data RpcError) :=
  match service with
  | 1 => EchoProxyStub
  | 2 => EchoServiceStub (EchoService_Echo "host1")
  | _ => EchoServiceStub (EchoService_Echo "host2")
  end%positive.

Definition test (clients : nat) : prog ptr unit :=
  InitWorld 42 (delivery (ms 5) (ms 10));;
  AddHost "addr1" 1 default_host;;
  AddHost "addr2" 2 default_host;;
  AddHost "proxy_addr" 3 default_host;;
  for_loop clients 0 (λ i, AddHost ("client" +:+ pretty i) (Z.to_pos (i + 4)) default_host);;
  RunSimulation_default.
End EchoProxy.

Module CancelSimplyWorks.
Definition Host : prog () unit := serve "EchoService" 1 42 (hour 1).

Definition Echo (_ : EchoRequest) : prog () (Result EchoReply RpcError) :=
  Sleep (sec 5);;
  Ret (Err (MkRpcError RpcInternal "")).

Definition Client : prog () unit :=
  Sleep (sec 1);;
  source ← atomic StopSource_new;
  cancel_task ← async post (Sleep (sec 1);; atomic (StopSource_Stop source));
  token ← token_of source;
  result ← Client_Echo addr1 "Client" token;
  error ← ErrorOf result; EXPECT_EQ (rpc_error_type error) Cancelled;;
  fiber_join cancel_task.

Definition Main (p : ptr) : prog () unit := if decide (p = 1%positive) then Host else Client.
Definition ProcessRequest (_ : ptr) : string → Data → prog () (Result Data RpcError) := EchoServiceStub Echo.

Definition test : prog () unit :=
  InitWorld 42 default_world;;
  AddHost "addr1" 1 default_host;;
  AddHost "addr2" 2 default_host;;
  RunSimulation_default.
End CancelSimplyWorks.

Module HandlerNotFoundTest.
Definition Host : prog () unit :=
  server ← atomic Server_new;
  Server_Start server 42;;
  worker ← fiber post (Server_Run server);
  Sleep (hour 1);;
  Server_ShutDown server;;
  fiber_join worker;;
  atomic (Server_destroy server).

Definition Client : prog () unit :=
  result ← Client_Echo addr1 "Client" None;
  EXPECT (HasError result);;
  error ← ErrorOf result; EXPECT_EQ (rpc_error_type error) HandlerNotFound.

Definition Main (p : ptr) : prog () unit := if decide (p = 1%positive) then Host else Client.

Definition test : prog () unit :=
  InitWorld 42 default_world;;
  AddHost "addr1" 1 default_host;;
  AddHost "addr2" 2 default_host;;
  RunSimulation_default.
End HandlerNotFoundTest.

Module ConnectionRefusedTest.
Definition Client : prog () unit :=
  result ← Client_Echo (MkEndpoint "addr1" 43) "Client" None;
  EXPECT (HasError result);;
  error ← ErrorOf result; EXPECT_EQ (rpc_error_type error) ConnectionRefused.

Definition Main (_ : ptr) : prog () unit := Client.

Definition test : prog () unit :=
  InitWorld 42 default_world;;
  AddHost "addr2" 1 default_host;;
  RunSimulation_default.
End ConnectionRefusedTest.

(** 1000 calls in the source, of which 11 to 299 are long. *)
Module LongDeliveryTime.
Definition Host : prog () unit := serve "EchoService" 1 42 (hour 1).

Section client.
Variable kIterCount more_than less_than : Z.

Definition request (long_count : Z) : prog () Z :=
  start ← Now;
  result ← Client_Echo addr1 "Client" None;
  value ← ValueOf result; EXPECT_EQ (reply_msg value) "Hello, Client";;
  now ← Now;
  let duration := now - start in
  if decide (duration ≤ ms 20) then EXPECT (bool_decide (ms 10 ≤ duration));; Ret long_count
  else
    EXPECT (bool_decide (ms 105 ≤ duration));;
    EXPECT (bool_decide (duration ≤ ms 400));;
    Ret (long_count + 1).

Definition Client : prog () unit :=
  Sleep (sec 1);;
  long_count ← Loop (λ '(ind, long_count),
    if decide (ind < kIterCount) then
      long_count ← request long_count;
      Ret (inl (ind + 1, long_count))
    else Ret (inr long_count)) (0, 0) Ret;
  EXPECT (bool_decide (more_than < long_count));;
  EXPECT (bool_decide (long_count < less_than)).

Definition Main (p : ptr) : prog () unit := if decide (p = 1%positive) then Host else Client.
End client.

Definition test : prog () unit :=
  InitWorld 42 (MkWorldOptions 0 (MkInterval (ms 5) (ms 10)) (MkInterval (ms 100) (ms 200)) (1 # 10));;
  AddHost "addr1" 1 default_host;;
  AddHost "addr2" 2 default_host;;
  RunSimulation_default.
End LongDeliveryTime.

(** ** src/runtime/simulator/ut/host_pause.cpp *)

(** [Echo] that replies with the message of the request. *)
Definition plain_Echo {X} (request : EchoRequest) : prog X (Result EchoReply RpcError) :=
  Ret (Ok (MkEchoReply (request_msg request))).

Module PauseServer.
Definition Supervisor : prog () unit :=
  Sleep (hour 1);;
  PauseHost "addr1";;
  Sleep (hour 2);;
  ResumeHost "addr1".

Definition Client : prog () unit :=
  start ← Now;
  Client_Echo addr1 "test" None;;
  now ← Now; EXPECT_EQ start now;;
  Sleep (hour 2);;
  start ← Now;
  Client_Echo addr1 "test1" None;;
  now ← Now; EXPECT_EQ (start + hour 1) now;;
  start ← Now;
  Client_Echo addr1 "test2" None;;
  now ← Now; EXPECT_EQ start now.

Definition Host : prog () unit := serve "EchoService" 1 42 (hour 10).

Definition Main (p : ptr) : prog () unit :=
  match p with 1 => Host | 2 => Client | _ => Supervisor end%positive.
Definition ProcessRequest (_ : ptr) : string → Data → prog () (Result Data RpcError) := EchoServiceStub plain_Echo.

Definition test : prog () unit :=
  InitWorld 42 default_world;;
  AddHost "addr1" 1 default_host;;
  AddHost "addr2" 2 default_host;;
  AddHost "supervisor" 3 default_host;;
  RunSimulation_default.
End PauseServer.

Module PauseClient.
Definition Supervisor : prog () unit :=
  Sleep (minutes 30);;
  PauseHost "addr2";;
  Sleep (hour 2);;
  ResumeHost "addr2".

Definition Client : prog () unit :=
  start ← Now;
  response ← Client_Echo addr1 "test" None;
  ValueOf response;;
  now ← Now; EXPECT_EQ (start + hour 2 + minutes 30) now.

Definition Host : prog () unit := serve "EchoService" 1 42 (hour 10).

Definition Echo (request : EchoRequest) : prog () (Result EchoReply RpcError) :=
  Sleep (hour 1);;
  Ret (Ok (MkEchoReply (request_msg request))).

Definition Main (p : ptr) : prog () unit :=
  match p with 1 => Host | 2 => Client | _ => Supervisor end%positive.
Definition ProcessRequest (_ : ptr) : string → Data → prog () (Result Data RpcError) := EchoServiceStub Echo.

Definition test : prog () unit :=
  InitWorld 42 default_world;;
  AddHost "addr1" 1 default_host;;
  AddHost "addr2" 2 default_host;;
  AddHost "supervisor" 3 default_host;;
  RunSimulation_default.
End PauseClient.

(** ** src/runtime/simulator/ut/host_connections.cpp *)

Module HostConnections.
Definition Host : prog () unit := serve "EchoService" 1 42 (hour 10).

Definition make_request (addr : string) : prog () (Result EchoReply RpcError) :=
  Client_Echo (MkEndpoint addr 42) addr None.
Definition expect_reply (addr : string) : prog () unit :=
  result ← make_request addr; value ← ValueOf result; EXPECT_EQ (reply_msg value) addr.
Definition expect_error (addr : string) : prog () unit :=
  result ← make_request addr; error ← ErrorOf result; EXPECT_EQ (rpc_error_type error) NetworkError.

Definition Client : prog () unit :=
  expect_reply "addr1";; expect_reply "addr2";;
  Sleep (sec 5);;
  expect_error "addr1";; expect_reply "addr2";;
  Sleep (sec 5);;
  expect_reply "addr1";; expect_reply "addr2";;
  Sleep (sec 5);;
  expect_error "addr1";; expect_error "addr2";;
  Sleep (sec 5);;
  expect_reply "addr1";; expect_reply "addr2".

Definition Supervisor : prog () unit :=
  Sleep (sec 2);;
  atomic (CloseLink "cli" "addr1");;
  Sleep (sec 5);;
  atomic (RestoreLink "cli" "addr1");;
  Sleep (sec 5);;
  atomic (CloseLink "cli" "addr1");;
  atomic (CloseLink "cli" "addr2");;
  Sleep (sec 5);;
  atomic (RestoreLink "cli" "addr1");;
  atomic (RestoreLink "cli" "addr2").

Definition Main (p : ptr) : prog () unit :=
  match p with 1 => Host | 2 => Client | _ => Supervisor end%positive.
Definition ProcessRequest (_ : ptr) : string → Data → prog () (Result Data RpcError) := EchoServiceStub plain_Echo.

Definition test : prog () unit :=
  InitWorld 42 default_world;;
  AddHost "addr1" 1 default_host;;
  AddHost "addr2" 1 default_host;;
  AddHost "cli" 2 default_host;;
  AddHost "Supervisor" 3 default_host;;
  RunSimulation_default.
End HostConnections.

