(* ===== verification/SimTests.v ===== *)
(** * The tests of the simulator pass on the model

    The tests of src/runtime/simulator/ut (SimTimeTests.v, SimRpcTests.v) are
    run on the machine; small runs of one of them are the instances of the
    theorems on all client programs. The last section shows which host a fiber
    belongs to that is started by the handler of a request. *)

From S2P Require Import Prelude.
From S2P Require Import Result.
From S2P Require Import RtTypes.
From S2P Require Import Serde.
From S2P Require Import SimScheduler.
From S2P Require Import SimFibers.
From S2P Require Import SimRuntime.
From S2P Require Import SimFibersProps.
From S2P Require Import SimClients.
From S2P Require Import SimServer.
From S2P Require Import SimFiberSafety.
From S2P Require Import SimTestLib.
From S2P Require Import SimTimeTests.
From S2P Require Import SimRpcTests.
From stdpp Require Import sorting.

Local Open Scope Z_scope.

(** ** A fiber that a handler starts *)

Module HandlerFiber.
Definition Host : prog (list ptr) unit := serve "EchoService" 1 42 (hour 1).

Definition Client : prog (list ptr) unit :=
  id ← GetHostUniqueId;
  write [id];;
  Sleep (sec 1);;
  Client_Echo addr1 "Client" None;;
  Ret ().

(** The identifiers of the hosts that the client, the handler and the fiber of
    the handler run on. *)
Definition Echo (request : EchoRequest) : prog (list ptr) (Result EchoReply RpcError) :=
  id ← GetHostUniqueId;
  ids ← read; write (ids ++ [id]);;
  h ← async post (
    id ← GetHostUniqueId;
    ids ← read; write (ids ++ [id]));
  fiber_join h;;
  Ret (Ok (MkEchoReply (request_msg request))).

Definition Main (p : ptr) : prog (list ptr) unit := if decide (p = 1%positive) then Host else Client.
Definition ProcessRequest (_ : ptr) : string → Data → prog (list ptr) (Result Data RpcError) := EchoServiceStub Echo.

Definition test : prog (list ptr) unit :=
  InitWorld 42 default_world;;
  AddHost "addr1" 1 default_host;;
  AddHost "addr2" 2 default_host;;
  RunSimulation_default.
End HandlerFiber.

(** ** A stop request after the end of the simulation *)

Module LateStop.
(** The address of the [StopSource] of the test. *)
Definition Main (_ : ptr) : prog ptr unit :=
  source ← read;
  token ← token_of source;
  SleepFor (hour 1) token;;
  Ret ().

Definition test : prog ptr unit :=
  source ← atomic StopSource_new;
  write source;;
  InitWorld 42 default_world;;
  AddHost "addr1" 1 default_host;;
  RunSimulation (sec 5) u64_max;;
  atomic (StopSource_Stop source).
End LateStop.

(** ** Client programs *)

Lemma rpc_test_clients : clients RpcSimplyWorks.Main EchoServices RpcSimplyWorks.test.
Proof.
  split.
  - intros p. unfold RpcSimplyWorks.Main. case_decide; [solve_client|].
    unfold RpcSimplyWorks.Client, ValueOf, EXPECT_EQ, EXPECT. solve_client.
  - intros sv h d. unfold EchoServices, EchoServiceStub, ProcessRequestWrapper, EchoService_Echo. solve_client.
  - unfold RpcSimplyWorks.test, RunSimulation_default. solve_client.
Qed.

(** ** Instances of the theorems on client programs

    The test [RpcSimplyWorks] after 282 steps: the server has answered two calls
    and [ShutDown] has passed its wait. *)

Definition rpc_boot : machine () := boot () RpcSimplyWorks.test.

Definition rpc_machine (k : nat) : machine () := machine_at 1 RpcSimplyWorks.Main EchoServices rpc_boot k.

Lemma rpc_282 : reaches RpcSimplyWorks.Main EchoServices rpc_boot (Running (rpc_machine 282)).
Proof. apply reaches_at. by vm_compute. Qed.

Lemma simulated_time_never_goes_back_witness :
  current_time (world (state rpc_boot)) ≤ current_time (world (state (rpc_machine 282))) ∧
  current_time (world (state (rpc_machine 282))) = hour 1.
Proof.
  split; [|by vm_compute].
  destruct (simulated_time_never_goes_back RpcSimplyWorks.Main EchoServices () RpcSimplyWorks.test rpc_boot (rpc_machine 282)
    rpc_test_clients (reaches_refl _ _ _) rpc_282 ltac:(by vm_compute)) as [Ht _]. exact Ht.
Defined.

Lemma server_waits_for_workers_and_requests_witness :
  ∃ h, history (state (rpc_machine 282)) = Drained 10 :: h ∧
       tally (is_handled 10) h = 2 ∧ tally (is_began 10) h = tally (is_answered 10) h ∧
       tally (is_handled 10) h = tally (is_returned 10) h.
Proof.
  assert (Hh : history (state (rpc_machine 282)) = Drained 10 ::
    [Answered 10 20; Returned 10 20; Handled 10 20; Began 10 20;
     Answered 10 16; Returned 10 16; Handled 10 16; Began 10 16; RunCalled 10]%positive)
    by (by vm_compute).
  eexists. split; [exact Hh|]. split; [by vm_compute|].
  destruct (server_waits_for_workers_and_requests RpcSimplyWorks.Main EchoServices () RpcSimplyWorks.test (rpc_machine 282) 10
    rpc_test_clients rpc_282 ltac:(by vm_compute)) as (_ & Hdrained & _). exact (Hdrained [] _ Hh).
Defined.

Lemma no_fiber_is_lost_witness :
  NoDup (current (rpc_machine 282) :: places (state (rpc_machine 282))) ∧ places (state (rpc_machine 282)) = [dispatcher].
Proof.
  split; [|by vm_compute].
  by destruct (no_fiber_is_lost RpcSimplyWorks.Main EchoServices () RpcSimplyWorks.test (rpc_machine 282)
    rpc_test_clients rpc_282) as [Hnd _].
Defined.

(** ** The tests *)

(** Whatever the generator draws. *)
Lemma explored_pass {X} Main ProcessRequest (x : X) test `{!GeneratorLaws G} n :
  schedules_pass Main ProcessRequest x test = true →
  passes (run Main ProcessRequest 11 (boot x test) n).1 = true.
Proof. intros Hs. apply (explored_runs _ _ passes 2000); [done|]. apply Nat.leb_le. by vm_compute. Qed.

(** Tests of which every run is explored. *)
Lemma explored_tests :
  schedules_pass SimpleOneHost.Main no_services () SimpleOneHost.test = true ∧
  schedules_pass WorldInitialization.Main no_services () WorldInitialization.test = true ∧
  schedules_pass CancelSleepSimplyWorks.Main no_services () CancelSleepSimplyWorks.test = true ∧
  schedules_pass SleepAfterCancel.Main no_services () SleepAfterCancel.test = true ∧
  schedules_pass ConnectionRefusedTest.Main no_services () ConnectionRefusedTest.test = true.
Proof. split_and!; vm_compute; reflexivity. Qed.

(** The others with sample generators; where the source repeats something many
    times, it is repeated a few times here. *)
Definition sampled_tests : list bool :=
  let seeds := [1; 2; 3; 42] in
  [ (* time.cpp *)
    pass_with seeds HostOrdering.Main no_services [] HostOrdering.test;
    pass_with [1] (TimeLoop.Main (sec 10)) no_services 2 TimeLoop.test;
    pass_with [42] (Inconsistency.Main (sec 400)) no_services (2, 0) (Inconsistency.Drift 1);
    pass_with [1] (Inconsistency.Main (sec 1200)) no_services (2, 0) (Inconsistency.SleepLag 1);
    pass_with seeds AwaitFiberInHost.Main no_services 0 AwaitFiberInHost.test;
    pass_with [1] Dispatch.Main no_services ∅ (Dispatch.test 1 2);
    (* cancellation.cpp, host_kill.cpp, host_pause.cpp *)
    pass_with seeds CancellationDoesNotAffectOther.Main no_services () CancellationDoesNotAffectOther.test;
    pass_with seeds KillSimplyWorks.Main no_services 0 KillSimplyWorks.test;
    pass_with seeds KillWithoutRestarting.Main no_services 0 KillWithoutRestarting.test;
    pass_with seeds PauseSimplyWorks.Main no_services () PauseSimplyWorks.test;
    pass_with seeds PauseWithoutResuming.Main no_services 0 PauseWithoutResuming.test;
    pass_with seeds PauseServer.Main PauseServer.ProcessRequest () PauseServer.test;
    pass_with seeds PauseClient.Main PauseClient.ProcessRequest () PauseClient.test;
    (* host_connections.cpp *)
    pass_with seeds HostConnections.Main HostConnections.ProcessRequest () HostConnections.test;
    (* rpc.cpp *)
    pass_with seeds RpcSimplyWorks.Main EchoServices () RpcSimplyWorks.test;
    pass_with seeds DeliveryTime.Main EchoServices () DeliveryTime.test;
    pass_with [2] (NetworkErrorProba.Main 40 5 20) EchoServices () NetworkErrorProba.test;
    pass_with [1] (ManyClientsManyServers.Main 2) EchoServices () (ManyClientsManyServers.test 2);
    pass_with [1] (EchoProxy.Main 2) EchoProxy.ProcessRequest 1%positive (EchoProxy.test 2);
    pass_with seeds CancelSimplyWorks.Main CancelSimplyWorks.ProcessRequest () CancelSimplyWorks.test;
    pass_with seeds HandlerNotFoundTest.Main no_services () HandlerNotFoundTest.test;
    pass_with [1] (LongDeliveryTime.Main 40 1 20) EchoServices () LongDeliveryTime.test ].

Lemma sampled_tests_pass : forallb id sampled_tests = true.
Proof. vm_compute. reflexivity. Qed.

(** The tests of the simulator pass on the model: the ones that are small
    enough whatever is drawn, with every order of the fibers, the others with
    sample generators; [EXPECT_DEATH] aborts with the message of the check. *)
Theorem simulator_tests_pass (G : Generator) (n : N) :
  GeneratorLaws G →
  passes (run SimpleOneHost.Main no_services 11 (boot () SimpleOneHost.test) n).1 = true ∧
  passes (run WorldInitialization.Main no_services 11 (boot () WorldInitialization.test) n).1 = true ∧
  passes (run CancelSleepSimplyWorks.Main no_services 11 (boot () CancelSleepSimplyWorks.test) n).1 = true ∧
  passes (run SleepAfterCancel.Main no_services 11 (boot () SleepAfterCancel.test) n).1 = true ∧
  passes (run ConnectionRefusedTest.Main no_services 11 (boot () ConnectionRefusedTest.test) n).1 = true ∧
  Forall (λ passed, passed = true) sampled_tests ∧
  run_with 1 WorldInitialization.Main no_services () WorldInitialization.EXPECT_DEATH =
    Crashed (Panic "world in unitialized").
Proof.
  intros HG. destruct explored_tests as (H1 & H2 & H3 & H4 & H5).
  split_and!; try by apply explored_pass.
  - pose proof sampled_tests_pass as Hs. rewrite forallb_forall in Hs. apply Forall_forall. intros b Hb.
    by apply Hs, list_elem_of_In.
  - by vm_compute.
Qed.

Lemma simulator_tests_pass_witness :
  passes (run (H := mixed 42) ConnectionRefusedTest.Main no_services 11 (boot () ConnectionRefusedTest.test) 0).1 = true.
Proof. destruct (simulator_tests_pass (mixed 42) 0 (mixed_laws 42)) as (_ & _ & _ & _ & Hp & _). exact Hp. Defined.

(** A fiber that the handler of a request starts before it is suspended
    belongs to the host of the client: the fiber of the request has set its own
    host to the server, but the scheduler gives new fibers the host that the
    running fiber had when it was picked. *)
Example handler_fiber_runs_on_host_of_client :
  Forall (λ seed, ∃ s client server,
    run_with seed HandlerFiber.Main HandlerFiber.ProcessRequest [] HandlerFiber.test = Ended s ∧
    vars s = [client; server; client] ∧ client ≠ server) [1; 2; 3; 42].
Proof.
  assert (Hrun : ∀ seed,
    match run_with seed HandlerFiber.Main HandlerFiber.ProcessRequest [] HandlerFiber.test with
    | Ended s => match vars s with [c; sv; c'] => bool_decide (c = c' ∧ c ≠ sv) | _ => false end
    | _ => false
    end = true →
    ∃ s client server,
      run_with seed HandlerFiber.Main HandlerFiber.ProcessRequest [] HandlerFiber.test = Ended s ∧
      vars s = [client; server; client] ∧ client ≠ server).
  { intros seed Hr. destruct (run_with seed _ _ _ _) as [m|s|o]; try done.
    destruct (vars s) as [|c [|sv [|c' [|]]]] eqn:Hv; try done. apply bool_decide_eq_true in Hr as [-> Hne].
    exists s, c', sv. split_and!; done. }
  repeat (constructor; [apply Hrun; by vm_compute|]). constructor.
Qed.

(** [RunSimulation] clears the queue of events but not the callbacks of the
    sleeping fibers: a [Stop] after its end erases an event that is gone. *)
Example stop_after_simulation_is_undefined :
  run_with 1 LateStop.Main no_services 1%positive LateStop.test = Crashed (Undefined "erase of an invalid iterator").
Proof. by vm_compute. Qed.
