(* ===== verification/SimDatabaseTests.v ===== *)
(** * Tests of the simulated database

    src/runtime/simulator/ut/database.cpp as programs of the simulated runtime:
    the hosts open storages (KVStorage.v) on their databases (Database.v), and
    every call on a database or an iterator first passes
    [Host::StopFiberIfNecessary] (src/runtime/simulator/database.cpp), where the
    fibers of a killed host stay. The databases belong to the hosts and survive
    their restart. *)

From S2P Require Import Prelude.
From S2P Require Import Result.
From S2P Require Import RtTypes.
From S2P Require Import Serde.
From S2P Require Import IDatabase.
From S2P Require Import Database.
From S2P Require Import KVStorage.
From S2P Require Import SimFibers.
From S2P Require Import SimRuntime.
From S2P Require Import SimTestLib.

Local Open Scope Z_scope.

(** The databases of the hosts, by host and path, and the variables of the
    test. *)
Record files (Y : Type) : Type := MkFiles {
  databases : gmap ptr (gmap string HostDatabase);
  test_vars : Y;
}.
Arguments MkFiles {Y}.
Arguments databases {Y}.
Arguments test_vars {Y}.

(** A storage: the host and the path of its database. *)
Definition handle : Type := ptr * string.

(** ** Storages on the databases of the hosts *)

Section storage.
Context {Y : Type}.
Local Abbreviation X := (files Y).

Definition db_check : prog X unit := h ← GetCurrentHost; StopFiberIfNecessary h.

(** [Host::databases] *)
Definition get_databases (h : ptr) : M X (gmap string HostDatabase) :=
  gets (λ s, default ∅ (databases (vars s) !! h)).
Definition set_databases (h : ptr) (dbs : gmap string HostDatabase) : M X unit :=
  modify (λ s, with_vars (MkFiles (<[h := dbs]> (databases (vars s))) (test_vars (vars s))) s).

Definition database (kv : handle) : M X HostDatabase :=
  dbs ← get_databases kv.1;
  match dbs !! kv.2 with
  | Some db => mret db
  | None => lift (Undefined "database does not exist")
  end.

(** An operation that changes the database of a storage. *)
Definition update {A} (kv : handle) (op : HostDatabase → outcome (A * HostDatabase)) : prog X A :=
  db_check;;
  atomic (
    db ← database kv;
    '(a, db) ← lift (op db);
    dbs ← get_databases kv.1;
    set_databases kv.1 (<[kv.2 := db]> dbs);;
    mret a).

Definition kv_Open `{CSerde K} (Cmp : K → K → bool) (path : string) (options : Options)
    : prog X (Result handle DBError) :=
  db_check;;
  h ← GetCurrentHost;
  epoch ← GetCurrentEpoch;
  atomic (
    dbs ← get_databases h;
    '(r, dbs) ← lift (KVStorage.Open Cmp "KVStorage" epoch path options dbs);
    set_databases h dbs;;
    mret (match r with Ok path => Ok (h, path) | Err e => Err e end)).

Definition kv_Put `{CSerde K} `{CSerde V} (key : K) (value : V) (kv : handle) : prog X (Status DBError) :=
  update kv (KVStorage.Put key value).
Definition kv_Get {K} (V : Type) `{CSerde K} `{CSerde V} (key : K) (kv : handle) : prog X (Result V DBError) :=
  db_check;; atomic (db ← database kv; lift (KVStorage.Get key db)).
Definition kv_Delete `{CSerde K} (key : K) (kv : handle) : prog X (Status DBError) :=
  update kv (KVStorage.Delete key).
Definition kv_DeleteRange `{CSerde K} (start_key end_key : K) (kv : handle) : prog X (Status DBError) :=
  update kv (KVStorage.DeleteRange start_key end_key).
Definition kv_Write (write_batch : WriteBatch) (kv : handle) : prog X (Status DBError) :=
  update kv (KVStorage.Write write_batch).

Definition kv_NewIterator (kv : handle) : prog X Iterator :=
  db_check;; atomic (db ← database kv; mret (KVStorage.NewIterator db : Iterator)).
Definition SeekToFirst (it : Iterator) : prog X Iterator :=
  db_check;; atomic (mret (KVStorage.Iterator_SeekToFirst it : Iterator)).
Definition Next (it : Iterator) : prog X Iterator := db_check;; atomic (lift (KVStorage.Iterator_Next it : outcome Iterator)).
Definition Valid (it : Iterator) : prog X bool := db_check;; atomic (lift (KVStorage.Iterator_Valid it)).
Definition GetKey (K : Type) `{CSerde K} (it : Iterator) : prog X K :=
  db_check;; atomic (lift (KVStorage.Iterator_GetKey it)).
Definition GetValue (V : Type) `{CSerde V} (it : Iterator) : prog X V :=
  db_check;; atomic (lift (KVStorage.Iterator_GetValue it)).

(** [.ExpectOk()] and [.ExpectFail()] *)
Definition ok (r : Status DBError) : prog X unit := atomic (lift (ExpectOk r)).
Definition fails {V} (r : Result V DBError) : prog X unit := atomic (lift (ExpectFail r)).

(** The test of a single host with this [Main]. *)
Definition one_host : prog X unit :=
  InitWorld 42 default_world;;
  AddHost "addr" 1 default_host;;
  RunSimulation_default.
End storage.

(** ** src/runtime/simulator/ut/database.cpp *)

Definition no_files {Y} (y : Y) : files Y := MkFiles ∅ y.

Module DbSimplyWorks.
Definition Main (_ : ptr) : prog (files ()) unit :=
  maybe_kv ← kv_Open Z.ltb "/tmp/testing_simply_works" (MkOptions None true);
  kv ← ValueOf maybe_kv;
  r ← kv_Get Z 42 kv; EXPECT (HasError r);;
  r ← kv_Get Z 42 kv; e ← ErrorOf r; EXPECT_EQ (db_error_type e) DBNotFound;;
  r ← kv_Put 42 24 kv; ok r;;
  r ← kv_Get Z 42 kv; v ← ValueOf r; EXPECT_EQ v 24;;
  r ← kv_Delete 42 kv; ok r;;
  r ← kv_Get Z 42 kv; EXPECT (HasError r).
Definition test : prog (files ()) unit := one_host.
End DbSimplyWorks.

Module DbMissingDb.
Definition Main (_ : ptr) : prog (files ()) unit :=
  kv ← kv_Open Z.ltb "/tmp/testing_missing_db" (MkOptions None false);
  e ← ErrorOf kv; EXPECT_EQ (db_error_type e) DBInvalidArgument.
Definition test : prog (files ()) unit := one_host.
End DbMissingDb.

Module DbDeleteRange.
Definition Main (_ : ptr) : prog (files ()) unit :=
  maybe_kv ← kv_Open Z.ltb "/tmp/testing_delete_range" (MkOptions None true);
  kv ← ValueOf maybe_kv;
  r ← kv_Put 42 24 kv; ok r;;
  r ← kv_Get Z 42 kv; v ← ValueOf r; EXPECT_EQ v 24;;
  r ← kv_Put 142 142 kv; ok r;;
  r ← kv_Put 43 43 kv; ok r;;
  r ← kv_DeleteRange 42 43 kv; ok r;;
  r ← kv_Get Z 42 kv; EXPECT (HasError r);;
  r ← kv_Get Z 142 kv; v ← ValueOf r; EXPECT_EQ v 142;;
  r ← kv_Get Z 43 kv; v ← ValueOf r; EXPECT_EQ v 43;;
  r ← kv_Put 43 24 kv; ok r;;
  r ← kv_DeleteRange 42 43 kv; ok r;;
  r ← kv_Get Z 43 kv; v ← ValueOf r; EXPECT_EQ v 24.
Definition test : prog (files ()) unit := one_host.
End DbDeleteRange.

(** The iterator is a local variable of the loop. *)
Module DbIterator.
Fixpoint check_entries (n : nat) (index : Z) (iterator : Iterator) : prog (files ()) Iterator :=
  match n with
  | O => Ret iterator
  | S n =>
      valid ← Valid iterator; EXPECT valid;;
      key ← GetKey Z iterator; EXPECT_EQ key index;;
      value ← GetValue Z iterator; EXPECT_EQ value (index + 200);;
      iterator ← Next iterator;
      check_entries n (index + 1) iterator
  end.

Definition Main (_ : ptr) : prog (files ()) unit :=
  maybe_kv ← kv_Open Z.ltb "/tmp/testing_iterator" (MkOptions None true);
  kv ← ValueOf maybe_kv;
  for_loop 200 0 (λ index, r ← kv_Put index (index + 200) kv; ok r);;
  iterator ← kv_NewIterator kv;
  iterator ← SeekToFirst iterator;
  for_loop 50 50 (λ index, r ← kv_Delete index kv; ok r);;
  iterator ← check_entries 200 0 iterator;
  valid ← Valid iterator; EXPECT (negb valid);;
  r ← kv_DeleteRange 0 200 kv; ok r.
Definition test : prog (files ()) unit := one_host.
End DbIterator.

Module DbOpenDatabaseTwice.
Definition Main (_ : ptr) : prog (files ()) unit :=
  kv1 ← kv_Open Z.ltb "/tmp/testing_open_database_twice" (MkOptions None true);
  kv1 ← ValueOf kv1;
  kv2 ← kv_Open Z.ltb "/tmp/testing_open_database_twice" (MkOptions None true);
  e ← ErrorOf kv2; EXPECT_EQ (db_error_type e) DBInternal.
Definition test : prog (files ()) unit := one_host.
End DbOpenDatabaseTwice.

Module DbStringSerde.
Definition check_entry (key : string) (value : Z) (iterator : Iterator) : prog (files ()) Iterator :=
  valid ← Valid iterator; EXPECT valid;;
  k ← GetKey string iterator; EXPECT_EQ k key;;
  v ← GetValue Z iterator; EXPECT_EQ v value;;
  Next iterator.

Definition Main (_ : ptr) : prog (files ()) unit :=
  maybe_kv ← kv_Open String.ltb "/tmp/testing_string_serde" (MkOptions None true);
  kv ← ValueOf maybe_kv;
  r ← kv_Put "bbb" 2 kv; ok r;;
  r ← kv_Put "aaa" 1 kv; ok r;;
  r ← kv_Put "ccc" 3 kv; ok r;;
  iterator ← kv_NewIterator kv;
  iterator ← SeekToFirst iterator;
  iterator ← check_entry "aaa" 1 iterator;
  iterator ← check_entry "bbb" 2 iterator;
  iterator ← check_entry "ccc" 3 iterator;
  valid ← Valid iterator; EXPECT (negb valid).
Definition test : prog (files ()) unit := one_host.
End DbStringSerde.

Module DbSurvivesRestart.
(** [first_run] and [second_finished] *)
Definition get_vars : prog (files (bool * bool)) (bool * bool) := x ← read; Ret (test_vars x).
Definition set_vars (y : bool * bool) : prog (files (bool * bool)) unit := x ← read; write (MkFiles (databases x) y).

Definition Host : prog (files (bool * bool)) unit :=
  maybe_kv ← kv_Open Z.ltb "/tmp/testing_survives_kill" (MkOptions None true);
  kv ← ValueOf maybe_kv;
  '(first_run, second_finished) ← get_vars;
  if (first_run : bool) then
    set_vars (false, second_finished);;
    r ← kv_Put 2 "bbb" kv; ok r;;
    r ← kv_Put 1 "aaa" kv; ok r;;
    r ← kv_Put 3 "ccc" kv; ok r;;
    Sleep (sec 5)
  else
    r ← kv_Get string 1 kv; v ← ValueOf r; EXPECT_EQ v "aaa";;
    r ← kv_Get string 2 kv; v ← ValueOf r; EXPECT_EQ v "bbb";;
    r ← kv_Get string 3 kv; v ← ValueOf r; EXPECT_EQ v "ccc";;
    set_vars (first_run, true).

Definition Supervisor : prog (files (bool * bool)) unit :=
  Sleep (sec 1);;
  KillHost "addr";;
  StartHost "addr".

Definition Main (p : ptr) : prog (files (bool * bool)) unit := if decide (p = 1%positive) then Host else Supervisor.

Definition test : prog (files (bool * bool)) unit :=
  InitWorld 42 default_world;;
  AddHost "addr" 1 default_host;;
  AddHost "supervisor" 2 default_host;;
  RunSimulation_default;;
  '(_, second_finished) ← get_vars;
  EXPECT second_finished.
End DbSurvivesRestart.

Module DbWriteBatch.
Definition Main (_ : ptr) : prog (files ()) unit :=
  maybe_kv ← kv_Open Z.ltb "/tmp/testing_write_batch" (MkOptions None true);
  kv ← ValueOf maybe_kv;
  r ← kv_Get Z 42 kv; fails r;;
  r ← kv_Get Z 43 kv; fails r;;
  r ← kv_Put 0 0 kv; ok r;;
  r ← kv_Put 1 1 kv; ok r;;
  r ← kv_Put 101 101 kv; ok r;;
  let write_batch : WriteBatch := KVStorage.MakeWriteBatch (DB := HostDatabase) in
  '(r, write_batch) ← atomic (lift (KVStorage.WriteBatch_Put 42 42 write_batch : outcome (_ * WriteBatch))); ok r;;
  '(r, write_batch) ← atomic (lift (KVStorage.WriteBatch_Put 43 43 write_batch : outcome (_ * WriteBatch))); ok r;;
  '(r, write_batch) ← atomic (lift (KVStorage.WriteBatch_DeleteRange 0 2 write_batch : outcome (_ * WriteBatch))); ok r;;
  '(r, write_batch) ← atomic (lift (KVStorage.WriteBatch_Delete 101 write_batch : outcome (_ * WriteBatch))); ok r;;
  r ← kv_Write write_batch kv; ok r;;
  r ← kv_Get Z 42 kv; v ← ValueOf r; EXPECT_EQ v 42;;
  r ← kv_Get Z 43 kv; v ← ValueOf r; EXPECT_EQ v 43;;
  r ← kv_Get Z 0 kv; fails r;;
  r ← kv_Get Z 1 kv; fails r;;
  r ← kv_Get Z 101 kv; fails r;;
  r ← kv_Delete 42 kv; ok r;;
  r ← kv_Delete 43 kv; ok r.
Definition test : prog (files ()) unit := one_host.
End DbWriteBatch.

(** ** The tests pass *)

(** The tests draw nothing that matters: all their runs are explored, except
    those of the test of the iterators, which is longer. *)
Theorem simulated_database_tests_pass :
  forallb id
    [schedules_pass DbSimplyWorks.Main no_services (no_files ()) DbSimplyWorks.test;
     schedules_pass DbMissingDb.Main no_services (no_files ()) DbMissingDb.test;
     schedules_pass DbDeleteRange.Main no_services (no_files ()) DbDeleteRange.test;
     pass_with [1; 42] DbIterator.Main no_services (no_files ()) DbIterator.test;
     schedules_pass DbOpenDatabaseTwice.Main no_services (no_files ()) DbOpenDatabaseTwice.test;
     schedules_pass DbStringSerde.Main no_services (no_files ()) DbStringSerde.test;
     schedules_pass DbSurvivesRestart.Main no_services (no_files (true, false)) DbSurvivesRestart.test;
     schedules_pass DbWriteBatch.Main no_services (no_files ()) DbWriteBatch.test] = true.
Proof. vm_compute. reflexivity. Qed.
