(* ===== verification/RaftClient.v ===== *)
(** * The Raft client

    Model of src/raft/client/client.cpp and src/runtime/util/backoff: errors
    of the client, one attempt ([StartAttempt]), the retry loop of [Apply] with
    the round-robin choice of the node, and the race between the result, the
    caller's cancellation and the global timeout, which is decided by
    compare-and-swap on the state of the request.

    The fibers of [Apply] are the signals that arrive during an attempt: the
    two compare-and-swaps on the state of the request and the [Stop] of the
    request's source that the successful one is followed by, in the order in
    which they happen; the answer of the node to an attempt is a parameter, as
    are the random identifiers and waiting times. *)

From S2P Require Import Prelude.
From S2P Require Import Result.
From S2P Require Import RtTypes.
From S2P Require Import StateMachine.
From S2P Require Import RaftNode.

Local Open Scope Z_scope.

(** ** Errors *)

Inductive RaftClientErrorType : Type := GlobalTimeout | RpcTimeout | NotLeader.

(** [std::variant<RaftClientErrorType, RpcError>] *)
Inductive RaftClientError : Type :=
  | ClientErrorType (t : RaftClientErrorType)
  | ClientRpcError (e : RpcError).

Definition RaftClientError_Message (e : RaftClientError) : string :=
  match e with
  | ClientRpcError e => RpcError_Message e
  | ClientErrorType GlobalTimeout => "GlobalTimeout"
  | ClientErrorType RpcTimeout => "RpcTimeout"
  | ClientErrorType NotLeader => "NotLeader"
  end.

(** ** Backoff *)

Record BackoffParams : Type := MkBackoffParams {
  initial : Z;
  max : Z;
  scale : Z → Z;  (** multiplication with the floating point [factor] *)
}.

Record Backoff : Type := MkBackoff { params : BackoffParams; current : Z }.

Definition Backoff_new (p : BackoffParams) : Backoff := MkBackoff p (initial p).

(** [draw] is the value of the distribution on [0, current]. *)
Definition Backoff_Next (draw : Z) (b : Backoff) : Z * Backoff :=
  (draw, MkBackoff (params b) (Z.min (max (params b)) (scale (params b) (current b)))).

(** ** The state of a request *)

Inductive RequestState : Type := Running | RqCancelled | RqGlobalTimeout | Finished.

#[export] Instance RequestState_eq_dec : EqDecision RequestState.
Proof. solve_decision. Defined.

(** What the fibers beside the loop do: the compare-and-swap of the stop
    callback of the caller's token, that of the timeout fiber, and the
    [stop_source.Stop()] that the successful one of them runs next. *)
Inductive signal : Type := CallerStops | TimeoutExpires | SourceStops.

#[export] Instance signal_eq_dec : EqDecision signal.
Proof. solve_decision. Defined.

(** The two atomics of [Apply]: [state] and the flag of [stop_source]. *)
Record progress : Type := MkProgress { rq_state : RequestState; rq_stopped : bool }.

Definition progress_start : progress := MkProgress Running false.

(** [compare_exchange_strong(Running, target)], and [stop_source.Stop()] by a
    fiber whose exchange succeeded. *)
Definition raise_signal (p : progress) (s : signal) : progress :=
  match rq_state p, s with
  | Running, CallerStops => MkProgress RqCancelled (rq_stopped p)
  | Running, TimeoutExpires => MkProgress RqGlobalTimeout (rq_stopped p)
  | RqCancelled, SourceStops | RqGlobalTimeout, SourceStops => MkProgress (rq_state p) true
  | _, _ => p
  end.

Definition raise_signals : progress → list signal → progress := foldl raise_signal.

(** [stop_source.StopRequested()] *)
Definition StopRequested (p : progress) : bool := rq_stopped p.

Section client.
Context {AM : AnyMessage}.

(** ** One attempt *)

Definition StartAttempt (execute : Result Response RpcError) (rpc_timed_out : bool) :
    Result Any RaftClientError :=
  AndThen
    (TransformError execute (λ error,
       if rpc_timed_out then ClientErrorType RpcTimeout else ClientRpcError error))
    (λ response,
       match rsp_status response with
       | NotALeader => Err (ClientErrorType NotLeader)
       | Commited => Ok (rsp_result response)
       end).

(** ** The retry loop *)

Record RaftClient : Type := MkRaftClient {
  clients : nat;  (** the number of nodes *)
  current_leader : Z;
  raft_client_id : Z;
}.

(** What happens during one attempt: the answer of the node, whether the
    attempt's own timeout fired before it, and the signals raised before the
    condition of the loop is evaluated. *)
Record attempt : Type := MkAttempt {
  at_execute : Result Response RpcError;
  at_timed_out : bool;
  at_signals : list signal;
}.

(** A request that was sent, and the node it was sent to. *)
Definition sent : Type := Z * Request.

(** [current_leader_ = (current_leader_ + 1) % clients_.size()] after an error. *)
Definition advance (result : Result Any RaftClientError) (c : RaftClient) : RaftClient :=
  if HasError result
  then MkRaftClient (clients c) ((current_leader c +64 1) `mod` Z.of_nat (clients c)) (raft_client_id c)
  else c.

(** The loop from attempt [attempt_id] on: [remaining] attempts are allowed after
    this one ([retry_count - attempt_id]); [env] tells what happens in each
    attempt. The result is that of the last attempt. *)
Fixpoint attempts (remaining : nat) (attempt_id : nat) (env : nat → attempt) (request : Request)
    (c : RaftClient) (p : progress) :
    outcome (Result Any RaftClientError * RaftClient * progress * list sent) :=
  if decide (0 ≤ current_leader c < Z.of_nat (clients c)) then
    let a := env attempt_id in
    let result := StartAttempt (at_execute a) (at_timed_out a) in
    let p := raise_signals p (at_signals a) in
    let c' := advance result c in
    let message := (current_leader c, request) in
    if negb (StopRequested p) && HasError result then
      match remaining with
      | O => Done (result, c', p, [message])
      | S remaining =>
          '(r, c'', p', ms) ← attempts remaining (S attempt_id) env request c' p;
          Done (r, c'', p', message :: ms)
      end
    else Done (result, c', p, [message])
  else Undefined "vector index out of range".

(** [Apply] on a packed command: [signals_before] arrive before the first
    attempt, [signals_after] between the loop and the final read of the
    state. *)
Definition Apply (retry_count : nat) (rpc_timeout global_timeout : Z) (request_id : Z) (command : Any)
    (signals_before signals_after : list signal) (env : nat → attempt) (c : RaftClient) :
    outcome (Result Any RaftClientError * RaftClient * list sent) :=
  verify (bool_decide (0 < rpc_timeout)) "invalid rpc_timeout";;
  verify (bool_decide (0 < global_timeout)) "invalid global_timeout";;
  let request := MkRequest request_id (raft_client_id c) command in
  '(result, c', p, ms) ←
    attempts retry_count 0 env request c (raise_signals progress_start signals_before);
  let result := match rq_state (raise_signals p signals_after) with
                | RqCancelled => Err (ClientRpcError (MkRpcError Cancelled ""))
                | RqGlobalTimeout => Err (ClientErrorType GlobalTimeout)
                | _ => result
                end in
  Done (result, c', ms).

(** The typed [Apply]: packing of the command and unpacking of the response. *)
Definition Apply_typed {In Out : Type} (ToAny : In → Result Any string) (FromAny : Any → Result Out string)
    (apply : Any → outcome (Result Any RaftClientError * RaftClient * list sent))
    (c : RaftClient) (command : In) : outcome (Result Out RaftClientError * RaftClient * list sent) :=
  let parse_error e := ClientRpcError (MkRpcError ParseError e) in
  match TransformError (ToAny command) parse_error with
  | Err e => Done (Err e, c, [])
  | Ok any_command =>
      '(r, c', ms) ← apply any_command;
      Done (AndThen r (λ any_response, TransformError (FromAny any_response) parse_error), c', ms)
  end.
(** ** Properties *)

(** The exchange that decides the request: the first one. *)
Definition winner (ss : list signal) : option signal := head (filter (λ s, s ≠ SourceStops) ss).

(** The source is stopped by a [Stop] that comes after a successful exchange. *)
Definition stop_requested (ss : list signal) : Prop :=
  ∃ before s after, ss = before ++ s :: after ∧ s ≠ SourceStops ∧ SourceStops ∈ after.

Lemma raise_signals_decided p ss : rq_state p = RqCancelled ∨ rq_state p = RqGlobalTimeout →
  raise_signals p ss = MkProgress (rq_state p) (rq_stopped p || bool_decide (SourceStops ∈ ss)).
Proof.
  intros Hp. revert p Hp. induction ss as [|s ss IH]; intros [st b] Hp; simpl.
  - by rewrite orb_false_r.
  - rewrite IH by (by destruct Hp as [Hp|Hp]; simpl in *; rewrite Hp; destruct s; simpl; auto).
    assert (Hcons : s ≠ SourceStops → bool_decide (SourceStops ∈ s :: ss) = bool_decide (SourceStops ∈ ss)).
    { intros Hs. apply bool_decide_ext. set_solver. }
    assert (Hstop : bool_decide (SourceStops ∈ SourceStops :: ss) = true) by (apply bool_decide_eq_true; set_solver).
    destruct Hp as [Hp|Hp]; simpl in *; subst st; destruct s; simpl;
      rewrite ?Hcons, ?Hstop, ?orb_true_r by done; done.
Qed.

Lemma stop_requested_cons s ss :
  stop_requested (s :: ss) ↔ (s ≠ SourceStops ∧ SourceStops ∈ ss) ∨ stop_requested ss.
Proof.
  split.
  - intros ([|x b] & y & a & [= -> ->] & Hy & Ha); [by left|]. right. by exists b, y, a.
  - intros [[Hs Hin]|(b & y & a & -> & Hy & Ha)]; [by exists [], s, ss|]. by exists (s :: b), y, a.
Qed.

(** The two atomics after the signals [ss]. *)
Lemma raise_signals_spec ss :
  rq_state (raise_signals progress_start ss) =
    match winner ss with
    | Some CallerStops => RqCancelled
    | Some TimeoutExpires => RqGlobalTimeout
    | _ => Running
    end ∧
  (StopRequested (raise_signals progress_start ss) = true ↔ stop_requested ss).
Proof.
  induction ss as [|s ss IH]; simpl.
  - split; [done|]. split; [done|]. by intros ([] & ? & ? & ? & ?).
  - rewrite stop_requested_cons. destruct s; [| |].
    1,2: unfold progress_start, raise_signal; simpl; fold (raise_signals);
      rewrite raise_signals_decided by (simpl; auto); simpl; split; [done|];
      rewrite bool_decide_eq_true; split; [auto|];
      intros [[_ ?]|(b & y & a & -> & _ & Ha)]; [done|]; set_solver.
    change (raise_signal progress_start SourceStops) with progress_start.
    change (foldl raise_signal progress_start ss) with (raise_signals progress_start ss).
    destruct IH as [-> IH]. split; [done|]. rewrite IH. naive_solver.
Qed.

(** What a run of the loop from attempt [first] on is: it ends with the first
    attempt that succeeds, is followed by a stop request or is the last one
    allowed. *)
Record attempts_ok (remaining first : nat) (env : nat → attempt) (request : Request) (c : RaftClient)
    (p : progress) (result : Result Any RaftClientError) (c' : RaftClient)
    (p' : progress) (ms : list sent) : Prop := {
  ao_count : (1 ≤ length ms ≤ S remaining)%nat;
  ao_messages : ∀ i m, ms !! i = Some m →
    m = ((current_leader c + Z.of_nat i) `mod` Z.of_nat (clients c), request);
  ao_result : result = StartAttempt (at_execute (env (first + length ms - 1)%nat))
                                    (at_timed_out (env (first + length ms - 1)%nat));
  ao_state : p' = raise_signals p (mjoin ((λ i, at_signals (env i)) <$> seq first (length ms)));
  ao_failed : ∀ i, (S i < length ms)%nat →
    HasError (StartAttempt (at_execute (env (first + i)%nat)) (at_timed_out (env (first + i)%nat))) = true ∧
    StopRequested (raise_signals p (mjoin ((λ i, at_signals (env i)) <$> seq first (S i)))) = false;
  ao_last : HasValue result = true ∨ StopRequested p' = true ∨ length ms = S remaining;
  ao_leader : current_leader c' =
    (current_leader c + Z.of_nat (length ms) - (if HasValue result then 1 else 0)) `mod` Z.of_nat (clients c);
  ao_clients : clients c' = clients c;
}.

Lemma advance_leader result c :
  0 ≤ current_leader c < Z.of_nat (clients c) → Z.of_nat (clients c) ≤ u64_max →
  current_leader (advance result c) =
    (current_leader c + 1 - (if HasValue result then 1 else 0)) `mod` Z.of_nat (clients c) ∧
  clients (advance result c) = clients c.
Proof.
  intros Hl Hn. unfold advance, HasError. destruct (HasValue result); simpl; (split; [|done]).
  - rewrite Z.mod_small; lia.
  - rewrite add64_small by (unfold is_u64; lia). f_equal. lia.
Qed.

Section attempt.
Context (first : nat) (env : nat → attempt) (request : Request) (c : RaftClient) (p : progress).
Hypothesis Hleader : 0 ≤ current_leader c < Z.of_nat (clients c).
Hypothesis Hclients : Z.of_nat (clients c) ≤ u64_max.
Let r := StartAttempt (at_execute (env first)) (at_timed_out (env first)).
Let p1 := raise_signals p (at_signals (env first)).

Lemma attempts_ok_one remaining :
  HasValue r = true ∨ StopRequested p1 = true ∨ remaining = 0%nat →
  attempts_ok remaining first env request c p r (advance r c) p1 [(current_leader c, request)].
Proof.
  intros Hlast. destruct (advance_leader r c Hleader Hclients) as [Hl Hc].
  split; simpl; [lia| | | | | |done|done].
  - intros [|i] m; simpl; intros [= <-]. by rewrite Z.add_0_r, Z.mod_small by lia.
  - by replace (first + 1 - 1)%nat with first by lia.
  - by rewrite app_nil_r.
  - intros. lia.
  - naive_solver.
Qed.

Lemma attempts_ok_cons remaining result c' p' ms :
  HasError r = true → StopRequested p1 = false →
  attempts_ok remaining (S first) env request (advance r c) p1 result c' p' ms →
  attempts_ok (S remaining) first env request c p result c' p' ((current_leader c, request) :: ms).
Proof.
  intros Herr Hgo [Hcount Hms Hres Hst Hfail Hlast Hlead Hcl].
  destruct (advance_leader r c Hleader Hclients) as [Hl Hc]. rewrite Hc in *.
  unfold HasError in Herr. destruct (HasValue r) eqn:Hr; [done|]. rewrite Hl in *.
  rewrite (Z.sub_0_r (current_leader c + 1)) in *. split; simpl; [lia| | | | | | |done].
  - intros [|i] m; simpl; [intros [= <-]; by rewrite Z.add_0_r, Z.mod_small by lia|].
    intros ->%Hms. f_equal. rewrite Zplus_mod_idemp_l. f_equal. lia.
  - replace (first + S (length ms) - 1)%nat with (S first + length ms - 1)%nat by lia. done.
  - rewrite Hst. unfold p1, raise_signals. by rewrite <-foldl_app.
  - intros [|i] Hlt.
    + rewrite Nat.add_0_r. fold r. simpl. rewrite app_nil_r. fold p1. unfold HasError. by rewrite Hr.
    + destruct (Hfail i) as [He Hs]; [lia|]. replace (first + S i)%nat with (S first + i)%nat by lia.
      split; [done|]. revert Hs. unfold p1, raise_signals. by rewrite <-foldl_app.
  - destruct Hlast as [?|[?|?]]; auto.
  - rewrite Hlead.
    replace (current_leader c + Z.of_nat (S (length ms)) - (if HasValue result then 1 else 0))
      with (current_leader c + 1 + (Z.of_nat (length ms) - (if HasValue result then 1 else 0))) by lia.
    rewrite <-(Zplus_mod_idemp_l (current_leader c + 1)). f_equal. lia.
Qed.
End attempt.

Lemma attempts_correct remaining first env request c p :
  0 ≤ current_leader c < Z.of_nat (clients c) → Z.of_nat (clients c) ≤ u64_max →
  ∃ result c' p' ms,
    attempts remaining first env request c p = Done (result, c', p', ms) ∧
    attempts_ok remaining first env request c p result c' p' ms.
Proof.
  revert first c p. induction remaining as [|remaining IH]; intros first c p Hl Hn; simpl;
    rewrite decide_True by done.
  - eexists _, _, _, _. split; [|apply attempts_ok_one; auto]. by destruct (_ && _).
  - destruct (negb _ && HasError _) eqn:Hgo.
    + apply andb_prop in Hgo as [Hgo%negb_true_iff Herr].
      destruct (advance_leader (StartAttempt (at_execute (env first)) (at_timed_out (env first))) c Hl Hn)
        as [Hadv Hcl].
      edestruct (IH (S first) (advance (StartAttempt (at_execute (env first)) (at_timed_out (env first))) c))
        as (r & c' & p' & ms & Hrun & Hok); [rewrite Hadv, Hcl; apply Z.mod_pos_bound; lia|by rewrite Hcl|].
      eexists r, c', p', _. rewrite Hrun, bind_Done_eq. split; [done|]. by apply attempts_ok_cons.
    + eexists _, _, _, _. split; [done|]. apply attempts_ok_one; [done..|].
      apply andb_false_iff in Hgo as [Hs|He]; [right; left; by apply negb_false_iff|left].
      unfold HasError in He. by apply negb_false_iff in He.
Qed.

(** [C38] [Apply] makes at least one and at most [retry_count + 1] attempts, all
    with the same request identifiers, at the nodes in turn starting from the
    last known leader. It goes on after exactly those attempts that failed
    and at whose end the request's source was not stopped: the last attempt
    is the first one that succeeded, found the source stopped, or was number
    [retry_count]. The source is stopped by the [Stop] that follows the
    successful exchange of the caller's callback or of the timeout fiber; if
    there was such an exchange by the time the state is read, the first one
    determines the error, even if the command was executed; otherwise the
    result is that of the last attempt. *)
Theorem Apply_correct (retry_count : nat) (rpc_timeout global_timeout request_id : Z) (command : Any)
    (before after : list signal) (env : nat → attempt) (c : RaftClient) :
  0 < rpc_timeout → 0 < global_timeout →
  0 ≤ current_leader c < Z.of_nat (clients c) → Z.of_nat (clients c) ≤ u64_max →
  let answer i := StartAttempt (at_execute (env i)) (at_timed_out (env i)) in
  let signals i := before ++ mjoin ((λ j, at_signals (env j)) <$> seq 0 (S i)) in
  ∃ result c' n,
    Apply retry_count rpc_timeout global_timeout request_id command before after env c =
      Done (result, c', (λ i, ((current_leader c + Z.of_nat i) `mod` Z.of_nat (clients c),
                               MkRequest request_id (raft_client_id c) command)) <$> seq 0 (S n)) ∧
    (n ≤ retry_count)%nat ∧
    (∀ i, (i < n)%nat → HasError (answer i) = true ∧ ¬ stop_requested (signals i)) ∧
    (HasValue (answer n) = true ∨ stop_requested (signals n) ∨ n = retry_count) ∧
    current_leader c' = (current_leader c + Z.of_nat n + (if HasError (answer n) then 1 else 0))
                          `mod` Z.of_nat (clients c) ∧
    clients c' = clients c ∧
    result = match winner (signals n ++ after) with
             | Some CallerStops => Err (ClientRpcError (MkRpcError Cancelled ""))
             | Some TimeoutExpires => Err (ClientErrorType GlobalTimeout)
             | _ => answer n
             end.
Proof.
  intros Hrpc Hglob Hl Hn answer signals. unfold Apply. rewrite !bool_decide_eq_true_2 by done.
  rewrite !(bind_Done_eq ()).
  destruct (attempts_correct retry_count 0 env (MkRequest request_id (raft_client_id c) command) c
    (raise_signals progress_start before) Hl Hn) as (result & c' & p & ms & -> & Hok).
  rewrite bind_Done_eq. destruct Hok as [Hcount Hms Hres Hst Hfail Hlast Hlead Hcl].
  eexists _, c', (length ms - 1)%nat. replace (S (length ms - 1)) with (length ms) by lia.
  assert (Hsig : ∀ i, raise_signals (raise_signals progress_start before)
      (mjoin ((λ i, at_signals (env i)) <$> seq 0 (S i))) = raise_signals progress_start (signals i)).
  { intros i. unfold signals, raise_signals. by rewrite foldl_app. }
  replace (length ms) with (S (length ms - 1)) in Hst by lia. rewrite Hsig in Hst.
  simpl in Hres. fold (answer (length ms - 1)%nat) in Hres. rewrite Hst in Hlast.
  split; [|split; [|split; [|split; [|split; [|split]]]]].
  - f_equal. f_equal. apply list_eq. intros i. rewrite list_lookup_fmap.
    destruct (decide (i < length ms)%nat) as [Hi|Hi].
    + destruct (lookup_lt_is_Some_2 ms i Hi) as [m Hm]. rewrite lookup_seq_lt, Hm by done. simpl.
      f_equal. by apply Hms.
    + rewrite lookup_seq_ge, lookup_ge_None_2 by lia. done.
  - lia.
  - intros i Hi. destruct (Hfail i) as [He Hs]; [lia|]. split; [done|].
    rewrite Hsig in Hs. rewrite <-(proj2 (raise_signals_spec _)). by rewrite Hs.
  - rewrite <-(proj2 (raise_signals_spec _)), <-Hres. destruct Hlast as [?|[?|?]]; auto. right; right. lia.
  - rewrite Hlead, <-Hres. unfold HasError. f_equal. destruct (HasValue result); simpl; lia.
  - done.
  - rewrite Hst, <-Hres. unfold raise_signals. rewrite <-foldl_app.
    rewrite (proj1 (raise_signals_spec (signals _ ++ after))).
    by destruct (winner _) as [[]|].
Qed.

(** Full jitter: a wait is never longer than the larger of the two bounds. *)
Lemma Backoff_bounded p n draws :
  (∀ x, 0 ≤ x → 0 ≤ scale p x) → 0 ≤ initial p → 0 ≤ max p →
  let b := foldl (λ b i, snd (Backoff_Next (draws i) b)) (Backoff_new p) (seq 0 n) in
  0 ≤ current b ≤ Z.max (initial p) (max p) ∧ params b = p.
Proof.
  intros Hs Hi Hm. induction n as [|n IH]; [simpl; split; [lia|done]|].
  rewrite seq_S, foldl_app. simpl in *. destruct IH as [IH Hp]. rewrite Hp.
  specialize (Hs _ (proj1 IH)). split; [lia|done].
Qed.
End client.

(** A client of three nodes with three retries allowed: the first node is not
    the leader; during the second attempt the timeout expires and its fiber
    stops the source, so the third attempt is not made. *)
Definition integer_any : AnyMessage := {| Any := Z; any_default := 0 |}.

Definition sample_env (i : nat) : attempt (AM := integer_any) :=
  match i with
  | O => MkAttempt (Ok (MkResponse (AM := integer_any) NotALeader 0)) false [TimeoutExpires]
  | 1%nat => MkAttempt (Err (MkRpcError Cancelled "")) false [CallerStops; SourceStops]
  | _ => MkAttempt (Ok (MkResponse (AM := integer_any) Commited 7)) false []
  end.

Lemma Apply_correct_witness :
  ∃ c' n, Apply (AM := integer_any) 3 100 1000 42 5 [] [] sample_env (MkRaftClient 3 0 9) =
    Done (Err (ClientErrorType GlobalTimeout), c',
          (λ i, ((0 + Z.of_nat i) `mod` 3, MkRequest (AM := integer_any) 42 9 5)) <$> seq 0 (S n)) ∧
    n = 1%nat ∧ ¬ stop_requested (at_signals (sample_env 0) ++ []) ∧ current_leader c' = 2.
Proof.
  destruct (Apply_correct (AM := integer_any) 3 100 1000 42 5 [] [] sample_env (MkRaftClient 3 0 9))
    as (result & c' & n & Heq & Hn & Hgo & _ & Hlead & _ & _); [done|done|done|done|].
  exists c', n.
  assert (He : Apply (AM := integer_any) 3 100 1000 42 5 [] [] sample_env (MkRaftClient 3 0 9) =
    Done (Err (ClientErrorType GlobalTimeout), MkRaftClient 3 2 9,
          [(0, MkRequest (AM := integer_any) 42 9 5); (1, MkRequest (AM := integer_any) 42 9 5)]))
    by (vm_compute; reflexivity).
  rewrite He in Heq |- *. injection Heq as <- <- Hms.
  assert (n = 1%nat) as ->.
  { apply (f_equal length) in Hms. simpl in Hms. rewrite length_fmap, length_seq in Hms. lia. }
  split; [done|]. split; [done|]. split; [|done]. by destruct (Hgo 0%nat); [lia|].
Defined.
