(* ===== verification/Parse.v ===== *)
(** * Parsing of command line values

    Model of src/runtime/util/parse/parse.cpp: the stream operators that read
    endpoints, durations and intervals. What they use of the standard library is
    written out: [std::stoi], extraction of an unsigned number and of a word
    from a stream, [find_last_of] and [find_first_of]. A call that throws is
    [Err]. *)

From Stdlib Require Import Ascii.
From stdpp Require Import pretty.
From S2P Require Import Prelude.
From S2P Require Import Result.
From S2P Require Import RtTypes.

Local Open Scope Z_scope.

Inductive exception : Type :=
  | invalid_argument (what : string)
  | out_of_range (what : string).

(** ** The standard library *)

Definition char_code (c : Ascii.ascii) : Z := Z.of_N (Ascii.N_of_ascii c).

Definition is_digit (c : Ascii.ascii) : bool := bool_decide (48 ≤ char_code c ≤ 57).
Definition is_space (c : Ascii.ascii) : bool :=
  bool_decide (9 ≤ char_code c ≤ 13 ∨ char_code c = 32).

Fixpoint skip_spaces (s : string) : string :=
  match s with
  | String c s' => if is_space c then skip_spaces s' else s
  | EmptyString => EmptyString
  end.

(** The value of the digits at the start of [s] after those already read, and
    the rest. *)
Fixpoint read_digits (acc : Z) (s : string) : Z * string :=
  match s with
  | String c s' => if is_digit c then read_digits (10 * acc + (char_code c - 48)) s' else (acc, s)
  | EmptyString => (acc, EmptyString)
  end.

Definition starts_with_digit (s : string) : bool :=
  match s with String c _ => is_digit c | EmptyString => false end.

(** An optional sign: whether it is a minus, and the rest. *)
Definition read_sign (s : string) : bool * string :=
  match s with
  | String c s' =>
      if decide (c = "-"%char) then (true, s')
      else if decide (c = "+"%char) then (false, s')
      else (false, s)
  | EmptyString => (false, s)
  end.

(** [std::stoi]: leading spaces, a sign and at least one digit; characters after
    the digits are ignored. *)
Definition stoi (s : string) : Result Z exception :=
  let '(neg, s) := read_sign (skip_spaces s) in
  if starts_with_digit s then
    let v := fst (read_digits 0 s) in
    let v := if neg then - v else v in
    if decide (- 2 ^ 31 ≤ v < 2 ^ 31) then Ok v else Err (out_of_range "stoi: out of range")
  else Err (invalid_argument "stoi: no conversion").

(** [in >> value] for [uint64_t]: the value, the rest of the input, and whether
    the stream is still good. A minus sign negates modulo 2^64. *)
Definition extract_u64 (s : string) : Z * string * bool :=
  let '(neg, s) := read_sign (skip_spaces s) in
  if starts_with_digit s then
    let '(v, rest) := read_digits 0 s in
    if decide (v ≤ u64_max) then (if neg then wrap64 (- v) else v, rest, true)
    else (u64_max, rest, false)
  else (0, s, false).

(** [in >> word] on a good stream. *)
Fixpoint read_word (s : string) : string :=
  match s with
  | String c s' => if is_space c then EmptyString else String c (read_word s')
  | EmptyString => EmptyString
  end.

(** The text before and after the first, or the last, occurrence of [c]. *)
Fixpoint split_first (c : Ascii.ascii) (s : string) : option (string * string) :=
  match s with
  | EmptyString => None
  | String d s' =>
      if decide (d = c) then Some (EmptyString, s')
      else '(a, b) ← split_first c s'; Some (String d a, b)
  end.

Fixpoint split_last (c : Ascii.ascii) (s : string) : option (string * string) :=
  match s with
  | EmptyString => None
  | String d s' =>
      match split_last c s' with
      | Some (a, b) => Some (String d a, b)
      | None => if decide (d = c) then Some (EmptyString, s') else None
      end
  end.

(** ** The operators *)

Definition parse_Endpoint (str : string) : Result Endpoint exception :=
  match split_last ":"%char str with
  | None => Err (invalid_argument "invalid endpoint format")
  | Some (addr, port_str) =>
      AndThen (stoi port_str) (λ p,
        if decide (p < 0 ∨ 65535 < p) then Err (invalid_argument ("invalid port: " +:+ port_str))
        else Ok (MkEndpoint addr p))
  end.

Definition kSuffix (suffix : string) : option Z :=
  if decide (suffix = "us") then Some 1
  else if decide (suffix = "ms") then Some 1000
  else if decide (suffix = "s") then Some 1000000
  else if decide (suffix = "m") then Some (60 * 1000000)
  else if decide (suffix = "h") then Some (60 * 60 * 1000000)
  else None.

(** A 64-bit unsigned count converted to a signed one. *)
Definition to_signed (z : Z) : Z := if decide (z < 2 ^ 63) then z else z - 2 ^ 64.

(** The product is computed in [uint64_t]. *)
Definition parse_Duration (str : string) : Result Z exception :=
  let '(value, rest, good) := extract_u64 str in
  let suffix := if good then read_word (skip_spaces rest) else EmptyString in
  match kSuffix suffix with
  | None => Err (invalid_argument ("invalid duration suffix: " +:+ suffix))
  | Some unit_ => Ok (to_signed (wrap64 (value * unit_)))
  end.

Definition parse_Interval (str : string) : Result Interval exception :=
  match split_first "-"%char str with
  | None => Err (invalid_argument "invalid duration interval format")
  | Some (from_str, to_str) =>
      AndThen (parse_Duration from_str) (λ f,
        Transform (parse_Duration to_str) (λ t, MkInterval f t))
  end.

Example parse_Endpoint_ex : parse_Endpoint "[::1]:80" = Ok (MkEndpoint "[::1]" 80).
Proof. vm_compute. reflexivity. Qed.

Example parse_Interval_ex : parse_Interval "150ms-1s" = Ok (MkInterval 150000 1000000).
Proof. vm_compute. reflexivity. Qed.

(** ** Reading printed numbers *)

Lemma pretty_N_char_digit x :
  (x < 10)%N → is_digit (pretty_N_char x) = true ∧ char_code (pretty_N_char x) - 48 = Z.of_N x.
Proof.
  intros Hx. destruct x as [|p]; [done|].
  do 4 (destruct p as [p|p|]; try done; try lia).
Qed.

Lemma read_digits_pretty_go x s : read_digits 0 (pretty_N_go x s) = read_digits (Z.of_N x) s.
Proof.
  revert s. induction (N.lt_wf_0 x) as [x _ IH]; intros s.
  destruct (decide (x = 0)%N) as [->|Hne]; [by rewrite pretty_N_go_0|].
  rewrite pretty_N_go_step by lia. rewrite IH by (apply N.div_lt; lia). simpl.
  destruct (pretty_N_char_digit (x `mod` 10)) as [Hd Hv]; [by apply N.mod_lt|].
  rewrite Hd, Hv. f_equal. rewrite N2Z.inj_div, N2Z.inj_mod.
  pose proof (Z.div_mod (Z.of_N x) 10). simpl. lia.
Qed.

Lemma starts_with_digit_pretty_go x s :
  (0 < x)%N ∨ starts_with_digit s = true → starts_with_digit (pretty_N_go x s) = true.
Proof.
  revert s. induction (N.lt_wf_0 x) as [x _ IH]; intros s Hs.
  destruct (decide (x = 0)%N) as [->|Hne]; [rewrite pretty_N_go_0; destruct Hs; [lia|done]|].
  rewrite pretty_N_go_step by lia. apply IH; [apply N.div_lt; lia|]. right. simpl.
  apply pretty_N_char_digit. by apply N.mod_lt.
Qed.

(** The printed number followed by text. *)
Lemma pretty_go_app x s t : pretty_N_go x s +:+ t = pretty_N_go x (s +:+ t).
Proof.
  revert s. induction (N.lt_wf_0 x) as [x _ IH]; intros s.
  destruct (decide (x = 0)%N) as [->|Hne]; [by rewrite !pretty_N_go_0|].
  rewrite !(pretty_N_go_step x) by lia. by rewrite IH by (apply N.div_lt; lia).
Qed.

Lemma pretty_Z_nonneg z : 0 ≤ z → pretty z = pretty (Z.to_N z).
Proof. by destruct z. Qed.

Lemma read_digits_pretty z t :
  0 ≤ z → starts_with_digit t = false →
  starts_with_digit (pretty z +:+ t) = true ∧ read_digits 0 (pretty z +:+ t) = (z, t).
Proof.
  intros Hz Ht. rewrite pretty_Z_nonneg by done. unfold pretty, pretty_N.
  assert (Hstop : ∀ acc, read_digits acc t = (acc, t)).
  { destruct t as [|c t]; [done|]. simpl in *. intros acc. by rewrite Ht. }
  case_decide as Hzero.
  - assert (z = 0) as -> by lia. simpl. split; [done|]. by rewrite Hstop.
  - rewrite pretty_go_app. split.
    + apply starts_with_digit_pretty_go. left. lia.
    + rewrite read_digits_pretty_go. simpl. rewrite Z2N.id by done. apply Hstop.
Qed.

Lemma starts_with_digit_plain s :
  starts_with_digit s = true → read_sign (skip_spaces s) = (false, s).
Proof.
  destruct s as [|c s]; [done|]. simpl. unfold is_digit, is_space. intros Hd%bool_decide_eq_true.
  rewrite bool_decide_eq_false_2 by lia. simpl.
  rewrite !decide_False; [done|intros ->; vm_compute in Hd; naive_solver..].
Qed.

(** ** Properties *)

Lemma split_last_pretty_go c x s :
  is_digit c = false → split_last c s = None → split_last c (pretty_N_go x s) = None.
Proof.
  intros Hc. revert s. induction (N.lt_wf_0 x) as [x _ IH]; intros s Hs.
  destruct (decide (x = 0)%N) as [->|Hne]; [by rewrite pretty_N_go_0|].
  rewrite pretty_N_go_step by lia. apply IH; [apply N.div_lt; lia|]. simpl. rewrite Hs.
  rewrite decide_False; [done|]. intros <-.
  destruct (pretty_N_char_digit (x `mod` 10)) as [Hd _]; [by apply N.mod_lt|]. congruence.
Qed.

Lemma split_last_pretty c z : 0 ≤ z → is_digit c = false → split_last c (pretty z) = None.
Proof.
  intros Hz Hc. rewrite pretty_Z_nonneg by done. unfold pretty, pretty_N. case_decide.
  - simpl. rewrite decide_False; [done|]. intros <-. done.
  - by apply split_last_pretty_go.
Qed.

Lemma split_last_app c a t : split_last c t = None → split_last c (a +:+ String c t) = Some (a, t).
Proof.
  intros Ht. induction a as [|d a IH]; simpl; [by rewrite Ht, decide_True|]. by rewrite IH.
Qed.

Lemma string_app_empty s : s +:+ "" = s.
Proof. induction s as [|c s IH]; [done|]. change (String c (s +:+ "") = String c s). by rewrite IH. Qed.

Lemma string_app_assoc (a b c : string) : (a +:+ b) +:+ c = a +:+ (b +:+ c).
Proof. induction a as [|x a IH]; [done|]. exact (f_equal (String x) IH). Qed.

Lemma string_length_app (a b : string) : String.length (a +:+ b) = (String.length a + String.length b)%nat.
Proof. induction a as [|x a IH]; [done|]. exact (f_equal S IH). Qed.

Lemma stoi_pretty z : 0 ≤ z < 2 ^ 31 → stoi (pretty z) = Ok z.
Proof.
  intros Hz. destruct (read_digits_pretty z "") as [Hs Hr]; [lia|done|].
  rewrite string_app_empty in Hs, Hr. unfold stoi. rewrite starts_with_digit_plain, Hs, Hr by done. simpl.
  by rewrite decide_True by lia.
Qed.

(** Printing an endpoint and parsing it gives the endpoint back, for every
    address (also one that contains colons) and every port. *)
Theorem endpoint_round_trip (e : Endpoint) :
  0 ≤ port e ≤ 65535 → parse_Endpoint (Endpoint_ToString e) = Ok e.
Proof.
  intros Hp. unfold parse_Endpoint, Endpoint_ToString.
  change (":" +:+ pretty (port e)) with (String ":"%char (pretty (port e))).
  rewrite split_last_app by (by apply split_last_pretty; [lia|]).
  rewrite stoi_pretty by lia. simpl. rewrite decide_False by lia. by destruct e.
Qed.

Lemma endpoint_round_trip_witness :
  parse_Endpoint (Endpoint_ToString (MkEndpoint "[fe80::1]" 10050)) = Ok (MkEndpoint "[fe80::1]" 10050).
Proof. apply (endpoint_round_trip (MkEndpoint "[fe80::1]" 10050)). simpl. lia. Defined.

Lemma kSuffix_cases suffix u :
  kSuffix suffix = Some u →
  suffix ∈ ["us"; "ms"; "s"; "m"; "h"] ∧ 1 ≤ u.
Proof.
  unfold kSuffix. repeat case_decide; intros [= <-]; subst; (split; [set_solver|lia]).
Qed.

(** A number followed by one of the units parses to the number of
    microseconds it denotes, as long as that fits a signed 64-bit count. *)
Theorem duration_parses (n u : Z) (suffix : string) :
  kSuffix suffix = Some u → 0 ≤ n → n * u < 2 ^ 63 →
  parse_Duration (pretty n +:+ suffix) = Ok (n * u).
Proof.
  intros Hk Hn Hmax. destruct (kSuffix_cases suffix u Hk) as [Hsuf Hu].
  assert (Hnd : starts_with_digit suffix = false ∧ read_word (skip_spaces suffix) = suffix).
  { clear Hk. rewrite !elem_of_cons, elem_of_nil in Hsuf. naive_solver. }
  destruct Hnd as [Hnd Hw]. destruct (read_digits_pretty n suffix Hn Hnd) as [Hs Hr].
  assert (n ≤ n * u) by nia.
  assert (Hu64 : u64_max = 2 ^ 64 - 1) by done.
  unfold parse_Duration, extract_u64. rewrite starts_with_digit_plain, Hs, Hr by done.
  rewrite decide_True by lia. rewrite Hw, Hk. rewrite wrap64_small by (unfold is_u64; lia).
  unfold to_signed. by rewrite decide_True by lia.
Qed.

Lemma duration_parses_witness : parse_Duration (pretty 90 +:+ "m") = Ok 5400000000.
Proof. exact (duration_parses 90 60000000 "m" eq_refl ltac:(lia) ltac:(lia)). Defined.

(** Inputs that the parsers accept although they denote no endpoint or no
    duration: text after the port is ignored, a negative number of units is a
    negative duration, and a product that does not fit 64 bits wraps around. *)
Theorem malformed_values_accepted :
  parse_Endpoint "host:80abc" = Ok (MkEndpoint "host" 80) ∧
  parse_Duration "-5s" = Ok (-5000000) ∧
  parse_Duration "9223372036854775808us" = Ok (- 2 ^ 63) ∧
  parse_Duration "5124095577h" = Ok 3490448384.
Proof. split_and!; vm_compute; reflexivity. Qed.
