(* ===== verification/SimLogger.v ===== *)
(** * Time stamps of the simulator's log

    src/runtime/simulator/logger.cpp: the loggers of the simulated hosts, whose
    lines begin with the global time of the world. The formatter of spdlog is
    not part of the repository: the class [PatternFormatter] has the call that
    the code makes and what its documentation says of patterns and custom
    flags. *)

From Stdlib Require Import Ascii.
From stdpp Require Import pretty.
From S2P Require Import Prelude.
From S2P Require Import Parse.

Local Open Scope Z_scope.

(** ** Flags *)

(** [std::string(n, '0')] *)
Fixpoint zeros (n : nat) : string :=
  match n with O => "" | S n => String "0" (zeros n) end.

(** [TimeFlags::format]: what is appended to the destination, for the value of
    [get_time()]. *)
Definition TimeFlags_format (get_time : Z) (width : nat) : outcome string :=
  let result := pretty get_time in
  verify (String.length result <=? width)%nat "invalid log flag length";;
  Done (zeros (width - String.length result) +:+ result).

(** [time_since_epoch().count()] is in microseconds; division and remainder of
    signed integers truncate. *)
Definition micros (t : Z) : Z := Z.rem t 1000.
Definition millis (t : Z) : Z := Z.rem (Z.quot t 1000) 1000.
Definition seconds (t : Z) : Z := Z.rem (Z.quot (Z.quot t 1000) 1000) 60.
Definition minutes (t : Z) : Z := Z.rem (Z.quot (Z.quot (Z.quot t 1000) 1000) 60) 60.
Definition hours (t : Z) : Z := Z.rem (Z.quot (Z.quot (Z.quot (Z.quot t 1000) 1000) 60) 60) 24.

Definition custom_flags : Type := ascii → option (outcome string).

(** The flags at a global time of the world and a local time of the current
    host. *)
Definition MakeFlags (global local : Z) : custom_flags := λ c,
  if decide (c = "F"%char) then Some (TimeFlags_format (micros global) 3)
  else if decide (c = "f"%char) then Some (TimeFlags_format (micros local) 3)
  else if decide (c = "E"%char) then Some (TimeFlags_format (millis global) 3)
  else if decide (c = "e"%char) then Some (TimeFlags_format (millis local) 3)
  else if decide (c = "Q"%char) then Some (TimeFlags_format (seconds global) 2)
  else if decide (c = "q"%char) then Some (TimeFlags_format (seconds local) 2)
  else if decide (c = "M"%char) then Some (TimeFlags_format (minutes global) 2)
  else if decide (c = "m"%char) then Some (TimeFlags_format (minutes local) 2)
  else if decide (c = "H"%char) then Some (TimeFlags_format (hours global) 2)
  else if decide (c = "h"%char) then Some (TimeFlags_format (hours local) 2)
  else None.

(** ** Loggers *)

Inductive sink : Type :=
  | rotating_file_sink (path : string) (max_size max_files : Z) (rotate_on_open : bool) (pattern : string)
  | stdout_color_sink (pattern : string).

Inductive level : Type := trace | debug | info | warn | err | critical | off.

Record logger : Type := MkLogger { name : string; sinks : list sink; log_level : level }.

Definition file_pattern : string := "G:[%H:%M:%Q.%E.%F] [%^%L%$] %v".
Definition console_pattern : string := "G:[%H:%M:%Q.%E.%F] [%^%L%$] [%n] %v".

(** [active] is [SPDLOG_ACTIVE_LEVEL < SPDLOG_LEVEL_OFF]. *)
Definition CreateLogger (active : bool) (host_name : string) : logger :=
  MkLogger host_name
    ((if active then [rotating_file_sink (host_name +:+ ".host.log") (1024 * 1024) 0 true file_pattern] else []) ++
     [stdout_color_sink console_pattern])
    trace.

Definition pattern (s : sink) : string :=
  match s with rotating_file_sink _ _ _ _ p | stdout_color_sink p => p end.

(** ** The formatter of spdlog *)

(** A character of a pattern stands for itself; a custom flag is replaced by
    what its formatter appends, before the built-in flags are tried; what a
    built-in flag appends depends on the message. *)
Class PatternFormatter (log_msg : Type) : Type := {
  format : string → custom_flags → log_msg → outcome string;
  format_char c p flags m : c ≠ "%"%char →
    format (String c p) flags m = String c <$> format p flags m;
  format_custom c p flags m text : flags c = Some text →
    format (String "%" (String c p)) flags m = (t ← text; (λ rest, t +:+ rest) <$> format p flags m);
  format_builtin c p flags m : flags c = None → c ∈ ["^"; "L"; "$"; "n"; "v"]%char →
    ∃ t, format (String "%" (String c p)) flags m = (λ rest, t +:+ rest) <$> format p flags m;
  format_end flags m : ∃ eol, format "" flags m = Done eol;
}.

(** ** Properties *)

(** Leading zeros do not change the number. *)
Lemma read_digits_zeros n s : read_digits 0 (zeros n +:+ s) = read_digits 0 s.
Proof. induction n as [|n IH]; [done|]. exact IH. Qed.

Lemma zeros_length n : String.length (zeros n) = n.
Proof. induction n as [|n IH]; [done|]. simpl. by rewrite IH. Qed.

(** Every number below the bound has at most [width] digits. *)
Definition fits (bound : Z) (width : nat) : bool :=
  forallb (λ n, String.length (pretty n) <=? width)%nat (range 0 bound).

Lemma fits_spec bound width n :
  fits bound width = true → 0 ≤ n < bound → (String.length (pretty n) ≤ width)%nat.
Proof.
  unfold fits. rewrite forallb_forall. intros Hall Hn. apply Nat.leb_le, Hall, list_elem_of_In, elem_of_range. lia.
Qed.

Lemma format_field bound width n :
  fits bound width = true → 0 ≤ n < bound →
  ∃ text, TimeFlags_format n width = Done text ∧ String.length text = width ∧
    ∀ t, starts_with_digit t = false → read_digits 0 (text +:+ t) = (n, t).
Proof.
  intros Hfits Hn. pose proof (fits_spec bound width n Hfits Hn) as Hlen. unfold TimeFlags_format.
  rewrite (proj2 (Nat.leb_le _ _) Hlen). eexists. split_and!; [done| |].
  - rewrite string_length_app, zeros_length. lia.
  - intros t Ht. rewrite string_app_assoc, read_digits_zeros. apply read_digits_pretty; [lia|done].
Qed.

(** ** Reading a time stamp *)

(** A number and the character after it. *)
Definition read_field (sep : ascii) (s : string) : option (Z * string) :=
  match read_digits 0 s with
  | (n, String c rest) => if decide (c = sep) then Some (n, rest) else None
  | _ => None
  end.

(** The microseconds since midnight that a line begins with. *)
Definition read_stamp (line : string) : option Z :=
  match line with
  | String "G" (String ":" (String "[" s)) =>
      '(h, s) ← read_field ":" s;
      '(m, s) ← read_field ":" s;
      '(q, s) ← read_field "." s;
      '(e, s) ← read_field "." s;
      '(f, s) ← read_field "]" s;
      Some ((((h * 60 + m) * 60 + q) * 1000 + e) * 1000 + f)
  | _ => None
  end.

Lemma read_field_text sep text n rest :
  (∀ t, starts_with_digit t = false → read_digits 0 (text +:+ t) = (n, t)) → is_digit sep = false →
  read_field sep (text +:+ String sep rest) = Some (n, rest).
Proof. intros Htext Hsep. unfold read_field. rewrite Htext by done. by rewrite decide_True. Qed.

Definition day : Z := 24 * 60 * 60 * 1000 * 1000.

(** The fields are the digits of the time in mixed radix. *)
Lemma fields_of_time t :
  0 ≤ t →
  (((hours t * 60 + minutes t) * 60 + seconds t) * 1000 + millis t) * 1000 + micros t = t `mod` day ∧
  0 ≤ hours t < 24 ∧ 0 ≤ minutes t < 60 ∧ 0 ≤ seconds t < 60 ∧ 0 ≤ millis t < 1000 ∧ 0 ≤ micros t < 1000.
Proof.
  intros Ht. unfold hours, minutes, seconds, millis, micros, day.
  assert (Hq : ∀ a b, 0 ≤ a → 0 < b → Z.quot a b = a / b ∧ 0 ≤ a / b)
    by (intros a b ??; split; [by apply Z.quot_div_nonneg|by apply Z.div_pos]).
  destruct (Hq t 1000) as [-> H1]; [lia..|]. destruct (Hq (t / 1000) 1000) as [-> H2]; [lia..|].
  destruct (Hq (t / 1000 / 1000) 60) as [-> H3]; [lia..|]. destruct (Hq (t / 1000 / 1000 / 60) 60) as [-> H4]; [lia..|].
  rewrite !Z.rem_mod_nonneg by lia. rewrite !Z.div_div by lia.
  split_and!; try (apply Z.mod_pos_bound; lia).
  Z.to_euclidean_division_equations. lia.
Qed.

Lemma flag_text (global local : Z) (c : ascii) n width bound :
  MakeFlags global local c = Some (TimeFlags_format n width) → fits bound width = true → 0 ≤ n < bound →
  ∃ text, MakeFlags global local c = Some (Done text) ∧ String.length text = width ∧
    ∀ t, starts_with_digit t = false → read_digits 0 (text +:+ t) = (n, t).
Proof. intros -> Hfits Hn. destruct (format_field bound width n Hfits Hn) as (text & -> & ? & ?). eauto. Qed.

Section stamps.
Context {log_msg : Type} `{!PatternFormatter log_msg}.

Lemma format_custom_text c p flags (m : log_msg) text line :
  flags c = Some (Done text) → format p flags m = Done line →
  format (String "%" (String c p)) flags m = Done (text +:+ line).
Proof. intros Hc Hp. by rewrite (format_custom _ _ _ _ _ Hc), bind_Done_eq, Hp. Qed.

Lemma format_char_text c p flags (m : log_msg) line :
  c ≠ "%"%char → format p flags m = Done line → format (String c p) flags m = Done (String c line).
Proof. intros Hc Hp. by rewrite format_char, Hp. Qed.

Lemma format_builtin_text c p flags (m : log_msg) :
  flags c = None → c ∈ ["^"; "L"; "$"; "n"; "v"]%char →
  (∃ line, format p flags m = Done line) → ∃ line, format (String "%" (String c p)) flags m = Done line.
Proof. intros Hc Hb [line Hp]. destruct (format_builtin _ p flags m Hc Hb) as [t ->]. rewrite Hp. by eexists. Qed.

Lemma format_char_some c p flags (m : log_msg) :
  c ≠ "%"%char → (∃ line, format p flags m = Done line) → ∃ line, format (String c p) flags m = Done line.
Proof. intros Hc [line Hp]. eexists. by apply format_char_text. Qed.

(** The rest of a line. *)
Lemma format_tail (m : log_msg) global local p :
  p = " [%^%L%$] %v" ∨ p = " [%^%L%$] [%n] %v" → ∃ line, format p (MakeFlags global local) m = Done line.
Proof.
  intros [-> | ->]; repeat first [apply format_builtin_text; [done|set_solver|]|apply format_char_some; [done|]];
    apply format_end.
Qed.

(** [C40] Every line that a logger of the simulator writes begins with the global
    time: for a time that is not negative and any local time no flag is longer
    than its width, so that the check in [TimeFlags::format] never aborts, and
    the time of the day can be read from the line; lines of the same day have
    equal stamps only if they were written at the same microsecond. *)
Theorem log_lines_tell_the_time (active : bool) (host_name : string) (s : sink) (global local : Z) (m : log_msg) :
  s ∈ sinks (CreateLogger active host_name) → 0 ≤ global →
  ∃ line, format (pattern s) (MakeFlags global local) m = Done line ∧
    read_stamp line = Some (global `mod` day).
Proof.
  intros Hs Hg. destruct (fields_of_time global Hg) as (Htime & Hh & Hm & Hq & He & Hf).
  destruct (flag_text global local "H" (hours global) 2 24) as (h & Hfh & _ & Hrh); [done|by vm_compute|done|].
  destruct (flag_text global local "M" (minutes global) 2 60) as (mi & Hfm & _ & Hrm); [done|by vm_compute|done|].
  destruct (flag_text global local "Q" (seconds global) 2 60) as (q & Hfq & _ & Hrq); [done|by vm_compute|done|].
  destruct (flag_text global local "E" (millis global) 3 1000) as (e & Hfe & _ & Hre); [done|by vm_compute|done|].
  destruct (flag_text global local "F" (micros global) 3 1000) as (f & Hff & _ & Hrf); [done|by vm_compute|done|].
  assert (∃ p, pattern s = "G:[%H:%M:%Q.%E.%F]" +:+ p ∧ (p = " [%^%L%$] %v" ∨ p = " [%^%L%$] [%n] %v"))
    as (p & -> & Hp).
  { unfold CreateLogger in Hs. simpl in Hs. apply elem_of_app in Hs as [Hs|Hs%list_elem_of_singleton].
    - destruct active; [|by apply not_elem_of_nil in Hs]. apply list_elem_of_singleton in Hs as ->. eauto.
    - subst. eauto. }
  destruct (format_tail m global local p Hp) as [line Hline].
  eexists. split.
  - repeat first [eapply format_custom_text; [eassumption|]|apply format_char_text; [done|]]. exact Hline.
  - cbn. rewrite (read_field_text _ h _ _ Hrh) by done. cbn. rewrite (read_field_text _ mi _ _ Hrm) by done. cbn.
    rewrite (read_field_text _ q _ _ Hrq) by done. cbn. rewrite (read_field_text _ e _ _ Hre) by done. cbn.
    rewrite (read_field_text _ f _ _ Hrf) by done. cbn. by f_equal.
Qed.
End stamps.

(** A formatter, for the witness: built-in flags append their letter. *)
Fixpoint plain_format (p : string) (flags : custom_flags) : outcome string :=
  match p with
  | "" => Done ""
  | String c p' =>
      if decide (c = "%"%char) then
        match p' with
        | "" => Done ""
        | String c' p'' =>
            match flags c' with
            | Some text => t ← text; (λ rest, t +:+ rest) <$> plain_format p'' flags
            | None => (λ rest, String c' "" +:+ rest) <$> plain_format p'' flags
            end
        end
      else String c <$> plain_format p' flags
  end.

Definition plain_formatter : PatternFormatter string.
Proof.
  refine {| format p flags _ := plain_format p flags |}.
  - intros c p flags _ Hc. simpl. by rewrite decide_False.
  - intros c p flags _ text Hc. simpl. by rewrite Hc.
  - intros c p flags _ Hc _. simpl. rewrite Hc. eauto.
  - intros flags _. by exists "".
Defined.

Lemma log_lines_tell_the_time_witness :
  let s := stdout_color_sink console_pattern in
  plain_format (pattern s) (MakeFlags 90061002003 (-5)) = Done "G:[01:01:01.002.003] [^L$] [n] v" ∧
  ∃ line, format (PatternFormatter := plain_formatter) (pattern s) (MakeFlags 90061002003 (-5)) "" = Done line ∧
    read_stamp line = Some (90061002003 `mod` day).
Proof.
  intros s. split; [vm_compute; reflexivity|].
  assert (Hs : s ∈ sinks (CreateLogger true "host")) by (right; left).
  assert (Ht : 0 ≤ 90061002003) by lia.
  exact (log_lines_tell_the_time (PatternFormatter0 := plain_formatter) true "host" s 90061002003 (-5) "" Hs Ht).
Defined.
