(* ===== verification/HistoryChecker.v ===== *)
(** * The linearizability checker of the Raft tests

    src/raft/test/util: [LoggingStateMachine], the replicated state machine of
    the tests (it appends every command to a log and answers with the whole
    log), and [CheckLinearizability], which the simulation tests and the system
    test run over the answers the clients got. The checker is compared with the
    definition of linearizability that its header cites. *)

From S2P Require Import Prelude.
From S2P Require Import Result.

From stdpp Require Import sorting.

Local Open Scope Z_scope.

(** ** The replicated state machine *)

Section logging.
(** [google::protobuf::Any] and its [PackFrom] and [UnpackTo] for the messages
    [RsmCommand] and [RsmResult] of logging_state_machine.proto. *)
Context {Any : Type}.
Variable PackFrom_RsmCommand : Z → option Any.
Variable PackFrom_RsmResult : list Z → option Any.
Variable UnpackTo_RsmCommand : Any → option Z.

Local Instance string_error_traits : ErrorTraits string :=
  {| has_message := None; convertible_to_string := Some id; base_of_exception := false;
     base_of_error_code := false; is_exception_ptr := false |}.

Definition ToAny (packed : option Any) : Result Any string :=
  match packed with
  | None => Err "cannot convert protobuf to any"
  | Some result => Ok result
  end.

Definition FromAny {T} (unpacked : option T) : Result T string :=
  match unpacked with
  | None => Err "cannot parse protobuf from any"
  | Some result => Ok result
  end.

(** [LoggingStateMachine::Apply]; the state of the machine is its [log]. *)
Definition LoggingStateMachine_Apply (command : Any) (log : list Z) : outcome (Any * list Z) :=
  data ← GetValue (FromAny (UnpackTo_RsmCommand command));
  let log := log ++ [data] in
  result ← GetValue (ToAny (PackFrom_RsmResult log));
  Done (result, log).

Fixpoint apply_commands (commands : list Any) (log : list Z) : outcome (list Any * list Z) :=
  match commands with
  | [] => Done ([], log)
  | command :: commands =>
      '(result, log) ← LoggingStateMachine_Apply command log;
      '(results, log) ← apply_commands commands log;
      Done (result :: results, log)
  end.

(** Messages of these types pack, and unpack to what was packed. *)
Hypothesis pack_command : ∀ data, ∃ any, PackFrom_RsmCommand data = Some any ∧
  UnpackTo_RsmCommand any = Some data.
Hypothesis pack_result : ∀ log, is_Some (PackFrom_RsmResult log).

Lemma apply_commands_run data commands log :
  Forall2 (λ d c, PackFrom_RsmCommand d = Some c) data commands →
  ∃ results, apply_commands commands log = Done (results, log ++ data) ∧
    length results = length data ∧
    ∀ k r, results !! k = Some r → PackFrom_RsmResult (log ++ take (S k) data) = Some r.
Proof.
  intros H. revert log. induction H as [|d c data commands Hc _ IH]; intros log.
  - exists []. rewrite app_nil_r. split_and!; [done..|]. by intros k r [=].
  - destruct (pack_command d) as (any & Hp & Hu). rewrite Hc in Hp. injection Hp as <-.
    destruct (pack_result (log ++ [d])) as [r0 Hr0].
    destruct (IH (log ++ [d])) as (results & Hrun & Hlen & Hres).
    exists (r0 :: results). simpl. unfold LoggingStateMachine_Apply. rewrite Hu. simpl. rewrite Hr0. simpl.
    rewrite Hrun. simpl. rewrite <-app_assoc. split_and!; [done|by rewrite Hlen|].
    intros [|k] r; simpl; [by intros [= <-]|]. intros Hk%Hres. rewrite <-app_assoc in Hk. done.
Qed.
End logging.

(** ** The checker *)

Record RequestInfo : Type := MkRequestInfo {
  invocation_time : Z;
  completion_time : Z;
  command : Z;
  result : list Z;
}.

#[export] Instance RequestInfo_eq_dec : EqDecision RequestInfo.
Proof. solve_decision. Defined.

(** A loop that returns the first error of its body. *)
Fixpoint first_error {A} (xs : list A) (body : A → outcome (Status string))
    : outcome (Status string) :=
  match xs with
  | [] => Done (Ok ())
  | x :: xs =>
      r ← body x;
      match r with
      | Err e => Done (Err e)
      | Ok _ => first_error xs body
      end
  end.

(** [vector.back()] has no check. *)
Definition vec_back {A} (v : list A) : outcome A :=
  match last v with
  | Some a => Done a
  | None => Undefined "back of an empty vector"
  end.

Definition check_appended (history : list RequestInfo) : outcome (Status string) :=
  first_error history (λ data,
    back ← vec_back (result data);
    Done (if decide (back ≠ command data)
          then Err "RSM did not append client command to log" else Ok ())).

(** The inner loop: one answer against the longest one. *)
Definition check_prefix (history : list RequestInfo) (cmd : RequestInfo) : outcome (Status string) :=
  first_error (seq 0 (length (result cmd))) (λ index,
    mine ← vec_get (result cmd) index;
    longest ← vec_back history;
    other ← vec_get (result longest) index;
    Done (if decide (mine ≠ other)
          then Err "Not all received logs have common prefix" else Ok ())).

Definition check_prefixes (history : list RequestInfo) : outcome (Status string) :=
  first_error (seq 0 (pred (length history))) (λ command_index,
    cmd ← vec_get history command_index; check_prefix history cmd).

Definition check_order (history : list RequestInfo) : outcome (Status string) :=
  first_error (seq 0 (length history)) (λ command_index,
    cmd ← vec_get history command_index;
    first_error (seq 0 (length history)) (λ index,
      other ← vec_get history index;
      Done (if decide (completion_time cmd < invocation_time other ∧ (index ≤ command_index)%nat)
            then Err "History is not linearizable" else Ok ()))).

Definition shorter (left right : RequestInfo) : Prop :=
  (length (result left) ≤ length (result right))%nat.

#[export] Instance shorter_dec left right : Decision (shorter left right).
Proof. unfold shorter. apply _. Defined.

Section checker.
(** [std::sort] by the size of the results; the order of equal sizes is not
    specified. *)
Variable std_sort : list RequestInfo → list RequestInfo.

Definition CheckLinearizability (history : list RequestInfo) : outcome (Status string) :=
  let history := std_sort history in
  appended ← check_appended history;
  match appended with Err e => Done (Err e) | Ok _ =>
  prefixes ← check_prefixes history;
  match prefixes with Err e => Done (Err e) | Ok _ => check_order history end end.
End checker.

(** ** Linearizability

    A sequential execution [log] of the state machine, in which command number
    [k] is answered with the first [k + 1] commands, explains a history if every
    request has a place of its own in it with its command and its answer, and a
    request that ended before another began has the earlier place. *)
Definition linearizable (history : list RequestInfo) : Prop :=
  ∃ (log : list Z) (places : list (nat * RequestInfo)),
    places.*2 ≡ₚ history ∧ NoDup places.*1 ∧
    (∀ k r, (k, r) ∈ places → log !! k = Some (command r) ∧ result r = take (S k) log) ∧
    (∀ k r k' r', (k, r) ∈ places → (k', r') ∈ places →
       completion_time r < invocation_time r' → (k < k')%nat).

Lemma first_error_ok {A} (xs : list A) body :
  first_error xs body = Done (Ok ()) ↔ ∀ x, x ∈ xs → body x = Done (Ok ()).
Proof.
  rewrite <-Forall_forall. induction xs as [|x xs IH]; simpl; [split; [constructor|done]|].
  rewrite Forall_cons, <-IH. destruct (body x) as [[[]|e]| |]; simpl; naive_solver.
Qed.

Lemma vec_back_Done {A} (v : list A) a : vec_back v = Done a ↔ last v = Some a.
Proof. unfold vec_back. destruct (last v); split; congruence. Qed.

Lemma if_ok (P : Prop) `{Decision P} (e : string) :
  Done (if decide P then Err e else Ok ()) = Done (A := Status string) (Ok ()) ↔ ¬ P.
Proof. case_decide; split; naive_solver. Qed.

Lemma sorted_lookup {A} (R : relation A) (l : list A) i j x y :
  StronglySorted R l → l !! i = Some x → l !! j = Some y → (i < j)%nat → R x y.
Proof.
  intros Hs. revert i j. induction Hs as [|a l _ IH Hall]; intros i j Hi Hj Hij; [done|].
  destruct j as [|j]; [lia|]. destruct i as [|i]; simplify_eq/=.
  - rewrite Forall_forall in Hall. apply Hall. by eapply list_elem_of_lookup_2.
  - eapply IH; eauto. lia.
Qed.

(** What the three checks establish of the sorted history. *)
Lemma check_appended_ok history :
  check_appended history = Done (Ok ()) ↔
  ∀ r, r ∈ history → last (result r) = Some (command r).
Proof.
  unfold check_appended. rewrite first_error_ok. apply forall_proper. intros r. apply forall_proper.
  intros _. unfold vec_back. destruct (last (result r)) as [b|]; simpl; [|naive_solver].
  rewrite if_ok. split; [intros Hn; f_equal; by apply dec_stable|naive_solver].
Qed.

Lemma check_prefix_ok history r longest :
  last history = Some longest → (length (result r) ≤ length (result longest))%nat →
  check_prefix history r = Done (Ok ()) ↔ result r = take (length (result r)) (result longest).
Proof.
  intros Hl Hle. unfold check_prefix. rewrite first_error_ok, (proj2 (vec_back_Done _ _) Hl). split.
  - intros Hall. apply list_eq. intros k. destruct (result r !! k) as [a|] eqn:Hk.
    + pose proof (lookup_lt_Some _ _ _ Hk) as Hlt. rewrite lookup_take_lt by done.
      destruct (lookup_lt_is_Some_2 (result longest) k) as [b Hb]; [lia|].
      specialize (Hall k ltac:(apply elem_of_seq; lia)).
      rewrite (proj2 (vec_get_Done _ _ _) Hk) in Hall. simpl in Hall.
      rewrite (proj2 (vec_get_Done _ _ _) Hb) in Hall. simpl in Hall. rewrite if_ok in Hall.
      rewrite Hb. f_equal. by apply dec_stable.
    + symmetry. apply lookup_ge_None. rewrite length_take. apply lookup_ge_None in Hk. lia.
  - intros Heq k [_ Hk]%elem_of_seq. simpl in Hk.
    destruct (lookup_lt_is_Some_2 (result r) k) as [a Ha]; [done|].
    assert (Hb : result longest !! k = Some a).
    { rewrite Heq in Ha. rewrite lookup_take_lt in Ha by done. done. }
    rewrite (proj2 (vec_get_Done _ _ _) Ha). simpl. rewrite (proj2 (vec_get_Done _ _ _) Hb). simpl.
    by apply if_ok; intros [].
Qed.

Lemma sorted_last history i r longest :
  StronglySorted shorter history → history !! i = Some r → last history = Some longest → shorter r longest.
Proof.
  intros Hs Hi Hl. rewrite last_lookup in Hl.
  destruct (decide (i = pred (length history))) as [->|Hne]; [simplify_eq; by unfold shorter|].
  eapply sorted_lookup; [done|done|done|]. apply lookup_lt_Some in Hi. lia.
Qed.

Lemma check_prefixes_ok history :
  StronglySorted shorter history →
  check_prefixes history = Done (Ok ()) ↔
  ∀ i r longest, history !! i = Some r → last history = Some longest →
    result r = take (length (result r)) (result longest).
Proof.
  intros Hsort. unfold check_prefixes. rewrite first_error_ok. split.
  - intros Hall i r longest Hi Hl. destruct (decide (i = pred (length history))) as [->|Hne].
    + rewrite last_lookup in Hl. simplify_eq. by rewrite take_ge.
    + specialize (Hall i ltac:(apply elem_of_seq; apply lookup_lt_Some in Hi; lia)).
      rewrite (proj2 (vec_get_Done _ _ _) Hi) in Hall. simpl in Hall.
      rewrite check_prefix_ok in Hall; [done|done|by eapply sorted_last].
  - intros Hall i [_ Hi]%elem_of_seq. destruct (lookup_lt_is_Some_2 history i) as [r Hr]; [lia|].
    rewrite (proj2 (vec_get_Done _ _ _) Hr). simpl.
    destruct (last history) as [longest|] eqn:Hl; [|apply last_None in Hl; by subst].
    rewrite check_prefix_ok; [by eapply Hall|done|by eapply sorted_last].
Qed.

Lemma check_order_ok history :
  check_order history = Done (Ok ()) ↔
  ∀ i j r r', history !! i = Some r → history !! j = Some r' →
    completion_time r < invocation_time r' → (i < j)%nat.
Proof.
  unfold check_order. rewrite first_error_ok. split.
  - intros Hall i j r r' Hi Hj Hlt.
    specialize (Hall i ltac:(apply elem_of_seq; apply lookup_lt_Some in Hi; lia)).
    rewrite (proj2 (vec_get_Done _ _ _) Hi) in Hall. simpl in Hall. rewrite first_error_ok in Hall.
    specialize (Hall j ltac:(apply elem_of_seq; apply lookup_lt_Some in Hj; lia)).
    rewrite (proj2 (vec_get_Done _ _ _) Hj) in Hall. simpl in Hall. rewrite if_ok in Hall. lia.
  - intros Hall i [_ Hi]%elem_of_seq. destruct (lookup_lt_is_Some_2 history i) as [r Hr]; [done|].
    rewrite (proj2 (vec_get_Done _ _ _) Hr). simpl. rewrite first_error_ok.
    intros j [_ Hj]%elem_of_seq. destruct (lookup_lt_is_Some_2 history j) as [r' Hr']; [done|].
    rewrite (proj2 (vec_get_Done _ _ _) Hr'). simpl. rewrite if_ok. intros [Hlt Hle].
    specialize (Hall i j r r' Hr Hr' Hlt). lia.
Qed.

Section correctness.
Variable std_sort : list RequestInfo → list RequestInfo.
Hypothesis std_sort_permutes : ∀ h, std_sort h ≡ₚ h.
Hypothesis std_sort_sorts : ∀ h, StronglySorted shorter (std_sort h).

Lemma CheckLinearizability_ok history :
  CheckLinearizability std_sort history = Done (Ok ()) ↔
  check_appended (std_sort history) = Done (Ok ()) ∧
  check_prefixes (std_sort history) = Done (Ok ()) ∧
  check_order (std_sort history) = Done (Ok ()).
Proof.
  unfold CheckLinearizability.
  destruct (check_appended _) as [[[]|]| |]; simpl; try naive_solver.
  destruct (check_prefixes _) as [[[]|]| |]; simpl; naive_solver.
Qed.

(** The place of a request in the log is given by the size of its answer. *)
Definition place (r : RequestInfo) : nat * RequestInfo := (pred (length (result r)), r).

Definition sizes (history : list RequestInfo) : list nat := (λ r, length (result r)) <$> history.

Lemma accepted_linearizable history :
  CheckLinearizability std_sort history = Done (Ok ()) → NoDup (sizes history) → linearizable history.
Proof.
  rewrite CheckLinearizability_ok. set (s := std_sort history).
  intros (Happ & Hpre & Hord) Hnd. rewrite check_appended_ok in Happ.
  rewrite check_prefixes_ok in Hpre by apply std_sort_sorts. rewrite check_order_ok in Hord.
  assert (Hperm : s ≡ₚ history) by apply std_sort_permutes.
  assert (Hlen : ∀ r, r ∈ s → length (result r) = S (pred (length (result r)))).
  { intros r Hr%Happ. destruct (result r); done. }
  destruct (last s) as [longest|] eqn:Hl.
  2: { apply last_None in Hl. rewrite Hl in Hperm. exists [], []. split_and!; simpl; try done.
       - constructor.
       - intros k r []%not_elem_of_nil.
       - intros k r k' r' []%not_elem_of_nil. }
  exists (result longest), (place <$> s). split_and!.
  - by rewrite <-list_fmap_compose, list_fmap_id.
  - rewrite <-list_fmap_compose. apply (NoDup_fmap_1 S). rewrite <-list_fmap_compose.
    assert (Heq : (S ∘ (fst ∘ place)) <$> s = sizes s).
    { apply list_fmap_ext. intros i r Hr%list_elem_of_lookup_2. simpl. by rewrite <-Hlen. }
    rewrite Heq. unfold sizes. by rewrite Hperm.
  - intros k r (r' & [= -> ->] & Hr)%list_elem_of_fmap.
    pose proof Hr as [i Hi]%list_elem_of_lookup_1. pose proof (Hpre i r' longest Hi eq_refl) as Heq.
    rewrite <-Hlen by done. split; [|done].
    rewrite <-(Happ _ Hr), last_lookup.
    rewrite <-(lookup_take_lt (result longest) (length (result r'))), <-Heq; [done|].
    pose proof (Hlen _ Hr). lia.
  - intros k r k' r' (r1 & [= -> ->] & Hr1)%list_elem_of_fmap (r2 & [= -> ->] & Hr2)%list_elem_of_fmap Hlt.
    apply list_elem_of_lookup_1 in Hr1 as [i Hi]. apply list_elem_of_lookup_1 in Hr2 as [j Hj].
    pose proof (Hord _ _ _ _ Hi Hj Hlt) as Hij.
    pose proof (sorted_lookup _ _ _ _ _ _ (std_sort_sorts history) Hi Hj Hij) as Hle. unfold shorter in Hle.
    assert (length (result r1) ≠ length (result r2)).
    { intros He. assert (i = j); [|lia]. assert (Hnd' : NoDup (sizes s)) by (unfold sizes; by rewrite Hperm).
      eapply (NoDup_lookup (sizes s)); [done|..]; unfold sizes; rewrite list_lookup_fmap, ?Hi, ?Hj; simpl; [done|].
      by rewrite He. }
    pose proof (Hlen _ (list_elem_of_lookup_2 _ _ _ Hi)). pose proof (Hlen _ (list_elem_of_lookup_2 _ _ _ Hj)). lia.
Qed.

(** The answers of a linearizable history. *)
Lemma linearizable_sizes history :
  linearizable history →
  NoDup (sizes history) ∧
  ∃ (log : list Z) (index : RequestInfo → nat), ∀ r, r ∈ history →
    result r = take (S (index r)) log ∧ log !! index r = Some (command r) ∧
    length (result r) = S (index r) ∧
    ∀ r', r' ∈ history → completion_time r < invocation_time r' → (index r < index r')%nat.
Proof.
  intros (log & places & Hperm & Hnd & Hlog & Hord).
  assert (Hlen : ∀ k r, (k, r) ∈ places → length (result r) = S k).
  { intros k r Hr. destruct (Hlog _ _ Hr) as [Hk ->]. rewrite length_take.
    apply lookup_lt_Some in Hk. lia. }
  assert (Hin : ∀ r, r ∈ history → ∃ k, (k, r) ∈ places ∧ k = pred (length (result r))).
  { intros r Hr. rewrite <-Hperm in Hr. apply list_elem_of_fmap in Hr as ([k r'] & -> & Hr).
    exists k. split; [done|]. simpl. by rewrite (Hlen _ _ Hr). }
  split.
  - unfold sizes. rewrite <-Hperm. rewrite <-list_fmap_compose.
    assert (Heq : ((λ r, length (result r)) ∘ snd) <$> places = S <$> places.*1).
    { rewrite <-list_fmap_compose. apply list_fmap_ext.
      intros i [k r] Hi%list_elem_of_lookup_2. by apply Hlen. }
    rewrite Heq. by apply (NoDup_fmap_2 S).
  - exists log, (λ r, pred (length (result r))). intros r Hr.
    destruct (Hin r Hr) as (k & Hk & <-). destruct (Hlog _ _ Hk) as [? ?].
    split_and!; [done|done|by apply Hlen|]. intros r' Hr' Hlt.
    destruct (Hin r' Hr') as (k' & Hk' & <-). by eapply Hord.
Qed.

Lemma linearizable_accepted history :
  linearizable history → CheckLinearizability std_sort history = Done (Ok ()).
Proof.
  intros (Hnd & log & index & Hidx)%linearizable_sizes. rewrite CheckLinearizability_ok.
  set (s := std_sort history). assert (Hperm : s ≡ₚ history) by apply std_sort_permutes.
  assert (Hall : ∀ i r, s !! i = Some r → r ∈ history).
  { intros i r Hr%list_elem_of_lookup_2. by rewrite <-Hperm. }
  split_and!.
  - apply check_appended_ok. intros r Hr. rewrite Hperm in Hr.
    destruct (Hidx r Hr) as (Hres & Hcmd & Hlen & _). rewrite last_lookup, Hlen. simpl.
    rewrite Hres, lookup_take_lt by lia. done.
  - apply check_prefixes_ok; [apply std_sort_sorts|]. intros i r longest Hi Hl.
    pose proof (sorted_last _ _ _ _ (std_sort_sorts history) Hi Hl) as Hle. unfold shorter in Hle.
    apply last_Some_elem_of in Hl. rewrite Hperm in Hl.
    destruct (Hidx r (Hall _ _ Hi)) as (Hres & _ & Hlen & _).
    destruct (Hidx longest Hl) as (Hres' & _ & Hlen' & _).
    rewrite Hres', take_take, Nat.min_l by lia. by rewrite Hlen.
  - apply check_order_ok. intros i j r r' Hi Hj Hlt.
    destruct (Hidx r (Hall _ _ Hi)) as (_ & _ & Hlen & Hbefore).
    specialize (Hbefore r' (Hall _ _ Hj) Hlt).
    destruct (Hidx r' (Hall _ _ Hj)) as (_ & _ & Hlen' & _).
    destruct (decide (i < j)%nat) as [|Hge]; [done|]. exfalso.
    destruct (decide (i = j)) as [->|Hne]; [simplify_eq; lia|].
    pose proof (sorted_lookup _ _ _ _ _ _ (std_sort_sorts history) Hj Hi ltac:(lia)) as Hle.
    unfold shorter in Hle. lia.
Qed.
End correctness.

(** [C16] The checker decides linearizability up to repeated answers: whatever
    order [std::sort] leaves equal sizes in, a history is linearizable exactly
    if the checker accepts it and no two answers have the same size. *)
Theorem checker_decides_linearizability (std_sort : list RequestInfo → list RequestInfo)
    (Hperm : ∀ h, std_sort h ≡ₚ h) (Hsort : ∀ h, StronglySorted shorter (std_sort h))
    (history : list RequestInfo) :
  linearizable history ↔
  CheckLinearizability std_sort history = Done (Ok ()) ∧ NoDup (sizes history).
Proof.
  split.
  - intros Hlin. split; [by apply linearizable_accepted|]. by apply linearizable_sizes.
  - intros [Hok Hnd]. by eapply accepted_linearizable.
Qed.

(** A stable sort, one of the results [std::sort] may have. *)
Definition stable_sort : list RequestInfo → list RequestInfo := merge_sort shorter.

#[export] Instance shorter_trans : Transitive shorter.
Proof. intros a b c. unfold shorter. lia. Qed.
#[export] Instance shorter_total : Total shorter.
Proof. intros a b. unfold shorter. lia. Qed.

Lemma stable_sort_ok h : stable_sort h ≡ₚ h ∧ StronglySorted shorter (stable_sort h).
Proof. split; [apply merge_sort_Permutation|apply (StronglySorted_merge_sort shorter)]. Qed.

Lemma checker_decides_linearizability_witness :
  let history := [MkRequestInfo 1 4 8 [7; 8]; MkRequestInfo 2 3 7 [7]] in
  linearizable history.
Proof.
  intros history.
  apply (checker_decides_linearizability stable_sort
           (λ h, proj1 (stable_sort_ok h)) (λ h, proj2 (stable_sort_ok h)) history).
  split; [vm_compute; reflexivity|]. apply (bool_decide_eq_true_1 _). vm_compute. reflexivity.
Defined.

(** The checker accepts histories that are not linearizable: two requests
    that are both told that theirs is the first command are accepted if they
    overlap, in every order [std::sort] may leave them in, and even if one ended
    before the other began. An empty answer is read out of bounds. *)
Theorem checker_accepts_repeated_answers :
  (∀ std_sort, (∀ h, std_sort h ≡ₚ h) →
     let history := [MkRequestInfo 1 3 5 [5]; MkRequestInfo 2 4 5 [5]] in
     CheckLinearizability std_sort history = Done (Ok ()) ∧ ¬ linearizable history) ∧
  (let history := [MkRequestInfo 1 2 5 [5]; MkRequestInfo 3 4 5 [5]] in
   CheckLinearizability stable_sort history = Done (Ok ()) ∧ ¬ linearizable history) ∧
  CheckLinearizability stable_sort [MkRequestInfo 1 2 5 []] = Undefined "back of an empty vector".
Proof.
  split_and!; [|split; [vm_compute; reflexivity|]|vm_compute; reflexivity].
  - intros std_sort Hperm history.
    assert (Hs : std_sort history = history ∨ std_sort history = [MkRequestInfo 2 4 5 [5]; MkRequestInfo 1 3 5 [5]]).
    { apply Permutation_length_2_inv. by symmetry. }
    split; [unfold CheckLinearizability; destruct Hs as [-> | ->]; vm_compute; reflexivity|].
    intros [Hnd _]%linearizable_sizes. by apply NoDup_cons in Hnd as [[] _]; left.
  - intros [Hnd _]%linearizable_sizes. by apply NoDup_cons in Hnd as [[] _]; left.
Qed.
