(* ===== verification/HistoryParser.v ===== *)
(** * The history of the system test

    The clients of the system test (src/raft/test/exe/client.cpp, mode
    [random]) print one line per request; the outputs of all clients, one after
    the other, are the standard input of the history checker
    (src/raft/test/system_test/history_checker.cpp), which parses them with
    [ParseHistory] and runs [CheckLinearizability] on the result. Here: the
    stream operators the parser uses, with their [eofbit] and [failbit]; the
    parser and the checker's [main]; the lines the client prints; that the
    parser terminates on every input and reads back what the clients print,
    also if the output ends in the middle of a line; and that a line cut off
    before the output of another client hides that output. *)

From Stdlib Require Import Ascii.
From stdpp Require Import pretty sorting.
From S2P Require Import Prelude.
From S2P Require Import Result.
From S2P Require Import RtTypes.
From S2P Require Import RaftClient.
From S2P Require Import Parse.
From S2P Require Import HistoryChecker.

Local Open Scope Z_scope.

(** ** Input streams

    [std::istream] in the classic locale with the default flags: the characters
    not read yet and the state bits ([badbit] is never set: reading from memory
    or a pipe does not fail otherwise). *)
Record istream : Type := MkIstream { rest : string; eofbit : bool; failbit : bool }.

Definition good_stream (s : string) : istream := MkIstream s false false.

Definition good (ist : istream) : bool := negb (eofbit ist) && negb (failbit ist).

(** [operator bool] *)
Definition stream_ok (ist : istream) : bool := negb (failbit ist).

Definition at_end (s : string) : bool := match s with EmptyString => true | _ => false end.

(** The constructor of [std::istream::sentry]. *)
Definition sentry (noskipws : bool) (ist : istream) : bool * istream :=
  if good ist then
    if noskipws then (true, ist)
    else let s := skip_spaces (rest ist) in
         if at_end s then (false, MkIstream s true true) else (true, good_stream s)
  else (false, MkIstream (rest ist) (eofbit ist) true).

Fixpoint after_word (s : string) : string :=
  match s with
  | String c s' => if is_space c then s else after_word s'
  | EmptyString => EmptyString
  end.

(** [is >> str]; [str] is empty before. *)
Definition read_string (ist : istream) : string * istream :=
  let '(ok, ist) := sentry false ist in
  if ok then
    let s := after_word (rest ist) in (read_word (rest ist), MkIstream s (at_end s) false)
  else (EmptyString, ist).

(** [is >> value] for [uint64_t]: the value is kept if the sentry fails. *)
Definition read_u64 (value : Z) (ist : istream) : Z * istream :=
  let '(ok, ist) := sentry false ist in
  if ok then
    let '(v, s, converted) := extract_u64 (rest ist) in (v, MkIstream s (at_end s) (negb converted))
  else (value, ist).

(** [is >> c] for [char]. *)
Definition read_char (c : ascii) (ist : istream) : ascii * istream :=
  let '(ok, ist) := sentry false ist in
  if ok then match rest ist with
             | String d s => (d, good_stream s)
             | EmptyString => (c, ist)
             end
  else (c, ist).

Definition newline : ascii := "010"%char.

Fixpoint after_newline (s : string) : option string :=
  match s with
  | String c s' => if decide (c = newline) then Some s' else after_newline s'
  | EmptyString => None
  end.

(** [std::getline]; the line itself is dropped by the caller. *)
Definition getline (ist : istream) : istream :=
  let '(ok, ist) := sentry true ist in
  if ok then match after_newline (rest ist) with
             | Some s => good_stream s
             | None => MkIstream EmptyString true (at_end (rest ist))
             end
  else ist.

(** ** The parser *)

(** The loop over the entries of the log. *)
Fixpoint read_log (fuel : nat) (count : Z) (ist : istream) : option (list Z * istream) :=
  match fuel with
  | O => None
  | S fuel =>
      if bool_decide (count ≠ 0) && stream_ok ist then
        let '(data, ist) := read_u64 0 ist in
        '(log, ist) ← read_log fuel (count - 1) ist;
        Some (data :: log, ist)
      else Some ([], ist)
  end.

(** The number of iterations a loop on [ist] can make that reads at least one
    character in each, or fails. *)
Definition measure (ist : istream) : nat :=
  if failbit ist then 0 else S (String.length (rest ist)).

(** What one iteration does to the loop of [ParseHistory]. *)
Inductive iteration : Type :=
  | Continue (ist : istream)
  | Break
  | Push (info : RequestInfo) (ist : istream).

Definition parse_line (ist : istream) : option iteration :=
  let '(tag, ist) := read_string ist in
  if decide (tag ≠ "OK:") then Some (Continue (getline ist))
  else
    let '(invocation_time, ist) := read_u64 0 ist in
    let '(completion_time, ist) := read_u64 0 ist in
    let '(command, ist) := read_u64 0 ist in
    let '(bracket, ist) := read_char zero ist in
    if decide (bracket ≠ "["%char) then Some Break
    else
      let '(count, ist) := read_u64 0 ist in
      '(log, ist) ← read_log (S (measure ist)) count ist;
      let '(bracket, ist) := read_char bracket ist in
      if decide (bracket ≠ "]"%char) then Some Break
      else Some (Push (MkRequestInfo (to_signed invocation_time) (to_signed completion_time)
                         command log) ist).

Fixpoint parse_loop (fuel : nat) (ist : istream) : option (list RequestInfo) :=
  match fuel with
  | O => None
  | S fuel =>
      if stream_ok ist then
        it ← parse_line ist;
        match it with
        | Continue ist => parse_loop fuel ist
        | Break => Some []
        | Push info ist => history ← parse_loop fuel ist; Some (info :: history)
        end
      else Some []
  end.

Definition ParseHistory (input : string) : option (list RequestInfo) :=
  let ist := good_stream input in parse_loop (S (measure ist)) ist.

Definition line (s : string) : string := s +:+ String newline EmptyString.

(** [main] of the checker on its standard input: what it prints and its exit
    code. *)
Definition main (std_sort : list RequestInfo → list RequestInfo) (input : string) :
    option (outcome (string * Z)) :=
  history ← ParseHistory input;
  let successes := line ("Successes: " +:+ pretty (Z.of_nat (length history))) in
  Some (r ← CheckLinearizability std_sort history;
        Done match r with
             | Err e => (successes +:+ line ("Fail: " +:+ e), 1)
             | Ok _ => (successes +:+ line "Ok", 0)
             end).

(** ** The client *)

(** One iteration of the loop of mode [random]: the two readings of the clock,
    the command and what [RaftClient::Apply] returned. *)
Record Attempt : Type := MkAttempt {
  at_invocation_time : Z;
  at_completion_time : Z;
  at_command : Z;
  at_result : Result (list Z) RaftClientError;
}.

(** The line it prints. *)
Definition print_attempt (a : Attempt) : string :=
  match at_result a with
  | Err e => line ("ERROR: " +:+ RaftClientError_Message e)
  | Ok log_entries =>
      line ("OK: " +:+ pretty (at_invocation_time a) +:+ " " +:+ pretty (at_completion_time a) +:+ " " +:+
            pretty (at_command a) +:+ " [ " +:+ pretty (Z.of_nat (length log_entries)) +:+ " " +:+
            String.concat " " (pretty <$> log_entries) +:+ " ]")
  end.

Fixpoint print_attempts (attempts : list Attempt) : string :=
  match attempts with
  | [] => EmptyString
  | a :: attempts => print_attempt a +:+ print_attempts attempts
  end.

Definition success (a : Attempt) : option RequestInfo :=
  match at_result a with
  | Err _ => None
  | Ok log_entries =>
      Some (MkRequestInfo (at_invocation_time a) (at_completion_time a) (at_command a) log_entries)
  end.

Definition successes : list Attempt → list RequestInfo := omap success.

(** Times are 64-bit signed, commands 64-bit unsigned, the number of log entries
    is an [int], and the messages of errors are one line. *)
Definition is_i64 (z : Z) : Prop := - 2 ^ 63 ≤ z < 2 ^ 63.

Record attempt_ok (a : Attempt) : Prop := MkAttemptOk {
  ok_invocation : is_i64 (at_invocation_time a);
  ok_completion : is_i64 (at_completion_time a);
  ok_command : is_u64 (at_command a);
  ok_result : match at_result a with
              | Ok log_entries => Forall is_u64 log_entries ∧ Z.of_nat (length log_entries) < 2 ^ 31
              | Err e => after_newline (RaftClientError_Message e) = None
              end;
}.

Definition sample_attempts : list Attempt :=
  [MkAttempt (-5) 20 7 (Ok [7]);
   MkAttempt 21 30 18446744073709551615 (Err (ClientErrorType GlobalTimeout));
   MkAttempt 31 40 8 (Ok [7; 9; 8])].

Example sample_output :
  print_attempts sample_attempts =
  line "OK: -5 20 7 [ 1 7 ]" +:+ line "ERROR: GlobalTimeout" +:+ line "OK: 31 40 8 [ 3 7 9 8 ]".
Proof. vm_compute. reflexivity. Qed.

Example sample_parsed :
  ParseHistory (print_attempts sample_attempts) = Some (successes sample_attempts).
Proof. vm_compute. reflexivity. Qed.

Example sample_main :
  main stable_sort (print_attempts (take 2 sample_attempts)) =
  Some (Done (line "Successes: 1" +:+ line "Ok", 0)).
Proof. vm_compute. reflexivity. Qed.

(** ** Reading moves forward *)

Definition suffix_of (t s : string) : Prop := ∃ p, s = p +:+ t.

#[export] Instance suffix_of_preorder : PreOrder suffix_of.
Proof.
  split; [by exists EmptyString|]. intros a b c [p ->] [q ->]. exists (q +:+ p). by rewrite string_app_assoc.
Qed.

Lemma suffix_of_cons c t s : suffix_of t s → suffix_of t (String c s).
Proof. intros [p ->]. by exists (String c p). Qed.

Lemma suffix_of_empty s : suffix_of EmptyString s.
Proof. exists s. by rewrite string_app_empty. Qed.

Lemma suffix_of_length t s : suffix_of t s → (String.length t ≤ String.length s)%nat.
Proof. intros [p ->]. rewrite string_length_app. lia. Qed.

Create HintDb stream.
#[local] Hint Resolve suffix_of_cons suffix_of_empty : stream.
#[local] Hint Extern 0 (suffix_of ?s ?s) => reflexivity : stream.

Lemma skip_spaces_suffix s : suffix_of (skip_spaces s) s.
Proof. induction s as [|c s IH]; simpl; [|case_match]; auto with stream. Qed.

Lemma skip_spaces_idemp s : skip_spaces (skip_spaces s) = skip_spaces s.
Proof.
  induction s as [|c s IH]; simpl; [done|]. destruct (is_space c) eqn:Hc; [done|]. simpl. by rewrite Hc.
Qed.

Lemma after_word_suffix s : suffix_of (after_word s) s.
Proof. induction s as [|c s IH]; simpl; [|case_match]; auto with stream. Qed.

Lemma after_newline_suffix s t : after_newline s = Some t → suffix_of t s ∧ t ≠ s.
Proof.
  intros Ht.
  assert (Hs : ∃ c s', s = String c s' ∧ suffix_of t s').
  { induction s as [|c s IH]; simpl in *; [done|]. exists c, s. split; [done|].
    case_decide; simplify_eq; [by auto with stream|].
    destruct (IH Ht) as (d & s' & -> & ?). by apply suffix_of_cons. }
  destruct Hs as (c & s' & -> & Hs). split; [by apply suffix_of_cons|].
  apply suffix_of_length in Hs. intros ->. simpl in Hs. lia.
Qed.

Lemma read_digits_suffix acc s : suffix_of (read_digits acc s).2 s.
Proof. revert acc. induction s as [|c s IH]; intros acc; simpl; [|case_match; simpl]; auto with stream. Qed.

Lemma read_digits_reads acc s :
  starts_with_digit s = true → (String.length (read_digits acc s).2 < String.length s)%nat.
Proof.
  destruct s as [|c s]; [done|]. intros Hc. simpl in *. rewrite Hc.
  pose proof (suffix_of_length _ _ (read_digits_suffix (10 * acc + (char_code c - 48)) s)). lia.
Qed.

Lemma read_sign_suffix s : suffix_of (read_sign s).2 s.
Proof. destruct s as [|c s]; simpl; [|repeat case_decide]; simpl; auto with stream. Qed.

Lemma extract_u64_suffix s v t converted :
  extract_u64 s = (v, t, converted) →
  suffix_of t s ∧ (converted = true → String.length t < String.length s)%nat.
Proof.
  unfold extract_u64. pose proof (read_sign_suffix (skip_spaces s)) as Hsign.
  destruct (read_sign (skip_spaces s)) as [neg s'] eqn:Es. simpl in Hsign.
  rewrite (skip_spaces_suffix s) in Hsign. destruct (starts_with_digit s') eqn:Hd.
  2: { intros [= _ <- <-]. done. }
  pose proof (read_digits_suffix 0 s') as Hsuf. pose proof (read_digits_reads 0 s' Hd) as Hlt.
  destruct (read_digits 0 s') as [v' t']. simpl in *. pose proof (suffix_of_length _ _ Hsign).
  intros Heq. assert (t = t') as -> by (case_decide; by simplify_eq).
  split; [|intros; lia]. by etrans.
Qed.

(** [ist'] is [ist] after reading on. *)
Record follows (ist ist' : istream) : Prop := MkFollows {
  follows_suffix : suffix_of (rest ist') (rest ist);
  follows_measure : (measure ist' ≤ measure ist)%nat;
}.

#[export] Instance follows_preorder : PreOrder follows.
Proof.
  split; [by split|]. intros a b c [? ?] [? ?]. split; [by etrans|lia].
Qed.

(** ... and at least one character was read, or the stream has failed. *)
Record advances (ist ist' : istream) : Prop := MkAdvances {
  advances_follows : follows ist ist';
  advances_strict : stream_ok ist = true → (measure ist' < measure ist)%nat;
}.

Lemma advances_trans a b c : advances a b → follows b c → advances a c.
Proof.
  intros [Hab Hlt] Hbc. split; [by etrans|]. intros Hok. pose proof (Hlt Hok). destruct Hbc. lia.
Qed.

Lemma failed_advances ist s e : suffix_of s (rest ist) → advances ist (MkIstream s e true).
Proof.
  intros Hs. split; [split; [done|]|]; unfold measure, stream_ok; simpl; destruct (failbit ist); simpl; try done; lia.
Qed.

Lemma shorter_advances ist s e f :
  suffix_of s (rest ist) → (f = false → String.length s < String.length (rest ist))%nat →
  stream_ok ist = true → advances ist (MkIstream s e f).
Proof.
  intros Hs Hlt Hok. destruct f; [by apply failed_advances|]. specialize (Hlt eq_refl).
  unfold stream_ok in Hok. apply negb_true_iff in Hok.
  split; [split; [done|]|]; unfold measure; simpl; rewrite Hok; simpl; lia.
Qed.

(** The sentry fails, or leaves a good stream. *)
Lemma sentry_cases noskipws ist :
  (∃ s e, sentry noskipws ist = (false, MkIstream s e true) ∧ suffix_of s (rest ist)) ∨
  (∃ s, sentry noskipws ist = (true, good_stream s) ∧ suffix_of s (rest ist) ∧ stream_ok ist = true ∧
     if noskipws then s = rest ist else skip_spaces (rest ist) = s ∧ s ≠ EmptyString).
Proof.
  unfold sentry, good. destruct ist as [s [] []]; simpl; try (left; by eauto with stream).
  destruct noskipws; [right; by eauto with stream|]. pose proof (skip_spaces_suffix s) as Hs.
  destruct (skip_spaces s) as [|c s'] eqn:E; simpl; [left|right]; eauto 8.
Qed.

Lemma after_word_reads c s :
  is_space c = false → (String.length (after_word (String c s)) < String.length (String c s))%nat.
Proof.
  intros Hc. simpl. rewrite Hc. pose proof (suffix_of_length _ _ (after_word_suffix s)). lia.
Qed.

Lemma skip_spaces_not_space s c s' : skip_spaces s = String c s' → is_space c = false.
Proof.
  induction s as [|d s IH]; simpl; [done|]. destruct (is_space d) eqn:Hd; [done|]. by intros [= -> _].
Qed.

Lemma read_string_advances ist : advances ist (read_string ist).2.
Proof.
  unfold read_string.
  destruct (sentry_cases false ist) as [(s & e & -> & Hs)|(s & -> & Hs & Hok & Hskip & Hne)]; simpl.
  - by apply failed_advances.
  - destruct s as [|c s]; [done|].
    pose proof (after_word_reads c s (skip_spaces_not_space _ _ _ Hskip)).
    pose proof (suffix_of_length _ _ Hs).
    apply shorter_advances; [etrans; [apply after_word_suffix|done]|intros _; lia|done].
Qed.

Lemma read_u64_advances v ist : advances ist (read_u64 v ist).2.
Proof.
  unfold read_u64.
  destruct (sentry_cases false ist) as [(s & e & -> & Hs)|(s & -> & Hs & Hok & _)]; simpl.
  - by apply failed_advances.
  - destruct (extract_u64 s) as [[v' t] converted] eqn:He. simpl.
    apply extract_u64_suffix in He as [Ht Hlt]. pose proof (suffix_of_length _ _ Hs).
    apply shorter_advances; [by etrans|by intros ->%negb_false_iff; specialize (Hlt eq_refl); lia|done].
Qed.

Lemma read_char_advances c ist : advances ist (read_char c ist).2.
Proof.
  unfold read_char.
  destruct (sentry_cases false ist) as [(s & e & -> & Hs)|(s & -> & Hs & Hok & _ & Hne)]; simpl.
  - by apply failed_advances.
  - destruct s as [|d s]; [done|]. simpl. pose proof (suffix_of_length _ _ Hs) as Hl. simpl in Hl.
    apply shorter_advances; [etrans; [|done]; by auto with stream|lia|done].
Qed.

Lemma getline_advances ist : advances ist (getline ist).
Proof.
  unfold getline.
  destruct (sentry_cases true ist) as [(s & e & -> & Hs)|(s & -> & Hs & Hok & ->)]; simpl.
  - by apply failed_advances.
  - destruct (after_newline (rest ist)) as [t|] eqn:Ht.
    + destruct (after_newline_suffix _ _ Ht) as [Hsuf Hne]. apply shorter_advances; [done|intros _|done].
      destruct Hsuf as [[|d p] Hp]; [by rewrite Hp in Hne|]. rewrite Hp, string_length_app. simpl. lia.
    + apply shorter_advances; [by auto with stream|intros Hend|done]. by destruct (rest ist); simpl in *; [|lia].
Qed.

Lemma read_log_follows fuel count ist log ist' :
  read_log fuel count ist = Some (log, ist') → follows ist ist'.
Proof.
  revert count ist log. induction fuel as [|fuel IH]; intros count ist log; simpl; [done|].
  destruct (_ && _); [|by intros [= _ <-]].
  pose proof (read_u64_advances 0 ist) as [Hf _]. destruct (read_u64 0 ist) as [d ist1]. simpl in *.
  intros ([log1 ist2] & Hlog & [= <- <-])%bind_Some. etrans; [exact Hf|]. by eapply IH.
Qed.

Lemma read_log_total fuel count ist :
  (measure ist < fuel)%nat → is_Some (read_log fuel count ist).
Proof.
  revert count ist. induction fuel as [|fuel IH]; intros count ist Hm; simpl; [lia|].
  destruct (bool_decide (count ≠ 0)); simpl; [|by eexists].
  destruct (stream_ok ist) eqn:Hok; [|by eexists].
  pose proof (read_u64_advances 0 ist) as [_ Hlt]. destruct (read_u64 0 ist) as [d ist1]. simpl in *.
  destruct (IH (count - 1) ist1) as [[log ist2] Hlog]; [specialize (Hlt Hok); lia|].
  rewrite Hlog. by eexists.
Qed.

Lemma read_log_mono fuel fuel' count ist r :
  read_log fuel count ist = Some r → (fuel ≤ fuel')%nat → read_log fuel' count ist = Some r.
Proof.
  revert fuel' count ist r. induction fuel as [|fuel IH]; intros fuel' count ist r; [done|].
  destruct fuel' as [|fuel']; [lia|]. simpl. intros Hr Hle. destruct (_ && _); [|done].
  destruct (read_u64 0 ist) as [d ist1]. apply bind_Some in Hr as ([log ist2] & Hlog & Hr).
  rewrite (IH fuel' _ _ _ Hlog) by lia. done.
Qed.

Fixpoint has_char (c : ascii) (s : string) : bool :=
  match s with
  | String d s => bool_decide (d = c) || has_char c s
  | EmptyString => false
  end.

Lemma has_char_app c a b : has_char c (a +:+ b) = has_char c a || has_char c b.
Proof. induction a as [|d a IH]; [done|]. simpl. by rewrite IH, orb_assoc. Qed.

Lemma has_char_suffix c t s : suffix_of t s → has_char c s = false → has_char c t = false.
Proof. intros [p ->]. rewrite has_char_app. by intros [_ ?]%orb_false_iff. Qed.

Lemma read_char_has c d ist : (read_char d ist).1 = c → c ≠ d → has_char c (rest ist) = true.
Proof.
  unfold read_char.
  destruct (sentry_cases false ist) as [(s & e & -> & Hs)|(s & -> & Hs & Hok & _ & Hne)]; simpl.
  - by intros ->.
  - destruct s as [|d' s]; [done|]. simpl. intros -> _.
    destruct (has_char c (rest ist)) eqn:Hc; [done|]. pose proof (has_char_suffix _ _ _ Hs Hc) as Ht.
    simpl in Ht. by rewrite bool_decide_eq_true_2 in Ht.
Qed.

(** What an iteration leaves: a further one starts later in the input, and an
    entry has its closing bracket in the input. *)
Definition iteration_ok (ist : istream) (it : iteration) : Prop :=
  match it with
  | Continue ist' => advances ist ist'
  | Break => True
  | Push _ ist' => advances ist ist' ∧ has_char "]" (rest ist) = true
  end.

(** Every iteration ends. *)
Lemma parse_line_total ist : ∃ it, parse_line ist = Some it ∧ iteration_ok ist it.
Proof.
  unfold parse_line. pose proof (read_string_advances ist) as H0.
  destruct (read_string ist) as [tag ist0]. simpl in H0. case_decide.
  { eexists. split; [done|]. eapply advances_trans; [done|]. apply getline_advances. }
  pose proof (read_u64_advances 0 ist0) as [H1 _]. destruct (read_u64 0 ist0) as [inv ist1]. simpl in H1.
  pose proof (read_u64_advances 0 ist1) as [H2 _]. destruct (read_u64 0 ist1) as [compl ist2]. simpl in H2.
  pose proof (read_u64_advances 0 ist2) as [H3 _]. destruct (read_u64 0 ist2) as [cmd ist3]. simpl in H3.
  pose proof (read_char_advances zero ist3) as [H4 _]. destruct (read_char zero ist3) as [b ist4]. simpl in H4.
  case_decide as Hb; [by eexists|]. subst b.
  pose proof (read_u64_advances 0 ist4) as [H5 _]. destruct (read_u64 0 ist4) as [count ist5]. simpl in H5.
  destruct (read_log_total (S (measure ist5)) count ist5) as [[log ist6] Hlog]; [lia|].
  rewrite Hlog. simpl. apply read_log_follows in Hlog as H6. clear Hlog.
  pose proof (read_char_advances "[" ist6) as [H7 _]. pose proof (read_char_has "]" "[" ist6) as Hhas.
  destruct (read_char "[" ist6) as [b' ist7]. simpl in *.
  case_decide as Hb'; [by eexists|]. subst b'. eexists. split; [done|].
  assert (H06 : follows ist0 ist6) by (do 5 (etrans; [eassumption|]); done).
  split; [eapply advances_trans; [done|]; by etrans|].
  destruct (has_char "]" (rest ist)) eqn:Hc; [done|]. rewrite <-Hhas by done.
  symmetry. eapply has_char_suffix; [|done]. etrans; [by apply H06|]. by apply H0.
Qed.

Lemma parse_line_ok ist it : parse_line ist = Some it → iteration_ok ist it.
Proof. destruct (parse_line_total ist) as (it' & -> & ?). by intros [= <-]. Qed.

Lemma parse_loop_total fuel ist : (measure ist < fuel)%nat → is_Some (parse_loop fuel ist).
Proof.
  revert ist. induction fuel as [|fuel IH]; intros ist Hm; simpl; [lia|].
  destruct (stream_ok ist) eqn:Hok; [|by eexists].
  destruct (parse_line_total ist) as (it & -> & Hit). simpl. destruct it as [ist'| |info ist']; simpl in Hit.
  - destruct Hit as [_ Hlt]. apply IH. specialize (Hlt Hok). lia.
  - by eexists.
  - destruct Hit as [[_ Hlt] _]. destruct (IH ist') as [h Hh]; [specialize (Hlt Hok); lia|].
    rewrite Hh. by eexists.
Qed.

Lemma parse_loop_mono fuel fuel' ist h :
  parse_loop fuel ist = Some h → (fuel ≤ fuel')%nat → parse_loop fuel' ist = Some h.
Proof.
  revert fuel' ist h. induction fuel as [|fuel IH]; intros fuel' ist h; [done|].
  destruct fuel' as [|fuel']; [lia|]. simpl. intros Hh Hle. destruct (stream_ok ist); [|done].
  apply bind_Some in Hh as (it & -> & Hh). simpl. destruct it as [ist'| |info ist']; [by apply IH; [|lia]|done|].
  apply bind_Some in Hh as (h' & Hh' & [= <-]). by rewrite (IH fuel' _ _ Hh') by lia.
Qed.

(** The result of the loop, whatever the fuel. *)
Definition parses (ist : istream) (history : list RequestInfo) : Prop :=
  ∃ fuel, parse_loop fuel ist = Some history.

Lemma parses_ParseHistory s history : parses (good_stream s) history → ParseHistory s = Some history.
Proof.
  intros [fuel Hf]. unfold ParseHistory.
  destruct (parse_loop_total (S (measure (good_stream s))) (good_stream s)) as [h Hh]; [lia|].
  rewrite Hh. f_equal.
  apply (parse_loop_mono _ (fuel `max` S (measure (good_stream s)))) in Hf, Hh; [congruence|lia..].
Qed.

Lemma parses_failed ist : stream_ok ist = false → parses ist [].
Proof. intros Hf. exists 1%nat. simpl. by rewrite Hf. Qed.

Lemma parses_Continue ist ist' h :
  stream_ok ist = true → parse_line ist = Some (Continue ist') → parses ist' h → parses ist h.
Proof. intros Hok Hl [fuel Hf]. exists (S fuel). simpl. by rewrite Hok, Hl. Qed.

Lemma parses_Break ist : stream_ok ist = true → parse_line ist = Some Break → parses ist [].
Proof. intros Hok Hl. exists 1%nat. simpl. by rewrite Hok, Hl. Qed.

Lemma parses_Push ist info ist' h :
  stream_ok ist = true → parse_line ist = Some (Push info ist') → parses ist' h → parses ist (info :: h).
Proof. intros Hok Hl [fuel Hf]. exists (S fuel). simpl. rewrite Hok, Hl. simpl. by rewrite Hf. Qed.

(** Without a closing bracket there is no entry. *)
Lemma parses_without_bracket s : has_char "]" s = false → parses (good_stream s) [].
Proof.
  destruct (parse_loop_total (S (measure (good_stream s))) (good_stream s)) as [h Hh]; [lia|].
  intros Hno. assert (h = []) as ->; [|by eexists].
  change s with (rest (good_stream s)) in Hno. revert Hno Hh. generalize (good_stream s) at 1 3.
  generalize (S (measure (good_stream s))).
  intros fuel. induction fuel as [|fuel IH]; intros ist Hno; simpl; [done|].
  destruct (stream_ok ist); [|by intros [= <-]].
  intros (it & Hit%parse_line_ok & Hh)%bind_Some. destruct it as [ist'| |info ist']; simpl in Hit.
  - apply (IH ist'); [|done]. eapply has_char_suffix; [by apply Hit|done].
  - by simplify_eq.
  - destruct Hit as [_ Hc]. congruence.
Qed.
