(* ===== verification/HistoryRoundTrip.v ===== *)
(** * Reading back the history of the system test

    What [ParseHistory] returns on the output of the clients of the system test
    ([HistoryParser]): whole outputs, outputs that end anywhere, and outputs
    that go on after a line that was cut off. With the theorems on
    [CheckLinearizability] this gives the meaning of the exit code of the
    checker. *)

From Stdlib Require Import Ascii.
From stdpp Require Import pretty sorting.
From S2P Require Import Prelude.
From S2P Require Import Result.
From S2P Require Import RtTypes.
From S2P Require Import RaftClient.
From S2P Require Import Parse.
From S2P Require Import HistoryChecker.
From S2P Require Import HistoryParser.

Local Open Scope Z_scope.

(** ** Numbers *)

Lemma pretty_Z_neg z : z < 0 → pretty z = "-" +:+ pretty (- z).
Proof. by destruct z. Qed.

Lemma extract_u64_printed z t :
  - 2 ^ 63 ≤ z ≤ u64_max → starts_with_digit t = false →
  extract_u64 (String " " (pretty z +:+ t)) = (wrap64 z, t, true).
Proof.
  intros Hz Ht. unfold extract_u64.
  change (skip_spaces (String " " (pretty z +:+ t))) with (skip_spaces (pretty z +:+ t)).
  destruct (decide (0 ≤ z)).
  - destruct (read_digits_pretty z t) as [Hd Hr]; [done..|].
    rewrite starts_with_digit_plain, Hd, Hr by done. rewrite decide_True by lia.
    rewrite wrap64_small; [done|]. unfold is_u64. lia.
  - rewrite pretty_Z_neg by lia.
    change (skip_spaces (("-" +:+ pretty (- z)) +:+ t)) with (String "-" (pretty (- z) +:+ t)).
    change (read_sign (String "-" (pretty (- z) +:+ t))) with (true, pretty (- z) +:+ t).
    destruct (read_digits_pretty (- z) t) as [Hd Hr]; [lia|done|]. cbn zeta beta iota. rewrite Hd, Hr.
    rewrite decide_True by (unfold u64_max, u64_modulus; lia). by rewrite Z.opp_involutive.
Qed.

Lemma extract_u64_skip s : extract_u64 (skip_spaces s) = extract_u64 s.
Proof. unfold extract_u64. by rewrite skip_spaces_idemp. Qed.

(** The number is followed by something that is not a digit. *)
Lemma read_u64_printed v z c t :
  - 2 ^ 63 ≤ z ≤ u64_max → is_digit c = false →
  read_u64 v (good_stream (String " " (pretty z +:+ String c t))) = (wrap64 z, good_stream (String c t)).
Proof.
  intros Hz Hc. pose proof (extract_u64_printed z (String c t) Hz Hc) as He.
  unfold read_u64, sentry. cbn [good good_stream eofbit failbit negb andb rest].
  destruct (at_end _) eqn:Hend.
  { rewrite <-extract_u64_skip in He. destruct (skip_spaces _); [|done].
    by change (extract_u64 EmptyString) with (0, EmptyString, false) in He. }
  cbn [good_stream rest]. by rewrite extract_u64_skip, He.
Qed.

Lemma to_signed_wrap64 z : is_i64 z → to_signed (wrap64 z) = z.
Proof.
  unfold is_i64, to_signed, wrap64, u64_modulus. intros Hz. destruct (decide (0 ≤ z)).
  - rewrite Z.mod_small by lia. by rewrite decide_True by lia.
  - rewrite <-(Z.mod_add z 1) by lia. rewrite Z.mod_small by lia. rewrite decide_False by lia. lia.
Qed.

(** ** The line of a success *)

(** Entries with a space before each. *)
Fixpoint spaced (entries : list Z) (t : string) : string :=
  match entries with
  | [] => t
  | e :: entries => String " " (pretty e +:+ spaced entries t)
  end.

Lemma join_spaced e entries t :
  String " " (String.concat " " (pretty <$> e :: entries) +:+ t) = spaced (e :: entries) t.
Proof.
  revert e. induction entries as [|e' entries IH]; intros e; [done|].
  change (String.concat " " (pretty <$> e :: e' :: entries))
    with (pretty e +:+ String " " (String.concat " " (pretty <$> e' :: entries))).
  rewrite string_app_assoc.
  change (String " " (String.concat " " (pretty <$> e' :: entries)) +:+ t)
    with (String " " (String.concat " " (pretty <$> e' :: entries) +:+ t)).
  by rewrite IH.
Qed.

Lemma spaced_head entries t : ∃ t', spaced entries (String " " t) = String " " t'.
Proof. destruct entries; simpl; by eexists. Qed.

Lemma read_log_spaced entries t :
  Forall is_u64 entries →
  read_log (S (length entries)) (Z.of_nat (length entries)) (good_stream (spaced entries (String " " t))) =
  Some (entries, good_stream (String " " t)).
Proof.
  intros Hall. induction Hall as [|e entries He Hall IH]; [done|].
  cbn [length spaced]. remember (S (length entries)) as fuel eqn:Hfuel. cbn [read_log].
  rewrite bool_decide_eq_true_2 by lia. cbn [stream_ok good_stream failbit negb andb].
  destruct (spaced_head entries t) as [t' Ht]. rewrite Ht in IH |- *.
  fold (good_stream (String " " (pretty e +:+ String " " t'))).
  rewrite read_u64_printed by (done || unfold is_u64 in He; lia).
  rewrite wrap64_small by done. replace (Z.of_nat fuel - 1) with (Z.of_nat (length entries)) by lia.
  by rewrite IH.
Qed.

Lemma read_log_enough fuel count ist r :
  read_log fuel count ist = Some r → read_log (S (measure ist)) count ist = Some r.
Proof.
  intros Hr. destruct (read_log_total (S (measure ist)) count ist) as [r' Hr']; [lia|].
  rewrite Hr'. apply (read_log_mono _ (fuel `max` S (measure ist))) in Hr, Hr'; [congruence|lia..].
Qed.

(** The text up to the number of entries, and the rest of the line. *)
Definition ok_header (a : Attempt) (count : nat) (t : string) : string :=
  "OK: " +:+ pretty (at_invocation_time a) +:+ " " +:+ pretty (at_completion_time a) +:+ " " +:+
  pretty (at_command a) +:+ " [ " +:+ pretty (Z.of_nat count) +:+ t.

Definition ok_rest (log_entries : list Z) : string :=
  " " +:+ String.concat " " (pretty <$> log_entries) +:+ " ]".

Definition ok_text (a : Attempt) (log_entries : list Z) : string :=
  ok_header a (length log_entries) (ok_rest log_entries).

Lemma print_attempt_ok a log_entries :
  at_result a = Ok log_entries → print_attempt a = line (ok_text a log_entries).
Proof. unfold print_attempt. by intros ->. Qed.

Lemma ok_header_app a count t u : ok_header a count t +:+ u = ok_header a count (t +:+ u).
Proof. unfold ok_header. by rewrite !string_app_assoc. Qed.

(** What follows the count in [parse_line]. *)
Definition parse_entries (a : Attempt) (count : Z) (ist : istream) : option iteration :=
  '(log, ist) ← read_log (S (measure ist)) count ist;
  let '(bracket, ist) := read_char "[" ist in
  if decide (bracket ≠ "]"%char) then Some Break
  else Some (Push (MkRequestInfo (at_invocation_time a) (at_completion_time a) (at_command a) log) ist).

Lemma parse_line_header a count c t :
  is_i64 (at_invocation_time a) → is_i64 (at_completion_time a) → is_u64 (at_command a) →
  Z.of_nat count < 2 ^ 31 → is_digit c = false →
  parse_line (good_stream (ok_header a count (String c t))) =
  parse_entries a (Z.of_nat count) (good_stream (String c t)).
Proof.
  unfold is_i64, is_u64. intros Hi Hcompl Hcmd Hcount Hc. unfold parse_line, ok_header.
  assert (H63 : 2 ^ 63 ≤ u64_max) by (vm_compute; congruence).
  set (t1 := pretty (at_invocation_time a) +:+ _).
  change (read_string (good_stream ("OK: " +:+ t1))) with ("OK:", good_stream (String " " t1)).
  cbv beta iota zeta. rewrite decide_False by (intros Hne; by apply Hne). unfold t1.
  do 2 (change (" " +:+ ?x) with (String " " x); rewrite read_u64_printed by (done || lia); cbv beta iota zeta).
  change (" [ " +:+ ?x) with (String " " (String "[" (String " " x))).
  rewrite read_u64_printed by (done || lia). cbv beta iota zeta.
  set (t2 := pretty (Z.of_nat count) +:+ _).
  change (read_char zero (good_stream (String " " (String "[" (String " " t2)))))
    with ("["%char, good_stream (String " " t2)).
  cbv beta iota zeta. rewrite decide_False by (intros Hne; by apply Hne). unfold t2.
  rewrite read_u64_printed by (done || lia). cbv beta iota zeta.
  rewrite !to_signed_wrap64 by done. rewrite !wrap64_small by (unfold is_u64; lia). done.
Qed.

Lemma ok_rest_spaced log_entries t :
  Forall is_u64 log_entries →
  ∃ s, ok_rest log_entries +:+ t = String " " s ∧
    read_log (S (measure (good_stream (String " " s)))) (Z.of_nat (length log_entries))
      (good_stream (String " " s)) =
    Some (log_entries, good_stream (if log_entries is [] then " " +:+ " ]" +:+ t else " ]" +:+ t)).
Proof.
  intros Hall. destruct log_entries as [|e log_entries]; [by exists (" ]" +:+ t)|].
  exists (pretty e +:+ spaced log_entries (" ]" +:+ t)).
  assert (Heq : ok_rest (e :: log_entries) +:+ t = spaced (e :: log_entries) (" ]" +:+ t)).
  { rewrite <-join_spaced. unfold ok_rest. by rewrite !string_app_assoc. }
  split; [exact Heq|]. eapply read_log_enough. by apply (read_log_spaced (e :: log_entries)).
Qed.

(** A whole entry, whatever follows it. *)
Lemma parse_line_ok_text a log_entries t :
  attempt_ok a → at_result a = Ok log_entries →
  parse_line (good_stream (ok_text a log_entries +:+ t)) =
  Some (Push (MkRequestInfo (at_invocation_time a) (at_completion_time a) (at_command a) log_entries)
          (good_stream t)).
Proof.
  intros [Hi Hc Hcmd Hres] Ha. rewrite Ha in Hres. destruct Hres as [Hall Hlen].
  unfold ok_text. rewrite ok_header_app.
  destruct (ok_rest_spaced log_entries t Hall) as (s & -> & Hlog).
  rewrite parse_line_header by done. unfold parse_entries. rewrite Hlog.
  by destruct log_entries.
Qed.

(** ** The line of a failure *)

Lemma after_newline_None s : after_newline s = None ↔ has_char newline s = false.
Proof.
  induction s as [|c s IH]; simpl; [done|]. case_decide as Hc.
  - rewrite bool_decide_eq_true_2 by done. naive_solver.
  - rewrite bool_decide_eq_false_2 by done. done.
Qed.

Lemma after_newline_app s t :
  after_newline s = None → after_newline (s +:+ String newline t) = Some t.
Proof.
  induction s as [|c s IH]; intros Hs; simpl in *; [done|]. case_decide; [done|by apply IH].
Qed.

Definition error_text (e : RaftClientError) : string := "ERROR: " +:+ RaftClientError_Message e.

Lemma line_app s t : line s +:+ t = s +:+ String newline t.
Proof. unfold line. by rewrite string_app_assoc. Qed.

Lemma parse_line_error e t :
  after_newline (RaftClientError_Message e) = None →
  parse_line (good_stream (line (error_text e) +:+ t)) = Some (Continue (good_stream t)).
Proof.
  intros He. rewrite line_app. unfold error_text. rewrite string_app_assoc.
  set (m := _ +:+ String newline t). unfold parse_line.
  change (read_string (good_stream ("ERROR: " +:+ m))) with ("ERROR:", good_stream (String " " m)).
  cbv beta iota zeta. rewrite decide_True by done. unfold getline. cbn [sentry good good_stream eofbit failbit negb andb rest].
  change (after_newline (String " " m)) with (after_newline m). unfold m. by rewrite after_newline_app.
Qed.

Lemma parses_empty ist : rest ist = EmptyString → parses ist [].
Proof.
  intros Hr. destruct (stream_ok ist) eqn:Hok; [|by apply parses_failed].
  assert (Hs : ∃ b, read_string ist = (EmptyString, MkIstream EmptyString b true)).
  { destruct ist as [s [] []]; simpl in *; subst; try done; by eexists. }
  destruct Hs as [b Hs]. eapply (parses_Continue _ (MkIstream EmptyString b true)); [done| |by apply parses_failed].
  unfold parse_line. rewrite Hs. rewrite decide_True by done. by destruct b.
Qed.

(** A last line without a newline whose first character is not that of a success. *)
Lemma parses_cut_error c s :
  c ≠ "O"%char → is_space c = false → has_char newline (String c s) = false →
  parses (good_stream (String c s)) [].
Proof.
  intros Hc Hsp Hnl. pose proof (read_string_advances (good_stream (String c s))) as [[Hsuf _] _].
  assert (Htag : (read_string (good_stream (String c s))).1 ≠ "OK:").
  { unfold read_string, sentry. cbn. rewrite Hsp. cbn. rewrite Hsp. by intros [= ->]. }
  assert (Hline : ∃ ist', parse_line (good_stream (String c s)) = Some (Continue ist') ∧ parses ist' []).
  { unfold parse_line.
    destruct (read_string (good_stream (String c s))) as [tag ist]. simpl in *. rewrite decide_True by done.
    eexists. split; [done|]. unfold getline.
    destruct (sentry_cases true ist) as [(r & e & -> & Hr)|(r & -> & Hr & Hok & ->)]; simpl.
    - by apply parses_failed.
    - rewrite (proj2 (after_newline_None (rest ist))); [by apply parses_empty|].
      by eapply has_char_suffix; [exact Hsuf|]. }
  destruct Hline as (ist' & Hl & Hp). by eapply parses_Continue.
Qed.

(** ** Whole and cut lines *)

Lemma string_app_eq_app (a b c d : string) :
  a +:+ b = c +:+ d → (∃ x, a = c +:+ x ∧ d = x +:+ b) ∨ (∃ x, c = a +:+ x ∧ b = x +:+ d).
Proof.
  revert c. induction a as [|y a IH]; intros [|z c] Heq.
  - left. by exists EmptyString.
  - right. by exists (String z c).
  - left. by exists (String y a).
  - change (String y (a +:+ b) = String z (c +:+ d)) in Heq. injection Heq as <- Heq.
    destruct (IH _ Heq) as [(x & -> & ->)|(x & -> & ->)]; [left|right]; by exists x.
Qed.

Lemma split_last_has_char c s : split_last c s = None → has_char c s = false.
Proof.
  induction s as [|d s IH]; simpl; [done|]. destruct (split_last c s) as [[]|]; [done|].
  case_decide; [done|]. intros _. by rewrite bool_decide_eq_false_2, IH.
Qed.

Lemma has_char_pretty c (z : Z) : is_digit c = false → c ≠ "-"%char → has_char c (pretty z) = false.
Proof.
  intros Hc Hm. destruct (decide (0 ≤ z)).
  - apply split_last_has_char. by apply split_last_pretty.
  - rewrite pretty_Z_neg, has_char_app by lia. rewrite (split_last_has_char c (pretty (- z))) by
      (apply split_last_pretty; [lia|done]). simpl. by rewrite bool_decide_eq_false_2.
Qed.

Lemma has_char_join c (l : list Z) :
  is_digit c = false → c ≠ "-"%char → c ≠ " "%char → has_char c (String.concat " " (pretty <$> l)) = false.
Proof.
  intros Hc Hm Hs. induction l as [|z l IH]; [done|]. destruct l as [|z' l].
  { by apply has_char_pretty. }
  change (String.concat " " (pretty <$> z :: z' :: l))
    with (pretty z +:+ " " +:+ String.concat " " (pretty <$> z' :: l)).
  rewrite !has_char_app, IH, has_char_pretty by done. simpl. by rewrite bool_decide_eq_false_2.
Qed.

(** The closing bracket of an entry is its only one. *)
Lemma ok_text_bracket a log_entries :
  ∃ b, ok_text a log_entries = b +:+ "]" ∧ has_char "]" b = false.
Proof.
  exists (ok_header a (length log_entries) (" " +:+ String.concat " " (pretty <$> log_entries) +:+ " ")).
  split; [unfold ok_text; rewrite ok_header_app; unfold ok_rest; by rewrite !string_app_assoc|].
  unfold ok_header. rewrite !has_char_app, !has_char_pretty, has_char_join by done. done.
Qed.

Lemma parses_newline t h : parses (good_stream t) h → parses (good_stream (String newline t)) h.
Proof.
  intros [fuel Hf]. exists fuel. destruct fuel as [|fuel]; [done|]. rewrite <-Hf. reflexivity.
Qed.

Lemma successes_cons a attempts : successes (a :: attempts) = successes [a] ++ successes attempts.
Proof. unfold successes. simpl. by destruct (success a). Qed.

(** A whole line. *)
Lemma parses_line a t h :
  attempt_ok a → parses (good_stream t) h →
  parses (good_stream (print_attempt a +:+ t)) (successes [a] ++ h).
Proof.
  intros Hok Hp. unfold successes, success. simpl. destruct (at_result a) as [log_entries|e] eqn:Ha; simpl.
  - rewrite (print_attempt_ok _ _ Ha), line_app. eapply parses_Push; [done| |by apply parses_newline].
    by apply parse_line_ok_text.
  - unfold print_attempt. rewrite Ha. eapply parses_Continue; [done| |done].
    apply parse_line_error. pose proof (ok_result _ Hok) as Hres. by rewrite Ha in Hres.
Qed.

(** A line that is cut off: at most its newline is missing, or it gives nothing. *)
Lemma parses_cut_line a p x :
  attempt_ok a → print_attempt a = p +:+ x → x ≠ EmptyString →
  ∃ k, (k ≤ 1)%nat ∧ parses (good_stream p) (successes (take k [a])).
Proof.
  intros Hok Hp Hx.
  assert (Hcut : ∀ s, line s = p +:+ x → ∃ y, s = p +:+ y).
  { intros s Hs. unfold line in Hs.
    destruct (string_app_eq_app _ _ _ _ Hs) as [(y & -> & _)|(y & -> & Hy)]; [by exists y|].
    destruct y as [|c [|d y]]; [by exists EmptyString; rewrite !string_app_empty| |done].
    injection Hy as _ Hy. by destruct x. }
  destruct (at_result a) as [log_entries|e] eqn:Ha.
  - rewrite (print_attempt_ok _ _ Ha) in Hp. destruct (Hcut _ Hp) as [y Hy].
    destruct (ok_text_bracket a log_entries) as (b & Hb & Hno). rewrite Hb in Hy.
    destruct (string_app_eq_app _ _ _ _ Hy) as [(z & -> & _)|(z & -> & Hz)].
    + exists 0%nat. split; [lia|]. apply parses_without_bracket. rewrite has_char_app in Hno.
      by apply orb_false_iff in Hno as [? _].
    + destruct z as [|c [|d z]]; [|injection Hz as <-|done].
      * exists 0%nat. split; [lia|]. apply parses_without_bracket. by rewrite string_app_empty.
      * exists 1%nat. split; [lia|]. rewrite <-Hb, <-(string_app_empty (ok_text a log_entries)).
        unfold successes, success. simpl. rewrite Ha. eapply parses_Push; [done|by apply parse_line_ok_text|].
        by apply parses_empty.
  - unfold print_attempt in Hp. rewrite Ha in Hp. destruct (Hcut _ Hp) as [y Hy].
    exists 0%nat. split; [lia|]. destruct p as [|c p]; [by apply parses_empty|].
    pose proof (ok_result _ Hok) as Hres. rewrite Ha in Hres. apply after_newline_None in Hres.
    assert (Hnl : has_char newline (String c p +:+ y) = false) by by rewrite <-Hy, has_char_app, Hres.
    injection Hy as <- _. rewrite has_char_app in Hnl. apply orb_false_iff in Hnl as [Hnl _].
    by apply parses_cut_error.
Qed.

Lemma parses_prefix attempts p q :
  Forall attempt_ok attempts → print_attempts attempts = p +:+ q →
  ∃ k, (k ≤ length attempts)%nat ∧ parses (good_stream p) (successes (take k attempts)) ∧
    ∀ n, (n ≤ length attempts)%nat →
      (String.length (print_attempts (take n attempts)) ≤ String.length p)%nat → (n ≤ k)%nat.
Proof.
  intros Hall. revert p. induction Hall as [|a attempts Ha Hall IH]; intros p Hp.
  { destruct p; [|done]. exists 0%nat. split_and!; [done|by apply parses_empty|done]. }
  simpl in Hp.
  assert (Hcases : (∃ x, p = print_attempt a +:+ x ∧ print_attempts attempts = x +:+ q) ∨
                   (∃ x, print_attempt a = p +:+ x ∧ x ≠ EmptyString)).
  { destruct (string_app_eq_app _ _ _ _ Hp) as [([|c x] & Hx & Hq)|(x & -> & ->)]; [|by eauto..].
    left. exists EmptyString. rewrite string_app_empty in Hx |- *. by rewrite Hx, Hq. }
  destruct Hcases as [(x & -> & Hx)|(x & Hx & Hne)].
  - destruct (IH x Hx) as (k & Hk & Hpk & Hn). exists (S k). split_and!; [simpl; lia| |].
    { change (take (S k) (a :: attempts)) with (a :: take k attempts). rewrite successes_cons. by apply parses_line. }
    intros [|n] Hle Hlen; [lia|]. simpl in *. rewrite !string_length_app in Hlen.
    specialize (Hn n). lia.
  - destruct (parses_cut_line a p x Ha Hx Hne) as (k & Hk & Hpk). exists k. split_and!; [simpl; lia| |].
    + by destruct k as [|[|k]]; [..|lia].
    + intros [|n] _ Hlen; [lia|]. simpl in Hlen. rewrite Hx, !string_length_app in Hlen.
      destruct x; simpl in *; [done|lia].
Qed.

Lemma parses_lines attempts t h :
  Forall attempt_ok attempts → parses (good_stream t) h →
  parses (good_stream (print_attempts attempts +:+ t)) (successes attempts ++ h).
Proof.
  intros Hall Ht. induction Hall as [|a attempts Ha Hall IH]; [done|].
  rewrite successes_cons, <-app_assoc. simpl. rewrite string_app_assoc. by apply parses_line.
Qed.

Lemma ParseHistory_lines attempts :
  Forall attempt_ok attempts → ParseHistory (print_attempts attempts) = Some (successes attempts).
Proof.
  intros Hall. apply parses_ParseHistory. rewrite <-(app_nil_r (successes attempts)).
  rewrite <-(string_app_empty (print_attempts attempts)). apply parses_lines; [done|]. by apply parses_empty.
Qed.

(** ** Properties *)

(** The parser ends on every input. *)
Theorem ParseHistory_total (input : string) : is_Some (ParseHistory input).
Proof. apply parse_loop_total. lia. Qed.

(** [C17] The history checker of the system test reads back what the clients
    print: on the output of any sequence of requests it finds exactly the
    successful ones, in order, with their times (also before the epoch),
    commands and answers; and if the output ends anywhere, it finds those of a
    prefix of the sequence that has every request whose line is complete. *)
Theorem history_is_read_back (attempts : list Attempt) :
  Forall attempt_ok attempts →
  ParseHistory (print_attempts attempts) = Some (successes attempts) ∧
  ∀ p q, print_attempts attempts = p +:+ q →
    ∃ k, (k ≤ length attempts)%nat ∧ ParseHistory p = Some (successes (take k attempts)) ∧
      ∀ n, (n ≤ length attempts)%nat →
        (String.length (print_attempts (take n attempts)) ≤ String.length p)%nat → (n ≤ k)%nat.
Proof.
  intros Hall. split; [by apply ParseHistory_lines|]. intros p q Hp.
  destruct (parses_prefix attempts p q Hall Hp) as (k & Hk & Hparse & Hn).
  exists k. split_and!; [done|by apply parses_ParseHistory|done].
Qed.

Lemma sample_attempts_ok : Forall attempt_ok sample_attempts.
Proof.
  repeat constructor; simpl; unfold is_i64, is_u64, u64_max, u64_modulus; repeat constructor; try lia; done.
Qed.

Lemma history_is_read_back_witness :
  ParseHistory (print_attempts sample_attempts) = Some [MkRequestInfo (-5) 20 7 [7]; MkRequestInfo 31 40 8 [7; 9; 8]].
Proof. exact (proj1 (history_is_read_back sample_attempts sample_attempts_ok)). Defined.

(** The input of the checker: the outputs of the clients one after the other. *)
Definition client_outputs (clients : list (list Attempt)) : string :=
  String.concat EmptyString (print_attempts <$> clients).

Lemma print_attempts_app l l' : print_attempts (l ++ l') = print_attempts l +:+ print_attempts l'.
Proof. induction l as [|a l IH]; [done|]. simpl. by rewrite IH, string_app_assoc. Qed.

Lemma client_outputs_concat clients : client_outputs clients = print_attempts (concat clients).
Proof.
  unfold client_outputs. induction clients as [|c clients IH]; [done|].
  change (concat (c :: clients)) with (c ++ concat clients).
  rewrite print_attempts_app, <-IH. destruct clients; [by rewrite string_app_empty|done].
Qed.

(** The exit code of the checker on the whole outputs of any number of clients:
    zero if what the clients observed is linearizable; and if it is zero and
    no two answers have the same size, what they observed is linearizable. *)
Theorem exit_code_of_the_checker (std_sort : list RequestInfo → list RequestInfo)
    (Hperm : ∀ h, std_sort h ≡ₚ h) (Hsort : ∀ h, StronglySorted shorter (std_sort h))
    (clients : list (list Attempt)) :
  Forall (Forall attempt_ok) clients →
  let history := successes (concat clients) in
  (linearizable history →
     main std_sort (client_outputs clients) =
     Some (Done (line ("Successes: " +:+ pretty (Z.of_nat (length history))) +:+ line "Ok", 0))) ∧
  (∀ output, main std_sort (client_outputs clients) = Some (Done (output, 0)) →
     NoDup (sizes history) → linearizable history).
Proof.
  intros Hall history.
  assert (Hparse : ParseHistory (client_outputs clients) = Some history).
  { rewrite client_outputs_concat. apply ParseHistory_lines. by apply Forall_concat. }
  unfold main. rewrite Hparse. cbn [mbind option_bind]. split.
  - intros Hlin. by rewrite linearizable_accepted.
  - intros output Hmain Hnd. eapply accepted_linearizable; [done..| |done].
    destruct (CheckLinearizability std_sort history) as [[[]|e]| |]; by simplify_eq.
Qed.

Lemma exit_code_of_the_checker_witness :
  linearizable (successes (concat [take 1 sample_attempts; drop 1 sample_attempts])).
Proof.
  apply (exit_code_of_the_checker stable_sort (λ h, proj1 (stable_sort_ok h)) (λ h, proj2 (stable_sort_ok h))
           [take 1 sample_attempts; drop 1 sample_attempts]) with (output := line "Successes: 2" +:+ line "Ok").
  - repeat constructor; simpl; unfold is_i64, is_u64, u64_max, u64_modulus; repeat constructor; try lia; done.
  - vm_compute. reflexivity.
  - apply (bool_decide_eq_true_1 _). vm_compute. reflexivity.
Defined.

(** ** A cut line in the middle *)

(** The line of a success that ends after the number of entries. *)
Definition cut_text (a : Attempt) (count : nat) : string := ok_header a count EmptyString.

Lemma print_attempts_head a attempts :
  ∃ c t, print_attempts (a :: attempts) = String c t ∧ (c = "O"%char ∨ c = "E"%char).
Proof. simpl. unfold print_attempt. destruct (at_result a); eexists _, _; (split; [reflexivity|by eauto]). Qed.

Lemma read_log_stops count c t :
  count ≠ 0 → c = "O"%char ∨ c = "E"%char →
  read_log 2 count (good_stream (String c t)) = Some ([0], MkIstream (String c t) false true).
Proof.
  intros Hc Hd. cbn [read_log]. rewrite bool_decide_eq_true_2 by done.
  assert (Hread : read_u64 0 (good_stream (String c t)) = (0, MkIstream (String c t) false true)).
  { by destruct Hd as [-> | ->]. }
  rewrite Hread. cbn. by rewrite andb_false_r.
Qed.

(** If the line of a client that was killed is cut off after the number of its
    entries and the output of another client follows, the parser stops there:
    everything after it is left out of the history, and the checker accepts
    a history it rejects without the cut line. *)
Theorem cut_line_hides_rest :
  (∀ before a count b after,
     Forall attempt_ok before → attempt_ok a → 0 < Z.of_nat count < 2 ^ 31 →
     ParseHistory (print_attempts before +:+ cut_text a count +:+ print_attempts (b :: after)) =
     Some (successes before)) ∧
  (let good := [MkAttempt 1 2 7 (Ok [7])] in
   let bad := [MkAttempt 5 6 8 (Ok [8]); MkAttempt 7 8 9 (Ok [7; 9])] in
   main stable_sort (client_outputs [good; bad]) =
   Some (Done (line "Successes: 3" +:+ line "Fail: Not all received logs have common prefix", 1)) ∧
   main stable_sort (print_attempts good +:+ cut_text (MkAttempt 3 4 10 (Ok [7; 10])) 2 +:+ print_attempts bad) =
   Some (Done (line "Successes: 1" +:+ line "Ok", 0))).
Proof.
  split; [|split; vm_compute; reflexivity].
  intros before a count b after Hall [Hi Hc Hcmd _] Hcount. apply parses_ParseHistory.
  rewrite <-(app_nil_r (successes before)). apply parses_lines; [done|].
  destruct (print_attempts_head b after) as (c & t & -> & Hct). unfold cut_text. rewrite ok_header_app.
  apply parses_Break; [done|]. change (EmptyString +:+ String c t) with (String c t).
  rewrite parse_line_header; [|done..|lia|by destruct Hct as [-> | ->]].
  unfold parse_entries. rewrite (read_log_enough 2 _ _ _ (read_log_stops (Z.of_nat count) c t ltac:(lia) Hct)).
  by cbn.
Qed.
