(* ===== verification/RaftSim.v ===== *)
(** * The Raft node on the simulated runtime

    src/raft/node/node.cpp as programs of the fibers of SimFibers.v that use the
    runtime of SimRuntime.v: RPC over the simulated network, sleeps, stop sources
    and events are those of the simulator, so the node runs as it does in the
    tests of src/raft/test/simulation_test, with crashes, pauses and lost
    messages. Code that only reads the members is shared with RaftNode.v.

    Every operation on a database first calls [Host::StopFiberIfNecessary]
    (simulator/database.cpp). A fiber that has passed this call is not suspended
    before its next suspension point, so of several calls on the way only the
    first has an effect; [db_check] is that call. [LOG] statements are left out. *)

From S2P Require Import Prelude.
From S2P Require Import Result.
From S2P Require Import RtTypes.
From S2P Require Import Serde.
From S2P Require Import KVInterface.
From S2P Require Import StateMachine.
From S2P Require Import RaftNode.
From S2P Require Import RaftProcess.
From S2P Require Import RaftClient.
From S2P Require Import SimFibers.
From S2P Require Import SimRuntime.

Local Open Scope Z_scope.

(** ** The variables of the programs *)

Section data.
Context {AM : AnyMessage} {SM : IStateMachine}.

(** A database of a host: the state or the log of a node. *)
Inductive database : Type :=
  | StateDb (content : gmap string Z)
  | LogDb (content : gmap Z LogEntry).

Record HostDatabase : Type := MkHostDatabase {
  db_epoch : Z;
  content : database;
}.

(** A database that was opened, by its host and path. *)
Definition handle : Type := ptr * string.

(** The members of [RaftNode]; the stop sources and pending requests by their
    addresses. *)
Record NodeObject : Type := MkNodeObject {
  o_stop_election : ptr;
  o_stop_leader : ptr;
  o_state : State;
  o_config : RaftConfig;
  o_reset_election_timeout : ptr;
  o_reset_heartbeat_timeout : ptr;
  o_raft_state : handle;
  o_raft_log : handle;
  o_commit_index : Z;
  o_match_index : list Z;
  o_next_index : list Z;
  o_current_term_start_index : Z;
  o_pending_requests : gmap Z ptr;
  o_pending_log : list LogEntry;
  o_rsm : ExactlyOnceStateMachine;
}.

(** The two services of a node. *)
Inductive stub : Type :=
  | RaftInternalsStub (node : ptr)
  | RaftApiStub (node : ptr).

(** All objects and shared local variables of the programs, by their
    addresses, and the variables [Y] of the test. *)
Record RaftVars (Y : Type) : Type := MkRaftVars {
  databases : gmap handle HostDatabase;
  nodes : gmap ptr NodeObject;
  stubs : gmap ptr stub;
  pending_results : gmap ptr Any;  (** [PendingRequest::result], by its event *)
  votes_counts : gmap ptr nat;
  request_states : gmap ptr RaftClient.RequestState;  (** of the calls of [Apply] *)
  timed_out : gmap ptr bool;
  current_leaders : gmap ptr nat;  (** of the clients *)
  test_vars : Y;
}.
End data.
Arguments MkRaftVars {AM SM Y}.
Arguments databases {AM SM Y}.
Arguments nodes {AM SM Y}.
Arguments stubs {AM SM Y}.
Arguments pending_results {AM SM Y}.
Arguments votes_counts {AM SM Y}.
Arguments request_states {AM SM Y}.
Arguments timed_out {AM SM Y}.
Arguments current_leaders {AM SM Y}.
Arguments test_vars {AM SM Y}.

Section setters.
Context {AM : AnyMessage} {SM : IStateMachine} {Y : Type}.
Implicit Types (o : NodeObject) (v : RaftVars Y).

Definition set_databases d v := MkRaftVars d (nodes v) (stubs v) (pending_results v) (votes_counts v) (request_states v) (timed_out v) (current_leaders v) (test_vars v).
Definition set_nodes d v := MkRaftVars (databases v) d (stubs v) (pending_results v) (votes_counts v) (request_states v) (timed_out v) (current_leaders v) (test_vars v).
Definition set_stubs d v := MkRaftVars (databases v) (nodes v) d (pending_results v) (votes_counts v) (request_states v) (timed_out v) (current_leaders v) (test_vars v).
Definition set_pending_results d v := MkRaftVars (databases v) (nodes v) (stubs v) d (votes_counts v) (request_states v) (timed_out v) (current_leaders v) (test_vars v).
Definition set_votes_counts d v := MkRaftVars (databases v) (nodes v) (stubs v) (pending_results v) d (request_states v) (timed_out v) (current_leaders v) (test_vars v).
Definition set_request_states d v := MkRaftVars (databases v) (nodes v) (stubs v) (pending_results v) (votes_counts v) d (timed_out v) (current_leaders v) (test_vars v).
Definition set_timed_out d v := MkRaftVars (databases v) (nodes v) (stubs v) (pending_results v) (votes_counts v) (request_states v) d (current_leaders v) (test_vars v).
Definition set_current_leaders d v := MkRaftVars (databases v) (nodes v) (stubs v) (pending_results v) (votes_counts v) (request_states v) (timed_out v) d (test_vars v).
Definition set_test_vars (d : Y) v := MkRaftVars (databases v) (nodes v) (stubs v) (pending_results v) (votes_counts v) (request_states v) (timed_out v) (current_leaders v) d.

Definition o_set_state a o := MkNodeObject (o_stop_election o) (o_stop_leader o) a (o_config o) (o_reset_election_timeout o) (o_reset_heartbeat_timeout o) (o_raft_state o) (o_raft_log o) (o_commit_index o) (o_match_index o) (o_next_index o) (o_current_term_start_index o) (o_pending_requests o) (o_pending_log o) (o_rsm o).
Definition o_set_commit_index a o := MkNodeObject (o_stop_election o) (o_stop_leader o) (o_state o) (o_config o) (o_reset_election_timeout o) (o_reset_heartbeat_timeout o) (o_raft_state o) (o_raft_log o) a (o_match_index o) (o_next_index o) (o_current_term_start_index o) (o_pending_requests o) (o_pending_log o) (o_rsm o).
Definition o_set_match_index a o := MkNodeObject (o_stop_election o) (o_stop_leader o) (o_state o) (o_config o) (o_reset_election_timeout o) (o_reset_heartbeat_timeout o) (o_raft_state o) (o_raft_log o) (o_commit_index o) a (o_next_index o) (o_current_term_start_index o) (o_pending_requests o) (o_pending_log o) (o_rsm o).
Definition o_set_next_index a o := MkNodeObject (o_stop_election o) (o_stop_leader o) (o_state o) (o_config o) (o_reset_election_timeout o) (o_reset_heartbeat_timeout o) (o_raft_state o) (o_raft_log o) (o_commit_index o) (o_match_index o) a (o_current_term_start_index o) (o_pending_requests o) (o_pending_log o) (o_rsm o).
Definition o_set_current_term_start_index a o := MkNodeObject (o_stop_election o) (o_stop_leader o) (o_state o) (o_config o) (o_reset_election_timeout o) (o_reset_heartbeat_timeout o) (o_raft_state o) (o_raft_log o) (o_commit_index o) (o_match_index o) (o_next_index o) a (o_pending_requests o) (o_pending_log o) (o_rsm o).
Definition o_set_pending_requests a o := MkNodeObject (o_stop_election o) (o_stop_leader o) (o_state o) (o_config o) (o_reset_election_timeout o) (o_reset_heartbeat_timeout o) (o_raft_state o) (o_raft_log o) (o_commit_index o) (o_match_index o) (o_next_index o) (o_current_term_start_index o) a (o_pending_log o) (o_rsm o).
Definition o_set_pending_log a o := MkNodeObject (o_stop_election o) (o_stop_leader o) (o_state o) (o_config o) (o_reset_election_timeout o) (o_reset_heartbeat_timeout o) (o_raft_state o) (o_raft_log o) (o_commit_index o) (o_match_index o) (o_next_index o) (o_current_term_start_index o) (o_pending_requests o) a (o_rsm o).
Definition o_set_rsm a o := MkNodeObject (o_stop_election o) (o_stop_leader o) (o_state o) (o_config o) (o_reset_election_timeout o) (o_reset_heartbeat_timeout o) (o_raft_state o) (o_raft_log o) (o_commit_index o) (o_match_index o) (o_next_index o) (o_current_term_start_index o) (o_pending_requests o) (o_pending_log o) a.
End setters.

(** ** Members and databases *)

Section node.
Context {AM : AnyMessage} {SM : IStateMachine} {Y : Type}.
Local Abbreviation X := (RaftVars Y).

Definition get {A} (g : X → A) : M X A := gets (λ s, g (vars s)).
Definition set (g : X → X) : M X unit := modify (λ s, with_vars (g (vars s)) s).
Definition object {A} (objects : X → gmap ptr A) (p : ptr) : M X A := deref (λ s, objects (vars s)) p.

Fixpoint M_for_each {A} (xs : list A) (body : A → M X unit) : M X unit :=
  match xs with
  | [] => mret ()
  | x :: xs => body x;; M_for_each xs body
  end.

Definition update_node (this : ptr) (g : NodeObject → NodeObject) : M X unit :=
  o ← object nodes this;
  set (λ v, set_nodes (<[this := g o]> (nodes v)) v).

(** [GetCurrentHost()->StopFiberIfNecessary()] of the next operation on a
    database. *)
Definition db_check : prog X unit := h ← GetCurrentHost; StopFiberIfNecessary h.

Definition state_database (this : ptr) : M X (gmap string Z) :=
  o ← object nodes this;
  files ← get databases;
  match files !! o_raft_state o with
  | Some (MkHostDatabase _ (StateDb db)) => mret db
  | _ => lift (Undefined "database of another type")
  end.

Definition log_database (this : ptr) : M X (gmap Z LogEntry) :=
  o ← object nodes this;
  files ← get databases;
  match files !! o_raft_log o with
  | Some (MkHostDatabase _ (LogDb db)) => mret db
  | _ => lift (Undefined "database of another type")
  end.

Definition store (h : handle) (db : database) : M X unit :=
  files ← get databases;
  match files !! h with
  | Some file => set (λ v, set_databases (<[h := MkHostDatabase (db_epoch file) db]> (databases v)) v)
  | None => lift (Undefined "no such database")
  end.

Definition write_state (this : ptr) (db : gmap string Z) : M X unit :=
  o ← object nodes this; store (o_raft_state o) (StateDb db).
Definition write_log (this : ptr) (db : gmap Z LogEntry) : M X unit :=
  o ← object nodes this; store (o_raft_log o) (LogDb db).

(** The members and databases as the record of RaftNode.v, for code that reads
    them; its stop sources and frames are those of the runtime here. *)
Definition view (this : ptr) : M X RaftNode :=
  o ← object nodes this;
  state_db ← state_database this;
  log_db ← log_database this;
  mret (MkRaftNode (MkStopSource 0 false) (MkStopSource 0 false) (o_state o) (o_config o) (MkStopSource 0 false)
          (MkStopSource 0 false) state_db log_db (o_commit_index o) (o_match_index o) (o_next_index o)
          (o_current_term_start_index o) ∅ (o_pending_log o) (o_rsm o) ∅ ∅ 0).

Definition GetCurrentTerm (this : ptr) : M X Z :=
  db ← state_database this;
  lift (GetValue (kv_Get db "current_term")).

Definition GetSavedLogSize (this : ptr) : M X Z :=
  n ← view this;
  mret (RaftNode.GetSavedLogSize n).

Definition UpdateTerm (this : ptr) (term : Z) (voted_for : option Z) : M X unit :=
  current ← GetCurrentTerm this;
  M_verify (bool_decide (current < term)) "Invalid update term";;
  db ← state_database this;
  let db := kv_Put "current_term" term db in
  write_state this (match voted_for with
                    | Some v => kv_Put "voted_for" v db
                    | None => kv_Delete "voted_for" db
                    end).

(** ** Change of state *)

Definition BecomeLeader (this : ptr) : M X unit :=
  o ← object nodes this;
  M_verify (bool_decide (o_state o = Candidate)) "Invalid state";;
  size ← GetSavedLogSize this;
  let count := length (raft_nodes (o_config o)) in
  update_node this (λ o,
    o_set_match_index (replicate count 0) (o_set_next_index (replicate count (size +64 1))
      (o_set_current_term_start_index (size +64 1) (o_set_pending_log [] o))));;
  StopSource_assign (o_reset_heartbeat_timeout o);;
  StopSource_assign (o_stop_leader o);;
  StopSource_Stop (o_stop_election o);;
  update_node this (o_set_state Leader).

Definition BecomeFollower (this : ptr) : M X unit :=
  o ← object nodes this;
  M_verify (bool_decide (o_state o ≠ Follower)) "Invalid state";;
  match o_state o with
  | Leader => StopSource_Stop (o_stop_leader o)
  | Candidate => StopSource_Stop (o_stop_election o)
  | Follower => mret ()
  end;;
  update_node this (o_set_state Follower).

Definition BecomeCandidate (this : ptr) : M X unit :=
  o ← object nodes this;
  M_verify (bool_decide (o_state o = Follower)) "Invalid state";;
  StopSource_Stop (o_reset_election_timeout o);;
  update_node this (o_set_state Candidate).

Definition become_follower_if_necessary (this : ptr) : M X unit :=
  o ← object nodes this;
  if decide (o_state o ≠ Follower) then BecomeFollower this else mret ().

(** ** Commit index *)

Definition apply_committed (this : ptr) (index : Z) : M X unit :=
  db ← log_database this;
  entry ← lift (GetValue (kv_Get db index));
  o ← object nodes this;
  let '(result, rsm) := ExactlyOnce_Apply (entry_request entry) (o_rsm o) in
  update_node this (o_set_rsm rsm);;
  match o_pending_requests o !! index with
  | None => mret ()
  | Some e =>
      object pending_results e;;
      set (λ v, set_pending_results (<[e := result]> (pending_results v)) v);;
      signal_event e
  end.

Definition UpdateCommitIndex (this : ptr) : M X unit :=
  n ← view this;
  let size := RaftNode.GetSavedLogSize n in
  new_commit_index ← lift (find_commit (Z.to_nat (size - commit_index n)) n size);
  M_for_each (range (commit_index n + 1) (new_commit_index + 1)) (apply_committed this);;
  update_node this (o_set_commit_index new_commit_index).

(** ** API *)

(** [Execute] up to the first access to a database: the new index, unless the
    node is not the leader. *)
Definition Execute_index (this : ptr) : M X (option Z) :=
  o ← object nodes this;
  if decide (o_state o ≠ Leader) then mret None
  else
    let self := node_id (o_config o) in
    index ← lift (vec_get (o_next_index o) self);
    next ← lift (vec_set (o_next_index o) self (index +64 1));
    update_node this (o_set_next_index next);;
    mret (Some index).

(** From there to the wait: the term, the event of [pending_request] and the
    token of [finish_guard]. *)
Definition Execute_append (this : ptr) (request : Request) (new_log_index : Z) : M X (Z * ptr * StopToken) :=
  current_term ← GetCurrentTerm this;
  update_node this (λ o, o_set_pending_log (o_pending_log o ++ [MkLogEntry current_term request]) o);;
  e ← new_event;
  set (λ v, set_pending_results (<[e := any_default]> (pending_results v)) v);;
  o ← object nodes this;
  token ← GetToken (o_stop_leader o);
  signal_on_stop token e;;
  update_node this (λ o, o_set_pending_requests (<[new_log_index := e]> (o_pending_requests o)) o);;
  StopSource_Stop (o_reset_heartbeat_timeout o);;
  StopSource_assign (o_reset_heartbeat_timeout o);;
  mret (current_term, e, token).

(** After the wait; the locals are destroyed. *)
Definition Execute_finish (this : ptr) (current_term : Z) (e : ptr) (token : StopToken) : M X Response :=
  term ← GetCurrentTerm this;
  response ←
    (if decide (current_term ≠ term) then mret (MkResponse NotALeader any_default)
     else
       o ← object nodes this;
       M_verify (bool_decide (o_state o = Leader)) "Invalid session state";;
       result ← object pending_results e;
       mret (MkResponse Commited result));
  StopCallback_destroy token (SignalEvent e);;
  Event_destroy e;;
  mret response.

Definition Execute (this : ptr) (request : Request) : prog X (Result Response RpcError) :=
  index ← atomic (Execute_index this);
  match index with
  | None => Ret (Ok (MkResponse NotALeader any_default))
  | Some new_log_index =>
      db_check;;
      '(current_term, e, token) ← atomic (Execute_append this request new_log_index);
      Event_Await e;;
      atomic (update_node this (λ o, o_set_pending_requests (delete new_log_index (o_pending_requests o)) o));;
      db_check;;
      response ← atomic (Execute_finish this current_term e token);
      Ret (Ok response)
  end.

(** ** Internal RPCs *)

Variable MessageDifferencer_Equals : LogEntry → LogEntry → bool.

Definition follower_apply (this : ptr) (index : Z) : M X unit :=
  db ← log_database this;
  entry ← lift (GetValue (kv_Get db index));
  update_node this (λ o, o_set_rsm (ExactlyOnce_Apply (entry_request entry) (o_rsm o)).2 o).

(** The entries of an accepted request. *)
Definition AppendEntries_store (this : ptr) (request : AppendEntriesRequest) : M X unit :=
  n ← view this;
  lift (for_each
    (range (ae_prev_log_index request + 1)
       ((commit_index n `min` (ae_prev_log_index request + Z.of_nat (length (ae_entries request)))) + 1))
    (check_committed MessageDifferencer_Equals request) n);;
  write_log this (kv_Write (append_batch request n) (raft_log n));;
  size ← GetSavedLogSize this;
  let new_commit_index := commit_index n `max` (ae_leader_commit request `min` size) in
  M_for_each (range (commit_index n + 1) (new_commit_index + 1)) (follower_apply this);;
  update_node this (o_set_commit_index new_commit_index).

Definition AppendEntries_code (this : ptr) (request : AppendEntriesRequest) : M X AppendEntriesResult :=
  term ← GetCurrentTerm this;
  let result success := MkAppendEntriesResult term success in
  if decide (ae_term request < term) then mret (result false)
  else
    o ← object nodes this;
    StopSource_Stop (o_reset_election_timeout o);;
    become_follower_if_necessary this;;  (* [request.term() >= GetCurrentTerm()] here *)
    (if decide (term < ae_term request) then UpdateTerm this (ae_term request) None else mret ());;
    n ← view this;
    matches ← lift (AppendEntries_matches request n);
    if negb matches then mret (result false)
    else
      AppendEntries_store this request;;
      mret (result true).

Definition AppendEntries (this : ptr) (request : AppendEntriesRequest) : prog X (Result AppendEntriesResult RpcError) :=
  db_check;;
  result ← atomic (AppendEntries_code this request);
  Ret (Ok result).

(** Whether the log of the candidate is at least as up to date. *)
Definition up_to_date (request : RequestVoteRequest) (n : RaftNode) : bool :=
  let last_log_term := GetLastSavedLogTerm n in
  if decide (rv_last_log_term request < last_log_term) then false
  else if decide (last_log_term = rv_last_log_term request)
  then bool_decide (RaftNode.GetSavedLogSize n ≤ rv_last_log_index request)
  else true.

Definition RequestVote_code (this : ptr) (request : RequestVoteRequest) : M X RequestVoteResult :=
  term ← GetCurrentTerm this;
  let reply granted := MkRequestVoteResult term granted in
  if decide (rv_term request < term) then mret (reply false)
  else
    (if decide (term < rv_term request) then
       UpdateTerm this (rv_term request) None;;
       become_follower_if_necessary this
     else mret ());;
    n ← view this;
    let voted_for := GetVotedFor n in
    if decide (voted_for = Some (rv_candidate_id request)) then mret (reply true)
    else if decide (voted_for ≠ None) then mret (reply false)
    else
      let granted := up_to_date request n in
      (if granted then write_state this (kv_Put "voted_for" (rv_candidate_id request) (raft_state n)) else mret ());;
      mret (reply granted).

Definition RequestVote (this : ptr) (request : RequestVoteRequest) : prog X (Result RequestVoteResult RpcError) :=
  db_check;;
  result ← atomic (RequestVote_code this request);
  Ret (Ok result).

(** ** The generated clients and stubs *)

Context `{!ProtoMessage (Request (AM := AM))} `{!ProtoMessage (Response (AM := AM))}
  `{!ProtoMessage (AppendEntriesRequest (AM := AM))} `{!ProtoMessage AppendEntriesResult}
  `{!ProtoMessage RequestVoteRequest} `{!ProtoMessage RequestVoteResult}.

Definition Client_AppendEntries (endpoint : Endpoint) (request : AppendEntriesRequest) (token : StopToken) :
    prog X (Result AppendEntriesResult RpcError) :=
  MakeRequest endpoint request "RaftInternals" "AppendEntries" token.
Definition Client_RequestVote (endpoint : Endpoint) (request : RequestVoteRequest) (token : StopToken) :
    prog X (Result RequestVoteResult RpcError) :=
  MakeRequest endpoint request "RaftInternals" "RequestVote" token.
Definition Client_Execute (endpoint : Endpoint) (request : Request) (token : StopToken) :
    prog X (Result Response RpcError) :=
  MakeRequest endpoint request "RaftApi" "Execute" token.

Definition ProcessRequest (service : ptr) (handler_name : string) (data : Data) : prog X (Result Data RpcError) :=
  st ← atomic (object stubs service);
  match st with
  | RaftInternalsStub this =>
      if decide (handler_name = "AppendEntries") then ProcessRequestWrapper data (AppendEntries this)
      else if decide (handler_name = "RequestVote") then ProcessRequestWrapper data (RequestVote this)
      else Ret (Err (MkRpcError HandlerNotFound ""))
  | RaftApiStub this =>
      if decide (handler_name = "Execute") then ProcessRequestWrapper data (Execute this)
      else Ret (Err (MkRpcError HandlerNotFound ""))
  end.

(** ** Leader *)

(** The fibers of a list of programs, joined in the same order. *)
Fixpoint fork_all {A} (xs : list A) (body : A → prog X unit) : prog X (list ptr) :=
  match xs with
  | [] => Ret []
  | x :: xs => f ← fiber post (body x); fs ← fork_all xs body; Ret (f :: fs)
  end.

Fixpoint join_all (fs : list ptr) : prog X unit :=
  match fs with
  | [] => Ret ()
  | f :: fs => fiber_join f;; join_all fs
  end.

Definition is_leader (this : ptr) : prog X bool :=
  atomic (o ← object nodes this; mret (bool_decide (o_state o = Leader))).

(** The batch of the pending entries, built before the storage is used. *)
Definition pending_write (this : ptr) : M X (list (batch_command LogEntry)) :=
  o ← object nodes this;
  base ← lift (vec_get (o_match_index o) (node_id (o_config o)));
  mret (pending_batch base (o_pending_log o)).

Definition MainSession_write (this : ptr) (batch : list (batch_command LogEntry)) : M X unit :=
  db ← log_database this;
  write_log this (kv_Write batch db);;
  o ← object nodes this;
  let self := node_id (o_config o) in
  m ← lift (vec_get (o_match_index o) self);
  match_index ← lift (vec_set (o_match_index o) self (m +64 Z.of_nat (length (o_pending_log o))));
  update_node this (λ o, o_set_pending_log [] (o_set_match_index match_index o)).

(** The guards and the event of one iteration. *)
Definition MainSession_guards (this : ptr) : M X (ptr * list (StopToken * stop_callback)) :=
  o ← object nodes this;
  leader_token ← GetToken (o_stop_leader o);
  leader_cancel_propagate ← stop_on_stop leader_token (o_reset_heartbeat_timeout o);
  wake_up ← new_event;
  heartbeat_token ← GetToken (o_reset_heartbeat_timeout o);
  signal_on_stop heartbeat_token wake_up;;
  mret (wake_up, [(heartbeat_token, SignalEvent wake_up); (leader_token, leader_cancel_propagate)]).

Definition destroy_guards (guards : list (StopToken * stop_callback)) : M X unit :=
  M_for_each guards (λ g, StopCallback_destroy g.1 g.2).

Definition StartLeaderMainSession (this : ptr) : prog X unit :=
  db_check;;
  atomic (
    size ← GetSavedLogSize this;
    o ← object nodes this;
    match_index ← lift (vec_set (o_match_index o) (node_id (o_config o)) size);
    update_node this (o_set_match_index match_index));;
  while (is_leader this) (
    batch ← atomic (pending_write this);
    (* [Write] uses the storage if the batch has a command *)
    (match batch with [] => Ret () | _ => db_check end);;
    atomic (MainSession_write this batch);;
    db_check;;
    '(wake_up, guards) ← atomic (UpdateCommitIndex this;; MainSession_guards this);
    Event_Await wake_up;;
    atomic (match guards with
            | [wake_up_guard; leader_cancel_propagate] =>
                destroy_guards [wake_up_guard];; Event_destroy wake_up;; destroy_guards [leader_cancel_propagate]
            | _ => mret ()
            end)).

(** The part of an iteration before the request is sent. *)
Definition NodeSession_check (this : ptr) (id : nat) : M X unit :=
  o ← object nodes this;
  next ← lift (vec_get (o_next_index o) id);
  M_verify (bool_decide (1 ≤ next)) "invalid next_index".

(** The request, [request_stop] and the token and callback of
    [request_stop_propagate]. *)
Definition NodeSession_request (this : ptr) (id : nat) :
    M X (AppendEntriesRequest * ptr * (StopToken * stop_callback)) :=
  n ← view this;
  request ← lift (LeaderNodeSession_request id n);
  request_stop ← StopSource_new;
  o ← object nodes this;
  token ← GetToken (o_stop_leader o);
  request_stop_propagate ← stop_on_stop token request_stop;
  mret (request, request_stop, (token, request_stop_propagate)).

(** The fiber [request_timeout]. *)
Definition request_timeout (this request_stop : ptr) : prog X unit :=
  o ← atomic (object nodes this);
  token ← atomic (GetToken request_stop);
  SleepFor (rpc_timeout (o_config o)) token;;
  atomic (StopSource_Stop request_stop).

(** What follows the response; [session_next] is that of RaftNode.v. *)
Definition NodeSession_response (this : ptr) (id : nat) (request : AppendEntriesRequest)
    (result : Result AppendEntriesResult RpcError) : M X session_next :=
  o ← object nodes this;
  if decide (o_state o ≠ Leader) then mret SessionContinue
  else
    match result with
    | Err _ => mret SessionJoinTimeout
    | Ok response =>
        term ← GetCurrentTerm this;
        if decide (term < aer_term response) then
          UpdateTerm this (aer_term response) None;;
          become_follower_if_necessary this;;
          mret SessionContinue
        else
          next ← lift (vec_get (o_next_index o) id);
          if negb (aer_success response) then
            M_verify (bool_decide (2 ≤ next)) "invalid state";;
            next_index ← lift (vec_set (o_next_index o) id (next -64 1));
            update_node this (o_set_next_index next_index);;
            mret SessionContinue
          else
            let count := Z.of_nat (length (ae_entries request)) in
            match_index ← lift (vec_set (o_match_index o) id (ae_prev_log_index request +64 count));
            next_index ← lift (vec_set (o_next_index o) id (next +64 count));
            update_node this (λ o, o_set_next_index next_index (o_set_match_index match_index o));;
            UpdateCommitIndex this;;
            o ← object nodes this;
            his ← lift (vec_get (o_next_index o) id);
            mine ← lift (vec_get (o_next_index o) (node_id (o_config o)));
            mret (if decide (his = mine) then SessionSleep else SessionContinue)
    end.

(** The sleep between two heartbeats. *)
Definition heartbeat_sleep (this : ptr) : prog X unit :=
  '(o, leader_token, heart_beat_stop_propagate, token) ← atomic (
    o ← object nodes this;
    leader_token ← GetToken (o_stop_leader o);
    heart_beat_stop_propagate ← stop_on_stop leader_token (o_reset_heartbeat_timeout o);
    token ← GetToken (o_reset_heartbeat_timeout o);
    mret (o, leader_token, heart_beat_stop_propagate, token));
  SleepFor (heart_beat_period (o_config o)) token;;
  atomic (StopCallback_destroy leader_token heart_beat_stop_propagate).

Definition StartLeaderNodeSession (this : ptr) (id : nat) : prog X unit :=
  while (is_leader this) (
    atomic (NodeSession_check this id);;
    db_check;;
    '(request, request_stop, guard) ← atomic (NodeSession_request this id);
    timeout ← fiber post (request_timeout this request_stop);
    '(endpoint, token) ← atomic (
      o ← object nodes this;
      endpoint ← lift (vec_get (raft_nodes (o_config o)) id);
      token ← GetToken request_stop;
      mret (endpoint, token));
    result ← Client_AppendEntries endpoint request token;
    next ← atomic (NodeSession_response this id request result);
    (match next with
     | SessionContinue => Ret ()
     | SessionJoinTimeout => fiber_join timeout
     | SessionSleep => heartbeat_sleep this
     end);;
    (* the [DEFER] *)
    atomic (StopSource_Stop request_stop);;
    fiber_join timeout;;
    atomic (destroy_guards [guard])).

Definition others (o : NodeObject) : list nat :=
  filter (λ id, id ≠ node_id (o_config o)) (seq 0 (length (raft_nodes (o_config o)))).

Definition StartLeader (this : ptr) : prog X unit :=
  o ← atomic (object nodes this);
  sessions ← fork_all (others o) (StartLeaderNodeSession this);
  main ← fiber post (StartLeaderMainSession this);
  join_all (sessions ++ [main]);;
  atomic (update_node this (o_set_pending_log [])).

(** ** Follower and candidate *)

Definition GetElectionTimeout (this : ptr) : M X Z :=
  o ← object nodes this;
  GetRandomDuration (election_timeout (o_config o)).

Definition StartFollower (this : ptr) : prog X unit :=
  '(timeout, token) ← atomic (
    o ← object nodes this;
    StopSource_assign (o_reset_election_timeout o);;
    timeout ← GetElectionTimeout this;
    token ← GetToken (o_reset_election_timeout o);
    mret (timeout, token));
  stopped ← SleepFor timeout token;
  if (stopped : bool) then Ret () else atomic (BecomeCandidate this).

(** The fiber [election_timer]. *)
Definition election_timer (this : ptr) : prog X unit :=
  '(timeout, token) ← atomic (
    timeout ← GetElectionTimeout this;
    o ← object nodes this;
    token ← GetToken (o_stop_election o);
    mret (timeout, token));
  SleepFor timeout token;;
  atomic (o ← object nodes this; StopSource_Stop (o_stop_election o)).

(** The new term and the request; [votes_count] is shared with the fibers of
    the requests. *)
Definition StartCandidate_request (this : ptr) : M X (ptr * RequestVoteRequest) :=
  term ← GetCurrentTerm this;
  o ← object nodes this;
  let self := Z.of_nat (node_id (o_config o)) in
  UpdateTerm this (term +64 1) (Some self);;
  votes_count ← allocate;
  set (λ v, set_votes_counts (<[votes_count := 1%nat]> (votes_counts v)) v);;
  n ← view this;
  term ← GetCurrentTerm this;
  mret (votes_count, MkRequestVote term self (RaftNode.GetSavedLogSize n) (GetLastSavedLogTerm n)).

(** What the fiber of a request does with the result. *)
Definition vote_received (this votes_count : ptr) (result : Result RequestVoteResult RpcError) : M X unit :=
  match result with
  | Err _ => mret ()
  | Ok r =>
      term ← GetCurrentTerm this;
      if decide (term < rvr_term r) then
        UpdateTerm this (rvr_term r) None;;
        become_follower_if_necessary this
      else if negb (rvr_vote_granted r) then mret ()
      else
        count ← object votes_counts votes_count;
        set (λ v, set_votes_counts (<[votes_count := S count]> (votes_counts v)) v);;
        o ← object nodes this;
        if decide (S count = length (raft_nodes (o_config o)) / 2 + 1 ∧ o_state o = Candidate)%nat
        then BecomeLeader this else mret ()
  end.

Definition vote_request (this votes_count : ptr) (request_vote : RequestVoteRequest) (id : nat) : prog X unit :=
  '(endpoint, token) ← atomic (
    o ← object nodes this;
    endpoint ← lift (vec_get (raft_nodes (o_config o)) id);
    token ← GetToken (o_stop_election o);
    mret (endpoint, token));
  result ← Client_RequestVote endpoint request_vote token;
  atomic (vote_received this votes_count result).

Definition StartCandidate (this : ptr) : prog X unit :=
  o ← atomic (
    o ← object nodes this;
    StopSource_assign (o_stop_election o);;
    mret o);
  timer ← fiber post (election_timer this);
  db_check;;
  '(votes_count, request_vote) ← atomic (StartCandidate_request this);
  requests ← fork_all (others o) (vote_request this votes_count request_vote);
  join_all requests;;
  fiber_join timer.

(** [while (true) switch (state)]; a loop that is never left. *)
Definition StartNode (this : ptr) : prog X unit :=
  Loop (S := unit) (T := unit) (λ _,
    o ← atomic (object nodes this);
    (match o_state o with
     | Leader => StartLeader this
     | Follower => StartFollower this
     | Candidate => StartCandidate this
     end);;
    Ret (inl ())) () Ret.

(** ** [RunMain]

    The quotation marks that [fmt] may put around a path are left out. *)

(** [kv::Open] with [create_if_missing] and the default comparator, on the
    database of the simulator. *)
Definition Open (path : string) (empty : database) : prog X (Result handle DBError) :=
  db_check;;
  h ← GetCurrentHost;
  fiber_epoch ← GetCurrentEpoch;
  atomic (
    files ← get databases;
    let open db := set (λ v, set_databases (<[(h, path) := MkHostDatabase fiber_epoch db]> (databases v)) v);;
                   mret (Ok (h, path)) in
    match files !! (h, path) with
    | None => open empty
    | Some file =>
        M_verify (bool_decide (db_epoch file ≤ fiber_epoch)) "invalid state";;
        if decide (db_epoch file = fiber_epoch) then mret (Err (MkDBError DBInternal "database is opened twice"))
        else open (content file)
    end).

(** The constructor of [RaftNode], after the storage was checked. *)
Definition RaftNode_new (state_machine : sm_state) (config : RaftConfig) (state_db log_db : handle) : M X ptr :=
  stop_election ← StopSource_new;
  stop_leader ← StopSource_new;
  reset_election_timeout ← StopSource_new;
  reset_heartbeat_timeout ← StopSource_new;
  this ← allocate;
  set (λ v, set_nodes (<[this := MkNodeObject stop_election stop_leader Follower config reset_election_timeout
    reset_heartbeat_timeout state_db log_db 0 [] [] 0 ∅ [] (ExactlyOnce_new state_machine)]> (nodes v)) v);;
  db ← state_database this;
  match kv_Get db "current_term" with
  | Err _ => write_state this (kv_Put "current_term" 0 db)
  | Ok _ => mret ()
  end;;
  mret this.

Definition new_stub (st : stub) : M X ptr :=
  p ← allocate;
  set (λ v, set_stubs (<[p := st]> (stubs v)) v);;
  mret p.

Definition RunMain (state_machine : sm_state) (config : RaftConfig) : prog X (Result unit string) :=
  raft_state_db ← Open (raft_state_db_path config) (StateDb ∅);
  match raft_state_db with
  | Err e => Ret (Err ("cannot open state database at path " +:+ raft_state_db_path config +:+ ": " +:+ DBError_Message e))
  | Ok state_db =>
  raft_log_db ← Open (log_db_path config) (LogDb ∅);
  match raft_log_db with
  | Err e => Ret (Err ("cannot open log database at path " +:+ log_db_path config +:+ ": " +:+ DBError_Message e))
  | Ok log_db =>
  db_check;;
  this ← atomic (RaftNode_new state_machine config state_db log_db);
  server ← atomic Server_new;
  atomic (
    internals ← new_stub (RaftInternalsStub this);
    Server_Register server "RaftInternals" internals;;
    api ← new_stub (RaftApiStub this);
    Server_Register server "RaftApi" api);;
  endpoint ← atomic (lift (vec_get (raft_nodes config) (node_id config)));
  Server_Start server (port endpoint);;
  worker ← fiber post (Server_Run server);
  StartNode this;;
  Server_ShutDown server;;
  fiber_join worker;;
  atomic (Server_destroy server);;
  Ret (Ok ())
  end end.

End node.
