(* ===== verification/RaftSimClient.v ===== *)
(** * The Raft client on the simulated runtime

    src/raft/client/client.cpp and src/runtime/util/backoff as programs of
    fibers: the fiber of the global timeout, the attempts with their timeouts,
    the race for the state of the request. The caller passes no stop token, as
    all callers of the tests do. RaftClient.v has the retry loop with the fibers
    abstracted to signals. *)

From S2P Require Import Prelude.
From S2P Require Import Result.
From S2P Require Import RtTypes.
From S2P Require Import Serde.
From S2P Require Import HistoryChecker.
From S2P Require Import StateMachine.
From S2P Require Import RaftNode.
From S2P Require Import RaftClient.
From S2P Require Import SimFibers.
From S2P Require Import SimRuntime.
From S2P Require Import RaftSim.

Local Open Scope Z_scope.

(** [RaftClient::Config] *)
Record ClientConfig : Type := MkClientConfig {
  global_timeout : Z;
  client_rpc_timeout : Z;
  retry_count : nat;
  backoff_params : BackoffParams;
}.

(** [BackoffParams{}]: 10 ms, at most 1 s, the factor 2. *)
Definition default_backoff : BackoffParams := MkBackoffParams 10000 1000000 (λ d, 2 * d).

(** The members of [RaftClient]; [current_leader_] by its address. *)
Record ClientObject : Type := MkClientObject {
  raft_nodes_ : list Endpoint;
  current_leader_ : ptr;
  client_id_ : Z;
}.

Section client.
Context {AM : AnyMessage} {SM : IStateMachine} {Y : Type}.
Local Abbreviation X := (RaftVars Y).
Context `{!ProtoMessage (Request (AM := AM))} `{!ProtoMessage (Response (AM := AM))}.

Definition GetRandomInt : M X Z := random_int 0 u64_max.

Definition RaftClient_new (raft_nodes : list Endpoint) : M X ClientObject :=
  client_id ← GetRandomInt;
  leader ← allocate;
  set (λ v, set_current_leaders (<[leader := 0%nat]> (current_leaders v)) v);;
  mret (MkClientObject raft_nodes leader client_id).

(** ** One attempt *)

(** The fiber [rpc_timeout_fiber]. *)
Definition rpc_timeout_fiber (rpc_timeout : Z) (stop_source rpc_timed_out : ptr) : prog X unit :=
  token ← atomic (GetToken stop_source);
  SleepFor rpc_timeout token;;
  atomic (
    set (λ v, set_timed_out (<[rpc_timed_out := true]> (timed_out v)) v);;
    StopSource_Stop stop_source).

Definition StartAttempt (c : ClientObject) (request : Request) (rpc_timeout : Z) (stop_token : StopToken) :
    prog X (Result Any RaftClientError) :=
  '(endpoint, stop_source, stop_propagate, rpc_timed_out) ← atomic (
    leader ← object current_leaders (current_leader_ c);
    endpoint ← lift (vec_get (raft_nodes_ c) leader);
    stop_source ← StopSource_new;
    stop_propagate ← stop_on_stop stop_token stop_source;
    rpc_timed_out ← allocate;
    set (λ v, set_timed_out (<[rpc_timed_out := false]> (timed_out v)) v);;
    mret (endpoint, stop_source, stop_propagate, rpc_timed_out));
  timeout ← fiber post (rpc_timeout_fiber rpc_timeout stop_source rpc_timed_out);
  token ← atomic (GetToken stop_source);
  result ← Client_Execute endpoint request token;
  timed_out ← atomic (object timed_out rpc_timed_out);
  (* the [DEFER] *)
  atomic (StopSource_Stop stop_source);;
  fiber_join timeout;;
  atomic (StopCallback_destroy stop_token stop_propagate);;
  Ret (RaftClient.StartAttempt result timed_out).

(** ** [Apply] *)

(** [state.compare_exchange_strong(Running, desired)], and [stop_source.Stop()]
    if it succeeds. *)
Definition exchange_and_stop (state stop_source : ptr) (desired : RequestState) : M X unit :=
  current ← object request_states state;
  if decide (current = RaftClient.Running) then
    set (λ v, set_request_states (<[state := desired]> (request_states v)) v);;
    StopSource_Stop stop_source
  else mret ().

(** The fiber [global_timeout_fiber]. *)
Definition global_timeout_fiber (timeout : Z) (state stop_source : ptr) : prog X unit :=
  token ← atomic (GetToken stop_source);
  SleepFor timeout token;;
  atomic (exchange_and_stop state stop_source RqGlobalTimeout).

(** [Backoff::Next] *)
Definition Backoff_Next (b : Backoff) : M X (Z * Backoff) :=
  d ← random_int 0 (RaftClient.current b);
  mret (RaftClient.Backoff_Next d b).

(** The body of the loop: the attempt, the next leader and the sleep after an
    error; the loop ends with the result. *)
Definition attempt (c : ClientObject) (config : ClientConfig) (request : Request) (stop_source : ptr) :
    nat * Backoff → prog X ((nat * Backoff) + Result Any RaftClientError) :=
  λ '(attempt_id, backoff),
  token ← atomic (GetToken stop_source);
  result ← StartAttempt c request (client_rpc_timeout config) token;
  backoff ←
    (if HasError result then
       '(sleep_time, backoff, token) ← atomic (
         leader ← object current_leaders (current_leader_ c);
         set (λ v, set_current_leaders
           (<[current_leader_ c := (S leader) `mod` length (raft_nodes_ c)]> (current_leaders v)) v);;
         '(sleep_time, backoff) ← Backoff_Next backoff;
         token ← GetToken stop_source;
         mret (sleep_time, backoff, token));
       SleepFor sleep_time token;;
       Ret backoff
     else Ret backoff)%nat;
  stopped ← atomic (Source_StopRequested stop_source);
  Ret (if bool_decide (S attempt_id ≤ retry_count config)%nat && negb stopped && HasError result
       then inl (S attempt_id, backoff) else inr result).

Definition Apply (c : ClientObject) (command : Any) (config : ClientConfig) : prog X (Result Any RaftClientError) :=
  atomic (
    M_verify (bool_decide (0 < client_rpc_timeout config)) "invalid rpc_timeout";;
    M_verify (bool_decide (0 < global_timeout config)) "invalid global_timeout");;
  '(state, stop_source) ← atomic (
    state ← allocate;
    set (λ v, set_request_states (<[state := RaftClient.Running]> (request_states v)) v);;
    stop_source ← StopSource_new;
    mret (state, stop_source));
  timeout ← fiber post (global_timeout_fiber (global_timeout config) state stop_source);
  request_id ← atomic GetRandomInt;
  let request := MkRequest request_id (client_id_ c) command in
  result ← Loop (attempt c config request stop_source) (0%nat, Backoff_new (backoff_params config)) Ret;
  final ← atomic (object request_states state);
  let result :=
    match final with
    | RqCancelled => Err (ClientRpcError (MkRpcError Cancelled ""))
    | RqGlobalTimeout => Err (ClientErrorType GlobalTimeout)
    | _ => result
    end in
  (* the [DEFER] *)
  atomic (exchange_and_stop state stop_source Finished);;
  fiber_join timeout;;
  Ret result.

(** The template [Apply]: the command is packed, the response unpacked. *)
Definition Apply_message {ProtoOut} (packed : option Any) (UnpackTo : Any → option ProtoOut) (c : ClientObject)
    (config : ClientConfig) : prog X (Result ProtoOut RaftClientError) :=
  let parse_error {T} (r : Result T string) : Result T RaftClientError :=
    TransformError r (λ error, ClientRpcError (MkRpcError ParseError error)) in
  match parse_error (ToAny packed) with
  | Err e => Ret (Err e)
  | Ok command =>
      response ← Apply c command config;
      Ret (AndThen response (λ any_response, parse_error (FromAny (UnpackTo any_response))))
  end.
End client.
