(* ===== verification/RaftSimTests.v ===== *)
(** * Tests of Raft clusters in the simulator

    src/raft/test/simulation_test as programs of the simulated runtime: clusters
    of nodes (RaftSim.v) with clients (RaftSimClient.v) and a supervisor that
    crashes and pauses hosts and closes links. A test passes if the history of
    the clients is linearizable according to the checker of HistoryChecker.v. *)

From S2P Require Import Prelude.
From S2P Require Import Result.
From S2P Require Import RtTypes.
From S2P Require Import Serde.
From S2P Require Import HistoryChecker.
From S2P Require Import StateMachine.
From S2P Require Import RaftNode.
From S2P Require Import RaftClient.
From S2P Require Import SimFibers.
From S2P Require Import SimRuntime.
From S2P Require Import SimTestLib.
From S2P Require Import RaftSim.
From S2P Require Import RaftSimClient.
From stdpp Require Import pretty sorting.
From Stdlib Require Import QArith_base.

Local Open Scope Z_scope.

(** ** Messages

    Protobuf is a parameter of the runtime; here a message is the sequence of
    its fields, numbers with 8 bytes, lists with their length. *)

Class Codec (A : Type) : Type := {
  encode : A → Data;
  decode : Data → option (A * Data);
}.

Definition decode_map {A B} (f : A → B) (d : option (A * Data)) : option (B * Data) :=
  '(a, d) ← d; Some (f a, d).

#[local] Instance Z_codec : Codec Z := {|
  encode z := le_bytes 8 z;
  decode d := if decide (length (take 8 d) = 8%nat) then Some (le_value (take 8 d), drop 8 d) else None;
|}.

#[local] Instance pair_codec `{Codec A} `{Codec B} : Codec (A * B) := {|
  encode p := encode p.1 ++ encode p.2;
  decode d := '(a, d) ← decode d; '(b, d) ← decode d; Some ((a, b), d);
|}.

Fixpoint decode_list `{Codec A} (n : nat) (d : Data) : option (list A * Data) :=
  match n with
  | O => Some ([], d)
  | S n => '(a, d) ← decode d; '(l, d) ← decode_list n d; Some (a :: l, d)
  end.

#[local] Instance list_codec `{Codec A} : Codec (list A) := {|
  encode l := encode (Z.of_nat (length l)) ++ mjoin (encode <$> l);
  decode d := '(n, d) ← decode (A := Z) d; decode_list (Z.to_nat n) d;
|}.

(** [google::protobuf::Any] with the messages of logging_state_machine.proto. *)
Inductive TestAny : Type :=
  | AnyEmpty
  | AnyCommand (data : Z)
  | AnyResult (log_entries : list Z).

#[export] Instance test_any : AnyMessage := {| Any := TestAny; any_default := AnyEmpty |}.

#[local] Instance any_codec : Codec TestAny := {|
  encode a := encode (match a with AnyEmpty => (0, []) | AnyCommand z => (1, [z]) | AnyResult l => (2, l) end);
  decode := decode_map (λ '(tag, l), match tag, l with
                                     | 1, [z] => AnyCommand z
                                     | 2, l => AnyResult l
                                     | _, _ => AnyEmpty
                                     end) ∘ decode;
|}.

Definition PackFrom_RsmCommand (data : Z) : option Any := Some (AnyCommand data).
Definition PackFrom_RsmResult (log : list Z) : option Any := Some (AnyResult log).
Definition UnpackTo_RsmCommand (a : Any) : option Z := match a with AnyCommand z => Some z | _ => None end.
Definition UnpackTo_RsmResult (a : Any) : option (list Z) := match a with AnyResult l => Some l | _ => None end.

(** A command of another type would abort; the clients send none. *)
#[export] Instance LoggingStateMachine : IStateMachine := {|
  sm_state := list Z;
  sm_Apply c log :=
    match LoggingStateMachine_Apply PackFrom_RsmResult UnpackTo_RsmCommand c log with
    | Done r => r
    | _ => (any_default, log)
    end;
|}.

Definition of_codec {A B} `{Codec B} (fields : A → B) (build : B → A) : ProtoMessage A := {|
  SerializeToArray a := Some (encode (fields a));
  ParseFromArray d := '(b, _) ← decode d; Some (build b);
|}.

Definition of_bool (b : bool) : Z := if b then 1 else 0.
Definition to_bool (z : Z) : bool := bool_decide (z = 1).

#[local] Instance request_codec : Codec Request := {|
  encode r := encode (request_id r, client_id r, StateMachine.command r);
  decode := decode_map (λ '(i, c, a), MkRequest i c a) ∘ decode (A := Z * Z * TestAny);
|}.

#[local] Instance entry_codec : Codec LogEntry := {|
  encode e := encode (entry_term e, entry_request e);
  decode := decode_map (λ '(t, r), MkLogEntry t r) ∘ decode;
|}.

#[export] Instance Request_message : ProtoMessage Request := of_codec id id.
#[export] Instance Response_message : ProtoMessage Response :=
  of_codec (B := Z * TestAny)
    (λ r, (match rsp_status r with NotALeader => 0 | Commited => 1 end, rsp_result r))
    (λ '(s, a), MkResponse (if decide (s = 0) then NotALeader else Commited) a).
#[export] Instance AppendEntries_message : ProtoMessage AppendEntriesRequest :=
  of_codec (B := Z * Z * Z * Z * list LogEntry * Z)
    (λ r, (ae_term r, ae_leader_id r, ae_prev_log_index r, ae_prev_log_term r, ae_entries r, ae_leader_commit r))
    (λ '(t, l, i, p, es, c), MkAppendEntries t l i p es c).
#[export] Instance AppendEntriesResult_message : ProtoMessage AppendEntriesResult :=
  of_codec (B := Z * Z) (λ r, (aer_term r, of_bool (aer_success r))) (λ '(t, b), MkAppendEntriesResult t (to_bool b)).
#[export] Instance RequestVote_message : ProtoMessage RequestVoteRequest :=
  of_codec (B := Z * Z * Z * Z)
    (λ r, (rv_term r, rv_candidate_id r, rv_last_log_index r, rv_last_log_term r))
    (λ '(t, c, i, l), MkRequestVote t c i l).
#[export] Instance RequestVoteResult_message : ProtoMessage RequestVoteResult :=
  of_codec (B := Z * Z) (λ r, (rvr_term r, of_bool (rvr_vote_granted r)))
    (λ '(t, b), MkRequestVoteResult t (to_bool b)).

#[local] Instance TestAny_eq_dec : EqDecision TestAny.
Proof. solve_decision. Defined.
#[local] Instance Request_eq_dec : EqDecision Request.
Proof. intros [i c a] [i' c' a']. unfold Decision. unfold Any, test_any in *. decide equality; apply decide; apply _. Defined.
#[local] Instance LogEntry_eq_dec : EqDecision LogEntry.
Proof. solve_decision. Defined.

Definition Differencer_Equals (a b : LogEntry) : bool := bool_decide (a = b).

(** The error types have a [Message()] or are strings. *)
#[local] Instance RaftClientError_traits : ErrorTraits RaftClientError :=
  {| has_message := Some RaftClientError_Message; convertible_to_string := None; base_of_exception := false;
     base_of_error_code := false; is_exception_ptr := false |}.
#[local] Instance string_traits : ErrorTraits string :=
  {| has_message := None; convertible_to_string := Some id; base_of_exception := false;
     base_of_error_code := false; is_exception_ptr := false |}.

(** ** src/raft/test/simulation_test/hosts.h *)

(** The variables of the tests. *)
Record TestVars : Type := MkTestVars {
  history : list RequestInfo;
  finished : bool;
}.

Abbreviation vars_type := (RaftVars TestVars).

(** A test begins with an empty history. *)
Definition new_history : prog vars_type unit :=
  atomic (set (λ v, set_test_vars (MkTestVars [] (finished (test_vars v))) v)).

Definition push_history (info : RequestInfo) : M vars_type unit :=
  set (λ v, set_test_vars (MkTestVars (history (test_vars v) ++ [info]) (finished (test_vars v))) v).

Definition RaftHost_Main (config : RaftConfig) : prog vars_type unit :=
  result ← RunMain (SM := LoggingStateMachine) [] config;
  atomic (lift (ExpectOk result)).

(** [client.Apply<RsmResult>(command, config)] *)
Definition ApplyCommand (client : ClientObject) (data : Z) (config : ClientConfig) :
    prog vars_type (Result (list Z) RaftClientError) :=
  Apply_message (PackFrom_RsmCommand data) UnpackTo_RsmResult client config.

Definition RaftClientHost_Main (raft_nodes : list Endpoint) (client_config : ClientConfig) : prog vars_type unit :=
  client ← atomic (RaftClient_new raft_nodes);
  Loop (S := unit) (T := unit) (λ _,
    '(data, invocation) ← atomic (data ← random_int 0 255; now ← GetGlobalTime; mret (data, now));
    response ← ApplyCommand client data client_config;
    (match response with
     | Err _ => Ret ()
     | Ok value => atomic (now ← GetGlobalTime; push_history (MkRequestInfo invocation now data value))
     end);;
    Ret (inl ())) () Ret.

(** [CrashSupervisor] *)
Definition GetRandomHost (raft_nodes : list Endpoint) : M vars_type string :=
  index ← random_int 0 (Z.of_nat (length raft_nodes) - 1);
  endpoint ← lift (vec_get raft_nodes (Z.to_nat index));
  mret (RtTypes.address endpoint).

Definition CrashSupervisor_Main (raft_nodes : list Endpoint) (max_pause_time : Z) : prog vars_type unit :=
  Loop (S := unit) (T := unit) (λ _,
    '(host, pause_time) ← atomic (
      host ← GetRandomHost raft_nodes;
      pause_time ← random_int 0 max_pause_time;
      mret (host, pause_time));
    KillHost host;;
    Sleep pause_time;;
    StartHost host;;
    Ret (inl ())) () Ret.

Definition raft_endpoints (count : nat) : list Endpoint :=
  (λ index, MkEndpoint ("addr" +:+ pretty (Z.of_nat index)) 42) <$> seq 0 count.

Definition raft_config (election : Interval) (raft_nodes : list Endpoint) (id : nat) : RaftConfig :=
  MkRaftConfig id raft_nodes election (ms 50) (ms 90) "/tmp/raft_log" "/tmp/raft_state".

Definition start_vars : vars_type := MkRaftVars ∅ ∅ ∅ ∅ ∅ ∅ ∅ ∅ (MkTestVars [] false).

(** The end of the tests: the history is linearizable. *)
Definition check_history : prog vars_type unit :=
  v ← read;
  r ← atomic (lift (CheckLinearizability (merge_sort shorter) (history (test_vars v))));
  EXPECT (negb (HasError r)).

(** At least two answers. *)
Definition expect_answers : prog vars_type unit :=
  v ← read;
  EXPECT (bool_decide (1 < length (history (test_vars v)))%nat);;
  failed ← HasNonfatalFailure;
  if (failed : bool) then Ret () else check_history.

(** The loop of a [TEST] over its seeds. *)
Fixpoint run_seeds (count : nat) (seed : Z) (run : Z → prog vars_type unit) : prog vars_type unit :=
  match count with
  | O => Ret ()
  | S count =>
      run seed;;
      failed ← HasNonfatalFailure;
      if (failed : bool) then Ret () else run_seeds count (seed + 1) run
  end.

(** ** src/raft/test/simulation_test/raft_simple.cpp *)

Module RaftSimple.
(** The objects 1, 2, … are the hosts of the nodes, the next one is
    [client_host]. *)
Definition Main (nodes_count : nat) (p : ptr) : prog vars_type unit :=
  let raft_nodes := raft_endpoints nodes_count in
  let id := Nat.pred (Pos.to_nat p) in
  if decide (id < nodes_count)%nat then RaftHost_Main (raft_config (MkInterval (ms 150) (ms 300)) raft_nodes id)
  else RaftClientHost_Main raft_nodes (MkClientConfig (sec 1) (ms 300) 10 default_backoff).

(** [RunSimpleTest]; the duration is 10 seconds in the source. *)
Definition RunSimpleTest (seed : Z) (nodes_count clients_count : nat) (duration : Z) : prog vars_type unit :=
  new_history;;
  InitWorld seed (MkWorldOptions (1 # 10) (MkInterval (ms 0) (ms 50)) (MkInterval (ms 100) (ms 500)) (1 # 10));;
  for_loop nodes_count 0 (λ i,
    AddHost ("addr" +:+ pretty i) (Z.to_pos (i + 1)) (MkHostOptions (MkInterval 0 0) (0%Q, 0%Q) (ms 1)));;
  for_loop clients_count 0 (λ i, AddHost ("client" +:+ pretty i) (Pos.of_nat (S nodes_count)) default_host);;
  RunSimulation duration u64_max;;
  expect_answers.

Definition Replica3Client1 := run_seeds 30 0 (λ seed, RunSimpleTest seed 3 1 (sec 10)).
Definition Replica3Client2 := run_seeds 30 100 (λ seed, RunSimpleTest seed 3 2 (sec 10)).
Definition Replica5Client3 := run_seeds 30 200 (λ seed, RunSimpleTest seed 5 3 (sec 10)).
Definition Replica6Client10 := run_seeds 30 300 (λ seed, RunSimpleTest seed 6 10 (sec 10)).
End RaftSimple.

(** ** src/raft/test/simulation_test/raft_host_crash.cpp *)

Module RaftHostCrash.
(** After the nodes come [client_host] and [supervisor]. *)
Definition Main (nodes_count : nat) (p : ptr) : prog vars_type unit :=
  let raft_nodes := raft_endpoints nodes_count in
  let id := Nat.pred (Pos.to_nat p) in
  if decide (id < nodes_count)%nat then RaftHost_Main (raft_config (MkInterval (ms 150) (ms 300)) raft_nodes id)
  else if decide (id = nodes_count)
  then RaftClientHost_Main raft_nodes (MkClientConfig (sec 1) (ms 300) 10 default_backoff)
  else CrashSupervisor_Main raft_nodes (sec 2).

(** [RunTestWithCrashes]; the duration is 10 seconds in the source. *)
Definition RunTestWithCrashes (seed : Z) (nodes_count clients_count max_crashed_host_count : nat) (duration : Z) :
    prog vars_type unit :=
  new_history;;
  InitWorld seed (MkWorldOptions (1 # 100) (MkInterval (ms 0) (ms 50)) (MkInterval (ms 100) (ms 500)) (5 # 100));;
  for_loop nodes_count 0 (λ i,
    AddHost ("addr" +:+ pretty i) (Z.to_pos (i + 1)) (MkHostOptions (MkInterval 0 0) (0%Q, 0%Q) (ms 1)));;
  for_loop clients_count 0 (λ i, AddHost ("client" +:+ pretty i) (Pos.of_nat (S nodes_count)) default_host);;
  for_loop max_crashed_host_count 0 (λ i,
    AddHost ("supervisor" +:+ pretty i) (Pos.of_nat (S (S nodes_count))) default_host);;
  RunSimulation duration u64_max;;
  expect_answers.

Definition Replica3Client1Crashed1 := run_seeds 30 0 (λ seed, RunTestWithCrashes seed 3 1 1 (sec 10)).
Definition Replica3Client3Crashed1 := run_seeds 30 100 (λ seed, RunTestWithCrashes seed 3 3 1 (sec 10)).
Definition Replica5Client3Crashed1 := run_seeds 30 200 (λ seed, RunTestWithCrashes seed 5 3 1 (sec 10)).
Definition Replica5Client2Crashed2 := run_seeds 30 300 (λ seed, RunTestWithCrashes seed 5 2 2 (sec 10)).
End RaftHostCrash.

(** ** src/raft/test/simulation_test/raft_commit_index.cpp *)

Module RaftCommitIndex.
Definition raft_nodes : list Endpoint := raft_endpoints 5.
Definition address_of (id : nat) : string := "addr" +:+ pretty (Z.of_nat id).

Definition CloseLinks (first second : nat) : prog vars_type unit :=
  atomic (CloseLinkBidirectional (address_of first) (address_of second)).

Definition RestoreAllLinks : prog vars_type unit :=
  for_loop 5 0 (λ first, for_loop 5 0 (λ second,
    atomic (RestoreLinkBidirectional ("addr" +:+ pretty first) ("addr" +:+ pretty second)))).

Definition SendCommand (client : ClientObject) (data : Z) : prog vars_type RequestInfo :=
  invocation ← Now;
  response ← ApplyCommand client data (MkClientConfig (sec 10) (ms 300) 100 default_backoff);
  value ← ValueOf response;
  completion ← Now;
  Ret (MkRequestInfo invocation completion data value).

(** [client.Apply(...).ExpectFail()] *)
Definition ExpectFail (client : ClientObject) (data : Z) : prog vars_type unit :=
  response ← ApplyCommand client data (MkClientConfig (ms 100) (ms 100) 1 default_backoff);
  atomic (lift (Result.ExpectFail response)).

Definition Restart (id : nat) : prog vars_type unit := KillHost (address_of id);; StartHost (address_of id).
Definition Pause (id : nat) : prog vars_type unit := PauseHost (address_of id).
Definition Resume (id : nat) : prog vars_type unit := ResumeHost (address_of id).

(** [Supervisor::Main] up to state (a): S0 leads, 1 is replicated everywhere and
    2 on S0 and S1. *)
Definition reach_a : prog vars_type ClientObject :=
  Pause 4;;
  Sleep (ms 300);;
  Resume 4;;
  client0 ← atomic (RaftClient_new (take 1 raft_nodes));
  response ← ApplyCommand client0 1 (MkClientConfig (hour 1) (sec 1) 10 default_backoff);
  value ← ValueOf response;
  EXPECT (bool_decide (value !! 0%nat = Some 1));;
  Sleep (ms 100);;
  CloseLinks 0 2;; CloseLinks 0 3;; CloseLinks 0 4;;
  Pause 2;; Pause 3;; Pause 4;;
  ExpectFail client0 2;;
  Sleep (ms 100);;
  Ret client0.

(** State (b): S4 leads with 3, which the others do not have. *)
Definition reach_b : prog vars_type ClientObject :=
  Restart 0;;
  Pause 0;; Pause 1;;
  Resume 2;; Resume 3;; Resume 4;;
  RestoreAllLinks;;
  CloseLinks 4 0;; CloseLinks 4 1;;
  Sleep (ms 300);;
  CloseLinks 4 2;; CloseLinks 4 3;;
  client4 ← atomic (RaftClient_new (drop 4 raft_nodes));
  ExpectFail client4 3;;
  Ret client4.

(** State (c): S0 leads again and replicates 2 to a majority. *)
Definition reach_c : prog vars_type unit :=
  Restart 4;;
  Pause 4;;
  Resume 0;; Resume 1;;
  Sleep (sec 1).

(** State (d): S4 leads again and overwrites 2. *)
Definition reach_d : prog vars_type unit :=
  RestoreAllLinks;;
  Restart 0;;
  Pause 0;;
  Resume 4;;
  Sleep (ms 600);;
  Resume 0;;
  Sleep (ms 600).

Definition check_consistency (client0 client4 : ClientObject) : prog vars_type unit :=
  info ← SendCommand client4 4;
  atomic (push_history info);;
  Sleep (ms 300);;
  Pause 4;;
  Sleep (sec 1);;
  info ← SendCommand client0 5;
  atomic (push_history info);;
  Pause 0;;
  Sleep (sec 4);;
  client ← atomic (RaftClient_new raft_nodes);
  info ← SendCommand client 6;
  atomic (push_history info);;
  atomic (set (λ v, set_test_vars (MkTestVars (history (test_vars v)) true) v)).

Definition Supervisor_Main : prog vars_type unit :=
  client0 ← reach_a;
  client4 ← reach_b;
  reach_c;;
  reach_d;;
  check_consistency client0 client4.

Definition Main (p : ptr) : prog vars_type unit :=
  let id := Nat.pred (Pos.to_nat p) in
  if decide (id < 5)%nat then
    RaftHost_Main (raft_config (if decide (id = 0 ∨ id = 4)%nat then MkInterval (ms 150) (ms 150)
                                else MkInterval (ms 900) (ms 1500)) raft_nodes id)
  else Supervisor_Main.

(** The duration is 50 seconds in the source. *)
Definition test (duration : Z) : prog vars_type unit :=
  InitWorld 42 (MkWorldOptions 0 (MkInterval (ms 30) (ms 30)) (MkInterval 0 0) 0);;
  for_loop 5 0 (λ i,
    AddHost ("addr" +:+ pretty i) (Z.to_pos (i + 1)) (MkHostOptions (MkInterval 0 0) (0%Q, 0%Q) (ms 1)));;
  AddHost "supervisor" 6 default_host;;
  RunSimulation duration u64_max;;
  v ← read;
  EXPECT (finished (test_vars v));;
  check_history.
End RaftCommitIndex.

(** ** src/raft/test/simulation_test/raft_fuzztest.cpp *)

Module RaftFuzz.
Inductive HostAction : Type := HPause | HResume | HKill | HStart | HRestart.
Inductive NetworkAction : Type := Drop | Restore.
Inductive Action : Type :=
  | SleepAction (duration : Z)
  | OnHost (type : HostAction)
  | OnNetwork (type : NetworkAction).

Record NodeConfig : Type := MkNodeConfig {
  node_election_timeout : Interval;
  node_heart_beat_period : Z;
  node_rpc_timeout : Z;
  node_host_config : HostOptions;
}.

Record TestConfig : Type := MkTestConfig {
  seed : Z;
  simulation_duration : Z;
  world_config : WorldOptions;
  clients_configs : list (ClientConfig * HostOptions);
  nodes_configs : list NodeConfig;
}.

(** [Advisory::Transfer]: a random element of [from] moves to the end of [to];
    [None] if [from] is empty. *)
Definition Transfer {A} (from to : list A) : M vars_type (option (list A * list A * A)) :=
  match from with
  | [] => mret None
  | _ =>
      index ← random_int 0 (Z.of_nat (length from) - 1);
      a ← lift (vec_get from (Z.to_nat index));
      mret (Some (delete (Z.to_nat index) from, to ++ [a], a))
  end.

(** The local variables of [Advisory::Main]. *)
Record Hosts : Type := MkHosts {
  killed_hosts : list string;
  paused_hosts : list string;
  running_hosts : list string;
  alive_connections : list (string * string);
  dead_connections : list (string * string);
}.

Definition host_action (type : HostAction) (l : Hosts) : prog vars_type Hosts :=
  let hosts killed paused running := MkHosts killed paused running (alive_connections l) (dead_connections l) in
  match type with
  | HPause =>
      t ← atomic (Transfer (running_hosts l) (paused_hosts l));
      match t with
      | None => Ret l
      | Some (running, paused, host) => PauseHost host;; Ret (hosts (killed_hosts l) paused running)
      end
  | HResume =>
      t ← atomic (Transfer (paused_hosts l) (running_hosts l));
      match t with
      | None => Ret l
      | Some (paused, running, host) => ResumeHost host;; Ret (hosts (killed_hosts l) paused running)
      end
  | HKill =>
      t ← atomic (Transfer (running_hosts l) (killed_hosts l));
      match t with
      | None => Ret l
      | Some (running, killed, host) => KillHost host;; Ret (hosts killed (paused_hosts l) running)
      end
  | HStart =>
      t ← atomic (Transfer (killed_hosts l) (running_hosts l));
      match t with
      | None => Ret l
      | Some (killed, running, host) => StartHost host;; Ret (hosts killed (paused_hosts l) running)
      end
  | HRestart =>
      match running_hosts l with
      | [] => Ret l
      | running =>
          host ← atomic (
            index ← random_int 0 (Z.of_nat (length running) - 1);
            lift (vec_get running (Z.to_nat index)));
          KillHost host;; StartHost host;; Ret l
      end
  end.

Definition network_action (type : NetworkAction) (l : Hosts) : prog vars_type Hosts :=
  let connections := MkHosts (killed_hosts l) (paused_hosts l) (running_hosts l) in
  match type with
  | Drop =>
      t ← atomic (Transfer (alive_connections l) (dead_connections l));
      match t with
      | None => Ret l
      | Some (alive, dead, (from, to)) => atomic (CloseLink from to);; Ret (connections alive dead)
      end
  | Restore =>
      t ← atomic (Transfer (dead_connections l) (alive_connections l));
      match t with
      | None => Ret l
      | Some (dead, alive, (from, to)) => atomic (RestoreLink from to);; Ret (connections alive dead)
      end
  end.

Fixpoint perform (actions : list Action) (l : Hosts) : prog vars_type unit :=
  match actions with
  | [] => Ret ()
  | a :: actions =>
      l ← match a with
          | SleepAction duration => Sleep duration;; Ret l
          | OnHost type => host_action type l
          | OnNetwork type => network_action type l
          end;
      perform actions l
  end.

Definition Advisory_Main (hosts : list string) (actions : list Action) : prog vars_type unit :=
  perform actions (MkHosts [] [] hosts (from ← hosts; to ← hosts; [(from, to)]) []).

Section test.
Variable config : TestConfig.
Variable actions : list Action.

Definition raft_address (index : nat) : string := "node_" +:+ pretty (Z.of_nat index).
Definition client_address (index : nat) : string := "client_" +:+ pretty (Z.of_nat index).
Definition raft_endpoints : list Endpoint :=
  (λ index, MkEndpoint (raft_address index) 42) <$> seq 0 (length (nodes_configs config)).
Definition all_addresses : list string :=
  (raft_address <$> seq 0 (length (nodes_configs config))) ++
  (client_address <$> seq 0 (length (clients_configs config))).

(** The objects 1, 2, … are the nodes, then the clients, then [advisory]. *)
Definition Main (p : ptr) : prog vars_type unit :=
  let id := Nat.pred (Pos.to_nat p) in
  let count := length (nodes_configs config) in
  match nodes_configs config !! id with
  | Some c =>
      RaftHost_Main (MkRaftConfig id raft_endpoints (node_election_timeout c) (node_heart_beat_period c)
        (node_rpc_timeout c) "/tmp/raft_log" "/tmp/raft_state")
  | None =>
      match clients_configs config !! (id - count)%nat with
      | Some (c, _) => RaftClientHost_Main raft_endpoints c
      | None => Advisory_Main all_addresses actions
      end
  end.

Fixpoint add_hosts (address : nat → string) (index : nat) (object : positive) (options : list HostOptions) :
    prog vars_type unit :=
  match options with
  | [] => Ret ()
  | o :: options => AddHost (address index) object o;; add_hosts address (S index) (Pos.succ object) options
  end.

(** [RunRaftTest]; 800 events in the source. *)
Definition RunRaftTest (iteration_count : Z) : prog vars_type unit :=
  let nodes := node_host_config <$> nodes_configs config in
  let clients := (clients_configs config).*2 in
  InitWorld (seed config) (world_config config);;
  add_hosts raft_address 0 1 nodes;;
  add_hosts client_address 0 (Pos.of_nat (S (length nodes))) clients;;
  AddHost "adv" (Pos.of_nat (S (length nodes + length clients))) default_host;;
  RunSimulation (simulation_duration config) iteration_count;;
  check_history.
End test.

(** The domains of the fuzzer, as the configurations it draws from; it has at
    least two actions. *)
Definition in_interval (lo hi : Z) (i : Interval) : bool :=
  bool_decide (lo ≤ from i ≤ to i ∧ to i ≤ hi).
Definition host_domain (o : HostOptions) : bool :=
  in_interval 0 (ms 100) (start_time_interval o) && bool_decide (0 ≤ opt_max_sleep_lag o ≤ ms 10) &&
  Qle_bool 0 (drift_interval o).1 && Qle_bool (drift_interval o).1 (5 # 100) &&
  Qle_bool 0 (drift_interval o).2 && Qle_bool (drift_interval o).2 (5 # 100).
Definition world_domain (o : WorldOptions) : bool :=
  Qle_bool 0 (network_error_proba o) && Qle_bool (network_error_proba o) (6 # 10) &&
  in_interval (ms 1) (ms 300) (delivery_time o) && bool_decide (from (delivery_time o) ≤ ms 100) &&
  in_interval (ms 1) (ms 500) (long_delivery_time o) && bool_decide (from (long_delivery_time o) ≤ ms 100) &&
  Qle_bool 0 (long_delivery_time_proba o) && Qle_bool (long_delivery_time_proba o) (2 # 10).
Definition node_domain (c : NodeConfig) : bool :=
  in_interval (ms 1) (ms 500) (node_election_timeout c) && bool_decide (ms 1 ≤ node_heart_beat_period c ≤ ms 500) &&
  bool_decide (ms 1 ≤ node_rpc_timeout c ≤ ms 500) && host_domain (node_host_config c).
Definition client_domain (c : ClientConfig * HostOptions) : bool :=
  bool_decide (ms 800 ≤ global_timeout c.1 ≤ ms 1000 ∧ ms 200 ≤ client_rpc_timeout c.1 ≤ ms 400) &&
  bool_decide (1 ≤ retry_count c.1 ≤ 10)%nat && host_domain c.2.
Definition action_domain (a : Action) : bool :=
  match a with SleepAction d => bool_decide (0 ≤ d ≤ ms 100) | _ => true end.
Definition test_domain (config : TestConfig) (actions : list Action) : bool :=
  bool_decide (simulation_duration config = sec 20) && world_domain (world_config config) &&
  bool_decide (1 ≤ length (clients_configs config) ≤ 8)%nat && forallb client_domain (clients_configs config) &&
  bool_decide (3 ≤ length (nodes_configs config) ≤ 8)%nat && forallb node_domain (nodes_configs config) &&
  bool_decide (2 ≤ length actions)%nat && forallb action_domain actions.
End RaftFuzz.
