(* ===== verification/RaftSimPrograms.v ===== *)
(** * The programs of Raft clusters are client programs

    Nodes, clients and tests use the simulator through its interface only, so
    what SimClients.v, SimServer.v and SimFiberSafety.v show of client programs
    holds of every Raft cluster in the simulator. *)

From S2P Require Import Prelude.
From S2P Require Import Result.
From S2P Require Import RtTypes.
From S2P Require Import Serde.
From S2P Require Import HistoryChecker.
From S2P Require Import StateMachine.
From S2P Require Import RaftNode.
From S2P Require Import RaftClient.
From S2P Require Import SimFibers.
From S2P Require Import SimRuntime.
From S2P Require Import SimClients.
From S2P Require Import SimTestLib.
From S2P Require Import RaftSim.
From S2P Require Import RaftSimClient.
From S2P Require Import RaftSimTests.

Local Open Scope Z_scope.

Section basic.
Context {AM : AnyMessage} {SM : IStateMachine} {Y : Type}.
Local Abbreviation X := (RaftVars Y).

Lemma block_get {A} (g : X → A) : block (get g).
Proof. apply block_read. Qed.
Lemma block_set (g : X → X) : block (set g).
Proof. apply block_write. Qed.
Lemma block_object {A} (objects : X → gmap ptr A) p : block (object objects p).
Proof. apply block_bind; [apply (block_read _ (λ v, objects v !! p))|]. intros o. apply block_lift. Qed.
Lemma block_for_each {A} (xs : list A) (body : A → M X unit) : (∀ x, block (body x)) → block (M_for_each xs body).
Proof. intros Hb. induction xs; simpl; solve_block; done. Qed.
#[local] Hint Resolve block_get block_set block_object block_for_each : sim_client.

Lemma client_db_check : client (X := X) db_check.
Proof. unfold db_check. solve_client. Qed.
Lemma client_fork_all {A} (xs : list A) (body : A → prog X unit) : (∀ x, client (body x)) → client (fork_all xs body).
Proof. intros Hb. induction xs; cbn [fork_all]; solve_client; done. Qed.
Lemma client_join_all fs : client (X := X) (join_all fs).
Proof. induction fs; cbn [join_all]; solve_client; done. Qed.
#[local] Hint Resolve client_db_check client_fork_all client_join_all : sim_client.

End basic.
#[local] Hint Resolve block_get block_set block_object client_db_check client_join_all : sim_client.

(** Unfold definitions until only the operations above are left. *)
Ltac unfold_head t := let h := get_head t in unfold h; cbv zeta.

Ltac block_code :=
  repeat first
    [ progress solve_block
    | match goal with
      | |- block (M_for_each _ _) => apply block_for_each; intros ?
      | |- block ?m => unfold_head m
      end ].

Ltac client_code :=
  repeat match goal with
  | |- block _ => progress block_code
  | |- client (while _ _) => apply client_while
  | |- client (fork_all _ _) => apply client_fork_all; intros ?
  | |- client (ProcessRequestWrapper _ _) => apply client_stub; intros ?
  | |- client (for_loop _ _ _) => apply client_for_loop; intros ?
  | |- client _ => progress solve_client
  | |- client ?p => unfold_head p
  end.

Section node.
Context {AM : AnyMessage} {SM : IStateMachine} {Y : Type}.
Local Abbreviation X := (RaftVars Y).
Context `{!ProtoMessage (Request (AM := AM))} `{!ProtoMessage (Response (AM := AM))}
  `{!ProtoMessage (AppendEntriesRequest (AM := AM))} `{!ProtoMessage AppendEntriesResult}
  `{!ProtoMessage RequestVoteRequest} `{!ProtoMessage RequestVoteResult}.

Lemma client_StartNode this : client (X := X) (StartNode this).
Proof. client_code. Qed.
#[local] Hint Resolve client_StartNode : sim_client.

Lemma client_RunMain state_machine config : client (X := X) (RaftSim.RunMain state_machine config).
Proof. client_code. Qed.

Lemma client_ProcessRequest eq service handler data : client (X := X) (RaftSim.ProcessRequest eq service handler data).
Proof. client_code. Qed.

Lemma client_Apply_message {ProtoOut} packed (unpack : Any → option ProtoOut) c config :
  client (X := X) (Apply_message packed unpack c config).
Proof. client_code. Qed.
End node.
#[local] Hint Resolve client_RunMain client_Apply_message : sim_client.

(** ** The tests *)

Lemma client_RaftHost config : client (RaftHost_Main config).
Proof. client_code. Qed.
Lemma client_RaftClientHost nodes config : client (RaftClientHost_Main nodes config).
Proof. client_code. Qed.
Lemma client_CrashSupervisor nodes pause : client (CrashSupervisor_Main nodes pause).
Proof. client_code. Qed.
#[local] Hint Resolve client_RaftHost client_RaftClientHost client_CrashSupervisor : sim_client.

Definition services := RaftSim.ProcessRequest (Y := TestVars) Differencer_Equals.

Lemma client_run_seeds count seed run : (∀ seed, client (run seed)) → client (run_seeds count seed run).
Proof. intros Hr. revert seed. induction count; intros seed; cbn [run_seeds]; solve_client; done. Qed.

Lemma RaftSimple_clients count seed nodes_count clients_count duration :
  clients (RaftSimple.Main nodes_count) services
    (run_seeds count seed (λ seed, RaftSimple.RunSimpleTest seed nodes_count clients_count duration)).
Proof.
  split; intros; [client_code|apply client_ProcessRequest|]. apply client_run_seeds. intros. client_code.
Qed.

Lemma RaftHostCrash_clients count seed nodes_count clients_count crashes duration :
  clients (RaftHostCrash.Main nodes_count) services
    (run_seeds count seed (λ seed, RaftHostCrash.RunTestWithCrashes seed nodes_count clients_count crashes duration)).
Proof.
  split; intros; [client_code|apply client_ProcessRequest|]. apply client_run_seeds. intros. client_code.
Qed.

Lemma RaftCommitIndex_clients duration :
  clients RaftCommitIndex.Main services (RaftCommitIndex.test duration).
Proof. split; intros; [client_code|apply client_ProcessRequest|client_code]. Qed.

(** ** The fuzzer *)

Lemma client_add_hosts address i p options : client (RaftFuzz.add_hosts address i p options).
Proof. revert i p. induction options; intros; cbn [RaftFuzz.add_hosts]; solve_client; done. Qed.

Lemma client_perform actions hosts : client (RaftFuzz.perform actions hosts).
Proof.
  revert hosts. induction actions as [|a actions IH]; intros hosts; cbn [RaftFuzz.perform]; [solve_client|].
  apply client_bind; [client_code|]. intros l. apply IH.
Qed.
#[local] Hint Resolve client_add_hosts client_perform : sim_client.

Lemma RaftFuzz_clients config actions iteration_count :
  options_ok (RaftFuzz.world_config config) →
  clients (RaftFuzz.Main config actions) services (RaftFuzz.RunRaftTest config iteration_count).
Proof. intros Ho. split; intros; [client_code|apply client_ProcessRequest|client_code]. Qed.
