(* ===== verification/RaftSimStorage.v ===== *)
(** * What Raft nodes do to the databases

    [storage_step] has the changes that node.cpp makes to the databases of the
    hosts: a database is created or opened in a newer epoch, a log is written, a
    vote is cast in the current term or the term grows. Whatever the schedule,
    the network and the crashes are, the databases evolve by such steps, so a
    node never takes back a vote and its term never decreases. *)

From S2P Require Import Prelude.
From S2P Require Import Result.
From S2P Require Import RtTypes.
From S2P Require Import Serde.
From S2P Require Import KVInterface.
From S2P Require Import HistoryChecker.
From S2P Require Import StateMachine.
From S2P Require Import RaftNode.
From S2P Require Import RaftClient.
From S2P Require Import SimFibers.
From S2P Require Import SimRuntime.
From S2P Require Import SimFibersProps.
From S2P Require Import SimClients.
From S2P Require Import SimTestLib.
From S2P Require Import RaftSim.
From S2P Require Import RaftSimClient.
From S2P Require Import RaftSimTests.
From S2P Require Import RaftSimPrograms.
From stdpp Require Import relations.

Local Open Scope Z_scope.

(** ** The specification *)

Section storage.
Context {AM : AnyMessage}.
Local Abbreviation storage := (gmap handle HostDatabase).

(** The term does not decrease; in the same term a vote stays. *)
Definition votes_le (d d' : gmap string Z) : Prop :=
  ∀ t, d !! "current_term" = Some t →
  ∃ t', d' !! "current_term" = Some t' ∧ t ≤ t' ∧
        (t' = t → ∀ v, d !! "voted_for" = Some v → d' !! "voted_for" = Some v).

#[export] Instance votes_le_preorder : PreOrder votes_le.
Proof.
  split; [intros d t Ht; by exists t|]. intros d1 d2 d3 H12 H23 t Ht.
  destruct (H12 t Ht) as (t2 & Ht2 & Hle & Hv). destruct (H23 t2 Ht2) as (t3 & Ht3 & Hle' & Hv').
  exists t3. split_and!; [done|lia|]. intros ? v Hvote. apply Hv'; [lia|]. apply Hv; [lia|done].
Qed.

Lemma votes_le_term d d' t t' :
  d !! "current_term" = Some t → t < t' → d' !! "current_term" = Some t' → votes_le d d'.
Proof. intros Ht Hlt Ht' t1 Ht1. exists t'. simplify_eq. split_and!; [done|lia|lia]. Qed.

Lemma votes_le_vote d v : d !! "voted_for" = None → votes_le d (kv_Put "voted_for" v d).
Proof.
  intros Hn t Ht. exists t. unfold kv_Put. rewrite lookup_insert_ne by done. split_and!; [done|lia|].
  intros _ v' Hv'. congruence.
Qed.

Lemma votes_le_fresh d d' : d !! "current_term" = None → votes_le d d'.
Proof. intros Hn t Ht. congruence. Qed.

Inductive storage_step (files : storage) : storage → Prop :=
  | write_state_step h e d d' :
      files !! h = Some (MkHostDatabase e (StateDb d)) → votes_le d d' →
      storage_step files (<[h := MkHostDatabase e (StateDb d')]> files)
  | write_log_step h e l l' :
      files !! h = Some (MkHostDatabase e (LogDb l)) →
      storage_step files (<[h := MkHostDatabase e (LogDb l')]> files)
  | create_step h e db :
      files !! h = None → storage_step files (<[h := MkHostDatabase e db]> files)
  | reopen_step h e e' db :
      files !! h = Some (MkHostDatabase e db) → e < e' →
      storage_step files (<[h := MkHostDatabase e' db]> files).

Lemma storage_step_votes files files' h e d :
  storage_step files files' → files !! h = Some (MkHostDatabase e (StateDb d)) →
  ∃ e' d', files' !! h = Some (MkHostDatabase e' (StateDb d')) ∧ e ≤ e' ∧ votes_le d d'.
Proof.
  intros Hs Hh. destruct Hs as [h' e' d1 d' Hh' Hle|h' e' l l' Hh'|h' e' db Hh'|h' e1 e' db Hh' Hlt];
    (destruct (decide (h' = h)) as [->|Hne];
      [rewrite lookup_insert_eq; simplify_eq; try congruence|rewrite lookup_insert_ne by done; by eexists _, _]).
  - by eexists _, _.
  - eexists _, _. split_and!; [done|lia|done].
Qed.

(** A vote is never taken back. *)
Lemma storage_steps_votes files files' h e d :
  rtc storage_step files files' → files !! h = Some (MkHostDatabase e (StateDb d)) →
  ∃ e' d', files' !! h = Some (MkHostDatabase e' (StateDb d')) ∧ e ≤ e' ∧ votes_le d d'.
Proof.
  intros Hr. revert e d. induction Hr as [files|files1 files2 files3 Hs _ IH]; intros e d Hh.
  - by eexists _, _.
  - destruct (storage_step_votes _ _ _ _ _ Hs Hh) as (e2 & d2 & H2 & He2 & Hd2).
    destruct (IH _ _ H2) as (e3 & d3 & H3 & He3 & Hd3). exists e3, d3. split_and!; [done|lia|by etrans].
Qed.
End storage.

(** ** The code of a node *)

(** [code_inv] with the cases of any type. *)
Ltac code_cases :=
  repeat (code_inv;
    try match goal with H : drawn ((match ?x with _ => _ end) _ _) (Done _) |- _ => destruct x eqn:? end);
  simplify_eq.

Section node.
Context {AM : AnyMessage} {SM : IStateMachine} {Y : Type}.
Local Abbreviation X := (RaftVars Y).

(** What code that reads a database finds. *)
Lemma state_database_drawn this f (s : sim X) d s' :
  drawn (state_database this f s) (Done (d, s')) →
  s' = s ∧ ∃ o e, nodes (vars s) !! this = Some o ∧
    databases (vars s) !! o_raft_state o = Some (MkHostDatabase e (StateDb d)).
Proof.
  intros Hd. unfold state_database, object, get in Hd. code_cases. eauto.
Qed.

Lemma log_database_drawn this f (s : sim X) l s' :
  drawn (log_database this f s) (Done (l, s')) →
  s' = s ∧ ∃ o e, nodes (vars s) !! this = Some o ∧
    databases (vars s) !! o_raft_log o = Some (MkHostDatabase e (LogDb l)).
Proof.
  intros Hd. unfold log_database, object, get in Hd. code_cases. eauto.
Qed.

Lemma write_state_drawn this d f (s : sim X) a s' o e d0 :
  nodes (vars s) !! this = Some o → databases (vars s) !! o_raft_state o = Some (MkHostDatabase e d0) →
  drawn (write_state this d f s) (Done (a, s')) →
  s' = with_vars (set_databases (<[o_raft_state o := MkHostDatabase e (StateDb d)]> (databases (vars s))) (vars s)) s.
Proof.
  intros Ho Hf Hd. unfold write_state, store, object, get, set in Hd. by code_cases.
Qed.

Lemma write_log_drawn this l f (s : sim X) a s' o e d0 :
  nodes (vars s) !! this = Some o → databases (vars s) !! o_raft_log o = Some (MkHostDatabase e d0) →
  drawn (write_log this l f s) (Done (a, s')) →
  s' = with_vars (set_databases (<[o_raft_log o := MkHostDatabase e (LogDb l)]> (databases (vars s))) (vars s)) s.
Proof.
  intros Ho Hf Hd. unfold write_log, store, object, get, set in Hd. by code_cases.
Qed.

(** *** Code that leaves the databases alone *)

Section invariant.
Variable P : gmap handle HostDatabase → Prop.
Local Abbreviation I := (λ s : sim X, P (databases (vars s))).

Lemma storage_runtime : code_preserves I.
Proof. apply (vars_runtime (λ v, P (databases v))). Qed.
Lemma storage_requests : requests_preserve I.
Proof. apply (vars_requests (λ v, P (databases v))). Qed.
Lemma storage_stable : stable I.
Proof. apply (vars_stable (λ v, P (databases v))). Qed.

Lemma storage_set (g : X → X) : (∀ v, databases (g v) = databases v) → preserves I (set g).
Proof. intros Hg. apply preserves_modify. intros s. simpl. by rewrite Hg. Qed.

Lemma storage_for_each {A} (xs : list A) (body : A → M X unit) :
  (∀ x, preserves I (body x)) → preserves I (M_for_each xs body).
Proof. intros Hb. induction xs; simpl; eauto using preserves_ret, preserves_bind. Qed.

Lemma storage_fork_all {A} (xs : list A) (body : A → prog X unit) : (∀ x, safe I (body x)) → safe I (fork_all xs body).
Proof.
  intros Hb. induction xs as [|x xs IH]; cbn [fork_all]; [done|]. apply safe_bind; [by split|]. intros f.
  by apply safe_bind.
Qed.

Lemma storage_join_all fs : safe I (join_all fs).
Proof. induction fs; cbn [join_all]; [done|]. apply safe_bind; [|done]. split; [apply preserves_gets|done]. Qed.

Lemma storage_for_loop n i body : (∀ i, safe I (body i)) → safe I (for_loop n i body).
Proof.
  intros Hb. revert i. induction n as [|n IH]; intros i; cbn [for_loop]; [done|]. by apply safe_bind.
Qed.

Lemma storage_EXPECT b : safe I (EXPECT b).
Proof. apply safe_atomic. by apply preserves_modify. Qed.
End invariant.
End node.

Create HintDb storage.
#[export] Hint Resolve preserves_ret preserves_gets preserves_lift preserves_verify preserves_deref preserves_int
  preserves_below storage_join_all storage_EXPECT storage_runtime : storage.
#[export] Hint Resolve rp_allocate rp_source rp_assign rp_stop rp_new_event rp_signal_event rp_signal_on_stop
  rp_stop_on_stop rp_callback_destroy rp_event_destroy rp_server_new rp_register : storage.

(** Split code into the operations of the runtime and of the node. *)
Ltac storage_code :=
  repeat match goal with
  | |- preserves _ (mbind _ _) => apply preserves_bind; [|intros ?]
  | |- preserves _ (match _ with _ => _ end) => case_match
  | |- preserves _ (set _) => by apply storage_set
  | |- preserves _ (modify _) => by apply preserves_modify
  | |- preserves _ (M_for_each _ _) => apply storage_for_each; intros ?
  | |- preserves _ _ => solve [eauto 2 with storage]
  | |- preserves _ ?m => unfold_head m
  end.

Ltac storage_safe :=
  repeat match goal with
  | |- preserves _ _ => progress storage_code
  | |- safe _ (mbind _ _) => apply safe_bind; [|intros ?]
  | |- safe _ (atomic _) => apply safe_atomic
  | |- safe _ (Ret _) => done
  | |- safe _ (fiber _ _) => split; [|done]
  | |- safe _ (fork_all _ _) => apply storage_fork_all; intros ?
  | |- safe _ (for_loop _ _ _) => apply storage_for_loop; intros ?
  | |- safe _ (Loop _ _ Ret) => split; [intros ?|done]
  | |- safe _ (match _ with _ => _ end) => case_match
  | |- safe _ _ => solve [eauto 2 with storage | apply api_safe; [apply storage_runtime|apply storage_requests|first [by constructor | by apply api_basic; constructor]]]
  | |- safe _ ?p => unfold_head p
  end.

Section writers.
Context {AM : AnyMessage} {SM : IStateMachine} {Y : Type}.
Local Abbreviation X := (RaftVars Y).
Variable P : gmap handle HostDatabase → Prop.
Local Abbreviation I := (λ s : sim X, P (databases (vars s))).
Hypothesis HP : ∀ files files', storage_step files files' → P files → P files'.

Lemma preserves_use {A} (m : M X A) f s a s' : drawn (m f s) (Done (a, s')) → I s → preserves I m → I s'.
Proof. intros Hd HI Hm. by apply (Hm f s a s'). Qed.

Lemma storage_write_state this d f (s : sim X) a s' o e d0 :
  nodes (vars s) !! this = Some o → databases (vars s) !! o_raft_state o = Some (MkHostDatabase e (StateDb d0)) →
  votes_le d0 d → I s → drawn (write_state this d f s) (Done (a, s')) → I s'.
Proof.
  intros Ho Hf Hle HI Hd. eapply write_state_drawn in Hd as ->; [|done..]. eapply HP; [|exact HI]. by econstructor.
Qed.

Lemma storage_write_log this l f (s : sim X) a s' o e l0 :
  nodes (vars s) !! this = Some o → databases (vars s) !! o_raft_log o = Some (MkHostDatabase e (LogDb l0)) →
  I s → drawn (write_log this l f s) (Done (a, s')) → I s'.
Proof.
  intros Ho Hf HI Hd. eapply write_log_drawn in Hd as ->; [|done..]. eapply HP; [|exact HI]. by econstructor.
Qed.

Ltac read_databases :=
  repeat match goal with
  | H : drawn (view _ _ _) _ |- _ => unfold view, object in H; code_inv
  | H : drawn (state_database _ _ _) _ |- _ => apply state_database_drawn in H as (-> & ? & ? & ? & ?)
  | H : drawn (log_database _ _ _) _ |- _ => apply log_database_drawn in H as (-> & ? & ? & ? & ?)
  end; simplify_eq.

Lemma storage_UpdateTerm this t v : preserves I (UpdateTerm this t v).
Proof.
  intros f s a s' HI Hd. unfold UpdateTerm, RaftSim.GetCurrentTerm in Hd. code_inv. read_databases.
  rewrite kv_Get_value in *. match goal with H : verify _ _ = _ |- _ => apply verify_Done, bool_decide_eq_true in H end.
  eapply storage_write_state; [done|done| |done|done]. eapply votes_le_term; [done..|].
  unfold kv_Put, kv_Delete. by destruct v; simplify_map_eq.
Qed.
#[local] Hint Resolve storage_UpdateTerm : storage.

(** A vote is cast if there is none. *)
Lemma storage_RequestVote this request : preserves I (RequestVote_code this request).
Proof.
  unfold RequestVote_code. apply preserves_bind; [storage_code|]. intros term. case_decide; [storage_code|].
  apply preserves_bind; [storage_code|]. intros _ f s a s' HI Hd. code_inv; read_databases; try done.
  eapply storage_write_state; [done|done| |done|done].
  match goal with H : ¬ _ ≠ None |- _ => apply dec_stable in H; unfold GetVotedFor, kv_Get in H; simpl in H end.
  apply votes_le_vote. by repeat case_match.
Qed.

Lemma storage_AppendEntries_store eq this request : preserves I (RaftSim.AppendEntries_store eq this request).
Proof.
  intros f s a s' HI Hd. unfold RaftSim.AppendEntries_store in Hd. apply M_bind_drawn in Hd as (n & s1 & Hn & Hd).
  apply M_bind_drawn in Hd as (n' & s2 & Hc & Hd). apply M_bind_drawn in Hd as ([] & s3 & Hw & Hd).
  apply (preserves_use _ _ _ _ _ Hd); [|storage_code]. code_inv. read_databases. by eapply storage_write_log.
Qed.
#[local] Hint Resolve storage_AppendEntries_store : storage.

Lemma storage_MainSession_write this batch : preserves I (MainSession_write this batch).
Proof.
  intros f s a s' HI Hd. unfold MainSession_write in Hd. apply M_bind_drawn in Hd as (db & s1 & Hn & Hd).
  apply M_bind_drawn in Hd as ([] & s2 & Hw & Hd).
  apply (preserves_use _ _ _ _ _ Hd); [|storage_code]. read_databases. by eapply storage_write_log.
Qed.

(** The constructor stores the first term in a new database. *)
Lemma storage_RaftNode_new sm config state_db log_db : preserves I (RaftSim.RaftNode_new sm config state_db log_db).
Proof.
  unfold RaftSim.RaftNode_new. do 6 (apply preserves_bind; [storage_code|intros ?]).
  intros f s n s' HI Hd. apply M_bind_drawn in Hd as (db & s1 & Hdb & Hd). unfold kv_Get in Hd.
  destruct (db !! "current_term") eqn:Hterm; code_inv; read_databases; [done|].
  eapply storage_write_state; [done|done| |done|done]. by apply votes_le_fresh.
Qed.

Lemma storage_Open path empty : safe I (RaftSim.Open path empty).
Proof.
  unfold RaftSim.Open. do 3 (apply safe_bind; [storage_safe|intros ?]). apply safe_atomic.
  intros f s n s' HI Hd. unfold get, set in Hd. code_cases; try done; simpl; (eapply HP; [|exact HI]).
  - match goal with H : databases _ !! _ = Some ?file |- _ => destruct file; simpl in * end.
    match goal with H : verify _ _ = _ |- _ => apply verify_Done, bool_decide_eq_true in H end.
    eapply reopen_step; [done|lia].
  - by constructor.
Qed.
#[local] Hint Resolve storage_RequestVote storage_MainSession_write storage_RaftNode_new storage_Open : storage.

Context `{!ProtoMessage (Request (AM := AM))} `{!ProtoMessage (Response (AM := AM))}
  `{!ProtoMessage (AppendEntriesRequest (AM := AM))} `{!ProtoMessage AppendEntriesResult}
  `{!ProtoMessage RequestVoteRequest} `{!ProtoMessage RequestVoteResult}.

Lemma storage_StartNode this : safe I (StartNode this).
Proof. storage_safe. Qed.
#[local] Hint Resolve storage_StartNode : storage.

Lemma storage_RunMain sm config : safe I (RaftSim.RunMain sm config).
Proof. storage_safe. Qed.

Lemma storage_ProcessRequest eq service handler data : safe I (RaftSim.ProcessRequest eq service handler data).
Proof. storage_safe. Qed.
End writers.

(** ** Clusters *)

Section cluster.
Context {AM : AnyMessage} {SM : IStateMachine} {Y : Type}.
Context `{!ProtoMessage (Request (AM := AM))} `{!ProtoMessage (Response (AM := AM))}
  `{!ProtoMessage (AppendEntriesRequest (AM := AM))} `{!ProtoMessage AppendEntriesResult}
  `{!ProtoMessage RequestVoteRequest} `{!ProtoMessage RequestVoteResult}.
Local Abbreviation X := (RaftVars Y).

(** A program that writes no database: its code preserves every property of
    the databases. *)
Definition leaves_databases {R} (p : prog X R) : Prop := ∀ P, safe (λ s, P (databases (vars s))) p.

(** Every host runs a Raft node or a program that writes no database, and the
    test writes none. *)
Record cluster (Main : ptr → prog X unit) (test : prog X unit) : Prop := {
  cluster_host r :
    leaves_databases (Main r) ∨
    ∃ sm config k, Main r = RaftSim.RunMain sm config ≫= k ∧ ∀ result, leaves_databases (k result);
  cluster_test : leaves_databases test;
}.

Variable MessageDifferencer_Equals : LogEntry → LogEntry → bool.
Local Abbreviation ProcessRequest := (RaftSim.ProcessRequest MessageDifferencer_Equals).

Lemma cluster_safe Main test P :
  cluster Main test → (∀ files files', storage_step files files' → P files → P files') →
  (∀ r, safe (λ s : sim X, P (databases (vars s))) (Main r)) ∧ safe (λ s : sim X, P (databases (vars s))) test.
Proof.
  intros [Hhost Htest] HP. split; [|apply Htest]. intros r.
  destruct (Hhost r) as [Hr|(sm & config & k & -> & Hk)]; [apply Hr|].
  apply safe_bind; [by apply storage_RunMain|]. intros result. apply Hk.
Qed.

(** The databases evolve by steps of the specification. *)
Lemma cluster_storage Main test x m1 m2 :
  cluster Main test →
  reaches Main ProcessRequest (boot x test) (Running m1) → reaches Main ProcessRequest m1 (Running m2) →
  rtc storage_step (databases (vars (state m1))) (databases (vars (state m2))).
Proof.
  intros Hc H1 H2. set (P := rtc storage_step (databases (vars (state m1)))).
  assert (HP : ∀ files files', storage_step files files' → P files → P files') by (intros; by eapply rtc_r).
  destruct (cluster_safe Main test P Hc HP) as [HMain Htest].
  refine (programs_invariant (λ s, P (databases (vars s))) Main ProcessRequest x test m1 m2 _ HMain _ Htest H1 _ H2);
    [apply storage_stable|intros; by apply storage_ProcessRequest|apply rtc_refl].
Qed.
End cluster.

(** ** The tests are clusters *)

Lemma RaftHost_cluster config :
  ∃ sm cfg k, RaftHost_Main config = RaftSim.RunMain sm cfg ≫= k ∧ ∀ result, leaves_databases (k result).
Proof. eexists _, _, _. split; [done|]. intros result P. storage_safe. Qed.

Lemma leaves_RaftClientHost nodes config : leaves_databases (RaftClientHost_Main nodes config).
Proof. intros P. storage_safe. Qed.

Lemma leaves_CrashSupervisor nodes pause : leaves_databases (CrashSupervisor_Main nodes pause).
Proof. intros P. storage_safe. Qed.

Lemma leaves_run_seeds count seed run :
  (∀ seed, leaves_databases (run seed)) → leaves_databases (run_seeds count seed run).
Proof.
  intros Hr P. revert seed. induction count as [|count IH]; intros seed; cbn [run_seeds]; [done|].
  apply safe_bind; [apply Hr|]. intros _. apply safe_bind; [storage_safe|]. intros []; [done|apply IH].
Qed.

Lemma RaftSimple_cluster count seed nodes clients duration :
  cluster (RaftSimple.Main nodes)
    (run_seeds count seed (λ seed, RaftSimple.RunSimpleTest seed nodes clients duration)).
Proof.
  split; [|apply leaves_run_seeds; intros ? ?; storage_safe]. intros r. unfold RaftSimple.Main.
  case_decide; [right; apply RaftHost_cluster|left; apply leaves_RaftClientHost].
Qed.

Lemma RaftHostCrash_cluster count seed nodes clients crashes duration :
  cluster (RaftHostCrash.Main nodes)
    (run_seeds count seed (λ seed, RaftHostCrash.RunTestWithCrashes seed nodes clients crashes duration)).
Proof.
  split; [|apply leaves_run_seeds; intros ? ?; storage_safe]. intros r. unfold RaftHostCrash.Main.
  case_decide; [right; apply RaftHost_cluster|left].
  case_decide; [apply leaves_RaftClientHost|apply leaves_CrashSupervisor].
Qed.

Lemma RaftCommitIndex_cluster duration : cluster RaftCommitIndex.Main (RaftCommitIndex.test duration).
Proof.
  split; [|intros ?; storage_safe]. intros r. unfold RaftCommitIndex.Main.
  case_decide; [right; apply RaftHost_cluster|left; intros ?; storage_safe].
Qed.

Lemma RaftFuzz_cluster config actions iteration_count :
  options_ok (RaftFuzz.world_config config) →
  cluster (RaftFuzz.Main config actions) (RaftFuzz.RunRaftTest config iteration_count).
Proof.
  intros Ho.
  assert (Hadd : ∀ P address i p options, safe (λ s : sim vars_type, P (databases (vars s)))
    (RaftFuzz.add_hosts address i p options)).
  { intros P address i p options. revert i p. induction options; intros; cbn [RaftFuzz.add_hosts]; storage_safe. }
  assert (Hperform : ∀ P actions hosts, safe (λ s : sim vars_type, P (databases (vars s)))
    (RaftFuzz.perform actions hosts)).
  { intros P. induction actions0 as [|a actions0 IH]; intros hosts; cbn [RaftFuzz.perform]; [done|].
    apply safe_bind; [storage_safe|]. intros l. apply IH. }
  split.
  - intros r. unfold RaftFuzz.Main. case_match; [right; apply RaftHost_cluster|left].
    case_match; [|intros P; apply Hperform]. case_match. apply leaves_RaftClientHost.
  - intros P. unfold RaftFuzz.RunRaftTest. apply safe_bind; [|intros _; do 2 (apply safe_bind; [apply Hadd|intros _])];
      storage_safe.
Qed.

(** [C14] Votes are durable: in a cluster of Raft nodes in the simulator,
    whatever the schedule, the network, crashes, restarts and pauses are, the
    databases of the nodes change only by the steps of the specification; so if
    the state database of a node has the term [t] at some moment, it has a term
    [t'] with [t ≤ t'] at every later one, and if [t' = t] a vote that was cast
    at the first moment is still the same. *)
Theorem votes_are_durable {AM : AnyMessage} {SM : IStateMachine} {Y : Type}
    `{!ProtoMessage (Request (AM := AM))} `{!ProtoMessage (Response (AM := AM))}
    `{!ProtoMessage (AppendEntriesRequest (AM := AM))} `{!ProtoMessage AppendEntriesResult}
    `{!ProtoMessage RequestVoteRequest} `{!ProtoMessage RequestVoteResult}
    Equals Main test (x : RaftVars Y) m1 m2 :
  cluster Main test →
  reaches Main (RaftSim.ProcessRequest Equals) (boot x test) (Running m1) →
  reaches Main (RaftSim.ProcessRequest Equals) m1 (Running m2) →
  rtc storage_step (databases (vars (state m1))) (databases (vars (state m2))) ∧
  ∀ h e d t, databases (vars (state m1)) !! h = Some (MkHostDatabase e (StateDb d)) → d !! "current_term" = Some t →
  ∃ e' d' t', databases (vars (state m2)) !! h = Some (MkHostDatabase e' (StateDb d')) ∧ e ≤ e' ∧
    d' !! "current_term" = Some t' ∧ t ≤ t' ∧
    (t' = t → ∀ v, d !! "voted_for" = Some v → d' !! "voted_for" = Some v).
Proof.
  intros Hc H1 H2. pose proof (cluster_storage Equals Main test x m1 m2 Hc H1 H2) as Hr. split; [done|].
  intros h e d t Hh Ht. destruct (storage_steps_votes _ _ _ _ _ Hr Hh) as (e' & d' & Hh' & He & Hle).
  destruct (Hle t Ht) as (t' & ? & ? & ?). by exists e', d', t'.
Qed.
