(* ===== verification/RaftSimRefine.v ===== *)
(** * The two models of the node agree

    RaftNode.v has the methods of node.cpp as functions on the members of a node,
    RaftSim.v as code of fibers on the simulated runtime. Here the code on the
    runtime is shown to refine the functions: where the members and databases of
    an object represent a node, the code returns what the function returns and
    ends in a state that represents the resulting node. This is a check of the
    two models against each other, for code that is not interrupted at the calls
    of the database. *)

From S2P Require Import Prelude.
From S2P Require Import Result.
From S2P Require Import RtTypes.
From S2P Require Import KVInterface.
From S2P Require Import StateMachine.
From S2P Require Import RaftNode.
From S2P Require Import SimFibers.
From S2P Require Import SimRuntime.
From S2P Require Import SimFibersProps.
From S2P Require Import SimClients.
From S2P Require Import RaftSim.
From S2P Require Import RaftSimPrograms.
From S2P Require Import RaftSimStorage.

Local Open Scope Z_scope.

Section refine.
Context {AM : AnyMessage} {SM : IStateMachine} {Y : Type}.
Local Abbreviation X := (RaftVars Y).
Variable MessageDifferencer_Equals : LogEntry → LogEntry → bool.

(** Every pending request points to a frame. *)
Definition frames_ok (n : RaftNode) : Prop :=
  ∀ index id, pending_requests n !! index = Some id → is_Some (frames n !! id).

Record members (o : NodeObject) (n : RaftNode) : Prop := {
  same_state : o_state o = RaftNode.state n;
  same_config : o_config o = RaftNode.config n;
  same_commit : o_commit_index o = commit_index n;
  same_match : o_match_index o = match_index n;
  same_next : o_next_index o = next_index n;
  same_start : o_current_term_start_index o = current_term_start_index n;
  same_pending : o_pending_log o = pending_log n;
  same_rsm : o_rsm o = rsm n;
}.

(** The object at [this] and its databases are the node [n]; the stop sources
    and the waiting requests are those of the runtime. *)
Definition represents (this : ptr) (n : RaftNode) (v : X) : Prop :=
  ∃ o es el, nodes v !! this = Some o ∧ members o n ∧
    databases v !! o_raft_state o = Some (MkHostDatabase es (StateDb (raft_state n))) ∧
    databases v !! o_raft_log o = Some (MkHostDatabase el (LogDb (raft_log n))).

(** The code has the result and the effects [r] on a node [n]. *)
Definition refines {A} (this : ptr) (n : RaftNode) (m : M X A) (r : outcome (A * RaftNode)) : Prop :=
  ∀ f s a s', frames_ok n → represents this n (vars s) → drawn (m f s) (Done (a, s')) →
  ∃ n', r = Done (a, n') ∧ frames_ok n' ∧ represents this n' (vars s').

(** [h] for code that returns nothing. *)
Definition effect (r : outcome RaftNode) : outcome (unit * RaftNode) := n ← r; Done ((), n).

(** ** Symbolic execution *)

Section rules.
Context {A B : Type} (this : ptr) (n : RaftNode).

Lemma refines_ret (a : A) r : r = Done (a, n) → refines this n (mret a) r.
Proof. intros -> f s b s' Hok Hr Hd. code_inv. by exists n. Qed.

Lemma refines_bind (m : M X A) (k : A → M X B) r0 r :
  refines this n m r0 → (∀ a n', r0 = Done (a, n') → refines this n' (k a) r) → refines this n (m ≫= k) r.
Proof.
  intros Hm Hk f s b s' Hok Hr Hd. apply M_bind_drawn in Hd as (a & s1 & Hd1 & Hd2).
  destruct (Hm _ _ _ _ Hok Hr Hd1) as (n1 & -> & Hok1 & Hr1). exact (Hk _ _ eq_refl _ _ _ _ Hok1 Hr1 Hd2).
Qed.

Lemma refines_seq (m : M X unit) (k : unit → M X B) r0 r :
  refines this n m (effect r0) → (∀ n', r0 = Done n' → refines this n' (k ()) r) → refines this n (m ≫= k) r.
Proof.
  intros Hm Hk f s b s' Hok Hr Hd. apply M_bind_drawn in Hd as ([] & s1 & Hd1 & Hd2).
  destruct (Hm _ _ _ _ Hok Hr Hd1) as (n1 & Hr1 & Hok1 & Hrep).
  destruct r0 as [n1'| |]; simplify_eq/=. exact (Hk _ eq_refl _ _ _ _ Hok1 Hrep Hd2).
Qed.

Lemma refines_lift (o : outcome A) (k : A → M X B) r :
  (∀ a, o = Done a → refines this n (k a) r) → refines this n (lift o ≫= k) r.
Proof. intros Hk f s b s' Hok Hr Hd. code_inv. by eapply Hk. Qed.

Lemma refines_object (k : NodeObject → M X B) r :
  (∀ o, members o n → refines this n (k o) r) → refines this n (object nodes this ≫= k) r.
Proof.
  intros Hk f s b s' Hok Hr Hd. unfold object in Hd. code_inv.
  pose proof Hr as (o & es & el & Ho & Hm & _). simplify_eq. by eapply Hk.
Qed.

(** Code that leaves the node alone. *)
Lemma refines_frame (m : M X A) (k : A → M X B) r :
  preserves (λ s, represents this n (vars s)) m → (∀ a, refines this n (k a) r) → refines this n (m ≫= k) r.
Proof.
  intros Hm Hk f s b s' Hok Hr Hd. apply M_bind_drawn in Hd as (a & s1 & Hd1 & Hd2).
  apply (Hk a f s1 b s' Hok); [|done]. by apply (Hm f s a s1).
Qed.

Lemma represents_runtime : code_preserves (λ s : sim X, represents this n (vars s)).
Proof. apply vars_runtime. Qed.

Lemma refines_state_database (k : gmap string Z → M X B) r :
  refines this n (k (raft_state n)) r → refines this n (state_database this ≫= k) r.
Proof.
  intros Hk f s b s' Hok Hr Hd. code_inv.
  match goal with H : drawn (state_database _ _ _) _ |- _ => apply state_database_drawn in H as (-> & o & e & Ho & Hf) end.
  pose proof Hr as (o' & es & el & Ho' & Hm & Hs & Hl). simplify_eq. by eapply Hk.
Qed.

Lemma refines_log_database (k : gmap Z LogEntry → M X B) r :
  refines this n (k (raft_log n)) r → refines this n (log_database this ≫= k) r.
Proof.
  intros Hk f s b s' Hok Hr Hd. code_inv.
  match goal with H : drawn (log_database _ _ _) _ |- _ => apply log_database_drawn in H as (-> & o & e & Ho & Hf) end.
  pose proof Hr as (o' & es & el & Ho' & Hm & Hs & Hl). simplify_eq. by eapply Hk.
Qed.

Lemma refines_write_state d (k : unit → M X B) r :
  refines this (set_raft_state d n) (k ()) r → refines this n (write_state this d ≫= k) r.
Proof.
  intros Hk f s b s' Hok (o & es & el & Ho & Hm & Hs & Hl) Hd.
  apply M_bind_drawn in Hd as ([] & s1 & Hw & Hd). eapply write_state_drawn in Hw; [|done..]. subst s1.
  eapply Hk; [done| |done]. exists o, es, el. split_and!; simpl; [done|by destruct Hm|by rewrite lookup_insert_eq|].
  rewrite lookup_insert_ne; [done|]. intros Heq. rewrite Heq in Hs. by simplify_eq.
Qed.

Lemma refines_write_log l (k : unit → M X B) r :
  refines this (set_raft_log l n) (k ()) r → refines this n (write_log this l ≫= k) r.
Proof.
  intros Hk f s b s' Hok (o & es & el & Ho & Hm & Hs & Hl) Hd.
  apply M_bind_drawn in Hd as ([] & s1 & Hw & Hd). eapply write_log_drawn in Hw; [|done..]. subst s1.
  eapply Hk; [done| |done]. exists o, es, el. split_and!; simpl; [done|by destruct Hm| |by rewrite lookup_insert_eq].
  rewrite lookup_insert_ne; [done|]. intros Heq. rewrite Heq in Hl. by simplify_eq.
Qed.

(** An assignment of members. *)
Lemma refines_update g n' (k : unit → M X B) r :
  (∀ o, members o n → members (g o) n' ∧ o_raft_state (g o) = o_raft_state o ∧ o_raft_log (g o) = o_raft_log o) →
  raft_state n' = raft_state n → raft_log n' = raft_log n → (frames_ok n → frames_ok n') →
  refines this n' (k ()) r → refines this n (update_node this g ≫= k) r.
Proof.
  intros Hg Hs' Hl' Hok' Hk f s b s' Hok (o & es & el & Ho & Hm & Hs & Hl) Hd.
  apply M_bind_drawn in Hd as (u & s1 & Hw & Hd). unfold update_node, object, set in Hw. code_inv. simplify_eq. destruct (Hg o Hm) as (Hm' & H1 & H2). eapply Hk; [by apply Hok'| |done].
  exists (g o), es, el. simpl. rewrite lookup_insert_eq, H1, H2, Hs', Hl'. done.
Qed.

Lemma refines_frames (m : M X A) r : (frames_ok n → refines this n m r) → refines this n m r.
Proof. intros Hm f s a s' Hok. by apply Hm. Qed.

(** Stop sources and frames are not represented. *)
Lemma refines_same n' (m : M X A) r :
  (∀ o, members o n → members o n') → raft_state n' = raft_state n → raft_log n' = raft_log n →
  (frames_ok n → frames_ok n') → refines this n' m r → refines this n m r.
Proof.
  intros Hm Hs Hl Hok' Hn' f s a s' Hok (o & es & el & Ho & Hmo & Hso & Hlo) Hd. apply (Hn' f s a s'); [auto| |done].
  exists o, es, el. rewrite Hs, Hl. auto.
Qed.

Lemma refines_ret_bind (a : A) (k : A → M X B) r : refines this n (k a) r → refines this n (mret a ≫= k) r.
Proof. intros Hk f s b s' Hok Hr Hd. apply (Hk f s b s' Hok Hr). exact Hd. Qed.

Lemma refines_assoc {C} (m : M X C) (k : C → M X A) (k' : A → M X B) r :
  refines this n (m ≫= λ c, k c ≫= k') r → refines this n ((m ≫= k) ≫= k') r.
Proof.
  intros Hm f s b s' Hok Hr Hd. apply (Hm f s b s' Hok Hr).
  apply M_bind_drawn in Hd as (a & s1 & Hd & Hk'). apply M_bind_drawn in Hd as (c & s0 & Hd & Hk).
  unfold mbind, M_bind. apply drawn_bind. eexists. split; [exact Hd|]. apply drawn_bind. eexists. split; [exact Hk|done].
Qed.

(** The end of a block. *)
Lemma refines_end (m : M X A) r : refines this n (m ≫= mret) r → refines this n m r.
Proof.
  intros Hm f s a s' Hok Hr Hd. apply (Hm f s a s' Hok Hr). unfold mbind, M_bind. apply drawn_bind.
  eexists. split; [exact Hd|]. constructor.
Qed.
End rules.

(** What [view] returns. *)
Definition erase (n : RaftNode) : RaftNode :=
  MkRaftNode (MkStopSource 0 false) (MkStopSource 0 false) (RaftNode.state n) (RaftNode.config n) (MkStopSource 0 false)
    (MkStopSource 0 false) (raft_state n) (raft_log n) (commit_index n) (match_index n) (next_index n)
    (current_term_start_index n) ∅ (pending_log n) (rsm n) ∅ ∅ 0.

Lemma refines_view {B} this n (k : RaftNode → M X B) r :
  refines this n (k (erase n)) r → refines this n (view this ≫= k) r.
Proof.
  intros Hk f s b s' Hok Hr Hd. unfold view, object in Hd. code_inv.
  repeat match goal with
  | H : drawn (state_database _ _ _) _ |- _ => apply state_database_drawn in H as (-> & ? & ? & ? & ?)
  | H : drawn (log_database _ _ _) _ |- _ => apply log_database_drawn in H as (-> & ? & ? & ? & ?)
  end.
  pose proof Hr as (o & es & el & Ho & [E1 E2 E3 E4 E5 E6 E7 E8] & Hs & Hl). simplify_eq.
  rewrite E1, E2, E3, E4, E5, E6, E7, E8 in *. by eapply Hk.
Qed.

Lemma refines_GetCurrentTerm {B} this n (k : Z → M X B) r :
  (∀ t, RaftNode.GetCurrentTerm n = Done t → refines this n (k t) r) →
  refines this n (RaftSim.GetCurrentTerm this ≫= k) r.
Proof.
  intros Hk. unfold RaftSim.GetCurrentTerm. eapply (refines_bind _ _ _ _ (t ← RaftNode.GetCurrentTerm n; Done (t, n))).
  - apply refines_state_database, refines_end, refines_lift. intros t Ht. apply refines_ret.
    unfold RaftNode.GetCurrentTerm. by rewrite Ht.
  - intros t n' Ht. destruct (RaftNode.GetCurrentTerm n) eqn:?; simplify_eq/=. by apply Hk.
Qed.

(** The members of the object are those of the node. *)
Ltac same_members :=
  match goal with H : members ?o ?n |- _ =>
    destruct H as [E1 E2 E3 E4 E5 E6 E7 E8]; rewrite ?E1, ?E2, ?E3, ?E4, ?E5, ?E6, ?E7, ?E8; clear E1 E2 E3 E4 E5 E6 E7 E8 end.

(** The function does what the code did. *)
Ltac same_result :=
  unfold effect; repeat (match goal with H : ?o = Done _ |- context [?o] => rewrite H end; simpl).

(** One step of the execution. *)
Ltac refine_step :=
  lazymatch goal with
  | |- refines _ _ ((_ ≫= _) ≫= _) _ => apply refines_assoc
  | |- refines _ _ (mret _ ≫= _) _ => apply refines_ret_bind
  | |- refines _ _ (mret _) _ => apply refines_ret
  | |- refines _ _ (RaftSim.GetCurrentTerm _ ≫= _) _ => apply refines_GetCurrentTerm; intros ? ?
  | |- refines _ _ (object nodes _ ≫= _) _ => apply refines_object; intros ? ?; same_members
  | |- refines _ _ (lift _ ≫= _) _ => apply refines_lift; intros ? ?
  | |- refines _ _ (M_verify _ _ ≫= _) _ => apply refines_lift; intros ? ?
  | |- refines _ _ (view _ ≫= _) _ => apply refines_view
  | |- refines _ _ (state_database _ ≫= _) _ => apply refines_state_database
  | |- refines _ _ (log_database _ ≫= _) _ => apply refines_log_database
  | |- refines _ _ (write_state _ _ ≫= _) _ => apply refines_write_state
  | |- refines _ _ (write_log _ _ ≫= _) _ => apply refines_write_log
  | |- refines _ _ (StopSource_Stop _ ≫= _) _ => apply refines_frame; [apply rp_stop, represents_runtime|intros ?]
  | |- refines _ _ (StopSource_assign _ ≫= _) _ => apply refines_frame; [apply rp_assign, represents_runtime|intros ?]
  | |- refines _ _ (signal_event _ ≫= _) _ => apply refines_frame; [apply rp_signal_event, represents_runtime|intros ?]
  | |- refines _ _ (object _ _ ≫= _) _ => apply refines_frame; [apply preserves_deref|intros ?]
  | |- refines _ _ (set _ ≫= _) _ => apply refines_frame; [by apply preserves_modify|intros ?]
  | |- refines _ _ (allocate ≫= _) _ => apply refines_frame; [apply rp_allocate, represents_runtime|intros ?]
  end.

Lemma refines_UpdateTerm this n t v : refines this n (RaftSim.UpdateTerm this t v) (effect (RaftNode.UpdateTerm t v n)).
Proof.
  unfold RaftSim.UpdateTerm, effect, RaftNode.UpdateTerm. repeat refine_step. apply refines_end. repeat refine_step.
  same_result. done.
Qed.

(** Assignments to members. *)
Ltac refine_update n' :=
  apply (refines_update _ _ _ n'); [intros ? []; repeat split; done|done..|].

Lemma refines_BecomeCandidate this n :
  refines this n (RaftSim.BecomeCandidate this) (effect (RaftNode.BecomeCandidate n)).
Proof.
  unfold RaftSim.BecomeCandidate. repeat refine_step. apply refines_end.
  refine_update (set_state Candidate (set_reset_election_timeout (stop (reset_election_timeout n)) n)).
  apply refines_ret. unfold RaftNode.BecomeCandidate. by same_result.
Qed.

Lemma Stop_leader_same n :
  (∀ o, members o n → members o (Stop_leader n)) ∧ raft_state (Stop_leader n) = raft_state n ∧
  raft_log (Stop_leader n) = raft_log n ∧ (frames_ok n → frames_ok (Stop_leader n)).
Proof.
  unfold Stop_leader. case_decide; (split_and!; [intros o []; repeat split; done|done..|]);
    intros Hok index id Hp; simpl in *; rewrite lookup_fmap; destruct (Hok index id Hp) as [f ->]; by eexists.
Qed.

Lemma refines_BecomeFollower this n :
  refines this n (RaftSim.BecomeFollower this) (effect (RaftNode.BecomeFollower n)).
Proof.
  unfold RaftSim.BecomeFollower. repeat refine_step. unfold RaftNode.BecomeFollower.
  destruct (RaftNode.state n) eqn:Hst; [|simplify_eq|]; repeat refine_step; apply refines_end.
  - destruct (Stop_leader_same n) as (Hm & Hs & Hl & Hok). apply (refines_same _ _ (Stop_leader n)); [done..|].
    refine_update (set_state Follower (Stop_leader n)). apply refines_ret. by same_result.
  - refine_update (set_state Follower (set_stop_election (stop (stop_election n)) n)). apply refines_ret. by same_result.
Qed.

Lemma refines_become_follower_if_necessary this n :
  refines this n (become_follower_if_necessary this)
    (effect (if decide (RaftNode.state n ≠ Follower) then RaftNode.BecomeFollower n else Done n)).
Proof.
  unfold become_follower_if_necessary. refine_step. case_decide; [apply refines_BecomeFollower|by apply refines_ret].
Qed.

Lemma refines_GetSavedLogSize {B} this n (k : Z → M X B) r :
  refines this n (k (RaftNode.GetSavedLogSize n)) r → refines this n (RaftSim.GetSavedLogSize this ≫= k) r.
Proof.
  intros Hk. eapply (refines_bind _ _ _ _ (Done (RaftNode.GetSavedLogSize n, n))).
  - unfold RaftSim.GetSavedLogSize. refine_step. by apply refines_ret.
  - by intros a n' [= <- <-].
Qed.

Lemma refines_BecomeLeader this n :
  refines this n (RaftSim.BecomeLeader this) (effect (RaftNode.BecomeLeader n)).
Proof.
  unfold RaftSim.BecomeLeader. repeat refine_step. apply refines_GetSavedLogSize. unfold RaftNode.BecomeLeader.
  same_result. set (n' := set_state Leader _). refine_update (set_state (RaftNode.state n) n'). repeat refine_step.
  apply refines_end. refine_update n'. by apply refines_ret.
Qed.

Lemma refines_for_each {A} this (xs : list A) (body : A → M X unit) h n :
  (∀ x n, refines this n (body x) (effect (h x n))) →
  refines this n (M_for_each xs body) (effect (for_each xs h n)).
Proof.
  intros Hb. revert n. induction xs as [|x xs IH]; intros n; simpl; [by apply refines_ret|].
  eapply refines_seq; [apply Hb|]. intros n' Hn'. rewrite Hn'. apply IH.
Qed.

(** ** Handlers *)

Lemma refines_RequestVote this n request :
  refines this n (RequestVote_code this request) (RaftNode.RequestVote request n).
Proof.
  unfold RequestVote_code, RaftNode.RequestVote. refine_step. same_result. case_decide; [by apply refines_ret|].
  eapply (refines_seq _ _ _ _ (if decide (t < rv_term request) then
         n ← RaftNode.UpdateTerm (rv_term request) None n;
         if decide (RaftNode.state n ≠ Follower) then RaftNode.BecomeFollower n else Done n
       else Done n)).
  { case_decide; [|by apply refines_ret]. eapply refines_seq; [apply refines_UpdateTerm|]. intros n' ->.
    apply refines_become_follower_if_necessary. }
  intros n' ->. simpl. clear. refine_step.
  change (GetVotedFor (erase n')) with (GetVotedFor n'). case_decide; [by apply refines_ret|].
  case_decide; [by apply refines_ret|].
  change (up_to_date request (erase n')) with (up_to_date request n'). fold (up_to_date request n').
  destruct (up_to_date request n').
  - refine_step. by apply refines_ret.
  - by apply refines_ret.
Qed.

Lemma check_committed_erase request xs n n0 :
  for_each xs (check_committed MessageDifferencer_Equals request) (erase n) = Done n0 →
  for_each xs (check_committed MessageDifferencer_Equals request) n = Done n.
Proof.
  induction xs as [|x xs IH]; simpl; [done|]. unfold check_committed. simpl.
  destruct (GetValue (kv_Get (raft_log n) x)) as [e| |]; simpl; [|done..].
  destruct (vec_get _ _) as [e'| |]; simpl; [|done..]. destruct (verify _ _); simpl; [|done..]. exact IH.
Qed.

Lemma refines_follower_apply this index n :
  refines this n (RaftSim.follower_apply this index) (effect (RaftNode.follower_apply index n)).
Proof.
  unfold RaftSim.follower_apply, RaftNode.follower_apply. repeat refine_step. apply refines_end.
  same_result. apply (refines_update _ _ _ (set_rsm (ExactlyOnce_Apply (entry_request a) (rsm n)).2 n));
    [|done..|by apply refines_ret]. intros o []. repeat split; simpl; congruence.
Qed.

Lemma refines_AppendEntries_store this n request :
  refines this n (RaftSim.AppendEntries_store MessageDifferencer_Equals this request)
    (effect (RaftNode.AppendEntries_store MessageDifferencer_Equals request n)).
Proof.
  unfold RaftSim.AppendEntries_store, RaftNode.AppendEntries_store. refine_step. apply refines_lift. intros n0 Hc.
  simpl in Hc. rewrite (check_committed_erase _ _ _ _ Hc). clear n0 Hc. simpl. refine_step.
  apply refines_GetSavedLogSize. set (n1 := set_raft_log _ n). cbv zeta.
  set (c := commit_index n `max` _).
  eapply refines_seq; [apply (refines_for_each _ _ _ RaftNode.follower_apply); intros; apply refines_follower_apply|]. intros n' ->. simpl.
  apply refines_end. refine_update (set_commit_index c n'). by apply refines_ret.
Qed.

Lemma become_follower_term (n n' : RaftNode) :
  (if decide (RaftNode.state n ≠ Follower) then RaftNode.BecomeFollower n else Done n) = Done n' →
  RaftNode.GetCurrentTerm n' = RaftNode.GetCurrentTerm n.
Proof.
  case_decide; [|by intros [= ->]]. unfold RaftNode.BecomeFollower, RaftNode.GetCurrentTerm.
  destruct (verify _ _); [|done..]. intros [= <-]. simpl. destruct (RaftNode.state n); [|done..].
  by destruct (Stop_leader_same n) as (_ & -> & _).
Qed.

Lemma refines_AppendEntries this n request :
  refines this n (AppendEntries_code MessageDifferencer_Equals this request)
    (RaftNode.AppendEntries MessageDifferencer_Equals request n).
Proof.
  unfold AppendEntries_code, RaftNode.AppendEntries. refine_step. same_result. case_decide; [by apply refines_ret|].
  refine_step. refine_step. unfold AppendEntries_follow. set (n1 := set_reset_election_timeout _ n).
  apply (refines_same _ _ n1); [by intros ? []|done..|].
  match goal with H : RaftNode.GetCurrentTerm n = _ |- _ =>
    change (RaftNode.GetCurrentTerm n) with (RaftNode.GetCurrentTerm n1) in H; rename H into Ht end.
  rewrite Ht. simpl.
  rewrite (decide_ext (t ≤ ae_term request ∧ RaftNode.state n1 ≠ Follower) (RaftNode.state n1 ≠ Follower))
    by (split; [tauto|split; [lia|done]]).
  eapply refines_seq; [apply refines_become_follower_if_necessary|]. intros n2 Hn2.
  pose proof (become_follower_term _ _ Hn2) as Ht2. rewrite Hn2. clear Hn2. simpl. rewrite Ht2, Ht. simpl.
  eapply (refines_seq _ _ _ _ (if decide (t < ae_term request) then RaftNode.UpdateTerm (ae_term request) None n2
    else Done n2)); [case_decide; [apply refines_UpdateTerm|by apply refines_ret]|].
  intros n3 ->. simpl. refine_step. apply refines_lift. intros b Hb.
  change (AppendEntries_matches request (erase n3)) with (AppendEntries_matches request n3) in Hb. rewrite Hb. simpl.
  destruct b; simpl; [|by apply refines_ret].
  eapply refines_seq; [apply refines_AppendEntries_store|]. intros n4 ->. by apply refines_ret.
Qed.

Lemma refines_Execute_index this n :
  refines this n (Execute_index this)
    (if decide (RaftNode.state n ≠ Leader) then Done (None, n)
     else index ← vec_get (next_index n) (node_id (RaftNode.config n));
          next ← vec_set (next_index n) (node_id (RaftNode.config n)) (index +64 1);
          Done (Some index, set_next_index next n)).
Proof.
  unfold Execute_index. refine_step. case_decide; [by apply refines_ret|]. repeat refine_step.
  same_result. refine_update (set_next_index a0 n). by apply refines_ret.
Qed.

(** ** Commit index *)

Lemma find_commit_erase fuel n index : find_commit fuel (erase n) index = find_commit fuel n index.
Proof.
  revert index. induction fuel as [|fuel IH]; intros index; [done|]. cbn [find_commit].
  change (match_count (erase n) index) with (match_count n index). destruct (match_count n index); [|done..]. simpl.
  change (MajorityCount (erase n)) with (MajorityCount n). by rewrite IH.
Qed.

(** A committed entry wakes its frame. *)
Lemma apply_committed_frames index result n :
  frames_ok n → ∃ fs,
  match pending_requests n !! index with
  | None => Done n
  | Some ptr =>
      match frames n !! ptr with
      | None => Undefined "dangling pending request"
      | Some f => Done (set_frames (<[ptr := MkFrame (new_log_index f) (frame_term f) (finish_guard f) true result]>
                    (frames n)) n)
      end
  end = Done (set_frames fs n) ∧ frames_ok (set_frames fs n).
Proof.
  intros Hok. destruct (pending_requests n !! index) as [id|] eqn:Hp; [|exists (frames n); by destruct n].
  destruct (Hok index id Hp) as [f Hf]. rewrite Hf. eexists. split; [done|]. intros i j Hij. simpl.
  rewrite lookup_insert_is_Some'. right. by apply (Hok i j).
Qed.

Lemma refines_apply_committed this index n :
  refines this n (RaftSim.apply_committed this index) (effect (RaftNode.apply_committed index n)).
Proof.
  unfold RaftSim.apply_committed, RaftNode.apply_committed. repeat refine_step. same_result.
  destruct (ExactlyOnce_Apply _ _) as [result rsm'] eqn:He.
  refine_update (set_rsm rsm' n).
  apply refines_frames. intros Hok. destruct (apply_committed_frames index result (set_rsm rsm' n) Hok) as (fs & Hfs & Hok').
  apply (refines_same _ _ (set_frames fs (set_rsm rsm' n))); [by intros ? []|done..|].
  destruct (o_pending_requests o !! index); repeat refine_step; [apply refines_end; repeat refine_step|];
    simpl in Hfs; rewrite Hfs; by repeat match goal with u : unit |- _ => destruct u end.
Qed.

Lemma refines_UpdateCommitIndex this n :
  refines this n (RaftSim.UpdateCommitIndex this) (effect (RaftNode.UpdateCommitIndex n)).
Proof.
  unfold RaftSim.UpdateCommitIndex, RaftNode.UpdateCommitIndex. refine_step. apply refines_lift. intros c Hc.
  rewrite find_commit_erase in Hc. change (RaftNode.GetSavedLogSize (erase n)) with (RaftNode.GetSavedLogSize n) in Hc.
  simpl in Hc. same_result.
  eapply refines_seq; [apply (refines_for_each _ _ _ RaftNode.apply_committed); intros; apply refines_apply_committed|].
  intros n' ->. simpl. apply refines_end. refine_update (set_commit_index c n'). by apply refines_ret.
Qed.


(** ** Leader *)

Lemma refines_guard {A} this id n (m : M X A) r : refines this (add_heartbeat_guard id n) m r → refines this n m r.
Proof.
  apply refines_same; unfold add_heartbeat_guard; destruct (stopped _); try done; by intros ? [].
Qed.

Lemma refines_NodeSession_response this n id request result :
  refines this n (NodeSession_response this id request result) (LeaderNodeSession_response id request result n).
Proof.
  unfold NodeSession_response, LeaderNodeSession_response. refine_step. case_decide; [by apply refines_ret|].
  destruct result as [response|e]; [|by apply refines_ret]. refine_step. same_result. case_decide.
  - eapply refines_seq; [apply refines_UpdateTerm|]. intros n1 ->. simpl.
    eapply refines_seq; [apply refines_become_follower_if_necessary|]. intros n2 ->. by apply refines_ret.
  - refine_step. same_result. destruct (negb (aer_success response)).
    + repeat refine_step. same_result. match goal with |- context [set_next_index ?v n] => refine_update (set_next_index v n) end.
      by apply refines_ret.
    + refine_step. refine_step. same_result. set (n1 := set_next_index _ _). refine_update n1.
      eapply refines_seq; [apply refines_UpdateCommitIndex|]. intros n2 ->. simpl. do 3 refine_step. same_result.
      case_decide; [|by apply refines_ret]. by apply (refines_guard _ id), refines_ret.
Qed.

(** An iteration of the main session, if it is not suspended by a pause. *)
Lemma refines_MainSession this n :
  refines this n (batch ← pending_write this; MainSession_write this batch;; UpdateCommitIndex this)
    (effect (LeaderMainSession_iteration n)).
Proof.
  unfold pending_write, MainSession_write, LeaderMainSession_iteration. 
  eapply (refines_bind _ _ _ _ (base ← vec_get (match_index n) (node_id (RaftNode.config n));
    Done (pending_batch base (pending_log n), n))).
  { repeat refine_step. by same_result. }
  intros batch n1 Hb. destruct (vec_get _ _) as [base| |] eqn:Hbase; simplify_eq/=.
  eapply (refines_seq _ _ _ _ (
    m ← vec_set (match_index n1) (node_id (RaftNode.config n1)) (base +64 Z.of_nat (length (pending_log n1)));
    Done (set_pending_log [] (set_match_index m
      (set_raft_log (kv_Write (pending_batch base (pending_log n1)) (raft_log n1)) n1))))).
  { repeat refine_step. apply refines_end. simpl in *. rewrite Hbase in *. simplify_eq. same_result.
    set (n2 := set_pending_log _ _). refine_update n2. by apply refines_ret. }
  intros n2 Hn2. simpl in Hn2. destruct (vec_set _ _ _) eqn:Hm; simplify_eq/=.
  apply refines_end. eapply refines_seq; [apply refines_UpdateCommitIndex|]. intros n3 ->. simpl.
  apply (refines_guard _ (node_id (RaftNode.config n1))), refines_ret. done.
Qed.

(** ** Candidate *)

Lemma refines_StartCandidate_request this n :
  refines this n ('(_, request) ← StartCandidate_request this; mret request) (StartCandidate_begin n).
Proof.
  unfold StartCandidate_request, StartCandidate_begin.
  set (n1 := set_stop_election _ _). apply (refines_same _ _ n1); [by intros ? []|done..|].
  repeat refine_step. same_result. eapply refines_seq; [apply refines_UpdateTerm|].
  intros n2 Hn2. assert (Hc : RaftNode.config n2 = RaftNode.config n).
  { unfold RaftNode.UpdateTerm in Hn2. destruct (RaftNode.GetCurrentTerm n1); [|done..]. simpl in Hn2.
    destruct (verify _ _); [|done..]. by simplify_eq/=. }
  change (RaftNode.config n1) with (RaftNode.config n). 
  rewrite Hn2. simpl. repeat refine_step. same_result. by rewrite Hc.
Qed.

(** The counter of the votes is the one of the function. *)
Definition counted (votes_count : ptr) (votes : nat) (v : X) : Prop := votes_counts v !! votes_count = Some votes.

Ltac counted_code :=
  repeat first
    [ progress split_code ltac:(first [apply rp_stop, vars_runtime | apply rp_assign, vars_runtime | by apply preserves_modify])
    | match goal with |- preserves _ ?m => unfold_head m end ].

Lemma counted_UpdateTerm this p votes t v : preserves (λ s : sim X, counted p votes (vars s)) (UpdateTerm this t v).
Proof. counted_code. Qed.
Lemma counted_become_follower this p votes :
  preserves (λ s : sim X, counted p votes (vars s)) (become_follower_if_necessary this).
Proof. counted_code. Qed.
Lemma counted_BecomeLeader this p votes : preserves (λ s : sim X, counted p votes (vars s)) (BecomeLeader this).
Proof. counted_code. Qed.

Lemma term_drawn this n f (s : sim X) t s' :
  represents this n (vars s) → drawn (RaftSim.GetCurrentTerm this f s) (Done (t, s')) →
  s' = s ∧ RaftNode.GetCurrentTerm n = Done t.
Proof.
  intros (o & es & el & Ho & Hm & Hs & Hl) Hd. unfold RaftSim.GetCurrentTerm in Hd. code_inv.
  match goal with H : drawn (state_database _ _ _) _ |- _ => apply state_database_drawn in H as (-> & o' & e & Ho' & Hf) end.
  by simplify_eq.
Qed.

(** A step of code that refines a function and keeps the counter. *)
Lemma refines_counted this n (m : M X unit) r p votes f s a s' :
  refines this n m (effect r) → preserves (λ s, counted p votes (vars s)) m →
  frames_ok n → represents this n (vars s) → counted p votes (vars s) → drawn (m f s) (Done (a, s')) →
  ∃ n', r = Done n' ∧ frames_ok n' ∧ represents this n' (vars s') ∧ counted p votes (vars s').
Proof.
  intros Hm Hp Hok Hr Hc Hd. destruct (Hm _ _ _ _ Hok Hr Hd) as (n' & Hn' & Hok' & Hr').
  destruct r as [n1| |]; simplify_eq/=. exists n'. split_and!; [done..|]. by eapply Hp.
Qed.

(** Code that refines a function of the node and of the counter. *)
Definition refines_counter (this : ptr) (n : RaftNode) (p : ptr) (votes : nat) (m : M X unit)
    (r : outcome (nat * RaftNode)) : Prop :=
  ∀ f s a s', frames_ok n → represents this n (vars s) → counted p votes (vars s) → drawn (m f s) (Done (a, s')) →
  ∃ votes' n', r = Done (votes', n') ∧ frames_ok n' ∧ represents this n' (vars s') ∧ counted p votes' (vars s').

Lemma refines_vote_received this n p result votes :
  refines_counter this n p votes (vote_received this p result) (StartCandidate_vote result votes n).
Proof.
  intros f s a s' Hok Hr Hc Hd. unfold vote_received in Hd. unfold StartCandidate_vote. destruct result as [r|e];
    [|code_inv; by exists votes, n].
  apply M_bind_drawn in Hd as (t & s1 & Ht & Hd). destruct (term_drawn _ _ _ _ _ _ Hr Ht) as [-> Hterm].
  rewrite Hterm. simpl. case_decide.
  { apply M_bind_drawn in Hd as (u & s1 & Hu & Hd).
    destruct (refines_counted _ _ _ _ _ _ _ _ _ _ (refines_UpdateTerm _ _ _ _) (counted_UpdateTerm _ p votes _ _) Hok Hr Hc Hu)
      as (n1 & -> & Hok1 & Hr1 & Hc1). simpl.
    destruct (refines_counted _ _ _ _ _ _ _ _ _ _ (refines_become_follower_if_necessary _ _)
      (counted_become_follower _ p votes) Hok1 Hr1 Hc1 Hd) as (n2 & -> & Hok2 & Hr2 & Hc2). by exists votes, n2. }
  destruct (negb (rvr_vote_granted r)); [code_inv; by exists votes, n|].
  unfold object, set in Hd. apply M_bind_drawn in Hd as (count & s1 & Hv & Hd). apply deref_drawn in Hv as [Hv ->].
  unfold counted in Hc. simplify_eq.
  apply M_bind_drawn in Hd as (u & s1 & Hs & Hd). code_inv.
  all: set (s1 := with_vars _ s) in *.
  all: assert (Hc1 : counted p (S votes) (vars s1)) by (unfold counted; simpl; by rewrite lookup_insert_eq).
  all: pose proof Hr as (o & es & el & Ho & [Hst Hcf _ _ _ _ _ _] & _); simpl in *; simplify_eq.
  all: rewrite Hst, Hcf in *; fold (nodes_count n) in *; fold (MajorityCount n) in *.
  - rewrite decide_True by done.
    match goal with H : drawn (BecomeLeader _ _ _) _ |- _ =>
      destruct (refines_counted _ _ _ _ _ _ _ _ _ _ (refines_BecomeLeader _ _) (counted_BecomeLeader _ p (S votes)) Hok
        (Hr : represents this n (vars s1)) Hc1 H) as (n2 & -> & Hok2 & Hr2 & Hc2) end.
    by exists (S votes), n2.
  - rewrite decide_False by done. by exists (S votes), n.
Qed.
End refine.

(** The two models of the node agree: where the object and the databases
    represent a node, the code of the handlers of AppendEntries and RequestVote,
    of the sessions of the leader and of the candidate returns what the
    functions of RaftNode.v return, and the object and databases then represent
    the node the functions return; where a function fails, the code does not
    end normally either. This compares the pieces of code when they are not
    interrupted at the calls of the database, and says nothing about Execute. *)
Theorem node_code_refines_functions {AM : AnyMessage} {SM : IStateMachine} {Y : Type} Equals (this : ptr) (n : RaftNode) :
  (∀ request, refines (Y := Y) this n (AppendEntries_code Equals this request) (RaftNode.AppendEntries Equals request n)) ∧
  (∀ request, refines (Y := Y) this n (RequestVote_code this request) (RaftNode.RequestVote request n)) ∧
  (∀ id request result, refines (Y := Y) this n (NodeSession_response this id request result)
     (LeaderNodeSession_response id request result n)) ∧
  refines (Y := Y) this n (batch ← pending_write this; MainSession_write this batch;; UpdateCommitIndex this)
    (effect (LeaderMainSession_iteration n)) ∧
  refines (Y := Y) this n (RaftSim.BecomeCandidate this) (effect (RaftNode.BecomeCandidate n)) ∧
  refines (Y := Y) this n ('(_, request) ← StartCandidate_request this; mret request) (StartCandidate_begin n) ∧
  (∀ p votes result, refines_counter (Y := Y) this n p votes (vote_received this p result)
     (StartCandidate_vote result votes n)).
Proof.
  split_and!; intros; [apply refines_AppendEntries|apply refines_RequestVote|apply refines_NodeSession_response|
    apply refines_MainSession|apply refines_BecomeCandidate|apply refines_StartCandidate_request|
    apply refines_vote_received].
Qed.
