(* ===== verification/RaftSimRuns.v ===== *)
(** * Runs of Raft clusters in the simulator

    The tests of src/raft/test/simulation_test with sample generators, and
    instances of the theorems on clusters at moments of such runs. *)

From S2P Require Import Prelude.
From S2P Require Import Result.
From S2P Require Import RtTypes.
From S2P Require Import Serde.
From S2P Require Import KVInterface.
From S2P Require Import HistoryChecker.
From S2P Require Import StateMachine.
From S2P Require Import RaftNode.
From S2P Require Import RaftClient.
From S2P Require Import SimTime.
From S2P Require Import SimFibers.
From S2P Require Import SimRuntime.
From S2P Require Import SimFibersProps.
From S2P Require Import SimClients.
From S2P Require Import SimTestLib.
From S2P Require Import RaftSim.
From S2P Require Import RaftSimClient.
From S2P Require Import RaftSimTests.
From S2P Require Import RaftSimPrograms.
From S2P Require Import RaftSimStorage.
From S2P Require Import RaftSimRefine.
From stdpp Require Import sorting.
From Stdlib Require Import QArith_base.

Local Open Scope Z_scope.

(** ** Sample configuration of the fuzzer *)

Module Sample.
Import RaftFuzz.

Definition node (election : Z) : NodeConfig :=
  MkNodeConfig (MkInterval (ms election) (ms 400)) (ms 50) (ms 90)
    (MkHostOptions (MkInterval 0 (ms 100)) (1 # 100, 3 # 100)%Q (ms 5)).

Definition config : TestConfig :=
  MkTestConfig 7 (sec 20)
    (MkWorldOptions (1 # 20) (MkInterval (ms 1) (ms 40)) (MkInterval (ms 50) (ms 200)) (1 # 10))
    [(MkClientConfig (sec 1) (ms 300) 10 default_backoff, MkHostOptions (MkInterval 0 (ms 100)) (0%Q, (1 # 100)%Q) (ms 5))]
    [node 150; node 200; node 250].

Definition actions : list Action :=
  [SleepAction (ms 100); OnHost HPause; SleepAction (ms 100); OnHost HKill; OnNetwork Drop; SleepAction (ms 50);
   OnHost HResume; OnHost HStart; SleepAction (ms 100); OnNetwork Restore; OnHost HRestart].
End Sample.

(** The state at the end of a run: it has ended, every [EXPECT] is true, and the
    answers have different sizes. *)
Definition accepted (st : status vars_type) : bool :=
  match st with
  | Ended s =>
      forallb id (expectations s) &&
      match CheckLinearizability stable_sort (history (test_vars (vars s))) with
      | Done (Ok _) => true
      | _ => false
      end && bool_decide (NoDup (sizes (history (test_vars (vars s)))))
  | _ => false
  end.

Definition answers (st : status vars_type) : nat :=
  match st with Ended s => length (history (test_vars (vars s))) | _ => 0%nat end.

Definition simple_run : status vars_type :=
  run_with 1 (RaftSimple.Main 3) services start_vars (run_seeds 1 1 (λ seed, RaftSimple.RunSimpleTest seed 3 1 (sec 10))).
Definition crash_run : status vars_type :=
  run_with 2 (RaftHostCrash.Main 3) services start_vars (run_seeds 1 2 (λ seed, RaftHostCrash.RunTestWithCrashes seed 3 1 1 (sec 10))).
Definition commit_index_run : status vars_type :=
  run_with 1 RaftCommitIndex.Main services start_vars (RaftCommitIndex.test (sec 20)).
Definition fuzz_run : status vars_type :=
  run_with 7 (RaftFuzz.Main Sample.config Sample.actions) services start_vars (RaftFuzz.RunRaftTest Sample.config 800).

Definition raft_runs : list (status vars_type) := [simple_run; crash_run; commit_index_run; fuzz_run].

(** Each run is evaluated once. *)
Definition verdict (st : status vars_type) : bool * nat := (accepted st, answers st).

Lemma simple_run_verdict : verdict simple_run = (true, 33%nat).
Proof. vm_compute. reflexivity. Qed.
Lemma crash_run_verdict : verdict crash_run = (true, 52%nat).
Proof. vm_compute. reflexivity. Qed.
Lemma commit_index_run_verdict : verdict commit_index_run = (true, 3%nat).
Proof. vm_compute. reflexivity. Qed.
Lemma fuzz_run_verdict : verdict fuzz_run = (true, 64%nat).
Proof. vm_compute. reflexivity. Qed.

Lemma raft_runs_verdict : verdict <$> raft_runs = (true,.) <$> [33; 52; 3; 64]%nat.
Proof.
  unfold raft_runs. cbn [fmap list_fmap].
  by rewrite simple_run_verdict, crash_run_verdict, commit_index_run_verdict, fuzz_run_verdict.
Qed.

Lemma accepted_ok st :
  accepted st = true →
  ∃ s, st = Ended s ∧ forallb id (expectations s) = true ∧ linearizable (history (test_vars (vars s))).
Proof.
  destruct st as [m|s|o]; [done| |done]. simpl. intros [[He Hc]%andb_prop Hn]%andb_prop. exists s. split_and!; [done..|].
  destruct (CheckLinearizability _ _) as [[[]|]| |] eqn:Hok; [|done..]. apply bool_decide_eq_true in Hn.
  eapply (accepted_linearizable stable_sort); [intros h; apply stable_sort_ok..|exact Hok|done].
Qed.

(** The tests of Raft clusters pass on the model with sample generators:
    a cluster with a lossy network, one whose nodes are killed and restarted,
    the schedule of figure 8 of the Raft paper with pauses and closed links, and
    the fuzzer with a configuration of its domain. Every run ends, its
    expectations hold, its clients got answers, and the history of the answers
    is linearizable. *)
Theorem raft_tests_pass :
  Forall (λ st, ∃ s, st = Ended s ∧ forallb id (expectations s) = true ∧ linearizable (history (test_vars (vars s))))
    raft_runs ∧
  answers <$> raft_runs = [33; 52; 3; 64]%nat ∧
  RaftFuzz.test_domain Sample.config Sample.actions = true.
Proof.
  pose proof raft_runs_verdict as Hr. split_and!; [| |by vm_compute].
  - apply Forall_forall. intros st Hst. apply accepted_ok.
    apply (list_elem_of_fmap_2 verdict) in Hst. rewrite Hr in Hst.
    apply list_elem_of_fmap in Hst as (k & Hk & _). by injection Hk.
  - apply (f_equal (fmap snd)) in Hr. rewrite <-!list_fmap_compose in Hr. exact Hr.
Qed.

(** ** Moments of a run with crashes *)

Definition crash_boot : machine vars_type := boot start_vars RaftHostCrash.Replica3Client1Crashed1.
Definition crash_machine (k : nat) : machine vars_type := machine_at 1 (RaftHostCrash.Main 3) services crash_boot k.

Lemma crash_3000 : runs_for 1 (RaftHostCrash.Main 3) services crash_boot (2000 + 1000) = true.
Proof. by vm_compute. Qed.

Definition state_of (k : nat) (h : handle) : option (gmap string Z) :=
  match databases (vars (state (crash_machine k))) !! h with
  | Some (MkHostDatabase _ (StateDb d)) => Some d
  | _ => None
  end.

(** After 2000 steps the first node has voted for itself in term 2. *)
Lemma votes_are_durable_witness :
  ∃ d t, state_of 3000 (3%positive, "/tmp/raft_state") = Some d ∧ d !! "current_term" = Some t ∧ 2 ≤ t ∧
    (t = 2 → d !! "voted_for" = Some 0).
Proof.
  destruct (reaches_between 1 (RaftHostCrash.Main 3) services crash_boot 2000 1000 crash_3000) as [H1 H2].
  destruct (votes_are_durable Differencer_Equals (RaftHostCrash.Main 3) RaftHostCrash.Replica3Client1Crashed1
    start_vars (crash_machine 2000) (crash_machine (2000 + 1000)) (RaftHostCrash_cluster 30 0 3 1 1 (sec 10)) H1 H2) as [_ Hv].
  assert (Hd : databases (vars (state (crash_machine 2000))) !! (3%positive, "/tmp/raft_state") =
    Some (MkHostDatabase 0 (StateDb (<["current_term" := 2]> (<["voted_for" := 0]> ∅))))) by (by vm_compute).
  destruct (Hv _ _ _ 2 Hd eq_refl) as (e' & d' & t' & Hd' & _ & Ht' & Hle & Hvote).
  exists d', t'. split_and!; [|done|done|intros ->; by apply Hvote].
  unfold state_of. change 3000%nat with (2000 + 1000)%nat. by rewrite Hd'.
Defined.

(** ** A vote in both models *)

Definition follower_config : RaftConfig := raft_config (MkInterval (ms 150) (ms 300)) (raft_endpoints 3) 0.

Definition follower : RaftNode := RaftNode.RaftNode_new (SM := LoggingStateMachine) [] follower_config ∅ ∅.

(** A state of the runtime with the object 1 that represents it. *)
Definition follower_sim : sim vars_type :=
  let v := start_vars in
  with_vars
    (set_nodes {[ 1%positive := MkNodeObject 2 3 Follower follower_config 4 5 (6%positive, "state") (6%positive, "log")
       0 [] [] 0 ∅ [] (ExactlyOnce_new (SM := LoggingStateMachine) []) ]}
      (set_databases (<[(6%positive, "state") := MkHostDatabase 0 (StateDb {[ "current_term" := 0 ]})]>
        {[ (6%positive, "log") := MkHostDatabase 0 (LogDb ∅) ]}) v))
    (state (boot v (Ret ()))).

Definition vote_for_1 : RequestVoteRequest := MkRequestVote 1 1 0 0.

Definition after_vote : RequestVoteResult * sim vars_type :=
  match RequestVote_code (Y := TestVars) 1 vote_for_1 1%positive follower_sim with
  | Drawn (Done r) => r
  | _ => (MkRequestVoteResult 0 false, follower_sim)
  end.

Lemma node_code_refines_functions_witness :
  ∃ n', RaftNode.RequestVote vote_for_1 follower = Done (MkRequestVoteResult 0 true, n') ∧
    represents 1 n' (vars after_vote.2).
Proof.
  destruct (node_code_refines_functions (Y := TestVars) Differencer_Equals 1 follower) as (_ & Hvote & _).
  assert (Hrun : RequestVote_code (Y := TestVars) 1 vote_for_1 1%positive follower_sim =
    Drawn (Done (MkRequestVoteResult 0 true, after_vote.2))) by (by vm_compute).
  destruct (Hvote vote_for_1 1%positive follower_sim (MkRequestVoteResult 0 true) after_vote.2) as (n' & Hn' & _ & Hr').
  - intros index id Hp. simpl in Hp. by rewrite lookup_empty in Hp.
  - eexists _, _, _. split; [by vm_compute|]. split; [by split|]. by split.
  - rewrite Hrun. constructor.
  - by exists n'.
Defined.
