(* ===== verification/RpcGenerator.v ===== *)
(** * The generator of the RPC stubs

    The protoc plugin that prints, for every .proto file, client and service
    classes for the production and for the simulated runtime:
    src/runtime/rpc_generator, src/runtime/production/rpc_generator and
    src/runtime/simulator/rpc_generator. Descriptors carry what the generator
    reads of google::protobuf::FileDescriptor. A generated file is the list of
    calls made on its google::protobuf::io::Printer; what the printer does with
    them is outside the repository, except for its contract: text between
    dollar signs names a variable that must be defined, and [Outdent] undoes an
    earlier [Indent]. *)

From S2P Require Import Prelude.
From S2P Require Import Result.

From stdpp Require Import pretty.

(** The quotation mark and the end of a line. *)
Definition dq : string := String (Ascii.ascii_of_nat 34) EmptyString.
Definition nl : string := String (Ascii.ascii_of_nat 10) EmptyString.

(** ** Descriptors *)

(** A message type: [name()] and [file()->package()]. *)
Record Descriptor : Type := MkDescriptor { type_name : string; type_package : string }.

Record MethodDescriptor : Type := MkMethod {
  method_name : string;
  input_type : Descriptor;
  output_type : Descriptor;
  server_streaming : bool;
  client_streaming : bool;
}.

Record ServiceDescriptor : Type := MkService {
  service_name : string;
  methods : list MethodDescriptor;
}.

Record FileDescriptor : Type := MkFile {
  file_name : string;
  dependencies : list string;
  services : list ServiceDescriptor;
}.

(** ** The printer *)

Abbreviation variables := (gmap string string).

Inductive command : Type :=
  | Print (vars : variables) (text : string)
  | Indent
  | Outdent.

(** [Print(text)] and [Print(text, "name", value)]. *)
Definition print (text : string) : command := Print ∅ text.
Definition print1 (text name value : string) : command := Print {[name := value]} text.

(** A loop over the methods of a service; [vars] outlives its iterations. *)
Fixpoint for_methods (body : nat → MethodDescriptor → variables → variables * list command)
    (method_id : nat) (ms : list MethodDescriptor) (vars : variables) : variables * list command :=
  match ms with
  | [] => (vars, [])
  | m :: ms =>
      let '(vars, out) := body method_id m vars in
      let '(vars, rest) := for_methods body (S method_id) ms vars in
      (vars, out ++ rest)
  end.

Definition for_services (file : FileDescriptor) (body : ServiceDescriptor → list command)
    : list command :=
  mjoin (body <$> services file).

(** ** rpc_generator/util.cpp *)

Definition HasStreaming (file : FileDescriptor) : bool :=
  existsb (λ service,
    existsb (λ method, server_streaming method || client_streaming method) (methods service))
    (services file).

(** [s.substr(0, count)]: [count] is a [size_t], the result ends with [s]. *)
Definition substr0 (s : string) (count : Z) : string :=
  String.substring 0 (Z.to_nat (count `min` Z.of_nat (String.length s))) s.

(** [sizeof(".proto")] is 7. *)
Definition GetProtoFileName (file : FileDescriptor) : string :=
  substr0 (file_name file) (Z.of_nat (String.length (file_name file)) +64 1 -64 7).

Fixpoint PackageToNamespace (package : string) : string :=
  match package with
  | EmptyString => EmptyString
  | String ch rest =>
      (if decide (ch = Ascii.ascii_of_nat 46) then "::" else String ch EmptyString)
        +:+ PackageToNamespace rest
  end.

Definition qualified_name (t : Descriptor) : string :=
  let ns := PackageToNamespace (type_package t) in
  if decide (ns ≠ EmptyString) then ns +:+ "::" +:+ type_name t else type_name t.

Definition AddMethodInfo (method : MethodDescriptor) (vars : variables) : variables :=
  let vars := <["method_name" := method_name method]> vars in
  let vars := <["output_type" := qualified_name (output_type method)]> vars in
  <["input_type" := qualified_name (input_type method)]> vars.

Definition AddDependencyHeaders (file : FileDescriptor) : list command :=
  ((λ name,
     let proto_path := substr0 name (Z.of_nat (String.length name) -64 7 +64 1) in
     print1 ("#include <$path$.pb.h>" +:+ nl) "path" proto_path) <$> dependencies file)
  ++ [print nl].

(** ** production/rpc_generator/rpc_generator.cpp *)

Module Prod.

Definition GenerateClientHeader (file : FileDescriptor) : string * list command :=
  let file_name := GetProtoFileName file in
  (file_name +:+ ".client.prod.h",
   [print ("#pragma once" +:+ nl +:+ nl);
    print1 ("#include " +:+ dq +:+ "$name$.pb.h" +:+ dq +:+ nl +:+ nl) "name" file_name]
   ++ AddDependencyHeaders file
   ++ [print ("#include <runtime/production/rpc_client_base.h>" +:+ nl +:+ nl);
       print ("namespace mtf::rt::rpc {" +:+ nl)]
   ++ for_services file (λ service,
        let vars := {["service_name" := service_name service]} in
        let '(vars, declarations) := for_methods (λ _ method vars,
          let vars := AddMethodInfo method vars in
          (vars, [Print vars ("Result<$output_type$, RpcError> $method_name$(const $input_type$& input, StopToken stop_token = {}) noexcept;" +:+ nl)]))
          0 (methods service) vars in
        [print nl;
         Print {["service_name" := service_name service]} ("class $service_name$Client final : private ClientBase {" +:+ nl);
         print ("public:" +:+ nl);
         Indent;
         print ("using ClientBase::ClientBase;" +:+ nl +:+ nl)]
        ++ declarations
        ++ [Outdent; print ("};" +:+ nl)])
   ++ [print (nl +:+ "}  // namespace mtf::rt::rpc" +:+ nl)]).

Definition call_template : string :=
  ("return MakeRequest<$input_type$, $output_type$>(input, " +:+ dq +:+ "/$service_name$/$method_name$" +:+ dq +:+ ", std::move(stop_token));" +:+ nl).

Definition GenerateClientSource (file : FileDescriptor) : string * list command :=
  let file_name := GetProtoFileName file in
  (file_name +:+ ".client.prod.cc",
   [print1 ("#include " +:+ dq +:+ "$name$.client.prod.h" +:+ dq +:+ nl +:+ nl) "name" file_name;
    print ("namespace mtf::rt::rpc {" +:+ nl)]
   ++ for_services file (λ service,
        let vars := {["service_name" := service_name service]} in
        let vars := <["service_class" := service_name service +:+ "Client"]> vars in
        (for_methods (λ _ method vars,
          let vars := AddMethodInfo method vars in
          (vars,
           [print nl;
            Print vars ("Result<$output_type$, RpcError> $service_class$::$method_name$(const $input_type$& input, StopToken stop_token) noexcept {" +:+ nl);
            Indent;
            Print vars call_template;
            Outdent;
            print ("}" +:+ nl)]))
          0 (methods service) vars).2)
   ++ [print (nl +:+ "}  // namespace mtf::rt::rpc" +:+ nl)]).

Definition GenerateServiceHeader (file : FileDescriptor) : string * list command :=
  let file_name := GetProtoFileName file in
  (file_name +:+ ".service.prod.h",
   [print ("#pragma once" +:+ nl +:+ nl);
    print1 ("#include " +:+ dq +:+ "$name$.pb.h" +:+ dq +:+ nl +:+ nl) "name" file_name]
   ++ AddDependencyHeaders file
   ++ [print ("#include <runtime/production/rpc_service_base.h>" +:+ nl);
       print ("#include <util/result.h>" +:+ nl +:+ nl);
       print ("namespace mtf::rt::rpc {" +:+ nl)]
   ++ for_services file (λ service,
        let vars := {["service_name" := service_name service]} in
        let vars0 := <["service_class" := service_name service +:+ "Stub"]> vars in
        let '(vars1, placeholders) := for_methods (λ _ method vars,
          let vars := AddMethodInfo method vars in
          (vars, [Print vars ("virtual Result<$output_type$, RpcError> $method_name$(const $input_type$& request) noexcept = 0;" +:+ nl)]))
          0 (methods service) vars0 in
        let '(vars2, puts) := for_methods (λ _ method vars,
          let vars := AddMethodInfo method vars in
          (vars, [Print vars ("void Put$method_name$InQueue(grpc::ServerCompletionQueue& queue, LatchGuard guard);" +:+ nl)]))
          0 (methods service) vars1 in
        let '(_, structs) := for_methods (λ _ method vars,
          let vars := AddMethodInfo method vars in
          (vars,
           [print nl;
            Print vars ("struct RpcCall$method_name$ : public RpcCall<$input_type$, $output_type$> {" +:+ nl);
            Indent;
            Print vars ("explicit RpcCall$method_name$($service_class$* handler, LatchGuard guard) : RpcCall{std::move(guard)}, handler{handler} {}" +:+ nl);
            Print vars ("void operator()() noexcept override;" +:+ nl);
            Print vars ("void PutNewCallInQueue(grpc::ServerCompletionQueue& queue, LatchGuard guard) noexcept override;" +:+ nl);
            Print vars ("$service_class$* handler;" +:+ nl);
            Outdent;
            print ("};" +:+ nl)]))
          0 (methods service) vars2 in
        [print nl;
         Print vars0 ("class $service_class$ : public Server::Service {" +:+ nl);
         print ("public:" +:+ nl);
         Indent;
         Print vars0 ("$service_class$();" +:+ nl +:+ nl)]
        ++ placeholders
        ++ [print nl; Outdent; print ("private:" +:+ nl); Indent;
            Print vars1 ("void PutAllMethodsCallsInQueue(grpc::ServerCompletionQueue& queue, Latch& latch) override;" +:+ nl +:+ nl)]
        ++ puts ++ structs
        ++ [Outdent; print ("};" +:+ nl)])
   ++ [print (nl +:+ "}  // namespace mtf::rt::rpc" +:+ nl)]).

Definition register_template : string :=
  ("auto method$id$ = new RpcServiceMethod(" +:+ dq +:+ "/$service_name$/$method_name$" +:+ dq +:+ ", RpcMethod::NORMAL_RPC, handler$id$);" +:+ nl).
Definition put_template : string :=
  ("PutRpcCallInQueue(queue, $id$, new RpcCall$method_name${this, std::move(guard)});" +:+ nl).

Definition GenerateServiceSource (file : FileDescriptor) : string * list command :=
  let file_name := GetProtoFileName file in
  (file_name +:+ ".service.prod.cc",
   [print1 ("#include " +:+ dq +:+ "$name$.service.prod.h" +:+ dq +:+ nl +:+ nl) "name" file_name;
    print ("namespace mtf::rt::rpc {" +:+ nl +:+ nl);
    print ("using namespace grpc::internal;  // NOLINT" +:+ nl);
    print ("using BaseType = grpc::protobuf::MessageLite;" +:+ nl)]
   ++ for_services file (λ service,
        let vars := {["service_name" := service_name service]} in
        let vars0 := <["service_class" := service_name service +:+ "Stub"]> vars in
        let '(vars1, registrations) := for_methods (λ method_id method vars,
          let vars := AddMethodInfo method vars in
          let vars := <["id" := pretty method_id]> vars in
          (vars,
           [print nl;
            Print vars ("auto handler$id$ = new RpcMethodHandler<$service_class$, $input_type$, $output_type$, BaseType, BaseType>(stub, this);" +:+ nl);
            Print vars register_template;
            Print vars ("grpc::Service::AddMethod(method$id$);" +:+ nl);
            Print vars ("grpc::Service::MarkMethodAsync($id$);" +:+ nl)]))
          0 (methods service) vars0 in
        let '(vars2, put_all) := for_methods (λ _ method vars,
          let vars := AddMethodInfo method vars in
          (vars, [Print vars ("Put$method_name$InQueue(queue, latch.MakeGuard());" +:+ nl)]))
          0 (methods service) vars1 in
        let '(vars3, puts) := for_methods (λ method_id method vars,
          let vars := AddMethodInfo method vars in
          let vars := <["id" := pretty method_id]> vars in
          (vars,
           [Print vars ("void $service_class$::Put$method_name$InQueue(grpc::ServerCompletionQueue& queue, LatchGuard guard) {" +:+ nl);
            Indent;
            Print vars put_template;
            Outdent;
            print ("}" +:+ nl)]))
          0 (methods service) vars2 in
        let '(_, calls) := for_methods (λ _ method vars,
          let vars := AddMethodInfo method vars in
          (vars,
           [print nl;
            Print vars ("void $service_class$::RpcCall$method_name$::operator()() noexcept {" +:+ nl);
            Indent;
            Print vars ("RunImpl([this](const auto& request) { return handler->$method_name$(request); });" +:+ nl);
            Outdent;
            print ("}" +:+ nl);
            print nl;
            Print vars ("void $service_class$::RpcCall$method_name$::PutNewCallInQueue(grpc::ServerCompletionQueue& queue, LatchGuard guard) noexcept {" +:+ nl);
            Indent;
            Print vars ("handler->Put$method_name$InQueue(queue, std::move(guard));" +:+ nl);
            Outdent;
            print ("}" +:+ nl)]))
          0 (methods service) vars3 in
        [print nl;
         Print vars0 ("$service_class$::$service_class$() {" +:+ nl);
         Indent;
         print ("auto stub = [](auto, auto, auto, auto) { return SyncMethodStub(); };" +:+ nl)]
        ++ registrations
        ++ [Outdent; print ("}" +:+ nl +:+ nl);
            Print vars1 ("void $service_class$::PutAllMethodsCallsInQueue(grpc::ServerCompletionQueue& queue, Latch& latch) {" +:+ nl);
            Indent]
        ++ put_all
        ++ [Outdent; print ("}" +:+ nl +:+ nl)]
        ++ puts ++ calls)
   ++ [print (nl +:+ "}  // namespace mtf::rt::rpc" +:+ nl)]).
End Prod.

(** ** simulator/rpc_generator/rpc_generator.cpp *)

Module Sim.

Definition GenerateClientHeader (file : FileDescriptor) : string * list command :=
  let file_name := GetProtoFileName file in
  (file_name +:+ ".client.sim.h",
   [print ("#pragma once" +:+ nl +:+ nl);
    print1 ("#include " +:+ dq +:+ "$name$.pb.h" +:+ dq +:+ nl +:+ nl) "name" file_name]
   ++ AddDependencyHeaders file
   ++ [print ("#include <runtime/simulator/rpc_client_base.h>" +:+ nl +:+ nl);
       print ("namespace mtf::rt::rpc {" +:+ nl)]
   ++ for_services file (λ service,
        let vars := {["service_name" := service_name service]} in
        let '(vars, declarations) := for_methods (λ _ method vars,
          let vars := AddMethodInfo method vars in
          (vars, [Print vars ("Result<$output_type$, RpcError> $method_name$(const $input_type$& input, StopToken stop_token = {}) noexcept;" +:+ nl)]))
          0 (methods service) vars in
        [print nl;
         Print {["service_name" := service_name service]} ("class $service_name$Client final : private ClientBase {" +:+ nl);
         print ("public:" +:+ nl);
         Indent;
         print ("using ClientBase::ClientBase;" +:+ nl +:+ nl)]
        ++ declarations
        ++ [Outdent; print ("};" +:+ nl)])
   ++ [print (nl +:+ "}  // namespace mtf::rt::rpc" +:+ nl)]).

Definition call_template : string :=
  ("return MakeRequest<$input_type$, $output_type$>(input, " +:+ dq +:+ "$service_name$" +:+ dq +:+ ", " +:+ dq +:+ "$method_name$" +:+ dq +:+ ", std::move(stop_token));" +:+ nl).

Definition GenerateClientSource (file : FileDescriptor) : string * list command :=
  let file_name := GetProtoFileName file in
  (file_name +:+ ".client.sim.cc",
   [print1 ("#include " +:+ dq +:+ "$name$.client.sim.h" +:+ dq +:+ nl +:+ nl) "name" file_name;
    print ("namespace mtf::rt::rpc {" +:+ nl)]
   ++ for_services file (λ service,
        let vars := {["service_name" := service_name service]} in
        let vars := <["service_class" := service_name service +:+ "Client"]> vars in
        (for_methods (λ _ method vars,
          let vars := AddMethodInfo method vars in
          (vars,
           [print nl;
            Print vars ("Result<$output_type$, RpcError> $service_class$::$method_name$(const $input_type$& input, StopToken stop_token) noexcept {" +:+ nl);
            Indent;
            Print vars call_template;
            Outdent;
            print ("}" +:+ nl)]))
          0 (methods service) vars).2)
   ++ [print (nl +:+ "}  // namespace mtf::rt::rpc" +:+ nl)]).

Definition GenerateServiceHeader (file : FileDescriptor) : string * list command :=
  let file_name := GetProtoFileName file in
  (file_name +:+ ".service.sim.h",
   [print ("#pragma once" +:+ nl +:+ nl);
    print1 ("#include " +:+ dq +:+ "$name$.pb.h" +:+ dq +:+ nl +:+ nl) "name" file_name]
   ++ AddDependencyHeaders file
   ++ [print ("#include <runtime/simulator/rpc_service_base.h>" +:+ nl +:+ nl);
       print ("namespace mtf::rt::rpc {" +:+ nl)]
   ++ for_services file (λ service,
        let vars := {["service_name" := service_name service]} in
        let vars0 := <["service_class" := service_name service +:+ "Stub"]> vars in
        let '(vars1, placeholders) := for_methods (λ _ method vars,
          let vars := AddMethodInfo method vars in
          (vars, [Print vars ("virtual Result<$output_type$, RpcError> $method_name$(const $input_type$& request) noexcept = 0;" +:+ nl)]))
          0 (methods service) vars0 in
        [print nl;
         Print vars0 ("class $service_class$ : public Server::Service {" +:+ nl);
         print ("public:" +:+ nl);
         Indent;
         Print vars0 ("$service_class$() noexcept;" +:+ nl +:+ nl)]
        ++ placeholders
        ++ [print nl; Outdent; print ("private:" +:+ nl); Indent;
            Print vars1 ("Result<SerializedData, RpcError> ProcessRequest(const SerializedData& data, const HandlerName& handler_name) noexcept override;" +:+ nl);
            Outdent; print ("};" +:+ nl)])
   ++ [print (nl +:+ "}  // namespace mtf::rt::rpc" +:+ nl)]).

Definition constructor_template : string :=
  ("$service_class$::$service_class$() noexcept : Server::Service{" +:+ dq +:+ "$service_name$" +:+ dq +:+ "} {}" +:+ nl +:+ nl).
Definition dispatch_template : string := ("if (handler_name == " +:+ dq +:+ "$method_name$" +:+ dq +:+ ") {" +:+ nl).
Definition handle_template : string :=
  ("return ProcessRequestWrapper<$input_type$, $output_type$>(data, [&](const auto& request){ return $method_name$(request); });" +:+ nl).

Definition GenerateServiceSource (file : FileDescriptor) : string * list command :=
  let file_name := GetProtoFileName file in
  (file_name +:+ ".service.sim.cc",
   [print1 ("#include " +:+ dq +:+ "$name$.service.sim.h" +:+ dq +:+ nl +:+ nl) "name" file_name;
    print ("namespace mtf::rt::rpc {" +:+ nl)]
   ++ for_services file (λ service,
        let vars := {["service_name" := service_name service]} in
        let vars0 := <["service_class" := service_name service +:+ "Stub"]> vars in
        let '(vars1, handlers) := for_methods (λ _ method vars,
          let vars := AddMethodInfo method vars in
          (vars,
           [Print vars dispatch_template;
            Indent;
            Print vars handle_template;
            Outdent;
            Print vars ("}" +:+ nl)]))
          0 (methods service) vars0 in
        [print nl;
         Print vars0 constructor_template;
         Print vars0 ("Result<SerializedData, RpcError> $service_class$::ProcessRequest(const SerializedData& data, const HandlerName& handler_name) noexcept {" +:+ nl);
         Indent]
        ++ handlers
        ++ [Print vars1 ("return Err(RpcErrorType::HandlerNotFound);" +:+ nl);
            Outdent; print ("}" +:+ nl)])
   ++ [print (nl +:+ "}  // namespace mtf::rt::rpc" +:+ nl)]).
End Sim.

(** ** rpc_generator/rpc_generator.cpp *)

Definition GenerateClientHeader (file : FileDescriptor) : string * list command :=
  let file_name := GetProtoFileName file in
  (file_name +:+ ".client.h",
   [print ("#pragma once" +:+ nl +:+ nl);
    print ("#if defined(PRODUCTION)" +:+ nl);
    print1 ("#include " +:+ dq +:+ "$name$.client.prod.h" +:+ dq +:+ nl) "name" file_name;
    print ("#elif defined(SIMULATION)" +:+ nl);
    print1 ("#include " +:+ dq +:+ "$name$.client.sim.h" +:+ dq +:+ nl) "name" file_name;
    print ("#endif" +:+ nl)]).

Definition GenerateServiceHeader (file : FileDescriptor) : string * list command :=
  let file_name := GetProtoFileName file in
  (file_name +:+ ".service.h",
   [print ("#pragma once" +:+ nl +:+ nl);
    print ("#if defined(PRODUCTION)" +:+ nl);
    print1 ("#include " +:+ dq +:+ "$name$.service.prod.h" +:+ dq +:+ nl) "name" file_name;
    print ("#elif defined(SIMULATION)" +:+ nl);
    print1 ("#include " +:+ dq +:+ "$name$.service.sim.h" +:+ dq +:+ nl) "name" file_name;
    print ("#endif" +:+ nl)]).

(** [RpcGenerator::Generate]: the error, or the files in the order in which
    they are opened. *)
Definition Generate (file : FileDescriptor) : Result (list (string * list command)) string :=
  if HasStreaming file then Err "streaming is not supported"
  else Ok [Prod.GenerateClientHeader file; Prod.GenerateClientSource file;
           Prod.GenerateServiceHeader file; Prod.GenerateServiceSource file;
           Sim.GenerateClientHeader file; Sim.GenerateClientSource file;
           Sim.GenerateServiceHeader file; Sim.GenerateServiceSource file;
           GenerateClientHeader file; GenerateServiceHeader file].
