(* ===== verification/RpcGeneratorProps.v ===== *)
(** * Properties of the generated stubs

    Every generated file keeps the contract of the printer; client and service
    agree on the names and numbers by which calls are routed; which files are
    generated, and how names are derived. *)

From S2P Require Import Prelude.
From S2P Require Import Result.
From S2P Require Import RpcGenerator.

From stdpp Require Import pretty.

(** ** The contract of the printer *)

(** The variables a text names; [None] if a dollar sign is not closed. *)
Fixpoint placeholders (text : string) (inside : option string) : option (list string) :=
  match text with
  | EmptyString => match inside with None => Some [] | Some _ => None end
  | String ch rest =>
      match inside, Ascii.eqb ch (Ascii.ascii_of_nat 36) with
      | None, true => placeholders rest (Some EmptyString)
      | None, false => placeholders rest None
      | Some name, true => (name ::.) <$> placeholders rest None
      | Some name, false => placeholders rest (Some (name +:+ String ch EmptyString))
      end
  end.

Definition print_ok (vars : variables) (text : string) : bool :=
  match placeholders text None with
  | None => false
  | Some names => forallb (λ name, bool_decide (is_Some (vars !! name))) names
  end.

(** Runs the printer from a depth of indentation; [None] if it would abort. *)
Fixpoint printer (depth : nat) (cmds : list command) : option nat :=
  match cmds with
  | [] => Some depth
  | Print vars text :: cmds => if print_ok vars text then printer depth cmds else None
  | Indent :: cmds => printer (S depth) cmds
  | Outdent :: cmds => match depth with O => None | S depth => printer depth cmds end
  end.

(** Commands that print at any depth and return to it. *)
Definition balanced (cmds : list command) : Prop := ∀ depth, printer depth cmds = Some depth.

Lemma printer_app depth cmds cmds' :
  printer depth (cmds ++ cmds') = printer depth cmds ≫= λ depth, printer depth cmds'.
Proof.
  revert depth. induction cmds as [|[vars text| |] cmds IH]; intros depth; simpl; [done|..].
  - destruct (print_ok vars text); [apply IH|done].
  - apply IH.
  - by destruct depth.
Qed.

Lemma balanced_printer cmds cmds' depth :
  balanced cmds → printer depth (cmds ++ cmds') = printer depth cmds'.
Proof. intros H. by rewrite printer_app, H. Qed.

Lemma balanced_app cmds cmds' : balanced cmds → balanced cmds' → balanced (cmds ++ cmds').
Proof. intros H H' depth. by rewrite balanced_printer. Qed.

Lemma balanced_for_services file body :
  (∀ service, balanced (body service)) → balanced (for_services file body).
Proof.
  intros H. unfold for_services. induction (services file) as [|s ss IH]; csimpl; [done|].
  by apply balanced_app.
Qed.

(** ** Variables *)

(** The text names only variables of [keys]. *)
Definition names_in (keys : list string) (text : string) : bool :=
  match placeholders text None with
  | None => false
  | Some names => forallb (λ name, existsb (String.eqb name) keys) names
  end.

Definition defines (keys : list string) (vars : variables) : Prop :=
  ∀ key, key ∈ keys → is_Some (vars !! key).

Lemma print_ok_defines keys vars text :
  defines keys vars → names_in keys text = true → print_ok vars text = true.
Proof.
  unfold print_ok, names_in. destruct (placeholders text None) as [names|]; [|done].
  intros Hd. rewrite !forallb_forall. intros H name Hin. apply bool_decide_eq_true, Hd.
  apply H, existsb_exists in Hin as (key & Hk & ->%String.eqb_eq). by apply list_elem_of_In.
Qed.

Lemma defines_insert keys k v vars : defines keys vars → defines (k :: keys) (<[k := v]> vars).
Proof.
  intros H key [->|Hin]%elem_of_cons; [by rewrite lookup_insert_eq|].
  destruct (decide (k = key)) as [->|]; [by rewrite lookup_insert_eq|]. rewrite lookup_insert_ne by done. auto.
Qed.

Lemma defines_weaken keys keys' vars : defines keys vars → keys' ⊆ keys → defines keys' vars.
Proof. intros H Hs key Hk. auto. Qed.

Definition method_keys : list string := ["input_type"; "output_type"; "method_name"].

Lemma AddMethodInfo_defines keys m vars :
  defines keys vars → defines (method_keys ++ keys) (AddMethodInfo m vars).
Proof. intros H. by do 3 apply defines_insert. Qed.

Lemma defines_start name service : defines ["service_name"] ({[name := service]} : variables) ↔ name = "service_name".
Proof.
  split.
  - intros H. destruct (H "service_name" ltac:(left)) as [x Hx]. by apply lookup_singleton_Some in Hx as [? _].
  - intros -> key ->%list_elem_of_singleton. by rewrite lookup_singleton_eq.
Qed.

(** A loop over the methods whose body is balanced as soon as [keys] are
    defined. *)
Lemma for_methods_balanced keys body :
  (∀ id m vars, defines keys vars → defines keys (body id m vars).1 ∧ balanced (body id m vars).2) →
  ∀ ms id vars, defines keys vars →
    defines keys (for_methods body id ms vars).1 ∧ balanced (for_methods body id ms vars).2.
Proof.
  intros Hbody ms. induction ms as [|m ms IH]; intros id vars Hd; simpl; [done|].
  destruct (Hbody id m vars Hd) as [Hd' Hb]. destruct (body id m vars) as [vars' out].
  destruct (IH (S id) vars' Hd') as [Hd'' Hb']. destruct (for_methods body (S id) ms vars') as [vars'' rest].
  split; [done|]. by apply balanced_app.
Qed.

(** Runs the printer over explicit commands; a print is checked against the
    keys its variables are known to define. *)
Ltac run_printer :=
  repeat first
    [ done
    | match goal with
      | |- context [print_ok ?vars ?text] =>
          match goal with
          | H : defines ?keys vars |- _ =>
              rewrite (print_ok_defines keys vars text H) by (vm_compute; reflexivity)
          | _ => replace (print_ok vars text) with true by (vm_compute; reflexivity)
          end
      | |- context [printer _ (?cmds ++ _)] => rewrite (balanced_printer cmds) by assumption
      end
    | progress cbn [printer print print1 app] ].

(** Adds what is known of the variables and commands of a method loop. *)
Ltac method_loop keys :=
  match goal with
  | |- context [for_methods ?body ?id ?ms ?vars] =>
      let H := fresh "Hloop" in
      assert (H : defines keys (for_methods body id ms vars).1 ∧ balanced (for_methods body id ms vars).2);
      [ apply (for_methods_balanced keys body);
        [ let d := fresh "Hd" in
          let m := fresh "m" in
          intros ? m ? d; apply (AddMethodInfo_defines _ m) in d; cbn [fst snd];
          try match goal with |- context [<["id" := ?v]> _] => apply (defines_insert _ "id" v) in d end;
          split; [by eapply defines_weaken; [exact d|set_solver]|intros ?; run_printer]
        | assumption ]
      | destruct (for_methods body id ms vars) as [? ?]; cbn [fst snd] in H; destruct H as [? ?] ]
  end.

Lemma dependency_headers_balanced file : balanced (AddDependencyHeaders file).
Proof.
  unfold AddDependencyHeaders. apply balanced_app; [|intros depth; run_printer].
  induction (dependencies file) as [|d ds IH]; csimpl; [done|].
  intros depth. cbn [printer print1].
  rewrite (print_ok_defines ["path"]); [apply IH| |vm_compute; reflexivity].
  intros key ->%list_elem_of_singleton. by rewrite lookup_singleton_eq.
Qed.

Lemma name_defined name : defines ["name"] ({["name" := name]} : variables).
Proof. intros key ->%list_elem_of_singleton. by rewrite lookup_singleton_eq. Qed.

Lemma service_defined service suffix :
  defines ["service_class"; "service_name"]
    (<["service_class" := service_name service +:+ suffix]> {["service_name" := service_name service]} : variables).
Proof. apply defines_insert. by apply defines_start. Qed.

Lemma prod_client_header_ok file : printer 0 (Prod.GenerateClientHeader file).2 = Some 0%nat.
Proof.
  unfold Prod.GenerateClientHeader. cbn [snd]. pose proof (name_defined (GetProtoFileName file)).
  pose proof (dependency_headers_balanced file). run_printer.
  rewrite balanced_printer; [run_printer|]. apply balanced_for_services. intros service depth.
  assert (defines ["service_name"] ({["service_name" := service_name service]} : variables)) by by apply defines_start.
  method_loop ["service_name"]. run_printer.
Qed.

(** The part of a file before its services, then each service. *)
Ltac generated_file :=
  cbn [snd]; match goal with |- context [GetProtoFileName ?file] =>
    pose proof (name_defined (GetProtoFileName file)); pose proof (dependency_headers_balanced file) end;
  run_printer; rewrite balanced_printer; [run_printer|];
  apply balanced_for_services; intros service depth;
  pose proof (service_defined service "Client"); pose proof (service_defined service "Stub").

Lemma prod_client_source_ok file : printer 0 (Prod.GenerateClientSource file).2 = Some 0%nat.
Proof.
  unfold Prod.GenerateClientSource. generated_file. method_loop ["service_class"; "service_name"]. run_printer.
Qed.

Lemma prod_service_header_ok file : printer 0 (Prod.GenerateServiceHeader file).2 = Some 0%nat.
Proof.
  unfold Prod.GenerateServiceHeader. generated_file. do 3 method_loop ["service_class"; "service_name"]. run_printer.
Qed.

Lemma prod_service_source_ok file : printer 0 (Prod.GenerateServiceSource file).2 = Some 0%nat.
Proof.
  unfold Prod.GenerateServiceSource. generated_file. do 4 method_loop ["service_class"; "service_name"]. run_printer.
Qed.

Lemma sim_client_header_ok file : printer 0 (Sim.GenerateClientHeader file).2 = Some 0%nat.
Proof.
  unfold Sim.GenerateClientHeader. generated_file.
  assert (defines ["service_name"] ({["service_name" := service_name service]} : variables)) by by apply defines_start.
  method_loop ["service_name"]. run_printer.
Qed.

Lemma sim_client_source_ok file : printer 0 (Sim.GenerateClientSource file).2 = Some 0%nat.
Proof. unfold Sim.GenerateClientSource. generated_file. method_loop ["service_class"; "service_name"]. run_printer. Qed.

Lemma sim_service_header_ok file : printer 0 (Sim.GenerateServiceHeader file).2 = Some 0%nat.
Proof. unfold Sim.GenerateServiceHeader. generated_file. method_loop ["service_class"; "service_name"]. run_printer. Qed.

Lemma sim_service_source_ok file : printer 0 (Sim.GenerateServiceSource file).2 = Some 0%nat.
Proof. unfold Sim.GenerateServiceSource. generated_file. method_loop ["service_class"; "service_name"]. run_printer. Qed.

(** [C39] Every generated file keeps the contract of the printer, for every
    descriptor: each text only names variables that are defined where it is
    printed, [Outdent] is never called without an [Indent] before it, and the
    indentation is back at zero at the end. *)
Theorem generated_files_well_formed (file : FileDescriptor) (files : list (string * list command))
    (H : Generate file = Ok files) :
  Forall (λ f, printer 0 f.2 = Some 0%nat) files.
Proof.
  unfold Generate in H. destruct (HasStreaming file); [done|]. injection H as <-.
  pose proof (name_defined (GetProtoFileName file)).
  repeat constructor;
    auto using prod_client_header_ok, prod_client_source_ok, prod_service_header_ok, prod_service_source_ok,
      sim_client_header_ok, sim_client_source_ok, sim_service_header_ok, sim_service_source_ok;
    cbn [snd GenerateClientHeader GenerateServiceHeader]; run_printer.
Qed.

(** ** Routing *)

(** The values of [keys] at each print of a template. *)
Definition prints (template : string) (keys : list string) (cmds : list command)
    : list (list (option string)) :=
  omap (λ cmd,
    match cmd with
    | Print vars text => if String.eqb text template then Some ((λ key, vars !! key) <$> keys) else None
    | _ => None
    end) cmds.

Lemma prints_app t ks cmds cmds' : prints t ks (cmds ++ cmds') = prints t ks cmds ++ prints t ks cmds'.
Proof. apply omap_app. Qed.

Lemma prints_for_services t ks file body f :
  (∀ service, prints t ks (body service) = f service) →
  prints t ks (for_services file body) = services file ≫= f.
Proof.
  intros H. unfold for_services. induction (services file) as [|s ss IH]; csimpl; [done|].
  by rewrite prints_app, H, IH.
Qed.

(** A loop that prints the template once per method, or not at all. *)
Lemma prints_for_methods t ks (P : variables → Prop) body f :
  (∀ id m vars, P vars → P (body id m vars).1 ∧ prints t ks (body id m vars).2 = f id m) →
  ∀ ms id vars, P vars →
    P (for_methods body id ms vars).1 ∧
    prints t ks (for_methods body id ms vars).2 = mjoin (imap (λ k m, f (id + k)%nat m) ms).
Proof.
  intros Hbody ms. induction ms as [|m ms IH]; intros id vars HP; [done|]. simpl.
  destruct (Hbody id m vars HP) as [HP' Hp]. destruct (body id m vars) as [vars' out].
  destruct (IH (S id) vars' HP') as [HP'' Hp']. destruct (for_methods body (S id) ms vars') as [vars'' rest].
  simpl in *. split; [done|]. rewrite prints_app, Hp, Hp', Nat.add_0_r. f_equal. f_equal.
  apply imap_ext. intros k m' _. simpl. by rewrite Nat.add_succ_r.
Qed.

Lemma prints_other t ks vars text cmds :
  String.eqb text t = false → prints t ks (Print vars text :: cmds) = prints t ks cmds.
Proof. intros H. unfold prints. simpl. by rewrite H. Qed.

Lemma prints_this t ks vars cmds :
  prints t ks (Print vars t :: cmds) = ((λ key, vars !! key) <$> ks) :: prints t ks cmds.
Proof. unfold prints. simpl. by rewrite String.eqb_refl. Qed.

Lemma prints_skip t ks cmds :
  prints t ks (Indent :: cmds) = prints t ks cmds ∧ prints t ks (Outdent :: cmds) = prints t ks cmds ∧
  prints t ks [] = [].
Proof. done. Qed.

Ltac run_prints :=
  unfold print, print1;
  repeat first
    [ rewrite prints_this
    | rewrite prints_other by (vm_compute; reflexivity)
    | rewrite (proj1 (prints_skip _ _ _))
    | rewrite (proj1 (proj2 (prints_skip _ _ _)))
    | rewrite (proj2 (proj2 (prints_skip _ _ [])))
    | rewrite prints_app
    | progress cbn [app fmap list_fmap] ].

Lemma mjoin_singletons {A B} (f : nat → A → B) (xs : list A) :
  mjoin (imap (λ k x, [f k x]) xs) = imap f xs.
Proof.
  revert f. induction xs as [|x xs IH]; intros f; [done|]. csimpl. f_equal. apply (IH (λ k, f (S k))).
Qed.

Lemma mjoin_nils {A B} (xs : list A) : mjoin (imap (λ (_ : nat) (_ : A), [] : list B) xs) = [].
Proof. induction xs as [|x xs IH]; [done|]. csimpl. done. Qed.

Lemma imap_fmap_const {A B} (f : A → B) (xs : list A) : imap (λ _, f) xs = f <$> xs.
Proof. induction xs; csimpl; by f_equal. Qed.

(** The services, their methods and the numbers of the methods. *)
Definition routes (file : FileDescriptor) : list (list (option string)) :=
  services file ≫= λ s, (λ m, [Some (service_name s); Some (method_name m)]) <$> methods s.

Definition numbered_routes (file : FileDescriptor) : list (list (option string)) :=
  services file ≫= λ s, imap (λ id m, [Some (pretty id); Some (service_name s); Some (method_name m)]) (methods s).

Definition of_service (s : ServiceDescriptor) (vars : variables) : Prop :=
  vars !! "service_name" = Some (service_name s).

Lemma of_service_start s v : of_service s (<["service_class" := v]> {["service_name" := service_name s]}).
Proof. unfold of_service. rewrite lookup_insert_ne by done. by rewrite lookup_singleton_eq. Qed.

Lemma of_service_method s m vars : of_service s vars → of_service s (AddMethodInfo m vars).
Proof. unfold of_service, AddMethodInfo. by rewrite !lookup_insert_ne by done. Qed.

Lemma of_service_id s v vars : of_service s vars → of_service s (<["id" := v]> vars).
Proof. unfold of_service. by rewrite lookup_insert_ne by done. Qed.

Lemma AddMethodInfo_name m vars : AddMethodInfo m vars !! "method_name" = Some (method_name m).
Proof. unfold AddMethodInfo. rewrite !lookup_insert_ne by done. by rewrite lookup_insert_eq. Qed.

(** A method loop of service [s] that prints what [f] says. *)
Ltac prints_loop s f :=
  match goal with
  | |- context [for_methods ?body ?id ?ms ?vars] =>
      match goal with |- prints ?t ?ks _ = _ =>
        let HP := fresh "HP" in let Hp := fresh "Hp" in
        unshelve epose proof (prints_for_methods t ks (of_service s) body f _ ms id vars _) as [HP Hp];
        [ let m := fresh "m" in let Hs := fresh "Hs" in
          intros ? m ? Hs; apply (of_service_method s m) in Hs; cbn [fst snd];
          (split; [by repeat apply of_service_id|]); run_prints;
          rewrite ?lookup_insert_eq, ?lookup_insert_ne by done; by rewrite ?Hs, ?AddMethodInfo_name
        | by first [assumption | apply of_service_start]
        | destruct (for_methods body id ms vars) as [? ?]; cbn [fst snd] in HP, Hp |- *;
          rewrite ?mjoin_singletons, ?mjoin_nils in Hp ]
      end
  end.

Abbreviation prints_route s := (λ (_ : nat) m, [[Some (service_name s); Some (method_name m)]]).
Abbreviation prints_numbered s :=
  (λ (id : nat) m, [[Some (pretty id); Some (service_name s); Some (method_name m)]]).
Ltac silent_loop s := prints_loop s (λ (_ : nat) (_ : MethodDescriptor), [] : list (list (option string))).

Lemma client_routes file :
  prints Sim.call_template ["service_name"; "method_name"] (Sim.GenerateClientSource file).2 = routes file ∧
  prints Prod.call_template ["service_name"; "method_name"] (Prod.GenerateClientSource file).2 = routes file.
Proof.
  unfold Sim.GenerateClientSource, Prod.GenerateClientSource. cbn [snd].
  split; run_prints; rewrite app_nil_r; apply prints_for_services; intros s; prints_loop s (prints_route s);
    by rewrite Hp, imap_fmap_const.
Qed.

Lemma sim_dispatch_routes file t :
  t = Sim.dispatch_template ∨ t = Sim.handle_template →
  prints t ["service_name"; "method_name"] (Sim.GenerateServiceSource file).2 = routes file.
Proof.
  unfold Sim.GenerateServiceSource. cbn [snd].
  intros [-> | ->]; run_prints; rewrite app_nil_r; apply prints_for_services; intros s;
    prints_loop s (prints_route s); run_prints; by rewrite Hp, imap_fmap_const, app_nil_r.
Qed.

Lemma sim_constructor_routes file :
  prints Sim.constructor_template ["service_name"] (Sim.GenerateServiceSource file).2 =
    (λ s, [Some (service_name s)]) <$> services file.
Proof.
  unfold Sim.GenerateServiceSource. cbn [snd]. run_prints. rewrite app_nil_r.
  rewrite (prints_for_services _ _ _ _ (λ s, [[Some (service_name s)]])).
  - induction (services file); csimpl; [done|]. by f_equal.
  - intros s. silent_loop s. run_prints. by rewrite Hp.
Qed.

Lemma prod_register_routes file :
  prints Prod.register_template ["id"; "service_name"; "method_name"] (Prod.GenerateServiceSource file).2 =
    numbered_routes file ∧
  prints Prod.put_template ["id"; "service_name"; "method_name"] (Prod.GenerateServiceSource file).2 =
    numbered_routes file.
Proof.
  unfold Prod.GenerateServiceSource. cbn [snd].
  split; run_prints; rewrite app_nil_r; apply prints_for_services; intros s.
  - prints_loop s (prints_numbered s). do 3 silent_loop s.
    run_prints. by rewrite Hp, Hp0, Hp1, Hp2, !app_nil_r.
  - do 2 silent_loop s. prints_loop s (prints_numbered s). silent_loop s.
    run_prints. by rewrite Hp, Hp0, Hp1, Hp2, !app_nil_r.
Qed.

(** Client and service agree on how calls are routed. In the simulated
    runtime the client of every method names the service and the method that
    the constructor and the dispatch of the service compare with, and the branch
    for a name calls the method of that name. In production, the path in the
    request of the client is the path the service registers, under the number
    by which the calls of that method are later put in the queue. *)
Theorem client_and_service_agree (file : FileDescriptor) :
  let names := ["service_name"; "method_name"] in
  let numbers := ["id"; "service_name"; "method_name"] in
  (prints Sim.call_template names (Sim.GenerateClientSource file).2 = routes file ∧
   prints Sim.dispatch_template names (Sim.GenerateServiceSource file).2 = routes file ∧
   prints Sim.handle_template names (Sim.GenerateServiceSource file).2 = routes file ∧
   prints Sim.constructor_template ["service_name"] (Sim.GenerateServiceSource file).2 =
     (λ s, [Some (service_name s)]) <$> services file) ∧
  (prints Prod.call_template names (Prod.GenerateClientSource file).2 = routes file ∧
   prints Prod.register_template numbers (Prod.GenerateServiceSource file).2 = numbered_routes file ∧
   prints Prod.put_template numbers (Prod.GenerateServiceSource file).2 = numbered_routes file) ∧
  (tail <$> numbered_routes file) = routes file.
Proof.
  split_and!; try apply client_routes; try apply prod_register_routes; try apply sim_constructor_routes;
    try (apply sim_dispatch_routes; auto).
  unfold numbered_routes, routes. induction (services file) as [|s ss IH]; csimpl; [done|].
  rewrite fmap_app, IH. f_equal. rewrite fmap_imap, <-imap_fmap_const. done.
Qed.

(** ** Names and files *)

Lemma substring_app (s t : string) : String.substring 0 (String.length s) (s +:+ t) = s.
Proof. induction s as [|c s IH]; simpl; [by destruct t|]. by rewrite IH. Qed.

Lemma substring_all (s : string) : String.substring 0 (String.length s) s = s.
Proof. induction s as [|c s IH]; simpl; [done|]. by rewrite IH. Qed.

Lemma length_string_app (s t : string) :
  String.length (s +:+ t) = (String.length s + String.length t)%nat.
Proof. induction s; simpl; auto. Qed.

Lemma append_inj_l (s t t' : string) : s +:+ t = s +:+ t' → t = t'.
Proof. induction s; simpl; [done|]. intros [= H]. auto. Qed.

Lemma substr0_proto (base : string) (k : Z) :
  (Z.of_nat (String.length base) < u64_max - 7)%Z →
  k = (Z.of_nat (String.length (base +:+ ".proto")) +64 1 -64 7)%Z ∨
  k = (Z.of_nat (String.length (base +:+ ".proto")) -64 7 +64 1)%Z →
  (6 ≤ String.length (base +:+ ".proto"))%nat ∧ substr0 (base +:+ ".proto") k = base.
Proof.
  intros Hsmall Hk. rewrite length_string_app in *. simpl in *. split; [lia|].
  assert (k = Z.of_nat (String.length base)) as ->.
  { unfold u64_max in Hsmall. destruct Hk as [-> | ->]; unfold add64, sub64, wrap64.
    - rewrite Zminus_mod_idemp_l, Z.mod_small by (unfold u64_modulus in *; lia). lia.
    - rewrite Zplus_mod_idemp_l, Z.mod_small by (unfold u64_modulus in *; lia). lia. }
  unfold substr0. rewrite length_string_app. simpl. rewrite Z.min_l by lia. rewrite Nat2Z.id.
  apply substring_app.
Qed.

Lemma PackageToNamespace_dot (s t : string) :
  PackageToNamespace (s +:+ "." +:+ t) = PackageToNamespace s +:+ "::" +:+ PackageToNamespace t.
Proof.
  induction s as [|c s IH]; simpl; [done|]. rewrite IH. by case_decide; simpl.
Qed.

(** What is generated: nothing but an error if some method streams,
    otherwise ten files with distinct names that start with the name of the
    .proto file without its extension; the headers of the dependencies are
    included under the same rule. A name shorter than the extension is kept
    whole, because the subtraction of the sizes wraps around. Packages become
    nested namespaces. *)
Theorem generator_output (file : FileDescriptor) :
  (HasStreaming file = true ↔
     ∃ s m, s ∈ services file ∧ m ∈ methods s ∧ (server_streaming m = true ∨ client_streaming m = true)) ∧
  (HasStreaming file = true → Generate file = Err "streaming is not supported") ∧
  (HasStreaming file = false → ∃ files, Generate file = Ok files ∧ NoDup files.*1 ∧
     files.*1 = (λ suffix, GetProtoFileName file +:+ suffix) <$>
       [".client.prod.h"; ".client.prod.cc"; ".service.prod.h"; ".service.prod.cc";
        ".client.sim.h"; ".client.sim.cc"; ".service.sim.h"; ".service.sim.cc"; ".client.h"; ".service.h"]) ∧
  (∀ base, (Z.of_nat (String.length base) < u64_max - 7)%Z →
     file_name file = base +:+ ".proto" → GetProtoFileName file = base) ∧
  ((String.length (file_name file) < 6)%nat → GetProtoFileName file = file_name file) ∧
  (∀ s t, PackageToNamespace (s +:+ "." +:+ t) = PackageToNamespace s +:+ "::" +:+ PackageToNamespace t).
Proof.
  split_and!.
  - unfold HasStreaming. rewrite existsb_exists. setoid_rewrite existsb_exists.
    setoid_rewrite orb_true_iff. setoid_rewrite <-list_elem_of_In. naive_solver.
  - unfold Generate. by intros ->.
  - unfold Generate. intros ->. eexists. split; [done|]. split; [|done].
    change (NoDup ((λ suffix, GetProtoFileName file +:+ suffix) <$>
       [".client.prod.h"; ".client.prod.cc"; ".service.prod.h"; ".service.prod.cc";
        ".client.sim.h"; ".client.sim.cc"; ".service.sim.h"; ".service.sim.cc"; ".client.h"; ".service.h"])).
    apply NoDup_fmap_2_strong; [intros ?? _ _; apply append_inj_l|]. by apply (bool_decide_eq_true_1 _).
  - intros base Hs Hf. unfold GetProtoFileName. rewrite Hf. eapply substr0_proto; eauto.
  - intros Hlt. unfold GetProtoFileName, substr0. rewrite Z.min_r.
    + rewrite Nat2Z.id. apply substring_all.
    + unfold add64, sub64, wrap64. rewrite Zminus_mod_idemp_l.
      rewrite <-(Z_mod_plus_full _ 1), Z.mod_small; unfold u64_modulus; lia.
  - apply PackageToNamespace_dot.
Qed.

(** queue/queue_service.proto *)
Definition queue_service_proto : FileDescriptor :=
  let message name := MkDescriptor name "" in
  let empty := MkDescriptor "Empty" "google.protobuf" in
  MkFile "queue/queue_service.proto" ["google/protobuf/empty.proto"]
    [MkService "QueueService"
       [MkMethod "Append" (message "AppendRequest") (message "AppendReply") false false;
        MkMethod "Read" (message "ReadRequest") (message "ReadReply") false false;
        MkMethod "Trim" (message "TrimRequest") empty false false;
        MkMethod "ShutDown" empty empty false false]].

Lemma generated_files_well_formed_witness :
  ∃ files, Generate queue_service_proto = Ok files ∧ length files = 10%nat ∧
    Forall (λ f, printer 0 f.2 = Some 0%nat) files.
Proof.
  eexists. split; [reflexivity|]. split; [reflexivity|].
  apply (generated_files_well_formed queue_service_proto). reflexivity.
Defined.
