(* ===== verification/ProdServer.v ===== *)
(** * The production RPC server (src/runtime/production/rpc_server.{h,cpp},
    rpc_service_base.{h,cpp})

    The server runs on four kinds of threads: the dispatching thread that takes
    completions from the queue of gRPC, the threads in [Run] that start a fiber
    for every call of the channel, these fibers, and the thread in [ShutDown].
    The model is a state with one program counter per thread; a label chooses
    the thread that acts next, and [exec] is its next action ([None] while the
    thread is blocked). Objects of type [RpcCall] live on a heap: touching a
    deleted one is [Undefined].

    gRPC is the environment. What is used of its documentation: a requested call
    completes with [ok] when a request arrives, or without it after the server
    was shut down; [Finish] completes once; [Next] returns [false] only when the
    queue was shut down and is drained; no operation may be added to a queue
    after its shutdown; [BuildAndStart] returns a null pointer if the server
    cannot be started. [Shutdown] of the server may return at any time. *)

From S2P Require Import Prelude.
From S2P Require Import Result.
From S2P Require Import RtTypes.
Open Scope nat_scope.

(** Status codes of gRPC that the code distinguishes. *)
Inductive grpc_code : Type := GrpcCancelled | GrpcUnimplemented | GrpcInternal | GrpcOther.

#[export] Instance grpc_code_eq_dec : EqDecision grpc_code.
Proof. solve_decision. Defined.

Section server.
Context {Response : Type}.

(** [RpcCallBase] with the method of its derived class; its latch guard lives
    as long as the object. *)
Record RpcCall : Type := MkRpcCall { call_method : nat; call_finished : bool }.

(** What [responder] sends: a value or a status. *)
Inductive answer : Type :=
  | Finish (reply : Response)
  | FinishWithError (code : grpc_code) (message : string).

Inductive dispatcher_pc : Type :=
  | Putting (methods : list nat)
  | Waiting
  | Got (tag : nat) (ok : bool)
  | Requeue (tag : nat)
  | Pushing (tag : nat)
  | Stopped.

#[global] Instance dispatcher_pc_eq_dec : EqDecision dispatcher_pc.
Proof. solve_decision. Defined.

Inductive worker_pc : Type := Checking | Popping | Returned.

Inductive fiber_pc : Type := Posted | Handling.

#[global] Instance fiber_pc_eq_dec : EqDecision fiber_pc.
Proof. solve_decision. Defined.

Inductive shutdown_pc : Type :=
  | NotCalled | ShuttingServer | AwaitingRequests | ShuttingQueue | ClosingChannel
  | Joining | AwaitingWorkers | Finished.

(** The completion queue and the server of gRPC: requested and finishing calls,
    and the completions that [Next] can return. *)
Record Grpc : Type := MkGrpc {
  requested : list nat;
  finishing : list nat;
  events : list (nat * bool);
  server_down : bool;
  queue_down : bool;
}.

(** [ServerImpl] and its threads; [accepted] and [answers] record the calls
    that passed the check of the dispatcher and what was sent for them. *)
Record ServerImpl : Type := MkServerImpl {
  services_ : list (list nat);
  running_ : bool;
  finished_ : bool;
  server_ : bool;
  heap : gmap nat RpcCall;
  fresh : nat;
  requests_latch_ : nat;
  grpc : Grpc;
  channel_ : list nat;
  channel_closed : bool;
  dispatcher : dispatcher_pc;
  workers : list worker_pc;
  workers_latch_ : nat;
  fibers : list (nat * fiber_pc);
  shutdown : shutdown_pc;
  accepted : list nat;
  answers : list (nat * answer);
}.

(** Field updates. *)
Definition set_requested (x : list nat) (g : Grpc) : Grpc :=
  MkGrpc x (finishing g) (events g) (server_down g) (queue_down g).
Definition set_finishing (x : list nat) (g : Grpc) : Grpc :=
  MkGrpc (requested g) x (events g) (server_down g) (queue_down g).
Definition set_events (x : list (nat * bool)) (g : Grpc) : Grpc :=
  MkGrpc (requested g) (finishing g) x (server_down g) (queue_down g).
Definition set_server_down (x : bool) (g : Grpc) : Grpc :=
  MkGrpc (requested g) (finishing g) (events g) x (queue_down g).
Definition set_queue_down (x : bool) (g : Grpc) : Grpc :=
  MkGrpc (requested g) (finishing g) (events g) (server_down g) x.

Definition set_services_ (x : list (list nat)) (s : ServerImpl) : ServerImpl :=
  MkServerImpl x (running_ s) (finished_ s) (server_ s) (heap s) (fresh s) (requests_latch_ s) (grpc s)
    (channel_ s) (channel_closed s) (dispatcher s) (workers s) (workers_latch_ s) (fibers s)
    (shutdown s) (accepted s) (answers s).
Definition set_running_ (x : bool) (s : ServerImpl) : ServerImpl :=
  MkServerImpl (services_ s) x (finished_ s) (server_ s) (heap s) (fresh s) (requests_latch_ s) (grpc s)
    (channel_ s) (channel_closed s) (dispatcher s) (workers s) (workers_latch_ s) (fibers s)
    (shutdown s) (accepted s) (answers s).
Definition set_finished_ (x : bool) (s : ServerImpl) : ServerImpl :=
  MkServerImpl (services_ s) (running_ s) x (server_ s) (heap s) (fresh s) (requests_latch_ s) (grpc s)
    (channel_ s) (channel_closed s) (dispatcher s) (workers s) (workers_latch_ s) (fibers s)
    (shutdown s) (accepted s) (answers s).
Definition set_server_ (x : bool) (s : ServerImpl) : ServerImpl :=
  MkServerImpl (services_ s) (running_ s) (finished_ s) x (heap s) (fresh s) (requests_latch_ s) (grpc s)
    (channel_ s) (channel_closed s) (dispatcher s) (workers s) (workers_latch_ s) (fibers s)
    (shutdown s) (accepted s) (answers s).
Definition set_heap (x : gmap nat RpcCall) (s : ServerImpl) : ServerImpl :=
  MkServerImpl (services_ s) (running_ s) (finished_ s) (server_ s) x (fresh s) (requests_latch_ s) (grpc
    s) (channel_ s) (channel_closed s) (dispatcher s) (workers s) (workers_latch_ s) (fibers s)
    (shutdown s) (accepted s) (answers s).
Definition set_fresh (x : nat) (s : ServerImpl) : ServerImpl :=
  MkServerImpl (services_ s) (running_ s) (finished_ s) (server_ s) (heap s) x (requests_latch_ s) (grpc s)
    (channel_ s) (channel_closed s) (dispatcher s) (workers s) (workers_latch_ s) (fibers s)
    (shutdown s) (accepted s) (answers s).
Definition set_requests_latch_ (x : nat) (s : ServerImpl) : ServerImpl :=
  MkServerImpl (services_ s) (running_ s) (finished_ s) (server_ s) (heap s) (fresh s) x (grpc s) (channel_
    s) (channel_closed s) (dispatcher s) (workers s) (workers_latch_ s) (fibers s) (shutdown s)
    (accepted s) (answers s).
Definition set_grpc (x : Grpc) (s : ServerImpl) : ServerImpl :=
  MkServerImpl (services_ s) (running_ s) (finished_ s) (server_ s) (heap s) (fresh s) (requests_latch_ s)
    x (channel_ s) (channel_closed s) (dispatcher s) (workers s) (workers_latch_ s) (fibers s)
    (shutdown s) (accepted s) (answers s).
Definition set_channel_ (x : list nat) (s : ServerImpl) : ServerImpl :=
  MkServerImpl (services_ s) (running_ s) (finished_ s) (server_ s) (heap s) (fresh s) (requests_latch_ s)
    (grpc s) x (channel_closed s) (dispatcher s) (workers s) (workers_latch_ s) (fibers s)
    (shutdown s) (accepted s) (answers s).
Definition set_channel_closed (x : bool) (s : ServerImpl) : ServerImpl :=
  MkServerImpl (services_ s) (running_ s) (finished_ s) (server_ s) (heap s) (fresh s) (requests_latch_ s)
    (grpc s) (channel_ s) x (dispatcher s) (workers s) (workers_latch_ s) (fibers s) (shutdown
    s) (accepted s) (answers s).
Definition set_dispatcher (x : dispatcher_pc) (s : ServerImpl) : ServerImpl :=
  MkServerImpl (services_ s) (running_ s) (finished_ s) (server_ s) (heap s) (fresh s) (requests_latch_ s)
    (grpc s) (channel_ s) (channel_closed s) x (workers s) (workers_latch_ s) (fibers s)
    (shutdown s) (accepted s) (answers s).
Definition set_workers (x : list worker_pc) (s : ServerImpl) : ServerImpl :=
  MkServerImpl (services_ s) (running_ s) (finished_ s) (server_ s) (heap s) (fresh s) (requests_latch_ s)
    (grpc s) (channel_ s) (channel_closed s) (dispatcher s) x (workers_latch_ s) (fibers s)
    (shutdown s) (accepted s) (answers s).
Definition set_workers_latch_ (x : nat) (s : ServerImpl) : ServerImpl :=
  MkServerImpl (services_ s) (running_ s) (finished_ s) (server_ s) (heap s) (fresh s) (requests_latch_ s)
    (grpc s) (channel_ s) (channel_closed s) (dispatcher s) (workers s) x (fibers s) (shutdown
    s) (accepted s) (answers s).
Definition set_fibers (x : list (nat * fiber_pc)) (s : ServerImpl) : ServerImpl :=
  MkServerImpl (services_ s) (running_ s) (finished_ s) (server_ s) (heap s) (fresh s) (requests_latch_ s)
    (grpc s) (channel_ s) (channel_closed s) (dispatcher s) (workers s) (workers_latch_ s) x
    (shutdown s) (accepted s) (answers s).
Definition set_shutdown (x : shutdown_pc) (s : ServerImpl) : ServerImpl :=
  MkServerImpl (services_ s) (running_ s) (finished_ s) (server_ s) (heap s) (fresh s) (requests_latch_ s)
    (grpc s) (channel_ s) (channel_closed s) (dispatcher s) (workers s) (workers_latch_ s)
    (fibers s) x (accepted s) (answers s).
Definition set_accepted (x : list nat) (s : ServerImpl) : ServerImpl :=
  MkServerImpl (services_ s) (running_ s) (finished_ s) (server_ s) (heap s) (fresh s) (requests_latch_ s)
    (grpc s) (channel_ s) (channel_closed s) (dispatcher s) (workers s) (workers_latch_ s)
    (fibers s) (shutdown s) x (answers s).
Definition set_answers (x : list (nat * answer)) (s : ServerImpl) : ServerImpl :=
  MkServerImpl (services_ s) (running_ s) (finished_ s) (server_ s) (heap s) (fresh s) (requests_latch_ s)
    (grpc s) (channel_ s) (channel_closed s) (dispatcher s) (workers s) (workers_latch_ s)
    (fibers s) (shutdown s) (accepted s) x.

Definition kQueueSize : nat := Nat.pow 2 10.

(** The buffer of [buffered_channel] keeps one of its slots free. *)
Definition channel_full (s : ServerImpl) : bool := bool_decide (pred kQueueSize ≤ length (channel_ s)).

Definition ServerImpl_new : ServerImpl :=
  MkServerImpl [] false false false ∅ 0 0 (MkGrpc [] [] [] false false) [] false Stopped [] 0 []
    NotCalled [] [].

Definition Register (methods : list nat) (s : ServerImpl) : outcome ServerImpl :=
  _ ← verify (negb (running_ s)) "cannot register service in running server";
  Done (set_services_ (services_ s ++ [methods]) s).

(** [built] tells whether [BuildAndStart] returned a server. *)
Definition Start (built : bool) (s : ServerImpl) : outcome ServerImpl :=
  _ ← verify (negb (running_ s)) "server is running already";
  let s := set_running_ true s in
  _ ← verify (negb (finished_ s)) "server cannot be run twice";
  let s := set_server_ built s in
  Done (set_dispatcher (Putting (mjoin (services_ s))) s).

Definition ServerImpl_destroy (s : ServerImpl) : outcome unit :=
  verify (finished_ s) "Destruction of running server".

(** *** The dispatching thread *)

(** [latch.MakeGuard()], [new RpcCall] and [RequestAsyncUnary] of the generated
    service. *)
Definition PutNewCallInQueue (method : nat) (s : ServerImpl) : outcome ServerImpl :=
  if negb (server_ s) then Undefined "null server"
  else if queue_down (grpc s) then Undefined "completion queue is shut down"
  else
    let t := fresh s in
    let s := set_requests_latch_ (S (requests_latch_ s)) s in
    let s := set_fresh (S t) (set_heap (<[t := MkRpcCall method false]> (heap s)) s) in
    Done (set_grpc (set_requested (requested (grpc s) ++ [t]) (grpc s)) s).

Definition lookup_call (t : nat) (s : ServerImpl) : outcome RpcCall :=
  match heap s !! t with
  | Some c => Done c
  | None => Undefined "use of a deleted call"
  end.

(** [delete rpc_call] releases the guard of the call. *)
Definition delete_call (t : nat) (s : ServerImpl) : outcome ServerImpl :=
  _ ← lookup_call t s;
  Done (set_requests_latch_ (pred (requests_latch_ s)) (set_heap (delete t (heap s)) s)).

(** [queue_->Next]: the [i]th completion, or the end of a drained queue. *)
Definition queue_Next (i : nat) (s : ServerImpl) : option (outcome ServerImpl) :=
  match events (grpc s) !! i with
  | Some (t, ok) =>
      let g := set_events (delete i (events (grpc s))) (grpc s) in
      Some (Done (set_dispatcher (Got t ok) (set_grpc g s)))
  | None =>
      if queue_down (grpc s) && bool_decide (events (grpc s) = [])
         && bool_decide (requested (grpc s) = []) && bool_decide (finishing (grpc s) = [])
      then Some (Done (set_dispatcher Stopped s))
      else None
  end.

Definition RunDispatchingWorker (i : nat) (s : ServerImpl) : option (outcome ServerImpl) :=
  match dispatcher s with
  | Putting [] => Some (Done (set_dispatcher Waiting s))
  | Putting (method :: methods) =>
      Some (s ← PutNewCallInQueue method s; Done (set_dispatcher (Putting methods) s))
  | Waiting => queue_Next i s
  | Got t ok =>
      Some (rpc_call ← lookup_call t s;
            if call_finished rpc_call || negb ok || negb (running_ s)
            then s ← delete_call t s; Done (set_dispatcher Waiting s)
            else Done (set_dispatcher (Requeue t) (set_accepted (accepted s ++ [t]) s)))
  | Requeue t =>
      Some (rpc_call ← lookup_call t s;
            s ← PutNewCallInQueue (call_method rpc_call) s;
            Done (set_dispatcher (Pushing t) s))
  | Pushing t =>
      if channel_closed s then Some (Done (set_dispatcher Waiting s))
      else if channel_full s then None
      else Some (Done (set_dispatcher Waiting (set_channel_ (channel_ s ++ [t]) s)))
  | Stopped => None
  end.

(** *** [Run] *)

Definition Run_begin (s : ServerImpl) : ServerImpl :=
  set_workers_latch_ (S (workers_latch_ s)) (set_workers (workers s ++ [Checking]) s).

Definition Run_return (w : nat) (s : ServerImpl) : ServerImpl :=
  set_workers_latch_ (pred (workers_latch_ s)) (set_workers (<[w := Returned]> (workers s)) s).

Definition Run_step (w : nat) (s : ServerImpl) : option (outcome ServerImpl) :=
  match workers s !! w with
  | Some Checking =>
      Some (Done (if channel_closed s then Run_return w s
                  else set_workers (<[w := Popping]> (workers s)) s))
  | Some Popping =>
      match channel_ s with
      | task :: channel =>
          let s := set_channel_ channel s in
          let s := set_fibers (fibers s ++ [(task, Posted)]) s in
          Some (Done (set_workers (<[w := Checking]> (workers s)) s))
      | [] => if channel_closed s then Some (Done (Run_return w s)) else None
      end
  | Some Returned | None => None
  end.

(** *** The fiber of a call: [RunImpl] around the handler *)

Definition RunImpl_answer (reply : Result Response RpcError) : answer :=
  match reply with
  | Ok r => Finish r
  | Err e => FinishWithError GrpcInternal (rpc_status_message e)
  end.

Definition RunImpl (f : nat) (reply : Result Response RpcError) (s : ServerImpl)
    : option (outcome ServerImpl) :=
  match fibers s !! f with
  | Some (t, Posted) =>
      Some (rpc_call ← lookup_call t s;
            let s := set_heap (<[t := MkRpcCall (call_method rpc_call) true]> (heap s)) s in
            Done (set_fibers (<[f := (t, Handling)]> (fibers s)) s))
  | Some (t, Handling) =>
      Some (_ ← lookup_call t s;
            let s := set_fibers (delete f (fibers s)) s in
            let s := set_answers (answers s ++ [(t, RunImpl_answer reply)]) s in
            Done (set_grpc (set_finishing (finishing (grpc s) ++ [t]) (grpc s)) s))
  | None => None
  end.

(** *** [ShutDown] *)

Definition ShutDown (s : ServerImpl) : outcome ServerImpl :=
  let was_running := running_ s in
  let s := set_running_ false s in
  let was_finished := finished_ s in
  let s := if was_running then set_finished_ true s else s in
  _ ← verify (was_running && negb was_finished) "server is not running";
  Done (set_shutdown ShuttingServer s).

Definition ShutDown_step (s : ServerImpl) : option (outcome ServerImpl) :=
  match shutdown s with
  | NotCalled | Finished => None
  | ShuttingServer =>
      if negb (server_ s) then Some (Undefined "null server")
      else Some (Done (set_shutdown AwaitingRequests (set_grpc (set_server_down true (grpc s)) s)))
  | AwaitingRequests =>
      if decide (requests_latch_ s = 0) then Some (Done (set_shutdown ShuttingQueue s)) else None
  | ShuttingQueue =>
      Some (Done (set_shutdown ClosingChannel (set_grpc (set_queue_down true (grpc s)) s)))
  | ClosingChannel => Some (Done (set_shutdown Joining (set_channel_closed true s)))
  | Joining =>
      match dispatcher s with
      | Stopped => Some (Done (set_shutdown AwaitingWorkers s))
      | _ => None
      end
  | AwaitingWorkers =>
      if decide (workers_latch_ s = 0) then Some (Done (set_shutdown Finished s)) else None
  end.

(** *** gRPC *)

(** The [i]th requested call completes: a request arrived and was written into
    the call, or the server was shut down. *)
Definition grpc_arrive (i : nat) (s : ServerImpl) : option (outcome ServerImpl) :=
  if server_down (grpc s) then None
  else match requested (grpc s) !! i with
       | Some t =>
           let g := set_requested (delete i (requested (grpc s))) (grpc s) in
           Some (_ ← lookup_call t s; Done (set_grpc (set_events (events g ++ [(t, true)]) g) s))
       | None => None
       end.

Definition grpc_cancel (i : nat) (s : ServerImpl) : option (outcome ServerImpl) :=
  if negb (server_down (grpc s)) then None
  else match requested (grpc s) !! i with
       | Some t =>
           let g := set_requested (delete i (requested (grpc s))) (grpc s) in
           Some (Done (set_grpc (set_events (events g ++ [(t, false)]) g) s))
       | None => None
       end.

Definition grpc_finished (i : nat) (ok : bool) (s : ServerImpl) : option (outcome ServerImpl) :=
  match finishing (grpc s) !! i with
  | Some t =>
      let g := set_finishing (delete i (finishing (grpc s))) (grpc s) in
      Some (Done (set_grpc (set_events (events g ++ [(t, ok)]) g) s))
  | None => None
  end.

(** *** Executions *)

Inductive label : Type :=
  | Dispatch (i : nat)
  | CallRun
  | Worker (w : nat)
  | Fiber (f : nat) (reply : Result Response RpcError)
  | CallShutDown
  | Shutter
  | Arrive (i : nat)
  | Cancel (i : nat)
  | Complete (i : nat) (ok : bool).

Definition exec (l : label) (s : ServerImpl) : option (outcome ServerImpl) :=
  match l with
  | Dispatch i => RunDispatchingWorker i s
  | CallRun => Some (Done (Run_begin s))
  | Worker w => Run_step w s
  | Fiber f reply => RunImpl f reply s
  | CallShutDown => Some (ShutDown s)
  | Shutter => ShutDown_step s
  | Arrive i => grpc_arrive i s
  | Cancel i => grpc_cancel i s
  | Complete i ok => grpc_finished i ok s
  end.
End server.
