(* ===== verification/QueueMain.v ===== *)
(** * The process of the queue service

    [main] of src/queue/service.cpp: it opens the storage, builds the service,
    starts the production server (ProdServer.v), creates a fiber for
    [Server::Run], and waits in [WaitShutDown] until a request [ShutDown] has
    set [shut_down_].

    The fiber is created with the default launch policy of boost.fiber, [post]:
    it is made ready on the thread of [main] and runs when the running fiber of
    that thread is suspended. So are the fibers that [Run] creates for requests.
    [WaitShutDown] waits for a [std::condition_variable], which blocks the
    thread. The waits of [Latch] and [fiber::join] suspend only the fiber.

    [wait_suspends] is what the wait of [WaitShutDown] does: [false] in the code;
    with [true] the same model describes a service that waits for a condition
    variable of boost.fiber. *)

From S2P Require Import Prelude.
From S2P Require Import Result.
From S2P Require Import RtTypes.
From S2P Require Import IDatabase.
From S2P Require Import Database.
From S2P Require Import KVInterface.
From S2P Require Import Serde.
From S2P Require Import DatabaseMap.
From S2P Require Import KVStorage.
From S2P Require Import Queue.
From S2P Require Import ProdServer.

Local Open Scope Z_scope.

(** ** Requests *)

(** The methods of the service in the order of queue_service.proto. *)
Inductive QueueMethod : Type := MAppend | MRead | MTrim | MShutDown.

Definition method_id (m : QueueMethod) : nat :=
  match m with MAppend => 0 | MRead => 1 | MTrim => 2 | MShutDown => 3 end.

Definition queue_methods : list nat := method_id <$> [MAppend; MRead; MTrim; MShutDown].

Record QueueRequest : Type := MkQueueRequest { request_id : Z; request_data : string }.

Inductive QueueReply : Type :=
  | AppendReply (id : Z)
  | ReadReplyOf (reply : ReadReply)
  | EmptyReply.

Section process.
Context {S : Type} {ops : StorageOps S string}.
Variable wait_suspends : bool.

(** The handler of method number [m]; none of them suspends its fiber. *)
Definition handle (m : nat) (request : QueueRequest) (q : QueueService S) :
    outcome (Result QueueReply RpcError * QueueService S) :=
  if decide (m = method_id MAppend) then
    let '(index, q) := Append_begin q in
    '(r, q) ← Append_end index (request_data request) q;
    Done (Transform r AppendReply, q)
  else if decide (m = method_id MRead) then
    r ← Queue.Read (request_id request) q;
    Done (Transform r ReadReplyOf, q)
  else if decide (m = method_id MTrim) then
    '(r, q) ← Trim (request_id request) q;
    Done (Transform r (λ _, EmptyReply), q)
  else
    let '(r, q) := Queue.ShutDown q in Done (Transform r (λ _, EmptyReply), q).

(** ** The process *)

(** Where [main] is. *)
Inductive main_pc : Type :=
  | Opening (db : Result S DBError)   (** [kv::Open] has returned [db] *)
  | Constructing (storage : S)
  | Registering
  | Starting
  | Spawning
  | WaitShutDown
  | CallingShutDown
  | InShutDown
  | JoiningWorker
  | Exited (code : Z).

Inductive worker_fiber : Type := NotCreated | Created | Started.

Record process : Type := MkProcess {
  pc : main_pc;
  worker : worker_fiber;
  server : ServerImpl (Response := QueueReply);
  service : option (QueueService S);
}.

Definition process_new (db : Result S DBError) : process :=
  MkProcess (Opening db) NotCreated ServerImpl_new None.

Definition set_pc (c : main_pc) (p : process) : process :=
  MkProcess c (worker p) (server p) (service p).
Definition set_worker (w : worker_fiber) (p : process) : process :=
  MkProcess (pc p) w (server p) (service p).
Definition set_server (s : ServerImpl) (p : process) : process :=
  MkProcess (pc p) (worker p) s (service p).
Definition set_service (q : QueueService S) (p : process) : process :=
  MkProcess (pc p) (worker p) (server p) (Some q).

(** The predicate of [WaitShutDown]. *)
Definition shut_down_set (p : process) : bool :=
  match service p with Some q => shut_down q | None => false end.

(** The next step of [main]; [built] tells whether the server could be started. *)
Definition main_step (built : bool) (p : process) : option (outcome process) :=
  match pc p with
  | Opening (Err e) => Some (Done (set_pc (Exited 1) p))
  | Opening (Ok storage) => Some (Done (set_pc (Constructing storage) p))
  | Constructing storage =>
      Some (q ← QueueService_new storage; Done (set_pc Registering (set_service q p)))
  | Registering =>
      Some (s ← Register queue_methods (server p); Done (set_pc Starting (set_server s p)))
  | Starting => Some (s ← Start built (server p); Done (set_pc Spawning (set_server s p)))
  | Spawning => Some (Done (set_pc WaitShutDown (set_worker Created p)))
  | WaitShutDown => if shut_down_set p then Some (Done (set_pc CallingShutDown p)) else None
  | CallingShutDown =>
      Some (s ← ProdServer.ShutDown (server p); Done (set_pc InShutDown (set_server s p)))
  | InShutDown =>
      match shutdown (server p) with
      | Finished => Some (Done (set_pc JoiningWorker p))
      | _ => r ← ShutDown_step (server p); Some (s ← r; Done (set_server s p))
      end
  | JoiningWorker =>
      match worker p, workers (server p) with
      | Started, [Returned] =>
          Some (_ ← ServerImpl_destroy (server p); Done (set_pc (Exited 0) p))
      | _, _ => None
      end
  | Exited _ => None
  end.

(** Whether other fibers of the thread of [main] may run: [main] is in a wait
    that suspends its fiber. ([Joining] is the join of a thread.) *)
Definition main_suspended (p : process) : bool :=
  match pc p with
  | WaitShutDown => wait_suspends
  | InShutDown => match shutdown (server p) with AwaitingRequests | AwaitingWorkers => true | _ => false end
  | JoiningWorker => true
  | _ => false
  end.

(** The dispatching thread and gRPC act at any time after [Start]. *)
Inductive thread_label : Type :=
  | TDispatch (i : nat)
  | TArrive (i : nat)
  | TCancel (i : nat)
  | TComplete (i : nat) (ok : bool).

Definition thread_step (l : thread_label) (s : ServerImpl (Response := QueueReply)) :
    option (outcome ServerImpl) :=
  match l with
  | TDispatch i => RunDispatchingWorker i s
  | TArrive i => grpc_arrive i s
  | TCancel i => grpc_cancel i s
  | TComplete i ok => grpc_finished i ok s
  end.

(** The fiber of a request: [RunImpl] around the handler of its method. *)
Definition handler_step (f : nat) (request : QueueRequest) (p : process) : option (outcome process) :=
  match fibers (server p) !! f, service p with
  | Some (t, Posted), _ =>
      r ← RunImpl f (Ok EmptyReply) (server p); Some (s ← r; Done (set_server s p))
  | Some (t, Handling), Some q =>
      Some (call ← lookup_call t (server p);
            '(reply, q) ← handle (call_method call) request q;
            match RunImpl f reply (server p) with
            | Some r => s ← r; Done (set_server s (set_service q p))
            | None => Undefined "no such fiber"
            end)
  | _, _ => None
  end.

Inductive plabel : Type :=
  | PMain (built : bool)
  | PThread (l : thread_label)
  | PStartWorker
  | PWorker
  | PHandler (f : nat) (request : QueueRequest).

Definition pexec (l : plabel) (p : process) : option (outcome process) :=
  match l with
  | PMain built => main_step built p
  | PThread l => r ← thread_step l (server p); Some (s ← r; Done (set_server s p))
  | PStartWorker =>
      match worker p with
      | Created => if main_suspended p
                   then Some (Done (set_worker Started (set_server (Run_begin (server p)) p)))
                   else None
      | _ => None
      end
  | PWorker =>
      if main_suspended p
      then r ← Run_step 0 (server p); Some (s ← r; Done (set_server s p))
      else None
  | PHandler f request => if main_suspended p then handler_step f request p else None
  end.

Inductive pstep : process → process → Prop :=
  | pstep_exec l p p' : pexec l p = Some (Done p') → pstep p p'.

(** Execution of a schedule. *)
Fixpoint prun (ls : list plabel) (p : process) : option (outcome process) :=
  match ls with
  | [] => Some (Done p)
  | l :: ls => r ← pexec l p; match r with Done p => prun ls p | r => Some r end
  end.
End process.

(** ** A service that waits with its fiber *)

(** A client appends a message and then shuts the service down; the schedule is
    that of all threads and fibers. *)
Definition arrival (i : nat) : list plabel :=
  PThread (TArrive i) :: replicate 4 (PThread (TDispatch 0)).
Definition handling (request : QueueRequest) : list plabel :=
  [PWorker; PWorker; PHandler 0 request; PHandler 0 request; PThread (TComplete 0 true);
   PThread (TDispatch 0); PThread (TDispatch 0)].
Definition cancellation : list plabel := [PThread (TCancel 0); PThread (TDispatch 0); PThread (TDispatch 0)].

Definition start_up : list plabel := replicate 5 (PMain true) ++ replicate 5 (PThread (TDispatch 0)).
Definition session : list plabel :=
  start_up ++ arrival 0 ++ [PStartWorker] ++ handling (MkQueueRequest 0 "a") ++
  arrival 2 ++ handling (MkQueueRequest 0 "") ++ replicate 3 (PMain true) ++
  mjoin (replicate 4 cancellation) ++ replicate 3 (PMain true) ++
  [PThread (TDispatch 0); PMain true; PWorker; PMain true; PMain true; PMain true].

Definition summary (r : option (outcome (process (S := HostDatabase)))) :
    option (main_pc * list (nat * answer)) :=
  match r with
  | Some (Done p) => Some (pc p, answers (server p))
  | _ => None
  end.

Example session_with_suspending_wait :
  summary (prun true session (process_new (Ok empty_db))) =
  Some (Exited 0, [(0%nat, Finish (AppendReply 0)); (3%nat, Finish EmptyReply)]).
Proof. vm_compute. reflexivity. Qed.

(** In the code the same request is accepted and stays in the channel. *)
Example request_is_accepted :
  match prun false (start_up ++ arrival 0) (process_new (Ok empty_db)) with
  | Some (Done p) => accepted (server p) = [0%nat] ∧ channel_ (server p) = [0%nat] ∧ pc p = WaitShutDown
  | _ => False
  end.
Proof. vm_compute. done. Qed.

(** ** The service of the code *)

Section never.
Context {S : Type} {ops : StorageOps S string}.

(** Nothing has run on the thread of [main] but [main]. *)
Record idle (s : ServerImpl (Response := QueueReply)) : Prop := MkIdle {
  idle_workers : workers s = [];
  idle_fibers : fibers s = [];
  idle_answers : answers s = [];
}.

Lemma thread_step_idle l s s' : thread_step l s = Some (Done s') → idle s → idle s'.
Proof.
  intros Hstep [Hw Hf Ha].
  enough (workers s' = workers s ∧ fibers s' = fibers s ∧ answers s' = answers s) as (?&?&?)
    by (split; congruence).
  clear Hw Hf Ha. unfold thread_step, RunDispatchingWorker, queue_Next, grpc_arrive, grpc_cancel, grpc_finished,
    PutNewCallInQueue, delete_call, lookup_call in Hstep.
  repeat (case_match; simplify_eq/=; try done).
Qed.

Lemma Register_idle methods s s' : Register methods s = Done s' → idle s → idle s'.
Proof. unfold Register, verify. intros Hs [? ? ?]. case_match; simplify_eq/=. by split. Qed.

Lemma Start_idle built s s' : Start built s = Done s' → idle s → idle s'.
Proof. unfold Start, verify. intros Hs [? ? ?]. repeat (case_match; simplify_eq/=). by split. Qed.

(** The state of the process until it waits, and for ever after. *)
Record waiting (db : Result S DBError) (p : process (S := S)) : Prop := MkWaiting {
  w_idle : idle (server p);
  w_service : ∀ q, service p = Some q → ∃ storage, db = Ok storage ∧ QueueService_new storage = Done q;
  w_pc : match pc p with
         | Opening db' => db' = db
         | Constructing storage => db = Ok storage
         | Registering | Starting | Spawning | WaitShutDown => HasValue db = true
         | Exited code => code = 1 ∧ HasError db = true
         | _ => False
         end;
}.

Lemma waiting_not_shut_down db p : waiting db p → shut_down_set p = false.
Proof.
  intros [_ Hq _]. unfold shut_down_set. destruct (service p) as [q|]; [|done].
  destruct (Hq q eq_refl) as (storage & _ & Hnew). unfold QueueService_new in Hnew.
  destruct (st_LastKey storage); by simplify_eq/=.
Qed.

Lemma waiting_not_suspended db p : waiting db p → main_suspended false p = false.
Proof. intros [_ _ Hpc]. unfold main_suspended. by destruct (pc p). Qed.

Lemma waiting_step db p p' :
  waiting db p → pstep false p p' → waiting db p' ∧ (pc p = WaitShutDown → pc p' = WaitShutDown).
Proof.
  intros Hw Hstep. destruct Hstep as [l p p' Hstep].
  pose proof (waiting_not_shut_down _ _ Hw) as Hshut. pose proof (waiting_not_suspended _ _ Hw) as Hsus.
  destruct Hw as [Hidle Hq Hpc]. destruct l as [built|l| | |f request]; simpl in Hstep.
  - unfold main_step in Hstep. destruct (pc p) as [[storage|e]|storage| | | | | | | |code] eqn:Hp; try done; simplify_eq/=.
    + split; [|done]. by split.
    + split; [|done]. by split.
    + destruct (QueueService_new storage) as [q| |] eqn:Hnew; simplify_eq/=. split; [|done].
      split; simpl; [done| |done]. intros q' [= <-]. by eauto.
    + destruct (Register _ _) as [s| |] eqn:Hs; simplify_eq/=. split; [|done].
      split; simpl; [by eapply Register_idle|done|done].
    + destruct (Start _ _) as [s| |] eqn:Hs; simplify_eq/=. split; [|done].
      split; simpl; [by eapply Start_idle|done|done].
    + split; [|done]. by split.
    + by rewrite Hshut in Hstep.
  - apply bind_Some in Hstep as (r & Hr & [= Hs]). destruct r as [s| |]; simplify_eq/=.
    split; [|done]. split; simpl; [by eapply thread_step_idle|done|done].
  - rewrite Hsus in Hstep. by destruct (worker p).
  - by rewrite Hsus in Hstep.
  - by rewrite Hsus in Hstep.
Qed.

Lemma waiting_run db p p' :
  waiting db p → rtc (pstep false) p p' → waiting db p' ∧ (pc p = WaitShutDown → pc p' = WaitShutDown).
Proof.
  intros Hw Hrun. revert Hw. induction Hrun as [|p p1 p' Hstep _ IH]; intros Hw; [done|].
  destruct (waiting_step _ _ _ Hw Hstep) as [Hw1 Hpc]. destruct (IH Hw1) as [? ?]. auto.
Qed.

(** [C28] The queue service as it is written never answers a request: whatever
    requests arrive and however its threads interleave, no handler runs, the
    service and its storage stay as they were built, a process that waits in
    [WaitShutDown] waits for ever, and the process ends only if the storage could
    not be opened, with code 1. *)
Theorem queue_service_never_answers (db : Result S DBError) (p : process (S := S)) :
  rtc (pstep false) (process_new db) p →
  answers (server p) = [] ∧ fibers (server p) = [] ∧
  (∀ q, service p = Some q → ∃ storage, db = Ok storage ∧ QueueService_new storage = Done q) ∧
  (∀ code, pc p = Exited code → code = 1 ∧ HasError db = true) ∧
  (pc p = WaitShutDown → ∀ p', rtc (pstep false) p p' → pc p' = WaitShutDown).
Proof.
  intros Hrun. destruct (waiting_run db (process_new db) p) as [Hw _]; [by split|done|].
  split_and!; [apply Hw..| |].
  - intros code Hpc. pose proof (w_pc _ _ Hw) as H. by rewrite Hpc in H.
  - intros Hpc p' Hrun'. by eapply waiting_run.
Qed.
End never.

Lemma prun_rtc {S : Type} {ops : StorageOps S string} wait_suspends ls (p p' : process (S := S)) :
  prun wait_suspends ls p = Some (Done p') → rtc (pstep wait_suspends) p p'.
Proof.
  revert p. induction ls as [|l ls IH]; intros p; simpl; [by intros [= ->]|].
  intros (r & Hl & Hr)%bind_Some. destruct r as [p1| |]; [|done..].
  eapply rtc_l; [by eapply pstep_exec|by apply IH].
Qed.

(** A run in which a request to append is accepted. *)
Lemma queue_service_never_answers_witness :
  ∃ p : process (S := HostDatabase),
    rtc (pstep false) (process_new (Ok empty_db)) p ∧ accepted (server p) = [0%nat] ∧
    answers (server p) = [].
Proof.
  destruct (prun false (start_up ++ arrival 0) (process_new (Ok empty_db))) as [[p| |]|] eqn:Hrun;
    [|by vm_compute in Hrun..].
  pose proof (prun_rtc _ _ _ _ Hrun) as Hrtc. exists p. split; [done|]. split.
  - vm_compute in Hrun. by injection Hrun as <-.
  - by destruct (queue_service_never_answers (Ok empty_db) p Hrtc).
Defined.
