(* ===== verification/ProdServerProps.v ===== *)
(** * The production RPC server: calls live exactly as long as they are needed

    The invariant of the server of ProdServer.v under every interleaving of its
    threads: every call object is in exactly one place, the latch counts the
    live objects, and an accepted call is answered once. It follows that no
    thread touches a deleted object and that [ShutDown] returns with nothing
    left behind; that it returns is a separate argument by a measure. *)

From S2P Require Import Prelude.
From S2P Require Import Result.
From S2P Require Import RtTypes.
From S2P Require Import ProdServer.
Open Scope nat_scope.

Section correctness.
Context {Response : Type}.
Abbreviation ServerImpl := (ServerImpl (Response := Response)).
Abbreviation exec := (exec (Response := Response)).
Implicit Types (s : ServerImpl) (t : nat).

(** ** The places of a call *)

Definition dispatching t s : nat :=
  match dispatcher s with Got u _ => same t u | _ => 0 end.

Definition accepting t s : nat :=
  match dispatcher s with Requeue u | Pushing u => same t u | _ => 0 end.

Definition in_fiber (p : fiber_pc) t s : nat := cnt (t, p) (fibers s).

(** Accepted and not answered. *)
Definition in_progress t s : nat :=
  accepting t s + cnt t (channel_ s) + in_fiber Posted t s + in_fiber Handling t s.

Definition in_grpc t s : nat :=
  cnt t (requested (grpc s)) + cnt t (finishing (grpc s))
  + cnt (t, true) (events (grpc s)) + cnt (t, false) (events (grpc s)).

Definition places t s : nat := in_grpc t s + dispatching t s + in_progress t s.

Definition answered t s : nat := cnt t (answers s).*1.

Definition before_run t s : nat :=
  cnt t (requested (grpc s)) + accepting t s + cnt t (channel_ s) + in_fiber Posted t s.

Definition after_start t s : nat := cnt t (finishing (grpc s)) + in_fiber Handling t s.

(** A live call is in one place, before or after its start according to its
    flag; a deleted one is in none. *)
Definition call_ok s t : Prop :=
  match heap s !! t with
  | None => places t s = 0
  | Some c =>
      places t s = 1 ∧
      (if call_finished c then before_run t s = 0 else after_start t s = 0 ∧ answered t s = 0)
  end.

Record tag_ok s t : Prop := {
  tag_call : call_ok s t;
  tag_accepted : cnt t (accepted s) = answered t s + in_progress t s;
  tag_once : cnt t (accepted s) ≤ 1;
  tag_fresh : fresh s ≤ t → heap s !! t = None ∧ cnt t (accepted s) = 0;
}.

(** ** The phases of [ShutDown] *)

Definition phase (p : shutdown_pc) : nat :=
  match p with
  | NotCalled => 0 | ShuttingServer => 1 | AwaitingRequests => 2 | ShuttingQueue => 3
  | ClosingChannel => 4 | Joining => 5 | AwaitingWorkers => 6 | Finished => 7
  end.

(** Calls are still to be requested for these methods. *)
Definition to_put s : list nat := match dispatcher s with Putting ms => ms | _ => [] end.

Definition stopped s : bool := match dispatcher s with Stopped => true | _ => false end.

Definition working (p : worker_pc) : nat := match p with Returned => 0 | _ => 1 end.

Record phase_ok s : Prop := {
  phase_server : server_ s = true;
  phase_running : running_ s = bool_decide (phase (shutdown s) = 0);
  phase_finished : finished_ s = bool_decide (1 ≤ phase (shutdown s));
  phase_server_down : server_down (grpc s) = bool_decide (2 ≤ phase (shutdown s));
  phase_queue_down : queue_down (grpc s) = bool_decide (4 ≤ phase (shutdown s));
  phase_closed : channel_closed s = bool_decide (5 ≤ phase (shutdown s));
  phase_registered : 1 ≤ phase (shutdown s) → to_put s ≠ [] → heap s ≠ ∅;
  phase_empty : 3 ≤ phase (shutdown s) → heap s = ∅;
  phase_stopped : stopped s = true → 4 ≤ phase (shutdown s);
  phase_joined : 6 ≤ phase (shutdown s) → stopped s = true;
}.

Record inv s : Prop := {
  inv_tags : ∀ t, tag_ok s t;
  inv_latch : requests_latch_ s = size (heap s);
  inv_workers : workers_latch_ s = sum_list (working <$> workers s);
  inv_returned : Returned ∈ workers s → channel_closed s = true;
  inv_phase : phase_ok s;
}.

(** [ShutDown] is called only after the dispatching thread has requested its
    first call. *)
Definition registered s : Prop := to_put s = [] ∨ heap s ≠ ∅.

(** ** Every action keeps the invariant *)

Lemma phase_empty_places s t : (∀ t, tag_ok s t) → heap s = ∅ → places t s = 0.
Proof. intros Ht Hh. pose proof (tag_call _ _ (Ht t)) as H. unfold call_ok in H. by rewrite Hh, lookup_empty in H. Qed.

Lemma live_call s t : (∀ t, tag_ok s t) → 0 < places t s → ∃ c, heap s !! t = Some c.
Proof.
  intros Ht Hp. pose proof (tag_call _ _ (Ht t)) as H. unfold call_ok in H.
  destruct (heap s !! t) as [c|]; [by exists c|lia].
Qed.

(** A call that is in a place can be used. *)
Lemma lookup_call_ok s t : (∀ t, tag_ok s t) → 0 < places t s →
  ∃ c, heap s !! t = Some c ∧ lookup_call t s = Done c.
Proof. intros Ht Hp. destruct (live_call _ _ Ht Hp) as [c Hc]. exists c. unfold lookup_call. by rewrite Hc. Qed.

(** Split the claims about one call on whether it is [u], and compute. *)
Ltac unfold_places :=
  unfold call_ok, answered, places, before_run, after_start, in_progress, in_grpc, dispatching, accepting,
    in_fiber in *.
Ltac case_tag t u :=
  destruct (decide (t = u)) as [->|]; rewrite ?fmap_app, ?cnt_app in *; simpl in *;
  rewrite ?same_pair in *; rewrite ?same_refl in *; rewrite ?(same_ne t u) in * by done;
  rewrite ?lookup_insert_eq, ?lookup_delete_eq in *; rewrite ?lookup_insert_ne, ?lookup_delete_ne in * by done.
Ltac tag_lia :=
  repeat match goal with
  | H : context [match heap ?s !! ?t with _ => _ end] |- _ => destruct (heap s !! t) as [[? []]|] eqn:?
  | |- context [match heap ?s !! ?t with _ => _ end] => destruct (heap s !! t) as [[? []]|] eqn:?
  end; simplify_eq/=; repeat split; try done; try lia.

Lemma put_ok m s s' : inv s → queue_down (grpc s) = false → PutNewCallInQueue m s = Done s' →
  (∀ t, tag_ok s' t) ∧ requests_latch_ s' = size (heap s').
Proof.
  intros [Ht Hl _ _ _] Hq Hput. unfold PutNewCallInQueue in Hput. rewrite Hq in Hput.
  destruct (negb (server_ s)); [done|]. injection Hput as <-. simpl.
  destruct (tag_fresh _ _ (Ht (fresh s)) ltac:(lia)) as [Hnone _]. split.
  - intros t. pose proof (Ht t) as [Hc Ha Ho Hf]. split; unfold_places; simpl in *; [|done..|].
    + case_tag t (fresh s); [destruct Hf as [_ Hf]; [done|]|]; tag_lia.
    + intros Hle. destruct Hf as [H1 H2]; [lia|]. split; [|done]. rewrite lookup_insert_ne by lia. done.
  - rewrite map_size_insert_None by done. lia.
Qed.
(** An action is safe if it returns and keeps the invariant. *)
Definition safe (o : option (outcome ServerImpl)) : Prop :=
  ∀ r, o = Some r → ∃ s', r = Done s' ∧ inv s'.

Lemma safe_None : safe None.
Proof. by intros ? [=]. Qed.
Lemma safe_Done s : inv s → safe (Some (Done s)).
Proof. intros ?? [= <-]. by exists s. Qed.

Ltac by_tags H u t :=
  destruct H; split; unfold_places; simpl in *; try assumption; case_tag u t; try assumption; try tag_lia.

Lemma arrive_safe i s : inv s → safe (grpc_arrive i s).
Proof.
  intros [Ht Hl Hw Hr Hp]. unfold grpc_arrive. destruct (server_down (grpc s)); [apply safe_None|].
  destruct (requested (grpc s) !! i) as [t|] eqn:Hi; [|apply safe_None].
  destruct (lookup_call_ok s t) as (c & Hc & ->); [done| |].
  { unfold places, in_grpc. rewrite (cnt_delete t _ _ _ Hi), same_refl. lia. }
  apply safe_Done. split; [|done|done|done|by destruct Hp].
  intros u. pose proof (cnt_delete u _ _ _ Hi). by_tags (Ht u) u t.
Qed.
Lemma cancel_safe i s : inv s → safe (grpc_cancel i s).
Proof.
  intros [Ht Hl Hw Hr Hp]. unfold grpc_cancel. destruct (server_down (grpc s)); [|apply safe_None]. simpl.
  destruct (requested (grpc s) !! i) as [t|] eqn:Hi; [|apply safe_None].
  apply safe_Done. split; [|done|done|done|by destruct Hp].
  intros u. pose proof (cnt_delete u _ _ _ Hi). by_tags (Ht u) u t.
Qed.

Lemma finished_safe i ok s : inv s → safe (grpc_finished i ok s).
Proof.
  intros [Ht Hl Hw Hr Hp]. unfold grpc_finished.
  destruct (finishing (grpc s) !! i) as [t|] eqn:Hi; [|apply safe_None].
  apply safe_Done. split; [|done|done|done|by destruct Hp].
  intros u. pose proof (cnt_delete u _ _ _ Hi). destruct ok; by_tags (Ht u) u t.
Qed.

Lemma RunImpl_safe f reply s : inv s → safe (RunImpl f reply s).
Proof.
  intros [Ht Hl Hw Hr Hp]. unfold RunImpl.
  destruct (fibers s !! f) as [[t []]|] eqn:Hi; [| |apply safe_None];
    (destruct (lookup_call_ok s t) as (c & Hc & ->); [done| |];
       [unfold places, in_progress, in_fiber; pose proof (cnt_delete (t, Posted) _ _ _ Hi);
        pose proof (cnt_delete (t, Handling) _ _ _ Hi); rewrite !same_pair, !same_refl in *; simpl in *; lia|]);
    apply safe_Done; split; simpl; try done.
  - intros u. pose proof (cnt_insert (u, Posted) _ _ _ (t, Handling) Hi).
    pose proof (cnt_insert (u, Handling) _ _ _ (t, Handling) Hi). by_tags (Ht u) u t.
  - rewrite map_size_insert_Some by done. done.
  - destruct Hp; split; simpl; try done.
    + intros. apply insert_non_empty.
    + intros. rewrite phase_empty0 in Hc by done. done.
  - intros u. pose proof (cnt_delete (u, Posted) _ _ _ Hi).
    pose proof (cnt_delete (u, Handling) _ _ _ Hi). by_tags (Ht u) u t.
  - by destruct Hp.
Qed.
Lemma returned_insert (l : list worker_pc) w q :
  q ≠ Returned → Returned ∈ <[w := q]> l → Returned ∈ l.
Proof.
  intros Hq [i Hi]%list_elem_of_lookup. apply list_lookup_insert_Some in Hi as [(_ & ? & _)|[_ Hi]]; [done|].
  by apply list_elem_of_lookup; exists i.
Qed.

Lemma return_inv w p s : inv s → workers s !! w = Some p → p ≠ Returned → channel_closed s = true →
  inv (Run_return w s).
Proof.
  intros [Ht Hl Hw Hr Hp] Hi Hne Hcl. split; simpl; [|done| |done|by destruct Hp].
  - intros u. by destruct (Ht u).
  - pose proof (sum_insert working _ _ _ Returned Hi). destruct p; simpl in *; [lia|lia|done].
Qed.

Lemma Run_safe w s : inv s → safe (Run_step w s).
Proof.
  intros Hinv. pose proof Hinv as [Ht Hl Hw Hr Hp]. unfold Run_step.
  destruct (workers s !! w) as [[]|] eqn:Hi; try apply safe_None.
  - destruct (channel_closed s) eqn:Hcl; [eauto using safe_Done, return_inv|].
    apply safe_Done. split; simpl; [|done| | |by destruct Hp].
    + intros u. by destruct (Ht u).
    + pose proof (sum_insert working _ _ _ Popping Hi). simpl in *. lia.
    + intros Hin. rewrite Hcl. eapply Hr, returned_insert; [|done]. done.
  - destruct (channel_ s) as [|t rest] eqn:Hch.
    { destruct (channel_closed s) eqn:Hcl; [|apply safe_None]. eauto using safe_Done, return_inv. }
    apply safe_Done. split; simpl; [|done| | |by destruct Hp].
    + intros u. pose proof (Ht u) as Hu. by_tags Hu u t; rewrite Hch in *; simpl in *;
        rewrite ?same_refl, ?(same_ne u t) in * by done; tag_lia.
    + pose proof (sum_insert working _ _ _ Checking Hi). simpl in *. lia.
    + intros Hin. eapply Hr, returned_insert; [|done]. done.
Qed.

Lemma Run_begin_inv s : inv s → inv (Run_begin s).
Proof.
  intros [Ht Hl Hw Hr Hp]. split; simpl; [|done| | |by destruct Hp].
  - intros u. by destruct (Ht u).
  - rewrite fmap_app, sum_list_with_app. simpl. lia.
  - intros [?|?%list_elem_of_singleton]%elem_of_app; [auto|done].
Qed.
(** While a call lives the completion queue is open. *)
Lemma live_queue_open s t c : inv s → heap s !! t = Some c → phase (shutdown s) < 3.
Proof.
  intros [_ _ _ _ Hp] Hc. destruct (decide (phase (shutdown s) < 3)); [done|].
  rewrite (phase_empty _ Hp) in Hc by lia. done.
Qed.

Lemma put_Done m s : phase_ok s → phase (shutdown s) < 4 → ∃ s', PutNewCallInQueue m s = Done s'.
Proof.
  intros Hp Hlt. unfold PutNewCallInQueue. rewrite (phase_server _ Hp), (phase_queue_down _ Hp). simpl.
  rewrite bool_decide_false by lia. eauto.
Qed.

(** [PutNewCallInQueue] changes nothing but the heap and the requested calls. *)
Lemma put_frame m s s' : PutNewCallInQueue m s = Done s' →
  shutdown s' = shutdown s ∧ dispatcher s' = dispatcher s ∧ heap s' ≠ ∅ ∧ workers s' = workers s ∧
  workers_latch_ s' = workers_latch_ s ∧ channel_closed s' = channel_closed s ∧ accepted s' = accepted s ∧
  server_ s' = server_ s ∧ running_ s' = running_ s ∧ finished_ s' = finished_ s ∧
  server_down (grpc s') = server_down (grpc s) ∧ queue_down (grpc s') = queue_down (grpc s).
Proof.
  unfold PutNewCallInQueue. destruct (negb (server_ s)); [done|]. destruct (queue_down (grpc s)) eqn:Hq; [done|].
  intros [= <-]. simpl. split_and!; try done. apply insert_non_empty.
Qed.

(** The dispatching thread requests a call and goes on at [pc], which holds the
    same calls as before. *)
Lemma put_inv m pc s s' :
  inv s → phase (shutdown s) < 3 → PutNewCallInQueue m s = Done s' →
  (∀ t, dispatching t (set_dispatcher pc s') = dispatching t s ∧
        accepting t (set_dispatcher pc s') = accepting t s) →
  pc ≠ Stopped → inv (set_dispatcher pc s').
Proof.
  intros Hinv Hph Hput Hpc Hns. pose proof Hinv as [_ _ Hw Hr Hp].
  assert (Hq : queue_down (grpc s) = false).
  { rewrite (phase_queue_down _ Hp). apply bool_decide_false. lia. }
  destruct (put_ok m s s' Hinv Hq Hput) as [Ht Hl].
  destruct (put_frame m s s' Hput) as (F1 & F2 & F3 & F4 & F5 & F6 & F7 & F8 & F9 & F10 & F11 & F12).
  split; simpl; rewrite ?F4, ?F5, ?F6; [|done..|].
  - intros t. destruct (Hpc t) as [E1 E2]. destruct (Ht t).
    assert (E3 : dispatching t s = dispatching t s') by (unfold dispatching; by rewrite F2).
    assert (E4 : accepting t s = accepting t s') by (unfold accepting; by rewrite F2).
    split; unfold call_ok, places, before_run, after_start, in_progress in *;
      rewrite ?E1, ?E2, ?E3, ?E4 in *; try done.
  - destruct Hp; split; simpl; rewrite ?F1, ?F6, ?F8, ?F9, ?F10, ?F11, ?F12; try done; try lia.
    unfold stopped. simpl. by destruct pc.
Qed.

Lemma Next_safe i s : inv s → dispatcher s = Waiting → safe (queue_Next i s).
Proof.
  intros [Ht Hl Hw Hr Hp] Hd. unfold queue_Next.
  destruct (events (grpc s) !! i) as [[t ok]|] eqn:Hi.
  - apply safe_Done. split; simpl; [|done..|destruct Hp; unfold to_put, stopped in *; rewrite Hd in *; by split].
    intros u. pose proof (cnt_delete (u, true) _ _ _ Hi). pose proof (cnt_delete (u, false) _ _ _ Hi).
    destruct ok; destruct (Ht u); split; unfold_places; simpl in *; rewrite Hd in *; try assumption;
      case_tag u t; try assumption; try tag_lia.
  - destruct (queue_down (grpc s)) eqn:Hq; simpl; [|apply safe_None].
    repeat case_bool_decide; simpl; try apply safe_None.
    apply safe_Done. split; simpl; [|done..|].
    + intros u. destruct (Ht u). split; unfold_places; simpl in *; rewrite Hd in *; done.
    + rewrite (phase_queue_down _ Hp) in Hq. apply bool_decide_eq_true in Hq.
      destruct Hp; unfold to_put, stopped in *; rewrite Hd in *. by split.
Qed.
Lemma Got_safe t ok i s : inv s → dispatcher s = Got t ok → safe (RunDispatchingWorker i s).
Proof.
  intros Hinv Hd. pose proof Hinv as [Ht Hl Hw Hr Hp]. unfold RunDispatchingWorker. rewrite Hd.
  destruct (lookup_call_ok s t) as (c & Hc & Hcall); [done| |].
  { unfold places, dispatching. rewrite Hd, same_refl. lia. }
  unfold delete_call. rewrite !Hcall. simpl.
  destruct (call_finished c || negb ok || negb (running_ s)) eqn:Hdel; apply safe_Done; split; simpl; try done.
  - intros u. destruct (Ht u) as [H1 H2 H3 H4]. split; unfold_places; simpl in *; rewrite Hd in *;
      case_tag u t; try assumption; try tag_lia.
  - rewrite map_size_delete_Some by eauto. lia.
  - pose proof (live_queue_open _ _ _ Hinv Hc). destruct Hp; split; simpl; try done; lia.
  - intros u. destruct (Ht u) as [H1 H2 H3 H4].
    assert (Hf : call_finished c = false) by (by destruct (call_finished c)).
    split; unfold_places; simpl in *; rewrite Hd in *; case_tag u t; try assumption;
      rewrite ?Hc, ?Hf in *; try tag_lia; destruct H4; (done || lia).
  - pose proof (live_queue_open _ _ _ Hinv Hc). destruct Hp; split; simpl; try done; lia.
Qed.

Lemma Requeue_safe t i s : inv s → dispatcher s = Requeue t → safe (RunDispatchingWorker i s).
Proof.
  intros Hinv Hd. pose proof Hinv as [Ht Hl Hw Hr Hp]. unfold RunDispatchingWorker. rewrite Hd.
  destruct (lookup_call_ok s t) as (c & Hc & Hcall); [done| |].
  { unfold places, in_progress, accepting. rewrite Hd, same_refl. lia. }
  pose proof (live_queue_open _ _ _ Hinv Hc) as Hlt. rewrite Hcall. simpl.
  destruct (put_Done (call_method c) s Hp) as [s' Hs']; [lia|]. rewrite Hs'. simpl.
  apply safe_Done, (put_inv _ _ _ _ Hinv Hlt Hs'); [|done].
  intros u. unfold dispatching, accepting. by rewrite Hd.
Qed.

Lemma dispatch_safe i s : inv s → safe (RunDispatchingWorker i s).
Proof.
  intros Hinv. pose proof Hinv as [Ht Hl Hw Hr Hp].
  destruct (dispatcher s) as [[|m ms]| |t ok|t|t|] eqn:Hd; eauto using Got_safe, Requeue_safe;
    unfold RunDispatchingWorker; rewrite Hd.
  - apply safe_Done. split; simpl; try done.
    + intros u. destruct (Ht u). split; unfold_places; simpl in *; rewrite Hd in *; done.
    + destruct Hp; unfold to_put, stopped in *; rewrite Hd in *; by split.
  - assert (Hlt : phase (shutdown s) < 3).
    { destruct (decide (phase (shutdown s) < 3)); [done|]. destruct Hp; unfold to_put in *; rewrite Hd in *.
      destruct phase_registered0; [lia|done|apply phase_empty0; lia]. }
    destruct (put_Done m s Hp) as [s' Hs']; [lia|]. rewrite Hs'. simpl.
    apply safe_Done, (put_inv _ _ _ _ Hinv Hlt Hs'); [|done].
    intros u. unfold dispatching, accepting. by rewrite Hd.
  - by apply Next_safe.
  - destruct (channel_closed s) eqn:Hcl; [exfalso|destruct (channel_full s); [apply safe_None|]].
    + rewrite (phase_closed _ Hp) in Hcl. apply bool_decide_eq_true in Hcl.
      pose proof (phase_empty_places s t Ht (phase_empty _ Hp ltac:(lia))) as Hz.
      unfold places, in_progress, accepting in Hz. rewrite Hd, same_refl in Hz. lia.
    + apply safe_Done. split; simpl; try done; [| |].
      * intros u. destruct (Ht u). split; unfold_places; simpl in *; rewrite Hd in *; case_tag u t;
          try assumption; try tag_lia.
      * intros Hin. rewrite Hcl. auto.
      * destruct Hp; unfold to_put, stopped in *; rewrite Hd in *; split; simpl; try (done || congruence).
  - apply safe_None.
Qed.

Lemma ShutDown_inv s : inv s → shutdown s = NotCalled → registered s →
  ∃ s', ShutDown s = Done s' ∧ inv s'.
Proof.
  intros [Ht Hl Hw Hr Hp] Hs Hreg. pose proof Hp as [P1 P2 P3 P4 P5 P6 P7 P8 P9 P10].
  rewrite Hs in *. simpl in *. unfold ShutDown. rewrite P2. simpl. rewrite P3. eexists. split; [reflexivity|].
  split; simpl; try done.
  - intros u. by destruct (Ht u).
  - split; simpl; try done; try lia.
    + intros _ Hput. by destruct Hreg.
    + intros Hst. apply P9 in Hst. lia.
Qed.

Lemma shutter_safe s : inv s → safe (ShutDown_step s).
Proof.
  intros [Ht Hl Hw Hr Hp]. pose proof Hp as [P1 P2 P3 P4 P5 P6 P7 P8 P9 P10]. unfold ShutDown_step.
  assert (Htag : ∀ p, ∀ t, tag_ok (set_shutdown p s) t) by (intros p t; by destruct (Ht t)).
  destruct (shutdown s) eqn:Hs; try apply safe_None; simpl in *.
  - rewrite P1. simpl. apply safe_Done. split; simpl; try done; [intros t; by destruct (Htag Finished t)|].
    split; simpl; try done; naive_solver lia.
  - case_decide as Hz; [|apply safe_None]. apply safe_Done. split; simpl; try done.
    assert (Hh : heap s = ∅) by (apply map_size_empty_inv; lia).
    assert (to_put s = [] ∨ to_put s ≠ []) as [|] by (destruct (to_put s); auto); split; simpl; try done; naive_solver lia.
  - apply safe_Done. split; simpl; try done; [intros t; by destruct (Htag Finished t)|].
    split; simpl; try done; naive_solver lia.
  - apply safe_Done. split; simpl; try done; [intros t; by destruct (Htag Finished t)|].
    split; simpl; try done; naive_solver lia.
  - destruct (dispatcher s) eqn:Hd; try apply safe_None. apply safe_Done. split; simpl; try done.
    assert (stopped s = true) by (unfold stopped; by rewrite Hd). split; simpl; try done; naive_solver lia.
  - case_decide; [|apply safe_None]. apply safe_Done. split; simpl; try done.
    split; simpl; try done; naive_solver lia.
Qed.

Lemma exec_safe l s : inv s → l ≠ CallShutDown → safe (exec l s).
Proof.
  intros Hinv Hl. destruct l; simpl; try done; eauto using dispatch_safe, Run_safe, RunImpl_safe, shutter_safe,
    arrive_safe, cancel_safe, finished_safe.
  apply safe_Done. by apply Run_begin_inv.
Qed.
(** ** Executions of a started server *)

(** A server with its services registered, and [Start] with a free port. *)
Definition started (services : list (list nat)) : outcome ServerImpl :=
  s ← for_each services Register ServerImpl_new; Start true s.

(** One action of any thread or of gRPC. [ShutDown] may be called at any moment
    after the dispatching thread has requested its first call. *)
Definition step s s' : Prop :=
  ∃ l, exec l s = Some (Done s') ∧ (l = CallShutDown → registered s).

Lemma registers services s : running_ s = false →
  for_each services Register s = Done (set_services_ (services_ s ++ services) s).
Proof.
  revert s. induction services as [|ms services IH]; intros s Hr; simpl.
  - rewrite app_nil_r. by destruct s.
  - assert (Register ms s = Done (set_services_ (services_ s ++ [ms]) s)) as -> by (unfold Register; by rewrite Hr).
    rewrite bind_Done_eq, IH by done. simpl. by rewrite <-app_assoc.
Qed.

Lemma started_inv services : ∃ s, started services = Done s ∧ inv s.
Proof.
  unfold started. rewrite registers by done. eexists. split; [reflexivity|].
  split; simpl; try done; [| |].
  - intros t. split; unfold call_ok; simpl; rewrite ?lookup_empty; (done || lia).
  - by intros ?%elem_of_nil.
  - split; simpl; try done; lia.
Qed.

Lemma step_inv s s' : inv s → step s s' → inv s'.
Proof.
  intros Hinv (l & Hl & Hreg).
  assert (l = CallShutDown ∨ l ≠ CallShutDown) as [->|Hne] by (by destruct l; (left + right)).
  - destruct (decide (phase (shutdown s) = 0)) as [Hz|Hnz].
    + destruct (ShutDown_inv s) as (s2 & H2 & Hi); [done|by destruct (shutdown s)|auto|].
      simpl in Hl. rewrite H2 in Hl. by injection Hl as <-.
    + injection Hl as Hl. exfalso. unfold ShutDown in Hl.
      rewrite (phase_running _ (inv_phase _ Hinv)), bool_decide_false in Hl by done. done.
  - destruct (exec_safe l s Hinv Hne _ Hl) as (s2 & [= <-] & Hi). done.
Qed.

Lemma reachable_inv services s0 s : started services = Done s0 → rtc step s0 s → inv s.
Proof.
  intros H0 Hrun. destruct (started_inv services) as (s1 & H1 & Hi). rewrite H1 in H0. injection H0 as <-.
  clear H1. induction Hrun; eauto using step_inv.
Qed.

(** [C31] The production server under every interleaving of its dispatching
    thread, its [Run] threads, its handler fibers, [ShutDown] and gRPC: no
    action touches a deleted call, adds a call to a queue that was shut down or
    fails a check, except a second [ShutDown]; a call is answered at most once,
    and only if it was accepted; when [ShutDown] has returned, every accepted
    call was answered exactly once, no call object is left, the queue and the
    channel are empty and no fiber runs. [ShutDown] must not be called before the
    dispatching thread has requested its first call. *)
Theorem server_calls_are_safe (services : list (list nat)) s0 s :
  started services = Done s0 → rtc step s0 s →
  (∀ l r, exec l s = Some r → l ≠ CallShutDown → ∃ s', r = Done s') ∧
  (shutdown s = NotCalled → registered s → ∃ s', ShutDown s = Done s') ∧
  NoDup (answers s).*1 ∧ (answers s).*1 ⊆ accepted s ∧
  (shutdown s = Finished →
     (answers s).*1 ≡ₚ accepted s ∧ heap s = ∅ ∧ dispatcher s = Stopped ∧ channel_ s = [] ∧
     fibers s = [] ∧ requested (grpc s) = [] ∧ finishing (grpc s) = [] ∧ events (grpc s) = []).
Proof.
  intros H0 Hrun. pose proof (reachable_inv _ _ _ H0 Hrun) as Hinv.
  pose proof Hinv as [Ht Hl Hw Hr Hp].
  assert (Hle : ∀ t, cnt t (answers s).*1 ≤ cnt t (accepted s)).
  { intros t. rewrite (tag_accepted _ _ (Ht t)). unfold answered. lia. }
  assert (Hone : ∀ t, cnt t (answers s).*1 ≤ 1).
  { intros t. pose proof (Hle t). pose proof (tag_once _ _ (Ht t)). lia. }
  split_and!.
  - intros l r Hx Hne. destruct (exec_safe l s Hinv Hne r Hx) as (s' & -> & _). eauto.
  - intros Hs Hreg. destruct (ShutDown_inv s Hinv Hs Hreg) as (s' & ? & _). eauto.
  - by apply cnt_NoDup.
  - intros t. rewrite <-!cnt_pos. pose proof (Hle t). lia.
  - intros Hs. assert (Hempty : ∀ t, places t s = 0).
    { intros t. apply phase_empty_places; [done|]. apply (phase_empty _ Hp). rewrite Hs. simpl. lia. }
    destruct Hp as [_ _ _ _ _ _ _ He _ Hst]. rewrite Hs in *. simpl in *.
    unfold places, in_progress, in_grpc, in_fiber in Hempty.
    split_and!; try (apply elem_of_nil_inv; intros t Hin%cnt_pos; specialize (Hempty t); lia).
    + apply cnt_Permutation; [done|]. intros t. rewrite (tag_accepted _ _ (Ht t)). unfold answered, in_progress, in_fiber.
      specialize (Hempty t). lia.
    + apply He. lia.
    + unfold stopped in Hst. destruct (dispatcher s); try done; by discriminate Hst; lia.
    + apply elem_of_nil_inv. intros [t []] Hin%cnt_pos; specialize (Hempty t); lia.
    + apply elem_of_nil_inv. intros [t []] Hin%cnt_pos; specialize (Hempty t); lia.
Qed.
(** ** [ShutDown] returns

    Once [ShutDown] has begun every action moves a call towards its deletion or
    a thread towards its end. *)

Definition fiber_weight (f : nat * fiber_pc) : nat := match f.2 with Posted => 5 | Handling => 4 end.
Definition worker_weight (p : worker_pc) : nat := match p with Checking => 2 | Popping => 1 | Returned => 0 end.
Definition dispatcher_weight (p : dispatcher_pc) : nat :=
  match p with
  | Putting ms => 2 + 4 * length ms | Waiting => 1 | Got _ _ => 2 | Requeue _ => 13 | Pushing _ => 9
  | Stopped => 0
  end.

Definition work_left s : nat :=
  3 * length (requested (grpc s)) + 2 * length (events (grpc s)) + 3 * length (finishing (grpc s))
  + 7 * length (channel_ s) + sum_list (fiber_weight <$> fibers s) + sum_list (worker_weight <$> workers s)
  + dispatcher_weight (dispatcher s) + (7 - phase (shutdown s)).

Lemma length_delete_lookup {A} (l : list A) i x : l !! i = Some x → length l = S (length (delete i l)).
Proof. intros Hi. rewrite length_delete by eauto. pose proof (lookup_lt_Some _ _ _ Hi). lia. Qed.

Ltac by_weight := unfold work_left; simpl; rewrite ?length_app, ?fmap_app, ?sum_list_with_app; simpl; lia.

Lemma grpc_work i ok s s' :
  grpc_arrive i s = Some (Done s') ∨ grpc_cancel i s = Some (Done s') ∨ grpc_finished i ok s = Some (Done s') →
  work_left s' < work_left s.
Proof.
  unfold grpc_arrive, grpc_cancel, grpc_finished. intros [H|[H|H]].
  - destruct (server_down (grpc s)); [done|]. destruct (requested (grpc s) !! i) as [t|] eqn:Hi; [|done].
    apply (inj Some), bind_Done in H as (c & _ & [= <-]). pose proof (length_delete_lookup _ _ _ Hi). by_weight.
  - destruct (server_down (grpc s)); [|done]. destruct (requested (grpc s) !! i) as [t|] eqn:Hi; [|done].
    injection H as <-. pose proof (length_delete_lookup _ _ _ Hi). by_weight.
  - destruct (finishing (grpc s) !! i) as [t|] eqn:Hi; [|done].
    injection H as <-. pose proof (length_delete_lookup _ _ _ Hi). by_weight.
Qed.

Lemma Run_work w s s' : Run_step w s = Some (Done s') → work_left s' < work_left s.
Proof.
  unfold Run_step. intros H. destruct (workers s !! w) as [[]|] eqn:Hi; try done.
  - pose proof (sum_insert worker_weight _ _ _ Popping Hi). pose proof (sum_insert worker_weight _ _ _ Returned Hi).
    injection H as <-. simpl in *. destruct (channel_closed s); by_weight.
  - pose proof (sum_insert worker_weight _ _ _ Checking Hi). pose proof (sum_insert worker_weight _ _ _ Returned Hi).
    simpl in *. destruct (channel_ s) eqn:Hch; [destruct (channel_closed s); [|done]|]; injection H as <-;
      unfold work_left; simpl; rewrite ?Hch, ?fmap_app, ?sum_list_with_app; simpl; lia.
Qed.

Lemma RunImpl_work f reply s s' : RunImpl f reply s = Some (Done s') → work_left s' < work_left s.
Proof.
  unfold RunImpl. intros H. destruct (fibers s !! f) as [[t []]|] eqn:Hi; [| |done];
    apply (inj Some), bind_Done in H as (c & _ & [= <-]).
  - pose proof (sum_insert fiber_weight _ _ _ (t, Handling) Hi). simpl in *. by_weight.
  - pose proof (sum_delete fiber_weight _ _ _ Hi). simpl in *. by_weight.
Qed.

Lemma put_work m s s' : PutNewCallInQueue m s = Done s' → ∀ pc,
  dispatcher_weight pc + 3 < dispatcher_weight (dispatcher s) → work_left (set_dispatcher pc s') < work_left s.
Proof.
  unfold PutNewCallInQueue. destruct (negb (server_ s)); [done|]. destruct (queue_down (grpc s)); [done|].
  intros [= <-] pc Hpc. by_weight.
Qed.

Lemma dispatch_work i s s' :
  running_ s = false → RunDispatchingWorker i s = Some (Done s') → work_left s' < work_left s.
Proof.
  unfold RunDispatchingWorker. intros Hr H. destruct (dispatcher s) as [[|m ms]| |t ok|t|t|] eqn:Hd; try done.
  - injection H as <-. unfold work_left. rewrite Hd. simpl. lia.
  - apply (inj Some), bind_Done in H as (s1 & H1 & [= <-]). apply (put_work _ _ _ H1). rewrite Hd. simpl. lia.
  - unfold queue_Next in H. destruct (events (grpc s) !! i) as [[t ok]|] eqn:Hi.
    + injection H as <-. pose proof (length_delete_lookup _ _ _ Hi). unfold work_left. rewrite Hd. simpl. lia.
    + destruct (_ && _); [|done]. injection H as <-. unfold work_left. rewrite Hd. simpl. lia.
  - apply (inj Some), bind_Done in H as (c & Hc & H). rewrite Hr, orb_true_r in H.
    unfold delete_call in H. rewrite Hc in H. simpl in H. injection H as <-. unfold work_left. rewrite Hd. simpl. lia.
  - apply (inj Some), bind_Done in H as (c & Hc & H). apply bind_Done in H as (s1 & H1 & [= <-]).
    apply (put_work _ _ _ H1). rewrite Hd. simpl. lia.
  - destruct (channel_closed s); [|destruct (channel_full s); [done|]]; injection H as <-;
      unfold work_left; rewrite Hd; simpl; rewrite ?length_app; simpl; lia.
Qed.

Lemma shutter_work s s' : ShutDown_step s = Some (Done s') → work_left s' < work_left s.
Proof.
  unfold ShutDown_step. intros H.
  destruct (shutdown s) eqn:Hs; try done; repeat case_decide; try done;
    try destruct (negb (server_ s)); try destruct (dispatcher s) eqn:Hd; simplify_eq;
    unfold work_left; simpl; rewrite ?Hs, ?Hd; simpl; lia.
Qed.
(** Some thread can act: actions that are not blocked. *)
Definition quiet s s' : Prop := ∃ l, l ≠ CallRun ∧ exec l s = Some (Done s').

Lemma enabled_quiet l s : inv s → l ≠ CallRun → l ≠ CallShutDown → exec l s ≠ None → ∃ s', quiet s s'.
Proof.
  intros Hinv H1 H2 He. destruct (exec l s) as [r|] eqn:Hr; [|done].
  destruct (exec_safe l s Hinv H2 r Hr) as (s' & -> & _). by exists s', l.
Qed.

(** No action but a call of [Run] adds a worker, and [ShutDown] only advances. *)
Lemma exec_frame l s s' : l ≠ CallRun → l ≠ CallShutDown → exec l s = Some (Done s') →
  length (workers s') = length (workers s) ∧ phase (shutdown s) ≤ phase (shutdown s').
Proof.
  intros H1 H2 Hl. destruct l; simpl in Hl; try done;
    unfold RunDispatchingWorker, Run_step, RunImpl, ShutDown_step, grpc_arrive, grpc_cancel, grpc_finished,
      queue_Next, delete_call, PutNewCallInQueue, lookup_call in Hl;
    repeat (case_match; simpl in Hl; try done); simplify_eq/=; rewrite ?length_insert; auto with lia.
Qed.

Lemma quiet_inv s s' : inv s → 1 ≤ phase (shutdown s) → quiet s s' →
  inv s' ∧ work_left s' < work_left s ∧
  length (workers s') = length (workers s) ∧ phase (shutdown s) ≤ phase (shutdown s').
Proof.
  intros Hinv Hph (l & Hne & Hl).
  assert (Hrun : running_ s = false).
  { rewrite (phase_running _ (inv_phase _ Hinv)). apply bool_decide_false. lia. }
  assert (Hns : l ≠ CallShutDown).
  { intros ->. simpl in Hl. unfold ShutDown in Hl. by rewrite Hrun in Hl. }
  destruct (exec_safe l s Hinv Hns _ Hl) as (s2 & [= <-] & Hi). split; [done|]. split; [|by eapply exec_frame].
  destruct l; simpl in *; try done;
    eauto using dispatch_work, Run_work, RunImpl_work, shutter_work.
  - by apply (grpc_work i true); left.
  - by apply (grpc_work i true); right; left.
  - by apply (grpc_work i ok); right; right.
Qed.

Lemma worker_enabled s : inv s → workers s ≠ [] → channel_ s ≠ [] → ∃ s', quiet s s'.
Proof.
  intros Hinv Hw Hch. apply (enabled_quiet (Worker 0)); [done..|]. simpl. unfold Run_step.
  destruct (workers s) as [|p ps] eqn:Hws; [done|]. destruct (channel_ s) as [|t ch] eqn:Hc; [done|].
  destruct p; [by destruct (channel_closed s)|done|exfalso].
  pose proof (inv_returned _ Hinv) as Hr. rewrite Hws, (phase_closed _ (inv_phase _ Hinv)) in Hr.
  specialize (Hr ltac:(by left)). apply bool_decide_eq_true in Hr.
  pose proof (phase_empty_places s t (inv_tags _ Hinv) (phase_empty _ (inv_phase _ Hinv) ltac:(lia))) as Hz.
  unfold places, in_progress in Hz. rewrite Hc in Hz. simpl in Hz. rewrite same_refl in Hz. lia.
Qed.

(** The dispatching thread is blocked only while the queue is empty or the
    channel is full. *)
Lemma dispatcher_enabled s : inv s → workers s ≠ [] → dispatcher s ≠ Waiting → dispatcher s ≠ Stopped →
  ∃ s', quiet s s'.
Proof.
  intros Hinv Hw H1 H2.
  destruct (decide (channel_ s = [])) as [Hch|Hch]; [|by apply worker_enabled].
  apply (enabled_quiet (Dispatch 0)); [done..|]. simpl. unfold RunDispatchingWorker.
  destruct (dispatcher s) as [[|m ms]| |t ok|t|t|]; try done.
  destruct (channel_closed s); [done|]. unfold channel_full. rewrite Hch.
  rewrite bool_decide_false; [done|]. change (pred kQueueSize) with 1023. simpl. lia.
Qed.

(** A live call can always be moved on. *)
Lemma call_enabled t c s : inv s → workers s ≠ [] → heap s !! t = Some c → phase (shutdown s) = 2 →
  ∃ s', quiet s s'.
Proof.
  intros Hinv Hw Hc Hph. pose proof (tag_call _ _ (inv_tags _ Hinv t)) as Hp. unfold call_ok in Hp.
  rewrite Hc in Hp. destruct Hp as [Hp _].
  destruct (decide (dispatcher s = Waiting ∨ dispatcher s = Stopped)) as [Hd|Hd];
    [|apply dispatcher_enabled; [done|done|tauto|tauto]].
  assert (Hdown : server_down (grpc s) = true).
  { rewrite (phase_server_down _ (inv_phase _ Hinv)), Hph. done. }
  assert (Hwait : dispatcher s = Waiting).
  { destruct Hd as [Hd|Hd]; [done|]. pose proof (phase_stopped _ (inv_phase _ Hinv)) as Hst.
    unfold stopped in Hst. rewrite Hd in Hst. specialize (Hst eq_refl). lia. }
  destruct (requested (grpc s)) as [|u l] eqn:Hq.
  2:{ apply (enabled_quiet (Cancel 0)); [done..|]. simpl. unfold grpc_cancel. by rewrite Hdown, Hq. }
  destruct (finishing (grpc s)) as [|u l] eqn:Hf.
  2:{ apply (enabled_quiet (Complete 0 true)); [done..|]. simpl. unfold grpc_finished. by rewrite Hf. }
  destruct (events (grpc s)) as [|[u b] l] eqn:He.
  2:{ apply (enabled_quiet (Dispatch 0)); [done..|]. simpl. unfold RunDispatchingWorker. rewrite Hwait.
      unfold queue_Next. by rewrite He. }
  destruct (fibers s) as [|[u b] l] eqn:Hfi.
  2:{ apply (enabled_quiet (Fiber 0 (Err (MkRpcError RpcInternal "")))); [done..|]. simpl. unfold RunImpl.
      rewrite Hfi. by destruct b. }
  apply worker_enabled; [done|done|]. intros Hch.
  unfold places, in_grpc, in_progress, dispatching, accepting, in_fiber in Hp.
  rewrite Hq, Hf, He, Hfi, Hch, Hwait in Hp. done.
Qed.
Lemma progress s : inv s → workers s ≠ [] → 1 ≤ phase (shutdown s) → shutdown s ≠ Finished →
  ∃ s', quiet s s'.
Proof.
  intros Hinv Hw H1 Hnf. pose proof Hinv as [Ht Hl Hwl Hr Hp].
  destruct (shutdown s) eqn:Hs; simpl in *; try lia; try done;
    try (apply (enabled_quiet Shutter); [done..|]; simpl; unfold ShutDown_step; rewrite Hs;
         try rewrite (phase_server _ Hp); done).
  - destruct (decide (heap s = ∅)) as [Hh|Hh].
    + apply (enabled_quiet Shutter); [done..|]. simpl. unfold ShutDown_step. rewrite Hs, Hl, Hh. done.
    + apply map_choose in Hh as (t & c & Hc). eapply call_enabled; [done..|]. by rewrite Hs.
  - destruct (decide (dispatcher s = Waiting)) as [Hd|Hd].
    + apply (enabled_quiet (Dispatch 0)); [done..|]. simpl. unfold RunDispatchingWorker, queue_Next. rewrite Hd.
      assert (He : ∀ t, in_grpc t s = 0).
      { intros t. pose proof (phase_empty_places s t Ht (phase_empty _ Hp ltac:(rewrite Hs; simpl; lia))).
        unfold places in *. lia. }
      rewrite (phase_queue_down _ Hp), Hs. unfold in_grpc in He.
      assert (events (grpc s) = []) as ->.
      { apply elem_of_nil_inv. intros [t []] Hin%cnt_pos; specialize (He t); lia. }
      assert (requested (grpc s) = []) as ->.
      { apply elem_of_nil_inv. intros t Hin%cnt_pos; specialize (He t); lia. }
      assert (finishing (grpc s) = []) as ->; [|done].
      apply elem_of_nil_inv. intros t Hin%cnt_pos; specialize (He t); lia.
    + destruct (decide (dispatcher s = Stopped)) as [Hd'|Hd']; [|by apply dispatcher_enabled].
      apply (enabled_quiet Shutter); [done..|]. simpl. unfold ShutDown_step. by rewrite Hs, Hd'.
  - destruct (decide (workers_latch_ s = 0)) as [Hz|Hz].
    { apply (enabled_quiet Shutter); [done..|]. simpl. unfold ShutDown_step. rewrite Hs, Hz. done. }
    assert (∃ w p, workers s !! w = Some p ∧ p ≠ Returned) as (w & p & Hi & Hne).
    { destruct (decide (Forall (λ p, working p = 0) (workers s))) as [Hall|Hex].
      - exfalso. apply Hz. rewrite Hwl. clear -Hall. induction Hall as [|? ? H _ IH]; csimpl in *; [done|]. lia.
      - apply not_Forall_Exists in Hex; [|apply _]. apply Exists_exists in Hex as (p & Hin & Hp').
        apply list_elem_of_lookup in Hin as [w Hi]. exists w, p. split; [done|]. intros ->. by apply Hp'. }
    apply (enabled_quiet (Worker w)); [done..|]. simpl. unfold Run_step. rewrite Hi.
    assert (Hcl : channel_closed s = true) by (by rewrite (phase_closed _ Hp), Hs).
    rewrite Hcl. destruct p; [done| |done]. by destruct (channel_ s).
Qed.

(** [C32] [ShutDown] of the production server returns: once it was called on a
    server with a thread in [Run], every execution without further calls of
    [Run] has a bounded number of actions, and one that cannot be continued has
    returned from [ShutDown]. (gRPC completes what was requested from it, and
    handlers return.) *)
Theorem ShutDown_terminates (services : list (list nat)) s0 s :
  started services = Done s0 → rtc step s0 s → shutdown s ≠ NotCalled → workers s ≠ [] →
  ∀ n s', nsteps quiet n s s' →
    n ≤ work_left s ∧ ((∀ s'', ¬ quiet s' s'') → shutdown s' = Finished).
Proof.
  intros H0 Hrun Hs Hw n s' Hn. pose proof (reachable_inv _ _ _ H0 Hrun) as Hinv. clear H0 Hrun.
  assert (Hph : 1 ≤ phase (shutdown s)) by (destruct (shutdown s); simpl; (done || lia)). clear Hs.
  induction Hn as [s|n s s1 s' Hq Hn IH].
  - split; [lia|]. intros Hstuck. destruct (decide (phase (shutdown s) = 7)) as [H7|H7].
    { by destruct (shutdown s). }
    destruct (progress s) as [s'' Hs'']; [done..| |by destruct (Hstuck s'')]. intros Hf. by rewrite Hf in H7.
  - destruct (quiet_inv s s1 Hinv Hph Hq) as (Hi & Hlt & Hlen & Hle).
    destruct IH as [Hn1 Hfin]; [by destruct (workers s), (workers s1)|done|lia|]. split; [lia|done].
Qed.
End correctness.

(** ** Concrete executions *)

Section runs.
Context {Response : Type}.

(** Run the labels in order; [None] if one is blocked or does not return. *)
Fixpoint run_labels (ls : list (label (Response := Response))) (s : ServerImpl) : option ServerImpl :=
  match ls with
  | [] => Some s
  | l :: ls => match exec l s with Some (Done s') => run_labels ls s' | _ => None end
  end.

(** No [ShutDown] before the first call was requested. *)
Fixpoint patient (ls : list (label (Response := Response))) (s : ServerImpl) : bool :=
  match ls with
  | [] => true
  | l :: ls =>
      match l with
      | CallShutDown => match to_put s with [] => true | _ => negb (bool_decide (heap s = ∅)) end
      | _ => true
      end && match exec l s with Some (Done s') => patient ls s' | _ => false end
  end.

Lemma run_labels_steps ls s s' : run_labels ls s = Some s' → patient ls s = true → rtc step s s'.
Proof.
  revert s. induction ls as [|l ls IH]; intros s; simpl.
  - intros [= ->] _. apply rtc_refl.
  - destruct (exec l s) as [[s1| |]|] eqn:Hl; try done. intros Hrun [Hreg Hp]%andb_prop.
    eapply rtc_l; [|by apply IH]. exists l. split; [done|]. intros ->. unfold registered.
    destruct (to_put s); [by left|right]. by apply negb_true_iff, bool_decide_eq_false in Hreg.
Qed.
End runs.

(** One call is served, then the server shuts down. *)
Definition serve_one : list (label (Response := nat)) :=
  [CallRun; Worker 0; Dispatch 0; Dispatch 0; Arrive 0; Dispatch 0; Dispatch 0; Dispatch 0; Dispatch 0;
   Worker 0; Fiber 0 (Ok 7); Fiber 0 (Ok 7)].
Definition shut_down_all : list (label (Response := nat)) :=
  [Complete 0 true; Shutter; Cancel 0; Dispatch 0; Dispatch 0; Dispatch 0; Dispatch 0; Shutter; Shutter; Shutter;
   Dispatch 0; Shutter; Worker 0; Shutter].
Definition one_service : ServerImpl (Response := nat) :=
  match started [[3]] with Done s => s | _ => ServerImpl_new end.
Definition served : ServerImpl := default one_service (run_labels (serve_one ++ [CallShutDown]) one_service).
Definition all_done : ServerImpl := default one_service (run_labels shut_down_all served).

Lemma server_calls_are_safe_witness :
  shutdown all_done = Finished ∧ answers all_done = [(0, Finish 7)] ∧ (answers all_done).*1 ≡ₚ accepted all_done ∧
  heap all_done = ∅.
Proof.
  assert (H0 : started [[3]] = Done one_service) by reflexivity.
  assert (Hrun : rtc step one_service all_done).
  { apply (run_labels_steps (serve_one ++ [CallShutDown] ++ shut_down_all)); vm_compute; reflexivity. }
  assert (Hf : shutdown all_done = Finished) by (vm_compute; reflexivity).
  destruct (server_calls_are_safe [[3]] one_service all_done H0 Hrun) as (_ & _ & _ & _ & Hfin).
  destruct (Hfin Hf) as (Hperm & Hheap & _). split_and!; [done|vm_compute; reflexivity|done|done].
Defined.

Lemma ShutDown_terminates_witness :
  shutdown served ≠ NotCalled ∧ ∃ n, nsteps quiet n served all_done ∧ n ≤ work_left served ∧
    ((∀ s'', ¬ quiet all_done s'') → shutdown all_done = Finished).
Proof.
  assert (H0 : started [[3]] = Done one_service) by reflexivity.
  assert (Hrun : rtc step one_service served).
  { apply (run_labels_steps (serve_one ++ [CallShutDown])); vm_compute; reflexivity. }
  assert (Hs : shutdown served ≠ NotCalled) by (vm_compute; discriminate).
  assert (Hq : ∃ n, nsteps quiet n served all_done).
  { assert (Hall : Forall (λ l, l ≠ CallRun) shut_down_all) by (repeat constructor; discriminate).
    assert (Hr : run_labels shut_down_all served = Some all_done) by (vm_compute; reflexivity).
    revert Hall Hr. generalize shut_down_all served all_done. clear. intros ls. induction ls as [|l ls IH]; intros s s' Hall Hr.
    - injection Hr as <-. exists 0. constructor.
    - simpl in Hr. destruct (exec l s) as [[s1| |]|] eqn:Hl; try done. apply Forall_cons in Hall as [Hl' Hall].
      destruct (IH s1 s' Hall Hr) as [n Hn]. exists (S n). econstructor; [|done]. by exists l. }
  destruct Hq as [n Hn]. split; [done|]. exists n. split; [done|].
  apply (ShutDown_terminates [[3]] one_service served H0 Hrun Hs); [vm_compute; discriminate|done].
Defined.

(** A server after [Start], at the given point of [ShutDown]. *)
Definition booted {Response} (built : bool) (services : list (list nat)) (p : shutdown_pc) (down : bool)
    : ServerImpl (Response := Response) :=
  MkServerImpl services (bool_decide (phase p = 0)) (bool_decide (1 ≤ phase p)) built ∅ 0 0
    (MkGrpc [] [] [] down down) [] false (Putting (mjoin services)) [] 0 [] p [] [].

Lemma booted_eq {Response} built services :
  (s ← for_each services Register ServerImpl_new; Start built s) =
  Done (booted (Response := Response) built services NotCalled false).
Proof. rewrite registers by done. reflexivity. Qed.

(** Two ways to start a server wrong. If [ShutDown] is called before the
    dispatching thread has requested its first call, the latch is still zero, the
    completion queue is shut down at once and the dispatching thread adds its
    calls to it afterwards, which gRPC forbids. If the port is taken
    [BuildAndStart] returns a null pointer, which [Start] does not check and the
    dispatching thread uses. *)
Theorem early_ShutDown_misuses_queue {Response : Type} (method : nat) (methods : list nat) (services : list (list nat)) :
  (∃ s0 s : ServerImpl (Response := Response),
     started ((method :: methods) :: services) = Done s0 ∧
     run_labels [CallShutDown; Shutter; Shutter; Shutter] s0 = Some s ∧
     exec (Dispatch 0) s = Some (Undefined "completion queue is shut down")) ∧
  (∃ s0 : ServerImpl (Response := Response),
     (s ← for_each ((method :: methods) :: services) Register ServerImpl_new; Start false s) = Done s0 ∧
     exec (Dispatch 0) s0 = Some (Undefined "null server")).
Proof.
  split.
  - exists (booted true ((method :: methods) :: services) NotCalled false),
      (booted true ((method :: methods) :: services) ClosingChannel true).
    split; [apply booted_eq|]. split; reflexivity.
  - exists (booted false ((method :: methods) :: services) NotCalled false).
    split; [apply booted_eq|]. reflexivity.
Qed.
