(* ===== verification/ProdClient.v ===== *)
(** * The production RPC client (src/runtime/production/rpc_client_base.{h,cpp})

    [MakeRequest] starts a call, waits on a condition variable of its own stack
    frame and turns the status of the call into a result; one thread of the
    client takes completions from the queue of gRPC and wakes the fibers. The
    model has the frames, the mutex of each and the program counters of the
    fibers and of the thread; using a frame after its fiber has returned is
    [Undefined]. gRPC is the environment: it writes the status of a call and then
    completes it once. *)

From S2P Require Import Prelude.
From S2P Require Import Result.
From S2P Require Import RtTypes.
From S2P Require Import ProdServer.
Open Scope nat_scope.

(** [std::string::find] with [npos] as [None]. *)
Definition find (pattern text : string) : option nat := String.index 0 pattern text.

Section client.
Context {Response : Type}.

(** [grpc::Status], [None] as code is OK, with the reply of the call. *)
Record grpc_status : Type := MkGrpcStatus {
  error_code : option grpc_code;
  error_message : string;
  status_reply : Response;
}.

(** The end of [MakeRequest]. *)
Definition MakeRequest_result (status : grpc_status) : Result Response RpcError :=
  match error_code status with
  | None => Ok (status_reply status)
  | Some code =>
      if decide (find "Connection refused" (error_message status) ≠ None)
      then Err (MkRpcError ConnectionRefused (error_message status))
      else match code with
           | GrpcCancelled => Err (MkRpcError Cancelled (error_message status))
           | GrpcUnimplemented => Err (MkRpcError HandlerNotFound (error_message status))
           | _ => Err (MkRpcError RpcInternal (error_message status))
           end
  end.

(** What a call completes with if the server gave [a]: gRPC transmits replies
    and statuses; the reply of a failed call is the default message. *)
Definition transmit (empty : Response) (a : answer (Response := Response)) : grpc_status :=
  match a with
  | Finish reply => MkGrpcStatus None "" reply
  | FinishWithError code message => MkGrpcStatus (Some code) message empty
  end.

(** ** Fibers, frames and the dispatching thread *)

Inductive owner : Type := ByFiber | ByDispatcher.

Inductive request_pc : Type := Locking | Checking | Sleeping.

(** A frame of [MakeRequest]: [EventTrigger] with its mutex, [status] with
    [reply], and where its fiber is. *)
Record frame : Type := MkFrame {
  is_set : bool;
  mutex : option owner;
  status : option grpc_status;
  fiber : request_pc;
}.

Inductive thread_pc : Type := InNext | Lock (t : nat) | Notify (t : nat) | SetFlag (t : nat) | Unlock (t : nat).

(** [ClientBase]: calls that gRPC has not completed, completions not taken by
    the thread, and the results returned so far with the status they come from. *)
Record ClientBase : Type := MkClientBase {
  frames : gmap nat frame;
  next : nat;
  pending : list nat;
  queue_ : list nat;
  dispatching_thread_ : thread_pc;
  returned : list (nat * (grpc_status * Result Response RpcError));
}.

Definition set_frames (x : gmap nat frame) (c : ClientBase) : ClientBase :=
  MkClientBase x (next c) (pending c) (queue_ c) (dispatching_thread_ c) (returned c).
Definition set_thread (x : thread_pc) (c : ClientBase) : ClientBase :=
  MkClientBase (frames c) (next c) (pending c) (queue_ c) x (returned c).

Definition ClientBase_new : ClientBase := MkClientBase ∅ 0 [] [] InNext [].

Definition get_frame (t : nat) (c : ClientBase) : outcome frame :=
  match frames c !! t with
  | Some f => Done f
  | None => Undefined "use of a frame that is gone"
  end.

Definition put_frame (t : nat) (f : frame) (c : ClientBase) : ClientBase :=
  set_frames (<[t := f]> (frames c)) c.

(** [StartCall], [Finish] and the attempt to lock the mutex. *)
Definition MakeRequest_begin (c : ClientBase) : ClientBase :=
  MkClientBase (<[next c := MkFrame false None None Locking]> (frames c)) (S (next c))
    (pending c ++ [next c]) (queue_ c) (dispatching_thread_ c) (returned c).

(** One action of the fiber of frame [t]; [None] while it is blocked. *)
Definition MakeRequest_step (t : nat) (c : ClientBase) : option (outcome ClientBase) :=
  match frames c !! t with
  | None => None
  | Some f =>
      match fiber f with
      | Locking =>
          match mutex f with
          | None => Some (Done (put_frame t (MkFrame (is_set f) (Some ByFiber) (status f) Checking) c))
          | Some _ => None
          end
      | Checking =>
          Some (if is_set f
                then match status f with
                     | Some st =>
                         Done (MkClientBase (delete t (frames c)) (next c) (pending c) (queue_ c)
                           (dispatching_thread_ c) (returned c ++ [(t, (st, MakeRequest_result st))]))
                     | None => Undefined "status was not written"
                     end
                else Done (put_frame t (MkFrame (is_set f) None (status f) Sleeping) c))
      | Sleeping => None
      end
  end.

(** A condition variable may wake up on its own. *)
Definition spurious_wakeup (t : nat) (c : ClientBase) : option (outcome ClientBase) :=
  match frames c !! t with
  | Some (MkFrame b m st Sleeping) => Some (Done (put_frame t (MkFrame b m st Locking) c))
  | _ => None
  end.

(** gRPC writes the status of the [i]th call into its frame and completes it. *)
Definition grpc_complete (i : nat) (st : grpc_status) (c : ClientBase) : option (outcome ClientBase) :=
  match pending c !! i with
  | Some t =>
      Some (f ← get_frame t c;
            Done (MkClientBase (<[t := MkFrame (is_set f) (mutex f) (Some st) (fiber f)]> (frames c)) (next c)
              (delete i (pending c)) (queue_ c ++ [t]) (dispatching_thread_ c) (returned c)))
  | None => None
  end.

(** One action of the thread; [i] is the completion that [Next] returns. *)
Definition DispatchServiceResponses (i : nat) (c : ClientBase) : option (outcome ClientBase) :=
  match dispatching_thread_ c with
  | InNext =>
      match queue_ c !! i with
      | Some t => Some (Done (MkClientBase (frames c) (next c) (pending c) (delete i (queue_ c)) (Lock t) (returned c)))
      | None => None
      end
  | Lock t =>
      match frames c !! t with
      | Some (MkFrame b None st pc) =>
          Some (Done (set_thread (Notify t) (put_frame t (MkFrame b (Some ByDispatcher) st pc) c)))
      | Some _ => None
      | None => Some (Undefined "use of a frame that is gone")
      end
  | Notify t =>
      Some (f ← get_frame t c;
            let pc := match fiber f with Sleeping => Locking | pc => pc end in
            Done (set_thread (SetFlag t) (put_frame t (MkFrame (is_set f) (mutex f) (status f) pc) c)))
  | SetFlag t =>
      Some (f ← get_frame t c;
            Done (set_thread (Unlock t) (put_frame t (MkFrame true (mutex f) (status f) (fiber f)) c)))
  | Unlock t =>
      Some (f ← get_frame t c;
            Done (set_thread InNext (put_frame t (MkFrame (is_set f) None (status f) (fiber f)) c)))
  end.

Inductive action : Type :=
  | Call
  | FiberActs (t : nat)
  | Spurious (t : nat)
  | Completes (i : nat) (st : grpc_status)
  | ThreadActs (i : nat).

Definition act (a : action) (c : ClientBase) : option (outcome ClientBase) :=
  match a with
  | Call => Some (Done (MakeRequest_begin c))
  | FiberActs t => MakeRequest_step t c
  | Spurious t => spurious_wakeup t c
  | Completes i st => grpc_complete i st c
  | ThreadActs i => DispatchServiceResponses i c
  end.

(** ** The invariant *)

Implicit Types (c : ClientBase) (t : nat) (f : frame).

(** The thread is at frame [t]: about to lock it, or holding its mutex. *)
Definition at_lock t c : nat := match dispatching_thread_ c with Lock u => same t u | _ => 0 end.
Definition at_notify t c : nat := match dispatching_thread_ c with Notify u => same t u | _ => 0 end.
Definition at_set t c : nat := match dispatching_thread_ c with SetFlag u => same t u | _ => 0 end.
Definition at_unlock t c : nat := match dispatching_thread_ c with Unlock u => same t u | _ => 0 end.

(** The completion of a call that its fiber does not yet know of. *)
Definition coming t c : nat :=
  cnt t (pending c) + cnt t (queue_ c) + at_lock t c + at_notify t c + at_set t c.

Record frame_ok t c f : Prop := {
  frame_coming : coming t c = if is_set f then 0 else 1;
  frame_status : status f = None → is_set f = false ∧ cnt t (pending c) = 1;
  frame_mutex : match mutex f with
                | Some ByDispatcher => at_notify t c + at_set t c + at_unlock t c = 1 ∧ fiber f ≠ Checking
                | Some ByFiber => at_notify t c + at_set t c + at_unlock t c = 0 ∧ fiber f = Checking
                | None => at_notify t c + at_set t c + at_unlock t c = 0 ∧ fiber f ≠ Checking
                end;
  frame_sleep : fiber f = Sleeping → is_set f = false ∧ at_set t c = 0;
  frame_unset : at_unlock t c = 1 → is_set f = true;
}.

Record client_ok c : Prop := {
  client_frames : ∀ t, match frames c !! t with
                       | Some f => frame_ok t c f
                       | None => coming t c + at_unlock t c = 0
                       end;
  client_next : ∀ t, next c ≤ t → frames c !! t = None ∧ cnt t (returned c).*1 = 0;
  client_once : ∀ t, cnt t (returned c).*1 ≤ 1 ∧ (frames c !! t ≠ None → cnt t (returned c).*1 = 0);
  client_results : Forall (λ r, r.2.2 = MakeRequest_result r.2.1) (returned c);
}.

(** ** Every action keeps the invariant *)

Definition act_safe (o : option (outcome ClientBase)) : Prop :=
  ∀ r, o = Some r → ∃ c', r = Done c' ∧ client_ok c'.

Lemma act_safe_None : act_safe None.
Proof. by intros ? [=]. Qed.
Lemma act_safe_Done c : client_ok c → act_safe (Some (Done c)).
Proof. intros ?? [= <-]. by exists c. Qed.

(** A frame that the thread or gRPC is about to use exists. *)
Lemma frame_live t c : client_ok c → 0 < coming t c + at_unlock t c →
  ∃ f, frames c !! t = Some f ∧ get_frame t c = Done f ∧ frame_ok t c f.
Proof.
  intros Hok Hpos. pose proof (client_frames _ Hok t) as H. unfold get_frame.
  destruct (frames c !! t) as [f|]; [by exists f|lia].
Qed.

(** The frame of one call changes and with it the place of its completion. *)
Lemma client_ok_update t f f' c c' :
  client_ok c → frames c !! t = Some f → frames c' = <[t := f']> (frames c) → next c' = next c →
  returned c' = returned c → frame_ok t c' f' →
  (∀ u, u ≠ t → coming u c' = coming u c ∧ cnt u (pending c') = cnt u (pending c) ∧
     at_notify u c' = at_notify u c ∧ at_set u c' = at_set u c ∧ at_unlock u c' = at_unlock u c) →
  client_ok c'.
Proof.
  intros [H1 H2 H3 H4] Ht Hf Hn Hr Hf' Hother. split; rewrite ?Hf, ?Hn, ?Hr; [| | |done].
  - intros u. destruct (decide (u = t)) as [->|Hne]; [by rewrite lookup_insert_eq|].
    rewrite lookup_insert_ne by done. destruct (Hother u Hne) as (E1 & E2 & E3 & E4 & E5).
    specialize (H1 u). destruct (frames c !! u) as [g|]; [|lia].
    destruct H1. split; rewrite ?E1, ?E2, ?E3, ?E4, ?E5; done.
  - intros u Hle. destruct (H2 u Hle) as [? ?]. split; [|done]. rewrite lookup_insert_ne; [done|]. by intros ->; congruence.
  - intros u. destruct (H3 u) as [? Hz]. split; [done|]. destruct (decide (u = t)) as [->|Hne].
    + intros _. apply Hz. by rewrite Ht.
    + rewrite lookup_insert_ne by done. done.
Qed.

Ltac places t u :=
  destruct (decide (t = u)) as [->|]; rewrite ?cnt_app in *; simpl in *; rewrite ?same_refl in *;
  rewrite ?(same_ne t u) in * by done.
Ltac by_other t :=
  let u := fresh "u" in let Hne := fresh in
  intros u Hne; unfold coming, at_lock, at_notify, at_set, at_unlock; simpl;
  rewrite ?cnt_app; simpl; rewrite ?(same_ne u t) by done; split_and!; try done; try lia.

Lemma call_ok c : client_ok c → client_ok (MakeRequest_begin c).
Proof.
  intros [H1 H2 H3 H4]. destruct (H2 (next c) ltac:(lia)) as [Hnone Hz]. split; simpl; [| | |done].
  - intros u. pose proof (H1 u) as Hu. destruct (decide (u = next c)) as [->|Hne].
    + rewrite lookup_insert_eq. rewrite Hnone in Hu. unfold coming, at_lock, at_notify, at_set, at_unlock in Hu.
      split; unfold coming, at_lock, at_notify, at_set, at_unlock; simpl; rewrite ?cnt_app; simpl;
        rewrite ?same_refl; try done; try lia; split; (done || lia).
    + rewrite lookup_insert_ne by done. unfold coming in *.
      assert (cnt u (pending c ++ [next c]) = cnt u (pending c)) as E.
      { rewrite cnt_app. simpl. rewrite same_ne by done. lia. }
      destruct (frames c !! u) as [g|]; [destruct Hu; split; unfold coming in *; simpl; rewrite ?E; done|].
      simpl. rewrite E. done.
  - intros u Hle. destruct (H2 u ltac:(lia)) as [? ?]. split; [|done]. by rewrite lookup_insert_ne by lia.
  - intros u. destruct (H3 u) as [? Hu]. split; [done|]. destruct (decide (u = next c)) as [->|Hne]; [done|].
    by rewrite lookup_insert_ne.
Qed.

Lemma complete_safe i st c : client_ok c → act_safe (grpc_complete i st c).
Proof.
  intros Hok. unfold grpc_complete. destruct (pending c !! i) as [t|] eqn:Hi; [|apply act_safe_None].
  pose proof (λ u, cnt_delete u _ _ _ Hi) as Hdel.
  destruct (frame_live t c Hok) as (f & Hf & Hget & Hfr).
  { unfold coming. rewrite (Hdel t), same_refl. lia. }
  rewrite Hget. simpl. apply act_safe_Done. eapply (client_ok_update t f); [done|done|done|done|done| |].
  - destruct Hfr as [F1 F2 F3 F4 F5]. pose proof (Hdel t) as Hd. rewrite same_refl in Hd. unfold coming in F1.
    split; unfold coming, at_lock, at_notify, at_set, at_unlock in *; simpl in *; rewrite ?cnt_app; simpl;
      rewrite ?same_refl; try done; lia.
  - intros u Hne. pose proof (Hdel u) as Hd. rewrite same_ne in Hd by done.
    unfold coming, at_lock, at_notify, at_set, at_unlock. simpl. rewrite cnt_app. simpl. rewrite same_ne by done. lia.
Qed.

Lemma fiber_safe t c : client_ok c → act_safe (MakeRequest_step t c).
Proof.
  intros Hok. unfold MakeRequest_step. destruct (frames c !! t) as [f|] eqn:Hf; [|apply act_safe_None].
  pose proof (client_frames _ Hok t) as Hfr. rewrite Hf in Hfr. pose proof Hfr as [F1 F2 F3 F4 F5].
  destruct (fiber f) eqn:Hpc; [|destruct (is_set f) eqn:Hset|apply act_safe_None].
  - destruct (mutex f) eqn:Hm; [apply act_safe_None|]. apply act_safe_Done.
    eapply (client_ok_update t f); [done..| |by by_other t]. split; simpl; try done. by destruct F3.
  - destruct (status f) as [st|] eqn:Hst; [|by destruct F2]. apply act_safe_Done.
    assert (Hun : at_unlock t c = 0) by (destruct (mutex f) as [[]|]; [lia|by destruct F3|by destruct F3]).
    destruct Hok as [H1 H2 H3 H4]. split; simpl.
    + intros u. destruct (decide (u = t)) as [->|Hne].
      * rewrite lookup_delete_eq. unfold coming, at_lock, at_notify, at_set, at_unlock in *. simpl in *. lia.
      * rewrite lookup_delete_ne by done. specialize (H1 u). destruct (frames c !! u); [by destruct H1|done].
    + intros u Hle. destruct (H2 u Hle) as [Hu Hz]. rewrite fmap_app, cnt_app. simpl.
      assert (u ≠ t) by (intros ->; congruence). rewrite lookup_delete_ne, same_ne by done. split; [done|lia].
    + intros u. destruct (H3 u) as [Hu Hz]. rewrite fmap_app, cnt_app. simpl. destruct (decide (u = t)) as [->|Hne].
      * rewrite lookup_delete_eq, same_refl. rewrite Hf in Hz. specialize (Hz ltac:(done)). split; [lia|done].
      * rewrite lookup_delete_ne, same_ne by done. split; [lia|]. intros ?. rewrite Hz by done. done.
    + apply Forall_app. split; [done|]. by repeat constructor.
  - apply act_safe_Done. eapply (client_ok_update t f); [done..| |by by_other t].
    assert (at_notify t c + at_set t c + at_unlock t c = 0) by (destruct (mutex f) as [[]|]; [lia|by destruct F3|by destruct F3]).
    split; simpl; rewrite ?Hset; try done. intros _. split; [done|]. unfold at_set in *. simpl in *. lia.
Qed.

Lemma spurious_safe t c : client_ok c → act_safe (spurious_wakeup t c).
Proof.
  intros Hok. unfold spurious_wakeup. pose proof (client_frames _ Hok t) as Hfr.
  destruct (frames c !! t) as [[b m st []]|] eqn:Hf; try apply act_safe_None.
  apply act_safe_Done. eapply (client_ok_update t _ _ _ _ Hok Hf); [done..| |by by_other t].
  destruct Hfr as [F1 F2 F3 F4 F5]. split; simpl in *; try done. destruct m as [[]|]; naive_solver.
Qed.
Lemma thread_safe i c : client_ok c → act_safe (DispatchServiceResponses i c).
Proof.
  intros Hok. unfold DispatchServiceResponses. destruct (dispatching_thread_ c) as [|t|t|t|t] eqn:Hd.
  - destruct (queue_ c !! i) as [t|] eqn:Hi; [|apply act_safe_None]. apply act_safe_Done.
    pose proof (λ u, cnt_delete u _ _ _ Hi) as Hdel.
    destruct (frame_live t c Hok) as (f & Hf & _ & Hfr); [unfold coming; rewrite (Hdel t), same_refl; lia|].
    eapply (client_ok_update t f f); [done|done|by rewrite insert_id|done|done| |].
    + destruct Hfr as [F1 F2 F3 F4 F5]. pose proof (Hdel t) as E. rewrite same_refl in E.
      unfold coming, at_lock, at_notify, at_set, at_unlock in *. rewrite Hd in *.
      split; unfold coming, at_lock, at_notify, at_set, at_unlock; simpl; rewrite ?same_refl; try done; lia.
    + intros u Hne. pose proof (Hdel u) as E. rewrite same_ne in E by done.
      unfold coming, at_lock, at_notify, at_set, at_unlock. rewrite Hd. simpl. rewrite same_ne by done. lia.
  - destruct (frame_live t c Hok) as (f & Hf & _ & [F1 F2 F3 F4 F5]).
    { unfold coming, at_lock. rewrite Hd, same_refl. lia. }
    rewrite Hf. destruct f as [b [o|] st pc]; [apply act_safe_None|]. apply act_safe_Done.
    eapply (client_ok_update t _ _ _ _ Hok Hf); [done..| |by by_other t; rewrite Hd; simpl; rewrite ?same_ne by done].
    unfold coming, at_lock, at_notify, at_set, at_unlock in *. rewrite Hd in *. simpl in *.
    split; unfold coming, at_lock, at_notify, at_set, at_unlock; simpl; rewrite ?same_refl in *; naive_solver lia.
  - destruct (frame_live t c Hok) as (f & Hf & -> & [F1 F2 F3 F4 F5]).
    { unfold coming, at_notify. rewrite Hd, same_refl. lia. }
    apply act_safe_Done.
    eapply (client_ok_update t _ _ _ _ Hok Hf); [done..| |by by_other t; rewrite Hd; simpl; rewrite ?same_ne by done].
    unfold coming, at_lock, at_notify, at_set, at_unlock in *. rewrite Hd in *. destruct f as [b [[]|] st []]; simpl in *;
      split; unfold coming, at_lock, at_notify, at_set, at_unlock; simpl; rewrite ?same_refl in *; naive_solver lia.
  - destruct (frame_live t c Hok) as (f & Hf & -> & [F1 F2 F3 F4 F5]).
    { unfold coming, at_set. rewrite Hd, same_refl. lia. }
    apply act_safe_Done.
    eapply (client_ok_update t _ _ _ _ Hok Hf); [done..| |by by_other t; rewrite Hd; simpl; rewrite ?same_ne by done].
    unfold coming, at_lock, at_notify, at_set, at_unlock in *. rewrite Hd in *. destruct f as [[] [[]|] st []]; simpl in *;
      split; unfold coming, at_lock, at_notify, at_set, at_unlock; simpl; rewrite ?same_refl in *; naive_solver lia.
  - destruct (frame_live t c Hok) as (f & Hf & -> & [F1 F2 F3 F4 F5]).
    { unfold at_unlock. rewrite Hd, same_refl. lia. }
    apply act_safe_Done.
    eapply (client_ok_update t _ _ _ _ Hok Hf); [done..| |by by_other t; rewrite Hd; simpl; rewrite ?same_ne by done].
    unfold coming, at_lock, at_notify, at_set, at_unlock in *. rewrite Hd in *. destruct f as [b [[]|] st []]; simpl in *;
      split; unfold coming, at_lock, at_notify, at_set, at_unlock; simpl; rewrite ?same_refl in *; naive_solver lia.
Qed.

Lemma act_ok a c : client_ok c → act_safe (act a c).
Proof.
  intros Hok. destruct a; simpl; eauto using fiber_safe, spurious_safe, complete_safe, thread_safe.
  by apply act_safe_Done, call_ok.
Qed.

Definition client_step c c' : Prop := ∃ a, act a c = Some (Done c').

Lemma client_reachable_ok c : rtc client_step ClientBase_new c → client_ok c.
Proof.
  intros Hrun. assert (H0 : client_ok ClientBase_new).
  { split; simpl; try done; intros t; rewrite lookup_empty; (done || by split; [lia|]). }
  revert H0. induction Hrun as [|c1 c2 c3 [a Ha] _ IH]; [done|]. intros H1. apply IH.
  destruct (act_ok a c1 H1 _ Ha) as (c' & [= <-] & Hok). done.
Qed.

(** [C33] The production client under every interleaving of its fibers, its
    dispatching thread, gRPC and spurious wake-ups: neither the thread nor gRPC
    touches the frame of a call that has returned; every call returns at most
    once and with the result of the status it completed with; and no wake-up is
    lost: a fiber that sleeps still has its completion ahead, and once the flag
    of its frame is set and the thread has left the frame the fiber can run. *)
Theorem client_calls_return c :
  rtc client_step ClientBase_new c →
  (∀ a r, act a c = Some r → ∃ c', r = Done c') ∧
  NoDup (returned c).*1 ∧
  (∀ t st res, (t, (st, res)) ∈ returned c → res = MakeRequest_result st) ∧
  (∀ t f, frames c !! t = Some f →
     (fiber f = Sleeping → is_set f = false ∧ coming t c = 1) ∧
     (is_set f = true → dispatching_thread_ c ≠ Unlock t → ∃ c', MakeRequest_step t c = Some (Done c'))).
Proof.
  intros Hrun. pose proof (client_reachable_ok c Hrun) as Hok. split_and!.
  - intros a r Ha. destruct (act_ok a c Hok r Ha) as (c' & -> & _). by exists c'.
  - apply cnt_NoDup. intros t. apply (client_once _ Hok t).
  - intros t st res Hin. by apply (proj1 (Forall_forall _ _) (client_results _ Hok)) in Hin.
  - intros t f Hf. pose proof (client_frames _ Hok t) as Hfr. rewrite Hf in Hfr. pose proof Hfr as [F1 F2 F3 F4 F5].
    split; [intros Hs; destruct (F4 Hs) as [Hset _]; by rewrite Hset in F1|].
    intros Hset Hne. assert (Hsome : MakeRequest_step t c ≠ None).
    { unfold MakeRequest_step. rewrite Hf, Hset. destruct (fiber f); [|done|by destruct (F4 eq_refl) as [? _]; congruence].
      destruct (mutex f) as [[]|]; [by destruct F3| |done]. exfalso. rewrite Hset in F1.
      unfold coming, at_unlock in *. destruct (dispatching_thread_ c) as [| | | |u] eqn:Hd; try lia.
      destruct (decide (t = u)) as [->|Htu]; [done|]. rewrite (same_ne t u) in F3 by done. lia. }
    destruct (MakeRequest_step t c) as [r|] eqn:Hr; [|done].
    destruct (fiber_safe t c Hok r Hr) as (c' & -> & _). by exists c'.
Qed.

(** What the caller of a remote procedure sees of the answer of its handler
    in production: a value arrives unchanged; of an error only the message
    arrives, its type becomes [Internal], or [ConnectionRefused] if the message
    of the handler happens to contain this text. A status of gRPC itself becomes
    [Cancelled], [HandlerNotFound] or [Internal] by its code. *)
Theorem handler_errors_lose_their_type (empty : Response) (reply : Result Response RpcError)
    (code : grpc_code) (message : string) :
  MakeRequest_result (transmit empty (RunImpl_answer reply)) =
    match reply with
    | Ok r => Ok r
    | Err e =>
        if decide (find "Connection refused" (rpc_status_message e) ≠ None)
        then Err (MkRpcError ConnectionRefused (rpc_status_message e))
        else Err (MkRpcError RpcInternal (rpc_status_message e))
    end ∧
  MakeRequest_result (MkGrpcStatus (Some code) message empty) =
    Err (MkRpcError
      (if decide (find "Connection refused" message ≠ None) then ConnectionRefused
       else match code with
            | GrpcCancelled => Cancelled | GrpcUnimplemented => HandlerNotFound | _ => RpcInternal
            end) message).
Proof.
  split.
  - destruct reply as [r|e]; [done|]. unfold MakeRequest_result. simpl. by case_decide.
  - unfold MakeRequest_result. simpl. case_decide; [done|]. by destruct code.
Qed.
End client.

(** ** A concrete execution: the fiber sleeps before the completion arrives. *)

Fixpoint run_actions {Response} (actions : list (action (Response := Response))) (c : ClientBase) : option ClientBase :=
  match actions with
  | [] => Some c
  | a :: actions => match act a c with Some (Done c') => run_actions actions c' | _ => None end
  end.

Lemma run_actions_steps {Response} (actions : list (action (Response := Response))) c c' :
  run_actions actions c = Some c' → rtc client_step c c'.
Proof.
  revert c. induction actions as [|a actions IH]; intros c; simpl; [intros [= ->]; apply rtc_refl|].
  destruct (act a c) as [[c1| |]|] eqn:Ha; try done. intros Hr. eapply rtc_l; [by exists a|auto].
Qed.

Definition refused : grpc_status (Response := nat) := MkGrpcStatus (Some GrpcInternal) "Connection refused" 0.

Definition one_call : list (action (Response := nat)) :=
  [Call; FiberActs 0; FiberActs 0; Completes 0 refused; ThreadActs 0; ThreadActs 0; ThreadActs 0; ThreadActs 0;
   ThreadActs 0; FiberActs 0; FiberActs 0].

Lemma client_calls_return_witness :
  ∃ c, run_actions one_call ClientBase_new = Some c ∧
    returned c = [(0, (refused, Err (MkRpcError ConnectionRefused "Connection refused")))] ∧
    NoDup (returned c).*1.
Proof.
  pose (c := default ClientBase_new (run_actions one_call ClientBase_new)). exists c.
  assert (Hc : run_actions one_call ClientBase_new = Some c) by (vm_compute; reflexivity).
  destruct (client_calls_return c (run_actions_steps _ _ _ Hc)) as (_ & Hnd & _).
  split_and!; [done|vm_compute; reflexivity|done].
Defined.
