(* ===== verification/ProdRpc.v ===== *)
(** * Remote calls in production, end to end

    The production client (ProdClient.v) and the production server
    (ProdServer.v) joined by gRPC. What is used of gRPC: it delivers a request to
    a call that the server has requested for the same method, every request at
    most once; a call of the client completes with what the server has sent for
    its request, or with an error of gRPC's own (no connection, unknown method,
    cancelled, lost); it never makes up a success.

    The service is any shared state with any handlers. A handler runs in steps:
    each one reads and changes the shared state and either goes on with new
    local variables (at the end of a step its fiber may be suspended, and the
    fibers of other threads run at any time) or returns its reply. The steps of
    the handlers that run are interleaved with each other, with everything the
    threads, the fibers and gRPC do, and with changes that other parts of the
    process make to the shared state. [trace] records the steps and [executed]
    the handlers that have returned. *)

From S2P Require Import Prelude.
From S2P Require Import Result.
From S2P Require Import RtTypes.
From S2P Require Import ProdServer.
From S2P Require Import ProdServerProps.
From S2P Require Import ProdClient.
Open Scope nat_scope.

Section rpc.
Context {Request Response State Local : Type}.
(** The local variables at the start of the handler of a method, and a step. *)
Variable handler_begin : nat → Request → Local.
Variable handler_step : Local → State → (Local + Result Response RpcError) * State.
(** The default message, the reply of a failed call. *)
Variable empty : Response.

(** A handler that has returned: the call of the client, the method, the request
    and the reply. *)
Record execution : Type := MkExecution {
  ex_call : nat;
  ex_method : nat;
  ex_request : Request;
  ex_reply : Result Response RpcError;
}.

(** What happens to the shared state: a step of the handler of a call of the
    client, or a change by another part of the process. *)
Inductive event : Type :=
  | Stepped (call : nat) (local : Local) (next : Local + Result Response RpcError)
  | Elsewhere (state : State).

(** [requests] are the requests of the calls of the client, [links] maps a call
    of the server to the call of the client whose request it received, [locals]
    has the local variables of the handlers that run, by the call of the server. *)
Record rpc_system : Type := MkRpcSystem {
  srv : ServerImpl (Response := Response);
  cli : ClientBase (Response := Response);
  requests : gmap nat (nat * Request);
  links : gmap nat nat;
  locals : gmap nat Local;
  service_state : State;
  trace : list event;
  executed : list execution;
}.

Definition set_srv (s : ServerImpl) (x : rpc_system) : rpc_system :=
  MkRpcSystem s (cli x) (requests x) (links x) (locals x) (service_state x) (trace x) (executed x).
Definition set_cli (c : ClientBase) (x : rpc_system) : rpc_system :=
  MkRpcSystem (srv x) c (requests x) (links x) (locals x) (service_state x) (trace x) (executed x).

Definition rpc_new (s : ServerImpl) (state : State) : rpc_system :=
  MkRpcSystem s ClientBase_new ∅ ∅ ∅ state [] [].

(** The generated method of a client: [MakeRequest] with the name of the method. *)
Definition call_remote (method : nat) (request : Request) (x : rpc_system) : rpc_system :=
  MkRpcSystem (srv x) (MakeRequest_begin (cli x)) (<[next (cli x) := (method, request)]> (requests x))
    (links x) (locals x) (service_state x) (trace x) (executed x).

(** gRPC delivers the request of call [t] to the [i]th requested call. *)
Definition deliver (i t : nat) (x : rpc_system) : option (outcome rpc_system) :=
  match requested (grpc (srv x)) !! i, requests x !! t with
  | Some u, Some (method, _) =>
      if bool_decide (t ∈ pending (cli x)) && negb (bool_decide (t ∈ (map_to_list (links x)).*2)) &&
         bool_decide (call_method <$> heap (srv x) !! u = Some method)
      then r ← grpc_arrive i (srv x);
           Some (s ← r; Done (MkRpcSystem s (cli x) (requests x) (<[u := t]> (links x))
                                (locals x) (service_state x) (trace x) (executed x)))
      else None
  | _, _ => None
  end.

(** The [f]th fiber starts: [RunImpl] calls the handler with the request that
    the call received. *)
Definition start_handler (f : nat) (x : rpc_system) : option (outcome rpc_system) :=
  match fibers (srv x) !! f with
  | Some (u, Posted) =>
      match heap (srv x) !! u, links x !! u with
      | Some call, Some t =>
          match requests x !! t with
          | Some (_, request) =>
              r ← RunImpl f (Ok empty) (srv x);
              Some (s ← r; Done (MkRpcSystem s (cli x) (requests x) (links x)
                (<[u := handler_begin (call_method call) request]> (locals x))
                (service_state x) (trace x) (executed x)))
          | None => Some (Undefined "no request")
          end
      | _, _ => Some (Undefined "no request")
      end
  | _ => None
  end.

(** One step of the handler of the [f]th fiber; when it returns, [RunImpl] sends
    its reply. *)
Definition run_handler (f : nat) (x : rpc_system) : option (outcome rpc_system) :=
  match fibers (srv x) !! f with
  | Some (u, Handling) =>
      match heap (srv x) !! u, links x !! u, locals x !! u with
      | Some call, Some t, Some local =>
          let '(next, state) := handler_step local (service_state x) in
          let trace := trace x ++ [Stepped t local next] in
          match next, requests x !! t with
          | inl local', _ =>
              Some (Done (MkRpcSystem (srv x) (cli x) (requests x) (links x) (<[u := local']> (locals x))
                state trace (executed x)))
          | inr reply, Some (_, request) =>
              r ← RunImpl f reply (srv x);
              Some (s ← r; Done (MkRpcSystem s (cli x) (requests x) (links x) (delete u (locals x)) state trace
                (executed x ++ [MkExecution t (call_method call) request reply])))
          | inr _, None => Some (Undefined "no request")
          end
      | _, _, _ => Some (Undefined "no request")
      end
  | _ => None
  end.

(** Another part of the process changes the shared state. *)
Definition change_state (state : State) (x : rpc_system) : rpc_system :=
  MkRpcSystem (srv x) (cli x) (requests x) (links x) (locals x) state (trace x ++ [Elsewhere state]) (executed x).

(** What the server has sent for call [t]. *)
Definition reply_for (t : nat) (x : rpc_system) : option answer :=
  (λ p, p.2.2) <$> list_find (λ a, links x !! a.1 = Some t) (answers (srv x)).

(** The [j]th open call of the client completes with the reply of the server, or
    with an error of gRPC. *)
Definition complete_reply (j : nat) (x : rpc_system) : option (outcome rpc_system) :=
  t ← pending (cli x) !! j;
  a ← reply_for t x;
  r ← grpc_complete j (transmit empty a) (cli x);
  Some (c ← r; Done (set_cli c x)).

Definition complete_error (j : nat) (code : grpc_code) (message : string) (x : rpc_system) :
    option (outcome rpc_system) :=
  r ← grpc_complete j (MkGrpcStatus (Some code) message empty) (cli x);
  Some (c ← r; Done (set_cli c x)).

Inductive rpc_label : Type :=
  | Server_ (l : label (Response := Response))     (** threads of the server *)
  | StartFiber (f : nat)
  | Handle (f : nat)
  | Change (state : State)
  | CallRemote (method : nat) (request : Request)
  | Client_ (a : action (Response := Response))    (** fibers and thread of the client *)
  | Deliver (i t : nat)
  | CompleteReply (j : nat)
  | CompleteError (j : nat) (code : grpc_code) (message : string).

Definition rpc_exec (l : rpc_label) (x : rpc_system) : option (outcome rpc_system) :=
  match l with
  | Server_ (Fiber _ _) | Server_ (Arrive _) => None
  | Server_ l => r ← exec l (srv x); Some (s ← r; Done (set_srv s x))
  | StartFiber f => start_handler f x
  | Handle f => run_handler f x
  | Change state => Some (Done (change_state state x))
  | CallRemote method request => Some (Done (call_remote method request x))
  | Client_ (Completes _ _) | Client_ Call => None
  | Client_ a => r ← act a (cli x); Some (c ← r; Done (set_cli c x))
  | Deliver i t => deliver i t x
  | CompleteReply j => complete_reply j x
  | CompleteError j code message => complete_error j code message x
  end.

(** [ShutDown] is called only after the first call was requested. *)
Definition rpc_step (x x' : rpc_system) : Prop :=
  ∃ l, rpc_exec l x = Some (Done x') ∧ (l = Server_ CallShutDown → registered (srv x)).

(** Every change of the shared state from [s] to [s'] is a step of a handler on
    the state that the previous event has left, or comes from elsewhere. *)
Fixpoint threaded (s : State) (es : list event) (s' : State) : Prop :=
  match es with
  | [] => s = s'
  | Stepped _ local next :: es => ∃ s1, handler_step local s = (next, s1) ∧ threaded s1 es s'
  | Elsewhere s1 :: es => threaded s1 es s'
  end.

Lemma threaded_app s es s1 es' s' : threaded s es s1 → threaded s1 es' s' → threaded s (es ++ es') s'.
Proof.
  revert s. induction es as [|[t l n|s2] es IH]; intros s; simpl; [by intros ->|..].
  - intros (s2 & ? & ?) He. eauto.
  - eauto.
Qed.

(** The steps of the handler of call [t]. *)
Definition is_step (t : nat) (e : event) : bool :=
  match e with Stepped t' _ _ => bool_decide (t' = t) | Elsewhere _ => false end.
Definition steps_of (t : nat) (es : list event) : list event := filter (λ e, is_step t e = true) es.

(** The steps are one run of a handler from [local]: each goes on where the one
    before has stopped; [res] is where the last one has stopped. *)
Fixpoint handler_run (local : Local) (es : list event) (res : Local + Result Response RpcError) : Prop :=
  match es with
  | [] => res = inl local
  | Stepped _ local' next :: es =>
      local' = local ∧
      match next with
      | inl local'' => handler_run local'' es res
      | inr reply => es = [] ∧ res = inr reply
      end
  | Elsewhere _ :: _ => False
  end.

Lemma handler_run_snoc l es l' t next :
  handler_run l es (inl l') → handler_run l (es ++ [Stepped t l' next]) next.
Proof.
  revert l. induction es as [|[t' l1 n|s2] es IH]; intros l; simpl; [|intros [-> Hr]|done].
  - intros [= ->]. split; [done|]. by destruct next.
  - split; [done|]. destruct n; [by apply IH|by destruct Hr].
Qed.

Lemma steps_of_snoc t es t' l n :
  steps_of t (es ++ [Stepped t' l n]) = if decide (t' = t) then steps_of t es ++ [Stepped t' l n] else steps_of t es.
Proof.
  unfold steps_of. rewrite filter_app, filter_cons, filter_nil. destruct (decide (t' = t)) as [->|Hne].
  - by rewrite decide_True by (by apply bool_decide_eq_true).
  - rewrite decide_False by (simpl; by rewrite bool_decide_eq_false_2). by rewrite app_nil_r.
Qed.

Lemma steps_of_elsewhere t es s : steps_of t (es ++ [Elsewhere s]) = steps_of t es.
Proof. unfold steps_of. rewrite filter_app. simpl. by rewrite app_nil_r. Qed.

(** ** The invariant *)

(** The places of calls of the server that have received a request. *)
Definition received (s : ServerImpl (Response := Response)) (u : nat) : Prop :=
  (u, true) ∈ events (grpc s) ∨ u ∈ finishing (grpc s) ∨
  dispatcher s = Got u true ∨ dispatcher s = Requeue u ∨ dispatcher s = Pushing u ∨
  u ∈ channel_ s ∨ (∃ p, (u, p) ∈ fibers s) ∨ u ∈ (answers s).*1.

(** What an action of the server that neither receives nor answers a request
    leaves as it was. *)
Record keeps (s s' : ServerImpl (Response := Response)) : Prop := MkKeeps {
  keeps_received : ∀ u, received s' u → received s u;
  keeps_answers : answers s' = answers s;
  keeps_fresh : fresh s ≤ fresh s';
  keeps_requested : ∀ u, u ∈ requested (grpc s') → u ∈ requested (grpc s) ∨ u = fresh s;
  keeps_heap : ∀ u c', heap s' !! u = Some c' → u < fresh s →
    ∃ c, heap s !! u = Some c ∧ call_method c = call_method c';
  keeps_handling : ∀ u, (u, Handling) ∈ fibers s' ↔ (u, Handling) ∈ fibers s;
}.

#[local] Hint Resolve list_elem_of_delete_inv : core.

(** Only the places of calls change. *)
Lemma keeps_places (s s' : ServerImpl (Response := Response)) :
  (∀ u, received s' u → received s u) → answers s' = answers s → fresh s' = fresh s → heap s' = heap s →
  (∀ u, u ∈ requested (grpc s') → u ∈ requested (grpc s)) →
  (∀ u, (u, Handling) ∈ fibers s' ↔ (u, Handling) ∈ fibers s) → keeps s s'.
Proof. intros ? ? Hf Hh Hr ?. split; [done|done|lia|by auto| |done]. rewrite Hh. eauto. Qed.

Ltac by_places := apply keeps_places; [unfold received; simpl; naive_solver|by simpl; eauto..].

Lemma put_keeps m s s' pc :
  PutNewCallInQueue m s = Done s' → (∀ u, pc = Got u true ∨ pc = Requeue u ∨ pc = Pushing u → received s u) →
  keeps s (set_dispatcher pc s').
Proof.
  unfold PutNewCallInQueue. do 2 (case_match; [done|]). intros [= <-] Hpc. split; simpl; [|done|lia| | |done].
  - intros u Hr. unfold received in *. simpl in *. naive_solver.
  - intros u. rewrite elem_of_app, list_elem_of_singleton. naive_solver.
  - intros u c' Hu Hlt. rewrite lookup_insert_ne in Hu by lia. eauto.
Qed.

Lemma delete_keeps t s s' :
  delete_call t s = Done s' → keeps s (set_dispatcher Waiting s').
Proof.
  unfold delete_call. destruct (lookup_call t s); [|done..]. intros [= <-]. split; simpl; [|done|lia|by auto| |done].
  - intros u Hr. unfold received in *. simpl in *. naive_solver.
  - intros u c' [_ Hu]%lookup_delete_Some _. eauto.
Qed.

Lemma dispatch_keeps i s s' : RunDispatchingWorker i s = Some (Done s') → keeps s s'.
Proof.
  unfold RunDispatchingWorker. destruct (dispatcher s) as [[|m ms]| |t ok|t|t|] eqn:Hd; simpl; [| | | | | |done].
  - intros [= <-]. by_places.
  - destruct (PutNewCallInQueue m s) as [s1| |] eqn:Hp; [|done..]. intros [= <-].
    eapply put_keeps; [done|]. naive_solver.
  - unfold queue_Next. destruct (events (grpc s) !! i) as [[t ok]|] eqn:He.
    + apply list_elem_of_lookup_2 in He. intros [= <-]. by_places.
    + case_match; [|done]. intros [= <-]. by_places.
  - destruct (lookup_call t s) as [c| |]; [|done..]. simpl.
    destruct (call_finished c || negb ok || negb (running_ s)) eqn:Hc; simpl.
    + destruct (delete_call t s) as [s1| |] eqn:Hdel; [|done..]. intros [= <-]. by eapply delete_keeps.
    + intros [= <-]. destruct ok; [|by rewrite orb_true_r in Hc]. by_places.
  - destruct (lookup_call t s) as [c| |]; [|done..]. simpl.
    destruct (PutNewCallInQueue (call_method c) s) as [s1| |] eqn:Hp; [|done..]. intros [= <-].
    eapply put_keeps; [done|]. unfold received. naive_solver.
  - repeat case_match; intros [= <-]; [by_places|]. apply keeps_places; [|by simpl; eauto..].
    intros u. unfold received. simpl. rewrite elem_of_app, list_elem_of_singleton. naive_solver.
Qed.

Lemma worker_keeps w s s' : Run_step w s = Some (Done s') → keeps s s'.
Proof.
  unfold Run_step, Run_return. repeat case_match; intros; simplify_eq/=; try by_places.
  apply keeps_places; [|by simpl; eauto..|].
  - intros u. unfold received. simpl. setoid_rewrite elem_of_app. setoid_rewrite list_elem_of_singleton.
    match goal with H : channel_ s = _ |- _ => rewrite H end. setoid_rewrite elem_of_cons. naive_solver.
  - intros u. simpl. rewrite elem_of_app, list_elem_of_singleton. naive_solver.
Qed.

Lemma shutdown_keeps s s' :
  ShutDown_step s = Some (Done s') ∨ ShutDown s = Done s' → keeps s s'.
Proof.
  unfold ShutDown_step, ShutDown, verify.
  intros [H|H]; repeat case_match; simplify_eq/=; try by_places.
Qed.

Lemma exec_keeps l s s' :
  exec l s = Some (Done s') → (∀ i, l ≠ Arrive i) → (∀ f r, l ≠ Fiber f r) → keeps s s'.
Proof.
  intros Hl Ha Hf. destruct l as [i| |w|f r| | |i|i|i ok]; simpl in Hl.
  - by eapply dispatch_keeps.
  - injection Hl as <-. by_places.
  - by eapply worker_keeps.
  - by destruct (Hf f r).
  - injection Hl as Hl. apply shutdown_keeps. by right.
  - apply shutdown_keeps. by left.
  - by destruct (Ha i).
  - unfold grpc_cancel in Hl. repeat case_match; simplify_eq/=. apply keeps_places; [|by simpl; eauto..].
    intros u. unfold received. simpl. rewrite elem_of_app, list_elem_of_singleton. naive_solver.
  - unfold grpc_finished in Hl. destruct (finishing (grpc s) !! i) as [t|] eqn:Hi; simplify_eq/=.
    apply list_elem_of_lookup_2 in Hi. apply keeps_places; [|by simpl; eauto..].
    intros u. unfold received. simpl. rewrite elem_of_app, list_elem_of_singleton. naive_solver.
Qed.

(** The entry of a call among the fibers is its only one, and the call is not
    answered yet. *)
Lemma fiber_alone f u p (s : ServerImpl (Response := Response)) :
  inv s → fibers s !! f = Some (u, p) →
  (u ∉ (answers s).*1) ∧ (∀ p', (u, p') ∉ delete f (fibers s)) ∧ (p = Posted → (u, Handling) ∉ fibers s).
Proof.
  intros Hinv Hf. pose proof (inv_tags _ Hinv u) as [_ Ha Ho _]. unfold in_progress, in_fiber, answered in Ha.
  pose proof (cnt_delete (u, Posted) _ _ _ Hf) as Hp. pose proof (cnt_delete (u, Handling) _ _ _ Hf) as Hh.
  split_and!.
  - intros Hin%cnt_pos. destruct p; rewrite same_refl in *; lia.
  - intros p' Hin%cnt_pos. destruct p, p'; rewrite same_refl in *; lia.
  - intros -> Hin%cnt_pos. rewrite same_refl in *. lia.
Qed.

(** The action that starts a handler, the one that answers, and the one that
    receives. *)
Lemma start_step f u r s s' :
  fibers s !! f = Some (u, Posted) → RunImpl f r s = Some (Done s') →
  (∀ v, received s' v → received s v) ∧ answers s' = answers s ∧ fresh s' = fresh s ∧
  requested (grpc s') = requested (grpc s) ∧
  (∀ v, call_method <$> heap s' !! v = call_method <$> heap s !! v) ∧
  (∀ v, (v, Handling) ∈ fibers s' ↔ (v, Handling) ∈ fibers s ∨ v = u).
Proof.
  intros Hf. unfold RunImpl. rewrite Hf. unfold lookup_call. destruct (heap s !! u) as [c|] eqn:Hc; [|done].
  intros [= <-]. simpl. pose proof (lookup_lt_Some _ _ _ Hf) as Hlt.
  assert (Hold : ∀ v p, (v, p) ∈ <[f := (u, Handling)]> (fibers s) ↔
    (v, p) ∈ delete f (fibers s) ∨ (v, p) = (u, Handling)).
  { intros v p. rewrite insert_take_drop, delete_take_drop, !elem_of_app, elem_of_cons by done. naive_solver. }
  assert (Hdel : ∀ v p, (v, p) ∈ fibers s ↔ (v, p) ∈ delete f (fibers s) ∨ (v, p) = (u, Posted)).
  { intros v p. rewrite <-(take_drop_middle _ _ _ Hf) at 1. rewrite delete_take_drop, !elem_of_app, elem_of_cons. naive_solver. }
  split_and!; [|done|done|done| |].
  - intros v. unfold received. simpl. setoid_rewrite Hold. setoid_rewrite Hdel. naive_solver.
  - intros v. destruct (decide (v = u)) as [->|Hne]; [by rewrite lookup_insert_eq, Hc|by rewrite lookup_insert_ne].
  - intros v. rewrite Hold, (Hdel v Handling). naive_solver.
Qed.

Lemma answer_step f u r s s' :
  fibers s !! f = Some (u, Handling) → RunImpl f r s = Some (Done s') →
  (∀ v, received s' v → received s v) ∧ answers s' = answers s ++ [(u, RunImpl_answer r)] ∧
  fresh s' = fresh s ∧ heap s' = heap s ∧ requested (grpc s') = requested (grpc s) ∧
  fibers s' = delete f (fibers s).
Proof.
  intros Hf. unfold RunImpl. rewrite Hf. destruct (lookup_call u s); [|done..]. intros [= <-]. simpl.
  apply list_elem_of_lookup_2 in Hf. split_and!; [|done..]. intros v. unfold received. simpl.
  rewrite fmap_app, !elem_of_app. simpl. rewrite list_elem_of_singleton.
  assert (∀ p, (v, p) ∈ delete f (fibers s) → (v, p) ∈ fibers s) by eauto. naive_solver.
Qed.

Lemma arrive_step i u s s' :
  requested (grpc s) !! i = Some u → grpc_arrive i s = Some (Done s') →
  (∀ v, received s' v → received s v ∨ v = u) ∧ answers s' = answers s ∧ fresh s' = fresh s ∧ heap s' = heap s ∧
  requested (grpc s') = delete i (requested (grpc s)) ∧ fibers s' = fibers s.
Proof.
  intros Hi. unfold grpc_arrive. destruct (server_down (grpc s)); [done|]. rewrite Hi.
  destruct (lookup_call u s); [|done..]. intros [= <-]. simpl. split_and!; [|done..].
  intros v. unfold received. simpl. rewrite elem_of_app, list_elem_of_singleton. naive_solver.
Qed.

(** A status that gRPC has written for call [t]. *)
Definition has_status (c : ClientBase (Response := Response)) (t : nat) (st : grpc_status) : Prop :=
  (∃ f, frames c !! t = Some f ∧ status f = Some st) ∨ (∃ res, (t, (st, res)) ∈ returned c).

Lemma put_has_status (c : ClientBase (Response := Response)) t f f' u st :
  frames c !! t = Some f → status f' = status f → has_status (put_frame t f' c) u st → has_status c u st.
Proof.
  intros Hf Hs [(g & Hg & Hst)|Hr]; [|by right]. simpl in Hg.
  destruct (decide (u = t)) as [->|Hne].
  - rewrite lookup_insert_eq in Hg. simplify_eq. left. exists f. by rewrite <-Hs.
  - rewrite lookup_insert_ne in Hg by done. left. eauto.
Qed.

Lemma act_has_status a (c c' : ClientBase (Response := Response)) u st :
  act a c = Some (Done c') → (∀ i st0, a ≠ Completes i st0) → has_status c' u st → has_status c u st.
Proof.
  intros Ha Hne. destruct a as [|t|t|i st0|i]; simpl in Ha.
  - injection Ha as <-. intros [(fr & Hg & Hst)|Hr]; [|by right]. simpl in Hg.
    destruct (decide (u = next c)) as [->|Hu].
    + rewrite lookup_insert_eq in Hg. by simplify_eq.
    + rewrite lookup_insert_ne in Hg by done. left. eauto.
  - unfold MakeRequest_step in Ha. destruct (frames c !! t) as [f|] eqn:Hf; [|done].
    repeat case_match; simplify_eq/=; try (by eapply put_has_status).
    intros [(fr & Hg & Hst)|(res & Hr)]; simpl in *.
    + apply lookup_delete_Some in Hg as [_ Hg]. left. eauto.
    + apply elem_of_app in Hr as [Hr|Hr%list_elem_of_singleton]; [right; by eauto|]. simplify_eq. left. eauto.
  - unfold spurious_wakeup in Ha. destruct (frames c !! t) as [[b m s0 []]|] eqn:Hf; simplify_eq/=.
    by eapply put_has_status.
  - by destruct (Hne i st0).
  - unfold DispatchServiceResponses in Ha. destruct (dispatching_thread_ c) as [|t|t|t|t].
    + by destruct (queue_ c !! i); simplify_eq/=.
    + destruct (frames c !! t) as [[b [] s0 p]|] eqn:Hf; simplify_eq/=. by eapply put_has_status.
    + unfold get_frame in Ha. destruct (frames c !! t) as [f|] eqn:Hf; simplify_eq/=. by eapply put_has_status.
    + unfold get_frame in Ha. destruct (frames c !! t) as [f|] eqn:Hf; simplify_eq/=. by eapply put_has_status.
    + unfold get_frame in Ha. destruct (frames c !! t) as [f|] eqn:Hf; simplify_eq/=. by eapply put_has_status.
Qed.

Lemma complete_has_status i st0 (c c' : ClientBase (Response := Response)) u st :
  grpc_complete i st0 c = Some (Done c') → has_status c' u st →
  has_status c u st ∨ (pending c !! i = Some u ∧ st = st0).
Proof.
  unfold grpc_complete. destruct (pending c !! i) as [t|] eqn:Hi; [|done]. unfold get_frame.
  destruct (frames c !! t) as [f|] eqn:Hf; [|done]. intros [= <-] [(g & Hg & Hst)|Hr]; [|by left; right].
  simpl in Hg. destruct (decide (u = t)) as [->|Hne].
  - rewrite lookup_insert_eq in Hg. simplify_eq/=. by right.
  - rewrite lookup_insert_ne in Hg by done. left. left. eauto.
Qed.

Lemma act_next a (c c' : ClientBase (Response := Response)) :
  act a c = Some (Done c') → a ≠ Call → next c' = next c.
Proof.
  intros Ha Hne. destruct a as [|t|t|i st0|i]; simpl in Ha; [done|..].
  - unfold MakeRequest_step in Ha. repeat case_match; by simplify_eq/=.
  - unfold spurious_wakeup in Ha. repeat case_match; by simplify_eq/=.
  - unfold grpc_complete, get_frame in Ha. repeat (case_match; simplify_eq/=). done.
  - unfold DispatchServiceResponses, get_frame in Ha. repeat (case_match; simplify_eq/=); done.
Qed.

(** The status of a call is what the server sent for it, or an error of gRPC. *)
Definition explained (x : rpc_system) (t : nat) (st : grpc_status) : Prop :=
  (∃ e, e ∈ executed x ∧ ex_call e = t ∧ st = transmit empty (RunImpl_answer (ex_reply e))) ∨
  (∃ code message, st = MkGrpcStatus (Some code) message empty).

(** The execution [e] and the answer [a] that the server sent for it. *)
Definition answers_call (x : rpc_system) (e : execution) (a : nat * answer) : Prop :=
  links x !! a.1 = Some (ex_call e) ∧ a.2 = RunImpl_answer (ex_reply e) ∧
  requests x !! ex_call e = Some (ex_method e, ex_request e).

(** The handlers: the local variables are those of the calls in progress, and
    the recorded steps of a call are a run of its handler up to them, or up to
    its reply. *)
Record handlers_ok (s0 : State) (x : rpc_system) : Prop := MkHandlersOk {
  ho_threaded : threaded s0 (trace x) (service_state x);
  ho_locals : ∀ u l, locals x !! u = Some l →
    (u, Handling) ∈ fibers (srv x) ∧
    ∃ t m q, links x !! u = Some t ∧ requests x !! t = Some (m, q) ∧
      handler_run (handler_begin m q) (steps_of t (trace x)) (inl l);
  ho_handling : ∀ u, (u, Handling) ∈ fibers (srv x) → is_Some (locals x !! u);
  ho_steps : ∀ t, steps_of t (trace x) ≠ [] →
    ∃ u, links x !! u = Some t ∧ (is_Some (locals x !! u) ∨ (u ∈ (answers (srv x)).*1));
  ho_runs : ∀ e, e ∈ executed x →
    handler_run (handler_begin (ex_method e) (ex_request e)) (steps_of (ex_call e) (trace x)) (inr (ex_reply e));
}.

Record rpc_ok (s0 : State) (x : rpc_system) : Prop := MkRpcOk {
  rpc_srv : inv (srv x);
  rpc_cli : client_ok (cli x);
  rpc_requests : ∀ t, is_Some (requests x !! t) ↔ t < next (cli x);
  rpc_links : ∀ u t, links x !! u = Some t →
    u < fresh (srv x) ∧ t < next (cli x) ∧
    ∀ c, heap (srv x) !! u = Some c → fst <$> requests x !! t = Some (call_method c);
  rpc_injective : ∀ u u' t, links x !! u = Some t → links x !! u' = Some t → u = u';
  rpc_requested : ∀ u, u ∈ requested (grpc (srv x)) → links x !! u = None;
  rpc_received : ∀ u, received (srv x) u → is_Some (links x !! u);
  rpc_answers : Forall2 (answers_call x) (executed x) (answers (srv x));
  rpc_handlers : handlers_ok s0 x;
  rpc_status : ∀ t st, has_status (cli x) t st → explained x t st;
}.

Lemma rpc_ok_server s0 x s' :
  rpc_ok s0 x → keeps (srv x) s' → inv s' → rpc_ok s0 (set_srv s' x).
Proof.
  intros [? ? ? Hl ? Hn Hr Ha [? Hlo Hha Hst ?] ?] [Kr Ka Kf Kn Kh Kha] Hinv. split; simpl; try done.
  - intros u t Hu. destruct (Hl u t Hu) as (Hlt & ? & Hc). split_and!; [lia|done|].
    intros c' Hc'. destruct (Kh u c' Hc' Hlt) as (c & Hcc & <-). by apply Hc.
  - intros u [Hu| ->]%Kn; [by apply Hn|]. apply eq_None_not_Some. intros [t Ht].
    destruct (Hl _ _ Ht) as [? _]. lia.
  - intros u Hu. by apply Hr, Kr.
  - by rewrite Ka.
  - split; simpl; try done.
    + intros u l Hu. rewrite Kha. by apply Hlo.
    + intros u. rewrite Kha. apply Hha.
    + by rewrite Ka.
Qed.

Lemma rpc_ok_client s0 x c' :
  rpc_ok s0 x → client_ok c' → next c' = next (cli x) →
  (∀ t st, has_status c' t st → has_status (cli x) t st ∨ explained x t st) → rpc_ok s0 (set_cli c' x).
Proof.
  intros [? ? Hq Hl ? ? ? ? [] Hst] Hc Hn Hs. split; simpl; rewrite ?Hn; try done.
  intros t st [Hh|He]%Hs; [by apply Hst|done].
Qed.

(** A new call of the client. *)
Lemma rpc_ok_call s0 x m q : rpc_ok s0 x → rpc_ok s0 (call_remote m q x).
Proof.
  intros [Hs Hc Hq Hl Hi Hn Hr Ha Hseq Hst].
  assert (Hold : ∀ t, t < next (cli x) → <[next (cli x) := (m, q)]> (requests x) !! t = requests x !! t).
  { intros t Ht. by rewrite lookup_insert_ne by lia. }
  split; simpl; try done.
  - by apply call_ok.
  - intros t. rewrite lookup_insert_is_Some'. specialize (Hq t). destruct (decide (next (cli x) = t)); [split; [lia|auto]|].
    rewrite Hq. split; [lia|]. intros. right. lia.
  - intros u t Hu. destruct (Hl u t Hu) as (? & ? & Hm). split_and!; [done|lia|]. intros c Hc'. rewrite Hold by done. auto.
  - eapply Forall2_impl; [exact Ha|]. intros e a (H1 & H2 & H3). split_and!; simpl; [done|done|].
    rewrite Hold; [done|]. apply Hq. by eexists.
  - destruct Hseq as [? Hlo ? ? ?]. split; simpl; try done. intros u l Hu. destruct (Hlo u l Hu) as (? & t & m' & q' & ? & Hreq & ?).
    split; [done|]. exists t, m', q'. split_and!; [done| |done]. rewrite Hold; [done|]. apply Hq. by eexists.
  - intros t st Hh. apply Hst. by eapply (act_has_status Call).
Qed.

(** The shared state changes elsewhere. *)
Lemma rpc_ok_change s0 x state : rpc_ok s0 x → rpc_ok s0 (change_state state x).
Proof.
  intros [? ? ? ? ? ? ? ? [Hth Hlo Hha Hst Hru] ?]. split; simpl; try done. split; simpl; try done.
  - eapply threaded_app; [exact Hth|done].
  - intros u l Hu. destruct (Hlo u l Hu) as (? & t & m & q & ? & ? & ?). split; [done|].
    exists t, m, q. by rewrite steps_of_elsewhere.
  - intros t. rewrite steps_of_elsewhere. apply Hst.
  - intros e He. rewrite steps_of_elsewhere. by apply Hru.
Qed.

(** A requested call is requested once. *)
Lemma requested_once (s : ServerImpl (Response := Response)) i u :
  inv s → requested (grpc s) !! i = Some u → u ∉ delete i (requested (grpc s)).
Proof.
  intros Hinv Hi Hin%cnt_pos. pose proof (cnt_delete u _ _ _ Hi) as Hd. rewrite same_refl in Hd.
  pose proof (tag_call _ _ (inv_tags _ Hinv u)) as Hc. unfold ProdServerProps.call_ok in Hc.
  unfold places, in_grpc in Hc. destruct (heap s !! u); lia.
Qed.

(** A request is delivered. *)
Lemma rpc_ok_deliver s0 x i t r :
  rpc_ok s0 x → deliver i t x = Some r → ∃ x', r = Done x' ∧ rpc_ok s0 x'.
Proof.
  intros Hok Hd. unfold deliver in Hd.
  destruct (requested (grpc (srv x)) !! i) as [u|] eqn:Hi; [|done].
  destruct (requests x !! t) as [[m q]|] eqn:Hq; [|done].
  destruct (_ && _) eqn:Hc; [|done]. apply andb_true_iff in Hc as [[_ Hnew]%andb_true_iff Hm].
  apply bool_decide_eq_true in Hm. apply negb_true_iff, bool_decide_eq_false in Hnew.
  apply bind_Some in Hd as (r0 & Hr0 & [= <-]).
  destruct Hok as [Hs Hcl Hrq Hl Hinj Hn Hrec Ha Hseq Hst].
  destruct (arrive_safe i (srv x) Hs r0 Hr0) as (s' & -> & Hs'). eexists. split; [done|].
  destruct (arrive_step i u _ _ Hi Hr0) as (Kr & Ka & Kf & Kh & Kn & Kfib).
  pose proof (Hn u (list_elem_of_lookup_2 _ _ _ Hi)) as Hu.
  pose proof (requested_once _ _ _ Hs Hi) as Honce.
  assert (Hfresh : ∀ u', links x !! u' ≠ Some t).
  { intros u' Hu'. apply Hnew. apply list_elem_of_fmap. exists (u', t). by rewrite elem_of_map_to_list. }
  split; simpl; rewrite ?Ka, ?Kf, ?Kh, ?Kn; try done.
  - intros v t' [[<- <-]|[Hne Hv]]%lookup_insert_Some; [|by apply Hl]. split_and!.
    + apply not_ge. intros Hge. destruct (tag_fresh _ _ (inv_tags _ Hs u) Hge) as [Hnone _]. by rewrite Hnone in Hm.
    + apply Hrq. by eexists.
    + intros c Hc. rewrite Hq. rewrite Hc in Hm. by simplify_eq/=.
  - intros v v' t' [[<- <-]|[Hne Hv]]%lookup_insert_Some [[<- ?]|[Hne' Hv']]%lookup_insert_Some; simplify_eq; try done.
    + by destruct (Hfresh v').
    + by destruct (Hfresh v).
    + by eapply Hinj.
  - intros v Hv. rewrite lookup_insert_ne by (intros ->; done). eauto.
  - intros v [Hv| ->]%Kr; [|by rewrite lookup_insert_eq].
    destruct (decide (u = v)) as [->|Hne]; [by rewrite lookup_insert_eq|]. rewrite lookup_insert_ne by done. by apply Hrec.
  - eapply Forall2_impl; [exact Ha|]. intros e a (H1 & H2 & H3). split_and!; simpl; [|done|done].
    rewrite lookup_insert_ne; [done|]. intros Heq. by rewrite <-Heq, Hu in H1.
  - assert (Hlink : ∀ v t', links x !! v = Some t' → <[u := t]> (links x) !! v = Some t').
    { intros v t' Hv. rewrite lookup_insert_ne; [done|]. intros ->. congruence. }
    destruct Hseq as [Hth Hlo Hha Hste Hru]. split; simpl; rewrite ?Ka, ?Kfib; try done.
    + intros v l Hv. destruct (Hlo v l Hv) as (? & t' & m' & q' & ? & ? & ?). split; [done|]. exists t', m', q'. auto.
    + intros t' Ht'. destruct (Hste t' Ht') as (v & ? & ?). eauto.
Qed.

(** The fiber of a request finds its call and the request that the call received. *)
Lemma handler_request s0 x f u p :
  rpc_ok s0 x → fibers (srv x) !! f = Some (u, p) →
  ∃ c t q, heap (srv x) !! u = Some c ∧ links x !! u = Some t ∧ requests x !! t = Some (call_method c, q).
Proof.
  intros Hok Hf. pose proof (list_elem_of_lookup_2 _ _ _ Hf) as Hin.
  destruct (rpc_received _ _ Hok u) as [t Ht]; [unfold received; naive_solver|].
  destruct (live_call (srv x) u) as [c Hc]; [apply inv_tags, Hok| |].
  { apply cnt_pos in Hin. unfold places, in_progress, in_fiber. destruct p; lia. }
  destruct (rpc_links _ _ Hok u t Ht) as (_ & Hlt & Hm). specialize (Hm c Hc).
  destruct (requests x !! t) as [[m q]|] eqn:Hq; simplify_eq/=. exists c, t, q. by rewrite Hq.
Qed.

(** A call that has not been handled yet has no steps. *)
Lemma no_steps s0 x u t :
  rpc_ok s0 x → links x !! u = Some t → locals x !! u = None → (u ∉ (answers (srv x)).*1) → steps_of t (trace x) = [].
Proof.
  intros Hok Hu Hl Ha. destruct (steps_of t (trace x)) as [|e es] eqn:He; [done|exfalso].
  destruct (ho_steps _ _ (rpc_handlers _ _ Hok) t) as (v & Hv & Hcase); [by rewrite He|].
  rewrite (rpc_injective _ _ Hok v u t Hv Hu), Hl in Hcase. by destruct Hcase as [[]|].
Qed.

(** The handlers that have returned are those of answered calls. *)
Lemma executed_answered s0 x e : rpc_ok s0 x → e ∈ executed x →
  ∃ u, links x !! u = Some (ex_call e) ∧ (u ∈ (answers (srv x)).*1).
Proof.
  intros Hok [k Hk]%list_elem_of_lookup.
  destruct (Forall2_lookup_l _ _ _ _ _ (rpc_answers _ _ Hok) Hk) as (a & Ha & Hl & _).
  exists a.1. split; [done|]. apply list_elem_of_fmap. exists a. split; [done|]. by eapply list_elem_of_lookup_2.
Qed.

Lemma rpc_ok_start s0 x f r :
  rpc_ok s0 x → start_handler f x = Some r → ∃ x', r = Done x' ∧ rpc_ok s0 x'.
Proof.
  intros Hok Hr. unfold start_handler in Hr. destruct (fibers (srv x) !! f) as [[u []]|] eqn:Hf; [|done|done].
  destruct (handler_request _ _ _ _ _ Hok Hf) as (c & t & q & Hc & Ht & Hq). rewrite Hc, Ht, Hq in Hr.
  apply bind_Some in Hr as (r0 & Hr0 & [= <-]).
  destruct (fiber_alone _ _ _ _ (rpc_srv _ _ Hok) Hf) as (Hna & _ & Hnh). specialize (Hnh eq_refl).
  assert (Hloc : locals x !! u = None).
  { apply eq_None_not_Some. intros [l Hl]. by destruct (ho_locals _ _ (rpc_handlers _ _ Hok) u l Hl). }
  pose proof (no_steps _ _ _ _ Hok Ht Hloc Hna) as Hnone.
  destruct Hok as [Hs Hcl Hrq Hl Hinj Hn Hrec Ha [Hth Hlo Hha Hste Hru] Hst].
  destruct (RunImpl_safe f (Ok empty) (srv x) Hs r0 Hr0) as (s' & -> & Hs'). eexists. split; [done|].
  destruct (start_step f u (Ok empty) _ _ Hf Hr0) as (Kr & Ka & Kf & Kn & Kh & Kfib).
  split; simpl; rewrite ?Ka, ?Kf, ?Kn; try done.
  - intros v t' Hv. destruct (Hl v t' Hv) as (? & ? & Hm). split_and!; [done|done|].
    intros c' Hc'. specialize (Kh v). rewrite Hc' in Kh. destruct (heap (srv x) !! v) as [c0|] eqn:Hc0; [|done].
    simplify_eq/=. rewrite Kh. by apply Hm.
  - auto.
  - split; simpl; rewrite ?Ka; try done.
    + intros v l [[<- <-]|[Hne Hv]]%lookup_insert_Some.
      * split; [apply Kfib; by right|]. exists t, (call_method c), q. by rewrite Hnone.
      * destruct (Hlo v l Hv) as (? & ?). split; [apply Kfib; by left|done].
    + intros v [Hv| ->]%Kfib; [|rewrite lookup_insert_eq; by eexists]. apply lookup_insert_is_Some'. right. by apply Hha.
    + intros t' Ht'. destruct (Hste t' Ht') as (v & ? & [?|?]); exists v; (split; [done|]); [left|by right].
      apply lookup_insert_is_Some'. by right.
Qed.

(** A step of the handler of call [t] adds to its run and to no other. *)
Lemma run_extend m q t t' l next es :
  handler_run (handler_begin m q) (steps_of t es) (inl l) →
  (t' = t → handler_run (handler_begin m q) (steps_of t' (es ++ [Stepped t l next])) next) ∧
  (t' ≠ t → steps_of t' (es ++ [Stepped t l next]) = steps_of t' es).
Proof.
  intros Hr. rewrite steps_of_snoc. split; intros H; [subst; rewrite decide_True by done|by rewrite decide_False].
  by apply handler_run_snoc.
Qed.

(** The handler goes on. *)
Lemma rpc_ok_continue s0 x f u t l l' state :
  rpc_ok s0 x → fibers (srv x) !! f = Some (u, Handling) → links x !! u = Some t → locals x !! u = Some l →
  handler_step l (service_state x) = (inl l', state) →
  rpc_ok s0 (MkRpcSystem (srv x) (cli x) (requests x) (links x) (<[u := l']> (locals x)) state
    (trace x ++ [Stepped t l (inl l')]) (executed x)).
Proof.
  intros Hok Hf Ht Hl Hstep. destruct (fiber_alone _ _ _ _ (rpc_srv _ _ Hok) Hf) as (Hna & _).
  assert (Hex : ∀ e, e ∈ executed x → ex_call e ≠ t).
  { intros e He Heq. destruct (executed_answered _ _ _ Hok He) as (v & Hv & Hin). apply Hna.
    by rewrite (rpc_injective _ _ Hok u v t) by congruence. }
  pose proof (rpc_injective _ _ Hok) as Hinj.
  destruct Hok as [Hs Hcl Hrq Hli ? Hn Hrec Ha [Hth Hlo Hha Hste Hru] Hst].
  destruct (Hlo u l Hl) as (Hin & t0 & m & q & Ht0 & Hq & Hrun). assert (t0 = t) as -> by congruence.
  split; simpl; try done. split; simpl.
  - eapply threaded_app; [exact Hth|]. simpl. eauto.
  - intros v l0 [[<- <-]|[Hne Hv]]%lookup_insert_Some.
    + split; [done|]. exists t, m, q. split_and!; [done|done|]. by apply (run_extend m q t t l (inl l')).
    + destruct (Hlo v l0 Hv) as (? & t' & m' & q' & Ht' & ? & ?). split; [done|]. exists t', m', q'. split_and!; [done|done|].
      rewrite (proj2 (run_extend m q t t' l (inl l') (trace x) Hrun)); [done|].
      intros ->. apply Hne. by apply (Hinj u v t).
  - intros v Hv. apply lookup_insert_is_Some'. right. by apply Hha.
  - intros t' Ht'. destruct (decide (t' = t)) as [->|Hne].
    + exists u. split; [done|]. left. rewrite lookup_insert_eq. by eexists.
    + rewrite (proj2 (run_extend m q t t' l (inl l') (trace x) Hrun) Hne) in Ht'.
      destruct (Hste t' Ht') as (v & ? & [?|?]); exists v; (split; [done|]); [left|by right].
      apply lookup_insert_is_Some'. by right.
  - intros e He. rewrite (proj2 (run_extend m q t (ex_call e) l (inl l') (trace x) Hrun) (Hex e He)). by apply Hru.
Qed.

(** The handler returns. *)
Lemma rpc_ok_return s0 x f u t l reply state c q s' :
  rpc_ok s0 x → fibers (srv x) !! f = Some (u, Handling) → heap (srv x) !! u = Some c →
  links x !! u = Some t → locals x !! u = Some l → requests x !! t = Some (call_method c, q) →
  handler_step l (service_state x) = (inr reply, state) → RunImpl f reply (srv x) = Some (Done s') → inv s' →
  rpc_ok s0 (MkRpcSystem s' (cli x) (requests x) (links x) (delete u (locals x)) state
    (trace x ++ [Stepped t l (inr reply)]) (executed x ++ [MkExecution t (call_method c) q reply])).
Proof.
  intros Hok Hf Hc Ht Hl Hq Hstep Hr Hs'. destruct (fiber_alone _ _ _ _ (rpc_srv _ _ Hok) Hf) as (Hna & Halone & _).
  assert (Hex : ∀ e, e ∈ executed x → ex_call e ≠ t).
  { intros e He Heq. destruct (executed_answered _ _ _ Hok He) as (v & Hv & Hin). apply Hna.
    by rewrite (rpc_injective _ _ Hok u v t) by congruence. }
  pose proof (rpc_injective _ _ Hok) as Hinj.
  destruct Hok as [Hs Hcl Hrq Hli ? Hn Hrec Ha [Hth Hlo Hha Hste Hru] Hst].
  destruct (answer_step f u reply _ _ Hf Hr) as (Kr & Ka & Kf & Kh & Kn & Kfib).
  destruct (Hlo u l Hl) as (_ & t0 & m & q0 & Ht0 & Hq0 & Hrun). simplify_eq.
  assert (Hother : ∀ t', t' ≠ t → steps_of t' (trace x ++ [Stepped t l (inr reply)]) = steps_of t' (trace x))
    by (intros t'; apply (run_extend (call_method c) q t t' l (inr reply)); exact Hrun).
  assert (Hkeep : ∀ v p, (v, p) ∈ fibers (srv x) → v ≠ u → (v, p) ∈ delete f (fibers (srv x))).
  { intros v p Hv Hne. rewrite <-(take_drop_middle _ _ _ Hf) in Hv. rewrite delete_take_drop.
    rewrite elem_of_app, elem_of_cons in Hv. rewrite elem_of_app. naive_solver. }
  split; simpl; rewrite ?Ka, ?Kf, ?Kh, ?Kn; try done.
  - auto.
  - apply Forall2_app; [done|]. constructor; [|constructor]. by split_and!.
  - split; simpl; rewrite ?Kfib, ?Ka.
    + eapply threaded_app; [exact Hth|]. simpl. eauto.
    + intros v l0 [Hne Hv]%lookup_delete_Some. destruct (Hlo v l0 Hv) as (? & t' & m' & q' & Ht' & ? & ?).
      split; [by apply Hkeep|]. exists t', m', q'. split_and!; [done|done|]. rewrite Hother; [done|].
      intros ->. apply Hne. by apply (Hinj u v t).
    + intros v Hv. assert (v ≠ u) by (intros ->; by destruct (Halone Handling)).
      rewrite lookup_delete_ne by done. apply Hha. by eapply list_elem_of_delete_inv.
    + intros t' Ht'. rewrite fmap_app. setoid_rewrite elem_of_app. destruct (decide (t' = t)) as [->|Hne].
      * exists u. split; [done|]. right. right. simpl. by left.
      * rewrite Hother in Ht' by done. destruct (Hste t' Ht') as (v & Hv & Hcase). exists v. split; [done|].
        rewrite lookup_delete_ne by (intros ->; congruence). naive_solver.
    + intros e [He| ->%list_elem_of_singleton]%elem_of_app; [rewrite Hother by (by apply Hex); by apply Hru|]. simpl.
      by apply (run_extend (call_method c) q t t l (inr reply)).
  - intros t' st [(e & He & ? & ?)|?]%Hst; [left|by right]. exists e. simpl. rewrite elem_of_app. auto.
Qed.

Lemma rpc_ok_handler s0 x f r :
  rpc_ok s0 x → run_handler f x = Some r → ∃ x', r = Done x' ∧ rpc_ok s0 x'.
Proof.
  intros Hok Hr. unfold run_handler in Hr. destruct (fibers (srv x) !! f) as [[u []]|] eqn:Hf; [done| |done].
  destruct (handler_request _ _ _ _ _ Hok Hf) as (c & t & q & Hc & Ht & Hq).
  destruct (ho_handling _ _ (rpc_handlers _ _ Hok) u) as [l Hl]; [by eapply list_elem_of_lookup_2|].
  rewrite Hc, Ht, Hl in Hr. destruct (handler_step l (service_state x)) as [[l'|reply] state] eqn:Hstep.
  - injection Hr as <-. eexists. split; [done|]. by eapply rpc_ok_continue.
  - rewrite Hq in Hr. apply bind_Some in Hr as (r0 & Hr0 & [= <-]).
    destruct (RunImpl_safe f reply (srv x) (rpc_srv _ _ Hok) r0 Hr0) as (s' & -> & Hs'). eexists. split; [done|].
    by eapply rpc_ok_return.
Qed.

Lemma rpc_ok_complete s0 x j st r :
  rpc_ok s0 x → (∀ t, pending (cli x) !! j = Some t → explained x t st) →
  grpc_complete j st (cli x) = Some r → ∃ c', r = Done c' ∧ rpc_ok s0 (set_cli c' x).
Proof.
  intros Hok Hex Hr. destruct (complete_safe j st (cli x) (rpc_cli _ _ Hok) r Hr) as (c' & -> & Hc').
  exists c'. split; [done|]. apply rpc_ok_client; [done|done|by eapply (act_next (Completes j st))|].
  intros t st' Hh. destruct (complete_has_status _ _ _ _ _ _ Hr Hh) as [?|[Hj ->]]; [by left|right; auto].
Qed.

Lemma reply_for_Some s0 t x a :
  rpc_ok s0 x → reply_for t x = Some a →
  ∃ e, e ∈ executed x ∧ ex_call e = t ∧ a = RunImpl_answer (ex_reply e).
Proof.
  unfold reply_for. intros Hok ([i [u a']] & Ha & ->)%fmap_Some. apply list_find_Some in Ha as (Hi & Ht & _).
  destruct (Forall2_lookup_r _ _ _ _ _ (rpc_answers _ _ Hok) Hi) as (e & He & Hl & Heq & _). simpl in *.
  exists e. split_and!; [by eapply list_elem_of_lookup_2|congruence|done].
Qed.

(** An action of the threads of the server alone. *)
Definition server_label (l : label (Response := Response)) : Prop :=
  (∀ i, l ≠ Arrive i) ∧ (∀ f r, l ≠ Fiber f r).

Lemma rpc_ok_exec s0 x l r :
  rpc_ok s0 x → server_label l → l ≠ CallShutDown → exec l (srv x) = Some r →
  ∃ s', r = Done s' ∧ rpc_ok s0 (set_srv s' x).
Proof.
  intros Hok [Ha Hf] Hne Hr. destruct (exec_safe l _ (rpc_srv _ _ Hok) Hne r Hr) as (s' & -> & Hs').
  exists s'. split; [done|]. apply rpc_ok_server; [done| |done]. by eapply exec_keeps.
Qed.

Lemma rpc_ok_act s0 x a r :
  rpc_ok s0 x → a ≠ Call → (∀ i st, a ≠ Completes i st) → act a (cli x) = Some r →
  ∃ c', r = Done c' ∧ rpc_ok s0 (set_cli c' x).
Proof.
  intros Hok Hc Hne Hr. destruct (act_ok a _ (rpc_cli _ _ Hok) r Hr) as (c' & -> & Hc').
  exists c'. split; [done|]. apply rpc_ok_client; [done|done|by eapply act_next|].
  intros t st Hh. left. by eapply act_has_status.
Qed.

(** Every action but a call of [ShutDown] keeps the invariant and is defined. *)
Lemma rpc_exec_safe s0 x l r :
  rpc_ok s0 x → l ≠ Server_ CallShutDown → rpc_exec l x = Some r → ∃ x', r = Done x' ∧ rpc_ok s0 x'.
Proof.
  intros Hok Hne Hr.
  assert (Hexec : ∀ l0 r0, server_label l0 → l0 ≠ CallShutDown → exec l0 (srv x) = Some r0 →
    r = (s ← r0; Done (set_srv s x)) → ∃ x', r = Done x' ∧ rpc_ok s0 x').
  { intros l0 r0 Hl0 Hn0 Hx ->. destruct (rpc_ok_exec _ _ _ _ Hok Hl0 Hn0 Hx) as (s' & -> & ?). by eexists. }
  assert (Hact : ∀ a r0, a ≠ Call → (∀ i st, a ≠ Completes i st) → act a (cli x) = Some r0 →
    r = (c ← r0; Done (set_cli c x)) → ∃ x', r = Done x' ∧ rpc_ok s0 x').
  { intros a r0 Hc Hn Hx ->. destruct (rpc_ok_act _ _ _ _ Hok Hc Hn Hx) as (c' & -> & ?). by eexists. }
  destruct l as [l|f|f|state|m q|a|i t|j|j code message]; cbn [rpc_exec] in Hr.
  - destruct l; try done; apply bind_Some in Hr as (r0 & Hr0 & [= Heq]);
      (eapply Hexec; [| |exact Hr0|done]; [by split|done]).
  - by eapply rpc_ok_start.
  - by eapply rpc_ok_handler.
  - injection Hr as <-. eexists. split; [done|]. by apply rpc_ok_change.
  - injection Hr as <-. eexists. split; [done|]. by apply rpc_ok_call.
  - destruct a; try done; apply bind_Some in Hr as (r0 & Hr0 & [= Heq]);
      (eapply Hact; [| |exact Hr0|done]; done).
  - by eapply rpc_ok_deliver.
  - unfold complete_reply in Hr. apply bind_Some in Hr as (t & Ht & Hr). apply bind_Some in Hr as (a & Ha & Hr).
    apply bind_Some in Hr as (r0 & Hr0 & [= <-]). destruct (reply_for_Some _ _ _ _ Hok Ha) as (e & He & Het & ->).
    eapply rpc_ok_complete in Hr0 as (c' & -> & ?); [by eexists|done|].
    intros t' Ht'. left. exists e. split_and!; [done|congruence|done].
  - unfold complete_error in Hr. apply bind_Some in Hr as (r0 & Hr0 & [= <-]).
    eapply rpc_ok_complete in Hr0 as (c' & -> & ?); [by eexists|done|].
    intros t' Ht'. right. by eexists _, _.
Qed.

Lemma rpc_step_ok s0 x x' : rpc_ok s0 x → rpc_step x x' → rpc_ok s0 x'.
Proof.
  intros Hok (l & Hl & Hreg).
  assert (l = Server_ CallShutDown ∨ l ≠ Server_ CallShutDown) as [->|Hne].
  { destruct l as [[]| | | | | | | |]; (by left) || by right. }
  - cbn [rpc_exec exec] in Hl. simpl in Hl. destruct (ShutDown (srv x)) as [s'| |] eqn:Hs; simplify_eq/=.
    apply rpc_ok_server; [done|apply shutdown_keeps; by right|].
    eapply step_inv; [by apply Hok|]. exists CallShutDown. simpl. rewrite Hs. by split; [|intros _; apply Hreg].
  - by destruct (rpc_exec_safe _ _ _ _ Hok Hne Hl) as (x1 & [= <-] & ?).
Qed.

Lemma rpc_new_ok services s state : started services = Done s → rpc_ok state (rpc_new s state).
Proof.
  intros Hs. destruct (started_inv (Response := Response) services) as (s1 & H1 & Hinv). rewrite H1 in Hs. injection Hs as ->.
  unfold started in H1. rewrite registers in H1 by done. injection H1 as <-. split; simpl; try done.
  - split; simpl; try done; intros t; rewrite lookup_empty; (done || by split; [lia|]).
  - intros t. rewrite lookup_empty. split; [by intros []|lia].
  - intros u Hr. unfold received in Hr. simpl in Hr. set_solver.
  - split; simpl; try done.
    + intros u Hu. by apply not_elem_of_nil in Hu.
    + intros e He. by apply not_elem_of_nil in He.
  - intros t st [(f & Hf & _)|(res & Hr)]; simpl in *;
      [by rewrite lookup_empty in Hf|by apply elem_of_nil in Hr].
Qed.

Lemma rpc_reachable_ok services s state x :
  started services = Done s → rtc rpc_step (rpc_new s state) x → rpc_ok state x.
Proof.
  intros Hs Hrun. pose proof (rpc_new_ok services s state Hs) as H0. revert H0.
  induction Hrun; eauto using rpc_step_ok.
Qed.

Lemma executed_once s0 x : rpc_ok s0 x → NoDup (ex_call <$> executed x).
Proof.
  intros Hok. assert (Hnd : NoDup (answers (srv x)).*1).
  { apply cnt_NoDup. intros t. pose proof (inv_tags _ (rpc_srv _ _ Hok) t) as [_ Ha Ho _]. unfold answered in Ha. lia. }
  pose proof (rpc_answers _ _ Hok) as HF. revert Hnd.
  induction HF as [|e a es as_ (Hl & _) HF IH]; simpl; [intros; constructor|].
  intros [Hnot Hnd]%NoDup_cons. constructor; [|by apply IH].
  intros (e' & He' & Hin)%list_elem_of_fmap. apply Hnot.
  apply list_elem_of_lookup in Hin as [k Hk]. destruct (Forall2_lookup_l _ _ _ _ _ HF Hk) as (a' & Ha' & Hl' & _).
  rewrite (rpc_injective _ _ Hok a.1 a'.1 (ex_call e)) by (done || by rewrite He').
  apply list_elem_of_fmap. exists a'. split; [done|]. by eapply list_elem_of_lookup_2.
Qed.

Lemma executed_request s0 x e :
  rpc_ok s0 x → e ∈ executed x → requests x !! ex_call e = Some (ex_method e, ex_request e).
Proof.
  intros Hok [k Hk]%list_elem_of_lookup.
  by destruct (Forall2_lookup_l _ _ _ _ _ (rpc_answers _ _ Hok) Hk) as (a & _ & _ & _ & ?).
Qed.

Lemma handler_can_step s0 x :
  rpc_ok s0 x → ∀ f u, fibers (srv x) !! f = Some (u, Handling) → is_Some (rpc_exec (Handle f) x).
Proof.
  intros Hok f u Hf. destruct (handler_request _ _ _ _ _ Hok Hf) as (c & t & q & Hc & Ht & Hq).
  destruct (ho_handling _ _ (rpc_handlers _ _ Hok) u) as [l Hl]; [by eapply list_elem_of_lookup_2|].
  simpl. unfold run_handler. rewrite Hf, Hc, Ht, Hl. destruct (handler_step _ _) as [[l'|reply] state]; [by eexists|].
  rewrite Hq. unfold RunImpl. rewrite Hf. by eexists.
Qed.

(** The steps of a call are those of a handler that runs or has returned. *)
Lemma steps_are_a_run s0 x t :
  rpc_ok s0 x → steps_of t (trace x) ≠ [] → ∃ m q res,
    requests x !! t = Some (m, q) ∧ handler_run (handler_begin m q) (steps_of t (trace x)) res ∧
    (∀ reply, res = inr reply → MkExecution t m q reply ∈ executed x).
Proof.
  intros Hok Ht. pose proof (rpc_handlers _ _ Hok) as [_ Hlo _ Hste Hru].
  destruct (Hste t Ht) as (u & Hu & [[l Hl]|Hin]).
  - destruct (Hlo u l Hl) as (_ & t' & m & q & Ht' & Hq & Hr). simplify_eq. by exists m, q, (inl l).
  - apply list_elem_of_fmap in Hin as ([v a] & -> & Hin). apply list_elem_of_lookup in Hin as [k Hk].
    destruct (Forall2_lookup_r _ _ _ _ _ (rpc_answers _ _ Hok) Hk) as (e & He & Hl & _ & Hreq). simpl in *.
    apply list_elem_of_lookup_2 in He. assert (ex_call e = t) as <- by congruence.
    exists (ex_method e), (ex_request e), (inr (ex_reply e)). split_and!; [done|by apply Hru|].
    intros reply [= <-]. by destruct e.
Qed.

(** [C35] Remote calls in production, whatever the threads, the fibers, the
    handlers and gRPC do, in any interleaving: no action is undefined or fails a
    check, except an ill-timed [ShutDown]; a handler that runs can always take
    its next step; the shared state of the service changes only by steps of
    handlers, each on the state that the event before has left, and by changes
    from elsewhere; the steps made for a call of a client are one run of the
    handler of its method on its request, so no call is handled twice; a handler
    that has returned ran to its reply; and a call returns what its handler
    replied as the server sends it (a value unchanged, of an error the message),
    or the result of an error of gRPC. *)
Theorem remote_calls_end_to_end (services : list (list nat)) s state x :
  started services = Done s → rtc rpc_step (rpc_new s state) x →
  (∀ l r, l ≠ Server_ CallShutDown → rpc_exec l x = Some r → ∃ x', r = Done x') ∧
  (∀ f u, fibers (srv x) !! f = Some (u, Handling) → is_Some (rpc_exec (Handle f) x)) ∧
  threaded state (trace x) (service_state x) ∧
  (∀ t, steps_of t (trace x) ≠ [] → ∃ m q res,
     requests x !! t = Some (m, q) ∧ handler_run (handler_begin m q) (steps_of t (trace x)) res ∧
     (∀ reply, res = inr reply → MkExecution t m q reply ∈ executed x)) ∧
  NoDup (ex_call <$> executed x) ∧
  (∀ e, e ∈ executed x →
     requests x !! ex_call e = Some (ex_method e, ex_request e) ∧
     handler_run (handler_begin (ex_method e) (ex_request e)) (steps_of (ex_call e) (trace x)) (inr (ex_reply e))) ∧
  (∀ t st res, (t, (st, res)) ∈ returned (cli x) →
     (∃ e, e ∈ executed x ∧ ex_call e = t ∧
        res = MakeRequest_result (transmit empty (RunImpl_answer (ex_reply e)))) ∨
     (∃ code message, res = MakeRequest_result (MkGrpcStatus (Some code) message empty))).
Proof.
  intros Hs Hrun. pose proof (rpc_reachable_ok services s state x Hs Hrun) as Hok.
  pose proof (rpc_handlers _ _ Hok) as [Hth Hlo Hha Hste Hru]. split_and!.
  - intros l r Hne Hl. destruct (rpc_exec_safe _ _ _ _ Hok Hne Hl) as (x' & -> & _). by eexists.
  - by apply (handler_can_step state).
  - done.
  - intros t Ht. by apply (steps_are_a_run state).
  - by eapply executed_once.
  - intros e He. split; [by apply (executed_request state)|by apply Hru].
  - intros t st res Hin.
    pose proof (proj1 (Forall_forall _ _) (client_results _ (rpc_cli _ _ Hok)) _ Hin) as Hres. simpl in Hres. subst res.
    destruct (rpc_status _ _ Hok t st) as [(e & ? & ? & ->)|(code & message & ->)]; [right; by eexists|left|right]; eauto.
Qed.
End rpc.

(** ** The tests of the production RPC runtime

    src/runtime/production/ut/rpc.cpp on the model: the actions of each test, with
    a schedule of the threads and the answers that gRPC documents for it. *)

Section run.
Context {Request Response State Local : Type}.
Variable handler_begin : nat → Request → Local.
Variable handler_step : Local → State → (Local + Result Response RpcError) * State.
Variable empty : Response.
Local Abbreviation label_type := (rpc_label (Request := Request) (Response := Response) (State := State)).
Local Abbreviation system := (rpc_system (Request := Request) (Response := Response) (State := State) (Local := Local)).

Fixpoint rpc_run (ls : list label_type) (x : system) : option system :=
  match ls with
  | [] => Some x
  | l :: ls => match rpc_exec handler_begin handler_step empty l x with Some (Done x') => rpc_run ls x' | _ => None end
  end.

(** [ShutDown] is only called when every method was requested. *)
Fixpoint rpc_patient (ls : list label_type) (x : system) : bool :=
  match ls with
  | [] => true
  | l :: ls =>
      match l with Server_ CallShutDown => bool_decide (to_put (srv x) = []) | _ => true end &&
      match rpc_exec handler_begin handler_step empty l x with Some (Done x') => rpc_patient ls x' | _ => false end
  end.

Lemma rpc_run_steps ls x x' :
  rpc_run ls x = Some x' → rpc_patient ls x = true → rtc (rpc_step handler_begin handler_step empty) x x'.
Proof.
  revert x. induction ls as [|l ls IH]; intros x; simpl; [intros [= ->] _; apply rtc_refl|].
  destruct (rpc_exec handler_begin handler_step empty l x) as [[x1| |]|] eqn:Hl; try done. intros Hrun [Hreg Hp]%andb_prop.
  eapply rtc_l; [|by apply IH]. exists l. split; [done|]. intros ->. left. by apply bool_decide_eq_true in Hreg.
Qed.
End run.

Module ProductionRpc.
(** [EchoService]; the messages are their texts. The handler of the second test
    is suspended before it replies ([SleepFor]); the shared state counts the
    replies. *)
Inductive echo_local : Type := Sleeping (request : string) | Awake (request : string).

Definition Echo (method : nat) (request : string) : echo_local := Awake request.
Definition SleepingEcho (method : nat) (request : string) : echo_local := Sleeping request.
Definition Echo_step (local : echo_local) (count : nat) : (echo_local + Result string RpcError) * nat :=
  match local with
  | Sleeping request => (inl (Awake request), count)
  | Awake request => (inr (Ok ("Hello, " +:+ request)), S count)
  end.

Abbreviation echo_label := (rpc_label (Request := string) (Response := string) (State := nat)).
Abbreviation echo_system := (rpc_system (Request := string) (Response := string) (State := nat) (Local := echo_local)).

Definition server_with (services : list (list nat)) : ServerImpl (Response := string) :=
  match started services with Done s => s | _ => ServerImpl_new end.

Definition dispatch (n : nat) : list echo_label := replicate n (Server_ (Dispatch 0)).

(** [server.Start] and [server.Run] on a thread. *)
Definition start (methods : nat) : list echo_label :=
  [Server_ CallRun; Server_ (Worker 0)] ++ dispatch (S methods).

(** [client.Echo(request)]: the fiber waits for the completion. *)
Definition call : list echo_label :=
  [CallRemote 0 "Client"; Client_ (FiberActs 0); Client_ (FiberActs 0)].
(** The completion reaches the fiber, which returns. *)
Definition return_ : list echo_label :=
  replicate 5 (Client_ (ThreadActs 0)) ++ [Client_ (FiberActs 0); Client_ (FiberActs 0)].

(** The request reaches its handler. *)
Definition reach_handler : list echo_label :=
  [Deliver 0 0] ++ dispatch 4 ++ [Server_ (Worker 0); StartFiber 0].

(** [server.ShutDown()] and the end of [server.Run()]; [open] calls are still requested. *)
Definition shut_down (open : nat) : list echo_label :=
  [Server_ CallShutDown; Server_ Shutter] ++
  mjoin (replicate open ([Server_ (Cancel 0)] ++ dispatch 2)) ++
  replicate 3 (Server_ Shutter) ++ dispatch 1 ++ [Server_ Shutter; Server_ (Worker 0); Server_ Shutter].

Definition outcome_of (r : option echo_system) : option (list (Result string RpcError) * shutdown_pc) :=
  x ← r; Some ((λ p, p.2.2) <$> returned (cli x), shutdown (srv x)).

Definition simple_schedule : list echo_label :=
  start 1 ++ call ++ reach_handler ++ [Handle 0; CompleteReply 0] ++ return_ ++
  [Server_ (Complete 0 true)] ++ dispatch 2.

Definition SimplyWorks : option (list (Result string RpcError) * shutdown_pc) :=
  outcome_of (rpc_run Echo Echo_step "" (simple_schedule ++ shut_down 1) (rpc_new (server_with [[0]]) 0)).

(** The handler sleeps while the call is cancelled and returns later. *)
Definition CancelSimplyWorks : option (list (Result string RpcError) * shutdown_pc) :=
  outcome_of (rpc_run SleepingEcho Echo_step ""
    (start 1 ++ call ++ reach_handler ++ [Handle 0; CompleteError 0 GrpcCancelled "CANCELLED"] ++ return_ ++
     [Handle 0; Server_ (Complete 0 true)] ++ dispatch 2 ++ shut_down 1) (rpc_new (server_with [[0]]) 0)).

(** A server without services. *)
Definition HandlerNotFound : option (list (Result string RpcError) * shutdown_pc) :=
  outcome_of (rpc_run Echo Echo_step ""
    (start 0 ++ call ++ [CompleteError 0 GrpcUnimplemented ""] ++ return_ ++ shut_down 0)
    (rpc_new (server_with []) 0)).

(** There is no server at the address. *)
Definition ConnectionRefused : option (list (Result string RpcError) * shutdown_pc) :=
  outcome_of (rpc_run Echo Echo_step ""
    (call ++ [CompleteError 0 GrpcOther "failed to connect: Connection refused"] ++ return_)
    (rpc_new ServerImpl_new 0)).

Example simply_works : SimplyWorks = Some ([Ok "Hello, Client"], Finished).
Proof. vm_compute. reflexivity. Qed.
Example cancel_simply_works : CancelSimplyWorks = Some ([Err (MkRpcError Cancelled "CANCELLED")], Finished).
Proof. vm_compute. reflexivity. Qed.
Example handler_not_found :
  HandlerNotFound = Some ([Err (MkRpcError RtTypes.HandlerNotFound "")], Finished).
Proof. vm_compute. reflexivity. Qed.
Example connection_refused :
  ConnectionRefused = Some ([Err (MkRpcError RtTypes.ConnectionRefused "failed to connect: Connection refused")], NotCalled).
Proof. vm_compute. reflexivity. Qed.
End ProductionRpc.

(** Two calls whose handlers are interleaved: the handler of the second call
    takes its steps while that of the first one is suspended; the second call
    is answered first. *)
Definition interleaved_schedule : list ProductionRpc.echo_label :=
  ProductionRpc.start 1 ++
  [CallRemote 0 "A"; CallRemote 0 "B";
   Client_ (FiberActs 0); Client_ (FiberActs 0); Client_ (FiberActs 1); Client_ (FiberActs 1);
   Deliver 0 0] ++ ProductionRpc.dispatch 4 ++ [Server_ (Worker 0); Server_ (Worker 0)] ++
  [Deliver 0 1] ++ ProductionRpc.dispatch 4 ++ [Server_ (Worker 0)] ++
  [StartFiber 0; Handle 0; StartFiber 1; Handle 1; Change 7; Handle 1; Handle 0; CompleteReply 1; CompleteReply 0] ++
  replicate 5 (Client_ (ThreadActs 0)) ++ [Client_ (FiberActs 1); Client_ (FiberActs 1)] ++
  replicate 5 (Client_ (ThreadActs 0)) ++ [Client_ (FiberActs 0); Client_ (FiberActs 0)].

Lemma remote_calls_end_to_end_witness :
  ∃ x, rtc (rpc_step ProductionRpc.SleepingEcho ProductionRpc.Echo_step "") (rpc_new (ProductionRpc.server_with [[0]]) 0) x ∧
    (λ p, (p.1, p.2.2)) <$> returned (cli x) = [(1, Ok "Hello, B"); (0, Ok "Hello, A")] ∧ service_state x = 9 ∧
    threaded ProductionRpc.Echo_step 0 (trace x) 9 ∧
    (∀ e, e ∈ executed x →
       handler_run (ProductionRpc.SleepingEcho (ex_method e) (ex_request e)) (steps_of (ex_call e) (trace x)) (inr (ex_reply e))).
Proof.
  destruct (rpc_run ProductionRpc.SleepingEcho ProductionRpc.Echo_step "" interleaved_schedule
    (rpc_new (ProductionRpc.server_with [[0]]) 0)) as [x|] eqn:Hx; [|by vm_compute in Hx].
  assert (Hrun := rpc_run_steps _ _ _ _ _ _ Hx ltac:(vm_compute; reflexivity)). exists x. split; [done|].
  destruct (remote_calls_end_to_end ProductionRpc.SleepingEcho ProductionRpc.Echo_step "" [[0]]
    (ProductionRpc.server_with [[0]]) 0 x eq_refl Hrun) as (_ & _ & Hth & _ & _ & Hex & _).
  assert (Hst : service_state x = 9) by (clear Hrun Hth Hex; vm_compute in Hx; by injection Hx as <-).
  rewrite Hst in Hth. split_and!; [|done|done|intros e He; by apply Hex].
  clear Hrun Hth Hex Hst. vm_compute in Hx. by injection Hx as <-.
Defined.
