(* ===== verification/ProdClientClose.v ===== *)
(** * Cancellation and destruction of the production RPC client

    The rest of src/runtime/production/rpc_client_base.{h,cpp} on top of
    ProdClient.v: the stop callback of [MakeRequest], which cancels the context
    of the call, and the destructor of [ClientBase], which shuts the completion
    queue down and joins the dispatching thread. [Next] returns [false] when the
    queue was shut down and every completion has been taken; no call may be
    started on a queue that was shut down. A stop callback is registered as long
    as the frame of its call (the destructor of [StopCallback] waits for a
    running callback, Cancellation.v); the call still completes once, with a
    status that gRPC chooses. *)

From S2P Require Import Prelude.
From S2P Require Import Result.
From S2P Require Import RtTypes.
From S2P Require Import ProdServer.
From S2P Require Import ProdClient.
Open Scope nat_scope.

Section close.
Context {Response : Type}.

(** Where the destructor is. *)
Inductive close_pc : Type := Alive | Joining | Destroyed.

(** The client, its destructor, whether [DispatchServiceResponses] has returned,
    and the calls whose context was cancelled. *)
Record Client : Type := MkClient {
  base : ClientBase (Response := Response);
  close : close_pc;
  thread_returned : bool;
  try_cancelled : list nat;
}.

Definition Client_new : Client := MkClient ClientBase_new Alive false [].

Definition set_base (b : ClientBase) (c : Client) : Client :=
  MkClient b (close c) (thread_returned c) (try_cancelled c).

(** The callback of the call of frame [t]: [context.TryCancel()]. *)
Definition stop_callback (t : nat) (c : Client) : option (outcome Client) :=
  match frames (base c) !! t with
  | Some _ => Some (Done (MkClient (base c) (close c) (thread_returned c) (try_cancelled c ++ [t])))
  | None => None
  end.

(** [queue_.Shutdown()] *)
Definition destroy_begin (c : Client) : option (outcome Client) :=
  match close c with
  | Alive => Some (Done (MkClient (base c) Joining (thread_returned c) (try_cancelled c)))
  | _ => Some (Undefined "client destroyed twice")
  end.

(** [Next] returns [false]: the loop of the thread ends. *)
Definition Next_false (c : Client) : option (outcome Client) :=
  match close c, dispatching_thread_ (base c), pending (base c), queue_ (base c), thread_returned c with
  | Joining, InNext, [], [], false => Some (Done (MkClient (base c) Joining true (try_cancelled c)))
  | _, _, _, _, _ => None
  end.

(** [dispatching_thread_.join()] *)
Definition destroy_join (c : Client) : option (outcome Client) :=
  match close c, thread_returned c with
  | Joining, true => Some (Done (MkClient (base c) Destroyed true (try_cancelled c)))
  | _, _ => None
  end.

Inductive close_action : Type :=
  | Act (a : action (Response := Response))
  | StopRequested (t : nat)
  | Destroy
  | NextFalse
  | Join.

Definition close_act (a : close_action) (c : Client) : option (outcome Client) :=
  match a with
  | Act Call =>
      match close c with
      | Alive => r ← act Call (base c); Some (b ← r; Done (set_base b c))
      | _ => Some (Undefined "call on a client that is being destroyed")
      end
  | Act (ThreadActs i) =>
      if thread_returned c then None
      else r ← act (ThreadActs i) (base c); Some (b ← r; Done (set_base b c))
  | Act a => r ← act a (base c); Some (b ← r; Done (set_base b c))
  | StopRequested t => stop_callback t c
  | Destroy => destroy_begin c
  | NextFalse => Next_false c
  | Join => destroy_join c
  end.

(** The owner of the client neither calls it nor destroys it once it has begun to
    destroy it. *)
Definition allowed (a : close_action) (c : Client) : Prop :=
  a = Act Call ∨ a = Destroy → close c = Alive.

Definition close_step (c c' : Client) : Prop :=
  ∃ a, allowed a c ∧ close_act a c = Some (Done c').

(** ** Safety *)

Record closing_ok (c : Client) : Prop := MkClosingOk {
  closing_base : client_ok (base c);
  closing_thread : thread_returned c = true →
    close c ≠ Alive ∧ dispatching_thread_ (base c) = InNext ∧ pending (base c) = [] ∧ queue_ (base c) = [];
  closing_destroyed : close c = Destroyed → thread_returned c = true;
}.

(** An action of the client of ProdClient.v other than a call or of the thread
    keeps the thread and does not add completions. *)
Lemma act_drained a (b b' : ClientBase (Response := Response)) :
  act a b = Some (Done b') → a ≠ Call → (∀ i, a ≠ ThreadActs i) →
  dispatching_thread_ b = InNext → pending b = [] → queue_ b = [] →
  dispatching_thread_ b' = InNext ∧ pending b' = [] ∧ queue_ b' = [].
Proof.
  intros Ha Hc Ht Hd Hp Hq. destruct a as [|t|t|i st|i]; simpl in Ha; [done| | | |by destruct (Ht i)].
  - unfold MakeRequest_step in Ha. repeat case_match; by simplify_eq/=.
  - unfold spurious_wakeup in Ha. repeat case_match; by simplify_eq/=.
  - unfold grpc_complete in Ha. by rewrite Hp in Ha.
Qed.

Lemma close_act_safe a c r :
  closing_ok c → allowed a c → close_act a c = Some r → ∃ c', r = Done c' ∧ closing_ok c'.
Proof.
  intros [Hb Ht Hd] Hall Hr.
  assert (Hbase : ∀ a0 r0, act a0 (base c) = Some r0 → (thread_returned c = true → a0 ≠ Call ∧ ∀ i, a0 ≠ ThreadActs i) →
    r = (b ← r0; Done (set_base b c)) → ∃ c', r = Done c' ∧ closing_ok c').
  { intros a0 r0 Ha Hok ->. destruct (act_ok a0 _ Hb _ Ha) as (b' & -> & Hb'). eexists. split; [done|].
    split; simpl; [done| |done]. intros Hret. destruct (Ht Hret) as (? & ? & ? & ?). destruct (Hok Hret).
    split; [done|]. by eapply act_drained. }
  destruct a as [a|t| | |].
  - assert (Ha : close_act (Act a) c = None ∨ (close c ≠ Alive ∧ a = Call) ∨
      ((thread_returned c = true → a ≠ Call ∧ ∀ i, a ≠ ThreadActs i) ∧
       close_act (Act a) c = r0 ← act a (base c); Some (b ← r0; Done (set_base b c)))).
    { destruct a; simpl; eauto.
      - destruct (close c) eqn:Hc; eauto. right. right. split; [|done]. intros Hret.
        by destruct (Ht Hret) as [? _].
      - destruct (thread_returned c); [by left|]. by right; right. }
    destruct Ha as [Hnone|[[Hne ->]|[Hok Heq]]]; [congruence|by destruct Hne; apply Hall; left|].
    rewrite Heq in Hr. apply bind_Some in Hr as (r0 & Hr0 & [= <-]). by eapply Hbase.
  - simpl in Hr. unfold stop_callback in Hr. case_match; [|done]. simplify_eq/=. eexists. split; [done|]. by split.
  - simpl in Hr. unfold destroy_begin in Hr. rewrite (Hall ltac:(by right)) in Hr. simplify_eq/=.
    eexists. split; [done|]. split; simpl; [done| |done]. intros Hret. by destruct (Ht Hret).
  - simpl in Hr. unfold Next_false in Hr. repeat case_match; simplify_eq/=. eexists. split; [done|].
    split; simpl; [done| |done]. done.
  - simpl in Hr. unfold destroy_join in Hr. repeat case_match; simplify_eq/=. eexists. split; [done|].
    split; simpl; [done| |done]. intros _. by destruct (Ht eq_refl) as (_ & ?).
Qed.

Lemma Client_new_ok : closing_ok Client_new.
Proof.
  split; simpl; [|done|done].
  split; simpl; try done; intros t; rewrite lookup_empty; (done || by split; [lia|]).
Qed.

Lemma close_reachable_ok c : rtc close_step Client_new c → closing_ok c.
Proof.
  intros Hrun. pose proof Client_new_ok as H0. revert H0.
  induction Hrun as [|c1 c2 c3 (a & Hall & Ha) _ IH]; [done|]. intros H1. apply IH.
  by destruct (close_act_safe a c1 _ H1 Hall Ha) as (c' & [= <-] & Hok).
Qed.
(** ** Termination of the destructor *)

Definition fiber_weight (f : frame (Response := Response)) : nat :=
  match fiber f with Locking => 2 | Checking => 1 | Sleeping => 0 end.

Definition frames_weight (m : gmap nat (frame (Response := Response))) : nat :=
  map_fold (λ _ f n, fiber_weight f + n) 0 m.

Definition thread_weight (p : thread_pc) : nat :=
  match p with InNext => 0 | Unlock _ => 1 | SetFlag _ => 2 | Notify _ => 5 | Lock _ => 6 end.

(** The number of actions that fibers, thread and gRPC can still make. *)
Definition client_work (b : ClientBase (Response := Response)) : nat :=
  8 * length (pending b) + 7 * length (queue_ b) + thread_weight (dispatching_thread_ b) +
  frames_weight (frames b).

Definition close_work (c : Client) : nat :=
  client_work (base c) + (if thread_returned c then 0 else 1) +
  match close c with Alive => 2 | Joining => 1 | Destroyed => 0 end.

Lemma frames_weight_delete m t f :
  m !! t = Some f → frames_weight m = fiber_weight f + frames_weight (delete t m).
Proof. intros Hm. unfold frames_weight. by rewrite (map_fold_delete_L _ _ t f) by (done || intros; lia). Qed.

Lemma frames_weight_insert m t f : frames_weight (<[t := f]> m) = fiber_weight f + frames_weight (delete t m).
Proof.
  rewrite (frames_weight_delete (<[t := f]> m) t f) by apply lookup_insert_eq. by rewrite delete_insert_eq.
Qed.

(** What fibers, the thread and gRPC do by themselves. *)
Definition own_action (a : action (Response := Response)) : Prop :=
  match a with FiberActs _ | Completes _ _ | ThreadActs _ => True | _ => False end.

Lemma get_frame_Done t (b : ClientBase (Response := Response)) f :
  get_frame t b = Done f → frames b !! t = Some f.
Proof. unfold get_frame. case_match; by intros [= <-]. Qed.

(** The frame that an action replaces, in the work before and after it. *)
Ltac weigh_frame t b :=
  let f := fresh "f" in let Hf := fresh "Hf" in
  destruct (get_frame t b) as [f| |] eqn:Hf; simplify_eq/=; apply get_frame_Done in Hf;
  rewrite frames_weight_insert, (frames_weight_delete _ _ _ Hf); unfold fiber_weight; simpl.

Lemma act_work a b b' : own_action a → act a b = Some (Done b') → client_work b' < client_work b.
Proof.
  intros Hown Ha. unfold client_work. destruct a as [|t|t|i st|i]; simpl in Ha; try done.
  - unfold MakeRequest_step in Ha. destruct (frames b !! t) as [f|] eqn:Hf; [|done].
    pose proof (frames_weight_delete _ _ _ Hf) as Hw. unfold fiber_weight in Hw.
    repeat case_match; simplify_eq/=; rewrite ?frames_weight_insert; unfold fiber_weight; simpl; lia.
  - unfold grpc_complete in Ha. destruct (pending b !! i) as [t|] eqn:Hi; [|done].
    weigh_frame t b.
    rewrite length_app, length_delete by by eexists. apply lookup_lt_Some in Hi. simpl. lia.
  - unfold DispatchServiceResponses in Ha. destruct (dispatching_thread_ b) as [|t|t|t|t]; simpl.
    + destruct (queue_ b !! i) as [t|] eqn:Hi; simplify_eq/=. rewrite length_delete by by eexists.
      apply lookup_lt_Some in Hi. lia.
    + destruct (frames b !! t) as [f|] eqn:Hf; [|done]. pose proof (frames_weight_delete _ _ _ Hf) as Hw.
      unfold fiber_weight in Hw. repeat case_match; simplify_eq/=; rewrite frames_weight_insert; unfold fiber_weight; simpl; lia.
    + weigh_frame t b. case_match; lia.
    + weigh_frame t b. lia.
    + weigh_frame t b. lia.
Qed.

(** The actions of the client itself and of gRPC. *)
Definition quiet_action (a : close_action) : Prop :=
  match a with Act a => own_action a | NextFalse | Join => True | _ => False end.

Definition quiet (c c' : Client) : Prop := ∃ a, quiet_action a ∧ close_act a c = Some (Done c').

Lemma quiet_step c c' :
  closing_ok c → quiet c c' →
  closing_ok c' ∧ close_work c' < close_work c ∧ (close c ≠ Alive → close c' ≠ Alive).
Proof.
  intros Hok (a & Hq & Ha).
  assert (Hall : allowed a c) by (intros [-> | ->]; done).
  destruct (close_act_safe a c _ Hok Hall Ha) as (c1 & [= <-] & Hok'). split; [done|]. clear Hok Hall Hok'.
  unfold close_work. destruct a as [a|t| | |]; try done.
  - assert (Hb : ∃ b', act a (base c) = Some (Done b') ∧ c' = set_base b' c).
    { destruct a; simpl in Hq, Ha; try done; repeat case_match; try done;
        apply bind_Some in Ha as (r & Hr & [= Hd]); destruct r; simplify_eq/=; by eexists. }
    destruct Hb as (b' & Hb & ->). apply act_work in Hb; [|done]. simpl. split; [|done]. lia.
  - simpl in Ha. unfold Next_false in Ha. repeat case_match; simplify_eq/=. split; [lia|done].
  - simpl in Ha. unfold destroy_join in Ha. repeat case_match; simplify_eq/=. split; [lia|done].
Qed.

(** A client in which neither a fiber, nor the thread, nor gRPC can act. *)
Lemma client_stuck `{!Inhabited Response} (b : ClientBase (Response := Response)) :
  client_ok b → (∀ a, own_action a → act a b = None) →
  pending b = [] ∧ queue_ b = [] ∧ dispatching_thread_ b = InNext ∧ frames b = ∅.
Proof.
  intros Hok Hstuck.
  assert (Hp : pending b = []).
  { destruct (pending b) as [|t l] eqn:Hp; [done|].
    pose proof (Hstuck (Completes 0 (MkGrpcStatus None "" inhabitant)) I) as H. simpl in H.
    unfold grpc_complete in H. by rewrite Hp in H. }
  assert (Hmutex : ∀ t f, frames b !! t = Some f → fiber f ≠ Checking ∧ mutex f ≠ Some ByFiber).
  { intros t f Hf. pose proof (client_frames _ Hok t) as Hfr. rewrite Hf in Hfr. destruct Hfr as [_ _ F3 _ _].
    assert (Hc : fiber f ≠ Checking).
    { intros Hc. pose proof (Hstuck (FiberActs t) I) as H. simpl in H. unfold MakeRequest_step in H.
      by rewrite Hf, Hc in H. }
    split; [done|]. intros Hm. rewrite Hm in F3. by destruct F3. }
  assert (Hd : dispatching_thread_ b = InNext).
  { pose proof (Hstuck (ThreadActs 0) I) as H. simpl in H. unfold DispatchServiceResponses in H.
    destruct (dispatching_thread_ b) as [|t|t|t|t] eqn:Hd; [done| |done..].
    destruct (frame_live t b Hok) as (f & Hf & _ & [_ _ F3 _ _]).
    { unfold coming, at_lock. rewrite Hd, same_refl. lia. }
    rewrite Hf in H. destruct (Hmutex t f Hf) as [_ Hm]. destruct f as [b0 [[]|] st pc]; simpl in *; try done.
    unfold at_notify, at_set, at_unlock in F3. rewrite Hd in F3. lia. }
  assert (Hq : queue_ b = []).
  { pose proof (Hstuck (ThreadActs 0) I) as H. simpl in H. unfold DispatchServiceResponses in H. rewrite Hd in H.
    by destruct (queue_ b). }
  split_and!; [done..|]. apply map_eq. intros t. rewrite lookup_empty.
  destruct (frames b !! t) as [f|] eqn:Hf; [|done]. exfalso.
  pose proof (client_frames _ Hok t) as Hfr. rewrite Hf in Hfr. destruct Hfr as [F1 _ F3 F4 _].
  destruct (Hmutex t f Hf) as [Hc Hm]. pose proof (Hstuck (FiberActs t) I) as H. simpl in H.
  unfold MakeRequest_step in H. rewrite Hf in H.
  unfold coming, at_lock, at_notify, at_set, at_unlock in *. rewrite Hp, Hq, Hd in F1. rewrite Hd in F3.
  destruct (fiber f); [|done|by destruct (F4 eq_refl) as [Hset _]; rewrite Hset in F1].
  destruct (mutex f) as [[]|]; [done|lia|done].
Qed.

(** A client being destroyed in which nothing can act is destroyed. *)
Lemma close_stuck `{!Inhabited Response} c :
  closing_ok c → close c ≠ Alive → (∀ c', ¬ quiet c c') → close c = Destroyed ∧ frames (base c) = ∅.
Proof.
  intros Hok Hne Hstuck.
  assert (Hno : ∀ a, quiet_action a → close_act a c = None).
  { intros a Ha. destruct (close_act a c) as [r|] eqn:Hr; [|done].
    assert (Hall : allowed a c) by (intros [-> | ->]; done).
    destruct (close_act_safe a c r Hok Hall Hr) as (c' & -> & _). by destruct (Hstuck c'); exists a. }
  destruct (client_stuck (base c)) as (Hp & Hq & Hd & Hf); [apply Hok| |].
  { intros a Ha. pose proof (Hno (Act a) Ha) as H. destruct a; simpl in H |- *; try done.
    - by destruct (MakeRequest_step t (base c)).
    - by destruct (grpc_complete i st (base c)).
    - destruct (thread_returned c) eqn:Hret; [|by destruct (DispatchServiceResponses i (base c))].
      destruct (closing_thread _ Hok Hret) as (_ & Hd & _ & Hq). unfold DispatchServiceResponses. by rewrite Hd, Hq. }
  split; [|done]. pose proof (Hno NextFalse I) as HN. pose proof (Hno Join I) as HJ. simpl in HN, HJ.
  unfold Next_false in HN. unfold destroy_join in HJ. rewrite Hp, Hq, Hd in HN.
  destruct (close c); [done| |done]. by destruct (thread_returned c).
Qed.

(** [C34] The destructor of the production client, if no call is started once it has
    begun: no action touches a frame that is gone or uses the queue after its
    shutdown; when it has returned, every call that was started has its status;
    and it does return: from its beginning, fibers, thread and gRPC have a
    bounded number of actions (apart from spurious wake-ups), and when none is
    left the destructor has returned and so has every call. *)
Theorem destructor_waits_and_returns `{!Inhabited Response} (c : Client) :
  rtc close_step Client_new c →
  (∀ a r, allowed a c → close_act a c = Some r → ∃ c', r = Done c') ∧
  (close c = Destroyed → ∀ t f, frames (base c) !! t = Some f → is_set f = true ∧ status f ≠ None) ∧
  (close c ≠ Alive → ∀ n c', nsteps quiet n c c' →
     n ≤ close_work c ∧ ((∀ c'', ¬ quiet c' c'') → close c' = Destroyed ∧ frames (base c') = ∅)).
Proof.
  intros Hrun. pose proof (close_reachable_ok c Hrun) as Hok. split_and!.
  - intros a r Hall Ha. destruct (close_act_safe a c r Hok Hall Ha) as (c' & -> & _). by exists c'.
  - intros Hdes t f Hf. destruct (closing_thread _ Hok (closing_destroyed _ Hok Hdes)) as (_ & Hd & Hp & Hq).
    pose proof (client_frames _ (closing_base _ Hok) t) as Hfr. rewrite Hf in Hfr. destruct Hfr as [F1 F2 _ _ _].
    unfold coming, at_lock, at_notify, at_set in F1. rewrite Hp, Hq, Hd in F1.
    destruct (is_set f); [|done]. split; [done|]. by intros [? _]%F2.
  - clear Hrun. intros Hne n c' Hn. induction Hn as [c|n c c1 c' Hq Hn IH].
    + split; [lia|]. intros Hstuck. by apply close_stuck.
    + destruct (quiet_step c c1 Hok Hq) as (Hok1 & Hlt & Hne1). destruct IH as [Hn1 Hfin]; [done|by apply Hne1|].
      split; [lia|done].
Qed.
End close.

(** ** A concrete execution: the client is destroyed while a call waits. *)

Fixpoint run_close {Response} (actions : list (close_action (Response := Response))) (c : Client) : option Client :=
  match actions with
  | [] => Some c
  | a :: actions => match close_act a c with Some (Done c') => run_close actions c' | _ => None end
  end.

Definition begin_destruction : list (close_action (Response := nat)) :=
  [Act Call; Act (FiberActs 0); Act (FiberActs 0); StopRequested 0; Destroy].

Definition finish_destruction : list (close_action (Response := nat)) :=
  [Act (Completes 0 (MkGrpcStatus (Some GrpcCancelled) "" 0)); Act (ThreadActs 0); Act (ThreadActs 0);
   Act (ThreadActs 0); Act (ThreadActs 0); Act (ThreadActs 0); NextFalse; Join; Act (FiberActs 0); Act (FiberActs 0)].

Definition being_destroyed : Client := default Client_new (run_close begin_destruction Client_new).
Definition destroyed : Client := default Client_new (run_close finish_destruction being_destroyed).

Lemma run_close_nsteps (actions : list (close_action (Response := nat))) c c' :
  Forall quiet_action actions → run_close actions c = Some c' → nsteps quiet (length actions) c c'.
Proof.
  intros Hall. revert c. induction Hall as [|a actions Ha _ IH]; intros c; simpl; [intros [= ->]; constructor|].
  destruct (close_act a c) as [[c1| |]|] eqn:Hc; try done. intros Hr. econstructor; [by exists a|auto].
Qed.

Lemma run_close_rtc (actions : list (close_action (Response := nat))) c c' :
  run_close actions c = Some c' → rtc close_step c c'.
Proof.
  revert c. induction actions as [|a actions IH]; intros c; simpl; [intros [= ->]; apply rtc_refl|].
  destruct (close_act a c) as [[c1| |]|] eqn:Hc; try done. intros Hr. eapply rtc_l; [|by apply IH].
  exists a. split; [|done]. intros [-> | ->]; simpl in Hc; [|unfold destroy_begin in Hc]; by destruct (close c).
Qed.

(** The call is cancelled, completes, and returns after the destructor. *)
Lemma destructor_waits_and_returns_witness :
  close being_destroyed = Joining ∧ close destroyed = Destroyed ∧
  returned (base destroyed) = [(0, (MkGrpcStatus (Some GrpcCancelled) "" 0, Err (MkRpcError Cancelled "")))] ∧
  length finish_destruction ≤ close_work being_destroyed.
Proof.
  assert (Hrun : rtc close_step Client_new being_destroyed).
  { apply (run_close_rtc begin_destruction). vm_compute. reflexivity. }
  split_and!; [vm_compute; reflexivity..|].
  destruct (destructor_waits_and_returns being_destroyed Hrun) as (_ & _ & Hterm).
  apply (Hterm ltac:(vm_compute; discriminate) (length finish_destruction) destroyed).
  apply run_close_nsteps; [by repeat constructor|vm_compute; reflexivity].
Defined.
