(* ===== verification/ProdSleep.v ===== *)
(** * Production time: cancellable sleep

    src/runtime/production/time.cpp: [Now], [SleepFor] and [SleepUntil] with a
    stop token, together with [StopSource::Stop] and the constructor and
    destructor of [StopCallback] (src/runtime/util/cancellation), as threads of
    the operating system run them: every fiber belongs to a thread, a thread
    runs one fiber at a time, threads interleave freely.

    The lock of the [StopState] is a [SpinLock]: a fiber that waits for it keeps
    its thread. The mutex and the condition variable of [SleepUntil] are those
    of boost.fiber: a fiber that waits for them is suspended and its thread may
    run another fiber, and it is ready again when the mutex is free or when the
    variable was notified or the time has come. Nothing else takes a running
    fiber from its thread.

    One [StopState] is shared; its callbacks are the list that the pointers of
    Cancellation.v ([Callbacks.linked]) represent, and the callback of a call of
    [SleepUntil] is named by the fiber that makes the call. The tokens are
    alive during the calls; Cancellation.v ([Handles]) counts them. *)

From S2P Require Import Prelude.

Local Open Scope Z_scope.

(** ** State *)

(** What a fiber does: calls of [SleepFor], with or without a token of the
    shared state, and of [StopSource::Stop]. *)
Inductive call : Type :=
  | SleepFor (duration : Z) (token : bool)
  | Stop.

(** Where a fiber is. *)
Inductive pc : Type :=
  | Ready                      (** before the next call *)
  (** constructor of [StopCallback] *)
  | Construct                  (** before [guard(token_.state_->lock)] *)
  | Register                   (** holds the lock of the state *)
  | ExecuteLock                (** [Execute] after [guard.unlock()]: before the mutex *)
  | ExecuteSet                 (** in the callback, holds the mutex *)
  | ExecuteNotify
  | ExecuteUnlock
  | ExecuteUnlink              (** [Unlink], without the lock of the state *)
  (** [SleepUntil] *)
  | Guard                      (** before [std::unique_lock guard(lock)] *)
  | WaitLoop                   (** [wait_until], holds the mutex: [while (!pred())] *)
  | Wait                       (** holds the mutex, before it is released *)
  | Waiting                    (** suspended on the condition variable *)
  | Relock (timeout : bool)    (** before taking the mutex again *)
  | Recheck                    (** after a timeout, holds the mutex: [return pred()] *)
  | Return (r : bool)     (** holds the mutex, before [~unique_lock] *)
  (** destructor of [StopCallback] *)
  | Destroy (r : bool)    (** before [guard(token_.state_->lock)] *)
  | Unregister (r : bool) (** holds the lock of the state *)
  | Slept (r : bool)
  (** [StopSource::Stop]; from [StopLoop] on it holds the lock of the state *)
  | StopLock                   (** before [guard(state_->lock)] *)
  | StopLoop
  | Call (node : positive)     (** [node->Execute()]: before the mutex of the callback *)
  | CallSet (node : positive)  (** holds the mutex *)
  | CallNotify (node : positive)
  | CallUnlock (node : positive)
  | CallUnlink (node : positive)
  | Stopped
  | Finished.

(** A fiber: its thread, its calls to come, and the variables of its call of
    [SleepUntil]: whether the token has a state, [timestamp], [cancelled], and
    the owner of [lock]. *)
Record fiber : Type := MkFiber {
  thread : positive;
  todo : list call;
  has_state : bool;
  timestamp : Z;
  flag : bool;
  owner : option positive;
  at_pc : pc;
}.

(** The steady clock in nanoseconds; the [StopState]; the fibers, and the fiber
    that each thread runs. *)
Record state : Type := MkState {
  clock : Z;
  lock : option positive;
  cancelled : bool;
  callbacks : list positive;
  fibers : gmap positive fiber;
  running : gmap positive positive;
}.

(** [time_point_cast<Duration>(steady_clock::now())] in microseconds *)
Definition Now (s : state) : Z := clock s `quot` 1000.

Definition goto (p : pc) (fb : fiber) : fiber :=
  MkFiber (thread fb) (todo fb) (has_state fb) (timestamp fb) (flag fb) (owner fb) p.
Definition set_flag (fb : fiber) : fiber :=
  MkFiber (thread fb) (todo fb) (has_state fb) (timestamp fb) true (owner fb) (at_pc fb).
Definition set_owner (o : option positive) (fb : fiber) : fiber :=
  MkFiber (thread fb) (todo fb) (has_state fb) (timestamp fb) (flag fb) o (at_pc fb).

Definition upd (f : positive) (g : fiber → fiber) (s : state) : state :=
  MkState (clock s) (lock s) (cancelled s) (callbacks s) (alter g f (fibers s)) (running s).
Definition set_lock (l : option positive) (s : state) : state :=
  MkState (clock s) l (cancelled s) (callbacks s) (fibers s) (running s).
Definition set_callbacks (c : list positive) (s : state) : state :=
  MkState (clock s) (lock s) (cancelled s) c (fibers s) (running s).
Definition set_cancelled (s : state) : state :=
  MkState (clock s) (lock s) true (callbacks s) (fibers s) (running s).

(** The thread of [fb] is free for another fiber. *)
Definition release (fb : fiber) (s : state) : state :=
  MkState (clock s) (lock s) (cancelled s) (callbacks s) (fibers s) (delete (thread fb) (running s)).

(** ** Locks *)

(** The spin lock: no step while it is taken. *)
Definition spin_lock (f : positive) (p : pc) (s : state) : option state :=
  match lock s with
  | None => Some (upd f (goto p) (set_lock (Some f) s))
  | Some _ => None
  end.

(** The mutex of the call of [h]: a fiber that finds it taken is suspended. *)
Definition mutex_lock (f : positive) (fb : fiber) (h : positive) (p : pc) (s : state) : option state :=
  hb ← fibers s !! h;
  Some match owner hb with
       | None => upd f (goto p) (upd h (set_owner (Some f)) s)
       | Some _ => release fb s
       end.

Definition mutex_unlock (h : positive) (s : state) : state := upd h (set_owner None) s.

(** [cv.notify_all()]: only the fiber of the call can wait. *)
Definition wake (fb : fiber) : fiber :=
  match at_pc fb with Waiting => goto (Relock false) fb | _ => fb end.

Definition unlink (h : positive) (s : state) : state :=
  set_callbacks (filter (λ x, x ≠ h) (callbacks s)) s.

(** ** The code *)

(** The next call. [SleepFor] computes [Now() + duration]; [SleepUntil] has new
    variables. *)
Definition next_call (f : positive) (fb : fiber) (s : state) : option state :=
  Some match todo fb with
       | [] => release fb (upd f (goto Finished) s)
       | SleepFor duration token :: cs =>
           upd f (λ _, MkFiber (thread fb) cs token (Now s + duration) false None
                         (if token then Construct else Guard)) s
       | Stop :: cs =>
           upd f (λ _, MkFiber (thread fb) cs (has_state fb) (timestamp fb) (flag fb) (owner fb) StopLock) s
       end.

Definition StopCallback_step (f : positive) (fb : fiber) (s : state) : option state :=
  match at_pc fb with
  | Construct => spin_lock f Register s
  | Register =>
      Some (if cancelled s then upd f (goto ExecuteLock) (set_lock None s)
            else upd f (goto Guard) (set_lock None (set_callbacks (f :: callbacks s) s)))
  | ExecuteLock => mutex_lock f fb f ExecuteSet s
  | ExecuteSet => Some (upd f (goto ExecuteNotify) (upd f set_flag s))
  | ExecuteNotify => Some (upd f (goto ExecuteUnlock) (upd f wake s))
  | ExecuteUnlock => Some (upd f (goto ExecuteUnlink) (mutex_unlock f s))
  | ExecuteUnlink => Some (upd f (goto Guard) (unlink f s))
  | Destroy r => spin_lock f (Unregister r) s
  | Unregister r => Some (upd f (goto (Slept r)) (set_lock None (unlink f s)))
  | _ => None
  end.

(** [wait_until] checks [cancelled], waits and checks again, and returns the
    value of [cancelled] after a timeout. *)
Definition SleepUntil_step (f : positive) (fb : fiber) (s : state) : option state :=
  match at_pc fb with
  | Guard => mutex_lock f fb f WaitLoop s
  | WaitLoop =>
      Some (upd f (goto (if flag fb then Return true else Wait)) s)
  | Wait => Some (release fb (upd f (goto Waiting) (mutex_unlock f s)))
  | Relock timeout => mutex_lock f fb f (if timeout then Recheck else WaitLoop) s
  | Recheck => Some (upd f (goto (Return (flag fb))) s)
  | Return r =>
      Some (upd f (goto (if has_state fb then Destroy r else Slept r)) (mutex_unlock f s))
  | _ => None
  end.

Definition Stop_step (f : positive) (fb : fiber) (s : state) : option state :=
  match at_pc fb with
  | StopLock => set_cancelled <$> spin_lock f StopLoop s
  | StopLoop =>
      Some match callbacks s with
           | [] => upd f (goto Stopped) (set_lock None s)
           | node :: _ => upd f (goto (Call node)) s
           end
  | Call node => mutex_lock f fb node (CallSet node) s
  | CallSet node => Some (upd f (goto (CallNotify node)) (upd node set_flag s))
  | CallNotify node => Some (upd f (goto (CallUnlock node)) (upd node wake s))
  | CallUnlock node => Some (upd f (goto (CallUnlink node)) (mutex_unlock node s))
  | CallUnlink node => Some (upd f (goto StopLoop) (unlink node s))
  | _ => None
  end.

(** ** Scheduling *)

Definition code_step (f : positive) (fb : fiber) (s : state) : option state :=
  match at_pc fb with
  | Ready | Slept _ | Stopped => next_call f fb s
  | Construct | Register | ExecuteLock | ExecuteSet | ExecuteNotify | ExecuteUnlock | ExecuteUnlink
  | Destroy _ | Unregister _ => StopCallback_step f fb s
  | Guard | WaitLoop | Wait | Relock _ | Recheck | Return _ => SleepUntil_step f fb s
  | StopLock | StopLoop | Call _ | CallSet _ | CallNotify _ | CallUnlock _ | CallUnlink _ => Stop_step f fb s
  | Waiting | Finished => None
  end.

(** The mutex that a fiber is about to take. *)
Definition wants (f : positive) (p : pc) : option positive :=
  match p with
  | ExecuteLock | Guard | Relock _ => Some f
  | Call node => Some node
  | _ => None
  end.

(** A fiber is ready if it is not suspended. *)
Definition ready (f : positive) (fb : fiber) (s : state) : bool :=
  match at_pc fb with
  | Waiting | Finished => false
  | p => match wants f p with
         | Some h => match owner <$> fibers s !! h with Some None => true | _ => false end
         | None => true
         end
  end.

Inductive action : Type :=
  | Run (f : positive)       (** the next step of a fiber that its thread runs *)
  | Schedule (f : positive)  (** an idle thread runs a ready fiber *)
  | Expire (f : positive)    (** [wait_until] of the fiber times out *)
  | Tick (ns : positive).    (** time passes *)

Definition act (a : action) (s : state) : option state :=
  match a with
  | Run f =>
      fb ← fibers s !! f;
      if decide (running s !! thread fb = Some f) then code_step f fb s else None
  | Schedule f =>
      fb ← fibers s !! f;
      if decide (running s !! thread fb = None ∧ ready f fb s = true)
      then Some (MkState (clock s) (lock s) (cancelled s) (callbacks s) (fibers s) (<[thread fb := f]> (running s)))
      else None
  | Expire f =>
      fb ← fibers s !! f;
      match at_pc fb with
      | Waiting => if decide (1000 * timestamp fb ≤ clock s) then Some (upd f (goto (Relock true)) s) else None
      | _ => None
      end
  | Tick ns =>
      Some (MkState (clock s + Z.pos ns) (lock s) (cancelled s) (callbacks s) (fibers s) (running s))
  end.

Inductive step (s s' : state) : Prop := step_act a : act a s = Some s' → step s s'.

(** Fibers on their threads with their calls to make. *)
Definition initial (programs : gmap positive (positive * list call)) : state :=
  MkState 0 None false [] ((λ tp, MkFiber tp.1 tp.2 false 0 false None Ready) <$> programs) ∅.

Definition reachable (programs : gmap positive (positive * list call)) : state → Prop :=
  rtc step (initial programs).
