(* ===== verification/ProdSleepInv.v ===== *)
(** * Cancellable sleep: invariants

    Invariants of the threads of ProdSleep.v: [ok], which says who holds which
    lock, which callbacks are registered and when the flag of a call is set, and
    [scheduled], which relates the fibers to the threads and to their programs.
    A step changes the record of one fiber ([own_step]) or is a step of [Stop]
    in the callback of another fiber ([call_step]); the two lemmas
    [own_step_ok] and [call_step_ok] carry the rest of the invariant over. *)

From S2P Require Import Prelude.
From S2P Require Import ProdSleep.

Local Open Scope Z_scope.

(** ** Invariant *)

Definition holds_lock (p : pc) : bool :=
  match p with
  | Register | Unregister _ | StopLoop | Call _ | CallSet _ | CallNotify _ | CallUnlock _ | CallUnlink _ => true
  | _ => false
  end.

Definition stopping (p : pc) : bool :=
  match p with
  | StopLoop | Call _ | CallSet _ | CallNotify _ | CallUnlock _ | CallUnlink _ => true
  | _ => false
  end.

(** The mutex that fiber [f] holds. *)
Definition holds_mutex (f : positive) (p : pc) : option positive :=
  match p with
  | ExecuteSet | ExecuteNotify | ExecuteUnlock | WaitLoop | Wait | Recheck | Return _ => Some f
  | CallSet node | CallNotify node | CallUnlock node => Some node
  | _ => None
  end.

(** The callback is registered, or was executed and unlinked by [Stop]. *)
Definition registered (p : pc) : bool :=
  match p with
  | Guard | WaitLoop | Wait | Waiting | Relock _ | Recheck | Return _ | Destroy _ | Unregister _ => true
  | _ => false
  end.

Definition executing (p : pc) : bool :=
  match p with
  | ExecuteLock | ExecuteSet | ExecuteNotify | ExecuteUnlock | ExecuteUnlink => true
  | _ => false
  end.

(** In the constructor or the destructor of a callback with a state. *)
Definition with_token (p : pc) : bool :=
  match p with
  | Construct | Register | Destroy _ | Unregister _ => true
  | p => executing p
  end.

Definition executed (p : pc) : bool :=
  match p with ExecuteNotify | ExecuteUnlock | ExecuteUnlink => true | _ => false end.

Definition calling (p : pc) : option positive :=
  match p with
  | Call h | CallSet h | CallNotify h | CallUnlock h | CallUnlink h => Some h
  | _ => None
  end.

Definition called (p : pc) : option positive :=
  match p with CallNotify h | CallUnlock h | CallUnlink h => Some h | _ => None end.

Definition result (p : pc) : option bool :=
  match p with Return r | Destroy r | Unregister r | Slept r => Some r | _ => None end.

Definition timed_out (p : pc) : bool :=
  match p with Relock true | Recheck => true | _ => false end.

(** Some fiber at a place with property [P]. *)
Definition someone (P : positive → pc → Prop) (s : state) : Prop :=
  ∃ f fb, fibers s !! f = Some fb ∧ P f (at_pc fb).

(** What holds of each fiber. *)
Record fiber_ok (s : state) (f : positive) (fb : fiber) : Prop := {
  fo_lock : holds_lock (at_pc fb) = true → lock s = Some f;
  fo_mutex h : holds_mutex f (at_pc fb) = Some h → ∃ hb, fibers s !! h = Some hb ∧ owner hb = Some f;
  fo_owner g : owner fb = Some g → ∃ gb, fibers s !! g = Some gb ∧ holds_mutex g (at_pc gb) = Some f;
  fo_linked : f ∈ callbacks s → registered (at_pc fb) = true ∧ has_state fb = true;
  fo_unlinked : registered (at_pc fb) = true → has_state fb = true → f ∈ callbacks s ∨ flag fb = true;
  fo_flag : flag fb = true → cancelled s = true ∧ has_state fb = true;
  fo_wait : at_pc fb = Wait → flag fb = false;
  fo_waiting : at_pc fb = Waiting → flag fb = true → someone (λ _ p, p = CallNotify f) s;
  fo_token : with_token (at_pc fb) = true → has_state fb = true;
  fo_executing : executing (at_pc fb) = true → cancelled s = true ∧ callbacks s = [];
  fo_executed : executed (at_pc fb) = true → flag fb = true;
  fo_calling h : calling (at_pc fb) = Some h → head (callbacks s) = Some h;
  fo_called h hb : called (at_pc fb) = Some h → fibers s !! h = Some hb → flag hb = true;
  fo_stopping : stopping (at_pc fb) = true → cancelled s = true;
  fo_result r : result (at_pc fb) = Some r → if r then flag fb = true else 1000 * timestamp fb ≤ clock s;
  fo_timed_out : timed_out (at_pc fb) = true → 1000 * timestamp fb ≤ clock s;
}.
Arguments fo_lock {_ _ _} _.
Arguments fo_mutex {_ _ _} _.
Arguments fo_owner {_ _ _} _.
Arguments fo_linked {_ _ _} _.
Arguments fo_unlinked {_ _ _} _.
Arguments fo_flag {_ _ _} _.
Arguments fo_wait {_ _ _} _.
Arguments fo_waiting {_ _ _} _.
Arguments fo_token {_ _ _} _.
Arguments fo_executing {_ _ _} _.
Arguments fo_executed {_ _ _} _.
Arguments fo_calling {_ _ _} _.
Arguments fo_called {_ _ _} _.
Arguments fo_stopping {_ _ _} _.
Arguments fo_result {_ _ _} _.
Arguments fo_timed_out {_ _ _} _.

Record ok (s : state) : Prop := {
  ok_fiber f fb : fibers s !! f = Some fb → fiber_ok s f fb;
  ok_lock f : lock s = Some f → someone (λ g p, g = f ∧ holds_lock p = true) s;
  ok_callbacks : NoDup (callbacks s);
  ok_linked f : f ∈ callbacks s → is_Some (fibers s !! f);
  ok_cancelled : cancelled s = true → callbacks s ≠ [] → someone (λ _ p, stopping p = true) s;
}.
Arguments ok_fiber {_} _.
Arguments ok_lock {_} _.
Arguments ok_callbacks {_} _.
Arguments ok_linked {_} _.
Arguments ok_cancelled {_} _.

Lemma fibers_upd f g s x :
  fibers (upd f g s) !! x = if decide (f = x) then g <$> fibers s !! x else fibers s !! x.
Proof. simpl. case_decide as Hd; [subst; by rewrite lookup_alter_eq|by rewrite lookup_alter_ne]. Qed.

Lemma sleep_initial_ok programs : ok (initial programs).
Proof.
  split; simpl; [|done|constructor|by intros f []%not_elem_of_nil|done].
  intros f fb. rewrite lookup_fmap, fmap_Some. intros ([t cs] & _ & ->). split; simpl; try done.
  by intros []%not_elem_of_nil.
Qed.

(** A step that changes the record of [f] alone leaves the facts of the other
    fibers true. *)
Record own_step (f : positive) (fb fb' : fiber) (s s' : state) : Prop := {
  os_self : fibers s' !! f = Some fb';
  os_other g : g ≠ f → fibers s' !! g = fibers s !! g;
  os_clock : clock s' = clock s;
  os_cancelled : cancelled s = true → cancelled s' = true;
  os_lock g : g ≠ f → lock s' = Some g ↔ lock s = Some g;
  os_holds : lock s' = Some f → holds_lock (at_pc fb') = true;
  os_owner g : g ≠ f → registered (at_pc fb) = true → owner fb = Some g → owner fb' = Some g;
  os_mutex g : g ≠ f → holds_mutex f (at_pc fb) = Some g → holds_mutex f (at_pc fb') = Some g;
  os_linked g : g ≠ f → g ∈ callbacks s' → g ∈ callbacks s;
  os_unlinked g gb : g ≠ f → fibers s !! g = Some gb → g ∈ callbacks s → g ∈ callbacks s' ∨ flag gb = true;
  os_nodup : NoDup (callbacks s) → NoDup (callbacks s');
  os_empty : cancelled s = true → callbacks s = [] → callbacks s' = [];
  os_head g : g ≠ f → lock s = Some g → callbacks s ≠ [] → head (callbacks s') = head (callbacks s);
  os_notify h : at_pc fb ≠ CallNotify h;
  os_flag : registered (at_pc fb) = true → flag fb = true → flag fb' = true;
  os_stop : stopping (at_pc fb) = true → stopping (at_pc fb') = true ∨ callbacks s' = [];
  os_cancel : cancelled s' = true → callbacks s' ≠ [] → stopping (at_pc fb') = true ∨ cancelled s = true;
}.
Arguments os_self {_ _ _ _ _} _.
Arguments os_other {_ _ _ _ _} _.
Arguments os_clock {_ _ _ _ _} _.
Arguments os_cancelled {_ _ _ _ _} _.
Arguments os_lock {_ _ _ _ _} _.
Arguments os_holds {_ _ _ _ _} _.
Arguments os_owner {_ _ _ _ _} _.
Arguments os_mutex {_ _ _ _ _} _.
Arguments os_linked {_ _ _ _ _} _.
Arguments os_unlinked {_ _ _ _ _} _.
Arguments os_nodup {_ _ _ _ _} _.
Arguments os_empty {_ _ _ _ _} _.
Arguments os_head {_ _ _ _ _} _.
Arguments os_notify {_ _ _ _ _} _.
Arguments os_flag {_ _ _ _ _} _.
Arguments os_stop {_ _ _ _ _} _.
Arguments os_cancel {_ _ _ _ _} _.

Lemma calling_linked s f fb h :
  fiber_ok s f fb → calling (at_pc fb) = Some h → h ∈ callbacks s.
Proof. intros Hf Hc. apply (fo_calling Hf) in Hc. by apply head_Some_elem_of. Qed.

Lemma holds_mutex_calling f p h : holds_mutex f p = Some h → h = f ∨ calling p = Some h.
Proof. destruct p; naive_solver. Qed.

Lemma called_calling p h : called p = Some h → calling p = Some h.
Proof. by destruct p. Qed.

Lemma calling_holds p h : calling p = Some h → holds_lock p = true.
Proof. by destruct p. Qed.

Lemma own_step_others s s' f fb fb' g gb :
  ok s → fibers s !! f = Some fb → own_step f fb fb' s s' →
  g ≠ f → fibers s !! g = Some gb → fiber_ok s' g gb.
Proof.
  intros Hok Hf Hos Hne Hg. pose proof (ok_fiber Hok g gb Hg) as Hgo. pose proof (ok_fiber Hok f fb Hf) as Hfo.
  assert (Hreg : calling (at_pc gb) = Some f → registered (at_pc fb) = true).
  { intros Hc. by apply (fo_linked Hfo), (calling_linked s g gb). }
  split.
  - intros Hl. apply (os_lock Hos); [done|]. by apply (fo_lock Hgo).
  - intros h Hh. destruct (fo_mutex Hgo h Hh) as (hb & Hhb & Ho).
    destruct (decide (h = f)) as [->|Hhf]; [|exists hb; by rewrite (os_other Hos)].
    simplify_eq. exists fb'. split; [apply (os_self Hos)|]. apply (os_owner Hos); [done| |done].
    apply Hreg. destruct (holds_mutex_calling _ _ _ Hh); congruence.
  - intros x Hx. destruct (fo_owner Hgo x Hx) as (xb & Hxb & Hm).
    destruct (decide (x = f)) as [->|Hxf]; [|exists xb; by rewrite (os_other Hos)].
    simplify_eq. exists fb'. split; [apply (os_self Hos)|]. by apply (os_mutex Hos).
  - intros Hl. by apply (fo_linked Hgo), (os_linked Hos).
  - intros Hr Hs. destruct (fo_unlinked Hgo Hr Hs) as [Hin|]; [|by right].
    by apply (os_unlinked Hos g gb).
  - intros [Hc ?]%(fo_flag Hgo). split; [by apply (os_cancelled Hos)|done].
  - apply (fo_wait Hgo).
  - intros Hw Hfl. destruct (fo_waiting Hgo Hw Hfl) as (x & xb & Hx & Hp).
    exists x, xb. split; [|done]. rewrite (os_other Hos); [done|]. intros ->. simplify_eq.
    by apply (os_notify Hos g).
  - apply (fo_token Hgo).
  - intros [Hc He]%(fo_executing Hgo). split; [by apply (os_cancelled Hos)|by apply (os_empty Hos)].
  - apply (fo_executed Hgo).
  - intros h Hc. pose proof (fo_calling Hgo h Hc) as Hh. rewrite <-Hh.
    apply (os_head Hos g); [done| |by intros Hn; rewrite Hn in Hh].
    by eapply fo_lock, calling_holds.
  - intros h hb Hc. destruct (decide (h = f)) as [->|Hhf].
    + rewrite (os_self Hos). intros [= <-]. apply (os_flag Hos).
      * by apply Hreg, called_calling.
      * by eapply (fo_called Hgo).
    + rewrite (os_other Hos) by done. by apply (fo_called Hgo).
  - intros Hs. by apply (os_cancelled Hos), (fo_stopping Hgo).
  - rewrite (os_clock Hos). apply (fo_result Hgo).
  - rewrite (os_clock Hos). apply (fo_timed_out Hgo).
Qed.

Lemma own_step_ok s s' f fb fb' :
  ok s → fibers s !! f = Some fb → own_step f fb fb' s s' → fiber_ok s' f fb' → ok s'.
Proof.
  intros Hok Hf Hos Hfo'. split.
  - intros g gb. destruct (decide (g = f)) as [->|Hne].
    + rewrite (os_self Hos). by intros [= <-].
    + rewrite (os_other Hos) by done. by eapply own_step_others.
  - intros g Hg. destruct (decide (g = f)) as [->|Hne].
    + exists f, fb'. split; [apply (os_self Hos)|]. split; [done|]. by apply (os_holds Hos).
    + apply (os_lock Hos) in Hg; [|done].
      destruct (ok_lock Hok g Hg) as (x & xb & Hx & -> & Hl). exists g, xb.
      by rewrite (os_other Hos).
  - by apply (os_nodup Hos), (ok_callbacks Hok).
  - intros g Hg. destruct (decide (g = f)) as [->|Hne].
    + rewrite (os_self Hos). eauto.
    + rewrite (os_other Hos) by done.
      by apply (ok_linked Hok), (os_linked Hos).
  - intros Hc Hne. pose proof (os_self Hos) as Hself.
    destruct (os_cancel Hos Hc Hne) as [Hst|Hc0]; [by exists f, fb'|].
    destruct (ok_cancelled Hok) as (g & gb & Hg & Hst); [done| |].
    { intros He. by apply Hne, (os_empty Hos). }
    destruct (decide (g = f)) as [->|Hgf].
    + simplify_eq. destruct (os_stop Hos Hst); [by exists f, fb'|done].
    + exists g, gb. by rewrite (os_other Hos).
Qed.

(** The facts of the fiber itself after such a step. *)
Record own_fiber (f : positive) (fb fb' : fiber) (s s' : state) : Prop := {
  of_lock : holds_lock (at_pc fb') = true → lock s' = Some f;
  of_mutex h : holds_mutex f (at_pc fb') = Some h →
    (h = f → owner fb' = Some f) ∧ (h ≠ f → holds_mutex f (at_pc fb) = Some h);
  of_owner g : owner fb' = Some g →
    (g = f → holds_mutex f (at_pc fb') = Some f) ∧ (g ≠ f → owner fb = Some g);
  of_linked : f ∈ callbacks s' → registered (at_pc fb') = true ∧ has_state fb' = true;
  of_unlinked : registered (at_pc fb') = true → has_state fb' = true → f ∈ callbacks s' ∨ flag fb' = true;
  of_flag : flag fb' = true → cancelled s' = true ∧ has_state fb' = true;
  of_wait : at_pc fb' = Wait ∨ at_pc fb' = Waiting → flag fb' = false;
  of_token : with_token (at_pc fb') = true → has_state fb' = true;
  of_executing : executing (at_pc fb') = true → cancelled s' = true ∧ callbacks s' = [];
  of_executed : executed (at_pc fb') = true → flag fb' = true;
  of_calling h : calling (at_pc fb') = Some h → head (callbacks s') = Some h;
  of_called : called (at_pc fb') = None;
  of_stopping : stopping (at_pc fb') = true → cancelled s' = true;
  of_result r : result (at_pc fb') = Some r → if r then flag fb' = true else 1000 * timestamp fb' ≤ clock s';
  of_timed_out : timed_out (at_pc fb') = true → 1000 * timestamp fb' ≤ clock s';
}.

Lemma own_fiber_ok s s' f fb fb' :
  ok s → fibers s !! f = Some fb → own_step f fb fb' s s' → own_fiber f fb fb' s s' → fiber_ok s' f fb'.
Proof.
  intros Hok Hf Hos []. pose proof (ok_fiber Hok f fb Hf) as Hfo.
  pose proof (os_self Hos) as Hself. pose proof (os_other Hos) as Hother.
  split; try done.
  - intros h [Hself' Hm]%of_mutex0. destruct (decide (h = f)) as [->|Hne]; [by eauto|].
    rewrite Hother by done. by apply (fo_mutex Hfo), Hm.
  - intros g [Hself' Ho]%of_owner0. destruct (decide (g = f)) as [->|Hne]; [by eauto|].
    rewrite Hother by done. by apply (fo_owner Hfo), Ho.
  - auto.
  - intros Hw Hfl. rewrite of_wait0 in Hfl; auto. done.
  - intros h hb. by rewrite of_called0.
Qed.

Lemma lock_holder s f fb : ok s → fibers s !! f = Some fb → lock s = Some f → holds_lock (at_pc fb) = true.
Proof. intros Hok Hf Hl. destruct (ok_lock Hok f Hl) as (g & gb & Hg & -> & Hh). by simplify_eq. Qed.

Lemma own_owner s f fb :
  ok s → fibers s !! f = Some fb → owner fb = Some f ↔ holds_mutex f (at_pc fb) = Some f.
Proof.
  intros Hok Hf. split.
  - intros (gb & Hg & Hm)%(fo_owner (ok_fiber Hok f fb Hf)). by simplify_eq.
  - intros (hb & Hh & Ho)%(fo_mutex (ok_fiber Hok f fb Hf)). by simplify_eq.
Qed.

(** The callbacks were all executed when a fiber other than one in [Stop] holds
    the lock of a cancelled state. *)
Lemma quiescent s f fb :
  ok s → fibers s !! f = Some fb → holds_lock (at_pc fb) = true → stopping (at_pc fb) = false →
  cancelled s = true → callbacks s = [].
Proof.
  intros Hok Hf Hl Hs Hc. apply (fo_lock (ok_fiber Hok f fb Hf)) in Hl.
  destruct (decide (callbacks s = [])) as [|Hne]; [done|].
  destruct (ok_cancelled Hok Hc Hne) as (g & gb & Hg & Hst).
  assert (lock s = Some g) by (apply (fo_lock (ok_fiber Hok g gb Hg)); by destruct (at_pc gb)).
  simplify_eq. congruence.
Qed.

(** Conditions on the callbacks after [unlink]. *)
Ltac unlinked :=
  first [ intros; by apply NoDup_filter
        | intros ? He; by rewrite He
        | setoid_rewrite list_elem_of_filter; by intuition auto ].

(** The step gives [f] the record [fb']: the facts of [f] are in the context,
    and the conditions that computation does not settle are left. *)
Ltac own Hok Hf fb' :=
  pose proof (lock_holder _ _ _ Hok Hf) as Hlk; pose proof (own_owner _ _ _ Hok Hf) as Hmx;
  destruct (ok_fiber Hok _ _ Hf) as [? _ _ ? ? ? ? _ ? ? ? ? _ ? ? ?];
  match goal with
  | |- ok ?s' =>
      match type of Hf with
      | fibers ?s !! ?f = Some ?fb =>
          assert (Hos : own_step f fb fb' s s');
            [|eapply (own_step_ok s s' f fb fb' Hok Hf Hos), (own_fiber_ok s s' f fb fb' Hok Hf Hos)];
            split; simpl
      end
  end;
  repeat match goal with
  | |- alter _ _ _ !! _ = Some _ => rewrite lookup_alter_eq
  | |- _ <$> alter _ _ _ !! _ = Some _ => rewrite lookup_alter_eq
  | |- _ <$> (_ <$> _) = Some _ => rewrite <-option_fmap_compose
  | H : fibers ?s !! ?f = Some _ |- _ <$> (fibers ?s !! ?f) = Some _ => rewrite H; done
  end;
  try (intros; rewrite !lookup_alter_ne by done; done); try done;
  match goal with H : at_pc _ = _ |- _ => rewrite H in *; simpl in * end;
  repeat match goal with
  | H : false = true → _ |- _ => clear H
  | H : true = true → _ |- _ => specialize (H eq_refl)
  | H : ∀ _, None = Some _ → _ |- _ => clear H
  end;
  try assumption; try solve [intros; simplify_eq/=; intuition (subst; auto || congruence)]; try unlinked.

Lemma next_call_ok s s' f fb :
  ok s → fibers s !! f = Some fb → next_call f fb s = Some s' →
  match at_pc fb with Ready | Slept _ | Stopped => True | _ => False end → ok s'.
Proof.
  intros Hok Hf Hs Hpc. unfold next_call in Hs.
  destruct (at_pc fb) eqn:Hpc'; try done; clear Hpc;
    (destruct (todo fb) as [|[d [|]|] cs] eqn:Htodo; simplify_eq;
      [own Hok Hf (goto Finished fb)
      |own Hok Hf (MkFiber (thread fb) cs true (Now s + d) false None Construct)
      |own Hok Hf (MkFiber (thread fb) cs false (Now s + d) false None Guard)
      |own Hok Hf (MkFiber (thread fb) cs (has_state fb) (timestamp fb) (flag fb) (owner fb) StopLock)]).
Qed.

Lemma StopCallback_ok s s' f fb :
  ok s → fibers s !! f = Some fb → StopCallback_step f fb s = Some s' → ok s'.
Proof.
  intros Hok Hf Hs. unfold StopCallback_step in Hs. destruct (at_pc fb) eqn:Hpc; simplify_eq.
  - unfold spin_lock in Hs. destruct (lock s) eqn:Hl; simplify_eq. own Hok Hf (goto Register fb).
  - assert (Hq : cancelled s = true → callbacks s = []) by (eapply quiescent; [done..|by rewrite Hpc|by rewrite Hpc]).
    destruct (cancelled s) eqn:Hc; [own Hok Hf (goto ExecuteLock fb)|].
    own Hok Hf (goto Guard fb).
    + intros g Hne [->|?]%elem_of_cons; done.
    + left. by right.
    + intros. apply NoDup_cons. split; [|done]. by intros [? _]%fo_linked0.
    + left. left.
  - unfold mutex_lock in Hs. rewrite Hf in Hs. simplify_eq/=.
    destruct (owner fb) as [g|] eqn:Ho; [own Hok Hf fb|own Hok Hf (goto ExecuteSet (set_owner (Some f) fb))].
  - own Hok Hf (goto ExecuteNotify (set_flag fb)).
  - own Hok Hf (goto ExecuteUnlock fb). rewrite Hf. simpl. unfold wake. by rewrite Hpc.
  - own Hok Hf (goto ExecuteUnlink (set_owner None fb)).
  - own Hok Hf (goto Guard fb).
  - unfold spin_lock in Hs. destruct (lock s) eqn:Hl; simplify_eq. own Hok Hf (goto (Unregister r) fb).
  - own Hok Hf (goto (Slept r) fb).
Qed.

Lemma SleepUntil_ok s s' f fb :
  ok s → fibers s !! f = Some fb → SleepUntil_step f fb s = Some s' → ok s'.
Proof.
  intros Hok Hf Hs. unfold SleepUntil_step, mutex_lock in Hs. rewrite Hf in Hs.
  destruct (at_pc fb) as [] eqn:Hpc; simplify_eq/=.
  - destruct (owner fb) as [g|] eqn:Ho; [own Hok Hf fb|own Hok Hf (goto WaitLoop (set_owner (Some f) fb))].
  - destruct (flag fb) eqn:Hfl; [own Hok Hf (goto (Return true) fb)|own Hok Hf (goto Wait fb)].
  - own Hok Hf (goto Waiting (set_owner None fb)).
  - destruct (owner fb) as [g|] eqn:Ho; [own Hok Hf fb|].
    destruct timeout; [own Hok Hf (goto Recheck (set_owner (Some f) fb))|own Hok Hf (goto WaitLoop (set_owner (Some f) fb))].
  - own Hok Hf (goto (Return (flag fb)) fb). intros r [= <-]. by destruct (flag fb).
  - destruct (has_state fb) eqn:Hst;
      [own Hok Hf (goto (Destroy r) (set_owner None fb))|own Hok Hf (goto (Slept r) (set_owner None fb))].
Qed.

(** [Stop] outside the callbacks. *)
Lemma Stop_own_ok s s' f fb :
  ok s → fibers s !! f = Some fb → Stop_step f fb s = Some s' →
  match at_pc fb with StopLock | StopLoop | CallUnlink _ => True | _ => False end → ok s'.
Proof.
  intros Hok Hf Hs Hin. unfold Stop_step in Hs. destruct (at_pc fb) as [] eqn:Hpc; try done; clear Hin; simplify_eq/=.
  - unfold spin_lock in Hs. destruct (lock s) eqn:Hl; simplify_eq/=. own Hok Hf (goto StopLoop fb).
  - destruct (callbacks s) as [|node cs] eqn:Hcs; [own Hok Hf (goto Stopped fb)|own Hok Hf (goto (Call node) fb)].
    intros h [= <-]. by rewrite Hcs.
  - assert (Hflag : ∀ nb, fibers s !! node = Some nb → flag nb = true).
    { intros nb. apply (fo_called (ok_fiber Hok f fb Hf)). by rewrite Hpc. }
    own Hok Hf (goto StopLoop fb).
    intros g gb Hne Hg Hin. destruct (decide (g = node)) as [->|Hgn]; [right; eauto|left].
    by apply list_elem_of_filter.
Qed.

(** A step of [Stop] by [f] in the callback of [h]. *)
Record call_step (f h : positive) (fb hb hb' : fiber) (p : pc) (s s' : state) : Prop := {
  cs_self : fibers s' !! f = Some (goto p fb);
  cs_node : fibers s' !! h = Some hb';
  cs_other g : g ≠ f → g ≠ h → fibers s' !! g = fibers s !! g;
  cs_globals : clock s' = clock s ∧ lock s' = lock s ∧ cancelled s' = cancelled s ∧ callbacks s' = callbacks s;
  cs_calling : calling (at_pc fb) = Some h ∧ calling p = Some h;
  cs_pc : at_pc hb' = at_pc hb ∨ at_pc hb = Waiting ∧ at_pc hb' = Relock false;
  cs_kept : has_state hb' = has_state hb ∧ timestamp hb' = timestamp hb;
  cs_flag : flag hb = true → flag hb' = true;
  cs_called : called p = Some h → flag hb' = true;
  cs_owner : owner hb' = Some f ↔ holds_mutex f p = Some h;
  cs_owners g : g ≠ f → owner hb' = Some g ↔ owner hb = Some g;
  cs_wait : at_pc hb' = Wait → flag hb' = flag hb;
  cs_waiting : at_pc hb' = Waiting → flag hb' = true → p = CallNotify h;
}.
Arguments cs_self {_ _ _ _ _ _ _ _} _.
Arguments cs_node {_ _ _ _ _ _ _ _} _.
Arguments cs_other {_ _ _ _ _ _ _ _} _.
Arguments cs_globals {_ _ _ _ _ _ _ _} _.
Arguments cs_calling {_ _ _ _ _ _ _ _} _.
Arguments cs_pc {_ _ _ _ _ _ _ _} _.
Arguments cs_kept {_ _ _ _ _ _ _ _} _.
Arguments cs_flag {_ _ _ _ _ _ _ _} _.
Arguments cs_called {_ _ _ _ _ _ _ _} _.
Arguments cs_owner {_ _ _ _ _ _ _ _} _.
Arguments cs_owners {_ _ _ _ _ _ _ _} _.
Arguments cs_wait {_ _ _ _ _ _ _ _} _.
Arguments cs_waiting {_ _ _ _ _ _ _ _} _.

Lemma calling_stopping p h : calling p = Some h → stopping p = true ∧ holds_lock p = true ∧ registered p = false.
Proof. by destruct p. Qed.

Lemma registered_holds f p h : registered p = true → holds_mutex f p = Some h → h = f.
Proof. destruct p; naive_solver. Qed.

Lemma calling_holds_mutex f p h h' : calling p = Some h → holds_mutex f p = Some h' → h' = h.
Proof. destruct p; naive_solver. Qed.

(** A fiber in a callback of [h] is not [h], and [h] is registered. *)
Lemma calling_registered s f fb h :
  ok s → fibers s !! f = Some fb → calling (at_pc fb) = Some h →
  ∃ hb, fibers s !! h = Some hb ∧ registered (at_pc hb) = true ∧ has_state hb = true ∧ h ≠ f.
Proof.
  intros Hok Hf Hc. pose proof (calling_linked _ _ _ _ (ok_fiber Hok f fb Hf) Hc) as Hin.
  destruct (ok_linked Hok h Hin) as [hb Hh]. destruct (fo_linked (ok_fiber Hok h hb Hh) Hin).
  exists hb. split_and!; [done..|]. intros ->. simplify_eq. destruct (calling_stopping _ _ Hc) as (_ & _ & ?). congruence.
Qed.

Section call_step.
Context (f h : positive) (fb hb hb' : fiber) (p : pc) (s s' : state).
Context (Hok : ok s) (Hf : fibers s !! f = Some fb) (Hh : fibers s !! h = Some hb).
Context (Hcs : call_step f h fb hb hb' p s s').

Lemma call_step_node : fiber_ok s' h hb'.
Proof.
  destruct (calling_registered s f fb h Hok Hf (proj1 (cs_calling Hcs))) as (hb0 & Hh0 & Hreg & Hst & Hne).
  simplify_eq. destruct (ok_fiber Hok h hb Hh). destruct (cs_globals Hcs) as (Hclock & Hlock & Hcancel & Hcbs).
  destruct (cs_kept Hcs) as [Hstate Htime].
  pose proof (fo_stopping (ok_fiber Hok f fb Hf)) as Hcan.
  destruct (calling_stopping _ _ (proj1 (cs_calling Hcs))) as (Hstop & _).
  assert (Hreg' : registered (at_pc hb') = true) by (destruct (cs_pc Hcs) as [->|[_ ->]]; done).
  split; rewrite ?Hclock, ?Hlock, ?Hcancel, ?Hcbs, ?Hstate, ?Htime.
  - intros Hl. apply fo_lock0. by destruct (cs_pc Hcs) as [<-|[_ He]]; [|rewrite He in Hl].
  - intros x Hx. pose proof (registered_holds _ _ _ Hreg' Hx). subst x.
    destruct (fo_mutex0 h) as (hb0 & ? & Ho); [by destruct (cs_pc Hcs) as [<-|[_ He]]; [|rewrite He in Hx]|].
    simplify_eq. exists hb'. split; [apply (cs_node Hcs)|]. by apply (cs_owners Hcs).
  - intros g Hg. destruct (decide (g = f)) as [->|Hgf].
    + exists (goto p fb). split; [apply (cs_self Hcs)|]. by apply (cs_owner Hcs).
    + apply (cs_owners Hcs) in Hg; [|done]. destruct (fo_owner0 g Hg) as (gb & Hgb & Hm).
      destruct (decide (g = h)) as [->|Hgh]; [|exists gb; by rewrite (cs_other Hcs)].
      simplify_eq. exists hb'. split; [apply (cs_node Hcs)|].
      by destruct (cs_pc Hcs) as [->|[He _]]; [|rewrite He in Hm].
  - done.
  - intros _ _. destruct (fo_unlinked0 Hreg Hst) as [|Hfl]; [by left|right]. by apply (cs_flag Hcs).
  - auto.
  - intros Hw. rewrite (cs_wait Hcs Hw). apply fo_wait0.
    by destruct (cs_pc Hcs) as [<-|[_ He]]; [|rewrite He in Hw].
  - intros Hw Hfl. exists f, (goto p fb). split; [apply (cs_self Hcs)|]. by apply (cs_waiting Hcs).
  - done.
  - intros He. by destruct (at_pc hb').
  - intros He. by destruct (at_pc hb').
  - intros x Hx. by destruct (at_pc hb').
  - intros x xb Hx. by destruct (at_pc hb').
  - intros Hx. by destruct (at_pc hb').
  - intros r Hr. destruct (cs_pc Hcs) as [He|[_ He]]; rewrite He in Hr; [|done].
    specialize (fo_result0 r Hr). destruct r; [by apply (cs_flag Hcs)|done].
  - intros Hr. apply fo_timed_out0. by destruct (cs_pc Hcs) as [<-|[_ He]]; [|rewrite He in Hr].
Qed.

Lemma call_step_self : fiber_ok s' f (goto p fb).
Proof.
  destruct (cs_calling Hcs) as [Hcall Hcall'].
  destruct (calling_registered s f fb h Hok Hf Hcall) as (hb0 & Hh0 & Hreg & Hst & Hne). simplify_eq.
  destruct (calling_stopping _ _ Hcall) as (Hstop & Hhold & _), (calling_stopping _ _ Hcall') as (_ & _ & Hnreg).
  destruct (ok_fiber Hok f fb Hf). destruct (cs_globals Hcs) as (Hclock & Hlock & Hcancel & Hcbs).
  split; simpl; rewrite ?Hclock, ?Hlock, ?Hcancel, ?Hcbs.
  - auto.
  - intros x Hx. pose proof (calling_holds_mutex _ _ _ _ Hcall' Hx). subst x.
    exists hb'. split; [apply (cs_node Hcs)|]. by apply (cs_owner Hcs).
  - intros g Hg. destruct (fo_owner0 g Hg) as (gb & Hgb & Hm). destruct (decide (g = f)) as [->|Hgf].
    { simplify_eq. pose proof (calling_holds_mutex _ _ _ _ Hcall Hm). by subst. }
    destruct (decide (g = h)) as [->|Hgh]; [|exists gb; by rewrite (cs_other Hcs)].
    simplify_eq. by apply registered_holds in Hm.
  - intros Hin. destruct (fo_linked0 Hin) as [Hr _]. by destruct (at_pc fb).
  - by rewrite Hnreg.
  - done.
  - by intros ->.
  - by intros ->.
  - by destruct p.
  - by destruct p.
  - by destruct p.
  - intros x Hx. apply fo_calling0. congruence.
  - intros x xb Hx. assert (x = h) as -> by (destruct p; simplify_eq/=; done).
    rewrite (cs_node Hcs). intros [= <-]. by apply (cs_called Hcs).
  - auto.
  - by destruct p.
  - by destruct p.
Qed.

Lemma call_step_others g gb : g ≠ f → g ≠ h → fibers s !! g = Some gb → fiber_ok s' g gb.
Proof.
  intros Hgf Hgh Hg. destruct (cs_calling Hcs) as [Hcall Hcall'].
  destruct (calling_registered s f fb h Hok Hf Hcall) as (hb0 & Hh0 & Hreg & Hst & Hne). simplify_eq.
  destruct (calling_stopping _ _ Hcall) as (Hstop & Hhold & _).
  pose proof (fo_lock (ok_fiber Hok f fb Hf) Hhold) as Hlf.
  destruct (ok_fiber Hok g gb Hg). destruct (cs_globals Hcs) as (Hclock & Hlock & Hcancel & Hcbs).
  assert (Hfree : holds_lock (at_pc gb) = false).
  { destruct (holds_lock (at_pc gb)); [|done]. specialize (fo_lock0 eq_refl). congruence. }
  split; rewrite ?Hclock, ?Hlock, ?Hcancel, ?Hcbs; try done.
  - intros x Hx. destruct (fo_mutex0 x Hx) as (xb & Hxb & Ho).
    assert (x = g) as -> by (by destruct (at_pc gb); simplify_eq/=). simplify_eq. exists gb.
    by rewrite (cs_other Hcs).
  - intros x Hx. destruct (fo_owner0 x Hx) as (xb & Hxb & Hm). destruct (decide (x = f)) as [->|Hxf].
    { simplify_eq. by pose proof (calling_holds_mutex _ _ _ _ Hcall Hm). }
    destruct (decide (x = h)) as [->|Hxh]; [|exists xb; by rewrite (cs_other Hcs)].
    simplify_eq. by apply registered_holds in Hm.
  - intros Hw Hfl. destruct (fo_waiting0 Hw Hfl) as (x & xb & Hx & Hp). exists x, xb. split; [|done].
    rewrite (cs_other Hcs); [done|intros ->; simplify_eq; rewrite Hp in *; by simplify_eq/=..].
  - intros x xb Hx. by destruct (at_pc gb).
Qed.

Lemma call_step_ok : ok s'.
Proof.
  destruct (cs_calling Hcs) as [Hcall Hcall'].
  destruct (calling_stopping _ _ Hcall) as (Hstop & Hhold & _), (calling_stopping _ _ Hcall') as (Hstop' & Hhold' & _).
  pose proof (fo_lock (ok_fiber Hok f fb Hf) Hhold) as Hlf.
  destruct (cs_globals Hcs) as (Hclock & Hlock & Hcancel & Hcbs). pose proof (cs_self Hcs) as Hself.
  split; rewrite ?Hclock, ?Hlock, ?Hcancel, ?Hcbs.
  - intros g gb. destruct (decide (g = h)) as [->|Hgh].
    { rewrite (cs_node Hcs). intros [= <-]. apply call_step_node. }
    destruct (decide (g = f)) as [->|Hgf]; [rewrite Hself; intros [= <-]; apply call_step_self|].
    rewrite (cs_other Hcs) by done. by apply call_step_others.
  - intros g Hg. assert (g = f) as -> by congruence. by exists f, (goto p fb).
  - apply (ok_callbacks Hok).
  - intros g Hin. destruct (decide (g = h)) as [->|Hgh]; [rewrite (cs_node Hcs); eauto|].
    destruct (decide (g = f)) as [->|Hgf]; [rewrite Hself; eauto|].
    rewrite (cs_other Hcs) by done. by apply (ok_linked Hok).
  - intros _ _. by exists f, (goto p fb).
Qed.
End call_step.

(** Suspension and scheduling do not matter for the invariant. *)
Lemma ok_running s r :
  ok s → ok (MkState (clock s) (lock s) (cancelled s) (callbacks s) (fibers s) r).
Proof. intros [Hfs]. split; [|done..]. intros f fb Hf. by destruct (Hfs f fb Hf). Qed.

(** The conditions of [call_step] that computation settles. *)
Ltac called :=
  split; simpl;
  repeat match goal with H : at_pc _ = _ |- _ => rewrite H in * end;
  rewrite ?lookup_alter_eq, ?lookup_alter_ne by done;
  try done; try (left; done);
  try (intros; rewrite !lookup_alter_ne by done; done);
  try (match goal with H : fibers _ !! ?h = Some _ |- alter _ _ _ !! ?h = Some _ => rewrite lookup_alter_eq, H; done end);
  try match goal with H : fibers _ !! _ = Some _ |- _ <$> _ = Some _ => rewrite H; done end;
  try (intuition congruence).

Lemma Stop_call_ok s s' f fb h :
  ok s → fibers s !! f = Some fb → Stop_step f fb s = Some s' →
  match at_pc fb with Call h' | CallSet h' | CallNotify h' | CallUnlock h' => h' = h | _ => False end → ok s'.
Proof.
  intros Hok Hf Hs Hin.
  destruct (calling_registered s f fb h Hok Hf) as (hb & Hh & Hreg & Hst & Hne); [by destruct (at_pc fb); subst|].
  assert (Hown : owner hb = Some f ↔ holds_mutex f (at_pc fb) = Some h).
  { split.
    - intros (gb & ? & ?)%(fo_owner (ok_fiber Hok h hb Hh)). by simplify_eq.
    - intros (gb & ? & ?)%(fo_mutex (ok_fiber Hok f fb Hf)). by simplify_eq. }
  pose proof (fo_wait (ok_fiber Hok h hb Hh)) as Hwait.
  pose proof (own_owner s h hb Hok Hh) as Hmx. pose proof (fo_called (ok_fiber Hok f fb Hf) h hb) as Hcalled.
  assert (Hwaiting : at_pc hb = Waiting → flag hb = true → at_pc fb = CallNotify h).
  { intros Hw Hfl. destruct (fo_waiting (ok_fiber Hok h hb Hh) Hw Hfl) as (g & gb & Hg & Hp).
    assert (g = f); [|by simplify_eq]. apply (inj Some).
    rewrite <-(fo_lock (ok_fiber Hok f fb Hf)), <-(fo_lock (ok_fiber Hok g gb Hg)); [done|by rewrite Hp|].
    by destruct (at_pc fb). }
  unfold Stop_step, mutex_lock, mutex_unlock in Hs.
  destruct (at_pc fb) eqn:Hpc; try done; simplify_eq/=.
  - rewrite Hh in Hs. simplify_eq/=. destruct (owner hb) as [g|] eqn:Ho; [by apply ok_running|].
    apply (call_step_ok f h fb hb (set_owner (Some f) hb) (CallSet h) s); [done..|]. called.
  - apply (call_step_ok f h fb hb (set_flag hb) (CallNotify h) s); [done..|]. called.
    intros Hw. destruct Hown as [_ Hown]. rewrite Hown, Hw in Hmx by done. simpl in Hmx. naive_solver.
  - apply (call_step_ok f h fb hb (wake hb) (CallUnlock h) s); [done..|]. called.
    all: unfold wake in *; destruct (at_pc hb) eqn:Hp; simpl in *; try done; by intuition congruence.
  - apply (call_step_ok f h fb hb (set_owner None hb) (CallUnlink h) s); [done..|]. called.
Qed.

Lemma code_step_ok s s' f fb :
  ok s → fibers s !! f = Some fb → code_step f fb s = Some s' → ok s'.
Proof.
  intros Hok Hf Hs. unfold code_step in Hs. destruct (at_pc fb) eqn:Hpc; try done.
  all: first [ by eapply StopCallback_ok | by eapply SleepUntil_ok
             | by eapply next_call_ok; [..|rewrite Hpc]
             | by eapply Stop_own_ok; [..|rewrite Hpc]
             | by eapply Stop_call_ok; [..|rewrite Hpc] ].
Qed.

Lemma tick_ok s ns :
  ok s → ok (MkState (clock s + Z.pos ns) (lock s) (cancelled s) (callbacks s) (fibers s) (running s)).
Proof.
  intros [Hfs]. split; [|done..]. intros f fb Hf. destruct (Hfs f fb Hf). split; try done; simpl.
  - intros r Hr. specialize (fo_result0 r Hr). destruct r; [done|lia].
  - intros Hr. specialize (fo_timed_out0 Hr). lia.
Qed.

Lemma expire_ok s f fb :
  ok s → fibers s !! f = Some fb → at_pc fb = Waiting → 1000 * timestamp fb ≤ clock s →
  ok (upd f (goto (Relock true)) s).
Proof. intros Hok Hf Hpc Ht. own Hok Hf (goto (Relock true) fb). Qed.

Lemma sleep_step_ok s s' : ok s → step s s' → ok s'.
Proof.
  intros Hok [[f|f|f|ns] Ha]; simpl in Ha.
  - destruct (fibers s !! f) as [fb|] eqn:Hf; simplify_eq/=. case_decide; [|done]. by eapply code_step_ok.
  - destruct (fibers s !! f) as [fb|] eqn:Hf; simplify_eq/=. case_decide; simplify_eq. by apply ok_running.
  - destruct (fibers s !! f) as [fb|] eqn:Hf; simplify_eq/=. destruct (at_pc fb) eqn:Hpc; simplify_eq.
    case_decide; simplify_eq. by eapply expire_ok.
  - simplify_eq. by apply tick_ok.
Qed.

Lemma reachable_ok programs s : reachable programs s → ok s.
Proof. intros Hr. apply (rtc_ind_r ok (initial programs)) in Hr; eauto using sleep_initial_ok, sleep_step_ok. Qed.

(** ** Scheduling *)

#[export] Instance call_eq_dec : EqDecision call.
Proof. solve_decision. Defined.
#[export] Instance pc_eq_dec : EqDecision pc.
Proof. solve_decision. Defined.

(** Where a fiber can be without its thread running it. *)
Definition parked (p : pc) : bool :=
  match p with Ready | ExecuteLock | Guard | Waiting | Relock _ | Call _ | Finished => true | _ => false end.

Definition in_Stop (p : pc) : bool :=
  match p with StopLock | Stopped => true | p => stopping p end.

(** A fiber has made the calls that its program has before those to come. *)
Definition runs_program (programs : gmap positive (positive * list call)) (f : positive) (fb : fiber) : Prop :=
  ∃ made, programs !! f = Some (thread fb, made ++ todo fb) ∧ (in_Stop (at_pc fb) = true → Stop ∈ made).

Record scheduled (programs : gmap positive (positive * list call)) (s : state) : Prop := {
  sc_program f fb : fibers s !! f = Some fb → runs_program programs f fb;
  sc_running t f : running s !! t = Some f →
    ∃ fb, fibers s !! f = Some fb ∧ thread fb = t ∧ at_pc fb ≠ Waiting ∧ at_pc fb ≠ Finished;
  sc_busy f fb : fibers s !! f = Some fb → parked (at_pc fb) = false → running s !! thread fb = Some f;
}.
Arguments sc_program {_ _} _.
Arguments sc_running {_ _} _.
Arguments sc_busy {_ _} _.

Lemma initial_scheduled programs : scheduled programs (initial programs).
Proof.
  split; simpl; [| done |]; intros f fb; rewrite lookup_fmap, fmap_Some; intros ([t cs] & Hp & ->); [|done].
  exists []. by rewrite app_nil_l.
Qed.

(** A change of a fiber that another fiber's step makes: its owner, its flag, or
    the end of its wait. *)
Definition touched (fb fb' : fiber) : Prop :=
  thread fb' = thread fb ∧ todo fb' = todo fb ∧ (at_pc fb' = at_pc fb ∨ at_pc fb = Waiting ∧ at_pc fb' = Relock false).

(** The effect of a step of [f] on the schedule: [f] gets the record [fb'] and
    keeps its thread or gives it up, another fiber is at most touched. *)
Record sched_step (f : positive) (fb fb' : fiber) (s s' : state) : Prop := {
  ss_self : fibers s' !! f = Some fb';
  ss_other g gb' : g ≠ f → fibers s' !! g = Some gb' → ∃ gb, fibers s !! g = Some gb ∧ touched gb gb';
  ss_others g : g ≠ f → is_Some (fibers s !! g) → is_Some (fibers s' !! g);
  ss_thread : thread fb' = thread fb;
  ss_todo : ∃ made, todo fb = made ++ todo fb' ∧
    (in_Stop (at_pc fb') = true → in_Stop (at_pc fb) = true ∨ Stop ∈ made);
  ss_running :
    (running s' = running s ∧ at_pc fb' ≠ Waiting ∧ at_pc fb' ≠ Finished) ∨
    (running s' = delete (thread fb) (running s) ∧ parked (at_pc fb') = true);
}.

Lemma sched_step_ok programs s s' f fb fb' :
  scheduled programs s → fibers s !! f = Some fb → running s !! thread fb = Some f →
  sched_step f fb fb' s s' → scheduled programs s'.
Proof.
  intros [Hprog Hrun Hbusy] Hf Hfr [Hself Hother Hothers Hth (made & Htodo & Hstop) Hr]. split.
  - intros g gb' Hg. destruct (decide (g = f)) as [->|Hne].
    + simplify_eq. destruct (Hprog f fb Hf) as (m0 & Hp & Hs0). exists (m0 ++ made).
      rewrite Hth, <-app_assoc, <-Htodo. split; [done|]. intros [Hs|Hs]%Hstop; apply elem_of_app; auto.
    + destruct (Hother g gb' Hne Hg) as (gb & Hgb & Ht & Htd & Hpc).
      destruct (Hprog g gb Hgb) as (m0 & Hp & Hs0). exists m0. rewrite Ht, Htd. split; [done|].
      by destruct Hpc as [->|[_ ->]].
  - intros t g Hg.
    assert (Hg' : running s !! t = Some g ∧ (g = f → at_pc fb' ≠ Waiting ∧ at_pc fb' ≠ Finished)).
    { destruct Hr as [(He & ? & ?)|[He _]]; rewrite He in Hg; [done|].
      apply lookup_delete_Some in Hg as [Hne Hg]. split; [done|]. intros ->.
      destruct (Hrun t f Hg) as (fb0 & ? & ? & _). by simplify_eq. }
    clear Hg. destruct Hg' as [Hg Hgf]. destruct (Hrun t g Hg) as (gb & Hgb & Ht & Hw & Hfin).
    destruct (decide (g = f)) as [->|Hne]; [simplify_eq; exists fb'; naive_solver|].
    destruct (Hothers g Hne) as [gb' Hgb']; [eauto|].
    destruct (Hother g gb' Hne Hgb') as (gb0 & ? & Ht' & _ & Hpc). simplify_eq. exists gb'.
    split_and!; [done|done|destruct Hpc as [->|[? ->]]; done..].
  - intros g gb' Hg Hp. destruct (decide (g = f)) as [->|Hne].
    + simplify_eq. rewrite Hth. by destruct Hr as [(-> & _)|[_ ?]]; [|congruence].
    + destruct (Hother g gb' Hne Hg) as (gb & Hgb & Ht & Htd & Hpc). rewrite Ht.
      assert (Hgr : running s !! thread gb = Some g).
      { apply Hbusy; [done|]. destruct Hpc as [<-|[_ He]]; [done|by rewrite He in Hp]. }
      destruct Hr as [(-> & _)|[-> _]]; [done|]. rewrite lookup_delete_ne; [done|]. intros He.
      rewrite He in Hfr. congruence.
Qed.

Lemma alter_same {A} (x : positive) (m : gmap positive A) : alter id x m = m.
Proof.
  apply map_eq. intros y. destruct (decide (x = y)) as [->|]; [|by rewrite lookup_alter_ne].
  rewrite lookup_alter_eq. by destruct (m !! y).
Qed.

Lemma touched_refl fb : touched fb fb.
Proof. repeat split; auto. Qed.

Lemma touched_wake fb : touched fb (wake fb).
Proof. unfold touched, wake. destruct (at_pc fb) eqn:Hp; simpl; rewrite ?Hp; auto. Qed.

(** [f] goes on at [p] and the record of [h] is touched. *)
Lemma upd_sched f h fb g p s s' :
  fibers s !! f = Some fb → fibers s' = alter (goto p) f (alter g h (fibers s)) → running s' = running s →
  (∀ hb, touched hb (g hb)) → (in_Stop p = true → in_Stop (at_pc fb) = true) → p ≠ Waiting → p ≠ Finished →
  ∃ fb', sched_step f fb fb' s s'.
Proof.
  intros Hf Hfs Hr Hg Hs Hw Hfin. destruct (Hg fb) as (Ht & Htd & _). exists (goto p (if decide (h = f) then g fb else fb)). split; rewrite ?Hfs.
  - rewrite lookup_alter_eq. case_decide; [subst; rewrite lookup_alter_eq|rewrite lookup_alter_ne by done];
      by rewrite Hf.
  - intros x xb' Hne. rewrite lookup_alter_ne by done. destruct (decide (h = x)) as [->|Hhx].
    + rewrite lookup_alter_eq, fmap_Some. intros (xb & Hx & ->). eauto.
    + rewrite lookup_alter_ne by done. intros Hx. eauto using touched_refl.
  - intros x Hne Hx. rewrite lookup_alter_ne by done. destruct (decide (h = x)) as [->|Hhx].
    + by rewrite lookup_alter_eq, fmap_is_Some.
    + by rewrite lookup_alter_ne.
  - by case_decide.
  - exists []. split; [by case_decide|]. auto.
  - left. by split_and!.
Qed.

Lemma upd_sched_own f fb p s s' :
  fibers s !! f = Some fb → fibers s' = alter (goto p) f (fibers s) → running s' = running s →
  (in_Stop p = true → in_Stop (at_pc fb) = true) → p ≠ Waiting → p ≠ Finished →
  ∃ fb', sched_step f fb fb' s s'.
Proof.
  intros Hf Hfs ????. apply (upd_sched f f fb id p s s'); auto using touched_refl. by rewrite alter_same.
Qed.

(** [f] gives up its thread. *)
Lemma release_sched f fb fb' g s s' :
  fibers s !! f = Some fb → fibers s' = alter g f (fibers s) → running s' = delete (thread fb) (running s) →
  fb' = g fb → thread fb' = thread fb → todo fb' = todo fb → parked (at_pc fb') = true →
  (in_Stop (at_pc fb') = true → in_Stop (at_pc fb) = true) → sched_step f fb fb' s s'.
Proof.
  intros Hf Hfs Hr -> Ht Htd Hp Hs. split; rewrite ?Hfs; [|..|done| |by right].
  - by rewrite lookup_alter_eq, Hf.
  - intros x xb' Hne. rewrite lookup_alter_ne by done. eauto using touched_refl.
  - intros x Hne. by rewrite lookup_alter_ne.
  - exists []. by rewrite Htd; auto.
Qed.

Lemma mutex_lock_sched f fb h p s s' :
  fibers s !! f = Some fb → mutex_lock f fb h p s = Some s' → parked (at_pc fb) = true →
  (in_Stop p = true → in_Stop (at_pc fb) = true) → p ≠ Waiting → p ≠ Finished →
  ∃ fb', sched_step f fb fb' s s'.
Proof.
  intros Hf Hs Hp Hst Hw Hfin. unfold mutex_lock in Hs. destruct (fibers s !! h) as [hb|] eqn:Hh; simplify_eq/=.
  destruct (owner hb).
  - exists fb. apply (release_sched f fb fb id); try done; simpl. by rewrite alter_same.
  - eapply upd_sched; try done. intros b. repeat split; auto.
Qed.

Lemma next_call_sched f fb s s' :
  fibers s !! f = Some fb → next_call f fb s = Some s' → ∃ fb', sched_step f fb fb' s s'.
Proof.
  intros Hf Hs. unfold next_call in Hs. destruct (todo fb) as [|c cs] eqn:Htodo; simplify_eq.
  - exists (goto Finished fb). by apply (release_sched f fb _ (goto Finished)).
  - destruct c as [d token|]; simplify_eq; eexists; split; simpl; try (by rewrite lookup_alter_eq, Hf); try done;
      try (intros x xb Hne; rewrite lookup_alter_ne by done; eauto using touched_refl; fail);
      try (intros x Hne; by rewrite lookup_alter_ne by done);
      try (left; by destruct token).
    + exists [SleepFor d token]. split; [done|]. by destruct token.
    + exists [Stop]. split; [done|]. right. by left.
    + by left.
Qed.

Lemma spin_lock_sched f fb p s s' :
  fibers s !! f = Some fb → spin_lock f p s = Some s' →
  (in_Stop p = true → in_Stop (at_pc fb) = true) → p ≠ Waiting → p ≠ Finished →
  ∃ fb', sched_step f fb fb' s s'.
Proof. intros Hf Hs ???. unfold spin_lock in Hs. destruct (lock s); simplify_eq. by eapply upd_sched_own. Qed.

Lemma code_step_sched f fb s s' :
  fibers s !! f = Some fb → code_step f fb s = Some s' → ∃ fb', sched_step f fb fb' s s'.
Proof.
  intros Hf Hs. unfold code_step, StopCallback_step, SleepUntil_step, Stop_step in Hs.
  destruct (at_pc fb) eqn:Hpc; simplify_eq/=; try (by eapply next_call_sched);
    repeat match goal with |- context [if ?b then _ else _] => destruct b eqn:? end;
    try (eapply upd_sched_own; [exact Hf|reflexivity|reflexivity|..]; rewrite ?Hpc; done);
    try (eapply upd_sched;
      [exact Hf|reflexivity|reflexivity|(apply touched_wake || by intros b; repeat split; auto)|..];
      rewrite ?Hpc; done);
    try (eapply spin_lock_sched; [exact Hf|exact Hs|..]; rewrite ?Hpc; done);
    try (eapply mutex_lock_sched; [exact Hf|exact Hs|..]; rewrite ?Hpc; done).
  - exists (goto Waiting (set_owner None fb)).
    apply (release_sched f fb _ (goto Waiting ∘ set_owner None)); try done. simpl. by rewrite alter_alter_eq.
  - destruct timeout; (eapply mutex_lock_sched; [exact Hf|exact Hs|..]; rewrite ?Hpc; done).
  - unfold spin_lock in Hs. destruct (lock s); simplify_eq/=.
    eapply upd_sched_own; [exact Hf|reflexivity|reflexivity|..]; rewrite ?Hpc; done.
  - destruct (callbacks s);
      (eapply upd_sched_own; [exact Hf|reflexivity|reflexivity|..]; rewrite ?Hpc; done).
Qed.

Lemma step_scheduled programs s s' : scheduled programs s → step s s' → scheduled programs s'.
Proof.
  intros Hsc [[f|f|f|ns] Ha]; simpl in Ha.
  - destruct (fibers s !! f) as [fb|] eqn:Hf; simplify_eq/=. case_decide as Hr; [|done].
    destruct (code_step_sched f fb s s' Hf Ha) as [fb' Hss]. by eapply sched_step_ok.
  - destruct (fibers s !! f) as [fb|] eqn:Hf; simplify_eq/=. case_decide as Hr; simplify_eq.
    destruct Hr as [Hfree Hready]. split; simpl.
    + apply (sc_program Hsc).
    + intros t g. rewrite lookup_insert_Some. intros [[<- <-]|[Hne Hg]]; [|by apply (sc_running Hsc)].
      exists fb. split_and!; [done|done|..]; intros He; unfold ready in Hready; by rewrite He in Hready.
    + intros g gb Hg Hp. pose proof (sc_busy Hsc g gb Hg Hp) as Hgr.
      rewrite lookup_insert_ne; [done|]. congruence.
  - destruct (fibers s !! f) as [fb|] eqn:Hf; simplify_eq/=. destruct (at_pc fb) eqn:Hpc; simplify_eq.
    case_decide; simplify_eq. split; simpl.
    + intros g gb. rewrite lookup_alter_Some. intros [(<- & gb0 & Hg & ->)|[_ Hg]]; [|by apply (sc_program Hsc)].
      simplify_eq. destruct (sc_program Hsc f fb Hf) as (made & Hp & _). by exists made.
    + intros t g Hg. destruct (sc_running Hsc t g Hg) as (gb & Hgb & Ht & Hw & Hfin).
      exists gb. rewrite lookup_alter_ne by congruence. done.
    + intros g gb. rewrite lookup_alter_Some. intros [(<- & gb0 & Hg & ->)|[_ Hg]]; [done|by apply (sc_busy Hsc)].
  - simplify_eq. destruct Hsc. by split.
Qed.

Lemma reachable_scheduled programs s : reachable programs s → scheduled programs s.
Proof.
  intros Hr. apply (rtc_ind_r (scheduled programs) (initial programs)) in Hr;
    eauto using initial_scheduled, step_scheduled.
Qed.
