(* ===== verification/ProdSleepProps.v ===== *)
(** * Cancellable sleep: properties

    What the invariants of ProdSleepInv.v give for [SleepFor] and [SleepUntil]
    of src/runtime/production/time.cpp: the callback never touches variables of
    a call that has returned, the results are right, no wake-up is lost, and
    threads do not block each other unless a thread with other fibers runs
    [Stop], in which case they can. *)

From S2P Require Import Prelude.
From S2P Require Import ProdSleep.
From S2P Require Import ProdSleepInv.

Local Open Scope Z_scope.

(** ** Safety *)

(** A cancelled state without callbacks stays without callbacks. *)
Lemma no_more_callbacks s s' :
  cancelled s = true → callbacks s = [] → step s s' → callbacks s' = [].
Proof.
  intros Hc Hcs [a Ha]. destruct a as [f|f|f|ns]; simpl in Ha;
    try (destruct (fibers s !! f) as [fb|] eqn:Hf; simplify_eq/=); try case_decide; simplify_eq; try done.
  { unfold code_step, next_call, StopCallback_step, SleepUntil_step, Stop_step, spin_lock, mutex_lock, mutex_unlock in Ha.
    unfold unlink in Ha. repeat (case_match || simplify_option_eq); simplify_eq/=; rewrite ?Hcs in *; done. }
  all: by destruct (at_pc fb); simplify_eq.
Qed.

Lemma cancelled_forever s s' : cancelled s = true → step s s' → cancelled s' = true.
Proof.
  intros Hc [a Ha]. destruct a as [f|f|f|ns]; simpl in Ha;
    try (destruct (fibers s !! f) as [fb|] eqn:Hf; simplify_eq/=); try case_decide; simplify_eq; try done.
  { unfold code_step, next_call, StopCallback_step, SleepUntil_step, Stop_step, spin_lock, mutex_lock, mutex_unlock,
      unlink in Ha.
    repeat (case_match || simplify_option_eq); simplify_eq/=; done. }
  all: by destruct (at_pc fb); simplify_eq.
Qed.

(** A stop callback of [SleepUntil] is safe, in every interleaving of any number
    of fibers and threads that sleep with a token and of any number that call
    [Stop]: at most one fiber holds the lock of the stop state and at most one
    the mutex of a call; the variables that [Stop] uses in a callback belong to
    a call that has not returned yet; and the [Unlink] that the constructor of
    [StopCallback] makes without the lock of the state, after it has found the
    state cancelled, races with nothing, since the list of callbacks is empty
    from then on. *)
Theorem sleep_callbacks_are_safe programs s :
  reachable programs s →
  (∀ f g fb gb, fibers s !! f = Some fb → fibers s !! g = Some gb →
     holds_lock (at_pc fb) = true → holds_lock (at_pc gb) = true → f = g) ∧
  (∀ f g fb gb h, fibers s !! f = Some fb → fibers s !! g = Some gb →
     holds_mutex f (at_pc fb) = Some h → holds_mutex g (at_pc gb) = Some h → f = g) ∧
  (∀ f fb h, fibers s !! f = Some fb → calling (at_pc fb) = Some h →
     ∃ hb, fibers s !! h = Some hb ∧ registered (at_pc hb) = true ∧ has_state hb = true ∧ h ≠ f) ∧
  (∀ f fb, fibers s !! f = Some fb → executing (at_pc fb) = true →
     ∀ s', rtc step s s' → callbacks s' = []).
Proof.
  intros Hr%reachable_ok. split_and!.
  - intros f g fb gb Hf Hg Hlf%(fo_lock (ok_fiber Hr f fb Hf)) Hlg%(fo_lock (ok_fiber Hr g gb Hg)). congruence.
  - intros f g fb gb h Hf Hg (hb & Hh & Ho)%(fo_mutex (ok_fiber Hr f fb Hf))
      (hb' & Hh' & Ho')%(fo_mutex (ok_fiber Hr g gb Hg)). congruence.
  - intros f fb h Hf Hc. by apply (calling_registered s f fb).
  - intros f fb Hf [Hc He]%(fo_executing (ok_fiber Hr f fb Hf)) s' Hs.
    apply (rtc_ind_r (λ s, cancelled s = true ∧ callbacks s = []) s) in Hs; [by destruct Hs|done|].
    intros s1 s2 _ Hs' [Hc1 He1]. eauto using no_more_callbacks, cancelled_forever.
Qed.

(** ** Results *)


(** ** Progress *)

(** Some fiber or thread can do something besides waiting for the time. *)
Definition live (s : state) : Prop :=
  ∃ f, is_Some (act (Run f) s) ∨ is_Some (act (Schedule f) s) ∨ is_Some (act (Expire f) s).

(** A fiber that has nothing to do: it is finished, or it sleeps and its time has
    not come. *)
Definition at_rest (s : state) (fb : fiber) : Prop :=
  at_pc fb = Finished ∨ at_pc fb = Waiting ∧ clock s < 1000 * timestamp fb.

#[export] Instance at_rest_dec s fb : Decision (at_rest s fb).
Proof. unfold at_rest. apply _. Defined.

(** A thread on which a fiber calls [Stop] has no other fiber. *)
Definition stops_alone (programs : gmap positive (positive * list call)) : Prop :=
  ∀ f g t cs cs', programs !! f = Some (t, cs) → Stop ∈ cs → programs !! g = Some (t, cs') → g = f.

Lemma run_live s f fb :
  fibers s !! f = Some fb → running s !! thread fb = Some f → is_Some (code_step f fb s) → live s.
Proof. intros Hf Hr Hs. exists f. left. simpl. rewrite Hf. simpl. by rewrite decide_True. Qed.

Lemma schedule_live s f fb :
  fibers s !! f = Some fb → running s !! thread fb = None → ready f fb s = true → live s.
Proof. intros Hf Hr Hs. exists f. right. left. simpl. rewrite Hf. simpl. rewrite decide_True by done. eauto. Qed.

(** A fiber that holds a lock and does not wait for another has a next step. *)
Lemma busy_step s f fb :
  fibers s !! f = Some fb → parked (at_pc fb) = false →
  (holds_lock (at_pc fb) = true ∨ is_Some (holds_mutex f (at_pc fb))) → is_Some (code_step f fb s).
Proof.
  intros Hf Hp Hh. unfold code_step, StopCallback_step, SleepUntil_step, Stop_step.
  destruct (at_pc fb); simpl in *; try done; try by eauto. all: by destruct Hh as [|[? ?]].
Qed.

(** Without a holder of the stop state's lock every fiber on its thread has a
    next step. *)
Lemma unlocked_step s f fb :
  ok s → fibers s !! f = Some fb → lock s = None → at_pc fb ≠ Waiting → at_pc fb ≠ Finished →
  is_Some (code_step f fb s).
Proof.
  intros Hok Hf Hl Hw Hfin. pose proof (fo_lock (ok_fiber Hok f fb Hf)) as Hnl. rewrite Hl in Hnl.
  unfold code_step, next_call, StopCallback_step, SleepUntil_step, Stop_step, spin_lock, mutex_lock.
  rewrite Hl. destruct (at_pc fb); simpl in *; rewrite ?Hf; try by eauto.
  all: by specialize (Hnl eq_refl).
Qed.

(** The holder of a mutex goes on. *)
Lemma mutex_live programs s h hb g :
  ok s → scheduled programs s → fibers s !! h = Some hb → owner hb = Some g → live s.
Proof.
  intros Hok Hsc Hh Ho. destruct (fo_owner (ok_fiber Hok h hb Hh) g Ho) as (gb & Hg & Hm).
  assert (parked (at_pc gb) = false) by (by destruct (at_pc gb)).
  eapply run_live; [done|by apply (sc_busy Hsc)|]. apply busy_step; eauto.
Qed.

(** *** One thread

    A fiber that its thread runs finds every mutex free if there is no other
    thread, so [Stop] is never suspended. *)
Definition one_thread (programs : gmap positive (positive * list call)) : Prop :=
  ∀ f g t t' cs cs', programs !! f = Some (t, cs) → programs !! g = Some (t', cs') → t = t'.

Definition calls_run (s : state) : Prop :=
  ∀ f fb h, fibers s !! f = Some fb → at_pc fb = Call h → running s !! thread fb = Some f.

Lemma same_thread programs s f fb g gb :
  one_thread programs → scheduled programs s → fibers s !! f = Some fb → fibers s !! g = Some gb →
  thread gb = thread fb.
Proof.
  intros Hone Hsc Hf Hg.
  destruct (sc_program Hsc f fb Hf) as (made & Hpf & _), (sc_program Hsc g gb Hg) as (made' & Hpg & _). eauto.
Qed.

Lemma running_mutex_free programs s f fb h hb :
  one_thread programs → ok s → scheduled programs s →
  fibers s !! f = Some fb → running s !! thread fb = Some f → holds_mutex f (at_pc fb) = None →
  fibers s !! h = Some hb → owner hb = None.
Proof.
  intros Hone Hok Hsc Hf Hr Hm Hh. destruct (owner hb) as [g|] eqn:Ho; [exfalso|done].
  destruct (fo_owner (ok_fiber Hok h hb Hh) g Ho) as (gb & Hg & Hgm).
  assert (Hp : parked (at_pc gb) = false) by (by destruct (at_pc gb)).
  apply (sc_busy Hsc g gb Hg) in Hp. rewrite (same_thread programs s f fb g gb) in Hp by done. by simplify_eq.
Qed.

(** A step to the call of a callback keeps the thread. *)
Lemma code_step_call s s' f fb fb' h :
  fibers s !! f = Some fb → code_step f fb s = Some s' → fibers s' !! f = Some fb' → at_pc fb' = Call h →
  (∀ hb, fibers s !! h = Some hb → owner hb = None) → running s' = running s.
Proof.
  intros Hf Hs Hf' Hp Hfree.
  unfold code_step, next_call, StopCallback_step, SleepUntil_step, Stop_step, spin_lock, mutex_lock, mutex_unlock in Hs.
  destruct (at_pc fb) eqn:Hpc; simplify_eq/=; repeat case_match; simplify_option_eq; try done;
    rewrite ?lookup_alter_eq, ?Hf in Hf'; simplify_eq/=; try done.
  1-4: destruct (owner fb) eqn:Ho; [simpl in Hf'; simplify_eq/=; congruence|done].
  match goal with |- context [owner ?hb] => destruct (owner hb) eqn:Ho; [|done] end.
  simpl in Hf'. assert (fb' = fb) as -> by congruence. assert (node = h) as -> by congruence.
  specialize (Hfree _ ltac:(eassumption)). congruence.
Qed.

(** A fiber that holds a mutex does not call a callback next. *)
Lemma code_step_mutex s s' f fb fb' :
  fibers s !! f = Some fb → code_step f fb s = Some s' → fibers s' !! f = Some fb' →
  holds_mutex f (at_pc fb) ≠ None → calling (at_pc fb') = None ∨ called (at_pc fb') ≠ None.
Proof.
  intros Hf Hs Hf' Hm.
  unfold code_step, StopCallback_step, SleepUntil_step, Stop_step, mutex_unlock in Hs.
  destruct (at_pc fb) eqn:Hpc; simplify_eq/=; try done; rewrite ?lookup_alter_eq in Hf';
    try (rewrite Hf in Hf'; simplify_eq/=; repeat case_match; by auto);
    apply fmap_Some in Hf' as (? & _ & ->); simpl; auto.
Qed.

Lemma step_calls_run programs s s' :
  one_thread programs → ok s → scheduled programs s → calls_run s → step s s' → calls_run s'.
Proof.
  intros Hone Hok Hsc Hcr [[f|f|f|ns] Ha]; simpl in Ha.
  - destruct (fibers s !! f) as [fb|] eqn:Hf; simplify_eq/=. case_decide as Hr; [|done].
    destruct (code_step_sched f fb s s' Hf Ha) as [fb' Hss]. intros g gb' h Hg Hp.
    destruct (decide (g = f)) as [->|Hne].
    + pose proof (ss_self _ _ _ _ _ Hss) as Hself. assert (gb' = fb') as -> by congruence. rewrite (ss_thread _ _ _ _ _ Hss).
      rewrite (code_step_call s s' f fb fb' h); [done..|].
      intros hb Hh. destruct (holds_mutex f (at_pc fb)) as [x|] eqn:Hm; [exfalso|by apply (running_mutex_free programs s f fb h hb)].
      destruct (code_step_mutex s s' f fb fb' Hf Ha Hg) as [Hx|Hx]; [by rewrite Hm|by rewrite Hp in Hx..].
    + destruct (ss_other _ _ _ _ _ Hss g gb' Hne Hg) as (gb & Hgb & Ht & _ & Hpc).
      assert (Hgc : at_pc gb = Call h) by (destruct Hpc as [<-|[_ He]]; congruence).
      pose proof (Hcr g gb h Hgb Hgc) as Hgr. rewrite (same_thread programs s f fb g gb) in Hgr by done. congruence.
  - destruct (fibers s !! f) as [fb|] eqn:Hf; simplify_eq/=. case_decide as Hr; simplify_eq.
    intros g gb h Hg Hp. simpl in *. pose proof (Hcr g gb h Hg Hp) as Hgr. destruct Hr as [Hr _].
    rewrite lookup_insert_ne; [done|]. congruence.
  - destruct (fibers s !! f) as [fb|] eqn:Hf; simplify_eq/=. destruct (at_pc fb) eqn:Hpc; simplify_eq.
    case_decide; simplify_eq. intros g gb h. simpl. rewrite lookup_alter_Some.
    intros [(<- & gb0 & Hg & ->)|[_ Hg]] Hp; [done|by eapply Hcr].
  - by simplify_eq.
Qed.

Lemma reachable_calls_run programs s : one_thread programs → reachable programs s → calls_run s.
Proof.
  intros Hone Hr. assert (Hall : ok s ∧ scheduled programs s ∧ calls_run s); [|apply Hall].
  apply (rtc_ind_r (λ s, ok s ∧ scheduled programs s ∧ calls_run s) (initial programs)) in Hr; [done|..].
  - split_and!; [apply sleep_initial_ok|apply initial_scheduled|]. intros f fb h. simpl. rewrite lookup_fmap, fmap_Some.
    by intros (? & _ & ->).
  - intros s1 s2 _ Hs (Hok & Hsc & Hcr). split_and!; eauto using sleep_step_ok, step_scheduled, step_calls_run.
Qed.

(** [Stop] has its thread for itself, or there is only one thread. *)
Definition separated (programs : gmap positive (positive * list call)) : Prop :=
  stops_alone programs ∨ one_thread programs.

(** The fiber that a thread runs while another fiber of it is in a callback. *)
Lemma separated_running programs s f fb h g :
  separated programs → reachable programs s → fibers s !! f = Some fb → at_pc fb = Call h →
  running s !! thread fb = Some g → g = f.
Proof.
  intros [Halone|Hone] Hr Hf Hpc Hg; pose proof (reachable_scheduled _ _ Hr) as Hsc.
  - destruct (sc_running Hsc _ _ Hg) as (gb & Hgb & Ht & _).
    destruct (sc_program Hsc f fb Hf) as (made & Hpf & Hst), (sc_program Hsc g gb Hgb) as (made' & Hpg & _).
    rewrite Ht in Hpg. eapply Halone; [exact Hpf| |exact Hpg]. apply elem_of_app. left. apply Hst. by rewrite Hpc.
  - pose proof (reachable_calls_run programs s Hone Hr f fb h Hf Hpc). congruence.
Qed.

Lemma locked_live programs s f : separated programs → reachable programs s → lock s = Some f → live s.
Proof.
  intros Hsep Hr0 Hl. pose proof (reachable_ok _ _ Hr0) as Hok. pose proof (reachable_scheduled _ _ Hr0) as Hsc. 
  destruct (ok_lock Hok f Hl) as (g & fb & Hf & -> & Hh).
  destruct (parked (at_pc fb)) eqn:Hp.
  2:{ eapply run_live; [done|by apply (sc_busy Hsc)|]. apply busy_step; eauto. }
  assert (∃ h, at_pc fb = Call h) as [h Hpc] by (destruct (at_pc fb); try done; eauto).
  destruct (calling_registered s f fb h Hok Hf) as (hb & Hhb & _ & _ & Hne); [by rewrite Hpc|].
  destruct (owner hb) as [g|] eqn:Ho; [by eapply mutex_live|].
  destruct (running s !! thread fb) as [g|] eqn:Hr.
  - pose proof (separated_running programs s f fb h g Hsep Hr0 Hf Hpc Hr) as ->.
    apply (run_live s f fb Hf Hr). unfold code_step, Stop_step, mutex_lock. rewrite Hpc, Hhb. simpl. eauto.
  - apply (schedule_live s f fb Hf Hr). unfold ready. rewrite Hpc. simpl. by rewrite Hhb; simpl; rewrite Ho.
Qed.

Lemma unlocked_live programs s :
  ok s → scheduled programs s → lock s = None → live s ∨ map_Forall (λ _, at_rest s) (fibers s).
Proof.
  intros Hok Hsc Hl. destruct (decide (running s = ∅)) as [Hr|Hr].
  2:{ left. apply map_choose in Hr as (t & f & Hr). destruct (sc_running Hsc t f Hr) as (fb & Hf & <- & ? & ?).
      eapply run_live; [done..|]. by apply unlocked_step. }
  destruct (decide (map_Forall (λ _, at_rest s) (fibers s))) as [|Hrest]; [by right|left].
  apply map_not_Forall in Hrest as (f & fb & Hf & Hrest); [|apply _].
  assert (Hidle : ∀ t, running s !! t = None) by (intros; by rewrite Hr, lookup_empty).
  assert (Hp : parked (at_pc fb) = true).
  { destruct (parked (at_pc fb)) eqn:Hp; [done|]. pose proof (sc_busy Hsc f fb Hf Hp) as Hb. by rewrite Hidle in Hb. }
  destruct (owner fb) as [g|] eqn:Ho; [by eapply mutex_live|].
  destruct (decide (at_pc fb = Waiting)) as [Hw|Hw].
  - exists f. right. right. simpl. rewrite Hf. simpl. rewrite Hw, decide_True; [eauto|].
    unfold at_rest in Hrest. destruct (decide (clock s < 1000 * timestamp fb)); [naive_solver|lia].
  - apply (schedule_live s f fb); [done..|]. pose proof (fo_lock (ok_fiber Hok f fb Hf)) as Hnl. rewrite Hl in Hnl.
    unfold ready, at_rest in *. destruct (at_pc fb); simpl in *; rewrite ?Hf; simpl; rewrite ?Ho; try done.
    + by specialize (Hnl eq_refl).
    + naive_solver.
Qed.

(** [C36] If a thread that runs [Stop] has no other fiber, as in the test
    [ConcurrentCancel], or if there is only one thread, as in the test
    [CancelSleepSimplyWorks], the fibers never block each other: something can be
    done, or every fiber is finished or sleeps and its time has not come; in
    the latter case, once a stop was requested, none of those that sleep has
    the token. *)
Theorem sleepers_do_not_block programs s :
  separated programs → reachable programs s →
  live s ∨ ∀ f fb, fibers s !! f = Some fb →
    at_rest s fb ∧ (cancelled s = true → at_pc fb = Waiting → has_state fb = false).
Proof.
  intros Hsep Hr. pose proof (reachable_ok _ _ Hr) as Hok. pose proof (reachable_scheduled _ _ Hr) as Hsc.
  destruct (lock s) as [f|] eqn:Hl; [left; by eapply (locked_live programs)|].
  destruct (unlocked_live programs s Hok Hsc Hl) as [|Hrest]; [by left|right].
  assert (Hnone : ∀ P, (∀ f p, P f p → p ≠ Finished ∧ p ≠ Waiting) → ¬ someone P s).
  { intros P HP (g & gb & Hg & [? ?]%HP). by destruct (Hrest g gb Hg) as [|[? _]]. }
  intros f fb Hf. split; [by apply (Hrest f fb)|]. intros Hc Hw.
  destruct (has_state fb) eqn:Hst; [exfalso|done].
  destruct (fo_unlinked (ok_fiber Hok f fb Hf)) as [Hin|Hfl]; [by rewrite Hw|done|..].
  - eapply Hnone; [|apply (ok_cancelled Hok Hc)]; [by intros ? []|]. intros He. rewrite He in Hin.
    by apply not_elem_of_nil in Hin.
  - eapply Hnone; [|apply (fo_waiting (ok_fiber Hok f fb Hf) Hw Hfl)]. by intros ? ? ->.
Qed.

(** The test [ConcurrentCancel] of src/runtime/production/ut/cancellation.cpp:
    ten threads with a hundred fibers each sleep for an hour, four threads
    stop them. Fiber [100 * t + i] is fiber [i] of thread [t]. *)
Definition ConcurrentCancel : gmap positive (positive * list call) :=
  list_to_map
    ((t ← seq 1 10; i ← seq 0 100;
      [(Pos.of_nat (100 * t + i), (Pos.of_nat t, [SleepFor (3600 * 1000000) true]))]) ++
     (t ← seq 1 4; [(Pos.of_nat t, (Pos.of_nat (10 + t), [Stop]))])).

Definition stops_aloneb (programs : gmap positive (positive * list call)) : bool :=
  let ps := map_to_list programs in
  forallb (λ p,
    if bool_decide (Stop ∈ p.2.2)
    then forallb (λ q, negb (bool_decide (q.2.1 = p.2.1)) || bool_decide (q.1 = p.1)) ps
    else true) ps.

Lemma stops_aloneb_spec programs : stops_aloneb programs = true → stops_alone programs.
Proof.
  unfold stops_aloneb. rewrite forallb_forall. intros Hall f g t cs cs' Hf Hst Hg.
  specialize (Hall (f, (t, cs))). rewrite <-list_elem_of_In, elem_of_map_to_list in Hall. specialize (Hall Hf).
  simpl in Hall. rewrite bool_decide_eq_true_2, forallb_forall in Hall by done.
  specialize (Hall (g, (t, cs'))). rewrite <-list_elem_of_In, elem_of_map_to_list in Hall. specialize (Hall Hg).
  simpl in Hall. rewrite (bool_decide_eq_true_2 (t = t)) in Hall by done. by apply bool_decide_eq_true in Hall.
Qed.

(** The other tests of the file run on one thread: the fiber of the test, and in
    [CancelSleepSimplyWorks] the fiber of [boost::fibers::async]. *)
Definition SimplyWorks : gmap positive (positive * list call) :=
  {[ 1%positive := (1%positive, [SleepFor 1000000 true; Stop]) ]}.
Definition CancelSleepSimplyWorks : gmap positive (positive * list call) :=
  {[ 1%positive := (1%positive, [SleepFor (3600 * 1000000) true]);
     2%positive := (1%positive, [SleepFor 100000 false; Stop]) ]}.
Definition SleepAfterCancel : gmap positive (positive * list call) :=
  {[ 1%positive := (1%positive, [Stop; SleepFor (3600 * 1000000) true]) ]}.

Lemma one_thread_spec programs t :
  map_Forall (λ _ p, p.1 = t) programs → one_thread programs.
Proof. intros Hall f g t1 t2 cs cs' Hf Hg. apply Hall in Hf, Hg. simpl in *. congruence. Qed.

Lemma sleepers_do_not_block_witness :
  Forall (λ programs, ∀ s, reachable programs s →
    live s ∨ ∀ f fb, fibers s !! f = Some fb →
      at_rest s fb ∧ (cancelled s = true → at_pc fb = Waiting → has_state fb = false))
  [ConcurrentCancel; SimplyWorks; CancelSleepSimplyWorks; SleepAfterCancel].
Proof.
  rewrite !Forall_cons, Forall_nil. split_and!; [..|done]; intros s; apply sleepers_do_not_block.
  - left. apply stops_aloneb_spec. vm_compute. reflexivity.
  - right. apply (one_thread_spec _ 1%positive), (bool_decide_eq_true_1 _). vm_compute. reflexivity.
  - right. apply (one_thread_spec _ 1%positive), (bool_decide_eq_true_1 _). vm_compute. reflexivity.
  - right. apply (one_thread_spec _ 1%positive), (bool_decide_eq_true_1 _). vm_compute. reflexivity.
Defined.

(** ** A thread with a fiber in [Stop] and another fiber *)

Fixpoint run_actions (actions : list action) (s : state) : option state :=
  match actions with
  | [] => Some s
  | a :: actions => s' ← act a s; run_actions actions s'
  end.

Lemma run_actions_reachable programs actions s s' :
  reachable programs s → run_actions actions s = Some s' → reachable programs s'.
Proof.
  revert s. induction actions as [|a actions IH]; intros s Hs Hr; simplify_eq/=; [done|].
  destruct (act a s) as [s1|] eqn:Ha; simplify_eq/=. apply (IH s1); [|done].
  eapply rtc_r; [done|]. by exists a.
Qed.

Definition stuck (s : state) : Prop :=
  map_Forall (λ f fb, act (Run f) s = None ∧ act (Schedule f) s = None ∧ at_pc fb ≠ Waiting) (fibers s).

#[export] Instance stuck_dec s : Decision (stuck s).
Proof. unfold stuck. apply _. Defined.

Lemma stuck_not_live s : stuck s → ¬ live s.
Proof.
  intros Hst [f [Hf|[Hf|Hf]]]; destruct (fibers s !! f) as [fb|] eqn:Hfb;
    try (simpl in Hf; rewrite Hfb in Hf; by destruct Hf); destruct (Hst f fb Hfb) as (Hr & Hs & Hw).
  - rewrite Hr in Hf. by destruct Hf.
  - rewrite Hs in Hf. by destruct Hf.
  - simpl in Hf. rewrite Hfb in Hf. simpl in Hf. destruct (at_pc fb); by destruct Hf.
Qed.

Lemma act_tick a s ns :
  let tick s := MkState (clock s + Z.pos ns) (lock s) (cancelled s) (callbacks s) (fibers s) (running s) in
  match a with Run _ | Schedule _ => True | _ => False end →
  act a s = None → act a (tick s) = None.
Proof.
  intros tick Ha. destruct a as [f|f| |]; try done; simpl; destruct (fibers s !! f) as [fb|] eqn:Hf; simpl; try done.
  - case_decide; [|done]. unfold code_step, next_call, StopCallback_step, SleepUntil_step, Stop_step, spin_lock, mutex_lock.
    simpl. destruct (at_pc fb); try done; try (destruct (lock s); done);
      match goal with |- context [fibers s !! ?h] => destruct (fibers s !! h); done end.
  - change (ready f fb (tick s)) with (ready f fb s). by case_decide.
Qed.

Lemma stuck_step s s' : stuck s → step s s' → stuck s' ∧ fibers s' = fibers s ∧ cancelled s' = cancelled s.
Proof.
  intros Hst [a Ha]. assert (∃ ns, a = Tick ns) as [ns ->].
  { destruct a as [f|f|f|ns]; [exfalso..|by eauto]; destruct (stuck_not_live s Hst); exists f; eauto. }
  simpl in Ha. simplify_eq. split_and!; [|done..]. intros f fb Hf. destruct (Hst f fb Hf) as (Hr & Hs & Hw).
  split_and!; [by apply act_tick..|done].
Qed.

Lemma stuck_forever s s' : stuck s → rtc step s s' → stuck s' ∧ fibers s' = fibers s.
Proof.
  intros Hst Hs. induction Hs as [s|s1 s2 s3 Hs _ IH]; [done|].
  destruct (stuck_step s1 s2 Hst Hs) as (Hst2 & <- & _). by apply IH.
Qed.

(** A fiber that sleeps on thread 1; on thread 2 a fiber that stops it, and one
    that sleeps with the same token. *)
Definition shared_thread : gmap positive (positive * list call) :=
  {[ 1%positive := (1%positive, [SleepFor (3600 * 1000000) true]);
     2%positive := (2%positive, [Stop]);
     3%positive := (2%positive, [SleepFor (3600 * 1000000) true]) ]}.

(** [Stop] finds the mutex of the sleeper taken and is suspended with the spin
    lock of the state; its thread runs the other fiber, which spins. *)
Definition blocking_run : list action :=
  [Schedule 1; Run 1; Run 1; Run 1; Run 1;
   Schedule 2; Run 2; Run 2; Run 2; Run 2;
   Schedule 3; Run 3;
   Run 1; Run 1; Tick 4000000000000; Expire 1; Schedule 1; Run 1; Run 1; Run 1]%positive.

(** [Stop] in the callback of the sleeper, which waits. *)
Lemma sleep_callbacks_are_safe_witness :
  ∃ s fb, reachable shared_thread s ∧ fibers s !! 2%positive = Some fb ∧ at_pc fb = CallSet 1 ∧
    ∃ hb, fibers s !! 1%positive = Some hb ∧ registered (at_pc hb) = true ∧ has_state hb = true ∧ 1%positive ≠ 2%positive.
Proof.
  set (actions := [Schedule 1; Run 1; Run 1; Run 1; Run 1; Run 1; Run 1;
                   Schedule 2; Run 2; Run 2; Run 2; Run 2]%positive).
  destruct (run_actions actions (initial shared_thread)) as [s|] eqn:Hs; [|by vm_compute in Hs].
  assert (Hr : reachable shared_thread s) by (eapply run_actions_reachable; [apply rtc_refl|exact Hs]).
  destruct (fibers s !! 2%positive) as [fb|] eqn:Hf; [|vm_compute in Hs; injection Hs as <-; by vm_compute in Hf].
  assert (Hp : at_pc fb = CallSet 1).
  { vm_compute in Hs. injection Hs as <-. vm_compute in Hf. by injection Hf as <-. }
  exists s, fb. split_and!; [done..|].
  destruct (sleep_callbacks_are_safe shared_thread s Hr) as (_ & _ & Hcall & _).
  apply (Hcall 2%positive fb 1%positive Hf). by rewrite Hp.
Defined.


(** The spin lock of a stop state is held while callbacks run, and the callback
    of [SleepUntil] waits for a fiber mutex, so a fiber in [Stop] can be
    suspended with the spin lock. When its thread then runs another fiber that
    needs the lock, both threads spin for ever: a stop was requested, no fiber
    finishes, and no step but the passing of time is possible, now and later. *)
Theorem stop_blocks_shared_thread :
  ∃ s, reachable shared_thread s ∧ cancelled s = true ∧
    ∀ s', rtc step s s' → ¬ live s' ∧ map_Forall (λ _ fb, at_pc fb ≠ Finished) (fibers s').
Proof.
  assert (Hb : match run_actions blocking_run (initial shared_thread) with
               | Some s => bool_decide (stuck s ∧ cancelled s = true ∧
                                        map_Forall (λ _ fb, at_pc fb ≠ Finished) (fibers s))
               | None => false
               end = true) by (vm_compute; reflexivity).
  destruct (run_actions blocking_run (initial shared_thread)) as [s|] eqn:Hr; [|done].
  apply bool_decide_eq_true in Hb as (Hst & Hc & Hfin).
  assert (Hreach : reachable shared_thread s) by (eapply run_actions_reachable; [apply rtc_refl|exact Hr]).
  clear Hr. exists s. split_and!; [done|done|]. intros s' [Hst' ->]%(stuck_forever s s' Hst).
  split; [by apply stuck_not_live|done].
Qed.
