(* ===== verification/UnitTests.v ===== *)
(** * The unit tests of the repository, run on the model

    The bodies of the tests of [Result] (src/util/ut/result.cpp) and of
    cancellation (src/runtime/util/cancellation/ut), translated statement by
    statement. A test returns the values of its [EXPECT]s; it passes if it ends
    and all of them are true. That they pass says that the model agrees with the
    code on everything these tests pin down. *)

From S2P Require Import Prelude.
From S2P Require Import Result.
From S2P Require Import Cancellation.
Open Scope Z_scope.

(** [EXPECT_*] does not end the test. *)
Definition test : Type := outcome (list bool).

Definition passes (t : test) : bool :=
  match t with
  | Done expectations => forallb id expectations
  | _ => false
  end.

Definition EXPECT_EQ {A} `{EqDecision A} (a b : A) : bool := bool_decide (a = b).
Definition EXPECT_FALSE (b : bool) : bool := negb b.
Definition EXPECT_THROW {A} (exc : option A) : bool := match exc with Some _ => true | None => false end.
Definition EXPECT_NO_THROW {A} (exc : option A) : bool := negb (EXPECT_THROW exc).

(** ** src/util/ut/result.cpp *)
Module ResultTests.

Record SimpleErr : Type := MkSimpleErr { err_val : Z }.

Definition plain_traits {E} : ErrorTraits E := {|
  has_message := None; convertible_to_string := None;
  base_of_exception := false; base_of_error_code := false; is_exception_ptr := false;
|}.
#[local] Instance SimpleErr_traits : ErrorTraits SimpleErr := plain_traits.
#[local] Instance int_traits : ErrorTraits Z := plain_traits.
#[local] Instance string_traits : ErrorTraits string := {|
  has_message := None; convertible_to_string := Some id;
  base_of_exception := false; base_of_error_code := false; is_exception_ptr := false;
|}.

(** Whether [ValueOrThrow] throws. *)
Definition thrown_by {T E} (r : T + thrown E) : option (thrown E) :=
  match r with inl _ => None | inr exc => Some exc end.

Definition SimpleOk : test :=
  let result : Result Z SimpleErr := Ok 1 in
  value ← GetValue result;
  Done [HasValue result; EXPECT_FALSE (HasError result); EXPECT_NO_THROW (thrown_by (ValueOrThrow result));
        EXPECT_NO_THROW (ThrowIfError result); EXPECT_EQ value 1].

Definition SimpleErrTest : test :=
  let result : Result Z SimpleErr := Err (MkSimpleErr 1) in
  error ← GetError result;
  Done [HasError result; EXPECT_FALSE (HasValue result); EXPECT_THROW (thrown_by (ValueOrThrow result));
        EXPECT_THROW (ThrowIfError result); EXPECT_EQ (err_val error) 1].

Definition OnlyMovable : test :=
  let result1 : Result Z SimpleErr := Ok 1 in
  let result2 := result1 in
  value ← GetValue result2; Done [EXPECT_EQ value 1].

Definition CopyableAndAssignable : test :=
  let result1 : Result Z SimpleErr := Ok 1 in
  let result2 := result1 in
  let result3 := result1 in
  value2 ← GetValue result2;
  value3 ← GetValue result3;
  Done [EXPECT_EQ value2 1; EXPECT_EQ value3 1; EXPECT_NO_THROW (ThrowIfError result3)].

Definition SameType : test :=
  value ← GetValue (Ok 1 : Result Z Z);
  error ← GetError (Err 1 : Result Z Z);
  Done [EXPECT_EQ value 1; EXPECT_EQ error 1].

(** [std::error_code], by its message. *)
Record error_code : Type := MkErrorCode { code_message : string }.
#[local] Instance error_code_traits : ErrorTraits error_code := {|
  has_message := None; convertible_to_string := None;
  base_of_exception := false; base_of_error_code := true; is_exception_ptr := false;
|}.

Definition ThrowsStdError : test :=
  let result : Status error_code := Err (MkErrorCode "No route to host") in
  Done [match ThrowIfError result with
        | Some (SystemError e) => EXPECT_EQ (code_message e) "No route to host"
        | _ => false
        end].

(** [std::exception_ptr], by the message of its [std::runtime_error]. *)
Record exception_ptr : Type := MkExceptionPtr { exc_what : string }.
#[local] Instance exception_ptr_traits : ErrorTraits exception_ptr := {|
  has_message := None; convertible_to_string := None;
  base_of_exception := false; base_of_error_code := false; is_exception_ptr := true;
|}.

Definition RethowsError : test :=
  let result : Status exception_ptr := Err (MkExceptionPtr "test exception") in
  Done [match ThrowIfError result with
        | Some (Rethrown e) => EXPECT_EQ (exc_what e) "test exception"
        | _ => false
        end].

(** A callback that must not run marks its result. *)
Definition AndThenTest : test :=
  value ← GetValue (AndThen (Ok 1 : Result Z string) (λ v, Ok (v + 1)));
  error ← GetError (AndThen (Ok 0 : Result Z string) (λ _, Err "abc" : Result Z string));
  error' ← GetError (AndThen (Err "abc" : Result Z string) (λ _, Err "ADD_FAILURE" : Result Z string));
  Done [EXPECT_EQ value 2; EXPECT_EQ error "abc"; EXPECT_EQ error' "abc"].

Definition OrElseTest : test :=
  let res1 : Result string Z := Err 1 in
  let res2 : Result string Z :=
    OrElse (AndThen res1 (λ _, Ok "ADD_FAILURE" : Result string Z)) (λ error, Err (error + 1)) in
  error ← GetError res2; Done [EXPECT_EQ error 2].

Definition TransformTest : test :=
  let res1 : Result Z string := Ok 1 in
  let res2 : Result Z Z :=
    TransformError (Transform (Transform res1 (λ val, val + 1)) (λ val, val + 1)) (λ _, 0) in
  value ← GetValue res2; Done [EXPECT_EQ value 3].

Definition TransformErrorTest : test :=
  let res1 : Result string Z := Err 1 in
  let res2 : Result Z Z :=
    Transform (TransformError (TransformError res1 (λ val, val + 1)) (λ val, val + 1)) (λ _, 0) in
  error ← GetError res2; Done [EXPECT_EQ error 3].

Definition all : list test :=
  [SimpleOk; SimpleErrTest; OnlyMovable; CopyableAndAssignable; SameType; ThrowsStdError; RethowsError;
   AndThenTest; OrElseTest; TransformTest; TransformErrorTest].
End ResultTests.

(** ** src/runtime/util/cancellation/ut *)
Module CancellationTests.
Import Callbacks.

(** The callbacks of these tests count their runs. *)
Definition count_run (_ : ptr) (run_cnt : Z) : Z := run_cnt + 1.

Definition source {X} (x : X) : StopState := MkStopState None false ∅ x.

(** [Stop] with fuel for the callbacks that a test registers. *)
Definition stop {X} (callback : ptr → X → X) (s : StopState) : outcome StopState :=
  match Stop callback 10 s with
  | Some o => o
  | None => Undefined "out of fuel"
  end.

Definition register (cb : ptr) (s : StopState) : outcome StopState := StopCallback_new count_run cb s.

Definition SimplyWorks : test :=
  s ← register 1%positive (source 0);
  let before := world s in
  s ← stop count_run s;
  s ← stop count_run s;
  Done [EXPECT_EQ before 0; EXPECT_EQ (world s) 1].

Definition CallbackAfterCancel : test :=
  s ← stop count_run (source 0);
  s ← register 1%positive s;
  Done [EXPECT_EQ (world s) 1].

Definition MultipleCallbacks : test :=
  s ← for_each [1; 2; 3; 4; 5; 6; 7]%positive register (source 0);
  let before := world s in
  s ← stop count_run s;
  Done [EXPECT_EQ before 0; EXPECT_EQ (world s) 7].

(** The inner block destroys [cb3] and then [cb2]. *)
Definition CallbackDeregisters : test :=
  s ← for_each [1; 2; 3]%positive register (source 0);
  s ← StopCallback_destroy 3%positive s;
  s ← StopCallback_destroy 2%positive s;
  s ← register 4%positive s;
  let before := world s in
  s ← stop count_run s;
  Done [EXPECT_EQ before 0; EXPECT_EQ (world s) 2].

(** The callback of [source1] stops [source2], which is its world. *)
Definition CancelForward : test :=
  let forward (_ : ptr) (source2 : outcome (StopState (X := Z))) := source2 ≫= stop count_run in
  source1 ← StopCallback_new forward 1%positive (source (Done (source 0)));
  source2 ← world source1;
  source2 ← register 2%positive source2;
  let before := world source2 in
  let source1 := MkStopState (callbacks source1) (cancelled source1) (nodes source1) (Done source2) in
  source1 ← stop forward source1;
  source2 ← world source1;
  Done [EXPECT_EQ before 0; EXPECT_EQ (world source2) 1].

Import Handles.
#[local] Open Scope positive_scope.

(** Objects: the source is 1, the tokens 2 and 3, the temporary source 4. *)
Definition SourceMove : test :=
  h ← StopSource_new 1 1 empty_heap;
  h ← StopToken_from 1 2 h;
  h ← StopToken_from 1 3 h;
  h ← StopSource_new 4 2 h;
  h ← swap 1 4 h;
  h ← destroy 4 h;
  h ← destroy 3 h;
  h ← destroy 2 h;
  h ← destroy 1 h;
  Done [EXPECT_EQ (size (states h)) 0%nat].

Definition TokenStopRequested : test :=
  h ← StopSource_new 1 1 empty_heap;
  h ← StopToken_from 1 2 h;
  h ← StopToken_from 2 3 h;
  b1 ← StopToken_StopRequested 2 h;
  b2 ← StopToken_StopRequested 3 h;
  h ← StopSource_cancel 1 h;
  h ← StopToken_from 1 4 h;
  b3 ← StopToken_StopRequested 4 h;
  h ← destroy 4 h;
  b4 ← StopToken_StopRequested 2 h;
  b5 ← StopToken_StopRequested 3 h;
  h ← destroy 3 h;
  h ← destroy 2 h;
  h ← destroy 1 h;
  Done [EXPECT_FALSE b1; EXPECT_FALSE b2; b3; b4; b5; EXPECT_EQ (size (states h)) 0%nat].

Definition all : list test :=
  [SimplyWorks; CallbackAfterCancel; MultipleCallbacks; CallbackDeregisters; CancelForward; SourceMove;
   TokenStopRequested].
End CancellationTests.

(** The unit tests of [Result] and of cancellation pass on the model, in the
    order of the files. *)
Theorem unit_tests_pass :
  forallb passes (ResultTests.all ++ CancellationTests.all) = true.
Proof. vm_compute. reflexivity. Qed.
