(* ===== verification/ProdDatabaseTests.v ===== *)
(** * The unit tests of the production database

    src/runtime/production/ut/database.cpp, translated statement by statement,
    on the adapter of ProdDatabase.v over a RocksDB that is a parameter. The
    theorem is that the tests pass on every RocksDB that keeps its documented
    promises ([RocksDBLaws], [RocksOpenLaws]), if the databases do not exist
    before. *)

From stdpp Require Import sorting.
From S2P Require Import Prelude.
From S2P Require Import Result.
From S2P Require Import RtTypes.
From S2P Require Import KVInterface.
From S2P Require Import Serde.
From S2P Require Import IDatabase.
From S2P Require Import KVStorage.
From S2P Require Import ProdDatabase.
From S2P Require Import UnitTests.

Local Open Scope Z_scope.

(** [kv::Open] on the production database. *)
Definition kv_Open {R : RocksDB} `{CSerde K} (Cmp : K → K → bool) (type_name path : string) (options : Options)
    (files : rocks_files) : outcome (Result Database DBError * rocks_files) :=
  verify (match opt_comparator options with None => true | Some _ => false end)
    "KVStorage user-defined comparator are not allowed";;
  let options := MkOptions (Some (Comparator Cmp type_name)) (create_if_missing options) in
  '(db, files) ← ProdDatabase.Open path options files;
  Done (match db with
        | Err e => Err e
        | Ok handle => Ok handle
        end, files).

Module ProductionDatabase.
Section tests.
Context {R : RocksDB} (type_name : string) (files : rocks_files).

Abbreviation open cmp path create := (kv_Open cmp type_name path (MkOptions None create)).

Definition SimplyWorks : test :=
  '(maybe_kv, _) ← open Z.ltb "/tmp/testing_simply_works" true files;
  kv ← GetValue maybe_kv;
  r1 ← KVStorage.Get (V := Z) 42 kv;
  r2 ← KVStorage.Get (V := Z) 42 kv; e2 ← GetError r2;
  '(put, kv) ← KVStorage.Put 42 24 kv; ExpectOk put;;
  r3 ← KVStorage.Get 42 kv; v3 ← GetValue r3;
  '(del, kv) ← KVStorage.Delete 42 kv; ExpectOk del;;
  r4 ← KVStorage.Get (V := Z) 42 kv;
  Done [HasError r1; EXPECT_EQ (db_error_type e2) DBNotFound; EXPECT_EQ v3 24; HasError r4].

Definition MissingDb : test :=
  '(kv, _) ← open Z.ltb "/tmp/testing_missing_db" false files;
  e ← GetError kv;
  Done [EXPECT_EQ (db_error_type e) DBInvalidArgument].

Definition DeleteRangeTest : test :=
  '(maybe_kv, _) ← open Z.ltb "/tmp/testing_delete_range" true files;
  kv ← GetValue maybe_kv;
  '(put, kv) ← KVStorage.Put 42 24 kv; ExpectOk put;;
  r1 ← KVStorage.Get 42 kv; v1 ← GetValue r1;
  '(del, kv) ← KVStorage.DeleteRange 42 43 kv; ExpectOk del;;
  r2 ← KVStorage.Get (V := Z) 42 kv;
  '(put, kv) ← KVStorage.Put 43 24 kv; ExpectOk put;;
  '(del, kv) ← KVStorage.DeleteRange 42 43 kv; ExpectOk del;;
  r3 ← KVStorage.Get 43 kv; v3 ← GetValue r3;
  Done [EXPECT_EQ v1 24; HasError r2; EXPECT_EQ v3 24].

(** The loop over the iterator; the last [Next] leaves it at the end. *)
Definition check_entry (index : Z) (s : list bool * rocks_iterator) : outcome (list bool * rocks_iterator) :=
  let '(expectations, iterator) := s in
  valid ← KVStorage.Iterator_Valid iterator;
  key ← KVStorage.Iterator_GetKey (K := Z) iterator;
  value ← KVStorage.Iterator_GetValue (V := Z) iterator;
  iterator ← KVStorage.Iterator_Next iterator;
  Done (expectations ++ [valid; EXPECT_EQ key index; EXPECT_EQ value (index + 200)], iterator).

Definition IteratorTest : test :=
  '(maybe_kv, _) ← open Z.ltb "/tmp/testing_iterator" true files;
  kv ← GetValue maybe_kv;
  kv ← for_each (range 0 200) (λ index kv,
         '(put, kv) ← KVStorage.Put index (index + 200) kv; ExpectOk put;; Done kv) kv;
  let iterator := KVStorage.Iterator_SeekToFirst (KVStorage.NewIterator kv) in
  kv ← for_each (range 50 100) (λ index kv, '(del, kv) ← KVStorage.Delete index kv; ExpectOk del;; Done kv) kv;
  '(expectations, iterator) ← for_each (range 0 200) check_entry ([], iterator);
  valid ← KVStorage.Iterator_Valid iterator;
  '(del, kv) ← KVStorage.DeleteRange 0 200 kv; ExpectOk del;;
  Done (expectations ++ [EXPECT_FALSE valid]).

Definition OpenDatabaseTwice : test :=
  '(kv1, files) ← open Z.ltb "/tmp/testing_open_database_twice" true files;
  _ ← GetValue kv1;
  '(kv2, _) ← open Z.ltb "/tmp/testing_open_database_twice" true files;
  e ← GetError kv2;
  Done [EXPECT_EQ (db_error_type e) DBInternal].

Definition check_string_entry (e : string * Z) (s : list bool * rocks_iterator)
    : outcome (list bool * rocks_iterator) :=
  let '(expectations, iterator) := s in
  valid ← KVStorage.Iterator_Valid iterator;
  key ← KVStorage.Iterator_GetKey (K := string) iterator;
  value ← KVStorage.Iterator_GetValue (V := Z) iterator;
  iterator ← KVStorage.Iterator_Next iterator;
  Done (expectations ++ [valid; EXPECT_EQ key e.1; EXPECT_EQ value e.2], iterator).

Definition StringSerdeTest : test :=
  '(maybe_kv, _) ← open String.ltb "/tmp/testing_string_serde" true files;
  kv ← GetValue maybe_kv;
  '(put, kv) ← KVStorage.Put "bbb" 2 kv; ExpectOk put;;
  '(put, kv) ← KVStorage.Put "aaa" 1 kv; ExpectOk put;;
  '(put, kv) ← KVStorage.Put "ccc" 3 kv; ExpectOk put;;
  let iterator := KVStorage.Iterator_SeekToFirst (KVStorage.NewIterator kv) in
  '(expectations, iterator) ← for_each [("aaa", 1); ("bbb", 2); ("ccc", 3)] check_string_entry ([], iterator);
  valid ← KVStorage.Iterator_Valid iterator;
  Done (expectations ++ [EXPECT_FALSE valid]).

Definition WriteBatchTest : test :=
  '(maybe_kv, _) ← open Z.ltb "/tmp/testing_write_batch" true files;
  kv ← GetValue maybe_kv;
  r ← KVStorage.Get (V := Z) 42 kv; ExpectFail r;;
  r ← KVStorage.Get (V := Z) 43 kv; ExpectFail r;;
  '(put, kv) ← KVStorage.Put 0 0 kv; ExpectOk put;;
  '(put, kv) ← KVStorage.Put 1 1 kv; ExpectOk put;;
  '(put, kv) ← KVStorage.Put 101 101 kv; ExpectOk put;;
  let write_batch := KVStorage.MakeWriteBatch (DB := Database) in
  '(put, write_batch) ← KVStorage.WriteBatch_Put 42 42 write_batch; ExpectOk put;;
  '(put, write_batch) ← KVStorage.WriteBatch_Put 43 43 write_batch; ExpectOk put;;
  '(del, write_batch) ← KVStorage.WriteBatch_DeleteRange 0 2 write_batch; ExpectOk del;;
  '(del, write_batch) ← KVStorage.WriteBatch_Delete 101 write_batch; ExpectOk del;;
  '(written, kv) ← KVStorage.Write write_batch kv; ExpectOk written;;
  r1 ← KVStorage.Get 42 kv; v1 ← GetValue r1;
  r2 ← KVStorage.Get 43 kv; v2 ← GetValue r2;
  r ← KVStorage.Get (V := Z) 0 kv; ExpectFail r;;
  r ← KVStorage.Get (V := Z) 1 kv; ExpectFail r;;
  r ← KVStorage.Get (V := Z) 101 kv; ExpectFail r;;
  '(del, kv) ← KVStorage.Delete 42 kv; ExpectOk del;;
  '(del, kv) ← KVStorage.Delete 43 kv; ExpectOk del;;
  Done [EXPECT_EQ v1 42; EXPECT_EQ v2 43].
End tests.
End ProductionDatabase.

(** ** The tests pass *)

Section opening.
Context {K : Type} `{Countable K} {KeySerde : CSerde K} `{!SerdeLaws K} (Cmp : K → K → bool) (lt : relation K)
  `{!RelDecision lt} `{!KeyOrder Cmp lt} (type_name : string).
Context {R : RocksDB} `{!RocksDBLaws R (Comparator Cmp type_name)} `{!RocksOpenLaws R (Comparator Cmp type_name)}.

Abbreviation holds_map := (kv_holds (V := Z) (S := prod_store Cmp lt type_name) lt).

(** A new storage is empty. *)
Lemma kv_Open_new path files :
  rocks_exists files path = false →
  ∃ db files', kv_Open Cmp type_name path (MkOptions None true) files = Done (Ok db, files') ∧
    holds_map ∅ db ∧ rocks_opened files' path = true.
Proof.
  intros Hp. destruct (rocks_Open_new path files Hp) as (s & r & files' & Hopen & Hs & Hview & Ho).
  unfold kv_Open, Open. cbn [opt_comparator create_if_missing]. rewrite (bind_Done_eq ()), Hopen.
  rewrite Hs, bind_Done_eq. unfold ok, IsInvalidArgument in *. destruct (status_code s); try done.
  eexists _, _. split_and!; [done| |done]. split; [|apply map_Forall_empty]. split; simpl.
  - intros k [v Hk]. by rewrite lookup_empty in Hk.
  - intros d e. rewrite Hview, lookup_empty. split; [done|]. intros (k & v & Hk & _). by rewrite lookup_empty in Hk.
Qed.

Lemma kv_Open_missing path files :
  rocks_exists files path = false →
  ∃ msg files', kv_Open Cmp type_name path (MkOptions None false) files =
    Done (Err (MkDBError DBInvalidArgument msg), files').
Proof.
  intros Hp. pose proof (rocks_Open_missing path files Hp) as Hs. unfold kv_Open, Open.
  cbn [opt_comparator create_if_missing]. rewrite (bind_Done_eq ()).
  destruct (rocks_Open _ _ _ _) as [[s r] files']. simpl in Hs. rewrite Hs, bind_Done_eq. by eexists _, _.
Qed.

Lemma kv_Open_again path create files :
  rocks_opened files path = true →
  ∃ msg files', kv_Open Cmp type_name path (MkOptions None create) files =
    Done (Err (MkDBError DBInternal msg), files').
Proof.
  intros Hp. pose proof (rocks_Open_again create path files Hp) as Hs. unfold kv_Open, Open.
  cbn [opt_comparator create_if_missing]. rewrite (bind_Done_eq ()).
  destruct (rocks_Open _ _ _ _) as [[s r] files']. simpl in Hs. unfold IsInvalidArgument, ok.
  rewrite Hs, bind_Done_eq. by eexists _, _.
Qed.
End opening.

(** Iteration over a storage whose map is known: the entries are determined, and
    each step reads the next one. *)
Section iteration.
Context {K : Type} `{Countable K} {KeySerde : CSerde K} `{!SerdeLaws K} (lt : relation K)
  `{!RelDecision lt} `{!StrictOrder lt} {DB : Type} `{!IDatabase DB} {S : Store (V := Z) lt valid bytes bytes DB}.

Lemma lists_map_unique (m : gmap K Z) l1 l2 : lists_map lt m l1 → lists_map lt m l2 → l1 = l2.
Proof.
  assert (Hsort : ∀ l : list (K * Z), StronglySorted lt l.*1 → StronglySorted (λ a b, lt a.1 b.1) l).
  { induction l as [|[k v] l IH]; csimpl; [constructor|]. intros [Hall Hs]%StronglySorted_cons.
    apply StronglySorted_cons. split; [|auto]. by rewrite Forall_fmap in Hall. }
  intros [Hs1 He1] [Hs2 He2]. assert (AntiSymm (=) (λ a b : K * Z, lt a.1 b.1)).
  { intros a b Hab Hba. exfalso. apply (irreflexivity lt a.1). by etrans. }
  apply (StronglySorted_unique (λ a b, lt a.1 b.1)); [by apply Hsort..|].
  apply NoDup_Permutation; [by eapply NoDup_fmap_1, (strictly_sorted_NoDup lt)..|].
  intros [k v]. by rewrite He1, He2.
Qed.

Lemma entry_at (kvs : list (K * Z)) i it k v :
  stands_at kvs i it → kvs !! i = Some (k, v) → valid k → valid v →
  KVStorage.Iterator_Valid it = Done true ∧ KVStorage.Iterator_GetKey it = Done k ∧
  KVStorage.Iterator_GetValue it = Done v ∧
  ∃ it', KVStorage.Iterator_Next it = Done it' ∧ stands_at kvs (Datatypes.S i) it'.
Proof.
  intros Hat Hkv Hk Hv. pose proof (lookup_lt_Some _ _ _ Hkv).
  destruct (store_entry _ _ _ _ _ Hat Hkv) as [Hgk Hgv]. destruct (store_Next _ _ _ _ Hat Hkv) as (it' & Hn & Hat').
  unfold KVStorage.Iterator_Valid, KVStorage.Iterator_GetKey, KVStorage.Iterator_GetValue, KVStorage.Iterator_Next.
  rewrite (store_Valid _ _ _ Hat) by lia. rewrite bool_decide_eq_true_2 by eauto.
  rewrite Hgk, Hgv, !bind_Done_eq, !Deserialize_bytes by done. split_and!; [done..|]. by exists it'.
Qed.

Lemma past_last (kvs : list (K * Z)) it : stands_at kvs (length kvs) it → KVStorage.Iterator_Valid it = Done false.
Proof.
  intros Hat. unfold KVStorage.Iterator_Valid. rewrite (store_Valid _ _ _ Hat) by lia.
  by rewrite bool_decide_eq_false_2 by (rewrite lookup_lt_is_Some; lia).
Qed.

(** The iterator at the first entry of a storage. *)
Lemma first_of (m : gmap K Z) db kvs :
  kv_holds lt m db → lists_map lt m kvs →
  stands_at kvs 0 (KVStorage.Iterator_SeekToFirst (KVStorage.NewIterator db)).
Proof.
  intros [Hdb _] Hl. destruct (store_NewIterator m db Hdb) as (kvs' & Hl' & Hat & _).
  by rewrite (lists_map_unique m kvs kvs').
Qed.

(** A loop whose body checks the entry of the iterator and moves it. *)
Lemma check_loop {X} (entry : X → K * Z) (body : X → list bool * IIterator → outcome (list bool * IIterator))
    kvs i it xs acc :
  (∀ x acc it it', KVStorage.Iterator_Valid it = Done true → KVStorage.Iterator_GetKey it = Done (entry x).1 →
     KVStorage.Iterator_GetValue it = Done (entry x).2 → KVStorage.Iterator_Next it = Done it' →
     ∃ bs, body x (acc, it) = Done (acc ++ bs, it') ∧ forallb id bs = true) →
  Forall (λ x, valid (entry x).1 ∧ valid (entry x).2) xs → stands_at kvs i it → drop i kvs = entry <$> xs →
  ∃ bs it', for_each xs body (acc, it) = Done (acc ++ bs, it') ∧ forallb id bs = true ∧
    stands_at kvs (i + length xs) it'.
Proof.
  intros Hbody Hxs. revert i it acc. induction Hxs as [|x xs [Hx Hv] _ IH]; intros i it acc Hat Hd.
  { exists [], it. by rewrite app_nil_r, Nat.add_0_r. }
  assert (Hkv : kvs !! i = Some ((entry x).1, (entry x).2)).
  { rewrite <-(Nat.add_0_r i), <-lookup_drop, Hd. simpl. by destruct (entry x). }
  destruct (entry_at kvs i it _ _ Hat Hkv Hx Hv) as (Hval & Hk & Hvl & it1 & Hn & Hat1).
  destruct (Hbody x acc it it1 Hval Hk Hvl Hn) as (bs1 & Hb1 & Hbs1). simpl. rewrite Hb1, bind_Done_eq.
  destruct (IH (Datatypes.S i) it1 (acc ++ bs1) Hat1) as (bs & it' & -> & Hbs & Hat').
  { rewrite <-Nat.add_1_r, <-drop_drop, Hd. done. }
  exists (bs1 ++ bs), it'. split_and!.
  - by rewrite <-(assoc_L (++)).
  - by rewrite forallb_app, Hbs1, Hbs.
  - by rewrite Nat.add_succ_r.
Qed.
End iteration.

(** Evaluation up to the next operation on the storage. *)
Ltac run :=
  cbn -[KVStorage.Get KVStorage.Put KVStorage.Delete KVStorage.DeleteRange KVStorage.Write KVStorage.WriteBatch_Put
        KVStorage.WriteBatch_Delete KVStorage.WriteBatch_DeleteRange KVStorage.MakeWriteBatch kv_Open kv_Put kv_Delete
        delete_range for_each range KVStorage.NewIterator passes KVStorage.Iterator_Valid EXPECT_EQ EXPECT_FALSE
        ProductionDatabase.check_entry ProductionDatabase.check_string_entry KVStorage.Iterator_SeekToFirst].

(** The result of a loop, where the type of the iterator is unfolded. *)
Ltac run_loop Hrun :=
  match goal with
  | |- context [@for_each ?A ?S ?xs ?body ?s] => rewrite (Hrun : @for_each A S xs body s = _), bind_Done_eq
  end.

(** One operation of a test on a storage that holds a known map. *)
Ltac known_map lt Hdb :=
  match type of Hdb with
  | kv_holds _ ?m ?db =>
      match goal with
      | |- context [KVStorage.Get ?k db] =>
          rewrite (kv_Get_refines lt m db k Hdb) by (by vm_compute);
          let r := eval vm_compute in (kv_Get m k) in
          change (kv_Get m k) with r
      | |- context [KVStorage.Put ?k ?v db] =>
          let db' := fresh "db" in let Hdb' := fresh "Hdb" in
          destruct (kv_Put_refines lt m db k v Hdb) as (db' & -> & Hdb'); [by vm_compute..|];
          clear Hdb; rename Hdb' into Hdb
      | |- context [KVStorage.Delete ?k db] =>
          let db' := fresh "db" in let Hdb' := fresh "Hdb" in
          destruct (kv_Delete_refines lt m db k Hdb) as (db' & -> & Hdb'); [by vm_compute..|];
          clear Hdb; rename Hdb' into Hdb
      | |- context [KVStorage.DeleteRange ?lo ?hi db] =>
          let db' := fresh "db" in let Hdb' := fresh "Hdb" in
          destruct (kv_DeleteRange_refines lt m db lo hi Hdb) as (db' & -> & Hdb'); [by vm_compute..|];
          clear Hdb; rename Hdb' into Hdb
      end
  end; run.

Section passing.
Context (type_name : string) {R : RocksDB} `{!RocksDBLaws R (Comparator Z.ltb type_name)}
  `{!RocksOpenLaws R (Comparator Z.ltb type_name)}.

Lemma SimplyWorks_passes files :
  rocks_exists files "/tmp/testing_simply_works" = false → passes (ProductionDatabase.SimplyWorks type_name files) = true.
Proof.
  intros Hp. unfold ProductionDatabase.SimplyWorks.
  destruct (kv_Open_new Z.ltb Z.lt type_name _ _ Hp) as (db & files' & -> & Hdb & _). run.
  repeat known_map Z.lt Hdb. vm_compute. reflexivity.
Qed.

Lemma MissingDb_passes files :
  rocks_exists files "/tmp/testing_missing_db" = false → passes (ProductionDatabase.MissingDb type_name files) = true.
Proof.
  intros Hp. unfold ProductionDatabase.MissingDb.
  by destruct (kv_Open_missing Z.ltb type_name _ _ Hp) as (msg & files' & ->).
Qed.

Lemma DeleteRange_passes files :
  rocks_exists files "/tmp/testing_delete_range" = false → passes (ProductionDatabase.DeleteRangeTest type_name files) = true.
Proof.
  intros Hp. unfold ProductionDatabase.DeleteRangeTest.
  destruct (kv_Open_new Z.ltb Z.lt type_name _ _ Hp) as (db & files' & -> & Hdb & _). run.
  repeat known_map Z.lt Hdb. vm_compute. reflexivity.
Qed.

Lemma OpenDatabaseTwice_passes files :
  rocks_exists files "/tmp/testing_open_database_twice" = false →
  passes (ProductionDatabase.OpenDatabaseTwice type_name files) = true.
Proof.
  intros Hp. unfold ProductionDatabase.OpenDatabaseTwice.
  destruct (kv_Open_new Z.ltb Z.lt type_name _ _ Hp) as (db & files' & -> & _ & Ho). run.
  by destruct (kv_Open_again Z.ltb type_name _ true _ Ho) as (msg & files2 & ->).
Qed.

Abbreviation storage := (prod_store (V := Z) Z.ltb Z.lt type_name).

(** A command added to a batch of the storage. *)
Definition add (c : batch_command Z) (b : rocks_batch) : outcome (Status DBError * rocks_batch) :=
  match c with
  | BatchPut key value => KVStorage.WriteBatch_Put key value b
  | BatchDeleteRange lo hi => KVStorage.WriteBatch_DeleteRange (DB := Database) lo hi b
  | BatchDelete key => KVStorage.WriteBatch_Delete (DB := Database) key b
  end.

Definition batch_of (cs : list (batch_command Z)) (b : rocks_batch) : Prop :=
  collects (Store := storage) (as_store_command <$> cs) b ∧ Forall valid_command cs.

Lemma batch_add c cs b :
  valid_command c → batch_of cs b → ∃ b', add c b = Done (Ok (), b') ∧ batch_of (cs ++ [c]) b'.
Proof.
  intros Hc [Hb Hcs]. unfold batch_of. rewrite fmap_app.
  assert (Forall valid_command (cs ++ [c])) by (by apply Forall_app_2; [|apply Forall_singleton]).
  unfold add, KVStorage.WriteBatch_Put, KVStorage.WriteBatch_DeleteRange, KVStorage.WriteBatch_Delete.
  destruct c as [k v|lo hi|k]; cbn [valid_command as_store_command] in *; destruct_and?;
    rewrite !Serialize_bytes, ?bind_Done_eq by done.
  - destruct (store_batch_Put (Store := storage) _ b k v Hb) as (b' & -> & ?); [done|]. by exists b'.
  - destruct (store_batch_DeleteRange (Store := storage) _ b lo hi Hb) as (b' & -> & ?); [done|done|lia|]. by exists b'.
  - destruct (store_batch_Delete (Store := storage) _ b k Hb) as (b' & -> & ?); [done|]. by exists b'.
Qed.

Lemma batch_write cs b m db :
  kv_holds (S := storage) Z.lt m db → batch_of cs b →
  ∃ db', KVStorage.Write b db = Done (Ok (), db') ∧
    kv_holds (S := storage) Z.lt (kv_Write cs m) db'.
Proof.
  intros [Hdb Hv] [Hb Hcs]. destruct (store_Write (Store := storage) _ b m db Hdb Hb) as (db' & Hw & Hdb').
  exists db'. split; [done|]. rewrite kv_Write_store in Hdb'. split; [done|by apply kv_Write_valid].
Qed.

(** One command of a test for a batch. *)
Ltac known_batch Hb :=
  let next c :=
    let b' := fresh "b" in let Hadd := fresh in let Hb' := fresh "Hb" in
    destruct (batch_add c _ _ ltac:(by vm_compute) Hb) as (b' & Hadd & Hb'); cbn [add] in Hadd; rewrite Hadd;
    clear Hb Hadd; rename Hb' into Hb; run in
  match type of Hb with
  | batch_of _ ?b =>
      match goal with
      | |- context [KVStorage.WriteBatch_Put ?k ?v b] => next (BatchPut k v)
      | |- context [KVStorage.WriteBatch_DeleteRange ?lo ?hi b] => next (BatchDeleteRange (V := Z) lo hi)
      | |- context [KVStorage.WriteBatch_Delete ?k b] => next (BatchDelete (V := Z) k)
      end
  end.

Lemma WriteBatch_passes files :
  rocks_exists files "/tmp/testing_write_batch" = false → passes (ProductionDatabase.WriteBatchTest type_name files) = true.
Proof.
  intros Hp. unfold ProductionDatabase.WriteBatchTest.
  destruct (kv_Open_new Z.ltb Z.lt type_name _ _ Hp) as (db & files' & -> & Hdb & _). run.
  repeat known_map Z.lt Hdb.
  assert (Hb : batch_of [] (KVStorage.MakeWriteBatch (DB := Database))) by (split; [apply (store_MakeWriteBatch (Store := storage))|done]).
  repeat known_batch Hb.
  destruct (batch_write _ _ _ _ Hdb Hb) as (db' & -> & Hdb'). clear Hdb Hb. run.
  repeat known_map Z.lt Hdb'. vm_compute. reflexivity.
Qed.

(** *** The test of the iterators *)

Lemma puts xs m db :
  Forall (λ i, is_u64 i ∧ is_u64 (i + 200)) xs → kv_holds (S := storage) Z.lt m db →
  ∃ db', for_each xs (λ index kv, '(put, kv) ← KVStorage.Put index (index + 200) kv; ExpectOk put;; Done kv) db = Done db' ∧
    kv_holds (S := storage) Z.lt (foldl (λ m i, kv_Put i (i + 200) m) m xs) db'.
Proof.
  intros Hxs. revert m db. induction Hxs as [|i xs [Hi Hv] _ IH]; intros m db Hdb; simpl; [by eauto|].
  destruct (kv_Put_refines Z.lt m db i (i + 200) Hdb Hi Hv) as (db1 & -> & Hdb1). by apply IH.
Qed.

Lemma deletes xs m db :
  Forall is_u64 xs → kv_holds (S := storage) Z.lt m db →
  ∃ db', for_each xs (λ index kv, '(del, kv) ← KVStorage.Delete index kv; ExpectOk del;; Done kv) db = Done db' ∧
    kv_holds (S := storage) Z.lt (foldl (λ m i, kv_Delete i m) m xs) db'.
Proof.
  intros Hxs. revert m db. induction Hxs as [|i xs Hi _ IH]; intros m db Hdb; simpl; [by eauto|].
  destruct (kv_Delete_refines Z.lt m db i Hdb Hi) as (db1 & -> & Hdb1). by apply IH.
Qed.

Definition entry_of (i : Z) : Z * Z := (i, i + 200).

Lemma check_entry_passes (x : Z) acc (it it' : rocks_iterator) :
  KVStorage.Iterator_Valid it = Done true → KVStorage.Iterator_GetKey (K := Z) it = Done x →
  KVStorage.Iterator_GetValue (V := Z) it = Done (x + 200) → KVStorage.Iterator_Next it = Done it' →
  ∃ bs, ProductionDatabase.check_entry x (acc, it) = Done (acc ++ bs, it') ∧ forallb id bs = true.
Proof.
  intros Hval Hk Hv Hn. unfold ProductionDatabase.check_entry, EXPECT_EQ. rewrite Hval, bind_Done_eq, Hk, bind_Done_eq, Hv, bind_Done_eq, Hn.
  eexists. split; [done|]. simpl. by rewrite !bool_decide_eq_true_2.
Qed.

Definition two_hundred : gmap Z Z := foldl (λ m i, kv_Put i (i + 200) m) ∅ (range 0 200).

Lemma two_hundred_listed : lists_map Z.lt two_hundred (entry_of <$> range 0 200).
Proof.
  assert (Hk : (entry_of <$> range 0 200).*1 = range 0 200) by (vm_compute; reflexivity).
  assert (Hm : two_hundred = list_to_map (entry_of <$> range 0 200)) by (vm_compute; reflexivity).
  split.
  - rewrite Hk. apply Sorted_StronglySorted; [apply _|].
    apply (bool_decide_eq_true_1 _). vm_compute. reflexivity.
  - intros k v. rewrite Hm. apply elem_of_list_to_map. rewrite Hk. apply NoDup_seqZ.
Qed.

Lemma Iterator_passes files :
  rocks_exists files "/tmp/testing_iterator" = false → passes (ProductionDatabase.IteratorTest type_name files) = true.
Proof.
  intros Hp. unfold ProductionDatabase.IteratorTest.
  destruct (kv_Open_new Z.ltb Z.lt type_name _ _ Hp) as (db & files' & -> & Hdb & _). run.
  assert (Hxs : Forall (λ i, is_u64 i ∧ is_u64 (i + 200)) (range 0 200))
    by (apply Forall_forall; intros i Hi%elem_of_range; unfold is_u64, u64_max, u64_modulus; lia).
  destruct (puts (range 0 200) ∅ db Hxs Hdb) as (db1 & -> & Hdb1). rewrite bind_Done_eq.
  pose proof (first_of (S := storage) Z.lt _ db1 _ Hdb1 two_hundred_listed) as Hit. revert Hit.
  generalize (KVStorage.Iterator_SeekToFirst (KVStorage.NewIterator db1)). intros it Hit.
  destruct (deletes (range 50 100) _ db1 ltac:(apply Forall_forall; intros i Hi%elem_of_range;
    unfold is_u64, u64_max, u64_modulus; lia) Hdb1) as (db2 & -> & Hdb2). rewrite bind_Done_eq.
  destruct (check_loop (S := storage) Z.lt entry_of ProductionDatabase.check_entry _ 0 it (range 0 200) []
    check_entry_passes Hxs Hit eq_refl) as (bs & it' & Hrun & Hbs & Hit').
  run_loop Hrun. rewrite (past_last (S := storage) Z.lt (entry_of <$> range 0 200)), bind_Done_eq by done.
  destruct (kv_DeleteRange_refines Z.lt _ db2 0 200 Hdb2) as (db3 & -> & _); [by vm_compute..|].
  cbn. rewrite forallb_app. by rewrite Hbs.
Qed.
End passing.

Section strings.
Context (type_name : string) {R : RocksDB} `{!RocksDBLaws R (Comparator String.ltb type_name)}
  `{!RocksOpenLaws R (Comparator String.ltb type_name)}.

Abbreviation storage := (prod_store (V := Z) String.ltb (strict String.le) type_name).

Definition three_strings : list (string * Z) := [("aaa", 1); ("bbb", 2); ("ccc", 3)].

Lemma three_strings_listed : lists_map (strict String.le) (list_to_map three_strings : gmap string Z) three_strings.
Proof.
  split.
  - repeat constructor; (apply (bool_decide_eq_true_1 _); vm_compute; reflexivity).
  - intros k v. apply elem_of_list_to_map. apply (bool_decide_eq_true_1 _). vm_compute. reflexivity.
Qed.

Lemma check_string_entry_passes (e : string * Z) acc (it it' : rocks_iterator) :
  KVStorage.Iterator_Valid it = Done true → KVStorage.Iterator_GetKey (K := string) it = Done e.1 →
  KVStorage.Iterator_GetValue (V := Z) it = Done e.2 → KVStorage.Iterator_Next it = Done it' →
  ∃ bs, ProductionDatabase.check_string_entry e (acc, it) = Done (acc ++ bs, it') ∧ forallb id bs = true.
Proof.
  intros Hval Hk Hv Hn. unfold ProductionDatabase.check_string_entry, EXPECT_EQ.
  rewrite Hval, bind_Done_eq, Hk, bind_Done_eq, Hv, bind_Done_eq, Hn.
  eexists. split; [done|]. simpl. by rewrite !bool_decide_eq_true_2.
Qed.

Lemma StringSerde_passes files :
  rocks_exists files "/tmp/testing_string_serde" = false → passes (ProductionDatabase.StringSerdeTest type_name files) = true.
Proof.
  intros Hp. unfold ProductionDatabase.StringSerdeTest.
  destruct (kv_Open_new String.ltb (strict String.le) type_name _ _ Hp) as (db & files' & -> & Hdb & _). run.
  repeat known_map (strict String.le) Hdb.
  assert (Hm : kv_Put "ccc" 3 (kv_Put "aaa" 1 (kv_Put "bbb" 2 ∅)) = list_to_map three_strings)
    by (vm_compute; reflexivity).
  rewrite Hm in Hdb. pose proof (first_of (S := storage) _ _ _ _ Hdb three_strings_listed) as Hit.
  revert Hit. generalize (KVStorage.Iterator_SeekToFirst (KVStorage.NewIterator db2)). intros it Hit.
  destruct (check_loop (S := storage) _ id ProductionDatabase.check_string_entry _ 0 it three_strings []
    check_string_entry_passes ltac:(by repeat constructor) Hit eq_refl) as (bs & it' & Hrun & Hbs & Hit').
  run_loop Hrun.
  rewrite (past_last (S := storage) _ three_strings), bind_Done_eq by done. cbn. by rewrite forallb_app, Hbs.
Qed.
End strings.

(** The unit tests of the production database pass on every RocksDB that keeps
    the promises of its documentation (for the comparator of the integer keys,
    and for that of the string keys), if none of their databases exists. *)
Theorem production_database_tests_pass (name name' : string) (R R' : RocksDB)
    (laws : RocksDBLaws R (Comparator (K := Z) Z.ltb name))
    (laws' : RocksDBLaws R' (Comparator (K := string) String.ltb name'))
    (opens : RocksOpenLaws R (Comparator (K := Z) Z.ltb name))
    (opens' : RocksOpenLaws R' (Comparator (K := string) String.ltb name'))
    (files : @rocks_files R) (files' : @rocks_files R') :
  (∀ path, rocks_exists files path = false) → (∀ path, rocks_exists files' path = false) →
  forallb passes
    [ProductionDatabase.SimplyWorks name files; ProductionDatabase.MissingDb name files;
     ProductionDatabase.DeleteRangeTest name files; ProductionDatabase.IteratorTest name files;
     ProductionDatabase.OpenDatabaseTwice name files; ProductionDatabase.StringSerdeTest name' files';
     ProductionDatabase.WriteBatchTest name files] = true.
Proof.
  intros Hf Hf'. cbn [forallb].
  rewrite (SimplyWorks_passes name files (Hf _)), (MissingDb_passes name files (Hf _)),
    (DeleteRange_passes name files (Hf _)), (Iterator_passes name files (Hf _)),
    (OpenDatabaseTwice_passes name files (Hf _)), (StringSerde_passes name' files' (Hf' _)),
    (WriteBatch_passes name files (Hf _)). done.
Qed.

(** Keys that are strings. *)
Definition text (a : Data) : string := String.string_of_list_ascii (ascii_of_byte <$> a).
Definition text_le (a b : Data) : Prop := String.le (text a) (text b).
#[export] Instance text_le_dec : RelDecision text_le.
Proof. intros a b. unfold text_le. apply _. Defined.
#[export] Instance text_le_trans : Transitive text_le.
Proof. intros a b c. unfold text_le. apply transitivity. Qed.
#[export] Instance text_le_total : Total text_le.
Proof. intros a b. unfold text_le. apply total, _. Qed.

Lemma cmp_lt_text name a b : cmp_lt (Comparator (K := string) String.ltb name) a b → ¬ text_le b a.
Proof.
  unfold cmp_lt. simpl. unfold Comparator_Compare. simpl. fold (text a) (text b). unfold text_le.
  rewrite !(KeyOrder_spec (Cmp := String.ltb) (lt := strict String.le)).
  case_bool_decide as Hab; [by intros _ Hba; destruct Hab|]. by case_bool_decide.
Qed.

Lemma production_database_tests_pass_witness :
  let cmp := Comparator (K := Z) Z.ltb "u64" in
  let cmp' := Comparator (K := string) String.ltb "string" in
  let R := memory_rocks cmp value_le in
  let R' := memory_rocks cmp' text_le in
  forallb passes
    [ProductionDatabase.SimplyWorks (R := R) "u64" (∅ : gset string); ProductionDatabase.MissingDb (R := R) "u64" (∅ : gset string);
     ProductionDatabase.DeleteRangeTest (R := R) "u64" (∅ : gset string); ProductionDatabase.IteratorTest (R := R) "u64" (∅ : gset string);
     ProductionDatabase.OpenDatabaseTwice (R := R) "u64" (∅ : gset string);
     ProductionDatabase.StringSerdeTest (R := R') "string" (∅ : gset string);
     ProductionDatabase.WriteBatchTest (R := R) "u64" (∅ : gset string)] = true.
Proof.
  intros cmp cmp' R R'.
  apply (production_database_tests_pass "u64" "string" R R'
    (memory_rocks_laws cmp value_le (cmp_lt_value "u64")) (memory_rocks_laws cmp' text_le (cmp_lt_text "string"))
    (memory_rocks_opens cmp value_le (cmp_lt_value "u64")) (memory_rocks_opens cmp' text_le (cmp_lt_text "string")));
    done.
Defined.
